(* ===== verification/_CoqProject ===== *)
-Q . S2P
Prelude.v
Steps.v
TransactionId.v
Slru.v
Clog.v
ClogWal.v
Subtrans.v
Transam.v
Varsup.v
HeapTuple.v
Visibility.v
VisLogic.v
VisSound.v
VisWorld.v
VisMVCC.v
VisVacuum.v
VisUpdate.v
HintWal.v
KnownXids.v
KnownRefine.v
ProcArray.v
ProcInv.v
ProcRun.v
ProcExample.v
ProcGroup.v
ProcGroupRun.v
ProcScan.v
ProcReaders.v
ProcSnapshot.v
ProcRunning.v
ProcWorld.v
ProcFloor.v
ProcProgress.v
ProcHorizon.v
ProcVacuum.v
ProcImport.v
PairingHeap.v
PairingTree.v
SnapMgr.v
SnapMgrInv.v
SnapMgrOps.v
SnapMgrXact.v
SnapText.v
SnapExport.v
SnapMgrRun.v
Standby.v
StandbyLinks.v
StandbyInv.v
StandbyRun.v
StandbySnap.v
StandbyExample.v
Xact.v
XactEnd.v
XactBlock.v
XactLogic.v
XactSession.v
XactSafe.v
XactCommand.v
XactExample.v
XactXids.v
XactAssign.v
XactCommit.v
XactRefine.v
