(* ===== verification/Prelude.v ===== *)
(** * A verification of PostgreSQL's transaction engine

    The sources are those of PostgreSQL 16 under src/src; paths below are
    relative to that directory.  The development models the part of the
    backend that decides which transactions exist, which of them have
    committed, and who sees what they did.

    ** The program and its parts

    A backend runs the statements of a session.  backend/tcop (postgres.c,
    utility.c) turns each message into calls of backend/access/transam/xact.c,
    which keeps a stack of transaction states.  When a transaction first
    writes, xact.c asks varsup.c for an id; the id is announced in the entry
    of the backend in the shared process array (backend/storage/ipc/
    procarray.c), and the parent of a subtransaction is noted in pg_subtrans
    (subtrans.c).  At commit the outcome of the whole tree of ids is written
    to pg_xact (clog.c) through transam.c, and then the ids leave the process
    array.  Both pg_xact and pg_subtrans are paged by slru.c.

    A reader takes a snapshot from the process array and checks the tuples it
    meets with backend/access/heap/heapam_visibility.c, which combines the
    snapshot, the process array, the commit log and hint bits in the tuple.
    Vacuum uses the same file with a horizon computed from the process array.
    Between the two stands backend/utils/time/snapmgr.c, which keeps the
    snapshots a backend still uses, on a stack and in a pairing heap
    (backend/lib/pairingheap.c), and advertises in the process array an xmin
    that holds the horizon back for them.
    On a standby the startup process rebuilds the set of running transactions
    from the WAL in an array of known-assigned ids, which takes the place of
    the process array.

    ** Files

    - Prelude: C integers and flag words, generic lemmas, tactics and hints.
    - Steps: routines that store several times, with the state after each
      store.
    - TransactionId: include/access/transam.h and the comparisons of
      transam.c.  32-bit ids are compared modulo 2^32, 64-bit ids are not.
    - Slru: slru.c; pages with their LSNs, segment files, eviction and
      writing out after the WAL.  Clog: clog.c.  ClogWal: the commit log and
      the WAL.  Subtrans: subtrans.c.  Transam: the lookups and the commit of
      trees of transam.c.
    - Varsup: varsup.c; the state is [VariableCacheData] with the commit log,
      pg_subtrans and the process entry.
    - HeapTuple: the tuple header (htup_details.h), combo command ids
      (combocid.c), multixact members, snapshots and [XidInMVCCSnapshot].
    - Visibility: heapam_visibility.c, one definition per routine.  VisLogic,
      VisSound, VisMVCC, VisVacuum, VisUpdate: its theorems; VisWorld: worlds
      in which they hold.  HintWal: hint bits, the commit log and the WAL
      together.
    - ProcArray: the process array and the operations that change it.
      ProcInv: its representation invariant.  ProcRun: a system of backends
      as a step relation over these operations.  ProcExample: a small system.
    - ProcGroup, ProcGroupRun: [ProcArrayGroupClearXid], at the level of
      single accesses to shared memory.
    - ProcScan: [GetSnapshotData], [TransactionIdIsInProgress],
      [ComputeXidHorizons] and the functions around them.  ProcReaders: all
      other functions of procarray.c that look at the array.  ProcSnapshot,
      ProcRunning, ProcProgress, ProcHorizon, ProcImport: their theorems.
    - ProcWorld, ProcVacuum: the process array and visibility together.
      ProcFloor: the lower bounds on running ids that a backend may rely on.
    - PairingHeap: pairingheap.c on linked nodes in memory.  PairingTree: the
      trees they represent.
    - SnapMgr: snapmgr.c and the snapshot references of resource owners
      (resowner.c); its state is the record of the static variables with the
      snapshots in memory.  SnapMgrInv: the invariant of that memory.
      SnapMgrOps, SnapMgrXact: what each operation does, proved against the
      interfaces [View] and [SnapshotSource], which say what a backend may
      assume of the process array.  SnapText, SnapExport: the text files of
      exported snapshots.  SnapMgrRun: the snapshot manager of a backend in
      the system of ProcRun, which implements those interfaces.
    - KnownXids, KnownRefine: the array of known-assigned ids.  Standby: the
      replay of ids, ends, assignments and snapshots ([ProcArrayApply...],
      [RecordKnownAssignedTransactionIds]).  StandbyLinks, StandbyInv,
      StandbyRun, StandbySnap, StandbyExample: its theorems.
    - Xact: the transaction state of xact.c and its basic operations.
      XactEnd: start, commit, prepare, abort and cleanup.  XactBlock: the
      block state machine.  XactSession: postgres.c and utility.c, and the
      specification of a session.  XactLogic, XactSafe, XactCommand,
      XactRefine, XactXids, XactAssign, XactCommit: their theorems;
      XactExample: a concrete backend.

    ** How code becomes definitions

    Pure functions are functions.  Shared memory is a record that each
    critical section maps to a new one; a function that takes several
    critical sections is a sequence of them.  Where other backends can run in
    between and it matters, what they do is visible in the definition:
    [GetNewTransactionId] takes as argument what happens while it releases
    the lock; a scan of the process array reads the memory [m t] at its
    [t]-th read; a visibility routine reads the world at a clock that every
    question advances; group clearing is a step relation.  Updates of the
    commit log and its truncation are [Steps], which show the state after
    every store, so that a reader or a crash in the middle can be spoken of.  xact.c and the
    visibility routines are written in monads with errors and early return,
    the calls of xact.c into other subsystems are recorded in a trace, and an
    environment decides which of them fail.

    Code outside the sources, or outside the parts modelled, is an argument:
    the state files of prepared transactions, the clock, the position of the
    WAL, permission checks, pg_commit_ts.

    ** What is shown

    - Visibility: the answer of every [HeapTupleSatisfies...] routine is
      characterised by the history of the transactions involved, whatever
      happens during the call; hint bits are set only when true, and do not
      reach the disk before the commit record; a snapshot never changes its
      mind.
    - The process array: every sequence of acts keeps it well formed;
      snapshots, in-progress tests, horizons and the lists of running
      transactions are right although ids are assigned during the scan;
      group clearing terminates without deadlock.
    - Composition: time lines of the process array satisfy the laws assumed
      of the world by the visibility theorems ([TimeLaws], [snapshot_law]);
      so vacuum removes only what no snapshot sees.
    - The snapshot manager: in every run every snapshot in use is allocated,
      counted and covered by the advertised xmin, no operation touches freed
      memory or fails an assertion, and horizons computed elsewhere respect
      the snapshots held; exported snapshots can be imported, and parallel
      workers see what their leader sees.  Pairing heaps are priority queues.
    - Standby: after replaying any sequence of records a snapshot shows what
      is running on the primary; the known-assigned array implements an
      ordered set.
    - Outcomes: trees of transactions commit atomically in every state that
      the update passes through, across pages and under group update; lookups
      terminate and the cache is invisible; the LSN of an asynchronous commit
      is known as long as it matters, through evictions and checkpoints; and
      truncation is safe at every moment.
    - Sessions: no sequence of messages and errors leads to an unexpected
      state, every successful message has the effect that a specification of
      blocks and savepoints prescribes and leaves nothing pending, and a
      transaction is in the commit
      log before it leaves the process array, whatever fails.
    - Ids: fresh, published in the process entry, ordered, within their
      limits and linked before they are used.
    - Divergences: executions in which the code does not do what it means to:
      an id assigned past the stop limit (Varsup), a rolled-back
      subtransaction that commits with its parent (XactCommit), an imported
      xmin that a concurrent horizon misses (ProcImport), a snapshot taken
      during recovery that is empty after an export (SnapExport).  The id of
      a top-level transaction is accepted as current while it is being
      aborted, which a comment denies (XactXids).

    ** Bounds and fuel

    Integers keep their width: [u32], [u64] and [s32] are written where the C
    type wraps.  Theorems that compare 32-bit ids as numbers assume that the
    ids in use span less than 2^31, which the limits of varsup.c maintain
    ([in_window]).  Loops that are not structural take fuel, and the fuel is
    shown to be enough: the walk over parents in pg_subtrans goes from an id
    to an older one until it passes TransactionXmin, so the distance between
    the two bounds it; the recursion of [AssignTransactionId] over parents
    without an id is shown to need no more than two levels; loops over ranges
    of ids or pages get the length of the range.  Printing a number takes up to
    20 digits, which is enough for 64 bits.  Reference counts are 32 bits wide
    and the completion count of the process array 64: SnapMgrRun asks that an
    operation finds room in the former and that a run has fewer than 2^64
    acts.

    ** Not modelled

    - Physical storage: heap buffers, fsync and the contents of WAL records.
      A page is present or missing, and a flush reaches a position.
    - slru.c: the usage counts that decide which page loses its buffer (the
      choice is a parameter), I/O and its errors, and the waiting for single
      buffers.  A page is written out in one step: an update that carries an
      LSN waits for a write in progress ([write_ok]), so that none can come
      between the flush of the WAL and the write.
    - Stores that no observer can tell apart are one step; where this needs an
      argument it is given at the definition ([advertise_xid],
      [end_without_xid] in ProcArray).
    - Sessions: messages other than simple queries, and statements that end
      transactions themselves ([BackendLaws] in XactSession).
    - Memory order: accesses to shared memory are sequentially consistent at
      the granularity stated by each file.
    - procarray.c: [MinimumActiveBackends], a heuristic without locks, debug
      output, the sizes of shared memory, and the old_snapshot_threshold
      feature.
    - snapmgr.c: the old_snapshot_threshold feature, what predicate.c does
      around serializable snapshots, the command ids of logical decoding, and
      the removal of leftover files at server start.  The runs of SnapMgrRun
      have no imports and no historic snapshots: an imported xmin can be
      missed by a horizon (ProcImport), and historic snapshots are protected
      by replication slots.
    - resowner.c beyond snapshot references.
    - heapam.c, multixact.c and pruning, beyond what visibility calls.
    - Everything else of the server (access methods, lock manager, planner,
      executor, catalogs, replication, tools): none of the definitions here
      depends on it, except as an argument that may fail.

    ** This file: notation, C integers, flag words and shared automation *)

From stdpp Require Export base numbers option list gmap strings.
From Stdlib Require Export ZArith Lia.

#[global] Open Scope Z_scope.
#[export] Set Warnings "-clear-no-such-hyp".

(** ** Fixed-width integers

    A C integer is a [Z]; the conversions that the C code performs, explicitly
    or by the width of a variable, are written out with these functions. *)

Definition u8 (z : Z) : Z := z mod 2 ^ 8.
Definition u16 (z : Z) : Z := z mod 2 ^ 16.
Definition u32 (z : Z) : Z := z mod 2 ^ 32.
Definition u64 (z : Z) : Z := z mod 2 ^ 64.
Definition s32 (z : Z) : Z := (z + 2 ^ 31) mod 2 ^ 32 - 2 ^ 31.

Definition is_u32 (z : Z) : Prop := 0 <= z < 2 ^ 32.
Definition is_u64 (z : Z) : Prop := 0 <= z < 2 ^ 64.

Declare Scope c_scope.
Delimit Scope c_scope with C.
Notation "a +u32 b" := (u32 (a + b)) (at level 50, left associativity) : c_scope.
Notation "a -u32 b" := (u32 (a - b)) (at level 50, left associativity) : c_scope.
Notation "a *u32 b" := (u32 (a * b)) (at level 40, left associativity) : c_scope.
Notation "a != b" := (negb (Z.eqb a b)) (at level 70, no associativity) : c_scope.
#[global] Open Scope c_scope.

(** [cint] unfolds the conversions and exposes division and modulo to [lia]. *)
Ltac cint :=
  unfold u8, u16, u32, u64, s32, is_u32, is_u64 in *; Z.to_euclidean_division_equations; lia.

Lemma u32_small z : is_u32 z -> u32 z = z.
Proof. unfold is_u32, u32. intros H. by apply Z.mod_small. Qed.

Lemma u32_range z : is_u32 (u32 z).
Proof. unfold is_u32, u32. apply Z.mod_pos_bound. lia. Qed.

Lemma s32_range z : - 2 ^ 31 <= s32 z < 2 ^ 31.
Proof. cint. Qed.

Lemma s32_small z : - 2 ^ 31 <= z < 2 ^ 31 -> s32 z = z.
Proof. intros. cint. Qed.

Lemma s32_u32 z : s32 (u32 z) = s32 z.
Proof. cint. Qed.

(** ** Flag words

    A test [word & flags] in a C condition is [has_flag word flags]; setting
    flags is [Z.lor]. *)

Definition has_flag (word flags : Z) : bool := negb (Z.land word flags =? 0).

Lemma has_flag_lor m f g : has_flag (Z.lor m f) g = has_flag m g || has_flag f g.
Proof.
  unfold has_flag. rewrite Z.land_lor_distr_l.
  destruct (Z.eqb_spec (Z.land m g) 0) as [Hm|Hm];
    destruct (Z.eqb_spec (Z.land f g) 0) as [Hf|Hf];
    destruct (Z.eqb_spec (Z.lor (Z.land m g) (Z.land f g)) 0) as [H|H]; try done.
  - rewrite Hm, Hf in H. done.
  - apply Z.lor_eq_0_iff in H. tauto.
  - apply Z.lor_eq_0_iff in H. tauto.
  - apply Z.lor_eq_0_iff in H. tauto.
Qed.

Lemma has_flag_lor_r m f g : has_flag m (Z.lor f g) = has_flag m f || has_flag m g.
Proof.
  unfold has_flag. rewrite (Z.land_comm m (Z.lor f g)), (Z.land_comm m f), (Z.land_comm m g).
  apply (has_flag_lor f g m).
Qed.

(** A masked comparison against one bit of a two-bit mask. *)
Lemma land_split m f g :
  Z.land f g = 0 -> (Z.land m (Z.lor f g) =? g) = negb (has_flag m f) && (Z.land m g =? g).
Proof.
  intros Hfg. unfold has_flag. rewrite negb_involutive, Z.land_lor_distr_r.
  assert (Hd : Z.land (Z.land m f) g = 0).
  { rewrite <- Z.land_assoc, Hfg. apply Z.land_0_r. }
  destruct (Z.eqb_spec (Z.land m f) 0) as [->|Hf]; [by rewrite Z.lor_0_l|].
  simpl. apply Z.eqb_neq. intros Heq. apply Hf.
  assert (Hs : Z.land (Z.land m f) (Z.lor (Z.land m f) (Z.land m g)) = Z.land m f).
  { rewrite Z.land_lor_distr_r, Z.land_diag.
    rewrite (Z.land_comm m g), Z.land_assoc, Hd.
    by rewrite Z.land_0_l, Z.lor_0_r. }
  by rewrite Heq, Hd in Hs.
Qed.

(** A flag with a single bit: [word & bit] is either [0] or [bit]. *)
Lemma land_bit m k : 0 <= k -> (Z.land m (2 ^ k) =? 2 ^ k) = has_flag m (2 ^ k).
Proof.
  intros Hk. unfold has_flag.
  assert (Hl : Z.land m (2 ^ k) = if Z.testbit m k then 2 ^ k else 0).
  { apply Z.bits_inj'. intros i Hi. rewrite Z.land_spec, Z.pow2_bits_eqb by done.
    destruct (Z.eqb_spec k i) as [->|Hne].
    - destruct (Z.testbit m i); simpl; [by rewrite Z.pow2_bits_true|by rewrite Z.bits_0].
    - rewrite andb_false_r.
      destruct (Z.testbit m k); [by rewrite Z.pow2_bits_false|by rewrite Z.bits_0]. }
  rewrite Hl. destruct (Z.testbit m k).
  - rewrite Z.eqb_refl. symmetry. apply negb_true_iff, Z.eqb_neq.
    apply Z.pow_nonzero; lia.
  - assert (0 < 2 ^ k) by (apply Z.pow_pos_nonneg; lia).
    change (negb (0 =? 0)) with false. apply Z.eqb_neq. lia.
Qed.

(** ** Arrays of bytes and words

    [read_at a i] is the load [a[i]]; [write_at a i v] the store; both are
    only used with an index in range. *)

Definition read_at (a : list Z) (i : Z) : Z := default 0 (a !! Z.to_nat i).
Definition write_at (a : list Z) (i v : Z) : list Z := <[Z.to_nat i := v]> a.

Lemma read_write_same a i v :
  0 <= i < Z.of_nat (length a) -> read_at (write_at a i v) i = v.
Proof.
  intros Hi. unfold read_at, write_at. rewrite list_lookup_insert_eq; [done|lia].
Qed.

Lemma read_write_other a i j v :
  0 <= i -> 0 <= j -> i <> j -> read_at (write_at a i v) j = read_at a j.
Proof. intros. unfold read_at, write_at. rewrite list_lookup_insert_ne; [done|lia]. Qed.

Lemma length_write a i v : length (write_at a i v) = length a.
Proof. apply length_insert. Qed.

(** ** Errors

    [result E A] is the outcome of code that can leave through
    [ereport(ERROR)] or deeper. *)

Inductive result (E A : Type) : Type :=
| Ok (a : A)
| Err (e : E).
Arguments Ok {E A} a.
Arguments Err {E A} e.

#[export] Instance result_ret E : MRet (result E) := fun _ a => Ok a.
#[export] Instance result_bind E : MBind (result E) :=
  fun _ _ f r => match r with Ok a => f a | Err e => Err e end.

(** An option whose [None] is the given error. *)
Definition or_err {E A} (e : E) (o : option A) : result E A :=
  match o with Some a => Ok a | None => Err e end.

(** ** Lists *)

Lemma filter_all {A} (P : A -> Prop) `{!forall x, Decision (P x)} (l : list A) : Forall P l -> filter P l = l.
Proof. induction 1 as [|x l Hx _ IH]; [done|]. by rewrite filter_cons_True, IH. Qed.

Lemma filter_nil_all {A} (P : A -> Prop) `{!forall x, Decision (P x)} (l : list A) :
  (forall x, x ∈ l -> ~ P x) -> filter P l = [].
Proof.
  induction l as [|x l IH]; intros Hall; [done|]. rewrite filter_cons_False by (apply Hall; left).
  apply IH. intros y Hy. apply Hall. by right.
Qed.

(** The part of a list that [f] selects: from one of its elements back to the
    list, and for a prefix. *)
Lemma omap_split {A B} (f : A -> option B) l l1 y l2 :
  omap f l = l1 ++ y :: l2 ->
  exists k1 x k2, l = k1 ++ x :: k2 /\ omap f k1 = l1 /\ f x = Some y /\ omap f k2 = l2.
Proof.
  revert l1. induction l as [|a l IH]; intros l1; cbn; [by destruct l1|].
  destruct (f a) as [b|] eqn:Ha.
  - destruct l1 as [|b' l1]; cbn; intros [= -> E]; [by exists [], a, l|].
    destruct (IH l1 E) as (k1 & x & k2 & -> & <- & Hx & <-). exists (a :: k1), x, k2. cbn. by rewrite Ha.
  - intros E. destruct (IH l1 E) as (k1 & x & k2 & -> & <- & Hx & <-). exists (a :: k1), x, k2. cbn. by rewrite Ha.
Qed.

Lemma omap_take {A B} (f : A -> option B) l k : exists j, omap f (take k l) = take j (omap f l).
Proof.
  revert k. induction l as [|a l IH]; intros [|k]; cbn; [by exists 0%nat..|]. destruct (IH k) as [j Hj].
  destruct (f a); [exists (S j)|exists j]; cbn; by rewrite Hj.
Qed.

(** ** Automation *)

Create HintDb pg discriminated.
#[export] Hint Resolve u32_range : pg.
Create Rewrite HintDb pg_flags.
#[export] Hint Rewrite has_flag_lor : pg_flags.

(** Case analysis on the scrutinee of the first [if] or [match] of the goal. *)
Ltac case_if :=
  match goal with
  | |- context [if ?b then _ else _] => destruct b eqn:?
  end.

Ltac bool_simpl :=
  repeat match goal with
  | H : negb _ = true |- _ => apply negb_true_iff in H
  | H : negb _ = false |- _ => apply negb_false_iff in H
  | H : (_ && _) = true |- _ => apply andb_true_iff in H; destruct H
  | H : (_ || _) = false |- _ => apply orb_false_iff in H; destruct H
  | H : (_ =? _) = true |- _ => apply Z.eqb_eq in H
  | H : (_ =? _) = false |- _ => apply Z.eqb_neq in H
  | H : (_ <? _) = true |- _ => apply Z.ltb_lt in H
  | H : (_ <? _) = false |- _ => apply Z.ltb_ge in H
  | H : (_ <=? _) = true |- _ => apply Z.leb_le in H
  | H : (_ <=? _) = false |- _ => apply Z.leb_gt in H
  | H : (_ <? _)%nat = true |- _ => apply Nat.ltb_lt in H
  | H : (_ <? _)%nat = false |- _ => apply Nat.ltb_ge in H
  | H : (_ <=? _)%nat = true |- _ => apply Nat.leb_le in H
  | H : (_ <=? _)%nat = false |- _ => apply Nat.leb_gt in H
  end.
