(* ===== verification/Steps.v ===== *)
(** * Steps: updates of shared memory that show every state on the way

    A routine that stores into shared memory several times is not one step
    for the other processes, nor for a crash.  Such a routine is a [Steps]
    here: it fails, or gives the list of the states after each of its stores,
    in order.  The last one is the state it leaves. *)

From S2P Require Import Prelude.

Section Steps.
Context {S : Type}.

Definition Steps : Type := S -> option (list S).

Definition final (s : S) (states : list S) : S := default s (last states).

Definition no_step : Steps := fun _ => Some [].
Definition one_step (f : S -> S) : Steps := fun s => Some [f s].
Definition try_step (f : S -> option S) : Steps := fun s => s' ← f s; Some [s'].
Definition fail_step : Steps := fun _ => None.

Definition seq_steps (m1 m2 : Steps) : Steps := fun s =>
  states1 ← m1 s;
  states2 ← m2 (final s states1);
  Some (states1 ++ states2).

(** The same routine for the elements of a list, in order. *)
Fixpoint each_step {A} (m : A -> Steps) (l : list A) : Steps :=
  match l with
  | [] => no_step
  | x :: l => seq_steps (m x) (each_step m l)
  end.

(** The state a routine leaves. *)
Definition run_steps (m : Steps) (s : S) : option S := final s <$> m s.

Lemma final_app s l1 l2 : final s (l1 ++ l2) = final (final s l1) l2.
Proof. unfold final. rewrite last_app. by destruct (last l2). Qed.

Lemma final_elem s l : final s l = s \/ final s l ∈ l.
Proof.
  unfold final. destruct (last l) as [x|] eqn:E; [|by left]. right. apply last_Some in E as [l' ->]. set_solver.
Qed.

Lemma each_step_app {A} (m : A -> Steps) l1 l2 s :
  each_step m (l1 ++ l2) s = seq_steps (each_step m l1) (each_step m l2) s.
Proof.
  revert s. induction l1 as [|x l1 IH]; intros s; cbn.
  - unfold seq_steps. cbn. by destruct (each_step m l2 s).
  - unfold seq_steps. destruct (m x s) as [t|]; cbn; [|done]. rewrite IH. unfold seq_steps.
    destruct (each_step m l1 (final s t)) as [t1|]; cbn; [|done]. rewrite final_app.
    destruct (each_step m l2 (final (final s t) t1)); cbn; [|done]. by rewrite app_assoc.
Qed.

(** ** Partial correctness *)

(** From a state with [P], the routine leaves one with [Q] if it does not
    fail. *)
Definition steps_ok (P : S -> Prop) (m : Steps) (Q : S -> Prop) : Prop :=
  forall s states, P s -> m s = Some states -> Q (final s states).

Lemma steps_ok_none P : steps_ok P no_step P.
Proof. intros s states HP [= <-]. exact HP. Qed.

Lemma steps_ok_post P m (Q Q' : S -> Prop) : (forall s, Q s -> Q' s) -> steps_ok P m Q -> steps_ok P m Q'.
Proof. intros HQ H s states HP E. by eapply HQ, H. Qed.

Lemma steps_ok_fail P Q : steps_ok P fail_step Q.
Proof. by intros s states _ ?. Qed.

Lemma steps_ok_one P f (Q : S -> Prop) : (forall s, P s -> Q (f s)) -> steps_ok P (one_step f) Q.
Proof. intros H s states HP [= <-]. by apply H. Qed.

Lemma steps_ok_try P f (Q : S -> Prop) : (forall s s', P s -> f s = Some s' -> Q s') -> steps_ok P (try_step f) Q.
Proof.
  intros H s states HP. unfold try_step. destruct (f s) as [s'|] eqn:E; [|done]. intros [= <-]. by eapply H.
Qed.

Lemma steps_ok_seq P m1 R m2 Q : steps_ok P m1 R -> steps_ok R m2 Q -> steps_ok P (seq_steps m1 m2) Q.
Proof.
  intros H1 H2 s states HP. unfold seq_steps. destruct (m1 s) as [l1|] eqn:E1; [|done]. cbn [mbind option_bind].
  destruct (m2 (final s l1)) as [l2|] eqn:E2; [|done]. intros [= <-]. rewrite final_app. by eapply H2, E2; eapply H1.
Qed.

Lemma steps_ok_each {A} P (m : A -> Steps) l : (forall x, x ∈ l -> steps_ok P (m x) P) -> steps_ok P (each_step m l) P.
Proof.
  induction l as [|x l IH]; intros H; [apply steps_ok_none|]. cbn [each_step].
  eapply steps_ok_seq; [apply H; set_solver|]. apply IH. intros y Hy. apply H. set_solver.
Qed.

(** ** Traces of events *)

Section Trace.
Context {E : Type} (event : S -> E -> S).

(** The states after each of a list of events. *)
Fixpoint trace (s : S) (es : list E) : list S :=
  match es with
  | [] => []
  | e :: es => event s e :: trace (event s e) es
  end.

Lemma trace_app s es1 es2 : trace s (es1 ++ es2) = trace s es1 ++ trace (foldl event s es1) es2.
Proof. revert s. induction es1 as [|e es1 IH]; intros s; cbn; [done|]. by rewrite IH. Qed.

Lemma final_trace s es : final s (trace s es) = foldl event s es.
Proof.
  revert s. induction es as [|e es IH]; intros s; [done|]. cbn. rewrite <- IH.
  unfold final. rewrite last_cons. by destruct (last (trace (event s e) es)).
Qed.

Lemma length_trace s es : length (trace s es) = length es.
Proof. revert s. induction es as [|e es IH]; intros s; cbn; [done|]. by rewrite IH. Qed.

(** What has happened at each point. *)
Lemma trace_lookup s es k s' : (s :: trace s es) !! k = Some s' -> s' = foldl event s (take k es).
Proof.
  revert s k. induction es as [|e es IH]; intros s [|k]; cbn; try congruence.
  - by destruct k.
  - intros H. by apply IH.
Qed.

(** The routine [m] consists of the events [es] when it starts in [s]. *)
Definition emits (m : Steps) (s : S) (es : list E) : Prop := m s = Some (trace s es).

Lemma emits_none s : emits no_step s [].
Proof. done. Qed.

Lemma emits_seq m1 m2 s es1 es2 :
  emits m1 s es1 -> emits m2 (foldl event s es1) es2 -> emits (seq_steps m1 m2) s (es1 ++ es2).
Proof.
  unfold emits, seq_steps. intros -> H. cbn [mbind option_bind]. rewrite final_trace, H. cbn [mbind option_bind].
  by rewrite trace_app.
Qed.

Lemma emits_run m s es : emits m s es -> run_steps m s = Some (foldl event s es).
Proof. unfold emits, run_steps. intros ->. cbn. by rewrite final_trace. Qed.
End Trace.
End Steps.

Arguments Steps : clear implicits.
#[export] Hint Resolve steps_ok_none steps_ok_fail : pg.

Declare Scope steps_scope.
Infix ">>>" := seq_steps (at level 60, right associativity) : steps_scope.
#[global] Open Scope steps_scope.
