(* ===== verification/TransactionId.v ===== *)
(** * TransactionId: 32-bit and 64-bit transaction identifiers

    Models src/include/access/transam.h, the comparison functions of
    src/backend/access/transam/transam.c and the XID generator limits of
    src/backend/access/transam/varsup.c.  A [TransactionId] is a [Z] in
    [[0, 2^32)], a [FullTransactionId] a [Z] in [[0, 2^64)]. *)

From stdpp Require Import sorting.
From S2P Require Import Prelude.

(** ** Special values and macros of transam.h *)

Abbreviation TransactionId := Z (only parsing).
Abbreviation FullTransactionId := Z (only parsing).

Definition InvalidTransactionId : TransactionId := 0.
Definition BootstrapTransactionId : TransactionId := 1.
Definition FrozenTransactionId : TransactionId := 2.
Definition FirstNormalTransactionId : TransactionId := 3.
Definition MaxTransactionId : TransactionId := 4294967295.

Definition TransactionIdIsValid (xid : TransactionId) : bool := xid != InvalidTransactionId.
Definition TransactionIdIsNormal (xid : TransactionId) : bool := FirstNormalTransactionId <=? xid.
Definition TransactionIdEquals (id1 id2 : TransactionId) : bool := id1 =? id2.

Definition EpochFromFullTransactionId (x : FullTransactionId) : Z := u32 (Z.shiftr x 32).
Definition XidFromFullTransactionId (x : FullTransactionId) : TransactionId := u32 x.
Definition FullTransactionIdPrecedes (a b : FullTransactionId) : bool := a <? b.
Definition FullTransactionIdFollows (a b : FullTransactionId) : bool := b <? a.
Definition FullTransactionIdFromEpochAndXid (epoch : Z) (xid : TransactionId) : FullTransactionId :=
  Z.lor (u64 (Z.shiftl (u64 (u32 epoch)) 32)) xid.
Definition InvalidFullTransactionId : FullTransactionId :=
  FullTransactionIdFromEpochAndXid 0 InvalidTransactionId.
Definition FirstNormalFullTransactionId : FullTransactionId :=
  FullTransactionIdFromEpochAndXid 0 FirstNormalTransactionId.
Definition FullTransactionIdIsValid (x : FullTransactionId) : bool :=
  TransactionIdIsValid (XidFromFullTransactionId x).

(** [(dest)++; if ((dest) < FirstNormalTransactionId) (dest) = FirstNormalTransactionId] *)
Definition TransactionIdAdvance (dest : TransactionId) : TransactionId :=
  let dest := dest +u32 1 in
  if dest <? FirstNormalTransactionId then FirstNormalTransactionId else dest.

(** The loops that step over the special values run at most three times,
    because there are three special values; the fuel of four covers them and
    [step_over_special_done] shows that the loop condition is false at the end. *)
Fixpoint step_over_special (next : Z -> Z) (low : Z -> Z) (fuel : nat) (dest : Z) : Z :=
  match fuel with
  | O => dest
  | S n => if low dest <? FirstNormalTransactionId
           then step_over_special next low n (next dest) else dest
  end.

Definition FullTransactionIdRetreat (dest : FullTransactionId) : FullTransactionId :=
  let dest := u64 (dest - 1) in
  if FullTransactionIdPrecedes dest FirstNormalFullTransactionId then dest
  else step_over_special (fun d => u64 (d - 1)) XidFromFullTransactionId 4 dest.

Definition FullTransactionIdAdvance (dest : FullTransactionId) : FullTransactionId :=
  let dest := u64 (dest + 1) in
  if FullTransactionIdPrecedes dest FirstNormalFullTransactionId then dest
  else step_over_special (fun d => u64 (d + 1)) XidFromFullTransactionId 4 dest.

(** [do { (dest)--; } while ((dest) < FirstNormalTransactionId)] *)
Definition TransactionIdRetreat (dest : TransactionId) : TransactionId :=
  step_over_special (fun d => d -u32 1) (fun d => d) 4 (dest -u32 1).

Definition TransactionIdRetreatedBy (xid : TransactionId) (amount : Z) : TransactionId :=
  step_over_special (fun d => d -u32 1) (fun d => d) 4 (xid -u32 amount).

(** ** Comparisons of transam.c *)

Definition TransactionIdPrecedes (id1 id2 : TransactionId) : bool :=
  if negb (TransactionIdIsNormal id1) || negb (TransactionIdIsNormal id2)
  then id1 <? id2
  else s32 (id1 -u32 id2) <? 0.

Definition TransactionIdPrecedesOrEquals (id1 id2 : TransactionId) : bool :=
  if negb (TransactionIdIsNormal id1) || negb (TransactionIdIsNormal id2)
  then id1 <=? id2
  else s32 (id1 -u32 id2) <=? 0.

Definition TransactionIdFollows (id1 id2 : TransactionId) : bool :=
  if negb (TransactionIdIsNormal id1) || negb (TransactionIdIsNormal id2)
  then id2 <? id1
  else 0 <? s32 (id1 -u32 id2).

Definition TransactionIdFollowsOrEquals (id1 id2 : TransactionId) : bool :=
  if negb (TransactionIdIsNormal id1) || negb (TransactionIdIsNormal id2)
  then id2 <=? id1
  else 0 <=? s32 (id1 -u32 id2).

(** [while (--nxids >= 0)]: the array is scanned back to front. *)
Fixpoint TransactionIdLatest_loop (result : TransactionId) (rxids : list TransactionId) : TransactionId :=
  match rxids with
  | [] => result
  | x :: rest =>
      TransactionIdLatest_loop (if TransactionIdPrecedes result x then x else result) rest
  end.

Definition TransactionIdLatest (mainxid : TransactionId) (xids : list TransactionId) : TransactionId :=
  TransactionIdLatest_loop mainxid (rev xids).

Definition TransactionIdOlder (a b : TransactionId) : TransactionId :=
  if negb (TransactionIdIsValid a) then b
  else if negb (TransactionIdIsValid b) then a
  else if TransactionIdPrecedes a b then a else b.

Definition FullTransactionIdNewer (a b : FullTransactionId) : FullTransactionId :=
  if negb (FullTransactionIdIsValid a) then b
  else if negb (FullTransactionIdIsValid b) then a
  else if FullTransactionIdFollows a b then a else b.

(** ** The window of comparable identifiers

    [xid_age o x] is the distance from [o] forward to [x] on the 32-bit
    circle.  Within half a turn of any anchor the modulo comparison is the
    order of the distances. *)

Definition xid_age (o x : TransactionId) : Z := u32 (x - o).

Definition normal_xid (x : TransactionId) : Prop := FirstNormalTransactionId <= x < 2 ^ 32.

Definition in_window (o x : TransactionId) : Prop := normal_xid x /\ xid_age o x < 2 ^ 31.

#[global] Instance normal_xid_dec x : Decision (normal_xid x).
Proof. unfold normal_xid. apply _. Defined.

#[global] Instance in_window_dec o x : Decision (in_window o x).
Proof. unfold in_window. apply _. Defined.

Ltac xid_unfold :=
  unfold TransactionIdPrecedes, TransactionIdPrecedesOrEquals, TransactionIdFollows,
    TransactionIdFollowsOrEquals, TransactionIdIsNormal, TransactionIdIsValid, TransactionIdEquals,
    in_window, normal_xid, xid_age, XidFromFullTransactionId, FirstNormalTransactionId,
    InvalidTransactionId in *.

(** Reduces a comparison of two normal identifiers to the signed difference. *)
Ltac xid_cmp :=
  xid_unfold;
  repeat match goal with
  | |- context [3 <=? ?x] => replace (3 <=? x) with true by (symmetry; apply Z.leb_le; cint)
  end; simpl negb; simpl orb; cbv iota; rewrite ?s32_u32.

Lemma normal_TransactionIdIsNormal x : normal_xid x -> TransactionIdIsNormal x = true.
Proof. xid_unfold. lia. Qed.

Lemma normal_TransactionIdIsValid x : normal_xid x -> TransactionIdIsValid x = true.
Proof. xid_unfold. intros. apply negb_true_iff, Z.eqb_neq. lia. Qed.

Lemma precedes_window o x y :
  in_window o x -> in_window o y -> TransactionIdPrecedes x y = (xid_age o x <? xid_age o y).
Proof. intros [Hx ?] [Hy ?]. xid_cmp. cint. Qed.

Lemma precedes_or_equals_window o x y :
  in_window o x -> in_window o y ->
  TransactionIdPrecedesOrEquals x y = (xid_age o x <=? xid_age o y).
Proof. intros [Hx ?] [Hy ?]. xid_cmp. cint. Qed.

Lemma follows_window o x y :
  in_window o x -> in_window o y -> TransactionIdFollows x y = (xid_age o y <? xid_age o x).
Proof. intros [Hx ?] [Hy ?]. xid_cmp. cint. Qed.

Lemma follows_or_equals_window o x y :
  in_window o x -> in_window o y ->
  TransactionIdFollowsOrEquals x y = (xid_age o y <=? xid_age o x).
Proof. intros [Hx ?] [Hy ?]. xid_cmp. cint. Qed.

Lemma xid_age_inj o x y : normal_xid x -> normal_xid y -> xid_age o x = xid_age o y -> x = y.
Proof. xid_unfold. cint. Qed.

Lemma precedes_irrefl x : TransactionIdPrecedes x x = false.
Proof. xid_unfold. destruct (_ || _); [lia|]. cint. Qed.

Lemma in_window_normal o x : in_window o x -> normal_xid x.
Proof. intros []. done. Qed.

#[export] Hint Resolve in_window_normal normal_TransactionIdIsNormal normal_TransactionIdIsValid : pg.

(** Lists of identifiers in ascending order. *)
Definition xid_sorted (o : TransactionId) (l : list TransactionId) : Prop :=
  Forall (in_window o) l /\ StronglySorted (fun x y => xid_age o x < xid_age o y) l.

Lemma xid_sorted_cons o x l :
  xid_sorted o (x :: l) <->
  in_window o x /\ Forall (fun y => xid_age o x < xid_age o y) l /\ xid_sorted o l.
Proof.
  unfold xid_sorted. rewrite Forall_cons. split.
  - intros [[Hx Hl] Hs]. apply StronglySorted_inv in Hs as [? ?]. done.
  - intros (Hx & Hall & Hl & Hs). split; [done|]. by constructor.
Qed.

Lemma xid_sorted_elem o x l : xid_sorted o l -> x ∈ l -> in_window o x.
Proof. intros [Hl _] Hx. by eapply Forall_forall in Hl. Qed.

Lemma xid_sorted_sublist o l1 l2 : l1 `sublist_of` l2 -> xid_sorted o l2 -> xid_sorted o l1.
Proof.
  induction 1 as [|x l1 l2 Hs IH|x l1 l2 Hs IH]; [done|..]; rewrite !xid_sorted_cons.
  - intros (Hx & Hall & Hl). split_and!; [done| |by apply IH].
    rewrite Forall_forall in *. intros y Hy. by eapply Hall, elem_of_sublist.
  - intros (_ & _ & Hl). by apply IH.
Qed.

Lemma xid_sorted_lookup o l (i j : nat) x y :
  xid_sorted o l -> l !! i = Some x -> l !! j = Some y -> (i < j)%nat -> xid_age o x < xid_age o y.
Proof.
  revert i j. induction l as [|z l IH]; [done|]. intros i j Hs. apply xid_sorted_cons in Hs as (Hz & Hall & Hs).
  destruct i as [|i]; destruct j as [|j]; cbn; intros Hi Hj Hij; [lia| |lia|eapply IH; eauto; lia].
  simplify_eq. by eapply Forall_lookup_1 in Hall.
Qed.

Lemma xid_sorted_app o l1 l2 : xid_sorted o (l1 ++ l2) -> xid_sorted o l1 /\ xid_sorted o l2.
Proof.
  intros [Hw Hs]. apply Forall_app in Hw as [Hw1 Hw2].
  split; (split; [done|]); [by eapply StronglySorted_app_1_l|by eapply StronglySorted_app_1_r].
Qed.

Lemma xid_sorted_NoDup o l : xid_sorted o l -> NoDup l.
Proof.
  induction l as [|x l IH]; [constructor|]. rewrite xid_sorted_cons. intros (Hx & Hall & Hl).
  constructor; [|by apply IH]. intros Hin. rewrite Forall_forall in Hall. specialize (Hall _ Hin). lia.
Qed.

(** ** Agreement of 32-bit and 64-bit identifiers *)

Lemma TransactionIdRetreat_normal x :
  normal_xid x -> TransactionIdRetreat x = if x =? FirstNormalTransactionId then MaxTransactionId else x - 1.
Proof.
  intros Hx. destruct (Z.eqb_spec x FirstNormalTransactionId) as [->|Hne]; [done|].
  unfold TransactionIdRetreat. cbn [step_over_special].
  replace (_ <? _) with false; [xid_unfold; cint|]. symmetry. apply Z.ltb_ge. revert Hx Hne. xid_unfold. cint.
Qed.

(** C30. comparing the 32-bit parts of two full transaction ids that lie less
    than 2^31 apart gives the order of the 64-bit ids themselves, wherever the
    32-bit counter wraps between them. *)
Theorem TransactionIdPrecedes_full (f1 f2 : FullTransactionId) :
  is_u64 f1 -> is_u64 f2 ->
  normal_xid (XidFromFullTransactionId f1) -> normal_xid (XidFromFullTransactionId f2) ->
  Z.abs (f1 - f2) < 2 ^ 31 ->
  TransactionIdPrecedes (XidFromFullTransactionId f1) (XidFromFullTransactionId f2)
    = FullTransactionIdPrecedes f1 f2 /\
  TransactionIdFollowsOrEquals (XidFromFullTransactionId f1) (XidFromFullTransactionId f2)
    = negb (FullTransactionIdPrecedes f1 f2).
Proof.
  intros H1 H2 N1 N2 Hd. unfold FullTransactionIdPrecedes. split; xid_cmp; cint.
Qed.

Lemma TransactionIdPrecedes_full_witness :
  TransactionIdPrecedes 4294967290 7 = true /\
  TransactionIdFollowsOrEquals 4294967290 7 = false.
Proof.
  exact (TransactionIdPrecedes_full 4294967290 4294967303
           ltac:(done) ltac:(done) ltac:(done) ltac:(done) ltac:(done)).
Defined.

Lemma step_over_special_done next low (steps : nat) (dest : Z) (fuel : nat) :
  (steps < fuel)%nat ->
  (forall k, (k < steps)%nat -> low (Nat.iter k next dest) < FirstNormalTransactionId) ->
  FirstNormalTransactionId <= low (Nat.iter steps next dest) ->
  step_over_special next low fuel dest = Nat.iter steps next dest.
Proof.
  revert dest fuel. induction steps as [|n IH]; intros dest fuel Hf Hlt Hge;
    destruct fuel as [|fuel]; try lia; simpl.
  - simpl in Hge. replace (low dest <? FirstNormalTransactionId) with false; [done|lia].
  - replace (low dest <? FirstNormalTransactionId) with true
      by (specialize (Hlt 0%nat ltac:(lia)); simpl in Hlt; lia).
    change (next (Nat.iter n next dest)) with (Nat.iter (S n) next dest).
    rewrite Nat.iter_succ_r. apply IH; [lia| |].
    + intros k Hk. rewrite <- Nat.iter_succ_r. apply Hlt. lia.
    + by rewrite <- Nat.iter_succ_r.
Qed.

Lemma FullTransactionIdAdvance_normal f :
  is_u64 f -> f + 4 < 2 ^ 64 -> normal_xid (XidFromFullTransactionId f) ->
  FullTransactionIdAdvance f =
    if XidFromFullTransactionId f =? MaxTransactionId then f + 4 else f + 1.
Proof.
  intros H Hlt N. unfold FullTransactionIdAdvance, FullTransactionIdPrecedes.
  change FirstNormalFullTransactionId with 3. unfold MaxTransactionId.
  assert (Hf : 3 <= f) by (xid_unfold; cint).
  assert (Hu : u64 (f + 1) = f + 1) by cint. rewrite Hu.
  replace (f + 1 <? 3) with false by lia.
  destruct (Z.eqb_spec (XidFromFullTransactionId f) 4294967295) as [E|E].
  - rewrite (step_over_special_done _ _ 3); xid_unfold; [simpl; cint|lia| |simpl; cint].
    intros k Hk. destruct k as [|[|[|k]]]; simpl; cint.
  - rewrite (step_over_special_done _ _ 0); xid_unfold; [done|lia|lia|]. simpl. cint.
Qed.

(** Advancing a 64-bit id and taking its 32-bit part is advancing the
    32-bit part, and the result is again a normal id: the generator of full
    ids and the 32-bit macro skip the same special values at wraparound. *)
Theorem FullTransactionIdAdvance_xid (f : FullTransactionId) :
  is_u64 f -> f + 4 < 2 ^ 64 -> normal_xid (XidFromFullTransactionId f) ->
  XidFromFullTransactionId (FullTransactionIdAdvance f)
    = TransactionIdAdvance (XidFromFullTransactionId f) /\
  normal_xid (XidFromFullTransactionId (FullTransactionIdAdvance f)) /\
  f < FullTransactionIdAdvance f.
Proof.
  intros H Hlt N. rewrite FullTransactionIdAdvance_normal by done.
  unfold TransactionIdAdvance, MaxTransactionId.
  destruct (Z.eqb_spec (XidFromFullTransactionId f) 4294967295) as [E|E].
  - rewrite E. change (4294967295 +u32 1) with 0. simpl. xid_unfold. cint.
  - destruct (Z.ltb_spec (XidFromFullTransactionId f +u32 1) FirstNormalTransactionId);
      xid_unfold; cint.
Qed.

Lemma FullTransactionIdAdvance_xid_witness :
  XidFromFullTransactionId (FullTransactionIdAdvance 4294967295) = 3 /\
  normal_xid (XidFromFullTransactionId (FullTransactionIdAdvance 4294967295)) /\
  4294967295 < FullTransactionIdAdvance 4294967295.
Proof. exact (FullTransactionIdAdvance_xid 4294967295 ltac:(done) ltac:(done) ltac:(done)). Defined.

(** At a distance of exactly 2^31 each of two normal ids precedes the other,
    so half a turn is the limit of the comparison. *)
Lemma TransactionIdPrecedes_half_turn x :
  normal_xid x -> normal_xid (x +u32 2 ^ 31) ->
  TransactionIdPrecedes x (x +u32 2 ^ 31) = true /\
  TransactionIdPrecedes (x +u32 2 ^ 31) x = true.
Proof. intros. split; xid_cmp; cint. Qed.

(** ** [TransactionIdLatest] *)

Lemma TransactionIdLatest_loop_spec o result xids :
  in_window o result -> Forall (in_window o) xids ->
  let r := TransactionIdLatest_loop result xids in
  In r (result :: xids) /\ in_window o r /\
  Forall (fun x => xid_age o x <= xid_age o r) (result :: xids).
Proof.
  intros Hr Hxs. revert result Hr. induction Hxs as [|x xs Hx Hxs IH]; intros result Hr; simpl.
  - repeat constructor; [apply Hr..|done].
  - rewrite (precedes_window o) by done.
    destruct (Z.ltb_spec (xid_age o result) (xid_age o x)) as [Hlt|Hge].
    + destruct (IH x Hx) as (Hin & Hw & Hall). split_and!; [simpl in Hin; tauto|done|].
      inversion Hall; subst. constructor; [lia|by constructor].
    + destruct (IH result Hr) as (Hin & Hw & Hall). split_and!; [simpl in Hin; tauto|done|].
      inversion Hall; subst. constructor; [done|constructor; [lia|done]].
Qed.

(** [TransactionIdLatest] returns one of the given ids, and no id of the
    tree follows it, when the ids of the tree fit in half a turn. *)
Theorem TransactionIdLatest_spec (o mainxid : TransactionId) (xids : list TransactionId) :
  in_window o mainxid -> Forall (in_window o) xids ->
  let r := TransactionIdLatest mainxid xids in
  In r (mainxid :: xids) /\
  Forall (fun x => TransactionIdPrecedesOrEquals x r = true) (mainxid :: xids).
Proof.
  intros Hm Hxs. unfold TransactionIdLatest.
  assert (Hrev : Forall (in_window o) (rev xids)) by by apply Forall_rev.
  destruct (TransactionIdLatest_loop_spec o mainxid (rev xids) Hm Hrev) as (Hin & Hw & Hall).
  split; [simpl in *; rewrite <- in_rev in Hin; tauto|].
  assert (Hle : Forall (fun x => xid_age o x <= xid_age o
            (TransactionIdLatest_loop mainxid (rev xids))) (mainxid :: xids)).
  { inversion Hall as [|? ? Hr Hl]; subst. constructor; [done|].
    apply Forall_rev in Hl. by rewrite rev_involutive in Hl. }
  clear Hall. assert (Hall : Forall (in_window o) (mainxid :: xids)) by by constructor.
  revert Hle Hall. generalize (mainxid :: xids). intros l Hle Hall.
  rewrite Forall_forall in *. intros x Hx.
  rewrite (precedes_or_equals_window o) by auto. apply Z.leb_le. auto.
Qed.

Lemma TransactionIdLatest_spec_witness :
  let r := TransactionIdLatest 4294967290 [4294967295; 5; 4] in
  In r (4294967290 :: [4294967295; 5; 4]) /\
  Forall (fun x => TransactionIdPrecedesOrEquals x r = true) (4294967290 :: [4294967295; 5; 4]).
Proof.
  apply (TransactionIdLatest_spec 4294967290).
  - split; done.
  - repeat constructor; done.
Defined.
