(* ===== verification/Slru.v ===== *)
(** * Slru: the page store behind the commit log and pg_subtrans

    The page-level behaviour of src/backend/access/transam/slru.c that its
    clients rely on.  A page is in a shared buffer, in its segment file, or in
    both; [pages] gives what a process finds that asks for it.  A clean buffer
    and its file agree, so one copy stands for both; a page that is only in
    its file has no LSNs, because they are zeroed when it is read in again
    ([SimpleLruZeroLSNs]).  A page that is in neither place is missing, and
    reading it is the I/O error slru.c reports.

    To read a page in, another one may have to give up its buffer: it is
    written out if it is dirty, after the WAL has been flushed to the latest
    of its LSNs, and from then on its LSNs are forgotten.  Which page that is
    depends on the usage counts; here [lru_victim] gives the choices.  It is
    never the latest page.  The number of buffers is left open.  Each call is
    one step: waiting for the I/O of others and the retries around it are not
    modelled, nor are failing writes. *)

From S2P Require Import Prelude Steps TransactionId.

Definition BLCKSZ : Z := 8192.
Definition SLRU_PAGES_PER_SEGMENT : Z := 32.

Abbreviation XLogRecPtr := Z (only parsing).

Definition InvalidXLogRecPtr : XLogRecPtr := 0.
Definition XLogRecPtrIsInvalid (r : XLogRecPtr) : bool := r =? InvalidXLogRecPtr.

(** One page: its entries (bytes for pg_xact, xids for pg_subtrans), the LSNs
    of its entry groups and whether the disk copy is out of date. *)
Record SlruPage := mkSlruPage {
  page_buffer : list Z;
  group_lsn : list XLogRecPtr;
  page_dirty : bool;
}.

(** The pages, the segment files that exist (by their first page), how far the
    WAL is flushed, and the choice of buffers to reuse: for the [n]th read or
    new page the page that has to go, [None] when it is already in a buffer
    or a buffer is free. *)
Record Slru := mkSlru {
  pages : gmap Z SlruPage;
  segments : gset Z;
  latest_page_number : Z;
  wal_flushed : XLogRecPtr;
  cur_lru_count : nat;
  lru_victim : nat -> option Z;
}.

Definition slru_init (victim : nat -> option Z) : Slru := mkSlru ∅ ∅ 0 0 0 victim.
Definition no_victims : nat -> option Z := fun _ => None.

(** The static parameters of one SLRU: the number of entries of a page, of
    LSN groups per page, and the page order used by truncation. *)
Record SlruCtl := mkSlruCtl {
  entries_per_page : nat;
  lsn_groups_per_page : nat;
  PagePrecedes : Z -> Z -> bool;
}.

Definition with_pages (f : gmap Z SlruPage -> gmap Z SlruPage) (c : Slru) : Slru :=
  mkSlru (f (pages c)) (segments c) (latest_page_number c) (wal_flushed c) (cur_lru_count c) (lru_victim c).

(** Store back a page modified in its slot. *)
Definition put_page (pageno : Z) (p : SlruPage) (c : Slru) : Slru := with_pages <[pageno := p]> c.

Definition set_latest (pageno : Z) (c : Slru) : Slru :=
  mkSlru (pages c) (segments c) pageno (wal_flushed c) (cur_lru_count c) (lru_victim c).

(** First page of the segment file that holds a page. *)
Definition segpage_of (pageno : Z) : Z :=
  pageno / SLRU_PAGES_PER_SEGMENT * SLRU_PAGES_PER_SEGMENT.

(** ** Writing out and reading in *)

Definition XLogFlush (record : XLogRecPtr) (c : Slru) : Slru :=
  if record <=? wal_flushed c then c
  else mkSlru (pages c) (segments c) (latest_page_number c) record (cur_lru_count c) (lru_victim c).

(** The largest LSN of a page. *)
Definition max_lsn (lsns : list XLogRecPtr) : XLogRecPtr :=
  foldl (fun max this => if max <? this then this else max) InvalidXLogRecPtr lsns.

Definition SlruPhysicalWritePage (pageno : Z) (p : SlruPage) (c : Slru) : Slru :=
  let max := max_lsn (group_lsn p) in
  let c := if negb (XLogRecPtrIsInvalid max) then XLogFlush max c else c in
  mkSlru (pages c) ({[segpage_of pageno]} ∪ segments c) (latest_page_number c) (wal_flushed c)
    (cur_lru_count c) (lru_victim c).

Definition SlruInternalWritePage (pageno : Z) (c : Slru) : Slru :=
  match pages c !! pageno with
  | Some p =>
      if negb (page_dirty p) then c
      else put_page pageno (mkSlruPage (page_buffer p) (group_lsn p) false) (SlruPhysicalWritePage pageno p c)
  | None => c
  end.

Definition SimpleLruWriteAll (c : Slru) : Slru :=
  foldl (fun c kv => SlruInternalWritePage kv.1 c) c (map_to_list (pages c)).

Definition SimpleLruZeroLSNs (p : SlruPage) : SlruPage :=
  mkSlruPage (page_buffer p) (replicate (length (group_lsn p)) InvalidXLogRecPtr) (page_dirty p).

(** A page gives up its buffer. *)
Definition evict_page (pageno : Z) (c : Slru) : Slru :=
  with_pages (alter SimpleLruZeroLSNs pageno) (SlruInternalWritePage pageno c).

(** Find a buffer for a page. *)
Definition SlruSelectLRUPage (pageno : Z) (c : Slru) : Slru :=
  let victim := lru_victim c (cur_lru_count c) in
  let c := mkSlru (pages c) (segments c) (latest_page_number c) (wal_flushed c) (S (cur_lru_count c)) (lru_victim c) in
  match victim with
  | Some v => if (v =? latest_page_number c) || (v =? pageno) then c else evict_page v c
  | None => c
  end.

Definition SimpleLruReadPage (pageno : Z) (c : Slru) : option (SlruPage * Slru) :=
  let c := SlruSelectLRUPage pageno c in
  p ← pages c !! pageno;
  Some (p, c).

(** The page a reader gets.  What reading does to the buffers it shares with
    [SimpleLruReadPage], and no page is changed. *)
Definition SimpleLruReadPage_ReadOnly (pageno : Z) (c : Slru) : option SlruPage := pages c !! pageno.

Section WithCtl.
Context (ctl : SlruCtl).

Definition zero_page : SlruPage :=
  mkSlruPage (replicate (entries_per_page ctl) 0) (replicate (lsn_groups_per_page ctl) 0) true.

Definition SimpleLruZeroPage (pageno : Z) (c : Slru) : Slru :=
  set_latest pageno (put_page pageno zero_page (SlruSelectLRUPage pageno c)).

Definition SlruMayDeleteSegment (segpage cutoffPage : Z) : bool :=
  let seg_last_page := segpage + SLRU_PAGES_PER_SEGMENT - 1 in
  PagePrecedes ctl segpage cutoffPage && PagePrecedes ctl seg_last_page cutoffPage.

(** [SlruScanDirectory] with [SlruScanDirCbReportPresence]. *)
Definition SlruScanReportPresence (cutoffPage : Z) (c : Slru) : bool :=
  existsb (fun segpage => SlruMayDeleteSegment segpage cutoffPage) (elements (segments c)).

(** [SlruScanDirectory] with [SlruScanDirCbDeleteCutoff]. *)
Definition SlruScanDeleteCutoff (cutoffPage : Z) (c : Slru) : Slru :=
  mkSlru (filter (fun kv => SlruMayDeleteSegment (segpage_of kv.1) cutoffPage = false) (pages c))
    (filter (fun segpage => SlruMayDeleteSegment segpage cutoffPage = false) (segments c))
    (latest_page_number c) (wal_flushed c) (cur_lru_count c) (lru_victim c).

(** The buffers of old pages are given up, then whole segments are removed. *)
Definition SimpleLruTruncate (cutoffPage : Z) (c : Slru) : Slru :=
  if PagePrecedes ctl (latest_page_number c) cutoffPage then c
  else
    let old := filter (fun kv => PagePrecedes ctl kv.1 cutoffPage = true) (map_to_list (pages c)) in
    SlruScanDeleteCutoff cutoffPage (foldl (fun c kv => evict_page kv.1 c) c old).

Lemma read_zero_page i : read_at (page_buffer zero_page) i = 0.
Proof.
  unfold read_at. cbn [page_buffer zero_page].
  destruct (replicate (entries_per_page ctl) 0 !! Z.to_nat i) eqn:H; [|done].
  by apply lookup_replicate in H as [-> _].
Qed.

End WithCtl.

(** ** What stays the same

    Writing out and giving up buffers does not change what the pages
    contain. *)

Definition contents (p : SlruPage) : list Z * nat := (page_buffer p, length (group_lsn p)).

Record same_contents (c c' : Slru) : Prop := same_contents_intro {
  same_page pageno : contents <$> pages c !! pageno = contents <$> pages c' !! pageno;
}.

#[export] Instance same_contents_equiv : Equivalence same_contents.
Proof.
  split; [by intros c; constructor|intros c c' [H]; by constructor|].
  intros c1 c2 c3 [H1] [H2]. constructor. intros k. by rewrite H1.
Qed.

#[export] Instance put_page_same pageno p : Proper (same_contents ==> same_contents) (put_page pageno p).
Proof.
  intros c c' [H]. constructor. intros k. cbn. destruct (decide (k = pageno)) as [->|Hne]; [by rewrite !lookup_insert_eq|].
  by rewrite !lookup_insert_ne.
Qed.

Lemma same_contents_page c c' pageno p :
  same_contents c c' -> pages c !! pageno = Some p -> exists p', pages c' !! pageno = Some p' /\ contents p' = contents p.
Proof.
  intros [H] Hp. specialize (H pageno). rewrite Hp in H. destruct (pages c' !! pageno) as [p'|]; [|done].
  exists p'. split; [done|]. cbn in H. congruence.
Qed.

Lemma same_contents_Forall (P : list Z * nat -> Prop) c c' :
  same_contents c c' -> map_Forall (fun _ p => P (contents p)) (pages c) -> map_Forall (fun _ p => P (contents p)) (pages c').
Proof.
  intros H HP k p' Hp'. destruct (same_contents_page c' c k p') as (p & Hp & <-); [by symmetry|done|]. by eapply HP.
Qed.

Lemma same_contents_missing c c' pageno : same_contents c c' -> pages c !! pageno = None <-> pages c' !! pageno = None.
Proof. intros [H]. specialize (H pageno). destruct (pages c !! pageno), (pages c' !! pageno); naive_solver. Qed.

Lemma same_contents_is_Some c c' pageno :
  same_contents c c' -> is_Some (pages c !! pageno) -> is_Some (pages c' !! pageno).
Proof. intros H [p Hp]. destruct (same_contents_page c c' pageno p H Hp) as (p' & Hp' & _). by exists p'. Qed.

(** A page replaced by one with the same contents. *)
Lemma put_same_contents pageno p q c :
  pages c !! pageno = Some p -> contents q = contents p -> same_contents (put_page pageno q c) c.
Proof.
  intros Hp Hq. constructor. intros k. cbn. destruct (decide (k = pageno)) as [->|Hne]; [|by rewrite lookup_insert_ne].
  rewrite lookup_insert_eq, Hp. cbn. by rewrite Hq.
Qed.

Lemma XLogFlush_pages lsn c : pages (XLogFlush lsn c) = pages c.
Proof. unfold XLogFlush. by case_if. Qed.

Lemma PhysicalWritePage_pages pageno p c : pages (SlruPhysicalWritePage pageno p c) = pages c.
Proof. unfold SlruPhysicalWritePage. cbn. case_if; [apply XLogFlush_pages|done]. Qed.

Lemma SlruInternalWritePage_same pageno c : same_contents (SlruInternalWritePage pageno c) c.
Proof.
  unfold SlruInternalWritePage. destruct (pages c !! pageno) as [p|] eqn:Hp; [|done]. case_if; [done|].
  transitivity (SlruPhysicalWritePage pageno p c).
  - apply (put_same_contents _ p); [by rewrite PhysicalWritePage_pages|done].
  - constructor. intros k. by rewrite PhysicalWritePage_pages.
Qed.

Lemma evict_page_same pageno c : same_contents (evict_page pageno c) c.
Proof.
  transitivity (SlruInternalWritePage pageno c); [|apply SlruInternalWritePage_same]. constructor. intros k. cbn.
  destruct (decide (k = pageno)) as [->|Hne]; [|by rewrite lookup_alter_ne]. rewrite lookup_alter_eq.
  destruct (pages _ !! pageno); [|done]. cbn. unfold contents. cbn. by rewrite length_replicate.
Qed.

Lemma evict_pages_same {A} (l : list (Z * A)) c : same_contents (foldl (fun c kv => evict_page kv.1 c) c l) c.
Proof.
  revert c. induction l as [|kv l IH]; intros c; cbn; [done|]. rewrite IH. apply evict_page_same.
Qed.

Lemma SlruSelectLRUPage_same pageno c : same_contents (SlruSelectLRUPage pageno c) c.
Proof.
  unfold SlruSelectLRUPage. destruct (lru_victim c (cur_lru_count c)) as [v|]; [|done].
  case_if; [done|]. etransitivity; [apply evict_page_same|]. by constructor.
Qed.

Lemma SimpleLruReadPage_spec pageno c :
  SimpleLruReadPage pageno c = (fun p => (p, SlruSelectLRUPage pageno c)) <$> pages (SlruSelectLRUPage pageno c) !! pageno.
Proof. unfold SimpleLruReadPage. by destruct (pages _ !! pageno). Qed.

Lemma SimpleLruReadPage_found pageno c p :
  pages c !! pageno = Some p ->
  exists q, SimpleLruReadPage pageno c = Some (q, SlruSelectLRUPage pageno c)
    /\ pages (SlruSelectLRUPage pageno c) !! pageno = Some q /\ contents q = contents p.
Proof.
  intros Hp. destruct (same_contents_page c (SlruSelectLRUPage pageno c) pageno p) as (q & Hq & E);
    [symmetry; apply SlruSelectLRUPage_same|done|].
  exists q. by rewrite SimpleLruReadPage_spec, Hq.
Qed.

Lemma pages_zero_page ctl pageno k c :
  contents <$> pages (SimpleLruZeroPage ctl pageno c) !! k
  = if decide (k = pageno) then Some (contents (zero_page ctl)) else contents <$> pages c !! k.
Proof.
  cbn. case_decide as Hk; [subst; by rewrite lookup_insert_eq|]. rewrite lookup_insert_ne by done.
  apply same_page, SlruSelectLRUPage_same.
Qed.

(** Truncation keeps the contents of every page whose segment may not be deleted. *)
Lemma SimpleLruTruncate_keeps ctl cutoffPage c pageno :
  SlruMayDeleteSegment ctl (segpage_of pageno) cutoffPage = false ->
  contents <$> pages (SimpleLruTruncate ctl cutoffPage c) !! pageno = contents <$> pages c !! pageno.
Proof.
  intros Hkeep. unfold SimpleLruTruncate. case_if; [done|]. set (old := filter _ _).
  rewrite <- (same_page _ _ (evict_pages_same old c)). cbn.
  destruct (pages (foldl _ c old) !! pageno) as [p|] eqn:Hp.
  - by rewrite (proj2 (map_lookup_filter_Some _ _ _ _) (conj Hp Hkeep)).
  - rewrite (proj2 (map_lookup_filter_None _ _ _)); [done|by left].
Qed.

Lemma SimpleLruTruncate_removes ctl cutoffPage c pageno :
  PagePrecedes ctl (latest_page_number c) cutoffPage = false ->
  SlruMayDeleteSegment ctl (segpage_of pageno) cutoffPage = true ->
  pages (SimpleLruTruncate ctl cutoffPage c) !! pageno = None.
Proof.
  intros Hl Hdel. unfold SimpleLruTruncate. rewrite Hl. cbn.
  apply map_lookup_filter_None. right. intros p _ Hf. cbn in Hf. congruence.
Qed.

(** ** Page orders of the transaction-indexed SLRUs

    pg_xact and pg_subtrans order their pages by the transaction ids they
    hold; both callbacks compare the first xid of one page with the first and
    the last xid of the other, at an offset that avoids the special xids. *)

Lemma segpage_of_range pageno :
  segpage_of pageno <= pageno <= segpage_of pageno + SLRU_PAGES_PER_SEGMENT - 1.
Proof.
  unfold segpage_of, SLRU_PAGES_PER_SEGMENT. Z.to_euclidean_division_equations; lia.
Qed.

Definition xid_page_precedes (per_page page1 page2 : Z) : bool :=
  let xid1 := u32 page1 *u32 per_page in
  let xid1 := xid1 +u32 (FirstNormalTransactionId + 1) in
  let xid2 := u32 page2 *u32 per_page in
  let xid2 := xid2 +u32 (FirstNormalTransactionId + 1) in
  TransactionIdPrecedes xid1 xid2
  && TransactionIdPrecedes xid1 (u32 (xid2 + per_page - 1)).

(** The page order is a distance on the circle of pages. *)
Lemma xid_page_precedes_dist per_page npages page1 page2 :
  (per_page = 2048 /\ npages = 2097152 \/ per_page = 32768 /\ npages = 131072) ->
  0 <= page1 < npages -> 0 <= page2 < npages ->
  xid_page_precedes per_page page1 page2 = true ->
  0 < (page2 - page1) mod npages < npages / 2.
Proof.
  intros Hn H1 H2. unfold xid_page_precedes, FirstNormalTransactionId.
  destruct Hn as [[-> ->]|[-> ->]];
    rewrite !(u32_small page1), !(u32_small page2) by (unfold is_u32; lia);
    rewrite !(u32_small (page1 * _)), !(u32_small (page2 * _)) by (unfold is_u32; lia);
    rewrite !(u32_small (_ * _ + (3 + 1))) by (unfold is_u32; lia);
    intros [Ha Hb]%andb_true_iff; revert Ha Hb; xid_cmp; cint.
Qed.

(** A segment that may be deleted holds only transactions more than half the
    xid space ahead of the cutoff, that is, in its past. *)
Lemma SlruMayDeleteSegment_age ctl per_page npages x o :
  (forall p q, PagePrecedes ctl p q = xid_page_precedes per_page p q) ->
  (per_page = 2048 /\ npages = 2097152 \/ per_page = 32768 /\ npages = 131072) ->
  is_u32 x -> is_u32 o ->
  SlruMayDeleteSegment ctl (segpage_of (x / per_page)) (o / per_page) = true ->
  2 ^ 31 < xid_age o x.
Proof.
  intros Hpp Hn Hx Ho. unfold SlruMayDeleteSegment. rewrite !Hpp.
  pose proof (segpage_of_range (x / per_page)) as Hseg.
  assert (Hmul : segpage_of (x / per_page) mod 32 = 0) by (by apply Z.mod_mul).
  set (s := segpage_of (x / per_page)) in *. clearbody s.
  assert (Hq : 0 <= o / per_page < npages) by (destruct Hn as [[-> ->]|[-> ->]]; cint).
  assert (Hp : 0 <= x / per_page < npages) by (destruct Hn as [[-> ->]|[-> ->]]; cint).
  unfold SLRU_PAGES_PER_SEGMENT in *.
  assert (Hs : 0 <= s /\ s + 32 - 1 < npages).
  { destruct Hn as [[-> ->]|[-> ->]]; Z.to_euclidean_division_equations; lia. }
  intros [H1 H2]%andb_true_iff.
  apply (xid_page_precedes_dist _ npages) in H1; [|done|lia|done].
  apply (xid_page_precedes_dist _ npages) in H2; [|done|lia|done].
  assert (Hd : 0 < (o / per_page - x / per_page) mod npages < npages / 2).
  { destruct Hn as [[-> ->]|[-> ->]]; clear -H1 H2 Hseg Hs Hq Hp;
      Z.to_euclidean_division_equations; lia. }
  unfold xid_age. clear -Hd Hx Ho Hn Hp Hq.
  destruct Hn as [[-> ->]|[-> ->]]; cint.
Qed.
