(* ===== verification/Clog.v ===== *)
(** * Clog: the commit log (pg_xact)

    Models src/backend/access/transam/clog.c.  Two bits per transaction are
    packed four to a byte on pages of [BLCKSZ] bytes.

    A slot of the buffer pool is identified with the page it holds (see
    Slru).  Locks are not modelled; every definition below is the body of one
    section protected by [XactSLRULock] or a sequence of such sections.  The
    updates of statuses are [Steps]: they show the log after every single
    store, so that the order of the stores can be stated. *)

From S2P Require Import Prelude Steps TransactionId Slru.

(** ** Statuses of clog.h and layout constants *)

Abbreviation XidStatus := Z (only parsing).
Definition TRANSACTION_STATUS_IN_PROGRESS : XidStatus := 0.
Definition TRANSACTION_STATUS_COMMITTED : XidStatus := 1.
Definition TRANSACTION_STATUS_ABORTED : XidStatus := 2.
Definition TRANSACTION_STATUS_SUB_COMMITTED : XidStatus := 3.

Definition CLOG_BITS_PER_XACT : Z := 2.
Definition CLOG_XACTS_PER_BYTE : Z := 4.
Definition CLOG_XACTS_PER_PAGE : Z := BLCKSZ * CLOG_XACTS_PER_BYTE.
Definition CLOG_XACT_BITMASK : Z := Z.shiftl 1 CLOG_BITS_PER_XACT - 1.

Definition TransactionIdToPage (xid : TransactionId) : Z := xid / CLOG_XACTS_PER_PAGE.
Definition TransactionIdToPgIndex (xid : TransactionId) : Z := xid mod CLOG_XACTS_PER_PAGE.
Definition TransactionIdToByte (xid : TransactionId) : Z :=
  TransactionIdToPgIndex xid / CLOG_XACTS_PER_BYTE.
Definition TransactionIdToBIndex (xid : TransactionId) : Z := xid mod CLOG_XACTS_PER_BYTE.

Definition CLOG_XACTS_PER_LSN_GROUP : Z := 32.
Definition CLOG_LSNS_PER_PAGE : Z := CLOG_XACTS_PER_PAGE / CLOG_XACTS_PER_LSN_GROUP.
Definition THRESHOLD_SUBTRANS_CLOG_OPT : nat := 5.

(** The part of [GetLSNIndex] inside the slot's own LSN array. *)
Definition GetLSNIndex (xid : TransactionId) : Z :=
  (xid mod CLOG_XACTS_PER_PAGE) / CLOG_XACTS_PER_LSN_GROUP.

(** ** Bit access *)

Definition clog_bshift (xid : TransactionId) : Z := TransactionIdToBIndex xid * CLOG_BITS_PER_XACT.

(** The byte shifted right by [bshift] and masked with [CLOG_XACT_BITMASK]. *)
Definition page_status (p : SlruPage) (xid : TransactionId) : XidStatus :=
  Z.land (Z.shiftr (read_at (page_buffer p) (TransactionIdToByte xid)) (clog_bshift xid))
    CLOG_XACT_BITMASK.

Definition TransactionIdSetStatusBit (InRecovery : bool)
    (xid : TransactionId) (status : XidStatus) (lsn : XLogRecPtr) (p : SlruPage) : SlruPage :=
  let byteno := TransactionIdToByte xid in
  let bshift := clog_bshift xid in
  let curval := page_status p xid in
  if InRecovery && (status =? TRANSACTION_STATUS_SUB_COMMITTED)
     && (curval =? TRANSACTION_STATUS_COMMITTED)
  then p
  else
    let byteval := read_at (page_buffer p) byteno in
    let byteval := Z.land byteval (Z.lnot (Z.shiftl (Z.shiftl 1 CLOG_BITS_PER_XACT - 1) bshift)) in
    let byteval := Z.lor byteval (Z.shiftl status bshift) in
    let buf := write_at (page_buffer p) byteno (u8 byteval) in
    let lsns :=
      if negb (XLogRecPtrIsInvalid lsn) && (read_at (group_lsn p) (GetLSNIndex xid) <? lsn)
      then write_at (group_lsn p) (GetLSNIndex xid) lsn
      else group_lsn p in
    mkSlruPage buf lsns (page_dirty p).

(** [TransactionIdGetStatus]: the status and the LSN of the group. *)
Definition TransactionIdGetStatus (c : Slru) (xid : TransactionId) : option (XidStatus * XLogRecPtr) :=
  p ← SimpleLruReadPage_ReadOnly (TransactionIdToPage xid) c;
  Some (page_status p xid, read_at (group_lsn p) (GetLSNIndex xid)).

(** ** Updates of a page and of a transaction tree *)

(** [TransactionIdSetStatusBit] on the page in a slot. *)
Definition set_bit (InRecovery : bool) (pageno : Z) (status : XidStatus) (lsn : XLogRecPtr) (xid : TransactionId)
    : Steps Slru :=
  try_step (fun c => p ← pages c !! pageno;
                     Some (put_page pageno (TransactionIdSetStatusBit InRecovery xid status lsn p) c)).

(** [page_dirty[slotno] = true] *)
Definition mark_dirty (p : SlruPage) : SlruPage := mkSlruPage (page_buffer p) (group_lsn p) true.
Definition set_dirty (pageno : Z) (c : Slru) : Slru := with_pages (alter mark_dirty pageno) c.

Definition TransactionIdSetPageStatusInternal (InRecovery : bool)
    (xid : TransactionId) (subxids : list TransactionId) (status : XidStatus)
    (lsn : XLogRecPtr) (pageno : Z) : Steps Slru :=
  try_step (fun c => snd <$> SimpleLruReadPage pageno c) >>>
  (if TransactionIdIsValid xid then
     (if status =? TRANSACTION_STATUS_COMMITTED
      then each_step (set_bit InRecovery pageno TRANSACTION_STATUS_SUB_COMMITTED lsn) subxids
      else no_step) >>>
     set_bit InRecovery pageno status lsn xid
   else no_step) >>>
  each_step (set_bit InRecovery pageno status lsn) subxids >>>
  one_step (set_dirty pageno).

(** A process waiting in the group-update list: its [clogGroupMember...] fields
    and its [subxids] cache. *)
Record ClogGroupMember := mkClogGroupMember {
  clogGroupMemberXid : TransactionId;
  clogGroupMemberSubxids : list TransactionId;
  clogGroupMemberXidStatus : XidStatus;
  clogGroupMemberLsn : XLogRecPtr;
  clogGroupMemberPage : Z;
}.

(** The leader's walk over the list it detached from [clogGroupFirst]. *)
Definition clog_group_walk (InRecovery : bool) : list ClogGroupMember -> Steps Slru :=
  each_step (fun m => TransactionIdSetPageStatusInternal InRecovery (clogGroupMemberXid m) (clogGroupMemberSubxids m)
                        (clogGroupMemberXidStatus m) (clogGroupMemberLsn m) (clogGroupMemberPage m)).

(** What a backend finds when it updates a page: whether [XactSLRULock] is free,
    the page of the process at the head of the group list at the last iteration
    of the compare-and-exchange loop (if the list is not empty), and the processes that join the list behind us while we wait for
    the lock as its leader, latest first. *)
Record ClogContention := mkClogContention {
  slru_lock_free : bool;
  clogGroupFirstPage : option Z;
  clogGroupJoined : list ClogGroupMember;
}.

(** What [MyProc] advertises: its xid and its cached subtransaction xids. *)
Record MyProcXids := mkMyProcXids { proc_xid : TransactionId; proc_subxids : list TransactionId }.

(** [None] when the optimisation does not apply ([false] in C), else the
    update.  As a follower our own entry is written by the group's leader; what
    the leader writes for other processes is their update, not ours. *)
Definition TransactionGroupUpdateXidStatus (InRecovery : bool) (MyProc : MyProcXids)
    (ct : ClogContention) (xid : TransactionId) (status : XidStatus)
    (lsn : XLogRecPtr) (pageno : Z) : option (Steps Slru) :=
  let me := mkClogGroupMember xid (proc_subxids MyProc) status lsn pageno in
  match clogGroupFirstPage ct with
  | Some page =>
      if page != pageno then None
      else Some (clog_group_walk InRecovery [me])
  | None => Some (clog_group_walk InRecovery (clogGroupJoined ct ++ [me]))
  end.

Definition TransactionIdSetPageStatus (InRecovery : bool) (MyProc : MyProcXids) (ct : ClogContention)
    (xid : TransactionId) (subxids : list TransactionId) (status : XidStatus)
    (lsn : XLogRecPtr) (pageno : Z) (all_xact_same_page : bool) : Steps Slru :=
  let direct := TransactionIdSetPageStatusInternal InRecovery xid subxids status lsn pageno in
  if all_xact_same_page && (xid =? proc_xid MyProc)
     && (length subxids <=? THRESHOLD_SUBTRANS_CLOG_OPT)%nat
     && bool_decide (subxids = proc_subxids MyProc)
  then
    if slru_lock_free ct then direct
    else default direct (TransactionGroupUpdateXidStatus InRecovery MyProc ct xid status lsn pageno)
  else direct.

(** The inner [do ... while] of [set_status_by_pages]: the maximal run of
    entries on page [pageno], and the rest. *)
Fixpoint run_on_page (pageno : Z) (subxids : list TransactionId)
    : list TransactionId * list TransactionId :=
  match subxids with
  | [] => ([], [])
  | x :: rest =>
      if TransactionIdToPage x =? pageno
      then let '(on, off) := run_on_page pageno rest in (x :: on, off)
      else ([], subxids)
  end.

(** [set_status_by_pages]; each iteration of the outer loop consumes at least
    one entry, so [length subxids] iterations are enough. *)
Fixpoint set_status_by_pages_loop (fuel : nat) (InRecovery : bool) (MyProc : MyProcXids)
    (ct : ClogContention) (pageno : Z) (subxids : list TransactionId) (status : XidStatus)
    (lsn : XLogRecPtr) : Steps Slru :=
  match fuel, subxids with
  | _, [] => no_step
  | O, _ => fail_step
  | S n, _ =>
      let '(on, off) := run_on_page pageno subxids in
      TransactionIdSetPageStatus InRecovery MyProc ct InvalidTransactionId on status lsn pageno false >>>
      match off with
      | [] => no_step
      | y :: _ => set_status_by_pages_loop n InRecovery MyProc ct (TransactionIdToPage y) off status lsn
      end
  end.

Definition set_status_by_pages (InRecovery : bool) (MyProc : MyProcXids) (ct : ClogContention)
    (subxids : list TransactionId) (status : XidStatus) (lsn : XLogRecPtr) : Steps Slru :=
  match subxids with
  | [] => no_step
  | x :: _ => set_status_by_pages_loop (length subxids) InRecovery MyProc ct
                (TransactionIdToPage x) subxids status lsn
  end.

Definition TransactionIdSetTreeStatus (InRecovery : bool) (MyProc : MyProcXids) (ct : ClogContention)
    (xid : TransactionId) (subxids : list TransactionId) (status : XidStatus) (lsn : XLogRecPtr) : Steps Slru :=
  let pageno := TransactionIdToPage xid in
  let '(first_page, others) := run_on_page pageno subxids in
  match others with
  | [] => TransactionIdSetPageStatus InRecovery MyProc ct xid subxids status lsn pageno true
  | _ =>
      (if status =? TRANSACTION_STATUS_COMMITTED
       then set_status_by_pages InRecovery MyProc ct others TRANSACTION_STATUS_SUB_COMMITTED lsn
       else no_step) >>>
      TransactionIdSetPageStatus InRecovery MyProc ct xid first_page status lsn pageno false >>>
      set_status_by_pages InRecovery MyProc ct others status lsn
  end.

(** ** Life cycle of the log *)

Definition CLOGShmemBuffers (NBuffers : Z) : Z := Z.min 128 (Z.max 4 (NBuffers / 512)).

Definition CLOGPagePrecedes (page1 page2 : Z) : bool :=
  let xid1 := u32 page1 *u32 CLOG_XACTS_PER_PAGE in
  let xid1 := xid1 +u32 (FirstNormalTransactionId + 1) in
  let xid2 := u32 page2 *u32 CLOG_XACTS_PER_PAGE in
  let xid2 := xid2 +u32 (FirstNormalTransactionId + 1) in
  TransactionIdPrecedes xid1 xid2
  && TransactionIdPrecedes xid1 (u32 (xid2 + CLOG_XACTS_PER_PAGE - 1)).

Definition XactCtl : SlruCtl :=
  mkSlruCtl (Z.to_nat BLCKSZ) (Z.to_nat CLOG_LSNS_PER_PAGE) CLOGPagePrecedes.

Inductive ClogXlogRec :=
| CLOG_ZEROPAGE (pageno : Z)
| CLOG_TRUNCATE (pageno : Z) (oldestXact : TransactionId) (oldestXactDb : Z).

(** The log with the shared [oldestClogXid] (under [XactTruncationLock]), the
    WAL records it emitted, latest first, and how many of them are flushed. *)
Record ClogSys := mkClogSys {
  clog : Slru;
  oldestClogXid : TransactionId;
  clog_xlog : list ClogXlogRec;
  clog_flushed : nat;
}.

Definition WriteZeroPageXlogRec (pageno : Z) (s : ClogSys) : ClogSys :=
  mkClogSys (clog s) (oldestClogXid s) (CLOG_ZEROPAGE pageno :: clog_xlog s) (clog_flushed s).

(** [XLogInsert], then [XLogFlush] of the record. *)
Definition WriteTruncateXlogRec (pageno : Z) (oldestXact : TransactionId) (oldestXactDb : Z) : Steps ClogSys :=
  one_step (fun s => mkClogSys (clog s) (oldestClogXid s) (CLOG_TRUNCATE pageno oldestXact oldestXactDb :: clog_xlog s)
                       (clog_flushed s)) >>>
  one_step (fun s => mkClogSys (clog s) (oldestClogXid s) (clog_xlog s) (length (clog_xlog s))).

Definition with_clog (f : Slru -> Slru) (s : ClogSys) : ClogSys :=
  mkClogSys (f (clog s)) (oldestClogXid s) (clog_xlog s) (clog_flushed s).

Definition ZeroCLOGPage (pageno : Z) (writeXlog : bool) (s : ClogSys) : ClogSys :=
  let s := with_clog (SimpleLruZeroPage XactCtl pageno) s in
  if writeXlog then WriteZeroPageXlogRec pageno s else s.

Definition BootStrapCLOG (s : ClogSys) : ClogSys :=
  with_clog (SlruInternalWritePage 0) (ZeroCLOGPage 0 false s).

Definition StartupCLOG (nextXid : FullTransactionId) (s : ClogSys) : ClogSys :=
  let xid := XidFromFullTransactionId nextXid in
  with_clog (set_latest (TransactionIdToPage xid)) s.

(** Zero the page after its first [i] bytes. *)
Definition zero_from (buf : list Z) (i : nat) : list Z :=
  take i buf ++ replicate (length buf - i) 0.

Definition TrimCLOG (nextXid : FullTransactionId) (s : ClogSys) : option ClogSys :=
  let xid := XidFromFullTransactionId nextXid in
  let pageno := TransactionIdToPage xid in
  if TransactionIdToPgIndex xid != 0 then
    let byteno := TransactionIdToByte xid in
    let bshift := clog_bshift xid in
    '(p, c) ← SimpleLruReadPage pageno (clog s);
    let byte := Z.land (read_at (page_buffer p) byteno) (Z.shiftl 1 bshift - 1) in
    let buf := zero_from (write_at (page_buffer p) byteno byte) (S (Z.to_nat byteno)) in
    Some (with_clog (fun _ => put_page pageno (mkSlruPage buf (group_lsn p) true) c) s)
  else Some s.

Definition CheckPointCLOG : ClogSys -> ClogSys := with_clog SimpleLruWriteAll.

Definition ExtendCLOG (newestXact : TransactionId) (s : ClogSys) : ClogSys :=
  if (TransactionIdToPgIndex newestXact != 0)
     && negb (TransactionIdEquals newestXact FirstNormalTransactionId)
  then s
  else ZeroCLOGPage (TransactionIdToPage newestXact) true s.

Definition AdvanceOldestClogXid (oldest_datfrozenxid : TransactionId) (s : ClogSys) : ClogSys :=
  if TransactionIdPrecedes (oldestClogXid s) oldest_datfrozenxid
  then mkClogSys (clog s) oldest_datfrozenxid (clog_xlog s) (clog_flushed s)
  else s.

Definition TruncateCLOG (oldestXact : TransactionId) (oldestxid_datoid : Z) : Steps ClogSys := fun s =>
  let cutoffPage := TransactionIdToPage oldestXact in
  if negb (SlruScanReportPresence XactCtl cutoffPage (clog s)) then Some []
  else (one_step (AdvanceOldestClogXid oldestXact) >>>
        WriteTruncateXlogRec cutoffPage oldestXact oldestxid_datoid >>>
        one_step (with_clog (SimpleLruTruncate XactCtl cutoffPage))) s.

(** Records other than the two cannot occur in the log ([elog(PANIC)] in C). *)
Definition clog_redo (rec : ClogXlogRec) (s : ClogSys) : ClogSys :=
  match rec with
  | CLOG_ZEROPAGE pageno =>
      with_clog (SlruInternalWritePage pageno) (ZeroCLOGPage pageno false s)
  | CLOG_TRUNCATE pageno oldestXact _ =>
      with_clog (SimpleLruTruncate XactCtl pageno) (AdvanceOldestClogXid oldestXact s)
  end.

(** ** The update as a sequence of single writes *)

Record ClogWrite := mkClogWrite { w_xid : TransactionId; w_status : XidStatus; w_lsn : XLogRecPtr }.

(** One status-bit write, as a step on the whole log. *)
Definition clog_write (InRecovery : bool) (c : Slru) (w : ClogWrite) : Slru :=
  let pageno := TransactionIdToPage (w_xid w) in
  match pages c !! pageno with
  | Some p => put_page pageno (TransactionIdSetStatusBit InRecovery (w_xid w) (w_status w) (w_lsn w) p) c
  | None => c
  end.

(** What an update consists of: pages are read in, statuses are written, pages
    are marked dirty. *)
Inductive ClogEvent :=
| Fetch (pageno : Z)
| Write (w : ClogWrite)
| Dirty (pageno : Z).

Definition clog_event (InRecovery : bool) (c : Slru) (e : ClogEvent) : Slru :=
  match e with
  | Fetch pageno => SlruSelectLRUPage pageno c
  | Write w => clog_write InRecovery c w
  | Dirty pageno => set_dirty pageno c
  end.

Definition event_write (e : ClogEvent) : option ClogWrite := match e with Write w => Some w | _ => None end.
Abbreviation writes := (omap event_write).

Definition writes_of (xids : list TransactionId) (status : XidStatus) (lsn : XLogRecPtr) : list ClogWrite :=
  map (fun x => mkClogWrite x status lsn) xids.

Definition page_writes (xid : TransactionId) (subxids : list TransactionId) (status : XidStatus)
    (lsn : XLogRecPtr) : list ClogWrite :=
  (if TransactionIdIsValid xid then
     (if status =? TRANSACTION_STATUS_COMMITTED
      then writes_of subxids TRANSACTION_STATUS_SUB_COMMITTED lsn else [])
     ++ [mkClogWrite xid status lsn]
   else [])
  ++ writes_of subxids status lsn.

Definition tree_writes (xid : TransactionId) (subxids : list TransactionId) (status : XidStatus)
    (lsn : XLogRecPtr) : list ClogWrite :=
  let '(first_page, others) := run_on_page (TransactionIdToPage xid) subxids in
  (if status =? TRANSACTION_STATUS_COMMITTED
   then writes_of others TRANSACTION_STATUS_SUB_COMMITTED lsn else [])
  ++ page_writes xid first_page status lsn
  ++ writes_of others status lsn.

(** ** Bits of a page *)

Definition page_wf (p : SlruPage) : Prop :=
  Z.of_nat (length (page_buffer p)) = BLCKSZ
  /\ Z.of_nat (length (group_lsn p)) = CLOG_LSNS_PER_PAGE.
Definition clog_wf (c : Slru) : Prop := map_Forall (fun _ p => page_wf p) (pages c).

Definition valid_status (st : XidStatus) : Prop := 0 <= st < 4.

(** What a write leaves in an entry that held [cur]. *)
Definition status_after (InRecovery : bool) (cur st : XidStatus) : XidStatus :=
  if InRecovery && (st =? TRANSACTION_STATUS_SUB_COMMITTED) && (cur =? TRANSACTION_STATUS_COMMITTED)
  then cur else st.

Lemma byte_range xid : 0 <= TransactionIdToByte xid < BLCKSZ.
Proof.
  unfold TransactionIdToByte, TransactionIdToPgIndex, CLOG_XACTS_PER_PAGE, CLOG_XACTS_PER_BYTE, BLCKSZ.
  Z.to_euclidean_division_equations; lia.
Qed.

Lemma bshift_cases xid :
  clog_bshift xid = 0 \/ clog_bshift xid = 2 \/ clog_bshift xid = 4 \/ clog_bshift xid = 6.
Proof.
  unfold clog_bshift, TransactionIdToBIndex, CLOG_XACTS_PER_BYTE, CLOG_BITS_PER_XACT.
  Z.to_euclidean_division_equations; lia.
Qed.

(** Page, byte and shift identify a transaction. *)
Lemma clog_position_inj x y :
  TransactionIdToPage x = TransactionIdToPage y ->
  TransactionIdToByte x = TransactionIdToByte y ->
  clog_bshift x = clog_bshift y -> x = y.
Proof.
  unfold TransactionIdToPage, TransactionIdToByte, TransactionIdToPgIndex, clog_bshift,
    TransactionIdToBIndex, CLOG_XACTS_PER_PAGE, CLOG_XACTS_PER_BYTE, CLOG_BITS_PER_XACT, BLCKSZ.
  Z.to_euclidean_division_equations; lia.
Qed.

Lemma page_status_bit p xid i :
  0 <= i ->
  Z.testbit (page_status p xid) i
  = (i <? 2) && Z.testbit (read_at (page_buffer p) (TransactionIdToByte xid)) (i + clog_bshift xid).
Proof.
  intros Hi. unfold page_status.
  rewrite Z.land_spec, Z.shiftr_spec by done.
  change CLOG_XACT_BITMASK with (Z.ones 2). rewrite Z.testbit_ones by lia.
  replace (0 <=? i) with true by (symmetry; apply Z.leb_le; lia).
  by rewrite andb_true_l, andb_comm.
Qed.

Lemma set_byte_bit b st sh j :
  0 <= sh -> 0 <= j < 8 -> valid_status st ->
  Z.testbit (u8 (Z.lor (Z.land b (Z.lnot (Z.shiftl (Z.shiftl 1 CLOG_BITS_PER_XACT - 1) sh)))
                   (Z.shiftl st sh))) j
  = if (sh <=? j) && (j <? sh + 2) then Z.testbit st (j - sh) else Z.testbit b j.
Proof.
  intros Hsh Hj Hst. unfold u8. rewrite Z.mod_pow2_bits_low by lia.
  rewrite Z.lor_spec, Z.land_spec, Z.lnot_spec by lia.
  rewrite !Z.shiftl_spec by lia.
  change (Z.shiftl 1 CLOG_BITS_PER_XACT - 1) with (Z.ones 2).
  rewrite Z.testbit_ones by lia.
  destruct (Z.leb_spec sh j) as [Hle|Hlt].
  - replace (0 <=? j - sh) with true by (symmetry; apply Z.leb_le; lia).
    destruct (Z.ltb_spec j (sh + 2)) as [Hin|Hout].
    + replace (j - sh <? 2) with true by (symmetry; apply Z.ltb_lt; lia).
      by rewrite andb_false_r.
    + replace (j - sh <? 2) with false by (symmetry; apply Z.ltb_ge; lia).
      rewrite andb_true_r. simpl.
      rewrite (Z.bits_above_log2 st (j - sh)); [by rewrite orb_false_r|unfold valid_status in Hst; lia|].
      destruct (Z.eq_dec st 0) as [->|]; [simpl; lia|].
      apply Z.log2_lt_pow2; [unfold valid_status in Hst; lia|].
      assert (2 ^ 2 <= 2 ^ (j - sh)) by (apply Z.pow_le_mono_r; lia).
      unfold valid_status in Hst. lia.
  - replace (0 <=? j - sh) with false by (symmetry; apply Z.leb_gt; lia).
    rewrite (Z.testbit_neg_r st) by lia. by rewrite andb_true_r, orb_false_r.
Qed.

Lemma page_status_valid p x : valid_status (page_status p x).
Proof.
  unfold page_status, valid_status. change CLOG_XACT_BITMASK with (Z.ones 2).
  rewrite Z.land_ones by lia. by apply Z.mod_pos_bound.
Qed.

Lemma valid_status_bits a b :
  valid_status a -> valid_status b ->
  (forall i, 0 <= i < 2 -> Z.testbit a i = Z.testbit b i) -> a = b.
Proof.
  intros Ha Hb H. unfold valid_status in *.
  pose proof (H 0 ltac:(lia)) as H0. pose proof (H 1 ltac:(lia)) as H1.
  assert (a = 0 \/ a = 1 \/ a = 2 \/ a = 3) as Hca by lia.
  assert (b = 0 \/ b = 1 \/ b = 2 \/ b = 3) as Hcb by lia.
  destruct Hca as [->|[->|[->| ->]]], Hcb as [->|[->|[->| ->]]]; simpl in *; congruence.
Qed.

Lemma set_bit_wf ir x st lsn p : page_wf p -> page_wf (TransactionIdSetStatusBit ir x st lsn p).
Proof.
  unfold page_wf, TransactionIdSetStatusBit. destruct (ir && _ && _); [done|]. simpl.
  rewrite length_write. by case_if; rewrite ?length_write.
Qed.

(** A write changes exactly its own entry. *)
Lemma page_status_set ir x st lsn p y :
  page_wf p -> valid_status st -> TransactionIdToPage x = TransactionIdToPage y ->
  page_status (TransactionIdSetStatusBit ir x st lsn p) y
  = if decide (y = x) then status_after ir (page_status p x) st else page_status p y.
Proof.
  intros Hwf Hst Hpage. unfold TransactionIdSetStatusBit, status_after.
  case_if; [by case_decide; subst|].
  pose proof (byte_range x) as Hbx. pose proof (byte_range y) as Hby.
  pose proof (bshift_cases x) as Hsx. pose proof (bshift_cases y) as Hsy.
  assert (Hv := page_status_valid p y). destruct Hwf as [Hwf _].
  apply valid_status_bits; [apply page_status_valid|by case_decide|].
  intros i Hi. rewrite page_status_bit by lia. simpl.
  replace (i <? 2) with true by (symmetry; apply Z.ltb_lt; lia). rewrite andb_true_l.
  destruct (Z.eq_dec (TransactionIdToByte x) (TransactionIdToByte y)) as [Hb|Hb].
  - rewrite Hb, read_write_same by lia. rewrite set_byte_bit by (done || lia).
    case_decide as Hxy.
    + subst y. case_if; [f_equal; lia|bool_simpl; apply andb_false_iff in Heqb0; lia].
    + assert (clog_bshift x <> clog_bshift y) by (intros Hs; apply Hxy; symmetry; by apply clog_position_inj).
      case_if; [bool_simpl; lia|].
      rewrite page_status_bit by lia.
      replace (i <? 2) with true by (symmetry; apply Z.ltb_lt; lia). done.
  - rewrite read_write_other by lia. case_decide as Hxy; [by subst|].
    rewrite page_status_bit by lia.
    replace (i <? 2) with true by (symmetry; apply Z.ltb_lt; lia). done.
Qed.

(** ** From page updates to sequences of writes *)

Definition has_page (c : Slru) (x : TransactionId) : Prop :=
  is_Some (pages c !! TransactionIdToPage x).

(** No page gets lost. *)
Definition covers (c c' : Slru) : Prop := forall k, is_Some (pages c !! k) -> is_Some (pages c' !! k).

Lemma covers_event ir c e : covers c (clog_event ir c e).
Proof.
  intros k Hk. destruct e as [pageno|w|pageno]; cbn [clog_event].
  - eapply same_contents_is_Some; [symmetry; apply SlruSelectLRUPage_same|done].
  - unfold clog_write. destruct (pages c !! TransactionIdToPage (w_xid w)) as [p|]; [|done]. cbn.
    destruct (decide (k = TransactionIdToPage (w_xid w))) as [->|Hne]; [rewrite lookup_insert_eq; by eexists|].
    by rewrite lookup_insert_ne.
  - cbn. by apply lookup_alter_is_Some.
Qed.

Lemma covers_events ir c es : covers c (foldl (clog_event ir) c es).
Proof.
  revert c. induction es as [|e es IH]; intros c k Hk; [done|]. by apply IH, covers_event.
Qed.

Lemma has_page_covers c c' xids : covers c c' -> Forall (has_page c) xids -> Forall (has_page c') xids.
Proof. intros H HP. eapply Forall_impl; [exact HP|]. intros x Hx. by apply H. Qed.

Section Performs.
Context (ir : bool).

(** Started in [c], the routine succeeds, and [ws] are the status writes
    among its stores. *)
Definition performs (m : Steps Slru) (c : Slru) (ws : list ClogWrite) : Prop :=
  exists es, emits (clog_event ir) m c es /\ writes es = ws.

Lemma performs_none c : performs no_step c [].
Proof. by exists []. Qed.

Lemma performs_seq m1 m2 c ws1 ws2 :
  performs m1 c ws1 -> (forall c', covers c c' -> performs m2 c' ws2) -> performs (m1 >>> m2) c (ws1 ++ ws2).
Proof.
  intros (es1 & H1 & <-) H2. destruct (H2 (foldl (clog_event ir) c es1)) as (es2 & H & <-); [apply covers_events|].
  exists (es1 ++ es2). split; [by apply emits_seq|]. apply omap_app.
Qed.

Lemma performs_set_bit pageno st lsn x c :
  TransactionIdToPage x = pageno -> is_Some (pages c !! pageno) ->
  performs (set_bit ir pageno st lsn x) c [mkClogWrite x st lsn].
Proof.
  intros <- [p Hp]. exists [Write (mkClogWrite x st lsn)]. split; [|done].
  unfold emits, set_bit, try_step. rewrite Hp. cbn. unfold clog_write. cbn. by rewrite Hp.
Qed.

Lemma performs_set_bits pageno st lsn xids c :
  Forall (fun x => TransactionIdToPage x = pageno) xids -> is_Some (pages c !! pageno) ->
  performs (each_step (set_bit ir pageno st lsn) xids) c (writes_of xids st lsn).
Proof.
  intros H. revert c. induction H as [|x xids Hx H IH]; intros c Hp; [apply performs_none|].
  apply (performs_seq _ _ _ [_]); [by apply performs_set_bit|]. intros c' Hc'. by apply IH, Hc'.
Qed.

Lemma performs_fetch pageno c :
  is_Some (pages c !! pageno) -> performs (try_step (fun c => snd <$> SimpleLruReadPage pageno c)) c [].
Proof.
  intros [p Hp]. destruct (SimpleLruReadPage_found pageno c p Hp) as (q & E & _). exists [Fetch pageno]. split; [|done].
  unfold emits, try_step. by rewrite E.
Qed.

Lemma performs_dirty pageno c : performs (one_step (set_dirty pageno)) c [].
Proof. by exists [Dirty pageno]. Qed.

(** The xids of one page call: the main transaction, if given, and the others. *)
Definition page_call_ok (pageno : Z) (xid : TransactionId) (subxids : list TransactionId) : Prop :=
  (TransactionIdIsValid xid = true -> TransactionIdToPage xid = pageno)
  /\ Forall (fun x => TransactionIdToPage x = pageno) subxids.

Lemma SetPageStatusInternal_writes xid subxids st lsn pageno c :
  page_call_ok pageno xid subxids -> is_Some (pages c !! pageno) ->
  performs (TransactionIdSetPageStatusInternal ir xid subxids st lsn pageno) c (page_writes xid subxids st lsn).
Proof.
  intros [Hx Hs] Hp. unfold TransactionIdSetPageStatusInternal, page_writes.
  change (?a ++ ?b) with ([] ++ a ++ b). apply performs_seq; [by apply performs_fetch|]. intros c1 H1.
  apply performs_seq.
  - destruct (TransactionIdIsValid xid) eqn:Hv; [|apply performs_none]. apply performs_seq.
    + case_if; [by apply performs_set_bits, H1|apply performs_none].
    + intros c2 H2. apply performs_set_bit; auto.
  - intros c2 H2. rewrite <- (app_nil_r (writes_of _ _ _)). apply performs_seq; [by apply performs_set_bits; auto|].
    intros c3 _. apply performs_dirty.
Qed.

(** *** The group of processes served by one leader *)

Definition member_writes (m : ClogGroupMember) : list ClogWrite :=
  page_writes (clogGroupMemberXid m) (clogGroupMemberSubxids m)
    (clogGroupMemberXidStatus m) (clogGroupMemberLsn m).

Definition member_ok (c : Slru) (m : ClogGroupMember) : Prop :=
  page_call_ok (clogGroupMemberPage m) (clogGroupMemberXid m) (clogGroupMemberSubxids m)
  /\ is_Some (pages c !! clogGroupMemberPage m).

Lemma member_ok_covers c c' ms : covers c c' -> Forall (member_ok c) ms -> Forall (member_ok c') ms.
Proof. intros H HP. eapply Forall_impl; [exact HP|]. intros m [Hok Hp]. split; [done|]. by apply H. Qed.

Lemma clog_group_walk_writes ms c :
  Forall (member_ok c) ms -> performs (clog_group_walk ir ms) c (concat (map member_writes ms)).
Proof.
  unfold clog_group_walk. revert c. induction ms as [|m ms IH]; intros c Hms; [apply performs_none|].
  apply Forall_cons in Hms as [[Hok Hp] Hms]. apply performs_seq; [by apply SetPageStatusInternal_writes|].
  intros c' Hc'. apply IH. by eapply member_ok_covers.
Qed.

(** The writes the leader performs for others when our update leads a group. *)
Definition group_writes (MyProc : MyProcXids) (ct : ClogContention) (xid : TransactionId)
    (subxids : list TransactionId) (all_xact_same_page : bool) : list ClogWrite :=
  if all_xact_same_page && (xid =? proc_xid MyProc)
     && (length subxids <=? THRESHOLD_SUBTRANS_CLOG_OPT)%nat
     && bool_decide (subxids = proc_subxids MyProc)
     && negb (slru_lock_free ct)
     && bool_decide (clogGroupFirstPage ct = None)
  then concat (map member_writes (clogGroupJoined ct)) else [].

Lemma SetPageStatus_writes MyProc ct xid subxids st lsn pageno same c :
  page_call_ok pageno xid subxids -> is_Some (pages c !! pageno) ->
  Forall (member_ok c) (clogGroupJoined ct) ->
  performs (TransactionIdSetPageStatus ir MyProc ct xid subxids st lsn pageno same) c
    (group_writes MyProc ct xid subxids same ++ page_writes xid subxids st lsn).
Proof.
  intros Hok Hp Hms. unfold TransactionIdSetPageStatus, group_writes.
  pose proof (SetPageStatusInternal_writes xid subxids st lsn pageno c Hok Hp) as Hd.
  destruct (same && _ && _ && _) eqn:Hc; [|done].
  assert (Hsub : subxids = proc_subxids MyProc).
  { bool_simpl. by eapply bool_decide_eq_true_1. }
  destruct (slru_lock_free ct); [done|]. cbn [negb andb].
  unfold TransactionGroupUpdateXidStatus. rewrite <- Hsub.
  set (me := mkClogGroupMember _ _ _ _ _). assert (Hme : member_ok c me) by done.
  destruct (clogGroupFirstPage ct) as [page|].
  - rewrite bool_decide_false by done. case_if; [done|]. cbn [default app].
    rewrite <- (app_nil_r (page_writes _ _ _ _)). by apply (clog_group_walk_writes [me]), Forall_singleton.
  - rewrite bool_decide_true by done. cbn [default].
    replace (_ ++ page_writes _ _ _ _) with (concat (map member_writes (clogGroupJoined ct ++ [me]))).
    + apply clog_group_walk_writes, Forall_app. split; [done|]. by apply Forall_singleton.
    + rewrite map_app, concat_app. cbn. by rewrite app_nil_r.
Qed.

(** *** Page runs and the whole tree *)

Lemma run_on_page_spec pageno l on off :
  run_on_page pageno l = (on, off) ->
  l = on ++ off /\ Forall (fun x => TransactionIdToPage x = pageno) on
  /\ match off with [] => True | y :: _ => TransactionIdToPage y <> pageno end.
Proof.
  revert on off. induction l as [|x l IH]; intros on off; simpl.
  - by intros [= <- <-].
  - destruct (Z.eqb_spec (TransactionIdToPage x) pageno) as [Hx|Hx].
    + destruct (run_on_page pageno l) as [on' off'] eqn:Hrun. intros [= <- <-].
      destruct (IH on' off' eq_refl) as (-> & Hon & Hoff). split_and!; [done|by constructor|done].
    + intros [= <- <-]. done.
Qed.

Lemma writes_of_app l1 l2 st lsn : writes_of (l1 ++ l2) st lsn = writes_of l1 st lsn ++ writes_of l2 st lsn.
Proof. apply map_app. Qed.

Lemma page_writes_invalid subxids st lsn :
  page_writes InvalidTransactionId subxids st lsn = writes_of subxids st lsn.
Proof. done. Qed.

Lemma set_status_by_pages_writes MyProc ct subxids st lsn c :
  Forall (has_page c) subxids -> Forall (member_ok c) (clogGroupJoined ct) ->
  performs (set_status_by_pages ir MyProc ct subxids st lsn) c (writes_of subxids st lsn).
Proof.
  intros Hpages Hms. destruct subxids as [|x0 xs]; [apply performs_none|]. unfold set_status_by_pages.
  remember (TransactionIdToPage x0) as pageno eqn:Hpg.
  remember (length (x0 :: xs)) as fuel eqn:Hfuel.
  assert (Hle : (length (x0 :: xs) <= fuel)%nat) by lia. clear Hfuel.
  revert x0 xs pageno Hpg c Hpages Hms Hle. induction fuel as [|n IH]; intros; [simpl in Hle; lia|].
  cbn [set_status_by_pages_loop].
  destruct (run_on_page pageno (x0 :: xs)) as [on off] eqn:Hrun.
  destruct (run_on_page_spec _ _ _ _ Hrun) as (Hl & Hon & Hoff).
  assert (Hne : on <> []).
  { simpl in Hrun. rewrite <- Hpg, Z.eqb_refl in Hrun.
    destruct (run_on_page pageno xs). by injection Hrun as <- <-. }
  rewrite Hl in Hpages |- *. apply Forall_app in Hpages as [Hpon Hpoff].
  rewrite writes_of_app. apply performs_seq.
  { rewrite <- (page_writes_invalid on st lsn). change (page_writes ?a ?b ?d ?e) with ([] ++ page_writes a b d e).
    apply (SetPageStatus_writes MyProc ct InvalidTransactionId on st lsn pageno false c); [by split| |done].
    destruct on as [|a on]; [done|]. apply Forall_cons in Hpon as [Ha _]. by apply Forall_cons in Hon as [<- _]. }
  intros c' Hc'. destruct off as [|y off]; [apply performs_none|]. apply (IH y off); [done| | |].
  - by eapply has_page_covers.
  - by eapply member_ok_covers.
  - apply (f_equal length) in Hl. rewrite length_app in Hl.
    destruct on; [done|]. simpl in Hl, Hle |- *. lia.
Qed.

(** The writes of a tree update fall into two phases: under a commit the
    subtransactions are first marked sub-committed, then the main transaction
    and every subtransaction get the final status, main transaction first. *)
Lemma tree_writes_phases xid subxids st lsn :
  TransactionIdIsValid xid = true ->
  tree_writes xid subxids st lsn
  = (if st =? TRANSACTION_STATUS_COMMITTED then
       let '(first_page, others) := run_on_page (TransactionIdToPage xid) subxids in
       writes_of (others ++ first_page) TRANSACTION_STATUS_SUB_COMMITTED lsn
     else [])
    ++ writes_of (xid :: subxids) st lsn.
Proof.
  intros Hv. unfold tree_writes, page_writes. rewrite Hv.
  destruct (run_on_page (TransactionIdToPage xid) subxids) as [on off] eqn:Hrun.
  destruct (run_on_page_spec _ _ _ _ Hrun) as (-> & _ & _).
  unfold writes_of. case_if; cbn [map app]; rewrite ?map_app, <- ?app_assoc; done.
Qed.

Definition tree_group_writes (MyProc : MyProcXids) (ct : ClogContention) (xid : TransactionId)
    (subxids : list TransactionId) : list ClogWrite :=
  match (run_on_page (TransactionIdToPage xid) subxids).2 with
  | [] => group_writes MyProc ct xid subxids true
  | _ => []
  end.

Lemma SetTreeStatus_writes MyProc ct xid subxids st lsn c :
  Forall (has_page c) (xid :: subxids) -> Forall (member_ok c) (clogGroupJoined ct) ->
  performs (TransactionIdSetTreeStatus ir MyProc ct xid subxids st lsn) c
    (tree_group_writes MyProc ct xid subxids ++ tree_writes xid subxids st lsn).
Proof.
  intros Hpages Hms. apply Forall_cons in Hpages as [Hpx Hpages].
  unfold TransactionIdSetTreeStatus, tree_group_writes, tree_writes.
  destruct (run_on_page (TransactionIdToPage xid) subxids) as [on off] eqn:Hrun.
  destruct (run_on_page_spec _ _ _ _ Hrun) as (Hl & Hon & _).
  assert (Hok : page_call_ok (TransactionIdToPage xid) xid on) by (by split).
  destruct off as [|y off].
  - rewrite app_nil_r in Hl. subst on. cbn [snd].
    replace (if st =? TRANSACTION_STATUS_COMMITTED then writes_of [] TRANSACTION_STATUS_SUB_COMMITTED lsn else []) with (writes_of [] st lsn) by (by case_if).
    change (writes_of [] st lsn) with (@nil ClogWrite). rewrite app_nil_r. by apply SetPageStatus_writes.
  - assert (Hpoff : Forall (has_page c) (y :: off)) by (rewrite Hl in Hpages; by apply Forall_app in Hpages as [_ ?]).
    cbn [snd app]. apply performs_seq.
    { case_if; [by apply set_status_by_pages_writes|apply performs_none]. }
    intros c1 H1. apply performs_seq.
    { change (page_writes ?a ?b ?d ?e) with ([] ++ page_writes a b d e).
      apply (SetPageStatus_writes MyProc ct xid on st lsn _ false); [done|by apply H1|by eapply member_ok_covers]. }
    intros c2 H2. apply set_status_by_pages_writes.
    + by apply (has_page_covers c1), (has_page_covers c).
    + by apply (member_ok_covers c1), (member_ok_covers c).
Qed.
End Performs.

(** ** The log as a map from transactions to statuses *)

Definition clog_status (c : Slru) (x : TransactionId) : option XidStatus :=
  fst <$> TransactionIdGetStatus c x.

Definition status_of_writes (ir : bool) (ws : list ClogWrite) (x : TransactionId) (s : XidStatus) : XidStatus :=
  foldl (fun s w => if decide (x = w_xid w) then status_after ir s (w_status w) else s) s ws.

Lemma clog_status_page c x : clog_status c x = (fun p => page_status p x) <$> pages c !! TransactionIdToPage x.
Proof.
  unfold clog_status, TransactionIdGetStatus, SimpleLruReadPage_ReadOnly.
  by destruct (pages c !! TransactionIdToPage x).
Qed.

(** Statuses depend on the contents of pages only. *)
Lemma clog_status_contents c x :
  clog_status c x
  = (fun b => page_status (mkSlruPage b.1 [] true) x) <$> (contents <$> pages c !! TransactionIdToPage x).
Proof. rewrite clog_status_page. by destruct (pages c !! TransactionIdToPage x). Qed.

#[export] Instance clog_status_proper : Proper (same_contents ==> eq ==> eq) clog_status.
Proof. intros c c' H x ? <-. rewrite !clog_status_contents. by rewrite (same_page _ _ H). Qed.

#[export] Instance clog_wf_proper : Proper (same_contents ==> iff) clog_wf.
Proof.
  set (P := fun b : list Z * nat => Z.of_nat (length b.1) = BLCKSZ /\ Z.of_nat b.2 = CLOG_LSNS_PER_PAGE).
  intros c c' H. split; apply (same_contents_Forall P); by try symmetry.
Qed.

Lemma set_dirty_same pageno c : same_contents (set_dirty pageno c) c.
Proof.
  constructor. intros k. cbn. destruct (decide (k = pageno)) as [->|Hne]; [|by rewrite lookup_alter_ne].
  rewrite lookup_alter_eq. by destruct (pages c !! pageno).
Qed.

Lemma clog_wf_write ir c w : clog_wf c -> clog_wf (clog_write ir c w).
Proof.
  intros Hwf. unfold clog_write. destruct (pages c !! _) as [p|] eqn:Hp; [|done].
  apply map_Forall_insert_2; [|done]. apply set_bit_wf. exact (Hwf _ _ Hp).
Qed.

Lemma clog_wf_event ir c e : clog_wf c -> clog_wf (clog_event ir c e).
Proof.
  destruct e; cbn [clog_event]; [by rewrite SlruSelectLRUPage_same|by apply clog_wf_write|by rewrite set_dirty_same].
Qed.

Lemma clog_wf_events ir es c : clog_wf c -> clog_wf (foldl (clog_event ir) c es).
Proof. revert c. induction es; simpl; auto using clog_wf_event. Qed.

Lemma clog_write_status ir c w x :
  clog_wf c -> valid_status (w_status w) ->
  clog_status (clog_write ir c w) x
  = (fun s => if decide (x = w_xid w) then status_after ir s (w_status w) else s) <$> clog_status c x.
Proof.
  intros Hwf Hst. rewrite !clog_status_page. unfold clog_write.
  destruct (pages c !! TransactionIdToPage (w_xid w)) as [p|] eqn:Hp.
  - simpl. destruct (decide (TransactionIdToPage x = TransactionIdToPage (w_xid w))) as [Heq|Hne].
    + rewrite Heq, lookup_insert_eq, Hp. simpl. f_equal.
      rewrite page_status_set; [|exact (Hwf _ _ Hp)|done|done]. by case_decide; subst.
    + rewrite lookup_insert_ne by done. case_decide as Hd; [by subst|].
      by destruct (pages c !! TransactionIdToPage x).
  - case_decide as Hd; [subst; by rewrite Hp|]. by destruct (pages c !! TransactionIdToPage x).
Qed.

Definition valid_writes (ws : list ClogWrite) : Prop := Forall (fun w => valid_status (w_status w)) ws.

(** The statuses after an update are those its writes make of the earlier ones. *)
Lemma clog_events_status ir es c x :
  clog_wf c -> valid_writes (writes es) ->
  clog_status (foldl (clog_event ir) c es) x = status_of_writes ir (writes es) x <$> clog_status c x.
Proof.
  revert c. induction es as [|e es IH]; intros c Hwf Hv; simpl; [by rewrite option_fmap_id|].
  destruct e as [pageno|w|pageno]; cbn [event_write] in *.
  - rewrite IH by (by try apply (clog_wf_event ir c (Fetch pageno))). cbn [clog_event]. by rewrite SlruSelectLRUPage_same.
  - apply Forall_cons in Hv as [Hw Hv]. rewrite IH by (by try apply clog_wf_write). cbn [clog_event].
    rewrite clog_write_status by done. by destruct (clog_status c x).
  - rewrite IH by (by try apply (clog_wf_event ir c (Dirty pageno))). cbn [clog_event]. by rewrite set_dirty_same.
Qed.

Lemma status_of_writes_other ir ws x s :
  x ∉ map w_xid ws -> status_of_writes ir ws x s = s.
Proof.
  revert s. induction ws as [|w ws IH]; intros s Hx; simpl; [done|].
  simpl in Hx. apply not_elem_of_cons in Hx as [Hne Hx]. rewrite decide_False by done. by apply IH.
Qed.

Lemma status_of_writes_app ir ws1 ws2 x s :
  status_of_writes ir (ws1 ++ ws2) x s = status_of_writes ir ws2 x (status_of_writes ir ws1 x s).
Proof. apply foldl_app. Qed.

Lemma map_xid_writes_of xids st lsn : map w_xid (writes_of xids st lsn) = xids.
Proof. unfold writes_of. rewrite map_map. apply map_id. Qed.

Lemma status_of_writes_of ir xids st lsn x s :
  st <> TRANSACTION_STATUS_SUB_COMMITTED ->
  status_of_writes ir (writes_of xids st lsn) x s = if decide (x ∈ xids) then st else s.
Proof.
  intros Hst. assert (Ha : forall cur, status_after ir cur st = st).
  { intros cur. unfold status_after. apply Z.eqb_neq in Hst. by rewrite Hst, andb_false_r. }
  revert s. induction xids as [|y xids IH]; intros s; simpl.
  - done.
  - rewrite IH, Ha.
    repeat case_decide; set_solver.
Qed.

Lemma valid_writes_of xids st lsn : valid_status st -> valid_writes (writes_of xids st lsn).
Proof. intros H. apply Forall_map, Forall_true. done. Qed.

Lemma valid_tree_writes xid subxids st lsn :
  TransactionIdIsValid xid = true -> valid_status st -> valid_writes (tree_writes xid subxids st lsn).
Proof.
  intros Hv Hst. rewrite tree_writes_phases by done.
  apply Forall_app; split; [|by apply valid_writes_of].
  case_if; [|constructor]. destruct (run_on_page _ _). by apply valid_writes_of.
Qed.

Lemma status_of_tree_writes ir xid subxids st lsn x s :
  TransactionIdIsValid xid = true -> st <> TRANSACTION_STATUS_SUB_COMMITTED ->
  status_of_writes ir (tree_writes xid subxids st lsn) x s
  = if decide (x ∈ xid :: subxids) then st else s.
Proof.
  intros Hv Hst. rewrite tree_writes_phases by done.
  rewrite status_of_writes_app, status_of_writes_of by done.
  case_decide as Hx; [done|]. case_if; [|done].
  destruct (run_on_page (TransactionIdToPage xid) subxids) as [on off] eqn:Hrun.
  apply run_on_page_spec in Hrun as (-> & _). apply status_of_writes_other.
  rewrite map_xid_writes_of. set_solver.
Qed.

(** The statuses a member of the group may carry. *)
Definition member_status_ok (m : ClogGroupMember) : Prop := valid_status (clogGroupMemberXidStatus m).

Definition group_xids (ct : ClogContention) : list TransactionId :=
  concat (map (fun m => clogGroupMemberXid m :: clogGroupMemberSubxids m) (clogGroupJoined ct)).

Lemma page_writes_valid xid subxids st lsn : valid_status st -> valid_writes (page_writes xid subxids st lsn).
Proof.
  intros Hst. unfold page_writes. apply Forall_app; split; [|by apply valid_writes_of].
  destruct (TransactionIdIsValid xid); [|constructor].
  apply Forall_app; split; [|by apply Forall_singleton].
  case_if; [by apply valid_writes_of|constructor].
Qed.

Lemma page_writes_xids xid subxids st lsn x :
  x ∈ map w_xid (page_writes xid subxids st lsn) -> x ∈ xid :: subxids.
Proof.
  unfold page_writes. rewrite !map_app, map_xid_writes_of.
  destruct (TransactionIdIsValid xid), (st =? TRANSACTION_STATUS_COMMITTED);
    rewrite ?map_app, ?map_xid_writes_of; simpl; set_solver.
Qed.

Lemma tree_group_writes_ok MyProc ct xid subxids :
  Forall member_status_ok (clogGroupJoined ct) ->
  valid_writes (tree_group_writes MyProc ct xid subxids)
  /\ forall x, x ∈ map w_xid (tree_group_writes MyProc ct xid subxids) -> x ∈ group_xids ct.
Proof.
  intros Hms. unfold tree_group_writes, group_writes, group_xids.
  destruct (run_on_page _ _).2; [|by split; [constructor|simpl; set_solver]].
  case_if; [|by split; [constructor|simpl; set_solver]]. clear Heqb.
  induction Hms as [|m ms Hm Hms IH]; simpl; [by split; [constructor|set_solver]|].
  destruct IH as [IHv IHx]. split.
  - apply Forall_app; split; [|done]. by apply page_writes_valid.
  - intros x. rewrite map_app. intros [Hx|Hx]%elem_of_app.
    + apply page_writes_xids in Hx. set_solver.
    + apply IHx in Hx. set_solver.
Qed.

(** The writes of a tree, after those of the group, and what they do to it. *)
Lemma SetTreeStatus_inside ir MyProc ct xid subxids st lsn c :
  clog_wf c -> TransactionIdIsValid xid = true ->
  st = TRANSACTION_STATUS_COMMITTED \/ st = TRANSACTION_STATUS_ABORTED ->
  Forall (has_page c) (xid :: subxids) ->
  Forall (member_ok c) (clogGroupJoined ct) -> Forall member_status_ok (clogGroupJoined ct) ->
  exists es, let c' := foldl (clog_event ir) c es in
    emits (clog_event ir) (TransactionIdSetTreeStatus ir MyProc ct xid subxids st lsn) c es
    /\ writes es = tree_group_writes MyProc ct xid subxids ++ tree_writes xid subxids st lsn
    /\ valid_writes (writes es) /\ clog_wf c'
    /\ forall x, x ∈ xid :: subxids -> clog_status c' x = Some st.
Proof.
  intros Hwf Hv Hst Hpages Hms Hmst.
  assert (Hvs : valid_status st) by (destruct Hst as [->| ->]; unfold valid_status; cbv; split; congruence).
  assert (Hns : st <> TRANSACTION_STATUS_SUB_COMMITTED) by (destruct Hst as [->| ->]; done).
  destruct (tree_group_writes_ok MyProc ct xid subxids Hmst) as [Hgv Hgx].
  destruct (SetTreeStatus_writes ir MyProc ct xid subxids st lsn c Hpages Hms) as (es & He & Hw).
  assert (Hall : valid_writes (writes es)) by (rewrite Hw; apply Forall_app; split; [done|by apply valid_tree_writes]).
  exists es. cbv zeta. split_and!; [done|done|done|by apply clog_wf_events|].
  intros x Hx. rewrite clog_events_status by done.
  rewrite Forall_forall in Hpages. destruct (Hpages x Hx) as [p Hp].
  rewrite clog_status_page, Hp, Hw. simpl. f_equal.
  rewrite status_of_writes_app, status_of_tree_writes by done. by rewrite decide_True.
Qed.

(** C20. Recording the outcome of a transaction tree sets the status of the
    main transaction and of every subtransaction, on however many pages they
    lie, and of nothing else: any transaction outside the tree (and outside
    the group of waiting backends served in the same lock acquisition) keeps
    its status.  The update cannot fail when the pages exist. *)
Theorem TransactionIdSetTreeStatus_spec ir MyProc ct xid subxids st lsn c :
  clog_wf c -> TransactionIdIsValid xid = true ->
  st = TRANSACTION_STATUS_COMMITTED \/ st = TRANSACTION_STATUS_ABORTED ->
  Forall (has_page c) (xid :: subxids) ->
  Forall (member_ok c) (clogGroupJoined ct) -> Forall member_status_ok (clogGroupJoined ct) ->
  exists c', run_steps (TransactionIdSetTreeStatus ir MyProc ct xid subxids st lsn) c = Some c' /\ clog_wf c'
    /\ (forall x, x ∈ xid :: subxids -> clog_status c' x = Some st)
    /\ (forall x, x ∉ xid :: subxids -> x ∉ group_xids ct -> clog_status c' x = clog_status c x).
Proof.
  intros Hwf Hv Hst Hpages Hms Hmst.
  destruct (SetTreeStatus_inside ir MyProc ct xid subxids st lsn c) as (es & He & Hw & Hall & Hwf' & Hin); try done.
  eexists. split; [by eapply emits_run|]. split; [done|]. split; [done|].
  intros x Hx Hg. rewrite clog_events_status by done. rewrite Hw.
  rewrite <- (option_fmap_id (clog_status c x)) at 2. apply option_fmap_ext. intros s.
  rewrite status_of_writes_app, status_of_tree_writes, decide_False by (done || by destruct Hst as [->| ->]).
  apply status_of_writes_other. intros H. by apply (tree_group_writes_ok MyProc ct xid subxids Hmst) in H.
Qed.

(** A log with two freshly zeroed pages, and no contention on its lock. *)
Definition two_pages : Slru := SimpleLruZeroPage XactCtl 1 (SimpleLruZeroPage XactCtl 0 (slru_init no_victims)).
Definition no_contention : ClogContention := mkClogContention true None [].

Lemma zero_page_wf : page_wf (zero_page XactCtl).
Proof. done. Qed.

Lemma SimpleLruZeroPage_wf pageno c : clog_wf c -> clog_wf (SimpleLruZeroPage XactCtl pageno c).
Proof.
  intros H. apply map_Forall_insert_2; [done|]. change (clog_wf (SlruSelectLRUPage pageno c)). by rewrite SlruSelectLRUPage_same.
Qed.

Lemma two_pages_wf : clog_wf two_pages.
Proof. do 2 apply SimpleLruZeroPage_wf. apply map_Forall_empty. Qed.

Lemma two_pages_has x : 0 <= x < 2 * CLOG_XACTS_PER_PAGE -> has_page two_pages x.
Proof.
  intros Hx. unfold has_page. assert (TransactionIdToPage x = 0 \/ TransactionIdToPage x = 1) as [-> | ->].
  { unfold TransactionIdToPage, CLOG_XACTS_PER_PAGE, BLCKSZ, CLOG_XACTS_PER_BYTE in *.
    Z.to_euclidean_division_equations; lia. }
  - by exists (zero_page XactCtl).
  - by exists (zero_page XactCtl).
Qed.

Lemma TransactionIdSetTreeStatus_spec_witness :
  exists c', run_steps (TransactionIdSetTreeStatus false (mkMyProcXids 0 []) no_contention 32766
               [32767; 32768; 32769] TRANSACTION_STATUS_COMMITTED 0) two_pages = Some c'
    /\ clog_status c' 32769 = Some TRANSACTION_STATUS_COMMITTED
    /\ clog_status c' 32770 = clog_status two_pages 32770.
Proof.
  destruct (TransactionIdSetTreeStatus_spec false (mkMyProcXids 0 []) no_contention 32766
              [32767; 32768; 32769] TRANSACTION_STATUS_COMMITTED 0 two_pages)
    as (c' & Hc & _ & Hin & Hout).
  - exact two_pages_wf.
  - reflexivity.
  - by left.
  - repeat constructor; apply two_pages_has; cbv; split; congruence.
  - constructor.
  - constructor.
  - exists c'. split; [exact Hc|]. split.
    + apply Hin. set_solver.
    + apply Hout; set_solver.
Defined.

(** ** Truncation, trimming and extension *)

(** C31. Truncating the log at [oldestXact] is safe at every moment, also if
    the server crashes in the middle.  In each of the states it goes through,
    every transaction id that is not in the past of [oldestXact] has its
    status; and a state in which the status of any transaction has been lost
    comes only after [oldestClogXid] has reached [oldestXact], so that nobody
    asks for it, and after the truncation record is in the WAL and flushed. *)
Theorem TruncateCLOG_safe oldestXact db s :
  is_u32 oldestXact ->
  exists states, TruncateCLOG oldestXact db s = Some states /\
    forall t, t ∈ states ->
      (forall x, is_u32 x -> xid_age oldestXact x <= 2 ^ 31 -> clog_status (clog t) x = clog_status (clog s) x) /\
      ((exists x, clog_status (clog t) x <> clog_status (clog s) x) ->
       TransactionIdPrecedes (oldestClogXid t) oldestXact = false /\
       exists n, (n < clog_flushed t)%nat /\
         rev (clog_xlog t) !! n = Some (CLOG_TRUNCATE (TransactionIdToPage oldestXact) oldestXact db)).
Proof.
  intros Ho. unfold TruncateCLOG. set (q := TransactionIdToPage oldestXact).
  destruct (SlruScanReportPresence XactCtl q (clog s)); cbn [negb]; [|by exists []; split; [|intros t ?%not_elem_of_nil]].
  eexists. split; [reflexivity|]. cbn [final default last app]. set (s1 := AdvanceOldestClogXid oldestXact s).
  assert (E1 : clog s1 = clog s) by (unfold s1, AdvanceOldestClogXid; by case_if).
  assert (Ha : TransactionIdPrecedes (oldestClogXid s1) oldestXact = false).
  { unfold s1, AdvanceOldestClogXid. destruct (TransactionIdPrecedes (oldestClogXid s) oldestXact) eqn:H; [|done].
    apply precedes_irrefl. }
  assert (Hsame : forall t : ClogSys, clog t = clog s ->
    (forall x, is_u32 x -> xid_age oldestXact x <= 2 ^ 31 -> clog_status (clog t) x = clog_status (clog s) x) /\
    ~ exists x, clog_status (clog t) x <> clog_status (clog s) x) by (intros t ->; naive_solver).
  intros t. rewrite !elem_of_cons. intros [->|[->|[->|[->|[]%not_elem_of_nil]]]].
  1-3: (split; [by apply Hsame|intros Hx; by destruct (Hsame _ E1)]).
  cbn. rewrite E1. split.
  - intros x Hx Hage. rewrite !clog_status_contents. rewrite SimpleLruTruncate_keeps; [done|].
    destruct (SlruMayDeleteSegment _ _ _) eqn:Hd; [|done].
    apply (SlruMayDeleteSegment_age _ 32768 131072) in Hd; [lia|done|by right|done|done].
  - intros _. split; [done|]. exists (length (clog_xlog s1)). split; [lia|].
    rewrite lookup_app_r, length_rev, Nat.sub_diag by (rewrite length_rev; lia). done.
Qed.

(** Segment 0 is on disk and its successors up to page 122 are in use. *)
Definition old_log : Slru := SimpleLruZeroPage XactCtl 122 (SimpleLruWriteAll two_pages).

Lemma TruncateCLOG_safe_witness :
  let s := mkClogSys old_log 3 [] 0 in
  exists states, TruncateCLOG 4000000 5 s = Some states
    /\ clog_status (clog (final s states)) 4000001 = clog_status (clog s) 4000001
    /\ clog_status (clog s) 5 = Some 0
    /\ clog_status (clog (final s states)) 5 = None.
Proof.
  destruct (TruncateCLOG_safe 4000000 5 (mkClogSys old_log 3 [] 0)) as (states & E & H); [unfold is_u32; lia|].
  assert (Hrun : clog_status (clog (default (mkClogSys old_log 3 [] 0)
             (run_steps (TruncateCLOG 4000000 5) (mkClogSys old_log 3 [] 0)))) 5 = None) by (vm_compute; reflexivity).
  unfold run_steps in Hrun. rewrite E in Hrun. cbn [fmap option_fmap option_map default] in Hrun.
  exists states. split; [exact E|]. split; [|split; [vm_compute; reflexivity|exact Hrun]].
  destruct (final_elem (mkClogSys old_log 3 [] 0) states) as [->|Hin]; [reflexivity|].
  apply (H _ Hin); [unfold is_u32; lia|vm_compute; congruence].
Defined.

Lemma read_zero_from buf (i : nat) j :
  0 <= j < Z.of_nat (length buf) ->
  read_at (zero_from buf i) j = if j <? Z.of_nat i then read_at buf j else 0.
Proof.
  intros Hj. unfold read_at, zero_from.
  destruct (Z.ltb_spec j (Z.of_nat i)).
  - rewrite lookup_app_l by (rewrite length_take; lia). by rewrite lookup_take_lt by lia.
  - rewrite lookup_app_r by (rewrite length_take; lia).
    rewrite length_take, lookup_replicate_2 by lia. done.
Qed.

Lemma page_status_ext p q x :
  (forall i, 0 <= i < 2 ->
     Z.testbit (read_at (page_buffer p) (TransactionIdToByte x)) (i + clog_bshift x)
     = Z.testbit (read_at (page_buffer q) (TransactionIdToByte x)) (i + clog_bshift x)) ->
  page_status p x = page_status q x.
Proof.
  intros H. apply valid_status_bits; [apply page_status_valid..|].
  intros i Hi. rewrite !page_status_bit by lia. by rewrite H.
Qed.

(** The order of transactions on a page is the order of bytes, then of shifts. *)
Lemma clog_position_lt x y :
  TransactionIdToPage x = TransactionIdToPage y ->
  y < x <-> TransactionIdToByte y < TransactionIdToByte x
            \/ TransactionIdToByte y = TransactionIdToByte x /\ clog_bshift y + 2 <= clog_bshift x.
Proof.
  unfold TransactionIdToPage, TransactionIdToByte, TransactionIdToPgIndex, clog_bshift,
    TransactionIdToBIndex, CLOG_XACTS_PER_PAGE, CLOG_XACTS_PER_BYTE, CLOG_BITS_PER_XACT, BLCKSZ.
  Z.to_euclidean_division_equations; lia.
Qed.

Definition trimmed_page (x : TransactionId) (p : SlruPage) : SlruPage :=
  let byte := Z.land (read_at (page_buffer p) (TransactionIdToByte x)) (Z.shiftl 1 (clog_bshift x) - 1) in
  mkSlruPage (zero_from (write_at (page_buffer p) (TransactionIdToByte x) byte)
                (S (Z.to_nat (TransactionIdToByte x)))) (group_lsn p) true.

Lemma trimmed_page_wf x p : page_wf p -> page_wf (trimmed_page x p).
Proof.
  intros [Hb Hl]. split; [|done]. simpl. unfold zero_from.
  rewrite length_app, length_take, length_replicate, length_write.
  pose proof (byte_range x). unfold BLCKSZ in *. lia.
Qed.

Lemma trimmed_page_status x p y :
  page_wf p -> TransactionIdToPage x = TransactionIdToPage y ->
  page_status (trimmed_page x p) y = if y <? x then page_status p y else TRANSACTION_STATUS_IN_PROGRESS.
Proof.
  intros [Hwf _] Hpg. pose proof (byte_range x) as Hbx. pose proof (byte_range y) as Hby.
  pose proof (bshift_cases x) as Hsx. pose proof (bshift_cases y) as Hsy.
  assert (Hread : read_at (page_buffer (trimmed_page x p)) (TransactionIdToByte y)
    = if TransactionIdToByte y <? TransactionIdToByte x then read_at (page_buffer p) (TransactionIdToByte y)
      else if TransactionIdToByte y =? TransactionIdToByte x
      then Z.land (read_at (page_buffer p) (TransactionIdToByte y)) (Z.ones (clog_bshift x)) else 0).
  { simpl. rewrite read_zero_from by (rewrite length_write; lia).
    replace (Z.shiftl 1 (clog_bshift x) - 1) with (Z.ones (clog_bshift x)) by (by rewrite Z.ones_equiv, Z.shiftl_1_l, Z.sub_1_r).
    destruct (Z.ltb_spec (TransactionIdToByte y) (TransactionIdToByte x)).
    - replace (_ <? _) with true by (symmetry; apply Z.ltb_lt; lia). by rewrite read_write_other by lia.
    - destruct (Z.eqb_spec (TransactionIdToByte y) (TransactionIdToByte x)) as [->|].
      + replace (_ <? _) with true by (symmetry; apply Z.ltb_lt; lia). by rewrite read_write_same by lia.
      + by replace (_ <? _) with false by (symmetry; apply Z.ltb_ge; lia). }
  pose proof (clog_position_lt x y Hpg) as Hlt.
  destruct (Z.ltb_spec y x) as [Hyx|Hyx].
  - apply page_status_ext. intros i Hi. rewrite Hread.
    destruct (Z.ltb_spec (TransactionIdToByte y) (TransactionIdToByte x)); [done|].
    destruct (Z.eqb_spec (TransactionIdToByte y) (TransactionIdToByte x)); [|lia].
    rewrite Z.land_spec, Z.ones_spec_low by lia. by rewrite andb_true_r.
  - apply valid_status_bits; [apply page_status_valid|done|].
    intros i Hi. rewrite page_status_bit, Hread, Z.bits_0 by lia. apply andb_false_iff. right.
    destruct (Z.ltb_spec (TransactionIdToByte y) (TransactionIdToByte x)); [lia|].
    destruct (Z.eqb_spec (TransactionIdToByte y) (TransactionIdToByte x)); [|apply Z.bits_0].
    rewrite Z.land_spec, Z.ones_spec_high by lia. apply andb_false_r.
Qed.

(** At the end of recovery the current page is cleaned: transactions from
    [nextXid] on read as in progress, earlier ones and other pages are as
    before. *)
Theorem TrimCLOG_spec nextXid s :
  let x := XidFromFullTransactionId nextXid in
  clog_wf (clog s) -> has_page (clog s) x ->
  exists s', TrimCLOG nextXid s = Some s' /\ clog_wf (clog s')
    /\ (forall y, y < x \/ TransactionIdToPage y <> TransactionIdToPage x ->
          clog_status (clog s') y = clog_status (clog s) y)
    /\ (forall y, x <= y -> TransactionIdToPage y = TransactionIdToPage x ->
          TransactionIdToPgIndex x <> 0 ->
          clog_status (clog s') y = Some TRANSACTION_STATUS_IN_PROGRESS).
Proof.
  intros x Hwf [p Hp]. unfold TrimCLOG. fold x.
  destruct (Z.eqb_spec (TransactionIdToPgIndex x) 0) as [H0|H0]; cbn [negb].
  { exists s. split_and!; done. }
  destruct (SimpleLruReadPage_found _ _ _ Hp) as (q & E & Hq & _). rewrite E. cbn [mbind option_bind].
  pose proof (SlruSelectLRUPage_same (TransactionIdToPage x) (clog s)) as Hsame.
  set (c := SlruSelectLRUPage (TransactionIdToPage x) (clog s)) in *. clearbody c. rewrite <- Hsame in Hwf.
  eexists. split; [reflexivity|]. cbn [clog with_clog].
  fold (trimmed_page x q). assert (Hpw := Hwf _ _ Hq). split.
  { apply map_Forall_insert_2; [by apply trimmed_page_wf|done]. }
  split.
  - intros y Hy. rewrite <- Hsame, !clog_status_page. simpl.
    destruct (decide (TransactionIdToPage y = TransactionIdToPage x)) as [Heq|Hne].
    + rewrite Heq, lookup_insert_eq, Hq. simpl. rewrite trimmed_page_status by done.
      by replace (y <? x) with true by (symmetry; apply Z.ltb_lt; lia).
    + by rewrite lookup_insert_ne.
  - intros y Hy Heq _. rewrite clog_status_page. simpl. rewrite Heq, lookup_insert_eq. simpl.
    rewrite trimmed_page_status by done.
    by replace (y <? x) with false by (symmetry; apply Z.ltb_ge; lia).
Qed.

Lemma TrimCLOG_spec_witness :
  exists s', TrimCLOG 4294967396 (mkClogSys two_pages 3 [] 0) = Some s'
    /\ clog_status (clog s') 200 = Some TRANSACTION_STATUS_IN_PROGRESS.
Proof.
  destruct (TrimCLOG_spec 4294967396 (mkClogSys two_pages 3 [] 0)) as (s' & Hs & _ & _ & Hz).
  - exact two_pages_wf.
  - apply two_pages_has. vm_compute. split; congruence.
  - exists s'. split; [exact Hs|]. apply Hz; vm_compute; congruence.
Defined.
