(* ===== verification/ClogWal.v ===== *)
(** * ClogWal: the commit log and the WAL

    An asynchronous commit is entered in pg_xact before its WAL record is
    flushed.  The LSN of the record is kept with the page, and the page is
    written out only after the WAL has been flushed that far.  When the page
    leaves its buffer the LSN is forgotten.  Here: whatever happens to the log
    afterwards, a reader of the status learns an LSN that covers the record,
    or the record is flushed; and it is flushed before the status is on
    disk. *)

From S2P Require Import Prelude Steps TransactionId Slru Clog.

Lemma lsn_index_range x : 0 <= GetLSNIndex x < CLOG_LSNS_PER_PAGE.
Proof.
  unfold GetLSNIndex, CLOG_LSNS_PER_PAGE, CLOG_XACTS_PER_PAGE, CLOG_XACTS_PER_LSN_GROUP,
    CLOG_XACTS_PER_BYTE, BLCKSZ. Z.to_euclidean_division_equations; lia.
Qed.

Lemma max_lsn_ge lsns m : m <= foldl (fun max this => if max <? this then this else max) m lsns
  /\ forall l, l ∈ lsns -> l <= foldl (fun max this => if max <? this then this else max) m lsns.
Proof.
  revert m. induction lsns as [|l lsns IH]; intros m; cbn; [by split; [|intros l ?%not_elem_of_nil]|].
  destruct (IH (if m <? l then l else m)) as [H1 H2]. assert (m <= (if m <? l then l else m) /\ l <= (if m <? l then l else m)).
  { case_if; bool_simpl; lia. }
  split; [lia|]. intros l' [->|Hl]%elem_of_cons; [lia|by apply H2].
Qed.

Lemma read_max_lsn lsns i : read_at lsns i <= max_lsn lsns.
Proof.
  destruct (max_lsn_ge lsns InvalidXLogRecPtr) as [H1 H2]. unfold read_at, max_lsn in *.
  destruct (lsns !! Z.to_nat i) as [l|] eqn:E; [|done]. by apply H2, list_elem_of_lookup_2 with (Z.to_nat i).
Qed.

Lemma read_replicate_zero n i : read_at (replicate n 0) i = 0.
Proof. unfold read_at. destruct (replicate n 0 !! Z.to_nat i) eqn:E; [|done]. by apply lookup_replicate in E as [-> _]. Qed.

(** ** The invariant *)

(** The LSNs of a page are flushed. *)
Definition page_flushed (c : Slru) (p : SlruPage) : Prop := forall i, read_at (group_lsn p) i <= wal_flushed c.

(** A reader of the entry of [x] learns that the WAL up to [lsn] is needed, or
    it is flushed. *)
Definition lsn_known (lsn : XLogRecPtr) (c : Slru) (x : TransactionId) : Prop :=
  exists p, pages c !! TransactionIdToPage x = Some p
    /\ (lsn <= wal_flushed c \/ lsn <= read_at (group_lsn p) (GetLSNIndex x)).

(** Every page has been flushed, except those with unsaved changes, and
    except the page [busy] that an update is working on.  The WAL is flushed up
    to [floor] at least. *)
Record wal_inv (busy : option Z) (lsn floor : XLogRecPtr) (known : list TransactionId) (c : Slru) : Prop := {
  wi_wf : clog_wf c;
  wi_flushed : 0 <= floor <= wal_flushed c;
  wi_clean pageno p : Some pageno <> busy -> pages c !! pageno = Some p -> page_dirty p = false -> page_flushed c p;
  wi_known x : x ∈ known -> lsn_known lsn c x;
}.

(** The state of the log between updates. *)
Definition written_after_wal (c : Slru) : Prop := wal_inv None 0 0 [] c.

Section Inv.
Context (lsn floor : XLogRecPtr).

Lemma wi_nonneg busy known c : wal_inv busy lsn floor known c -> 0 <= wal_flushed c.
Proof. intros H. pose proof (wi_flushed _ _ _ _ _ H). lia. Qed.

Lemma wal_inv_busy pageno known c : wal_inv None lsn floor known c -> wal_inv (Some pageno) lsn floor known c.
Proof. intros [? ? H ?]. constructor; [done|done| |done]. intros k p _. by apply H. Qed.

(** A change of one page and perhaps a flush. *)
Lemma wal_inv_page busy known c c' pageno p q :
  wal_inv busy lsn floor known c -> pages c !! pageno = Some p -> pages c' = <[pageno := q]> (pages c) ->
  wal_flushed c <= wal_flushed c' -> page_wf q ->
  (Some pageno <> busy -> page_dirty q = false -> page_flushed c' q) ->
  (forall i, 0 <= i < CLOG_LSNS_PER_PAGE -> read_at (group_lsn p) i <= read_at (group_lsn q) i \/ read_at (group_lsn p) i <= wal_flushed c') ->
  wal_inv busy lsn floor known c'.
Proof.
  intros [Hwf Hf Hc Hk] Hp E Hle Hq Hclean Hlsn. constructor.
  - unfold clog_wf. rewrite E. by apply map_Forall_insert_2.
  - lia.
  - intros k r Hb. rewrite E. destruct (decide (k = pageno)) as [->|Hne].
    + rewrite lookup_insert_eq. intros [= <-]. by apply Hclean.
    + rewrite lookup_insert_ne by done. intros Hr Hd i. pose proof (Hc k r Hb Hr Hd i). lia.
  - intros x Hx. destruct (Hk x Hx) as (r & Hr & Hl). unfold lsn_known. rewrite E.
    destruct (decide (TransactionIdToPage x = pageno)) as [Heq|Hne].
    + rewrite Heq in *. rewrite lookup_insert_eq. exists q. split; [done|]. assert (r = p) as -> by congruence.
      pose proof (Hlsn (GetLSNIndex x) (lsn_index_range x)). lia.
    + rewrite lookup_insert_ne by done. exists r. split; [done|]. lia.
Qed.

Lemma XLogFlush_flushed l c : wal_flushed c <= wal_flushed (XLogFlush l c) /\ l <= wal_flushed (XLogFlush l c).
Proof. unfold XLogFlush. case_if; bool_simpl; cbn; lia. Qed.

Lemma PhysicalWritePage_flushed pageno p c :
  wal_flushed c <= wal_flushed (SlruPhysicalWritePage pageno p c) /\
  (0 <= wal_flushed c -> page_flushed (SlruPhysicalWritePage pageno p c) p).
Proof.
  unfold SlruPhysicalWritePage, page_flushed. cbn [wal_flushed]. unfold XLogRecPtrIsInvalid.
  destruct (Z.eqb_spec (max_lsn (group_lsn p)) InvalidXLogRecPtr) as [E|_]; cbn [negb].
  - split; [done|]. intros H i. pose proof (read_max_lsn (group_lsn p) i). unfold InvalidXLogRecPtr in E. lia.
  - destruct (XLogFlush_flushed (max_lsn (group_lsn p)) c) as [H1 H2]. split; [done|]. intros _ i.
    pose proof (read_max_lsn (group_lsn p) i). lia.
Qed.

Lemma InternalWritePage_wal pageno known c :
  wal_inv None lsn floor known c -> wal_inv None lsn floor known (SlruInternalWritePage pageno c) /\
  forall p, pages (SlruInternalWritePage pageno c) !! pageno = Some p -> page_dirty p = false /\ page_flushed (SlruInternalWritePage pageno c) p.
Proof.
  intros Hi. unfold SlruInternalWritePage. destruct (pages c !! pageno) as [p|] eqn:Hp; [|by rewrite Hp].
  destruct (page_dirty p) eqn:Hd; cbn [negb].
  - destruct (PhysicalWritePage_flushed pageno p c) as [H1 H2]. specialize (H2 (wi_nonneg _ _ _ Hi)). split.
    + eapply (wal_inv_page None known c _ pageno p (mkSlruPage (page_buffer p) (group_lsn p) false)); [done|done| |done| |done|by left].
      { unfold put_page, with_pages. cbn [pages]. by rewrite PhysicalWritePage_pages. }
      exact (wi_wf _ _ _ _ _ Hi _ _ Hp).
    + intros q. unfold put_page, with_pages. cbn [pages]. rewrite lookup_insert_eq. intros [= <-]. by split.
  - split; [done|]. intros q. rewrite Hp. intros [= <-]. split; [done|]. by apply (wi_clean _ _ _ _ _ Hi pageno).
Qed.

Lemma evict_page_wal pageno known c : wal_inv None lsn floor known c -> wal_inv None lsn floor known (evict_page pageno c).
Proof.
  intros Hi. destruct (InternalWritePage_wal pageno known c Hi) as [Hi' Hfl]. unfold evict_page.
  set (c' := SlruInternalWritePage pageno c) in *. destruct (pages c' !! pageno) as [p|] eqn:Hp.
  - destruct (Hfl p eq_refl) as [Hd Hf]. pose proof (wi_wf _ _ _ _ _ Hi' _ _ Hp) as [W1 W2].
    eapply (wal_inv_page None known c' _ pageno p (SimpleLruZeroLSNs p)); [done|done| |done| | |].
    + cbn. apply map_eq. intros k. destruct (decide (k = pageno)) as [->|Hne]; [by rewrite lookup_alter_eq, lookup_insert_eq, Hp|].
      by rewrite lookup_alter_ne, lookup_insert_ne.
    + split; [done|]. cbn. by rewrite length_replicate.
    + intros _ _ i. cbn. rewrite read_replicate_zero. apply (wi_nonneg _ _ _ Hi').
    + intros i _. right. apply Hf.
  - replace (with_pages _ c') with c'; [done|]. unfold with_pages.
    replace (alter SimpleLruZeroLSNs pageno (pages c')) with (pages c'); [by destruct c'|].
    symmetry. apply map_eq. intros k. destruct (decide (k = pageno)) as [->|Hne]; [by rewrite lookup_alter_eq, Hp|].
    by rewrite lookup_alter_ne.
Qed.

Lemma SlruSelectLRUPage_wal pageno known c : wal_inv None lsn floor known c -> wal_inv None lsn floor known (SlruSelectLRUPage pageno c).
Proof.
  intros Hi. unfold SlruSelectLRUPage. set (c1 := mkSlru _ _ _ _ _ _).
  assert (Hi1 : wal_inv None lsn floor known c1) by (destruct Hi; by constructor).
  destruct (lru_victim c (cur_lru_count c)); [|done]. case_if; [done|]. by apply evict_page_wal.
Qed.

Lemma SimpleLruWriteAll_wal known c : wal_inv None lsn floor known c -> wal_inv None lsn floor known (SimpleLruWriteAll c).
Proof.
  unfold SimpleLruWriteAll. generalize (map_to_list (pages c)). intros l. revert c.
  induction l as [|kv l IH]; intros c Hi; [done|]. cbn. by apply IH, InternalWritePage_wal.
Qed.

(** ** Updates *)

Lemma set_bit_lsn ir x st l p i :
  page_wf p -> 0 <= i ->
  read_at (group_lsn p) i <= read_at (group_lsn (TransactionIdSetStatusBit ir x st l p)) i
  /\ (i = GetLSNIndex x -> st <> TRANSACTION_STATUS_SUB_COMMITTED -> l <> InvalidXLogRecPtr ->
      l <= read_at (group_lsn (TransactionIdSetStatusBit ir x st l p)) i).
Proof.
  intros [_ Hwf] Hi. pose proof (lsn_index_range x). unfold TransactionIdSetStatusBit, XLogRecPtrIsInvalid.
  destruct (ir && _ && _) eqn:Hc.
  { split; [lia|]. intros _ Hst. bool_simpl. by destruct Hst. }
  cbn [group_lsn]. destruct (Z.eqb_spec l InvalidXLogRecPtr) as [->|Hl]; cbn [negb andb]; [split; [lia|done]|].
  destruct (Z.ltb_spec (read_at (group_lsn p) (GetLSNIndex x)) l).
  - destruct (Z.eq_dec (GetLSNIndex x) i) as [<-|Hne]; [rewrite read_write_same by lia; lia|].
    rewrite read_write_other by lia. split; [lia|congruence].
  - split; [lia|]. intros -> _ _. lia.
Qed.

Lemma set_bit_wal ir pageno st l x known :
  steps_ok (wal_inv (Some pageno) lsn floor known) (set_bit ir pageno st l x) (wal_inv (Some pageno) lsn floor known).
Proof.
  apply steps_ok_try. intros c c' Hi. destruct (pages c !! pageno) as [p|] eqn:Hp; [|done]. intros [= <-].
  pose proof (wi_wf _ _ _ _ _ Hi _ _ Hp) as Hw.
  eapply (wal_inv_page _ known c _ pageno p); [done|done|done|done|by apply set_bit_wf|by intros []|].
  intros i Hr. left. apply set_bit_lsn; [done|lia].
Qed.

Lemma set_bit_records ir pageno st x known :
  TransactionIdToPage x = pageno -> st <> TRANSACTION_STATUS_SUB_COMMITTED -> lsn <> InvalidXLogRecPtr ->
  steps_ok (wal_inv (Some pageno) lsn floor known) (set_bit ir pageno st lsn x) (wal_inv (Some pageno) lsn floor (x :: known)).
Proof.
  intros Hx Hst Hl c states Hi E. pose proof (set_bit_wal ir pageno st lsn x known c states Hi E) as [W1 W2 W3 W4].
  constructor; [done|done|done|]. intros y [->|Hy]%elem_of_cons; [|by apply W4].
  unfold set_bit, try_step in E. destruct (pages c !! pageno) as [p|] eqn:Hp; [|done]. injection E as <-.
  eexists. cbn. rewrite Hx, lookup_insert_eq. split; [done|]. right.
  apply set_bit_lsn; [exact (wi_wf _ _ _ _ _ Hi _ _ Hp)|apply lsn_index_range|done|done|done].
Qed.

Lemma set_bits_records ir pageno st xids known :
  Forall (fun x => TransactionIdToPage x = pageno) xids -> st <> TRANSACTION_STATUS_SUB_COMMITTED -> lsn <> InvalidXLogRecPtr ->
  steps_ok (wal_inv (Some pageno) lsn floor known) (each_step (set_bit ir pageno st lsn) xids) (wal_inv (Some pageno) lsn floor (xids ++ known)).
Proof.
  intros H Hst Hl. revert known. induction H as [|x xids Hx H IH]; intros known; [apply steps_ok_none|].
  cbn [each_step]. eapply steps_ok_seq; [by apply set_bit_records|].
  intros c states Hi E. destruct (IH (x :: known) c states Hi E) as [W1 W2 W3 W4]. constructor; [done|done|done|].
  intros y Hy. apply W4. set_solver.
Qed.

Lemma set_dirty_wal pageno known :
  steps_ok (wal_inv (Some pageno) lsn floor known) (one_step (set_dirty pageno)) (wal_inv None lsn floor known).
Proof.
  apply steps_ok_one. intros c [W1 W2 W3 W4]. constructor.
  - by rewrite set_dirty_same.
  - done.
  - intros k p _. cbn. destruct (decide (k = pageno)) as [->|Hne].
    + rewrite lookup_alter_eq. by destruct (pages c !! pageno); [intros [= <-]|].
    + rewrite lookup_alter_ne by done. apply W3. congruence.
  - intros x Hx. destruct (W4 x Hx) as (p & Hp & Hl). unfold lsn_known. cbn.
    destruct (decide (TransactionIdToPage x = pageno)) as [<-|Hne].
    + rewrite lookup_alter_eq, Hp. by exists (mark_dirty p).
    + rewrite lookup_alter_ne by done. by exists p.
Qed.

Lemma fetch_wal pageno known :
  steps_ok (wal_inv None lsn floor known) (try_step (fun c => snd <$> SimpleLruReadPage pageno c)) (wal_inv (Some pageno) lsn floor known).
Proof.
  apply steps_ok_try. intros c c' Hi. unfold SimpleLruReadPage.
  destruct (pages (SlruSelectLRUPage pageno c) !! pageno); [|done]. intros [= <-].
  by apply wal_inv_busy, SlruSelectLRUPage_wal.
Qed.

(** An update of any page for anybody. *)
Lemma SetPageStatusInternal_wal ir xid subxids st l pageno known :
  steps_ok (wal_inv None lsn floor known) (TransactionIdSetPageStatusInternal ir xid subxids st l pageno) (wal_inv None lsn floor known).
Proof.
  assert (H : forall s, steps_ok (wal_inv (Some pageno) lsn floor known) (each_step (set_bit ir pageno s l) subxids) (wal_inv (Some pageno) lsn floor known)).
  { intros s. apply steps_ok_each. intros x _. apply set_bit_wal. }
  eapply steps_ok_seq; [apply fetch_wal|]. eapply steps_ok_seq; [|eapply steps_ok_seq; [apply H|apply set_dirty_wal]].
  destruct (TransactionIdIsValid xid); [|apply steps_ok_none]. eapply steps_ok_seq; [|apply set_bit_wal].
  destruct (st =? TRANSACTION_STATUS_COMMITTED); [apply H|apply steps_ok_none].
Qed.

Lemma clog_group_walk_wal ir ms known :
  steps_ok (wal_inv None lsn floor known) (clog_group_walk ir ms) (wal_inv None lsn floor known).
Proof. apply steps_ok_each. intros m _. apply SetPageStatusInternal_wal. Qed.

(** What a page update is made of: the direct update, or one of a group that
    ends with it. *)
Lemma SetPageStatus_cases ir MyProc ct xid subxids st l pageno same P Q :
  (forall ms, steps_ok P (clog_group_walk ir ms) P) ->
  steps_ok P (TransactionIdSetPageStatusInternal ir xid subxids st l pageno) Q ->
  steps_ok P (TransactionIdSetPageStatus ir MyProc ct xid subxids st l pageno same) Q.
Proof.
  intros Hg Hd. unfold TransactionIdSetPageStatus. destruct (same && _ && _ && _) eqn:Hc; [|done].
  assert (subxids = proc_subxids MyProc) as Hsub by (bool_simpl; by eapply bool_decide_eq_true_1).
  destruct (slru_lock_free ct); [done|]. unfold TransactionGroupUpdateXidStatus. rewrite <- Hsub.
  set (me := mkClogGroupMember _ _ _ _ _).
  assert (H : forall ms, steps_ok P (clog_group_walk ir (ms ++ [me])) Q).
  { intros ms s states HP. unfold clog_group_walk. rewrite each_step_app. revert s states HP.
    eapply steps_ok_seq; [apply Hg|]. cbn [each_step]. eapply steps_ok_seq; [exact Hd|apply steps_ok_none]. }
  destruct (clogGroupFirstPage ct) as [page|]; cbn [default]; [|apply H].
  case_if; [done|apply (H [])].
Qed.

Lemma SetPageStatus_wal ir MyProc ct xid subxids st l pageno same known :
  steps_ok (wal_inv None lsn floor known) (TransactionIdSetPageStatus ir MyProc ct xid subxids st l pageno same) (wal_inv None lsn floor known).
Proof. apply SetPageStatus_cases; [intros ms; apply clog_group_walk_wal|apply SetPageStatusInternal_wal]. Qed.

Lemma set_status_by_pages_wal ir MyProc ct subxids st l known :
  steps_ok (wal_inv None lsn floor known) (set_status_by_pages ir MyProc ct subxids st l) (wal_inv None lsn floor known).
Proof.
  destruct subxids as [|x xs]; [apply steps_ok_none|]. unfold set_status_by_pages.
  generalize (length (x :: xs)). generalize (TransactionIdToPage x), (x :: xs). intros pg l0 n. revert pg l0.
  induction n as [|n IH]; intros pg [|y ys]; [apply steps_ok_none|apply steps_ok_fail|apply steps_ok_none|].
  cbn [set_status_by_pages_loop]. destruct (run_on_page pg (y :: ys)) as [on off].
  eapply steps_ok_seq; [apply SetPageStatus_wal|]. destruct off; [apply steps_ok_none|apply IH].
Qed.

Lemma SetTreeStatus_wal ir MyProc ct xid subxids st l known :
  steps_ok (wal_inv None lsn floor known) (TransactionIdSetTreeStatus ir MyProc ct xid subxids st l) (wal_inv None lsn floor known).
Proof.
  unfold TransactionIdSetTreeStatus. destruct (run_on_page _ subxids) as [on off]. destruct off; [apply SetPageStatus_wal|].
  eapply steps_ok_seq; [|eapply steps_ok_seq; [apply SetPageStatus_wal|apply set_status_by_pages_wal]].
  case_if; [apply set_status_by_pages_wal|apply steps_ok_none].
Qed.

Lemma wal_inv_sub busy known known' c :
  known' ⊆ known -> wal_inv busy lsn floor known c -> wal_inv busy lsn floor known' c.
Proof. intros H [W1 W2 W3 W4]. constructor; auto. Qed.

Section Records.
Context (ir : bool) (st : XidStatus) (Hst : st <> TRANSACTION_STATUS_SUB_COMMITTED) (Hlsn : lsn <> InvalidXLogRecPtr).

(** The transactions named in a page call. *)
Definition call_xids (xid : TransactionId) (subxids : list TransactionId) : list TransactionId :=
  subxids ++ (if TransactionIdIsValid xid then [xid] else []).

Lemma SetPageStatusInternal_records xid subxids pageno known :
  page_call_ok pageno xid subxids ->
  steps_ok (wal_inv None lsn floor known) (TransactionIdSetPageStatusInternal ir xid subxids st lsn pageno)
    (wal_inv None lsn floor (call_xids xid subxids ++ known)).
Proof.
  intros [Hx Hs]. eapply steps_ok_seq; [apply fetch_wal|].
  eapply (steps_ok_seq _ _ (wal_inv (Some pageno) lsn floor ((if TransactionIdIsValid xid then [xid] else []) ++ known))).
  - destruct (TransactionIdIsValid xid); [|apply steps_ok_none]. eapply steps_ok_seq; [|by apply set_bit_records; auto].
    case_if; [|apply steps_ok_none]. apply steps_ok_each. intros y _. apply set_bit_wal.
  - unfold call_xids. rewrite <- app_assoc. eapply steps_ok_seq; [by apply set_bits_records|apply set_dirty_wal].
Qed.

Lemma SetPageStatus_records MyProc ct xid subxids pageno same known :
  page_call_ok pageno xid subxids ->
  steps_ok (wal_inv None lsn floor known) (TransactionIdSetPageStatus ir MyProc ct xid subxids st lsn pageno same)
    (wal_inv None lsn floor (call_xids xid subxids ++ known)).
Proof.
  intros H. apply SetPageStatus_cases; [intros ms; apply clog_group_walk_wal|by apply SetPageStatusInternal_records].
Qed.

Lemma set_status_by_pages_records MyProc ct subxids known :
  steps_ok (wal_inv None lsn floor known) (set_status_by_pages ir MyProc ct subxids st lsn) (wal_inv None lsn floor (subxids ++ known)).
Proof.
  destruct subxids as [|x xs]; [apply steps_ok_none|]. unfold set_status_by_pages.
  generalize (length (x :: xs)). generalize (TransactionIdToPage x), (x :: xs). intros pg l0 n. revert known pg l0.
  induction n as [|n IH]; intros known pg [|y ys]; [apply steps_ok_none|apply steps_ok_fail|apply steps_ok_none|].
  cbn [set_status_by_pages_loop]. destruct (run_on_page pg (y :: ys)) as [on off] eqn:E.
  apply run_on_page_spec in E as (E & Hon & _).
  eapply steps_ok_seq; [by apply SetPageStatus_records|]. replace (call_xids InvalidTransactionId on) with on by (unfold call_xids; cbn; by rewrite app_nil_r).
  rewrite E. destruct off as [|z off]; [rewrite app_nil_r; apply steps_ok_none|].
  eapply steps_ok_post; [|apply IH]. intros c. apply wal_inv_sub. set_solver.
Qed.

Lemma SetTreeStatus_records MyProc ct xid subxids known :
  TransactionIdIsValid xid = true ->
  steps_ok (wal_inv None lsn floor known) (TransactionIdSetTreeStatus ir MyProc ct xid subxids st lsn)
    (wal_inv None lsn floor (xid :: subxids)).
Proof.
  intros Hv. unfold TransactionIdSetTreeStatus. destruct (run_on_page _ subxids) as [on off] eqn:E.
  apply run_on_page_spec in E as (-> & Hon & _).
  assert (Hc : call_xids xid on = on ++ [xid]) by (unfold call_xids; by rewrite Hv).
  destruct off as [|y off].
  - rewrite app_nil_r. eapply steps_ok_post; [|by apply SetPageStatus_records]. intros c. apply wal_inv_sub. rewrite Hc. set_solver.
  - eapply steps_ok_seq.
    + instantiate (1 := wal_inv None lsn floor known). case_if; [apply set_status_by_pages_wal|apply steps_ok_none].
    + eapply steps_ok_seq; [by apply SetPageStatus_records|]. rewrite Hc.
      eapply steps_ok_post; [|apply set_status_by_pages_records]. intros c. apply wal_inv_sub. set_solver.
Qed.
End Records.
End Inv.

(** ** Whatever happens to the log *)

(** The acts of all processes on the log while the page [keep] is needed:
    outcomes are recorded, pages are read in and so take the buffers of
    others, pages are written out one by one or by a checkpoint, new pages are
    zeroed, the log is truncated without touching the segment of [keep], and
    WAL is flushed for other reasons. *)
Inductive log_act (keep : Z) : Slru -> Slru -> Prop :=
| act_record ir MyProc ct xid subxids st l c c' :
    run_steps (TransactionIdSetTreeStatus ir MyProc ct xid subxids st l) c = Some c' -> log_act keep c c'
| act_read pageno p c c' : SimpleLruReadPage pageno c = Some (p, c') -> log_act keep c c'
| act_write pageno c : log_act keep c (SlruInternalWritePage pageno c)
| act_checkpoint c : log_act keep c (SimpleLruWriteAll c)
| act_zero pageno c : pageno <> keep -> log_act keep c (SimpleLruZeroPage XactCtl pageno c)
| act_truncate cutoffPage c :
    SlruMayDeleteSegment XactCtl (segpage_of keep) cutoffPage = false ->
    log_act keep c (SimpleLruTruncate XactCtl cutoffPage c)
| act_flush l c : log_act keep c (XLogFlush l c).

Section Acts.
Context (lsn floor : XLogRecPtr) (known : list TransactionId) (keep : Z).
Context (Hkeep : Forall (fun x => TransactionIdToPage x = keep) known).

(** Pages other than [keep] may go, others may come. *)
Lemma wal_inv_replace c c' :
  wal_inv None lsn floor known c -> clog_wf c' -> wal_flushed c <= wal_flushed c' -> pages c' !! keep = pages c !! keep ->
  (forall k p, pages c' !! k = Some p -> pages c !! k = Some p \/ page_dirty p = true) ->
  wal_inv None lsn floor known c'.
Proof.
  intros Hi Hwf Hf Hk Hp. pose proof (wi_flushed _ _ _ _ _ Hi). constructor; [done|lia| |].
  - intros k p Hb Hp' Hd i. destruct (Hp k p Hp') as [Hc|Hd']; [|congruence].
    pose proof (wi_clean _ _ _ _ _ Hi k p Hb Hc Hd i). lia.
  - intros x Hx. rewrite Forall_forall in Hkeep. destruct (wi_known _ _ _ _ _ Hi x Hx) as (p & Hp' & Hl).
    exists p. rewrite (Hkeep x Hx) in *. rewrite Hk. split; [done|]. lia.
Qed.

Lemma log_act_wal c c' : log_act keep c c' -> wal_inv None lsn floor known c -> wal_inv None lsn floor known c'.
Proof.
  intros H Hi. destruct H as [ir MyProc ct xid subxids st l c c' E|pageno p c c' E|pageno c|c|pageno c Hne|cutoffPage c Hseg|l c].
  - unfold run_steps in E. destruct (TransactionIdSetTreeStatus _ _ _ _ _ _ _ c) as [states|] eqn:Es; [|done].
    injection E as <-. by eapply SetTreeStatus_wal.
  - rewrite SimpleLruReadPage_spec in E. destruct (pages _ !! pageno); [|done]. injection E as _ <-. by apply SlruSelectLRUPage_wal.
  - by apply InternalWritePage_wal.
  - by apply SimpleLruWriteAll_wal.
  - pose proof (SlruSelectLRUPage_wal lsn floor pageno known c Hi) as Hi'. eapply wal_inv_replace; [exact Hi'| |done| |].
    + apply SimpleLruZeroPage_wf, (wi_wf _ _ _ _ _ Hi).
    + cbn. by rewrite lookup_insert_ne.
    + intros k p. cbn. destruct (decide (k = pageno)) as [->|Hk]; [rewrite lookup_insert_eq; intros [= <-]; by right|].
      rewrite lookup_insert_ne by done. by left.
  - unfold SimpleLruTruncate. case_if; [done|]. generalize (filter (fun kv : Z * SlruPage => PagePrecedes XactCtl kv.1 cutoffPage = true) (map_to_list (pages c))). intros old.
    assert (Hi' : wal_inv None lsn floor known (foldl (fun c kv => evict_page kv.1 c) c old)).
    { clear Heqb. revert c Hi. induction old as [|kv old IH]; intros c Hi; [done|]. by apply IH, evict_page_wal. }
    revert Hi'. generalize (foldl (fun c kv => evict_page kv.1 c) c old). intros c1 Hi'.
    eapply wal_inv_replace; [exact Hi'| |done| |].
    + intros k p. cbn. intros [Hp _]%map_lookup_filter_Some. by apply (wi_wf _ _ _ _ _ Hi') in Hp.
    + cbn. destruct (pages c1 !! keep) as [p|] eqn:Hp; [by apply map_lookup_filter_Some|apply map_lookup_filter_None; by left].
    + intros k p. cbn. intros [Hp _]%map_lookup_filter_Some. by left.
  - eapply wal_inv_replace; [exact Hi| |apply XLogFlush_flushed| |].
    + unfold clog_wf. rewrite XLogFlush_pages. apply (wi_wf _ _ _ _ _ Hi).
    + by rewrite XLogFlush_pages.
    + intros k p. rewrite XLogFlush_pages. by left.
Qed.

Lemma log_acts_wal c c' : rtc (log_act keep) c c' -> wal_inv None lsn floor known c -> wal_inv None lsn floor known c'.
Proof. induction 1; [done|]. intros Hi. by eapply IHrtc, log_act_wal. Qed.
End Acts.

Lemma written_after_wal_inv lsn c : written_after_wal c -> wal_inv None lsn (wal_flushed c) [] c.
Proof. intros [W1 W2 W3 W4]. constructor; [done|lia|done|]. intros x Hx. by apply not_elem_of_nil in Hx. Qed.

Lemma wal_inv_written lsn floor known c : wal_inv None lsn floor known c -> written_after_wal c.
Proof. intros [W1 W2 W3 W4]. constructor; [done|lia|done|]. intros x Hx. by apply not_elem_of_nil in Hx. Qed.

(** The log keeps its state and the flush position only grows. *)
Lemma log_acts_written keep c c' :
  rtc (log_act keep) c c' -> written_after_wal c -> written_after_wal c' /\ wal_flushed c <= wal_flushed c'.
Proof.
  intros H Hw. assert (Hi : wal_inv None 0 (wal_flushed c) [] c') by (by eapply log_acts_wal, written_after_wal_inv).
  split; [by eapply wal_inv_written|]. pose proof (wi_flushed _ _ _ _ _ Hi). lia.
Qed.

(** The LSN of a recorded tree is known from then on. *)
Lemma SetTreeStatus_known ir MyProc ct xid subxids st lsn c c1 c' x :
  written_after_wal c -> TransactionIdIsValid xid = true -> st <> TRANSACTION_STATUS_SUB_COMMITTED ->
  lsn <> InvalidXLogRecPtr -> x ∈ xid :: subxids ->
  run_steps (TransactionIdSetTreeStatus ir MyProc ct xid subxids st lsn) c = Some c1 ->
  rtc (log_act (TransactionIdToPage x)) c1 c' ->
  wal_inv None lsn (wal_flushed c) [x] c'.
Proof.
  intros Hw Hv Hst Hl Hx E Hacts. eapply log_acts_wal; [|done|]; [by apply Forall_singleton|].
  unfold run_steps in E. destruct (TransactionIdSetTreeStatus _ _ _ _ _ _ _ c) as [states|] eqn:Es; [|done]. injection E as <-.
  eapply wal_inv_sub; [|eapply SetTreeStatus_records; [done|done|done|by apply written_after_wal_inv|done]]. set_solver.
Qed.

(** C23. Asynchronous commit.  Recording the outcome of a tree with the LSN of
    its WAL record succeeds, and whatever happens to the log later, as long as
    the page of a transaction [x] of the tree is needed: the page is there, a
    reader of the status of [x] learns an LSN that covers the record, or else
    the WAL is flushed beyond the record already (as it is when the page has
    left its buffer and the LSN was forgotten); and when the page has been
    written out, the record was flushed before. *)
Theorem TransactionIdSetTreeStatus_lsn ir MyProc ct xid subxids st lsn c x :
  written_after_wal c -> TransactionIdIsValid xid = true ->
  st = TRANSACTION_STATUS_COMMITTED \/ st = TRANSACTION_STATUS_ABORTED ->
  Forall (has_page c) (xid :: subxids) -> Forall (member_ok c) (clogGroupJoined ct) ->
  lsn <> InvalidXLogRecPtr -> x ∈ xid :: subxids ->
  exists c1, run_steps (TransactionIdSetTreeStatus ir MyProc ct xid subxids st lsn) c = Some c1 /\
    forall c', rtc (log_act (TransactionIdToPage x)) c1 c' ->
      exists p s l, pages c' !! TransactionIdToPage x = Some p /\ TransactionIdGetStatus c' x = Some (s, l)
        /\ (lsn <= l \/ lsn <= wal_flushed c') /\ (page_dirty p = false -> lsn <= wal_flushed c').
Proof.
  intros Hw Hv Hst Hp Hm Hl Hx.
  destruct (SetTreeStatus_writes ir MyProc ct xid subxids st lsn c Hp Hm) as (es & He & _).
  eexists. split; [by eapply emits_run|]. intros c' Hacts.
  assert (Hi : wal_inv None lsn (wal_flushed c) [x] c').
  { eapply (SetTreeStatus_known ir MyProc ct xid subxids st); [done|done|by destruct Hst as [->| ->]|done|done|by eapply emits_run|done]. }
  destruct (wi_known _ _ _ _ _ Hi x ltac:(set_solver)) as (p & Hp' & Hk).
  eexists p, _, _. split; [done|]. unfold TransactionIdGetStatus, SimpleLruReadPage_ReadOnly. rewrite Hp'.
  split; [reflexivity|]. split; [lia|]. intros Hd.
  pose proof (wi_clean _ _ _ _ _ Hi _ p ltac:(done) Hp' Hd (GetLSNIndex x)). lia.
Qed.

Lemma slru_init_written : written_after_wal (slru_init no_victims).
Proof. constructor; [apply map_Forall_empty|done|done|]. intros x Hx. by apply not_elem_of_nil in Hx. Qed.

Lemma two_pages_written : written_after_wal two_pages.
Proof.
  eapply (log_acts_written 2), slru_init_written. eapply rtc_l; [by apply (act_zero 2 0)|]. by apply rtc_once, (act_zero 2 1).
Qed.

(** A checkpoint after the commit writes the pages out. *)
Lemma TransactionIdSetTreeStatus_lsn_witness :
  exists c1, run_steps (TransactionIdSetTreeStatus false (mkMyProcXids 0 []) no_contention 32766
               [32767; 32768] TRANSACTION_STATUS_COMMITTED 900) two_pages = Some c1 /\
    rtc (log_act 1) c1 (SimpleLruWriteAll c1) /\
    exists p s l, pages (SimpleLruWriteAll c1) !! 1 = Some p /\ TransactionIdGetStatus (SimpleLruWriteAll c1) 32768 = Some (s, l)
      /\ (900 <= l \/ 900 <= wal_flushed (SimpleLruWriteAll c1)) /\ (page_dirty p = false -> 900 <= wal_flushed (SimpleLruWriteAll c1)).
Proof.
  destruct (TransactionIdSetTreeStatus_lsn false (mkMyProcXids 0 []) no_contention 32766 [32767; 32768]
              TRANSACTION_STATUS_COMMITTED 900 two_pages 32768) as (c1 & E & H).
  - exact two_pages_written.
  - reflexivity.
  - by left.
  - repeat constructor; apply two_pages_has; cbv; split; congruence.
  - constructor.
  - done.
  - set_solver.
  - exists c1. split; [exact E|].
    assert (Hact : rtc (log_act 1) c1 (SimpleLruWriteAll c1)) by apply rtc_once, act_checkpoint.
    split; [exact Hact|]. exact (H _ Hact).
Defined.
