(* ===== verification/Subtrans.v ===== *)
(** * Subtrans: the parent links of subtransactions (pg_subtrans)

    Models src/backend/access/transam/subtrans.c on the page store of Slru:
    one word per transaction holds the xid of its immediate parent. *)

From S2P Require Import Prelude Steps TransactionId Slru.

Definition SUBTRANS_XACTS_PER_PAGE : Z := BLCKSZ / 4.

Definition subtrans_page (xid : TransactionId) : Z := xid / SUBTRANS_XACTS_PER_PAGE.
Definition TransactionIdToEntry (xid : TransactionId) : Z := xid mod SUBTRANS_XACTS_PER_PAGE.

Definition SubTransPagePrecedes (page1 page2 : Z) : bool :=
  let xid1 := u32 page1 *u32 SUBTRANS_XACTS_PER_PAGE in
  let xid1 := xid1 +u32 (FirstNormalTransactionId + 1) in
  let xid2 := u32 page2 *u32 SUBTRANS_XACTS_PER_PAGE in
  let xid2 := xid2 +u32 (FirstNormalTransactionId + 1) in
  TransactionIdPrecedes xid1 xid2
  && TransactionIdPrecedes xid1 (u32 (xid2 + SUBTRANS_XACTS_PER_PAGE - 1)).

Definition SubTransCtl : SlruCtl :=
  mkSlruCtl (Z.to_nat SUBTRANS_XACTS_PER_PAGE) 0 SubTransPagePrecedes.

(** How a lookup can end other than with a value. [OutOfFuel] is the model's
    own: it marks a recursion deeper than the fuel given. *)
Inductive LookupError :=
| IoError (pageno : Z)
| InvalidEntry (xid parent : TransactionId)
| OutOfFuel.

Definition SubTransSetParent (xid parent : TransactionId) (c : Slru) : result LookupError Slru :=
  let pageno := subtrans_page xid in
  let entryno := TransactionIdToEntry xid in
  '(p, c) ← or_err (IoError pageno) (SimpleLruReadPage pageno c);
  if read_at (page_buffer p) entryno != parent
  then Ok (put_page pageno
             (mkSlruPage (write_at (page_buffer p) entryno parent) (group_lsn p) true) c)
  else Ok c.

Definition SubTransGetParent (c : Slru) (xid : TransactionId) : result LookupError TransactionId :=
  let pageno := subtrans_page xid in
  if negb (TransactionIdIsNormal xid) then Ok InvalidTransactionId
  else
    p ← or_err (IoError pageno) (SimpleLruReadPage_ReadOnly pageno c);
    Ok (read_at (page_buffer p) (TransactionIdToEntry xid)).

(** The loop of [SubTransGetTopmostTransaction]. *)
Fixpoint SubTransGetTopmostTransaction_loop (fuel : nat) (c : Slru)
    (TransactionXmin parentXid previousXid : TransactionId) : result LookupError TransactionId :=
  match fuel with
  | O => Err OutOfFuel
  | S n =>
      if TransactionIdIsValid parentXid then
        let previousXid := parentXid in
        if TransactionIdPrecedes parentXid TransactionXmin then Ok previousXid
        else
          parentXid ← SubTransGetParent c parentXid;
          if negb (TransactionIdPrecedes parentXid previousXid)
          then Err (InvalidEntry previousXid parentXid)
          else SubTransGetTopmostTransaction_loop n c TransactionXmin parentXid previousXid
      else Ok previousXid
  end.

Definition SubTransGetTopmostTransaction (fuel : nat) (c : Slru) (TransactionXmin xid : TransactionId)
    : result LookupError TransactionId :=
  SubTransGetTopmostTransaction_loop fuel c TransactionXmin xid xid.

Definition ZeroSUBTRANSPage (pageno : Z) (c : Slru) : Slru := SimpleLruZeroPage SubTransCtl pageno c.

(** The zeroing loop of [StartupSUBTRANS]; [None] when the fuel runs out. *)
Fixpoint StartupSUBTRANS_loop (fuel : nat) (startPage endPage : Z) (c : Slru) : option Slru :=
  if startPage != endPage then
    match fuel with
    | O => None
    | S n =>
        let c := ZeroSUBTRANSPage startPage c in
        let startPage := startPage + 1 in
        let startPage := if subtrans_page MaxTransactionId <? startPage then 0 else startPage in
        StartupSUBTRANS_loop n startPage endPage c
    end
  else Some (ZeroSUBTRANSPage startPage c).

Definition SUBTRANS_PAGES : Z := 2 ^ 32 / SUBTRANS_XACTS_PER_PAGE.

Definition StartupSUBTRANS (oldestActiveXID : TransactionId) (nextXid : FullTransactionId) (c : Slru)
    : option Slru :=
  let startPage := subtrans_page oldestActiveXID in
  let endPage := subtrans_page (XidFromFullTransactionId nextXid) in
  StartupSUBTRANS_loop (Z.to_nat ((endPage - startPage) mod SUBTRANS_PAGES)) startPage endPage c.

Definition ExtendSUBTRANS (newestXact : TransactionId) (c : Slru) : Slru :=
  if (TransactionIdToEntry newestXact != 0)
     && negb (TransactionIdEquals newestXact FirstNormalTransactionId)
  then c
  else ZeroSUBTRANSPage (subtrans_page newestXact) c.

Definition TruncateSUBTRANS (oldestXact : TransactionId) (c : Slru) : Slru :=
  let oldestXact := TransactionIdRetreat oldestXact in
  SimpleLruTruncate SubTransCtl (subtrans_page oldestXact) c.

(** ** Parent links *)

Definition subtrans_wf (c : Slru) : Prop :=
  map_Forall (fun _ p => Z.of_nat (length (page_buffer p)) = SUBTRANS_XACTS_PER_PAGE
                         /\ Forall is_u32 (page_buffer p)) (pages c).

Lemma entry_range xid : 0 <= TransactionIdToEntry xid < SUBTRANS_XACTS_PER_PAGE.
Proof.
  unfold TransactionIdToEntry, SUBTRANS_XACTS_PER_PAGE, BLCKSZ. Z.to_euclidean_division_equations; lia.
Qed.

Lemma subtrans_position_inj x y :
  subtrans_page x = subtrans_page y -> TransactionIdToEntry x = TransactionIdToEntry y -> x = y.
Proof.
  unfold subtrans_page, TransactionIdToEntry, SUBTRANS_XACTS_PER_PAGE, BLCKSZ.
  Z.to_euclidean_division_equations; lia.
Qed.

(** Links and their shape depend on the contents of pages only. *)
Lemma SubTransGetParent_contents c x :
  SubTransGetParent c x
  = if negb (TransactionIdIsNormal x) then Ok InvalidTransactionId
    else or_err (IoError (subtrans_page x))
           ((fun b => read_at b.1 (TransactionIdToEntry x)) <$> (contents <$> pages c !! subtrans_page x)).
Proof.
  unfold SubTransGetParent, SimpleLruReadPage_ReadOnly. case_if; [done|]. by destruct (pages c !! subtrans_page x).
Qed.

#[export] Instance SubTransGetParent_proper : Proper (same_contents ==> eq ==> eq) SubTransGetParent.
Proof. intros c c' H x ? <-. rewrite !SubTransGetParent_contents. by rewrite (same_page _ _ H). Qed.

#[export] Instance subtrans_wf_proper : Proper (same_contents ==> iff) subtrans_wf.
Proof.
  set (P := fun b : list Z * nat => Z.of_nat (length b.1) = SUBTRANS_XACTS_PER_PAGE /\ Forall is_u32 b.1).
  intros c c' H. split; apply (same_contents_Forall P); by try symmetry.
Qed.

Lemma SubTransGetParent_put c xid parent p y :
  subtrans_wf c -> pages c !! subtrans_page xid = Some p -> TransactionIdIsNormal y = true ->
  SubTransGetParent (put_page (subtrans_page xid)
      (mkSlruPage (write_at (page_buffer p) (TransactionIdToEntry xid) parent) (group_lsn p) true) c) y
  = if decide (y = xid) then Ok parent else SubTransGetParent c y.
Proof.
  intros Hwf Hp Hy. unfold SubTransGetParent. rewrite Hy. simpl. unfold SimpleLruReadPage_ReadOnly. simpl.
  destruct (Hwf _ _ Hp) as [Hlen _].
  pose proof (entry_range xid). pose proof (entry_range y).
  destruct (decide (subtrans_page y = subtrans_page xid)) as [Hpg|Hpg].
  - rewrite Hpg, lookup_insert_eq, Hp. simpl. case_decide as Hd.
    + subst y. by rewrite read_write_same by lia.
    + rewrite read_write_other; [done|lia|lia|]. intros He. by apply Hd, subtrans_position_inj.
  - rewrite lookup_insert_ne by done. by rewrite decide_False by (by intros ->).
Qed.

(** Setting a link reads the page in and changes one entry of it. *)
Lemma SubTransSetParent_found xid parent c p :
  pages c !! subtrans_page xid = Some p ->
  exists c1 q, pages c1 !! subtrans_page xid = Some q /\ same_contents c1 c /\
    SubTransSetParent xid parent c
    = if read_at (page_buffer q) (TransactionIdToEntry xid) != parent
      then Ok (put_page (subtrans_page xid)
                 (mkSlruPage (write_at (page_buffer q) (TransactionIdToEntry xid) parent) (group_lsn q) true) c1)
      else Ok c1.
Proof.
  intros Hp. destruct (SimpleLruReadPage_found _ _ _ Hp) as (q & E & Hq & _). eexists _, q. split; [exact Hq|].
  split; [apply SlruSelectLRUPage_same|]. unfold SubTransSetParent. by rewrite E.
Qed.

Lemma SubTransSetParent_missing xid parent c :
  pages c !! subtrans_page xid = None -> SubTransSetParent xid parent c = Err (IoError (subtrans_page xid)).
Proof.
  intros Hp. unfold SubTransSetParent. rewrite SimpleLruReadPage_spec.
  by rewrite (proj2 (same_contents_missing _ _ _ (SlruSelectLRUPage_same _ c)) Hp).
Qed.

Lemma SubTransSetParent_wf xid parent c c' :
  subtrans_wf c -> is_u32 parent -> SubTransSetParent xid parent c = Ok c' -> subtrans_wf c'.
Proof.
  intros Hwf Hpar. destruct (pages c !! subtrans_page xid) as [p|] eqn:Hp; [|by rewrite SubTransSetParent_missing].
  destruct (SubTransSetParent_found xid parent c p Hp) as (c1 & q & Hq & Hs & ->). rewrite <- Hs in Hwf.
  case_if; intros [= <-]; [|done]. destruct (Hwf _ _ Hq) as [Hlen Hu].
  apply map_Forall_insert_2; [|done]. simpl. rewrite length_write. split; [done|]. by apply Forall_insert.
Qed.

Lemma SubTransSetParent_links xid parent c c' :
  TransactionIdIsNormal xid = true -> subtrans_wf c -> SubTransSetParent xid parent c = Ok c' ->
  SubTransGetParent c' xid = Ok parent /\ forall y, y <> xid -> SubTransGetParent c' y = SubTransGetParent c y.
Proof.
  intros Hn Hwf. destruct (pages c !! subtrans_page xid) as [p|] eqn:Hp; [|by rewrite SubTransSetParent_missing].
  destruct (SubTransSetParent_found xid parent c p Hp) as (c1 & q & Hq & Hs & ->). rewrite <- Hs in Hwf.
  destruct (Z.eqb_spec (read_at (page_buffer q) (TransactionIdToEntry xid)) parent) as [He|He]; simpl; intros [= <-].
  - split; [|intros y _; by rewrite Hs]. unfold SubTransGetParent, SimpleLruReadPage_ReadOnly. rewrite Hn, Hq. simpl. by rewrite He.
  - split; [by rewrite SubTransGetParent_put, decide_True|].
    intros y Hy. rewrite <- Hs. destruct (TransactionIdIsNormal y) eqn:Hny.
    + by rewrite SubTransGetParent_put, decide_False.
    + unfold SubTransGetParent. by rewrite Hny.
Qed.

(** Setting the parent of a subtransaction makes it the parent that is
    read back, and changes no other link. *)
Theorem SubTransSetParent_spec xid parent c :
  subtrans_wf c -> is_u32 parent -> TransactionIdIsNormal xid = true ->
  is_Some (pages c !! subtrans_page xid) ->
  exists c', SubTransSetParent xid parent c = Ok c' /\ subtrans_wf c'
    /\ SubTransGetParent c' xid = Ok parent
    /\ forall y, y <> xid -> SubTransGetParent c' y = SubTransGetParent c y.
Proof.
  intros Hwf Hpar Hn [p Hp].
  assert (Hs : exists c', SubTransSetParent xid parent c = Ok c').
  { destruct (SubTransSetParent_found xid parent c p Hp) as (c1 & q & _ & _ & ->). case_if; by eexists. }
  destruct Hs as [c' Hs]. exists c'. split; [done|]. split; [by eapply SubTransSetParent_wf|].
  by apply SubTransSetParent_links.
Qed.

(** A page store with one zeroed page of each kind of number needed below. *)
Definition one_page : Slru := ZeroSUBTRANSPage 0 (slru_init no_victims).

Lemma zero_page_subtrans_wf pageno c : subtrans_wf c -> subtrans_wf (ZeroSUBTRANSPage pageno c).
Proof.
  intros H. apply map_Forall_insert_2; [|change (subtrans_wf (SlruSelectLRUPage pageno c)); by rewrite SlruSelectLRUPage_same]. split; [done|].
  apply Forall_replicate. cbv; split; congruence.
Qed.

Lemma one_page_wf : subtrans_wf one_page.
Proof. apply zero_page_subtrans_wf, map_Forall_empty. Qed.

Lemma SubTransSetParent_spec_witness :
  exists c', SubTransSetParent 1002 1000 one_page = Ok c'
    /\ SubTransGetParent c' 1002 = Ok 1000.
Proof.
  destruct (SubTransSetParent_spec 1002 1000 one_page) as (c' & Hc & _ & Hg & _).
  - exact one_page_wf.
  - cbv; split; congruence.
  - reflexivity.
  - by eexists.
  - exists c'. split; [exact Hc|exact Hg].
Defined.

(** ** The walk to the top-level transaction *)

Definition parent_link (c : Slru) (x p : TransactionId) : Prop :=
  SubTransGetParent c x = Ok p /\ TransactionIdIsValid p = true.

Lemma read_at_u32 a i : Forall is_u32 a -> is_u32 (read_at a i).
Proof.
  intros Ha. unfold read_at. destruct (a !! Z.to_nat i) eqn:Hi; simpl.
  - by eapply Forall_lookup_1 in Ha.
  - cbv; split; congruence.
Qed.

Lemma SubTransGetParent_u32 c x p : subtrans_wf c -> SubTransGetParent c x = Ok p -> is_u32 p.
Proof.
  intros Hwf. unfold SubTransGetParent. case_if; [intros [= <-]; cbv; split; congruence|].
  unfold SimpleLruReadPage_ReadOnly. destruct (pages c !! subtrans_page x) as [pg|] eqn:Hp; [|done].
  intros [= <-]. apply read_at_u32. exact (proj2 (Hwf _ _ Hp)).
Qed.

(** Walking to a preceding parent that is still not before [TransactionXmin]
    brings the xid strictly closer to it. *)
Lemma parent_age_decreases o x p :
  normal_xid o -> is_u32 x -> is_u32 p -> TransactionIdIsValid p = true ->
  TransactionIdPrecedes x o = false -> TransactionIdPrecedes p o = false ->
  TransactionIdPrecedes p x = true -> xid_age o p < xid_age o x.
Proof.
  intros Ho Hx Hp Hv. xid_unfold. unfold is_u32 in *.
  destruct (Z.leb_spec 3 o); [|lia].
  destruct (Z.leb_spec 3 x), (Z.leb_spec 3 p); simpl; intros; bool_simpl; try lia; cint.
Qed.

Section Topmost.
Context (c : Slru) (TransactionXmin : TransactionId).
Hypothesis (Hwf : subtrans_wf c) (Hxmin : normal_xid TransactionXmin).

Definition walk_measure (x : TransactionId) : nat :=
  if TransactionIdPrecedes x TransactionXmin then 0 else S (Z.to_nat (xid_age TransactionXmin x)).

Definition topmost_outcome (xid : TransactionId) (r : result LookupError TransactionId) : Prop :=
  match r with
  | Ok top => rtc (parent_link c) xid top
      /\ (TransactionIdPrecedes top TransactionXmin = true
          \/ SubTransGetParent c top = Ok InvalidTransactionId)
  | Err (InvalidEntry x p) => rtc (parent_link c) xid x
      /\ SubTransGetParent c x = Ok p /\ TransactionIdPrecedes p x = false
  | Err (IoError pageno) => exists x, rtc (parent_link c) xid x /\ pages c !! pageno = None
      /\ subtrans_page x = pageno
  | Err OutOfFuel => False
  end.

Lemma topmost_outcome_step x p r :
  parent_link c x p -> topmost_outcome p r -> topmost_outcome x r.
Proof.
  intros Hl. destruct r as [top|[pageno|y q|]]; simpl; [| | |done].
  - intros [? ?]. split; [by eapply rtc_l|done].
  - intros (y & ? & ?). exists y. split; [by eapply rtc_l|done].
  - intros [? ?]. split; [by eapply rtc_l|done].
Qed.

Lemma topmost_loop_spec fuel x prev :
  is_u32 x -> TransactionIdIsValid x = true -> (walk_measure x + 2 <= fuel)%nat ->
  topmost_outcome x (SubTransGetTopmostTransaction_loop fuel c TransactionXmin x prev).
Proof.
  revert x prev. induction fuel as [|n IH]; intros x prev Hx Hv Hf; [lia|].
  cbn [SubTransGetTopmostTransaction_loop]. rewrite Hv.
  destruct (TransactionIdPrecedes x TransactionXmin) eqn:Hpre.
  { simpl. split; [done|by left]. }
  destruct (SubTransGetParent c x) as [p|e] eqn:Hp; cbn [mbind result_bind].
  2:{ unfold SubTransGetParent in Hp. destruct (negb _); [done|]. unfold SimpleLruReadPage_ReadOnly in Hp.
      destruct (pages c !! subtrans_page x) eqn:Hpg; [done|]. injection Hp as <-. simpl.
      by exists x. }
  destruct (TransactionIdPrecedes p x) eqn:Hpx; simpl; [|done].
  assert (Hpu := SubTransGetParent_u32 _ _ _ Hwf Hp).
  destruct (TransactionIdIsValid p) eqn:Hpv.
  - apply (topmost_outcome_step x p); [done|]. apply IH; [done|done|].
    unfold walk_measure in *. rewrite Hpre in Hf.
    destruct (TransactionIdPrecedes p TransactionXmin) eqn:Hpp; [lia|].
    assert (xid_age TransactionXmin p < xid_age TransactionXmin x) by (by apply parent_age_decreases).
    assert (0 <= xid_age TransactionXmin p) by (unfold xid_age; cint). lia.
  - destruct n as [|n]; [unfold walk_measure in Hf; rewrite Hpre in Hf; lia|].
    simpl. rewrite Hpv. simpl. split; [done|]. right.
    unfold TransactionIdIsValid in Hpv. apply negb_false_iff, Z.eqb_eq in Hpv. by rewrite Hp, Hpv.
Qed.

End Topmost.

(** C29. Finding the top-level transaction always terminates, whatever pg_subtrans
    contains: at most one step per xid between [TransactionXmin] and the
    starting xid.  A result is an ancestor-or-self of the start that has no
    parent or is older than [TransactionXmin]; an error is a missing page or
    a link that does not lead to an older xid. *)
Theorem SubTransGetTopmostTransaction_total c TransactionXmin xid fuel :
  subtrans_wf c -> normal_xid TransactionXmin -> is_u32 xid -> TransactionIdIsValid xid = true ->
  (Z.to_nat (xid_age TransactionXmin xid) + 3 <= fuel)%nat ->
  topmost_outcome c TransactionXmin xid (SubTransGetTopmostTransaction fuel c TransactionXmin xid).
Proof.
  intros Hwf Hxm Hx Hv Hf. apply topmost_loop_spec; try done. unfold walk_measure. case_if; lia.
Qed.

(** Transaction 1000 with subtransactions 1002, and 1003 under 1002. *)
Definition small_tree : Slru :=
  match (c ← SubTransSetParent 1002 1000 one_page; SubTransSetParent 1003 1002 c) with
  | Ok c => c
  | Err _ => one_page
  end.

Lemma small_tree_wf : subtrans_wf small_tree.
Proof.
  unfold small_tree. destruct (SubTransSetParent 1002 1000 one_page) as [c1|] eqn:H1; [|exact one_page_wf].
  apply SubTransSetParent_wf in H1; [|exact one_page_wf|unfold is_u32; lia].
  simpl. destruct (SubTransSetParent 1003 1002 c1) as [c2|] eqn:H2; [|exact one_page_wf].
  apply SubTransSetParent_wf in H2; [done|done|unfold is_u32; lia].
Qed.

Lemma SubTransGetTopmostTransaction_total_witness :
  topmost_outcome small_tree 990 1003 (SubTransGetTopmostTransaction 16 small_tree 990 1003)
  /\ SubTransGetTopmostTransaction 16 small_tree 990 1003 = Ok 1000.
Proof.
  split; [|vm_compute; reflexivity]. apply SubTransGetTopmostTransaction_total.
  - exact small_tree_wf.
  - unfold normal_xid, FirstNormalTransactionId. lia.
  - unfold is_u32. lia.
  - reflexivity.
  - vm_compute. lia.
Defined.

(** ** Startup and truncation *)

Lemma StartupSUBTRANS_loop_spec fuel startPage endPage c :
  0 <= startPage < SUBTRANS_PAGES -> 0 <= endPage < SUBTRANS_PAGES ->
  Z.of_nat fuel = (endPage - startPage) mod SUBTRANS_PAGES ->
  exists c', StartupSUBTRANS_loop fuel startPage endPage c = Some c'
    /\ forall q, 0 <= q < SUBTRANS_PAGES ->
         contents <$> pages c' !! q
         = if (q - startPage) mod SUBTRANS_PAGES <=? Z.of_nat fuel
           then Some (contents (zero_page SubTransCtl)) else contents <$> pages c !! q.
Proof.
  change SUBTRANS_PAGES with 2097152. change (subtrans_page MaxTransactionId) with 2097151.
  revert startPage c. induction fuel as [|n IH]; intros s c Hs He Hf; simpl.
  - destruct (Z.eqb_spec s endPage) as [->|Hne]; [|Z.to_euclidean_division_equations; lia].
    eexists. split; [reflexivity|]. intros q Hq. unfold ZeroSUBTRANSPage. rewrite pages_zero_page.
    case_decide as Hqe.
    + subst. by rewrite Z.sub_diag.
    + replace (_ <=? 0) with false; [done|]. symmetry. apply Z.leb_gt.
      Z.to_euclidean_division_equations; lia.
  - destruct (Z.eqb_spec s endPage) as [->|Hne].
    { rewrite Z.sub_diag, Z.mod_0_l in Hf by done. lia. }
    simpl. set (s' := if _ <? _ then _ else _).
    assert (Hs' : s' = (s + 1) mod 2097152).
    { subst s'. change (subtrans_page MaxTransactionId) with 2097151.
      case_if; bool_simpl; Z.to_euclidean_division_equations; lia. }
    destruct (IH s' (ZeroSUBTRANSPage s c)) as (c' & Hc & Hpages).
    + rewrite Hs'. by apply Z.mod_pos_bound.
    + done.
    + rewrite Hs'. clear -Hs He Hf Hne. Z.to_euclidean_division_equations; lia.
    + exists c'. split; [done|]. intros q Hq. rewrite Hpages by done. rewrite Hs'. unfold ZeroSUBTRANSPage. rewrite pages_zero_page.
      case_decide as Hqs.
      * subst q. rewrite Z.sub_diag. by case_if.
      * replace ((q - (s + 1) mod 2097152) mod 2097152) with ((q - s) mod 2097152 - 1)
          by (clear -Hq Hs Hqs; Z.to_euclidean_division_equations; lia).
        case_if; case_if; bool_simpl; (done || lia).
Qed.

(** Startup initialises exactly the links of the transactions that can be
    active: from the page of the oldest active xid to the page of the next
    xid, across wraparound, no transaction has a parent. *)
Theorem StartupSUBTRANS_spec oldestActiveXID nextXid c :
  is_u32 oldestActiveXID -> xid_age oldestActiveXID (XidFromFullTransactionId nextXid) < 2 ^ 31 ->
  exists c', StartupSUBTRANS oldestActiveXID nextXid c = Some c'
    /\ forall x, is_u32 x ->
         xid_age oldestActiveXID x <= xid_age oldestActiveXID (XidFromFullTransactionId nextXid) ->
         SubTransGetParent c' x = Ok InvalidTransactionId.
Proof.
  intros Ho Hwin. unfold StartupSUBTRANS. set (nx := XidFromFullTransactionId nextXid) in *.
  assert (Hn : is_u32 nx) by apply u32_range.
  assert (Hb : forall x, is_u32 x -> 0 <= subtrans_page x < SUBTRANS_PAGES).
  { intros x Hx. change SUBTRANS_PAGES with 2097152. unfold subtrans_page. change SUBTRANS_XACTS_PER_PAGE with 2048. cint. }
  assert (Hm : 0 <= (subtrans_page nx - subtrans_page oldestActiveXID) mod SUBTRANS_PAGES)
    by (by apply Z.mod_pos_bound).
  edestruct (StartupSUBTRANS_loop_spec
      (Z.to_nat ((subtrans_page nx - subtrans_page oldestActiveXID) mod SUBTRANS_PAGES))
      (subtrans_page oldestActiveXID) (subtrans_page nx) c)
    as (c' & Hc & Hpages); [by apply Hb|by apply Hb|lia|].
  exists c'. split; [done|]. intros x Hx Hage. rewrite SubTransGetParent_contents.
  case_if; [done|]. rewrite Hpages by (by apply Hb).
  rewrite Z2Nat.id by done.
  replace (_ <=? _) with true; cbn [or_err fmap option_fmap option_map].
  - unfold contents. cbn [fst]. by rewrite read_zero_page.
  - symmetry. apply Z.leb_le. revert Hage Hwin. unfold xid_age, subtrans_page.
    change SUBTRANS_PAGES with 2097152. change SUBTRANS_XACTS_PER_PAGE with 2048.
    clear -Hx Ho Hn. cint.
Qed.

Lemma StartupSUBTRANS_spec_witness :
  exists c', StartupSUBTRANS 4294967000 4294967400 (slru_init no_victims) = Some c'
    /\ SubTransGetParent c' 50 = Ok InvalidTransactionId.
Proof.
  destruct (StartupSUBTRANS_spec 4294967000 4294967400 (slru_init no_victims)) as (c' & Hc & Hx).
  - unfold is_u32. lia.
  - vm_compute. reflexivity.
  - exists c'. split; [exact Hc|]. apply Hx; [unfold is_u32; lia|vm_compute; congruence].
Defined.

(** Truncation at [oldestXact] keeps the parent link of every transaction
    that is not in the past of [oldestXact], up to the last four xids before
    the half-way point (xids are never assigned that far ahead: see Varsup). *)
Theorem TruncateSUBTRANS_safe oldestXact c x :
  normal_xid oldestXact -> normal_xid x -> xid_age oldestXact x <= 2 ^ 31 - 4 ->
  SubTransGetParent (TruncateSUBTRANS oldestXact c) x = SubTransGetParent c x.
Proof.
  intros Ho Hx Hage. unfold TruncateSUBTRANS.
  assert (Hr : is_u32 (TransactionIdRetreat oldestXact) /\ xid_age (TransactionIdRetreat oldestXact) x <= 2 ^ 31).
  { rewrite TransactionIdRetreat_normal by done. revert Ho Hx Hage. unfold MaxTransactionId.
    case_if; bool_simpl; xid_unfold; unfold is_u32; intros; cint. }
  destruct Hr as [Hru Hra]. set (q := subtrans_page (TransactionIdRetreat oldestXact)).
  assert (Hkeep : SlruMayDeleteSegment SubTransCtl (segpage_of (subtrans_page x)) q = false).
  { destruct (SlruMayDeleteSegment _ _ _) eqn:Hd; [|done].
    apply (SlruMayDeleteSegment_age _ 2048 2097152) in Hd;
      [lia|done|by left| |done]. unfold normal_xid, FirstNormalTransactionId in Hx. unfold is_u32. lia. }
  rewrite !SubTransGetParent_contents. by rewrite SimpleLruTruncate_keeps.
Qed.

Lemma TruncateSUBTRANS_safe_witness :
  SubTransGetParent (TruncateSUBTRANS 1001 small_tree) 1003 = Ok 1002.
Proof.
  rewrite TruncateSUBTRANS_safe.
  - vm_compute. reflexivity.
  - unfold normal_xid, FirstNormalTransactionId. lia.
  - unfold normal_xid, FirstNormalTransactionId. lia.
  - vm_compute. congruence.
Defined.
