(* ===== verification/Transam.v ===== *)
(** * Transam: transaction outcome lookup

    Models the interface functions of src/backend/access/transam/transam.c:
    the lookup of a transaction's fate through the commit log and the
    subtransaction links, with the backend's one-entry cache, and the
    functions that record an outcome. *)

From S2P Require Import Prelude Steps TransactionId Slru Clog Subtrans.

(** The static variables of transam.c. *)
Record FetchCache := mkFetchCache {
  cachedFetchXid : TransactionId;
  cachedFetchXidStatus : XidStatus;
  cachedCommitLSN : XLogRecPtr;
}.

Definition initial_cache : FetchCache := mkFetchCache InvalidTransactionId 0 0.

(** What a lookup reads: the commit log, pg_subtrans and [TransactionXmin]. *)
Record LookupEnv := mkLookupEnv {
  env_clog : Slru;
  env_subtrans : Slru;
  TransactionXmin : TransactionId;
}.

Definition TransactionLogFetch (e : LookupEnv) (transactionId : TransactionId) (cache : FetchCache)
    : result LookupError (XidStatus * FetchCache) :=
  if TransactionIdEquals transactionId (cachedFetchXid cache)
  then Ok (cachedFetchXidStatus cache, cache)
  else if negb (TransactionIdIsNormal transactionId) then
    if TransactionIdEquals transactionId BootstrapTransactionId
    then Ok (TRANSACTION_STATUS_COMMITTED, cache)
    else if TransactionIdEquals transactionId FrozenTransactionId
    then Ok (TRANSACTION_STATUS_COMMITTED, cache)
    else Ok (TRANSACTION_STATUS_ABORTED, cache)
  else
    '(xidstatus, xidlsn) ← or_err (IoError (TransactionIdToPage transactionId))
                              (TransactionIdGetStatus (env_clog e) transactionId);
    if (xidstatus != TRANSACTION_STATUS_IN_PROGRESS)
       && (xidstatus != TRANSACTION_STATUS_SUB_COMMITTED)
    then Ok (xidstatus, mkFetchCache transactionId xidstatus xidlsn)
    else Ok (xidstatus, cache).

(** [TransactionIdDidCommit]; the fuel bounds the recursion through parents. *)
Fixpoint TransactionIdDidCommit (fuel : nat) (e : LookupEnv) (transactionId : TransactionId)
    (cache : FetchCache) : result LookupError (bool * FetchCache) :=
  match fuel with
  | O => Err OutOfFuel
  | S n =>
      '(xidstatus, cache) ← TransactionLogFetch e transactionId cache;
      if xidstatus =? TRANSACTION_STATUS_COMMITTED then Ok (true, cache)
      else if xidstatus =? TRANSACTION_STATUS_SUB_COMMITTED then
        if TransactionIdPrecedes transactionId (TransactionXmin e) then Ok (false, cache)
        else
          parentXid ← SubTransGetParent (env_subtrans e) transactionId;
          if negb (TransactionIdIsValid parentXid) then Ok (false, cache)
          else TransactionIdDidCommit n e parentXid cache
      else Ok (false, cache)
  end.

Fixpoint TransactionIdDidAbort (fuel : nat) (e : LookupEnv) (transactionId : TransactionId)
    (cache : FetchCache) : result LookupError (bool * FetchCache) :=
  match fuel with
  | O => Err OutOfFuel
  | S n =>
      '(xidstatus, cache) ← TransactionLogFetch e transactionId cache;
      if xidstatus =? TRANSACTION_STATUS_ABORTED then Ok (true, cache)
      else if xidstatus =? TRANSACTION_STATUS_SUB_COMMITTED then
        if TransactionIdPrecedes transactionId (TransactionXmin e) then Ok (true, cache)
        else
          parentXid ← SubTransGetParent (env_subtrans e) transactionId;
          if negb (TransactionIdIsValid parentXid) then Ok (true, cache)
          else TransactionIdDidAbort n e parentXid cache
      else Ok (false, cache)
  end.

Definition TransactionIdGetCommitLSN (e : LookupEnv) (xid : TransactionId) (cache : FetchCache)
    : result LookupError XLogRecPtr :=
  if TransactionIdEquals xid (cachedFetchXid cache) then Ok (cachedCommitLSN cache)
  else if negb (TransactionIdIsNormal xid) then Ok InvalidXLogRecPtr
  else
    '(_, res) ← or_err (IoError (TransactionIdToPage xid)) (TransactionIdGetStatus (env_clog e) xid);
    Ok res.

Definition TransactionIdCommitTree (ir : bool) (MyProc : MyProcXids) (ct : ClogContention)
    (xid : TransactionId) (xids : list TransactionId) : Steps Slru :=
  TransactionIdSetTreeStatus ir MyProc ct xid xids TRANSACTION_STATUS_COMMITTED InvalidXLogRecPtr.

Definition TransactionIdAsyncCommitTree (ir : bool) (MyProc : MyProcXids) (ct : ClogContention)
    (xid : TransactionId) (xids : list TransactionId) (lsn : XLogRecPtr) : Steps Slru :=
  TransactionIdSetTreeStatus ir MyProc ct xid xids TRANSACTION_STATUS_COMMITTED lsn.

Definition TransactionIdAbortTree (ir : bool) (MyProc : MyProcXids) (ct : ClogContention)
    (xid : TransactionId) (xids : list TransactionId) : Steps Slru :=
  TransactionIdSetTreeStatus ir MyProc ct xid xids TRANSACTION_STATUS_ABORTED InvalidXLogRecPtr.

(** ** The cache is transparent *)

Definition final_status (st : XidStatus) : Prop :=
  st = TRANSACTION_STATUS_COMMITTED \/ st = TRANSACTION_STATUS_ABORTED.

(** A cached entry is a final status of the log. *)
Definition cache_coherent (c : Slru) (cache : FetchCache) : Prop :=
  (cachedFetchXid cache = InvalidTransactionId)
  \/ (TransactionIdIsNormal (cachedFetchXid cache) = true
      /\ final_status (cachedFetchXidStatus cache)
      /\ clog_status c (cachedFetchXid cache) = Some (cachedFetchXidStatus cache)).

(** The status of a transaction without the cache. *)
Definition fetch_status (c : Slru) (x : TransactionId) : result LookupError XidStatus :=
  if negb (TransactionIdIsNormal x) then
    if TransactionIdEquals x BootstrapTransactionId || TransactionIdEquals x FrozenTransactionId
    then Ok TRANSACTION_STATUS_COMMITTED else Ok TRANSACTION_STATUS_ABORTED
  else or_err (IoError (TransactionIdToPage x)) (clog_status c x).

(** A status that is neither in progress nor sub-committed is final. *)
Lemma read_final c x st l :
  TransactionIdGetStatus c x = Some (st, l) -> st <> TRANSACTION_STATUS_IN_PROGRESS ->
  st <> TRANSACTION_STATUS_SUB_COMMITTED -> final_status st.
Proof.
  unfold TransactionIdGetStatus. destruct (SimpleLruReadPage_ReadOnly _ _) as [p|]; [|done].
  intros [= <- _]. pose proof (page_status_valid p x).
  unfold valid_status, final_status, TRANSACTION_STATUS_COMMITTED, TRANSACTION_STATUS_ABORTED,
    TRANSACTION_STATUS_IN_PROGRESS, TRANSACTION_STATUS_SUB_COMMITTED in *. lia.
Qed.

Lemma TransactionLogFetch_coherent e x cache :
  cache_coherent (env_clog e) cache -> TransactionIdIsValid x = true ->
  match TransactionLogFetch e x cache with
  | Ok (st, cache') => fetch_status (env_clog e) x = Ok st /\ cache_coherent (env_clog e) cache'
  | Err er => fetch_status (env_clog e) x = Err er
  end.
Proof.
  intros Hc Hv. unfold TransactionLogFetch, fetch_status.
  unfold TransactionIdEquals at 1. destruct (Z.eqb_spec x (cachedFetchXid cache)) as [->|Hne].
  - destruct Hc as [H0|(Hn & Hf & Hs)].
    + rewrite H0 in Hv. done.
    + rewrite Hn. simpl. rewrite Hs. split; [done|]. right. done.
  - destruct (TransactionIdIsNormal x) eqn:Hn; cbn [negb].
    + unfold clog_status. destruct (TransactionIdGetStatus (env_clog e) x) as [[st l]|] eqn:Hg; simpl; [|done].
      destruct (Z.eqb_spec st TRANSACTION_STATUS_IN_PROGRESS) as [|H0]; simpl; [done|].
      destruct (Z.eqb_spec st TRANSACTION_STATUS_SUB_COMMITTED) as [|H3]; simpl; [done|].
      split; [done|]. right. simpl. unfold clog_status. rewrite Hg. split_and!; [done| |done].
      by eapply read_final.
    + destruct (TransactionIdEquals x BootstrapTransactionId); simpl; [done|].
      by destruct (TransactionIdEquals x FrozenTransactionId).
Qed.

(** The fate of a transaction, defined on the log and the links alone. *)
Fixpoint did_commit (fuel : nat) (e : LookupEnv) (x : TransactionId) : result LookupError bool :=
  match fuel with
  | O => Err OutOfFuel
  | S n =>
      st ← fetch_status (env_clog e) x;
      if st =? TRANSACTION_STATUS_COMMITTED then Ok true
      else if st =? TRANSACTION_STATUS_SUB_COMMITTED then
        if TransactionIdPrecedes x (TransactionXmin e) then Ok false
        else
          p ← SubTransGetParent (env_subtrans e) x;
          if negb (TransactionIdIsValid p) then Ok false else did_commit n e p
      else Ok false
  end.

Lemma DidCommit_coherent fuel e x cache :
  cache_coherent (env_clog e) cache -> TransactionIdIsValid x = true ->
  match TransactionIdDidCommit fuel e x cache with
  | Ok (b, cache') => did_commit fuel e x = Ok b /\ cache_coherent (env_clog e) cache'
  | Err er => did_commit fuel e x = Err er
  end.
Proof.
  revert x cache. induction fuel as [|n IH]; intros x cache Hc Hv; simpl; [done|].
  pose proof (TransactionLogFetch_coherent e x cache Hc Hv) as Hf.
  destruct (TransactionLogFetch e x cache) as [[st cache']|er]; [|by rewrite Hf].
  destruct Hf as [Hf Hc']. rewrite Hf. simpl.
  destruct (st =? TRANSACTION_STATUS_COMMITTED); [done|].
  destruct (st =? TRANSACTION_STATUS_SUB_COMMITTED); [|done].
  destruct (TransactionIdPrecedes x (TransactionXmin e)); [done|].
  destruct (SubTransGetParent (env_subtrans e) x) as [p|]; simpl; [|done].
  destruct (TransactionIdIsValid p) eqn:Hp; simpl; [|done]. by apply IH.
Qed.

(** The one-entry cache of transam.c is invisible: with a coherent cache,
    [TransactionIdDidCommit] answers what the log and the parent links say,
    including its errors, and leaves a coherent cache.  The cache stays
    coherent when any unfinished transaction tree is recorded as finished. *)
Theorem TransactionIdDidCommit_cache fuel e x cache :
  cache_coherent (env_clog e) cache -> TransactionIdIsValid x = true ->
  match TransactionIdDidCommit fuel e x cache with
  | Ok (b, cache') => did_commit fuel e x = Ok b /\ cache_coherent (env_clog e) cache'
  | Err er => did_commit fuel e x = Err er
  end
  /\ (forall ir es, clog_wf (env_clog e) -> valid_writes (writes es) ->
        Forall (fun w => clog_status (env_clog e) (w_xid w) <> Some TRANSACTION_STATUS_COMMITTED
                         /\ clog_status (env_clog e) (w_xid w) <> Some TRANSACTION_STATUS_ABORTED) (writes es) ->
        cache_coherent (foldl (clog_event ir) (env_clog e) es) cache).
Proof.
  intros Hc Hv. split; [by apply DidCommit_coherent|]. intros ir es Hwf Hws Hun.
  destruct Hc as [H0|(Hn & Hf & Hs)]; [by left|right]. split_and!; [done|done|].
  rewrite clog_events_status, Hs by done. simpl. f_equal. apply status_of_writes_other.
  intros (w & Hw & Hin)%list_elem_of_fmap. rewrite Forall_forall in Hun.
  apply Hun in Hin as [H1 H2]. rewrite <- Hw, Hs in H1, H2. destruct Hf as [Hf|Hf]; congruence.
Qed.

Lemma TransactionIdDidCommit_cache_witness :
  exists b cache', TransactionIdDidCommit 2 (mkLookupEnv two_pages small_tree 990) 1003 initial_cache = Ok (b, cache')
    /\ did_commit 2 (mkLookupEnv two_pages small_tree 990) 1003 = Ok b.
Proof.
  destruct (TransactionIdDidCommit_cache 2 (mkLookupEnv two_pages small_tree 990) 1003 initial_cache)
    as [H _]; [by left|reflexivity|].
  revert H. destruct (TransactionIdDidCommit 2 (mkLookupEnv two_pages small_tree 990) 1003 initial_cache)
    as [[b cache']|er] eqn:Hd; intros H.
  - exists b, cache'. split; [reflexivity|exact (proj1 H)].
  - exfalso. vm_compute in Hd. discriminate Hd.
Defined.

(** ** Commit of a tree is atomic at every single write *)

Lemma status_of_subcommit_writes ir l lsn x v :
  v <> TRANSACTION_STATUS_COMMITTED ->
  status_of_writes ir (writes_of l TRANSACTION_STATUS_SUB_COMMITTED lsn) x v
  = if decide (x ∈ l) then TRANSACTION_STATUS_SUB_COMMITTED else v.
Proof.
  assert (Ha : forall v, v <> TRANSACTION_STATUS_COMMITTED ->
             status_after ir v TRANSACTION_STATUS_SUB_COMMITTED = TRANSACTION_STATUS_SUB_COMMITTED).
  { intros w Hw. unfold status_after. apply Z.eqb_neq in Hw. by rewrite Hw, andb_false_r. }
  revert v. induction l as [|y l IH]; intros v Hv; simpl; [done|].
  rewrite IH.
  2:{ destruct (decide (x = y)); [by rewrite Ha|done]. }
  destruct (decide (x = y)); rewrite ?Ha by done; repeat case_decide; set_solver.
Qed.

Lemma take_writes_of j l st lsn : take j (writes_of l st lsn) = writes_of (take j l) st lsn.
Proof. unfold writes_of. apply firstn_map. Qed.

Section Tree.
Context (subtrans : Slru) (o : TransactionId) (xid : TransactionId) (subxids : list TransactionId).

(** The links of the tree: every subtransaction has an older parent in it. *)
Definition tree_linked : Prop :=
  in_window o xid /\ Forall (in_window o) subxids /\
  Forall (fun s => exists p, SubTransGetParent subtrans s = Ok p /\ p ∈ xid :: subxids
                             /\ TransactionIdPrecedes p s = true) subxids.

(** Not yet committed: the main transaction is running. *)
Definition tree_running (c : Slru) : Prop :=
  clog_status c xid = Some TRANSACTION_STATUS_IN_PROGRESS /\
  Forall (fun s => clog_status c s = Some TRANSACTION_STATUS_IN_PROGRESS
                   \/ clog_status c s = Some TRANSACTION_STATUS_SUB_COMMITTED) subxids.

(** Committed, with some subtransactions still resolved through their parent. *)
Definition tree_committed (c : Slru) : Prop :=
  clog_status c xid = Some TRANSACTION_STATUS_COMMITTED /\
  Forall (fun s => clog_status c s = Some TRANSACTION_STATUS_COMMITTED
                   \/ clog_status c s = Some TRANSACTION_STATUS_SUB_COMMITTED) subxids.

Lemma fetch_status_normal c x : normal_xid x ->
  fetch_status c x = or_err (IoError (TransactionIdToPage x)) (clog_status c x).
Proof. intros Hx. unfold fetch_status. by rewrite normal_TransactionIdIsNormal. Qed.

(** In either state the answer is the same for every member of the tree. *)
Lemma tree_did_commit c (b : bool) fuel x :
  tree_linked -> (if b then tree_committed c else tree_running c) -> x ∈ xid :: subxids ->
  (Z.to_nat (xid_age o x) < fuel)%nat ->
  did_commit fuel (mkLookupEnv c subtrans o) x = Ok b.
Proof.
  intros (Hwx & Hws & Hlink) Hst. revert x. induction fuel as [|n IH]; intros x Hx Hf; [lia|].
  assert (Hwin : in_window o x).
  { apply elem_of_cons in Hx as [->|Hx]; [done|]. rewrite Forall_forall in Hws. by apply Hws. }
  simpl. rewrite fetch_status_normal by (by eapply in_window_normal).
  apply elem_of_cons in Hx as [->|Hx].
  { destruct b; destruct Hst as [-> _]; done. }
  assert (Hs : clog_status c x = Some (if b then TRANSACTION_STATUS_COMMITTED else TRANSACTION_STATUS_IN_PROGRESS)
               \/ clog_status c x = Some TRANSACTION_STATUS_SUB_COMMITTED).
  { destruct b; destruct Hst as [_ Hst]; rewrite Forall_forall in Hst; by apply Hst. }
  destruct Hs as [->| ->]; simpl; [by destruct b|].
  replace (TransactionIdPrecedes x o) with false.
  2:{ symmetry. destruct Hwin as [Hn Ha]. revert Hn Ha. clear -Hwx. xid_unfold.
      destruct (Z.leb_spec 3 x), (Z.leb_spec 3 o); simpl; intros; apply Z.ltb_ge; cint. }
  rewrite Forall_forall in Hlink. destruct (Hlink x Hx) as (p & -> & Hp & Hpre). simpl.
  assert (Hpw : in_window o p).
  { apply elem_of_cons in Hp as [->|Hp]; [done|]. rewrite Forall_forall in Hws. by apply Hws. }
  rewrite (normal_TransactionIdIsValid p) by (by eapply in_window_normal). simpl.
  apply IH; [done|]. rewrite (precedes_window o) in Hpre by done. apply Z.ltb_lt in Hpre.
  assert (0 <= xid_age o p) by (unfold xid_age; cint). lia.
Qed.

End Tree.

(** A running tree, and after [k] of the writes of its commit. *)
Lemma clog_status_has_page c x st : clog_status c x = Some st -> has_page c x.
Proof. rewrite clog_status_page. unfold has_page. destruct (pages c !! _); [by eexists|done]. Qed.

Lemma tree_running_pages xid subxids c : tree_running xid subxids c -> Forall (has_page c) (xid :: subxids).
Proof.
  intros [Hx Hs]. constructor; [by eapply clog_status_has_page|].
  eapply Forall_impl; [exact Hs|]. intros s [H|H]; by eapply clog_status_has_page.
Qed.

Definition subcommit_writes (xid : TransactionId) (subxids : list TransactionId) (lsn : XLogRecPtr) : list ClogWrite :=
  let '(first_page, others) := run_on_page (TransactionIdToPage xid) subxids in
  writes_of (others ++ first_page) TRANSACTION_STATUS_SUB_COMMITTED lsn.

Section Prefix.
Context (ir : bool) (xid : TransactionId) (subxids : list TransactionId) (lsn : XLogRecPtr)
  (c : Slru) (G : list ClogWrite).
Hypothesis (Hrun : tree_running xid subxids c) (Hxs : xid ∉ subxids) (HGx : forall x, x ∈ map w_xid G -> x ∉ xid :: subxids).

Let P := subcommit_writes xid subxids lsn.
Let F := writes_of (xid :: subxids) TRANSACTION_STATUS_COMMITTED lsn.

Lemma subcommit_writes_eq : exists l,
  P = writes_of l TRANSACTION_STATUS_SUB_COMMITTED lsn /\ forall x, x ∈ l <-> x ∈ subxids.
Proof.
  unfold P, subcommit_writes.
  destruct (run_on_page (TransactionIdToPage xid) subxids) as [on off] eqn:Hr.
  apply run_on_page_spec in Hr as (-> & _ & _). exists (off ++ on). split; [done|]. set_solver.
Qed.

Lemma group_prefix_status j x v : x ∈ xid :: subxids -> status_of_writes ir (take j G) x v = v.
Proof.
  intros Hx. apply status_of_writes_other. intros Hin. apply (HGx x); [|done].
  apply list_elem_of_fmap in Hin as (w & -> & Hw). apply list_elem_of_fmap. exists w. split; [done|].
  by eapply elem_of_take in Hw as (i & Hw & _); eapply list_elem_of_lookup_2.
Qed.

(** The statuses of [ck] are those the writes [ws] make of the ones of [c]. *)
Definition after_writes (ws : list ClogWrite) (ck : Slru) : Prop :=
  forall x, clog_status ck x = status_of_writes ir ws x <$> clog_status c x.

Lemma prefix_running i j ck : after_writes (take i G ++ take j P) ck -> tree_running xid subxids ck.
Proof.
  unfold after_writes. intros Hck.
  destruct subcommit_writes_eq as (l & HP & Hl). rewrite HP in *. rewrite take_writes_of in *.
  assert (Hsub : forall x, x ∈ take j l -> x ∈ subxids).
  { intros x Hx. apply Hl. apply elem_of_take in Hx as (i' & Hx & _). by eapply list_elem_of_lookup_2. }
  destruct Hrun as [Hx Hs]. split.
  - rewrite Hck, Hx. simpl. f_equal.
    rewrite status_of_writes_app, group_prefix_status by set_solver.
    rewrite status_of_subcommit_writes by done. rewrite decide_False; [done|]. auto.
  - rewrite Forall_forall in *. intros s Hin. rewrite Hck.
    destruct (Hs s Hin) as [-> | ->]; simpl;
      rewrite status_of_writes_app, group_prefix_status by set_solver;
      rewrite status_of_subcommit_writes by done; case_decide; auto.
Qed.

Lemma prefix_committed j ck : after_writes (G ++ P ++ take (S j) F) ck -> tree_committed xid subxids ck.
Proof.
  unfold after_writes. intros Hck.
  destruct subcommit_writes_eq as (l & HP & Hl). rewrite HP in *. unfold F in *. rewrite take_writes_of in *.
  assert (HGall : forall x v, x ∈ xid :: subxids -> status_of_writes ir G x v = v).
  { intros x v Hx. rewrite <- (group_prefix_status (length G) x v Hx) at 2. by rewrite firstn_all. }
  destruct Hrun as [Hx Hs]. split.
  - rewrite Hck, Hx. cbn [fmap option_fmap option_map]. f_equal.
    rewrite !status_of_writes_app, HGall by set_solver.
    rewrite (status_of_writes_of ir (take (S j) (xid :: subxids))) by done.
    rewrite decide_True; [done|]. simpl. set_solver.
  - rewrite Forall_forall in *. intros s Hin. rewrite Hck.
    assert (Hsl : s ∈ l) by (by apply Hl).
    destruct (Hs s Hin) as [-> | ->]; cbn [fmap option_fmap option_map];
      rewrite !status_of_writes_app, HGall by set_solver;
      rewrite status_of_subcommit_writes, decide_True by done;
      rewrite status_of_writes_of by done; case_decide; auto.
Qed.

(** Every prefix of the writes is in one of the two states. *)
Lemma prefix_state k ck : after_writes (take k (G ++ P ++ F)) ck ->
  if (length G + length P <? k)%nat then tree_committed xid subxids ck else tree_running xid subxids ck.
Proof.
  rewrite !take_app. destruct (Nat.ltb_spec (length G + length P) k) as [Hk|Hk].
  - rewrite !(take_ge _ k), (take_ge _ (k - length G)) by lia.
    destruct (k - length G - length P)%nat as [|j] eqn:Hj; [lia|]. by apply prefix_committed.
  - replace (k - length G - length P)%nat with 0%nat by lia. rewrite take_0, app_nil_r.
    by apply prefix_running.
Qed.

End Prefix.

(** The events of a commit: which of them is the commit point. *)
Lemma commit_events es (G P F : list ClogWrite) w :
  writes es = G ++ P ++ w :: F ->
  exists commit_point, (commit_point < length es)%nat /\
    forall k, exists j, writes (take k es) = take j (G ++ P ++ w :: F)
      /\ (length G + length P <? j)%nat = (commit_point <? k)%nat.
Proof.
  rewrite !(app_assoc G P). intros E. destruct (omap_split _ _ _ _ _ E) as (E1 & e & E2 & -> & H1 & He & H2).
  exists (length E1). split; [rewrite length_app; cbn; lia|]. intros k. rewrite <- length_app, <- H1, take_app, omap_app.
  destruct (Nat.ltb_spec (length E1) k) as [Hk|Hk].
  - rewrite take_ge by lia. destruct (k - length E1)%nat as [|k'] eqn:Hk'; [lia|]. cbn [take omap list_omap].
    rewrite He. destruct (omap_take event_write E2 k') as [j Hj]. exists (length (writes E1) + S j)%nat.
    rewrite take_app_add, <- H2, firstn_cons. split; [by rewrite Hj|]. apply Nat.ltb_lt. lia.
  - replace (k - length E1)%nat with 0%nat by lia. cbn [take omap list_omap]. rewrite app_nil_r.
    destruct (omap_take event_write E1 k) as [j Hj]. exists (j `min` length (writes E1))%nat.
    rewrite take_app_le by lia. rewrite <- take_take, firstn_all. split; [done|]. apply Nat.ltb_ge. lia.
Qed.

(** C7. Commit of a transaction tree is atomic.  [TransactionIdCommitTree]
    stores into the shared buffers many times, possibly on several pages, and
    one of the stores is the commit point: a backend that looks at the log as
    it is after any number of the stores finds every transaction of the tree
    committed if the commit point is past, and every one of them not committed
    before. *)
Theorem TransactionIdCommitTree_atomic subtrans o ir MyProc ct xid subxids c :
  clog_wf c -> tree_linked subtrans o xid subxids -> tree_running xid subxids c -> xid ∉ subxids ->
  Forall (member_ok c) (clogGroupJoined ct) -> Forall member_status_ok (clogGroupJoined ct) ->
  (forall x, x ∈ group_xids ct -> x ∉ xid :: subxids) ->
  exists states (commit_point : nat),
    TransactionIdCommitTree ir MyProc ct xid subxids c = Some states /\ (commit_point < length states)%nat
    /\ forall k ck x fuel cache, (c :: states) !! k = Some ck ->
         x ∈ xid :: subxids -> (Z.to_nat (xid_age o x) < fuel)%nat -> cache_coherent ck cache ->
         exists cache', TransactionIdDidCommit fuel (mkLookupEnv ck subtrans o) x cache
                        = Ok ((commit_point <? k)%nat, cache').
Proof.
  intros Hwf Hlink Hrun Hxs Hms Hmst Hdis.
  assert (Hval : forall x, x ∈ xid :: subxids -> TransactionIdIsValid x = true).
  { intros x Hx. destruct Hlink as (H1 & H2 & _). rewrite Forall_forall in H2.
    apply elem_of_cons in Hx as [->|Hx]; eauto with pg. }
  destruct (tree_group_writes_ok MyProc ct xid subxids Hmst) as [_ HGx].
  destruct (SetTreeStatus_inside ir MyProc ct xid subxids TRANSACTION_STATUS_COMMITTED InvalidXLogRecPtr c)
    as (es & He & Hw & Hv & _ & _); [done|apply Hval; set_solver|by left|by apply tree_running_pages|done|done|].
  rewrite tree_writes_phases in Hw by (apply Hval; set_solver). cbn [Z.eqb] in Hw.
  destruct (commit_events es _ _ _ _ Hw) as (commit_point & Hlen & Hpoint).
  exists (trace (clog_event ir) c es), commit_point. split; [exact He|]. split; [by rewrite length_trace|].
  intros k ck x fuel cache ->%trace_lookup Hx Hf Hc. destruct (Hpoint k) as (j & Hj & <-).
  pose proof (DidCommit_coherent fuel (mkLookupEnv _ subtrans o) x cache Hc (Hval x Hx)) as Hd.
  erewrite (tree_did_commit subtrans o xid subxids) in Hd; [|done| |done|done].
  - destruct (TransactionIdDidCommit _ _ _ _) as [[b cache']|er]; [|done]. destruct Hd as [[= <-] _]. by exists cache'.
  - eapply (prefix_state ir xid subxids InvalidXLogRecPtr c); [done|done|by auto|]. intros y.
    rewrite clog_events_status; [by rewrite Hj|done|].
    destruct (omap_take event_write es k) as [i ->]. by apply Forall_take.
Qed.

Lemma small_tree_linked : tree_linked small_tree 990 1000 [1002; 1003].
Proof.
  assert (Hw : forall x, 990 <= x <= 1003 -> in_window 990 x).
  { intros x Hx. xid_unfold. cint. }
  split; [apply Hw; lia|]. split; [repeat constructor; apply Hw; lia|].
  constructor; [|constructor; [|constructor]].
  - exists 1000. split; [vm_compute; reflexivity|]. split; [set_solver|reflexivity].
  - exists 1002. split; [vm_compute; reflexivity|]. split; [set_solver|reflexivity].
Qed.

Lemma TransactionIdCommitTree_atomic_witness :
  exists states (commit_point : nat),
    TransactionIdCommitTree false (mkMyProcXids 0 []) no_contention 1000 [1002; 1003] two_pages = Some states
    /\ exists ck cache', (two_pages :: states) !! S commit_point = Some ck
       /\ TransactionIdDidCommit 20 (mkLookupEnv ck small_tree 990) 1003 initial_cache = Ok (true, cache').
Proof.
  destruct (TransactionIdCommitTree_atomic small_tree 990 false (mkMyProcXids 0 []) no_contention
              1000 [1002; 1003] two_pages) as (states & n & Hc & Hn & Hk).
  - exact two_pages_wf.
  - exact small_tree_linked.
  - split; [vm_compute; reflexivity|]. constructor; [|constructor; [|constructor]]; left; vm_compute; reflexivity.
  - set_solver.
  - constructor.
  - constructor.
  - simpl. set_solver.
  - exists states, n. split; [exact Hc|]. destruct (lookup_lt_is_Some_2 states n Hn) as [ck Hck].
    destruct (Hk (S n) ck 1003 20%nat initial_cache) as [cache' Hd].
    + exact Hck.
    + set_solver.
    + vm_compute. lia.
    + by left.
    + exists ck, cache'. split; [exact Hck|]. rewrite Hd. by rewrite (proj2 (Nat.ltb_lt n (S n)) (Nat.lt_succ_diag_r n)).
Defined.

(** No transaction is ever reported both committed and aborted. *)
Theorem TransactionIdDidCommit_not_DidAbort fuel e x cache c1 :
  TransactionIdDidCommit fuel e x cache = Ok (true, c1) ->
  TransactionIdDidAbort fuel e x cache = Ok (false, c1).
Proof.
  revert x cache. induction fuel as [|n IH]; intros x cache; simpl; [done|].
  destruct (TransactionLogFetch e x cache) as [[st cache']|]; simpl; [|done].
  destruct (Z.eqb_spec st TRANSACTION_STATUS_COMMITTED) as [->|].
  { intros [= <-]. done. }
  destruct (st =? TRANSACTION_STATUS_ABORTED) eqn:Ha.
  { apply Z.eqb_eq in Ha as ->. done. }
  destruct (st =? TRANSACTION_STATUS_SUB_COMMITTED); [|done].
  destruct (TransactionIdPrecedes x (TransactionXmin e)); [done|].
  destruct (SubTransGetParent (env_subtrans e) x) as [p|]; simpl; [|done].
  destruct (TransactionIdIsValid p); simpl; [|done]. apply IH.
Qed.

Lemma TransactionIdDidCommit_not_DidAbort_witness :
  TransactionIdDidAbort 1 (mkLookupEnv two_pages small_tree 990) FrozenTransactionId initial_cache
  = Ok (false, initial_cache).
Proof. apply TransactionIdDidCommit_not_DidAbort. reflexivity. Defined.
