(* ===== verification/Varsup.v ===== *)
(** * Varsup: assignment of transaction ids and object ids

    Models src/backend/access/transam/varsup.c and the shared variables of
    [VariableCacheData] (src/include/access/transam.h) it maintains.

    [GetNewTransactionId] releases [XidGenLock] when it has to signal or warn;
    what other backends do to the shared state in that window is an argument
    of the definition.  pg_commit_ts (commit_ts.c) is outside the model: its
    state and [ExtendCommitTs] are parameters. *)

From S2P Require Import Prelude Steps TransactionId Slru Clog Subtrans.

Abbreviation Oid := Z (only parsing).

Definition VAR_OID_PREFETCH : Z := 8192.
Definition FirstGenbkiObjectId : Oid := 10000.
Definition FirstUnpinnedObjectId : Oid := 12000.
Definition FirstNormalObjectId : Oid := 16384.
Definition PGPROC_MAX_CACHED_SUBXIDS : nat := 64.

Record VariableCacheData := mkVariableCache {
  nextOid : Oid;
  oidCount : Z;
  nextXid : FullTransactionId;
  oldestXid : TransactionId;
  xidVacLimit : TransactionId;
  xidWarnLimit : TransactionId;
  xidStopLimit : TransactionId;
  xidWrapLimit : TransactionId;
  oldestXidDB : Oid;
}.

(** The xid fields of this backend's [PGPROC] entry. *)
Record ProcXids := mkProcXids {
  p_xid : TransactionId;
  p_subxids : list TransactionId;
  p_overflowed : bool;
}.

Inductive XidEvent :=
| SendPostmasterSignal_AutovacLauncher
| Warning_vacuum_within (oldest_datoid : Oid) (within : Z)
| XLogPutNextOid (next : Oid).

Record ProcessMode := mkProcessMode {
  IsInParallelMode : bool;
  IsBootstrapProcessingMode : bool;
  RecoveryInProgress : bool;
  IsUnderPostmaster : bool;
  IsPostmasterEnvironment : bool;
}.

Inductive XidError :=
| CannotAssignInParallel
| CannotAssignInRecovery
| NotAcceptingCommands (oldest_datoid : Oid)
| CannotAssignOidInRecovery
| CannotAdvanceOidCounter
| TooLateToAdvanceOid (next current : Oid).

(** The four limits [SetTransactionIdLimit] computes. *)
Definition wrap_limit (oldest_datfrozenxid : TransactionId) : TransactionId :=
  let l := oldest_datfrozenxid +u32 Z.shiftr MaxTransactionId 1 in
  if l <? FirstNormalTransactionId then l +u32 FirstNormalTransactionId else l.

Definition limit_before (wrap distance : Z) : TransactionId :=
  let l := wrap -u32 distance in
  if l <? FirstNormalTransactionId then l -u32 FirstNormalTransactionId else l.

Definition vac_limit (oldest_datfrozenxid autovacuum_freeze_max_age : Z) : TransactionId :=
  let l := oldest_datfrozenxid +u32 autovacuum_freeze_max_age in
  if l <? FirstNormalTransactionId then l +u32 FirstNormalTransactionId else l.

Definition starts_page (index : TransactionId -> Z) (x : TransactionId) : bool :=
  (index x =? 0) || (x =? FirstNormalTransactionId).

(** The last value recorded by [XLogPutNextOid]. *)
Fixpoint logged_oid (es : list XidEvent) : option Oid :=
  match es with
  | [] => None
  | XLogPutNextOid next :: _ => Some next
  | _ :: es => logged_oid es
  end.

Section Varsup.
Context {CommitTs : Type}.

Record XidGen := mkXidGen {
  ShmemVariableCache : VariableCacheData;
  xg_clog : ClogSys;
  xg_commit_ts : CommitTs;
  xg_subtrans : Slru;
  MyProc : ProcXids;
  xg_events : list XidEvent;  (** latest first *)
}.

Definition set_nextXid (f : FullTransactionId) (v : VariableCacheData) : VariableCacheData :=
  mkVariableCache (nextOid v) (oidCount v) f (oldestXid v) (xidVacLimit v) (xidWarnLimit v)
    (xidStopLimit v) (xidWrapLimit v) (oldestXidDB v).

Definition set_oid (next count : Z) (v : VariableCacheData) : VariableCacheData :=
  mkVariableCache next count (nextXid v) (oldestXid v) (xidVacLimit v) (xidWarnLimit v)
    (xidStopLimit v) (xidWrapLimit v) (oldestXidDB v).

Definition with_vc (f : VariableCacheData -> VariableCacheData) (s : XidGen) : XidGen :=
  mkXidGen (f (ShmemVariableCache s)) (xg_clog s) (xg_commit_ts s) (xg_subtrans s) (MyProc s) (xg_events s).

Definition with_proc (f : ProcXids -> ProcXids) (s : XidGen) : XidGen :=
  mkXidGen (ShmemVariableCache s) (xg_clog s) (xg_commit_ts s) (xg_subtrans s) (f (MyProc s)) (xg_events s).

Definition emit (e : XidEvent) (s : XidGen) : XidGen :=
  mkXidGen (ShmemVariableCache s) (xg_clog s) (xg_commit_ts s) (xg_subtrans s) (MyProc s) (e :: xg_events s).

(** The part of [GetNewTransactionId] outside the lock: signals, the stop
    limit and the warning, from the values copied under the lock. *)
Definition check_xid_limits (mode : ProcessMode) (xid : TransactionId) (v : VariableCacheData)
    (s : XidGen) : result XidError XidGen :=
  let s := if IsUnderPostmaster mode && (xid mod 65536 =? 0)
           then emit SendPostmasterSignal_AutovacLauncher s else s in
  if IsUnderPostmaster mode && TransactionIdFollowsOrEquals xid (xidStopLimit v)
  then Err (NotAcceptingCommands (oldestXidDB v))
  else if TransactionIdFollowsOrEquals xid (xidWarnLimit v)
  then Ok (emit (Warning_vacuum_within (oldestXidDB v) (xidWrapLimit v -u32 xid)) s)
  else Ok s.

Section Assign.
Context (ExtendCommitTs : TransactionId -> CommitTs -> CommitTs).

(** The part under the lock after the checks: make room in the SLRUs, advance
    the counter and advertise the xid in [MyProc]. *)
Definition assign_next_xid (isSubXact : bool) (s : XidGen) : FullTransactionId * XidGen :=
  let full_xid := nextXid (ShmemVariableCache s) in
  let xid := XidFromFullTransactionId full_xid in
  let s := mkXidGen (ShmemVariableCache s) (ExtendCLOG xid (xg_clog s))
             (ExtendCommitTs xid (xg_commit_ts s)) (ExtendSUBTRANS xid (xg_subtrans s))
             (MyProc s) (xg_events s) in
  let s := with_vc (set_nextXid (FullTransactionIdAdvance full_xid)) s in
  let s :=
    if negb isSubXact then
      with_proc (fun p => mkProcXids xid (p_subxids p) (p_overflowed p)) s
    else if (length (p_subxids (MyProc s)) <? PGPROC_MAX_CACHED_SUBXIDS)%nat then
      with_proc (fun p => mkProcXids (p_xid p) (p_subxids p ++ [xid]) (p_overflowed p)) s
    else
      with_proc (fun p => mkProcXids (p_xid p) (p_subxids p) true) s in
  (full_xid, s).

Definition GetNewTransactionId (mode : ProcessMode) (others : XidGen -> XidGen) (isSubXact : bool)
    (s : XidGen) : result XidError (FullTransactionId * XidGen) :=
  if IsInParallelMode mode then Err CannotAssignInParallel
  else if IsBootstrapProcessingMode mode then
    Ok (FullTransactionIdFromEpochAndXid 0 BootstrapTransactionId,
        with_proc (fun p => mkProcXids BootstrapTransactionId (p_subxids p) (p_overflowed p)) s)
  else if RecoveryInProgress mode then Err CannotAssignInRecovery
  else
    let v := ShmemVariableCache s in
    let xid := XidFromFullTransactionId (nextXid v) in
    if TransactionIdFollowsOrEquals xid (xidVacLimit v) then
      s ← check_xid_limits mode xid v s;
      Ok (assign_next_xid isSubXact (others s))
    else Ok (assign_next_xid isSubXact s).

End Assign.

Definition ReadNextFullTransactionId (s : XidGen) : FullTransactionId := nextXid (ShmemVariableCache s).

Definition AdvanceNextFullTransactionIdPastXid (xid : TransactionId) (s : XidGen) : XidGen :=
  let next := nextXid (ShmemVariableCache s) in
  let next_xid := XidFromFullTransactionId next in
  if negb (TransactionIdFollowsOrEquals xid next_xid) then s
  else
    let xid := TransactionIdAdvance xid in
    let epoch := EpochFromFullTransactionId next in
    let epoch := if xid <? next_xid then epoch +u32 1 else epoch in
    with_vc (set_nextXid (FullTransactionIdFromEpochAndXid epoch xid)) s.

Definition SetTransactionIdLimit (mode : ProcessMode) (InRecovery : bool) (autovacuum_freeze_max_age : Z)
    (oldest_datfrozenxid : TransactionId) (oldest_datoid : Oid) (s : XidGen) : XidGen :=
  let xidWrapLimit := wrap_limit oldest_datfrozenxid in
  let xidStopLimit := limit_before xidWrapLimit 3000000 in
  let xidWarnLimit := limit_before xidWrapLimit 40000000 in
  let xidVacLimit := vac_limit oldest_datfrozenxid autovacuum_freeze_max_age in
  let s := with_vc (fun v => mkVariableCache (nextOid v) (oidCount v) (nextXid v) oldest_datfrozenxid
                               xidVacLimit xidWarnLimit xidStopLimit xidWrapLimit oldest_datoid) s in
  let curXid := XidFromFullTransactionId (nextXid (ShmemVariableCache s)) in
  let s := if TransactionIdFollowsOrEquals curXid xidVacLimit && IsUnderPostmaster mode && negb InRecovery
           then emit SendPostmasterSignal_AutovacLauncher s else s in
  if TransactionIdFollowsOrEquals curXid xidWarnLimit && negb InRecovery
  then emit (Warning_vacuum_within oldest_datoid (xidWrapLimit -u32 curXid)) s else s.

(** [db_exists] answers [SearchSysCacheExists1(DATABASEOID, ...)]. *)
Definition ForceTransactionIdLimitUpdate (db_exists : Oid -> bool) (s : XidGen) : bool :=
  let v := ShmemVariableCache s in
  if negb (TransactionIdIsNormal (oldestXid v)) then true
  else if negb (TransactionIdIsValid (xidVacLimit v)) then true
  else if TransactionIdFollowsOrEquals (XidFromFullTransactionId (nextXid v)) (xidVacLimit v) then true
  else if negb (db_exists (oldestXidDB v)) then true
  else false.

Definition GetNewObjectId (mode : ProcessMode) (s : XidGen) : result XidError (Oid * XidGen) :=
  if RecoveryInProgress mode then Err CannotAssignOidInRecovery
  else
    let s :=
      if nextOid (ShmemVariableCache s) <? FirstNormalObjectId then
        if IsPostmasterEnvironment mode then with_vc (set_oid FirstNormalObjectId 0) s
        else if nextOid (ShmemVariableCache s) <? FirstGenbkiObjectId
        then with_vc (set_oid FirstNormalObjectId 0) s
        else s
      else s in
    let s :=
      if oidCount (ShmemVariableCache s) =? 0 then
        let s := emit (XLogPutNextOid (nextOid (ShmemVariableCache s) +u32 VAR_OID_PREFETCH)) s in
        with_vc (set_oid (nextOid (ShmemVariableCache s)) VAR_OID_PREFETCH) s
      else s in
    let res := nextOid (ShmemVariableCache s) in
    Ok (res, with_vc (fun v => set_oid (nextOid v +u32 1) (oidCount v -u32 1) v) s).

Definition SetNextObjectId (mode : ProcessMode) (next : Oid) (s : XidGen) : result XidError XidGen :=
  if IsPostmasterEnvironment mode then Err CannotAdvanceOidCounter
  else if next <? nextOid (ShmemVariableCache s)
  then Err (TooLateToAdvanceOid next (nextOid (ShmemVariableCache s)))
  else Ok (with_vc (set_oid next 0) s).

Definition StopGeneratingPinnedObjectIds (mode : ProcessMode) (s : XidGen) : result XidError XidGen :=
  SetNextObjectId mode FirstUnpinnedObjectId s.

End Varsup.

Arguments XidGen : clear implicits.

(** ** Limits *)

(** The limits in force for the oldest xid [o]. *)
Definition limits_for (o : TransactionId) (freeze_max_age : Z) (v : VariableCacheData) : Prop :=
  xidWrapLimit v = wrap_limit o /\ xidStopLimit v = limit_before (wrap_limit o) 3000000
  /\ xidWarnLimit v = limit_before (wrap_limit o) 40000000
  /\ xidVacLimit v = vac_limit o freeze_max_age.

Lemma limits_ordered o fma v :
  normal_xid o -> 100000 <= fma <= 2000000000 -> limits_for o fma v ->
  Forall normal_xid [xidVacLimit v; xidWarnLimit v; xidStopLimit v; xidWrapLimit v]
  /\ 0 < xid_age o (xidVacLimit v) < xid_age o (xidWarnLimit v)
  /\ xid_age o (xidWarnLimit v) < xid_age o (xidStopLimit v)
  /\ xid_age o (xidStopLimit v) + 2999900 < xid_age o (xidWrapLimit v)
  /\ xid_age o (xidWrapLimit v) < 2 ^ 31 + 3.
Proof.
  intros Ho Hf (-> & -> & -> & ->).
  assert (Hw : normal_xid (wrap_limit o) /\ 2 ^ 31 - 1 <= xid_age o (wrap_limit o) < 2 ^ 31 + 3).
  { revert Ho. unfold wrap_limit. change (Z.shiftr MaxTransactionId 1) with 2147483647.
    xid_unfold. intros. case_if; bool_simpl; cint. }
  revert Ho Hw. generalize (wrap_limit o). intros w Ho Hw.
  unfold limit_before, vac_limit. xid_unfold.
  split; [repeat constructor|].
  all: repeat (case_if; bool_simpl); cint.
Qed.

(** ** Room in the SLRUs *)

Lemma page_status_zero x : page_status (zero_page XactCtl) x = TRANSACTION_STATUS_IN_PROGRESS.
Proof. unfold page_status. by rewrite read_zero_page, Z.shiftr_0_l. Qed.

(** After extension, everything from [x] to the end of its page is unused. *)
Lemma ExtendCLOG_room x cs y :
  (starts_page TransactionIdToPgIndex x = false -> clog_status (clog cs) y = Some TRANSACTION_STATUS_IN_PROGRESS) ->
  TransactionIdToPage y = TransactionIdToPage x ->
  clog_status (clog (ExtendCLOG x cs)) y = Some TRANSACTION_STATUS_IN_PROGRESS.
Proof.
  intros Hroom Hy. unfold ExtendCLOG, TransactionIdEquals. rewrite <- negb_orb.
  fold (starts_page TransactionIdToPgIndex x).
  destruct (starts_page TransactionIdToPgIndex x); cbn [negb]; [|by apply Hroom].
  rewrite clog_status_contents. cbn [clog ZeroCLOGPage WriteZeroPageXlogRec with_clog]. rewrite pages_zero_page, decide_True by done.
  cbn [fmap option_fmap option_map]. f_equal. apply (page_status_zero y).
Qed.

Lemma ExtendCLOG_other x cs y :
  TransactionIdToPage y <> TransactionIdToPage x ->
  clog_status (clog (ExtendCLOG x cs)) y = clog_status (clog cs) y.
Proof.
  intros Hne. unfold ExtendCLOG. case_if; [done|]. rewrite !clog_status_contents.
  cbn [clog ZeroCLOGPage WriteZeroPageXlogRec with_clog]. by rewrite pages_zero_page, decide_False.
Qed.

Lemma ExtendCLOG_wf x cs : clog_wf (clog cs) -> clog_wf (clog (ExtendCLOG x cs)).
Proof. intros H. unfold ExtendCLOG. case_if; [done|]. by apply SimpleLruZeroPage_wf. Qed.

Lemma ExtendSUBTRANS_room x c y :
  (starts_page TransactionIdToEntry x = false -> SubTransGetParent c y = Ok InvalidTransactionId) ->
  subtrans_page y = subtrans_page x -> SubTransGetParent (ExtendSUBTRANS x c) y = Ok InvalidTransactionId.
Proof.
  intros Hroom Hy. unfold ExtendSUBTRANS, TransactionIdEquals. rewrite <- negb_orb.
  fold (starts_page TransactionIdToEntry x).
  destruct (starts_page TransactionIdToEntry x); cbn [negb]; [|by apply Hroom].
  rewrite SubTransGetParent_contents. case_if; [done|]. unfold ZeroSUBTRANSPage. rewrite pages_zero_page, decide_True by done.
  cbn [or_err fmap option_fmap option_map]. unfold contents. cbn [fst]. by rewrite read_zero_page.
Qed.

Lemma ExtendSUBTRANS_other x c y :
  subtrans_page y <> subtrans_page x -> SubTransGetParent (ExtendSUBTRANS x c) y = SubTransGetParent c y.
Proof.
  intros Hy. unfold ExtendSUBTRANS. case_if; [done|]. rewrite !SubTransGetParent_contents.
  unfold ZeroSUBTRANSPage. by rewrite pages_zero_page, decide_False.
Qed.

Lemma ExtendSUBTRANS_wf x c : subtrans_wf c -> subtrans_wf (ExtendSUBTRANS x c).
Proof. intros H. unfold ExtendSUBTRANS. case_if; [done|]. by apply zero_page_subtrans_wf. Qed.

(** The successor of an xid starts a page or lies on the same page. *)
Lemma next_same_page f per_page :
  (per_page = 2048 \/ per_page = 32768) ->
  is_u64 f -> f + 4 < 2 ^ 64 -> normal_xid (XidFromFullTransactionId f) ->
  let x := XidFromFullTransactionId f in
  let x' := XidFromFullTransactionId (FullTransactionIdAdvance f) in
  (x' mod per_page =? 0) || (x' =? FirstNormalTransactionId) = false ->
  x < x' /\ x' / per_page = x / per_page.
Proof.
  intros Hp Hu Hb Hn x x'. subst x'. rewrite FullTransactionIdAdvance_normal by done. fold x.
  destruct (Z.eqb_spec x MaxTransactionId) as [Hm|Hm].
  - replace (XidFromFullTransactionId (f + 4)) with 3; [by rewrite orb_true_r|].
    subst x. revert Hm. xid_unfold. unfold MaxTransactionId. cint.
  - replace (XidFromFullTransactionId (f + 1)) with (x + 1).
    + intros [H _]%orb_false_iff. apply Z.eqb_neq in H.
      destruct Hp as [-> | ->]; Z.to_euclidean_division_equations; lia.
    + subst x. revert Hm Hn. xid_unfold. unfold MaxTransactionId. cint.
Qed.

Lemma FromEpochAndXid_sum e x :
  0 <= e < 2 ^ 32 -> is_u32 x -> FullTransactionIdFromEpochAndXid e x = e * 2 ^ 32 + x.
Proof.
  intros He Hx. unfold FullTransactionIdFromEpochAndXid.
  rewrite (u32_small e) by done. replace (u64 (Z.shiftl (u64 e) 32)) with (Z.shiftl e 32).
  - rewrite Z.shiftl_mul_pow2 by lia. symmetry. apply Z.add_nocarry_lor.
    apply Z.bits_inj'. intros i Hi. rewrite Z.land_spec, Z.bits_0.
    destruct (Z.lt_ge_cases i 32).
    + by rewrite Z.mul_pow2_bits_low by lia.
    + replace (Z.testbit x i) with false; [apply andb_false_r|].
      symmetry. rewrite <- (u32_small x Hx). unfold u32. by apply Z.mod_pow2_bits_high; lia.
  - rewrite !Z.shiftl_mul_pow2 by lia. cint.
Qed.

Lemma EpochFrom_div f : is_u64 f -> EpochFromFullTransactionId f = f / 2 ^ 32.
Proof. intros. unfold EpochFromFullTransactionId. rewrite Z.shiftr_div_pow2 by lia. cint. Qed.

Section Props.
Context {CommitTs : Type}.
Implicit Types s t : XidGen CommitTs.

(** ** Invariant: there is room for the next xid

    Beyond the counter, the log and pg_subtrans hold nothing: from [nextXid] to
    the end of its page every transaction is in progress and has no parent;
    when [nextXid] starts a page, that page will be zeroed before use. *)
Record xidgen_inv (s : XidGen CommitTs) : Prop := {
  inv_next_normal : normal_xid (XidFromFullTransactionId (nextXid (ShmemVariableCache s)));
  inv_next_u64 : is_u64 (nextXid (ShmemVariableCache s)) /\ nextXid (ShmemVariableCache s) + 4 < 2 ^ 64;
  inv_clog_wf : clog_wf (clog (xg_clog s));
  inv_subtrans_wf : subtrans_wf (xg_subtrans s);
  inv_clog_room : forall y, let x := XidFromFullTransactionId (nextXid (ShmemVariableCache s)) in
    starts_page TransactionIdToPgIndex x = false -> x <= y -> TransactionIdToPage y = TransactionIdToPage x ->
    clog_status (clog (xg_clog s)) y = Some TRANSACTION_STATUS_IN_PROGRESS;
  inv_subtrans_room : forall y, let x := XidFromFullTransactionId (nextXid (ShmemVariableCache s)) in
    starts_page TransactionIdToEntry x = false -> x <= y -> subtrans_page y = subtrans_page x ->
    SubTransGetParent (xg_subtrans s) y = Ok InvalidTransactionId;
}.

Lemma emit_inv e s : xidgen_inv s -> xidgen_inv (emit e s).
Proof. intros [? ? ? ? ? ?]. by split. Qed.

Lemma check_xid_limits_inv mode xid v s s' :
  check_xid_limits mode xid v s = Ok s' -> xidgen_inv s -> xidgen_inv s'
  /\ ShmemVariableCache s' = ShmemVariableCache s /\ xg_subtrans s' = xg_subtrans s /\ MyProc s' = MyProc s.
Proof.
  unfold check_xid_limits. intros H Hi.
  assert (Hs : forall b : bool, xidgen_inv (if b then emit SendPostmasterSignal_AutovacLauncher s else s)
    /\ ShmemVariableCache (if b then emit SendPostmasterSignal_AutovacLauncher s else s) = ShmemVariableCache s
    /\ xg_subtrans (if b then emit SendPostmasterSignal_AutovacLauncher s else s) = xg_subtrans s
    /\ MyProc (if b then emit SendPostmasterSignal_AutovacLauncher s else s) = MyProc s).
  { intros []; auto using emit_inv. }
  destruct (IsUnderPostmaster mode && TransactionIdFollowsOrEquals xid (xidStopLimit v)); [done|].
  destruct (TransactionIdFollowsOrEquals xid (xidWarnLimit v)); injection H as <-; [|apply Hs].
  split; [apply emit_inv, Hs|apply Hs].
Qed.

Section Assign.
Context (ExtendCommitTs : TransactionId -> CommitTs -> CommitTs).

Lemma assign_next_xid_inv isSubXact s :
  nextXid (ShmemVariableCache s) + 8 < 2 ^ 64 -> xidgen_inv s ->
  let '(f, s') := assign_next_xid ExtendCommitTs isSubXact s in
  xidgen_inv s' /\ f = nextXid (ShmemVariableCache s)
  /\ nextXid (ShmemVariableCache s') = FullTransactionIdAdvance f
  /\ clog_status (clog (xg_clog s')) (XidFromFullTransactionId f) = Some TRANSACTION_STATUS_IN_PROGRESS
  /\ SubTransGetParent (xg_subtrans s') (XidFromFullTransactionId f) = Ok InvalidTransactionId.
Proof.
  intros Hb [Hn [Hu Hu4] Hcw Hsw Hcr Hsr]. unfold assign_next_xid.
  set (f := nextXid (ShmemVariableCache s)) in *. set (x := XidFromFullTransactionId f) in *.
  assert (Hroom : forall y, x <= y -> TransactionIdToPage y = TransactionIdToPage x ->
            clog_status (clog (ExtendCLOG x (xg_clog s))) y = Some TRANSACTION_STATUS_IN_PROGRESS).
  { intros y Hy Hp. apply ExtendCLOG_room; [|done]. intros Hs. by apply Hcr. }
  assert (Hsroom : forall y, x <= y -> subtrans_page y = subtrans_page x ->
            SubTransGetParent (ExtendSUBTRANS x (xg_subtrans s)) y = Ok InvalidTransactionId).
  { intros y Hy Hp. apply ExtendSUBTRANS_room; [|done]. intros Hs. by apply Hsr. }
  assert (Hnext := FullTransactionIdAdvance_normal f Hu Hu4 Hn). fold x in Hnext.
  assert (Hinv : forall p, xidgen_inv (with_proc p (with_vc (set_nextXid (FullTransactionIdAdvance f))
      (mkXidGen (ShmemVariableCache s) (ExtendCLOG x (xg_clog s)) (ExtendCommitTs x (xg_commit_ts s))
         (ExtendSUBTRANS x (xg_subtrans s)) (MyProc s) (xg_events s))))).
  { intros p. split; cbn [ShmemVariableCache with_proc with_vc nextXid set_nextXid xg_clog xg_subtrans].
    - rewrite Hnext. subst x. revert Hn. case_if; bool_simpl; xid_unfold; unfold MaxTransactionId in *; cint.
    - rewrite Hnext. case_if; unfold is_u64 in *; lia.
    - by apply ExtendCLOG_wf.
    - by apply ExtendSUBTRANS_wf.
    - intros y Hs Hy Hp. destruct (next_same_page f 32768) as [Hlt Hpg]; try done; [by right|].
      apply Hroom; [fold x in Hlt; lia|]. rewrite Hp. exact Hpg.
    - intros y Hs Hy Hp. destruct (next_same_page f 2048) as [Hlt Hpg]; try done; [by left|].
      apply Hsroom; [fold x in Hlt; lia|]. rewrite Hp. exact Hpg. }
  split_and!; [|done| | |].
  - repeat case_if; apply Hinv.
  - by repeat case_if.
  - repeat case_if; apply Hroom; (done || lia).
  - repeat case_if; apply Hsroom; (done || lia).
Qed.

(** What a successful assignment leaves behind. *)
Definition xid_assigned (f : FullTransactionId) (s' : XidGen CommitTs) : Prop :=
  xidgen_inv s' /\ normal_xid (XidFromFullTransactionId f)
  /\ nextXid (ShmemVariableCache s') = FullTransactionIdAdvance f
  /\ clog_status (clog (xg_clog s')) (XidFromFullTransactionId f) = Some TRANSACTION_STATUS_IN_PROGRESS
  /\ SubTransGetParent (xg_subtrans s') (XidFromFullTransactionId f) = Ok InvalidTransactionId.

Lemma assign_next_xid_assigned isSubXact s :
  nextXid (ShmemVariableCache s) + 8 < 2 ^ 64 -> xidgen_inv s ->
  xid_assigned (assign_next_xid ExtendCommitTs isSubXact s).1 (assign_next_xid ExtendCommitTs isSubXact s).2.
Proof.
  intros Hb Hi. pose proof (assign_next_xid_inv isSubXact s Hb Hi) as H.
  destruct (assign_next_xid ExtendCommitTs isSubXact s) as [f s']. destruct H as (Hi' & -> & ? & ? & ?).
  split_and!; try done. by destruct Hi.
Qed.

(** An assignment is that of the next xid, at once or after the lock was
    released and others may have assigned theirs. *)
Lemma GetNewTransactionId_assigns mode others isSubXact s f s' :
  xidgen_inv s -> IsBootstrapProcessingMode mode = false ->
  GetNewTransactionId ExtendCommitTs mode others isSubXact s = Ok (f, s') ->
  exists t, assign_next_xid ExtendCommitTs isSubXact t = (f, s') /\
    (t = s \/ exists s1, xidgen_inv s1 /\ ShmemVariableCache s1 = ShmemVariableCache s
                        /\ xg_subtrans s1 = xg_subtrans s /\ MyProc s1 = MyProc s /\ t = others s1).
Proof.
  intros Hi Hboot. unfold GetNewTransactionId. rewrite Hboot.
  destruct (IsInParallelMode mode); [done|]. destruct (RecoveryInProgress mode); [done|].
  destruct (TransactionIdFollowsOrEquals _ _); [|intros H; exists s; split; [congruence|by left]].
  destruct (check_xid_limits mode _ _ s) as [s1|e] eqn:Hc; cbn [mbind result_bind]; [|done].
  apply check_xid_limits_inv in Hc as (Hi1 & Hv & Hs & Hp); [|done]. intros H.
  exists (others s1). split; [congruence|]. right. by exists s1.
Qed.

(** What [GetNewTransactionId] publishes in [MyProc]: the xid of a
    transaction, or that of a subtransaction in the cache if there is room,
    and else that the cache has overflowed. *)
Definition xid_published (isSubXact : bool) (xid : TransactionId) (p p' : ProcXids) : Prop :=
  if isSubXact then
    p_xid p' = p_xid p /\ p_subxids p `prefix_of` p_subxids p' /\ (p_overflowed p = true -> p_overflowed p' = true) /\
    (xid ∈ p_subxids p' \/ p_overflowed p' = true)
  else p_xid p' = xid /\ p_subxids p' = p_subxids p /\ p_overflowed p' = p_overflowed p.

Lemma assign_next_xid_published isSubXact s :
  xid_published isSubXact (XidFromFullTransactionId (assign_next_xid ExtendCommitTs isSubXact s).1) (MyProc s)
    (MyProc (assign_next_xid ExtendCommitTs isSubXact s).2).
Proof.
  unfold assign_next_xid, xid_published. cbn [fst]. destruct isSubXact; cbn [negb snd]; [|done].
  case_if; cbn; split_and!; try done; [by eexists|by left; set_solver|by right].
Qed.

(** What the other backends may do while the lock is released in a state with
    the shared variables of [s]. *)
Definition others_ok (others : XidGen CommitTs -> XidGen CommitTs) (s : XidGen CommitTs) : Prop :=
  forall t, xidgen_inv t -> ShmemVariableCache t = ShmemVariableCache s ->
    xidgen_inv (others t) /\ MyProc (others t) = MyProc t /\
    nextXid (ShmemVariableCache s) <= nextXid (ShmemVariableCache (others t)) < 2 ^ 64 - 8.

(** C35. Every xid handed out is fresh and published.  It is the old value of
    the counter, as it was at the call or, if the lock had to be released, as
    the other backends left it.  Whatever these do in the meantime (within the
    invariant), the 64-bit id is not below the counter as it was at the call,
    and below the counter as it is afterwards, so that nobody has got or will
    get the same one.  It is a
    normal xid, the commit log has a page for it on which it is in progress,
    and it has no parent; and when the call returns, [MyProc] shows it to the
    takers of snapshots, as the xid of the transaction, as one of its
    subtransactions, or by the overflow flag.  The invariant that makes room
    for the next xid is preserved. *)
Theorem GetNewTransactionId_fresh mode others isSubXact s f s' :
  xidgen_inv s -> nextXid (ShmemVariableCache s) + 8 < 2 ^ 64 -> others_ok others s ->
  IsBootstrapProcessingMode mode = false ->
  GetNewTransactionId ExtendCommitTs mode others isSubXact s = Ok (f, s') ->
  (exists t, f = nextXid (ShmemVariableCache t) /\
     (t = s \/ exists s1, ShmemVariableCache s1 = ShmemVariableCache s /\ MyProc s1 = MyProc s /\ t = others s1))
  /\ nextXid (ShmemVariableCache s) <= f < nextXid (ShmemVariableCache s') /\ xid_assigned f s'
  /\ xid_published isSubXact (XidFromFullTransactionId f) (MyProc s) (MyProc s').
Proof.
  intros Hi Hb Hoth Hboot Hg.
  destruct (GetNewTransactionId_assigns mode others isSubXact s f s' Hi Hboot Hg) as (t & Ha & Ht).
  assert (H : xidgen_inv t /\ MyProc t = MyProc s /\ nextXid (ShmemVariableCache s) <= nextXid (ShmemVariableCache t) < 2 ^ 64 - 8).
  { destruct Ht as [->|(s1 & Hi1 & Hv & _ & Hp & ->)]; [split_and!; [done|done|lia..]|].
    destruct (Hoth s1 Hi1 Hv) as (? & ? & ?). split_and!; [done|congruence|lia..]. }
  destruct H as (Hit & Hpt & Hnt). pose proof (assign_next_xid_assigned isSubXact t ltac:(lia) Hit) as Has.
  pose proof (assign_next_xid_published isSubXact t) as Hpub. rewrite Ha, Hpt in *. cbn [fst snd] in *.
  assert (f = nextXid (ShmemVariableCache t)) as -> by (unfold assign_next_xid in Ha; by injection Ha as <- _).
  split; [exists t; split; [done|]; destruct Ht as [->|(s1 & _ & Hv & _ & Hp & ->)]; [by left|right; by exists s1]|].
  split; [|by split]. destruct Has as (_ & Hn & -> & _). destruct (inv_next_u64 _ Hit) as [Hu Hu4].
  rewrite FullTransactionIdAdvance_normal by done. case_if; lia.
Qed.

(** Wraparound protection: with the limits computed for the oldest xid [o],
    and no interference while the lock is released, a multi-user server
    assigns only xids strictly before the stop limit (3 million short of half
    the xid space after [o]), and refuses exactly from the stop limit on. *)
Theorem GetNewTransactionId_stop_limit mode isSubXact o fma s :
  normal_xid o -> 100000 <= fma <= 2000000000 -> limits_for o fma (ShmemVariableCache s) ->
  in_window o (XidFromFullTransactionId (nextXid (ShmemVariableCache s))) ->
  IsUnderPostmaster mode = true -> IsInParallelMode mode = false ->
  IsBootstrapProcessingMode mode = false -> RecoveryInProgress mode = false ->
  let v := ShmemVariableCache s in
  match GetNewTransactionId ExtendCommitTs mode (fun t => t) isSubXact s with
  | Ok (f, _) => f = nextXid v /\ xid_age o (XidFromFullTransactionId f) < xid_age o (xidStopLimit v)
  | Err e => e = NotAcceptingCommands (oldestXidDB v)
             /\ xid_age o (xidStopLimit v) <= xid_age o (XidFromFullTransactionId (nextXid v))
  end.
Proof.
  intros Ho Hf Hl Hw Hup Hpar Hboot Hrec. simpl.
  destruct (limits_ordered o fma _ Ho Hf Hl) as (Hn & Hvw & Hws & Hsw & Hwr).
  apply Forall_cons in Hn as [Hnv Hn]. apply Forall_cons in Hn as [Hnw Hn]. apply Forall_cons in Hn as [Hns _].
  unfold GetNewTransactionId. rewrite Hpar, Hboot, Hrec.
  set (v := ShmemVariableCache s) in *. set (x := XidFromFullTransactionId (nextXid v)) in *.
  rewrite (follows_or_equals_window o) by (done || (split; [done|lia])).
  unfold check_xid_limits. rewrite Hup, (follows_or_equals_window o x (xidStopLimit v)) by (done || (split; [done|lia])).
  unfold assign_next_xid.
  destruct (Z.leb_spec (xid_age o (xidVacLimit v)) (xid_age o x)) as [Hv|Hv];
    [|split; [done|]; fold v x; lia].
  destruct (Z.leb_spec (xid_age o (xidStopLimit v)) (xid_age o x)) as [Hs|Hs]; cbn [andb]; [done|].
  repeat case_if; split; try done.
Qed.

End Assign.

(** Recovery infers epochs correctly: if [g] is the 64-bit id of a
    transaction seen in WAL and lies within half the xid space of the
    counter, advancing past its 32-bit xid moves the counter exactly to the
    successor of [g], and never backwards. *)
Theorem AdvanceNextFullTransactionIdPastXid_spec (g : FullTransactionId) s :
  let next := nextXid (ShmemVariableCache s) in
  is_u64 g -> g + 4 < 2 ^ 64 -> is_u64 next -> next + 4 < 2 ^ 64 ->
  normal_xid (XidFromFullTransactionId g) -> normal_xid (XidFromFullTransactionId next) ->
  Z.abs (g - next) < 2 ^ 31 ->
  nextXid (ShmemVariableCache (AdvanceNextFullTransactionIdPastXid (XidFromFullTransactionId g) s))
  = if next <=? g then FullTransactionIdAdvance g else next.
Proof.
  intros next Hg Hg4 Hn Hn4 Hgn Hnn Hd. unfold AdvanceNextFullTransactionIdPastXid. fold next.
  assert (Hcmp : TransactionIdFollowsOrEquals (XidFromFullTransactionId g) (XidFromFullTransactionId next)
                 = (next <=? g)).
  { xid_cmp. cint. }
  rewrite Hcmp. destruct (Z.leb_spec next g) as [Hle|Hlt]; cbn [negb]; [|done].
  cbn [ShmemVariableCache with_vc nextXid set_nextXid].
  rewrite (FullTransactionIdAdvance_normal g Hg Hg4 Hgn), (EpochFrom_div next Hn).
  assert (Hadv : TransactionIdAdvance (XidFromFullTransactionId g)
    = if XidFromFullTransactionId g =? MaxTransactionId then 3 else XidFromFullTransactionId g + 1).
  { revert Hgn. unfold TransactionIdAdvance. xid_unfold. unfold MaxTransactionId. intros.
    repeat case_if; bool_simpl; cint. }
  rewrite Hadv. rewrite FromEpochAndXid_sum.
  - unfold MaxTransactionId. revert Hgn Hnn Hd Hle. clear Hadv Hcmp. xid_unfold. intros.
    repeat case_if; bool_simpl; cint.
  - case_if; [apply u32_range|]. clear -Hn. cint.
  - unfold MaxTransactionId. revert Hgn. xid_unfold. intros. case_if; bool_simpl; cint.
Qed.

(** C36. The limits computed from the oldest unfrozen xid are normal xids, in the
    order vacuum, warn, stop, wrap, strictly after the oldest xid; the stop
    limit keeps almost three million xids before the wrap limit. *)
Theorem SetTransactionIdLimit_ordered mode InRecovery fma o db s :
  normal_xid o -> 100000 <= fma <= 2000000000 ->
  let v := ShmemVariableCache (SetTransactionIdLimit mode InRecovery fma o db s) in
  oldestXid v = o /\ oldestXidDB v = db /\ nextXid v = nextXid (ShmemVariableCache s)
  /\ Forall normal_xid [xidVacLimit v; xidWarnLimit v; xidStopLimit v; xidWrapLimit v]
  /\ 0 < xid_age o (xidVacLimit v) < xid_age o (xidWarnLimit v)
  /\ xid_age o (xidWarnLimit v) < xid_age o (xidStopLimit v)
  /\ xid_age o (xidStopLimit v) + 2999900 < xid_age o (xidWrapLimit v)
  /\ xid_age o (xidWrapLimit v) < 2 ^ 31 + 3.
Proof.
  intros Ho Hf v. subst v. unfold SetTransactionIdLimit.
  repeat case_if; (split_and!; [done|done|done|..]); by apply (limits_ordered o fma).
Qed.

(** The unused part of the logged batch ends at the logged value. *)
Definition oid_inv (s : XidGen CommitTs) : Prop :=
  is_u32 (nextOid (ShmemVariableCache s)) /\ 0 <= oidCount (ShmemVariableCache s) <= VAR_OID_PREFETCH
  /\ (0 < oidCount (ShmemVariableCache s) ->
      logged_oid (xg_events s)
      = Some (nextOid (ShmemVariableCache s) +u32 oidCount (ShmemVariableCache s))).

(** Object ids survive a crash: an id handed out lies before the next-OID
    value last written to WAL, by at most the batch size, and in normal
    operation it is never in the range reserved for initdb. *)
Theorem GetNewObjectId_logged mode s :
  oid_inv s -> RecoveryInProgress mode = false ->
  exists oid s', GetNewObjectId mode s = Ok (oid, s') /\ oid_inv s'
    /\ (exists d, 0 < d <= VAR_OID_PREFETCH /\ logged_oid (xg_events s') = Some (oid +u32 d))
    /\ FirstGenbkiObjectId <= oid
    /\ (IsPostmasterEnvironment mode = true -> FirstNormalObjectId <= oid).
Proof.
  intros (Hu & Hc & Hl) Hr. unfold GetNewObjectId. rewrite Hr.
  set (s1 := if nextOid (ShmemVariableCache s) <? FirstNormalObjectId then _ else s).
  assert (H1 : oid_inv s1 /\ FirstGenbkiObjectId <= nextOid (ShmemVariableCache s1)
    /\ (IsPostmasterEnvironment mode = true -> FirstNormalObjectId <= nextOid (ShmemVariableCache s1))).
  { subst s1. unfold oid_inv, FirstNormalObjectId, FirstGenbkiObjectId in *.
    repeat case_if; bool_simpl; simpl; unfold is_u32 in *; split_and!; try done; lia. }
  clearbody s1. destruct H1 as ((Hu1 & Hc1 & Hl1) & Hg & Hn).
  eexists _, _. split; [reflexivity|]. unfold VAR_OID_PREFETCH in *.
  destruct (Z.eqb_spec (oidCount (ShmemVariableCache s1)) 0) as [H0|H0];
    cbn [ShmemVariableCache with_vc emit nextOid oidCount set_oid xg_events logged_oid] in *.
  - split; [|split; [exists 8192; done|done]]. unfold oid_inv, VAR_OID_PREFETCH. simpl.
    split_and!; [apply u32_range|cint..|]. intros _. f_equal. cint.
  - split; [|split; [|done]].
    + unfold oid_inv, VAR_OID_PREFETCH. simpl. split_and!; [apply u32_range|cint..|].
      intros _. rewrite Hl1 by lia. f_equal. cint.
    + exists (oidCount (ShmemVariableCache s1)). split; [lia|]. apply Hl1. lia.
Qed.

End Props.


(** ** Concrete states *)

Definition multi_user : ProcessMode := mkProcessMode false false false true true.

(** A cluster whose oldest and next xids are given, with the default
    [autovacuum_freeze_max_age] and empty SLRUs. *)
Definition cluster_at (oldest : TransactionId) (next : FullTransactionId) : XidGen unit :=
  SetTransactionIdLimit multi_user false 200000000 oldest 1
    (mkXidGen (mkVariableCache 16384 0 next 0 0 0 0 0 0) (mkClogSys (slru_init no_victims) oldest [] 0) tt
       (slru_init no_victims) (mkProcXids 0 [] false) []).

Lemma cluster_inv : xidgen_inv (cluster_at 3 3).
Proof.
  split.
  - vm_compute. split; congruence.
  - vm_compute. repeat split; congruence.
  - apply map_Forall_empty.
  - apply map_Forall_empty.
  - intros y x Hx. discriminate Hx.
  - intros y x Hx. discriminate Hx.
Qed.

Lemma page_start_inv : xidgen_inv (cluster_at 3 2129920000).
Proof.
  split; [vm_compute; split; congruence|vm_compute; repeat split; congruence|apply map_Forall_empty|apply map_Forall_empty| |];
    intros y x Hx; discriminate Hx.
Qed.

(** Another backend takes the next xid while we warn that the limit is near. *)
Definition taken_by_other (t : XidGen unit) : XidGen unit :=
  with_proc (fun _ => MyProc t) (assign_next_xid (fun _ c => c) false t).2.

Lemma taken_by_other_ok : others_ok taken_by_other (cluster_at 3 2129920000).
Proof.
  intros t Hi Hv. assert (Hn : nextXid (ShmemVariableCache t) = 2129920000) by (by rewrite Hv).
  destruct (assign_next_xid_assigned (fun _ c => c) false t ltac:(lia) Hi) as ([] & _ & Hadv & _).
  split; [by split|]. split; [done|]. unfold taken_by_other. cbn [ShmemVariableCache with_proc]. rewrite Hadv.
  change (assign_next_xid (fun _ c => c) false t).1 with (nextXid (ShmemVariableCache t)). rewrite Hn.
  vm_compute. split; congruence.
Qed.

Lemma GetNewTransactionId_fresh_witness :
  exists s', GetNewTransactionId (fun _ c => c) multi_user taken_by_other false (cluster_at 3 2129920000) = Ok (2129920001, s')
    /\ xid_assigned 2129920001 s' /\ p_xid (MyProc s') = 2129920001.
Proof.
  destruct (GetNewTransactionId (fun _ c => c) multi_user taken_by_other false (cluster_at 3 2129920000))
    as [[f s']|e] eqn:Hg; [|vm_compute in Hg; discriminate Hg].
  assert (f = 2129920001) as ->.
  { apply (f_equal (fun r => match r with Ok (g, _) => g | Err _ => 0 end)) in Hg. vm_compute in Hg. congruence. }
  exists s'. split; [reflexivity|].
  destruct (GetNewTransactionId_fresh (fun _ c => c) multi_user taken_by_other false (cluster_at 3 2129920000) 2129920001 s')
    as (_ & _ & Ha & Hp).
  - exact page_start_inv.
  - vm_compute. reflexivity.
  - exact taken_by_other_ok.
  - reflexivity.
  - exact Hg.
  - split; [exact Ha|exact (proj1 Hp)].
Defined.

Lemma GetNewTransactionId_stop_limit_witness :
  match GetNewTransactionId (fun _ c => c) multi_user (fun t => t) true (cluster_at 3 2144483650) with
  | Ok (f, _) => False
  | Err e => e = NotAcceptingCommands 1
  end.
Proof.
  pose proof (GetNewTransactionId_stop_limit (fun _ c => c) multi_user true 3 200000000
                (cluster_at 3 2144483650)) as H.
  destruct (GetNewTransactionId _ _ _ _ _) as [[f s']|e] eqn:Hg.
  - vm_compute in Hg. discriminate Hg.
  - apply H; try reflexivity.
    + unfold normal_xid, FirstNormalTransactionId. lia.
    + lia.
    + repeat split.
    + split; [unfold normal_xid, FirstNormalTransactionId; vm_compute; split; congruence|vm_compute; reflexivity].
Defined.

Lemma AdvanceNextFullTransactionIdPastXid_spec_witness :
  nextXid (ShmemVariableCache (AdvanceNextFullTransactionIdPastXid (XidFromFullTransactionId 4294967395)
             (cluster_at 4294967000 4294967200))) = FullTransactionIdAdvance 4294967395.
Proof.
  rewrite AdvanceNextFullTransactionIdPastXid_spec; try (vm_compute; split; congruence); vm_compute; reflexivity.
Defined.

Lemma SetTransactionIdLimit_ordered_witness :
  let v := ShmemVariableCache (SetTransactionIdLimit multi_user false 200000000 4294967290 5 (cluster_at 3 3)) in
  oldestXid v = 4294967290 /\ Forall normal_xid [xidVacLimit v; xidWarnLimit v; xidStopLimit v; xidWrapLimit v].
Proof.
  edestruct (SetTransactionIdLimit_ordered multi_user false 200000000 4294967290 5 (cluster_at 3 3))
    as (H1 & _ & _ & H2 & _).
  - unfold normal_xid, FirstNormalTransactionId. lia.
  - lia.
  - split; [exact H1|exact H2].
Defined.

Lemma GetNewObjectId_logged_witness :
  exists oid s', GetNewObjectId multi_user (cluster_at 3 3) = Ok (oid, s')
    /\ exists d, 0 < d <= VAR_OID_PREFETCH /\ logged_oid (xg_events s') = Some (oid +u32 d).
Proof.
  destruct (GetNewObjectId_logged multi_user (cluster_at 3 3)) as (oid & s' & Hg & _ & Hd & _).
  - split; [vm_compute; split; congruence|]. split; [vm_compute; split; congruence|]. vm_compute. congruence.
  - reflexivity.
  - exists oid, s'. split; [exact Hg|exact Hd].
Defined.

(** C37. The limits are not checked again after the lock was released to send
    the warning: if another backend takes the last permitted xid in that
    window, the xid assigned is the stop limit itself. *)
Theorem GetNewTransactionId_not_rechecked :
  let s := cluster_at 3 2144483649 in
  let other_backend t := (assign_next_xid (fun _ c => c) false t).2 in
  exists s', GetNewTransactionId (fun _ c => c) multi_user other_backend false s = Ok (2144483650, s')
    /\ TransactionIdFollowsOrEquals (XidFromFullTransactionId 2144483650)
         (xidStopLimit (ShmemVariableCache s)) = true.
Proof. eexists. split; [vm_compute; reflexivity|vm_compute; reflexivity]. Qed.
