(* ===== verification/HeapTuple.v ===== *)
(** * HeapTuple: tuple headers, combo command ids and snapshots

    The data that visibility checks read: the header fields and flag macros
    of src/include/access/htup_details.h, the combo command ids of
    src/backend/utils/time/combocid.c, the multixact members of
    src/include/access/multixact.h, the snapshots of
    src/include/utils/snapshot.h and [XidInMVCCSnapshot] of
    src/backend/utils/time/snapmgr.c.  The null bitmap, the header length and
    the user data of a tuple play no part in visibility and are left out. *)

From S2P Require Import Prelude TransactionId.

Abbreviation CommandId := Z (only parsing).
Abbreviation MultiXactId := Z (only parsing).

Definition InvalidCommandId : CommandId := 4294967295.

(** ** Flags of [t_infomask] *)

Definition HEAP_XMAX_KEYSHR_LOCK : Z := 0x0010.
Definition HEAP_COMBOCID : Z := 0x0020.
Definition HEAP_XMAX_EXCL_LOCK : Z := 0x0040.
Definition HEAP_XMAX_LOCK_ONLY : Z := 0x0080.
Definition HEAP_XMAX_SHR_LOCK : Z := Z.lor HEAP_XMAX_EXCL_LOCK HEAP_XMAX_KEYSHR_LOCK.
Definition HEAP_LOCK_MASK : Z :=
  Z.lor (Z.lor HEAP_XMAX_SHR_LOCK HEAP_XMAX_EXCL_LOCK) HEAP_XMAX_KEYSHR_LOCK.
Definition HEAP_XMIN_COMMITTED : Z := 0x0100.
Definition HEAP_XMIN_INVALID : Z := 0x0200.
Definition HEAP_XMIN_FROZEN : Z := Z.lor HEAP_XMIN_COMMITTED HEAP_XMIN_INVALID.
Definition HEAP_XMAX_COMMITTED : Z := 0x0400.
Definition HEAP_XMAX_INVALID : Z := 0x0800.
Definition HEAP_XMAX_IS_MULTI : Z := 0x1000.
Definition HEAP_UPDATED : Z := 0x2000.
Definition HEAP_MOVED_OFF : Z := 0x4000.
Definition HEAP_MOVED_IN : Z := 0x8000.
Definition HEAP_MOVED : Z := Z.lor HEAP_MOVED_OFF HEAP_MOVED_IN.

Definition HEAP_XMAX_IS_LOCKED_ONLY (infomask : Z) : bool :=
  has_flag infomask HEAP_XMAX_LOCK_ONLY
  || (Z.land infomask (Z.lor HEAP_XMAX_IS_MULTI HEAP_LOCK_MASK) =? HEAP_XMAX_EXCL_LOCK).

Definition HEAP_LOCKED_UPGRADED (infomask : Z) : bool :=
  has_flag infomask HEAP_XMAX_IS_MULTI
  && has_flag infomask HEAP_XMAX_LOCK_ONLY
  && (Z.land infomask (Z.lor HEAP_XMAX_EXCL_LOCK HEAP_XMAX_KEYSHR_LOCK) =? 0).

(** ** Tuple headers *)

Record ItemPointerData := mkItemPointer { ip_blkid : Z; ip_posid : Z }.

Definition SpecTokenOffsetNumber : Z := 0xfffe.

Definition ItemPointerEquals (p q : ItemPointerData) : bool :=
  (ip_blkid p =? ip_blkid q) && (ip_posid p =? ip_posid q).

(** [t_field3] is the C union of a command id and the xid of an old-style
    VACUUM FULL: one word. *)
Record HeapTupleHeaderData := mkHeapTupleHeader {
  t_xmin : TransactionId;
  t_xmax : TransactionId;
  t_field3 : Z;
  t_ctid : ItemPointerData;
  t_infomask : Z;
}.

Definition set_infomask (tup : HeapTupleHeaderData) (m : Z) : HeapTupleHeaderData :=
  mkHeapTupleHeader (t_xmin tup) (t_xmax tup) (t_field3 tup) (t_ctid tup) m.

Definition HeapTupleHeaderGetRawXmin (tup : HeapTupleHeaderData) : TransactionId := t_xmin tup.
Definition HeapTupleHeaderGetRawXmax (tup : HeapTupleHeaderData) : TransactionId := t_xmax tup.
Definition HeapTupleHeaderGetRawCommandId (tup : HeapTupleHeaderData) : CommandId := t_field3 tup.

Definition HeapTupleHeaderXminCommitted (tup : HeapTupleHeaderData) : bool :=
  has_flag (t_infomask tup) HEAP_XMIN_COMMITTED.
Definition HeapTupleHeaderXminInvalid (tup : HeapTupleHeaderData) : bool :=
  Z.land (t_infomask tup) (Z.lor HEAP_XMIN_COMMITTED HEAP_XMIN_INVALID) =? HEAP_XMIN_INVALID.
Definition HeapTupleHeaderXminFrozen (tup : HeapTupleHeaderData) : bool :=
  Z.land (t_infomask tup) HEAP_XMIN_FROZEN =? HEAP_XMIN_FROZEN.

Definition HeapTupleHeaderGetXmin (tup : HeapTupleHeaderData) : TransactionId :=
  if HeapTupleHeaderXminFrozen tup then FrozenTransactionId else HeapTupleHeaderGetRawXmin tup.

Definition HeapTupleHeaderGetXvac (tup : HeapTupleHeaderData) : TransactionId :=
  if has_flag (t_infomask tup) HEAP_MOVED then t_field3 tup else InvalidTransactionId.

Definition HeapTupleHeaderIsSpeculative (tup : HeapTupleHeaderData) : bool :=
  ip_posid (t_ctid tup) =? SpecTokenOffsetNumber.
Definition HeapTupleHeaderGetSpeculativeToken (tup : HeapTupleHeaderData) : Z := ip_blkid (t_ctid tup).

Definition HeapTupleHeaderSetCmin (tup : HeapTupleHeaderData) (cid : CommandId) : HeapTupleHeaderData :=
  mkHeapTupleHeader (t_xmin tup) (t_xmax tup) cid (t_ctid tup)
    (Z.land (t_infomask tup) (Z.lnot HEAP_COMBOCID)).

Definition HeapTupleHeaderSetCmax (tup : HeapTupleHeaderData) (cid : CommandId) (iscombo : bool)
    : HeapTupleHeaderData :=
  mkHeapTupleHeader (t_xmin tup) (t_xmax tup) cid (t_ctid tup)
    (if iscombo then Z.lor (t_infomask tup) HEAP_COMBOCID
     else Z.land (t_infomask tup) (Z.lnot HEAP_COMBOCID)).

(** ** Combo command ids

    The array and the hash table of combocid.c; the hash table is the list of
    its entries. *)
Record ComboState := mkComboState {
  comboCids : list (CommandId * CommandId);
  comboHash : list (CommandId * CommandId * CommandId);  (** cmin, cmax, combo cid *)
}.

Definition empty_combo : ComboState := mkComboState [] [].

Definition GetRealCmin (st : ComboState) (combocid : CommandId) : CommandId :=
  (default (0, 0) (comboCids st !! Z.to_nat combocid)).1.
Definition GetRealCmax (st : ComboState) (combocid : CommandId) : CommandId :=
  (default (0, 0) (comboCids st !! Z.to_nat combocid)).2.

Definition HeapTupleHeaderGetCmin (st : ComboState) (tup : HeapTupleHeaderData) : CommandId :=
  let cid := HeapTupleHeaderGetRawCommandId tup in
  if has_flag (t_infomask tup) HEAP_COMBOCID then GetRealCmin st cid else cid.

Definition HeapTupleHeaderGetCmax (st : ComboState) (tup : HeapTupleHeaderData) : CommandId :=
  let cid := HeapTupleHeaderGetRawCommandId tup in
  if has_flag (t_infomask tup) HEAP_COMBOCID then GetRealCmax st cid else cid.

(** [hash_search]: the entry with the given key. *)
Fixpoint combo_find (h : list (CommandId * CommandId * CommandId)) (cmin cmax : CommandId)
    : option CommandId :=
  match h with
  | [] => None
  | (a, b, combocid) :: rest =>
      if (a =? cmin) && (b =? cmax) then Some combocid else combo_find rest cmin cmax
  end.

Definition GetComboCommandId (cmin cmax : CommandId) (st : ComboState) : CommandId * ComboState :=
  match combo_find (comboHash st) cmin cmax with
  | Some combocid => (combocid, st)
  | None =>
      let combocid := Z.of_nat (length (comboCids st)) in
      (combocid, mkComboState (comboCids st ++ [(cmin, cmax)]) ((cmin, cmax, combocid) :: comboHash st))
  end.

(** Returns the command id to store and whether it is a combo id. *)
Definition HeapTupleHeaderAdjustCmax (current : TransactionId -> bool) (tup : HeapTupleHeaderData)
    (cmax : CommandId) (st : ComboState) : CommandId * bool * ComboState :=
  if negb (HeapTupleHeaderXminCommitted tup) && current (HeapTupleHeaderGetRawXmin tup) then
    let cmin := HeapTupleHeaderGetCmin st tup in
    let '(combo, st) := GetComboCommandId cmin cmax st in
    (combo, true, st)
  else (cmax, false, st).

Definition AtEOXact_ComboCid (st : ComboState) : ComboState := empty_combo.

(** For a parallel worker the array is copied as 32-bit words: its length,
    then the pairs. *)
Definition EstimateComboCIDStateSpace (st : ComboState) : Z := 4 + 8 * Z.of_nat (length (comboCids st)).

(** [None] when there is not enough space ([elog(ERROR)]). *)
Definition SerializeComboCIDState (maxsize : Z) (st : ComboState) : option (list Z) :=
  let usedComboCids := Z.of_nat (length (comboCids st)) in
  if maxsize <? 4 + 8 * usedComboCids then None
  else Some (usedComboCids :: concat (map (fun key => [key.1; key.2]) (comboCids st))).

(** The loop of [RestoreComboCIDState]; [None] when an id is not the expected
    one ([elog(ERROR)]) or the words end too early. *)
Fixpoint restore_combos (num_elements : nat) (i : Z) (keydata : list Z) (st : ComboState) : option ComboState :=
  match num_elements, keydata with
  | O, _ => Some st
  | S n, cmin :: cmax :: keydata =>
      let '(cid, st) := GetComboCommandId cmin cmax st in
      if cid != i then None else restore_combos n (i + 1) keydata st
  | S _, _ => None
  end.

Definition RestoreComboCIDState (comboCIDstate : list Z) : option ComboState :=
  match comboCIDstate with
  | num_elements :: keydata => restore_combos (Z.to_nat num_elements) 0 keydata empty_combo
  | [] => None
  end.

(** ** Multixact members *)

Inductive MultiXactStatus :=
| MultiXactStatusForKeyShare
| MultiXactStatusForShare
| MultiXactStatusForNoKeyUpdate
| MultiXactStatusForUpdate
| MultiXactStatusNoKeyUpdate
| MultiXactStatusUpdate.

Definition ISUPDATE_from_mxstatus (status : MultiXactStatus) : bool :=
  match status with
  | MultiXactStatusNoKeyUpdate | MultiXactStatusUpdate => true
  | _ => false
  end.

Record MultiXactMember := mkMultiXactMember { mxm_xid : TransactionId; mxm_status : MultiXactStatus }.

(** The loop of [MultiXactIdGetUpdateXid]: the first updating member. *)
Fixpoint update_member (members : list MultiXactMember) : TransactionId :=
  match members with
  | [] => InvalidTransactionId
  | m :: rest => if ISUPDATE_from_mxstatus (mxm_status m) then mxm_xid m else update_member rest
  end.

(** ** Snapshots *)

Inductive SnapshotType :=
| SNAPSHOT_MVCC
| SNAPSHOT_SELF
| SNAPSHOT_ANY
| SNAPSHOT_TOAST
| SNAPSHOT_DIRTY
| SNAPSHOT_HISTORIC_MVCC
| SNAPSHOT_NON_VACUUMABLE.

(** The fields visibility reads; [xcnt] and [subxcnt] are list lengths. *)
Record SnapshotData := mkSnapshot {
  snapshot_type : SnapshotType;
  snap_xmin : TransactionId;
  snap_xmax : TransactionId;
  xip : list TransactionId;
  subxip : list TransactionId;
  suboverflowed : bool;
  takenDuringRecovery : bool;
  curcid : CommandId;
  speculativeToken : Z;
}.

Definition pg_lfind32 (key : Z) (base : list Z) : bool := existsb (fun x => x =? key) base.

Definition XidInMVCCSnapshot (SubTransGetTopmostTransaction : TransactionId -> TransactionId)
    (xid : TransactionId) (snapshot : SnapshotData) : bool :=
  if TransactionIdPrecedes xid (snap_xmin snapshot) then false
  else if TransactionIdFollowsOrEquals xid (snap_xmax snapshot) then true
  else if negb (takenDuringRecovery snapshot) then
    if negb (suboverflowed snapshot) then
      if pg_lfind32 xid (subxip snapshot) then true
      else if pg_lfind32 xid (xip snapshot) then true else false
    else
      let xid := SubTransGetTopmostTransaction xid in
      if TransactionIdPrecedes xid (snap_xmin snapshot) then false
      else if pg_lfind32 xid (xip snapshot) then true else false
  else
    if suboverflowed snapshot then
      let xid := SubTransGetTopmostTransaction xid in
      if TransactionIdPrecedes xid (snap_xmin snapshot) then false
      else if pg_lfind32 xid (subxip snapshot) then true else false
    else if pg_lfind32 xid (subxip snapshot) then true else false.

(** ** Lookups in a snapshot *)

Lemma pg_lfind32_elem x l : pg_lfind32 x l = true <-> x ∈ l.
Proof.
  unfold pg_lfind32. rewrite existsb_exists. split.
  - intros (y & Hy & ->%Z.eqb_eq). by apply list_elem_of_In.
  - intros Hx. exists x. split; [by apply list_elem_of_In|apply Z.eqb_refl].
Qed.

(** ** Flag words under hint bits *)

Lemma XminInvalid_flags tup :
  HeapTupleHeaderXminInvalid tup
  = negb (has_flag (t_infomask tup) HEAP_XMIN_COMMITTED) && has_flag (t_infomask tup) HEAP_XMIN_INVALID.
Proof.
  unfold HeapTupleHeaderXminInvalid. rewrite land_split by done.
  by rewrite (land_bit _ 9 ltac:(lia)).
Qed.

Lemma XminFrozen_flags tup :
  HeapTupleHeaderXminFrozen tup
  = has_flag (t_infomask tup) HEAP_XMIN_COMMITTED && has_flag (t_infomask tup) HEAP_XMIN_INVALID.
Proof.
  unfold HeapTupleHeaderXminFrozen. generalize (t_infomask tup) as m. intros m.
  pose proof (land_bit m 8 ltac:(lia)) as Hc. pose proof (land_bit m 9 ltac:(lia)) as Hi.
  change (2 ^ 8) with HEAP_XMIN_COMMITTED in Hc. change (2 ^ 9) with HEAP_XMIN_INVALID in Hi.
  rewrite <- Hc, <- Hi.
  apply eq_true_iff_eq. rewrite andb_true_iff, !Z.eqb_eq. unfold HEAP_XMIN_FROZEN. split.
  - intros H. split.
    + rewrite <- (Z.land_diag m) in H. apply (f_equal (fun z => Z.land z HEAP_XMIN_COMMITTED)) in H.
      rewrite <- Z.land_assoc in H. rewrite Z.land_diag in H.
      change (Z.land (Z.lor HEAP_XMIN_COMMITTED HEAP_XMIN_INVALID) HEAP_XMIN_COMMITTED) with HEAP_XMIN_COMMITTED in H.
      done.
    + apply (f_equal (fun z => Z.land z HEAP_XMIN_INVALID)) in H.
      rewrite <- Z.land_assoc in H.
      change (Z.land (Z.lor HEAP_XMIN_COMMITTED HEAP_XMIN_INVALID) HEAP_XMIN_INVALID) with HEAP_XMIN_INVALID in H.
      done.
  - intros [H1 H2]. by rewrite Z.land_lor_distr_r, H1, H2.
Qed.

(** The bits visibility checks may set on a tuple they only read. *)
Definition HINT_BITS : Z :=
  Z.lor (Z.lor HEAP_XMIN_COMMITTED HEAP_XMIN_INVALID) (Z.lor HEAP_XMAX_COMMITTED HEAP_XMAX_INVALID).

Lemma land_lor_disjoint m h mask : Z.land h mask = 0 -> Z.land (Z.lor m h) mask = Z.land m mask.
Proof. intros H. by rewrite Z.land_lor_distr_l, H, Z.lor_0_r. Qed.

Lemma locked_only_hint m h :
  Z.land h (Z.lor HEAP_XMAX_LOCK_ONLY (Z.lor HEAP_XMAX_IS_MULTI HEAP_LOCK_MASK)) = 0 ->
  HEAP_XMAX_IS_LOCKED_ONLY (Z.lor m h) = HEAP_XMAX_IS_LOCKED_ONLY m.
Proof.
  intros H. rewrite Z.land_lor_distr_r in H. apply Z.lor_eq_0_iff in H as [H1 H2].
  unfold HEAP_XMAX_IS_LOCKED_ONLY, has_flag. by rewrite !land_lor_disjoint.
Qed.

(** ** Multixacts *)

Lemma update_member_in ms : update_member ms = InvalidTransactionId \/ update_member ms ∈ map mxm_xid ms.
Proof.
  induction ms as [|m ms IH]; simpl; [by left|]. case_if; [right; set_solver|].
  destruct IH as [->|IH]; [by left|right; set_solver].
Qed.

(** ** Combo command ids keep their meaning *)

(** Each hash entry names the array slot that holds its pair. *)
Definition combo_inv (st : ComboState) : Prop :=
  Forall (fun '(cmin, cmax, combocid) =>
            0 <= combocid /\ comboCids st !! Z.to_nat combocid = Some (cmin, cmax)) (comboHash st).

Lemma combo_find_inv st cmin cmax c :
  combo_inv st -> combo_find (comboHash st) cmin cmax = Some c ->
  0 <= c /\ comboCids st !! Z.to_nat c = Some (cmin, cmax).
Proof.
  unfold combo_inv. generalize (comboHash st) as h. induction h as [|[[a b] c'] h IH]; simpl; [done|].
  intros H. apply Forall_cons in H as [H0 H]. case_if; [|by apply IH].
  intros [= ->]. bool_simpl. by subst.
Qed.

Lemma GetComboCommandId_spec cmin cmax st c st' :
  combo_inv st -> GetComboCommandId cmin cmax st = (c, st') ->
  combo_inv st' /\ 0 <= c < Z.of_nat (length (comboCids st'))
  /\ GetRealCmin st' c = cmin /\ GetRealCmax st' c = cmax
  /\ (forall c', 0 <= c' < Z.of_nat (length (comboCids st)) ->
        GetRealCmin st' c' = GetRealCmin st c' /\ GetRealCmax st' c' = GetRealCmax st c').
Proof.
  intros Hinv. unfold GetComboCommandId, GetRealCmin, GetRealCmax.
  destruct (combo_find (comboHash st) cmin cmax) as [c0|] eqn:Hf.
  - intros [= <- <-]. destruct (combo_find_inv _ _ _ _ Hinv Hf) as [H0 Hl].
    rewrite Hl. split_and!; try done. apply lookup_lt_Some in Hl. lia.
  - intros [= <- <-]. simpl. rewrite length_app. simpl. rewrite Nat2Z.id.
    rewrite lookup_app_r, Nat.sub_diag by lia. simpl. split_and!; try lia; try done.
    + unfold combo_inv. simpl. constructor.
      * split; [lia|]. rewrite Nat2Z.id, lookup_app_r, Nat.sub_diag by lia. done.
      * eapply Forall_impl; [exact Hinv|]. intros [[a b] d] [Hd Hl]. split; [done|].
        apply lookup_app_l_Some. done.
    + intros c' Hc. by rewrite lookup_app_l by lia.
Qed.

(** A combo command id stored in a tuple is one that was handed out. *)
Definition combo_ok (st : ComboState) (tup : HeapTupleHeaderData) : Prop :=
  has_flag (t_infomask tup) HEAP_COMBOCID = true -> 0 <= t_field3 tup < Z.of_nat (length (comboCids st)).

Lemma clear_combocid m : has_flag (Z.land m (Z.lnot HEAP_COMBOCID)) HEAP_COMBOCID = false.
Proof.
  unfold has_flag. rewrite <- Z.land_assoc, (Z.land_comm (Z.lnot _)), Z.land_lnot_diag, Z.land_0_r. done.
Qed.

(** C34. Deleting a tuple keeps both command ids readable: after the command id
    chosen by [HeapTupleHeaderAdjustCmax] is stored, the deleting command is
    [cmax]; if this transaction inserted the tuple, its inserting command is
    still the one read before; and the command ids of every other tuple are
    unchanged. *)
Theorem HeapTupleHeaderAdjustCmax_spec current tup cmax st :
  combo_inv st -> combo_ok st tup ->
  let '(cid, iscombo, st') := HeapTupleHeaderAdjustCmax current tup cmax st in
  let tup' := HeapTupleHeaderSetCmax tup cid iscombo in
  combo_inv st' /\ combo_ok st' tup'
  /\ HeapTupleHeaderGetCmax st' tup' = cmax
  /\ (HeapTupleHeaderXminCommitted tup = false -> current (HeapTupleHeaderGetRawXmin tup) = true ->
      HeapTupleHeaderGetCmin st' tup' = HeapTupleHeaderGetCmin st tup)
  /\ (forall other, combo_ok st other ->
        HeapTupleHeaderGetCmin st' other = HeapTupleHeaderGetCmin st other
        /\ HeapTupleHeaderGetCmax st' other = HeapTupleHeaderGetCmax st other).
Proof.
  intros Hinv Hok. unfold HeapTupleHeaderAdjustCmax.
  destruct (negb _ && _) eqn:Hown.
  - destruct (GetComboCommandId (HeapTupleHeaderGetCmin st tup) cmax st) as [c st'] eqn:Hg.
    destruct (GetComboCommandId_spec _ _ _ _ _ Hinv Hg) as (Hinv' & Hc & Hmin & Hmax & Hold).
    assert (Hcombo : has_flag (Z.lor (t_infomask tup) HEAP_COMBOCID) HEAP_COMBOCID = true)
      by (rewrite has_flag_lor; apply orb_true_r).
    unfold HeapTupleHeaderGetCmin, HeapTupleHeaderGetCmax, HeapTupleHeaderGetRawCommandId, combo_ok in *.
    cbn [HeapTupleHeaderSetCmax t_infomask t_field3]. rewrite Hcombo. split_and!; try done.
    intros other Ho. destruct (has_flag (t_infomask other) HEAP_COMBOCID); [|done].
    by apply Hold, Ho.
  - unfold HeapTupleHeaderGetCmax, HeapTupleHeaderGetRawCommandId, combo_ok in *.
    cbn [HeapTupleHeaderSetCmax t_infomask t_field3]. rewrite clear_combocid. split_and!; try done.
    intros Hc Hcur. rewrite Hc, Hcur in Hown. done.
Qed.

(** *** Copying the combo command ids to a parallel worker *)

(** The state after the pairs [l] have been entered in this order. *)
Definition combos_of (l : list (CommandId * CommandId)) : ComboState :=
  mkComboState l (rev (imap (fun i key => (key.1, key.2, Z.of_nat i)) l)).

Lemma combo_find_new l a b : (a, b) ∉ l -> combo_find (comboHash (combos_of l)) a b = None.
Proof.
  cbn [comboHash combos_of]. induction l as [|[a' b'] l IH] using rev_ind; intros Hn; [done|].
  rewrite imap_app, rev_app_distr. cbn. case_if; [|apply IH; set_solver].
  bool_simpl. subst. set_solver.
Qed.

Lemma GetComboCommandId_new l a b :
  (a, b) ∉ l -> GetComboCommandId a b (combos_of l) = (Z.of_nat (length l), combos_of (l ++ [(a, b)])).
Proof.
  intros Hn. unfold GetComboCommandId. rewrite combo_find_new by done. f_equal. unfold combos_of.
  cbn [comboCids comboHash]. f_equal. rewrite imap_app, rev_app_distr. cbn. by rewrite Nat.add_0_r.
Qed.

Lemma combo_find_found l a b c : combo_find (comboHash (combos_of l)) a b = Some c -> (a, b) ∈ l.
Proof.
  intros E. destruct (decide ((a, b) ∈ l)) as [|Hn]; [done|]. by rewrite combo_find_new in E.
Qed.

(** Every state that combo ids go through in a transaction is of this form. *)
Lemma GetComboCommandId_combos l a b :
  NoDup l -> exists l', (GetComboCommandId a b (combos_of l)).2 = combos_of l' /\ NoDup l'.
Proof.
  intros Hl. destruct (decide ((a, b) ∈ l)) as [Hin|Hn].
  - unfold GetComboCommandId. destruct (combo_find (comboHash (combos_of l)) a b) eqn:E; [by exists l|]. exfalso.
    revert Hin E. clear Hl. cbn [comboHash combos_of]. induction l as [|[a' b'] l IH] using rev_ind; [set_solver|].
    rewrite imap_app, rev_app_distr. cbn. intros [Hin|[= -> ->]%list_elem_of_singleton]%elem_of_app; [case_if; [done|by apply IH]|].
    by rewrite !Z.eqb_refl.
  - rewrite GetComboCommandId_new by done. exists (l ++ [(a, b)]). split; [done|].
    apply NoDup_app. split; [done|]. split; [set_solver|apply NoDup_singleton].
Qed.

(** A parallel worker gets the same combo ids. *)
Theorem combo_state_restored l maxsize :
  NoDup l -> EstimateComboCIDStateSpace (combos_of l) <= maxsize ->
  exists words, SerializeComboCIDState maxsize (combos_of l) = Some words /\ RestoreComboCIDState words = Some (combos_of l).
Proof.
  intros Hl Hm. unfold SerializeComboCIDState. unfold EstimateComboCIDStateSpace in Hm. cbn [comboCids combos_of] in *.
  rewrite (proj2 (Z.ltb_ge _ _) Hm). eexists. split; [reflexivity|]. unfold RestoreComboCIDState. rewrite Nat2Z.id.
  change empty_combo with (combos_of []). change 0 with (Z.of_nat (length (@nil (CommandId * CommandId)))).
  change (combos_of l) with (combos_of ([] ++ l)). change (NoDup ([] ++ l)) in Hl. clear Hm. revert Hl.
  generalize (@nil (CommandId * CommandId)). induction l as [|[a b] l IH]; intros l1 Hl; cbn; [by rewrite app_nil_r|].
  rewrite GetComboCommandId_new by (apply NoDup_app in Hl as (_ & H & _); set_solver).
  rewrite Z.eqb_refl. cbn [negb]. change ((a, b) :: l) with ([(a, b)] ++ l) in Hl |- *.
  rewrite (app_assoc l1) in Hl |- *. specialize (IH _ Hl). rewrite length_app, Nat2Z.inj_add in IH. exact IH.
Qed.

Definition fresh_tuple (xmin : TransactionId) (cid : CommandId) : HeapTupleHeaderData :=
  mkHeapTupleHeader xmin 0 cid (mkItemPointer 0 1) HEAP_XMAX_INVALID.

Lemma HeapTupleHeaderAdjustCmax_spec_witness :
  let '(cid, iscombo, st') := HeapTupleHeaderAdjustCmax (fun x => x =? 700) (fresh_tuple 700 3) 5 empty_combo in
  HeapTupleHeaderGetCmax st' (HeapTupleHeaderSetCmax (fresh_tuple 700 3) cid iscombo) = 5
  /\ HeapTupleHeaderGetCmin st' (HeapTupleHeaderSetCmax (fresh_tuple 700 3) cid iscombo) = 3.
Proof.
  pose proof (HeapTupleHeaderAdjustCmax_spec (fun x => x =? 700) (fresh_tuple 700 3) 5 empty_combo) as H.
  destruct (HeapTupleHeaderAdjustCmax _ _ _ _) as [[cid iscombo] st'].
  destruct H as (_ & _ & H1 & H2 & _).
  - constructor.
  - vm_compute. congruence.
  - split; [exact H1|]. apply H2; reflexivity.
Defined.
