(* ===== verification/Visibility.v ===== *)
(** * Visibility: the tuple visibility routines

    Models src/backend/access/heap/heapam_visibility.c.  A routine reads a
    tuple header in a shared buffer, may set hint bits in it, and asks the
    rest of the system about transactions.  Other backends run meanwhile, so
    the answers may change from one question to the next: the world is a
    function of time, and every question reads it at the current tick and
    advances the clock.

    The C functions are written in a state monad with early return:
    [Return r] is the C statement [return r]. *)

From S2P Require Import Prelude TransactionId HeapTuple.

(** ** What the routines ask *)

(** The state of the system at one instant, as seen by one backend. *)
Record World := mkWorld {
  IsCurrentTransactionId : TransactionId -> bool;
  IsInProgress : TransactionId -> bool;
  DidCommit : TransactionId -> bool;
  CommitLSN : TransactionId -> Z;
  NeedsFlush : Z -> bool;
  BufferLSN : Z;
  MultiXactMembers : MultiXactId -> bool -> list MultiXactMember;
  TopmostTransaction : TransactionId -> TransactionId;
  IsRemovableXid : TransactionId -> bool;
}.

(** What is fixed during a call: the time line, the persistence of the buffer,
    this transaction's combo command ids and, under logical decoding, the
    recorded command ids of a tuple. *)
Record Context_ := mkContext {
  world : nat -> World;
  BufferIsPermanent : bool;
  combos : ComboState;
  ResolveCminCmax : HeapTupleHeaderData -> option (CommandId * CommandId);
}.

Record VState := mkVState {
  v_tuple : HeapTupleHeaderData;
  v_snapshot : SnapshotData;
  v_dead_after : TransactionId;
  v_clock : nat;
  v_dirty : bool;  (** [MarkBufferDirtyHint] was called *)
}.

(** ** The monad *)

Definition M (R A : Type) : Type := Context_ -> VState -> (R + A) * VState.

Definition ret {R A} (a : A) : M R A := fun _ s => (inr a, s).
Definition bind {R A B} (m : M R A) (f : A -> M R B) : M R B :=
  fun c s => match m c s with
             | (inl r, s') => (inl r, s')
             | (inr a, s') => f a c s'
             end.

Declare Scope vis_scope.
Notation "'let*' x := m 'in' k" := (bind m (fun x => k))
  (at level 10, x name, m at level 100, k at level 200) : vis_scope.
Notation "m ';;' k" := (bind m (fun _ => k)) (at level 100, k at level 200, right associativity) : vis_scope.
Open Scope vis_scope.

Definition Return {R A} (r : R) : M R A := fun _ s => (inl r, s).

(** Run a function body; its last statement returns. *)
Definition call {R} (body : M R R) (c : Context_) (s : VState) : R * VState :=
  match body c s with (inl r, s') => (r, s') | (inr r, s') => (r, s') end.

(** Ask the world, at the current tick. *)
Definition query {R A} (q : World -> A) : M R A :=
  fun c s => (inr (q (world c (v_clock s))),
              mkVState (v_tuple s) (v_snapshot s) (v_dead_after s) (S (v_clock s)) (v_dirty s)).

Section Routines.
Context {R : Type}.

Definition get_tuple : M R HeapTupleHeaderData := fun _ s => (inr (v_tuple s), s).
Definition get_snapshot : M R SnapshotData := fun _ s => (inr (v_snapshot s), s).

Definition TransactionIdIsCurrentTransactionId (x : TransactionId) : M R bool :=
  query (fun w => IsCurrentTransactionId w x).
Definition TransactionIdIsInProgress (x : TransactionId) : M R bool := query (fun w => IsInProgress w x).
Definition q_DidCommit (x : TransactionId) : M R bool := query (fun w => DidCommit w x).
Definition q_XidInMVCCSnapshot (x : TransactionId) : M R bool :=
  let* snapshot := get_snapshot in query (fun w => XidInMVCCSnapshot (TopmostTransaction w) x snapshot).
Definition GlobalVisTestIsRemovableXid (x : TransactionId) : M R bool := query (fun w => IsRemovableXid w x).

Definition q_CommitLSN (x : TransactionId) : M R Z := query (fun w => CommitLSN w x).
Definition XLogNeedsFlush (lsn : Z) : M R bool := query (fun w => NeedsFlush w lsn).
Definition BufferGetLSNAtomic : M R Z := query BufferLSN.
Definition GetMultiXactIdMembers (multi : MultiXactId) (isLockOnly : bool) : M R (list MultiXactMember) :=
  query (fun w => MultiXactMembers w multi isLockOnly).

Definition set_hint (infomask : Z) : M R unit :=
  fun _ s => (inr tt, mkVState (set_infomask (v_tuple s) (Z.lor (t_infomask (v_tuple s)) infomask))
                        (v_snapshot s) (v_dead_after s) (v_clock s) true).

Definition is_permanent : M R bool := fun c s => (inr (BufferIsPermanent c), s).

Definition SetHintBits (infomask : Z) (xid : TransactionId) : M R unit :=
  if TransactionIdIsValid xid then
    let* commitLSN := q_CommitLSN xid in
    let* permanent := is_permanent in
    if negb permanent then set_hint infomask
    else
      let* needs := XLogNeedsFlush commitLSN in
      if negb needs then set_hint infomask
      else
        let* buflsn := BufferGetLSNAtomic in
        if buflsn <? commitLSN then ret tt else set_hint infomask
  else set_hint infomask.

Definition HeapTupleSetHintBits (infomask : Z) (xid : TransactionId) : M R unit := SetHintBits infomask xid.

(** [HeapTupleGetUpdateXid] and [MultiXactIdGetUpdateXid] *)
Definition HeapTupleGetUpdateXid : M R TransactionId :=
  let* tup := get_tuple in
  let* members := GetMultiXactIdMembers (HeapTupleHeaderGetRawXmax tup) false in
  ret (update_member members).

Definition HeapTupleHeaderGetUpdateXid : M R TransactionId :=
  let* tup := get_tuple in
  if negb (has_flag (t_infomask tup) HEAP_XMAX_INVALID)
     && has_flag (t_infomask tup) HEAP_XMAX_IS_MULTI
     && negb (has_flag (t_infomask tup) HEAP_XMAX_LOCK_ONLY)
  then HeapTupleGetUpdateXid
  else ret (HeapTupleHeaderGetRawXmax tup).

(** The two loops of [MultiXactIdIsRunning]. *)
Fixpoint any_member (q : TransactionId -> M R bool) (members : list MultiXactMember) : M R bool :=
  match members with
  | [] => ret false
  | m :: rest => let* b := q (mxm_xid m) in if b then ret true else any_member q rest
  end.

Definition MultiXactIdIsRunning (multi : MultiXactId) (isLockOnly : bool) : M R bool :=
  let* members := GetMultiXactIdMembers multi isLockOnly in
  let* mine := any_member TransactionIdIsCurrentTransactionId members in
  if mine then ret true else any_member TransactionIdIsInProgress members.

(** The blocks for tuples moved by a pre-9.0 VACUUM FULL; the routines differ
    in how they ask whether the vacuum is running and in the value returned. *)
Definition check_moved_off (running : TransactionId -> M R bool) (r : R) : M R unit :=
  let* tup := get_tuple in
  let xvac := HeapTupleHeaderGetXvac tup in
  let* cur := TransactionIdIsCurrentTransactionId xvac in
  if cur then Return r
  else
    let* inprog := running xvac in
    if negb inprog then
      let* committed := q_DidCommit xvac in
      if committed then SetHintBits HEAP_XMIN_INVALID InvalidTransactionId;; Return r
      else SetHintBits HEAP_XMIN_COMMITTED InvalidTransactionId
    else ret tt.

Definition check_moved_in (running : TransactionId -> M R bool) (r : R) : M R unit :=
  let* tup := get_tuple in
  let xvac := HeapTupleHeaderGetXvac tup in
  let* cur := TransactionIdIsCurrentTransactionId xvac in
  if negb cur then
    let* inprog := running xvac in
    if inprog then Return r
    else
      let* committed := q_DidCommit xvac in
      if committed then SetHintBits HEAP_XMIN_COMMITTED InvalidTransactionId
      else SetHintBits HEAP_XMIN_INVALID InvalidTransactionId;; Return r
  else ret tt.

End Routines.

(** ** HeapTupleSatisfiesSelf *)

(** The tuple was inserted by this transaction. *)
Definition Self_own_insert : M bool unit :=
  let* tup := get_tuple in
  if has_flag (t_infomask tup) HEAP_XMAX_INVALID then Return true
  else if HEAP_XMAX_IS_LOCKED_ONLY (t_infomask tup) then Return true
  else if has_flag (t_infomask tup) HEAP_XMAX_IS_MULTI then
    let* xmax := HeapTupleGetUpdateXid in
    let* cur := TransactionIdIsCurrentTransactionId xmax in
    if negb cur then Return true else Return false
  else
    let* cur := TransactionIdIsCurrentTransactionId (HeapTupleHeaderGetRawXmax tup) in
    if negb cur then SetHintBits HEAP_XMAX_INVALID InvalidTransactionId;; Return true
    else Return false.

Definition Self_xmin : M bool unit :=
  let* tup := get_tuple in
  if negb (HeapTupleHeaderXminCommitted tup) then
    if HeapTupleHeaderXminInvalid tup then Return false
    else if has_flag (t_infomask tup) HEAP_MOVED_OFF then check_moved_off TransactionIdIsInProgress false
    else if has_flag (t_infomask tup) HEAP_MOVED_IN then check_moved_in TransactionIdIsInProgress false
    else
      let* cur := TransactionIdIsCurrentTransactionId (HeapTupleHeaderGetRawXmin tup) in
      if cur then Self_own_insert
      else
        let* inprog := TransactionIdIsInProgress (HeapTupleHeaderGetRawXmin tup) in
        if inprog then Return false
        else
          let* committed := q_DidCommit (HeapTupleHeaderGetRawXmin tup) in
          if committed then SetHintBits HEAP_XMIN_COMMITTED (HeapTupleHeaderGetRawXmin tup)
          else SetHintBits HEAP_XMIN_INVALID InvalidTransactionId;; Return false
  else ret tt.

Definition Self_xmax : M bool bool :=
  let* tup := get_tuple in
  if has_flag (t_infomask tup) HEAP_XMAX_INVALID then Return true
  else if has_flag (t_infomask tup) HEAP_XMAX_COMMITTED then
    if HEAP_XMAX_IS_LOCKED_ONLY (t_infomask tup) then Return true else Return false
  else if has_flag (t_infomask tup) HEAP_XMAX_IS_MULTI then
    if HEAP_XMAX_IS_LOCKED_ONLY (t_infomask tup) then Return true
    else
      let* xmax := HeapTupleGetUpdateXid in
      let* cur := TransactionIdIsCurrentTransactionId xmax in
      if cur then Return false
      else
        let* inprog := TransactionIdIsInProgress xmax in
        if inprog then Return true
        else
          let* committed := q_DidCommit xmax in
          if committed then Return false else Return true
  else
    let* cur := TransactionIdIsCurrentTransactionId (HeapTupleHeaderGetRawXmax tup) in
    if cur then
      if HEAP_XMAX_IS_LOCKED_ONLY (t_infomask tup) then Return true else Return false
    else
      let* inprog := TransactionIdIsInProgress (HeapTupleHeaderGetRawXmax tup) in
      if inprog then Return true
      else
        let* committed := q_DidCommit (HeapTupleHeaderGetRawXmax tup) in
        if negb committed then SetHintBits HEAP_XMAX_INVALID InvalidTransactionId;; Return true
        else if HEAP_XMAX_IS_LOCKED_ONLY (t_infomask tup)
        then SetHintBits HEAP_XMAX_INVALID InvalidTransactionId;; Return true
        else SetHintBits HEAP_XMAX_COMMITTED (HeapTupleHeaderGetRawXmax tup);; Return false.

Definition HeapTupleSatisfiesSelf : M bool bool := Self_xmin;; Self_xmax.

Definition HeapTupleSatisfiesAny : M bool bool := Return true.

(** ** HeapTupleSatisfiesToast *)

Definition HeapTupleSatisfiesToast : M bool bool :=
  let* tup := get_tuple in
  (if negb (HeapTupleHeaderXminCommitted tup) then
     if HeapTupleHeaderXminInvalid tup then Return false
     else if has_flag (t_infomask tup) HEAP_MOVED_OFF then check_moved_off TransactionIdIsInProgress false
     else if has_flag (t_infomask tup) HEAP_MOVED_IN then check_moved_in TransactionIdIsInProgress false
     else if negb (TransactionIdIsValid (HeapTupleHeaderGetXmin tup)) then Return false
     else ret tt
   else ret tt);;
  Return true.

(** ** HeapTupleSatisfiesUpdate *)

Inductive TM_Result :=
| TM_Ok
| TM_Invisible
| TM_SelfModified
| TM_Updated
| TM_Deleted
| TM_BeingModified
| TM_WouldBlock.

Definition GetCmin {R} : M R CommandId :=
  fun c s => (inr (HeapTupleHeaderGetCmin (combos c) (v_tuple s)), s).
Definition GetCmax {R} : M R CommandId :=
  fun c s => (inr (HeapTupleHeaderGetCmax (combos c) (v_tuple s)), s).

(** Deleted by this transaction: before or after the scan started. *)
Definition Update_self_deleted {A} (cid : CommandId) : M TM_Result A :=
  let* cmax := GetCmax in
  if cid <=? cmax then Return TM_SelfModified else Return TM_Invisible.

Definition Update_own_insert (cid : CommandId) : M TM_Result unit :=
  let* tup := get_tuple in
  let* cmin := GetCmin in
  if cid <=? cmin then Return TM_Invisible
  else if has_flag (t_infomask tup) HEAP_XMAX_INVALID then Return TM_Ok
  else if HEAP_XMAX_IS_LOCKED_ONLY (t_infomask tup) then
    let xmax := HeapTupleHeaderGetRawXmax tup in
    if has_flag (t_infomask tup) HEAP_XMAX_IS_MULTI then
      let* running := MultiXactIdIsRunning xmax true in
      if running then Return TM_BeingModified else Return TM_Ok
    else
      let* inprog := TransactionIdIsInProgress xmax in
      if negb inprog then Return TM_Ok else Return TM_BeingModified
  else if has_flag (t_infomask tup) HEAP_XMAX_IS_MULTI then
    let* xmax := HeapTupleGetUpdateXid in
    let* cur := TransactionIdIsCurrentTransactionId xmax in
    if negb cur then
      let* running := MultiXactIdIsRunning (HeapTupleHeaderGetRawXmax tup) false in
      if running then Return TM_BeingModified else Return TM_Ok
    else Update_self_deleted cid
  else
    let* cur := TransactionIdIsCurrentTransactionId (HeapTupleHeaderGetRawXmax tup) in
    if negb cur then SetHintBits HEAP_XMAX_INVALID InvalidTransactionId;; Return TM_Ok
    else Update_self_deleted cid.

Definition Update_xmin (cid : CommandId) : M TM_Result unit :=
  let* tup := get_tuple in
  if negb (HeapTupleHeaderXminCommitted tup) then
    if HeapTupleHeaderXminInvalid tup then Return TM_Invisible
    else if has_flag (t_infomask tup) HEAP_MOVED_OFF then check_moved_off TransactionIdIsInProgress TM_Invisible
    else if has_flag (t_infomask tup) HEAP_MOVED_IN then check_moved_in TransactionIdIsInProgress TM_Invisible
    else
      let* cur := TransactionIdIsCurrentTransactionId (HeapTupleHeaderGetRawXmin tup) in
      if cur then Update_own_insert cid
      else
        let* inprog := TransactionIdIsInProgress (HeapTupleHeaderGetRawXmin tup) in
        if inprog then Return TM_Invisible
        else
          let* committed := q_DidCommit (HeapTupleHeaderGetRawXmin tup) in
          if committed then SetHintBits HEAP_XMIN_COMMITTED (HeapTupleHeaderGetRawXmin tup)
          else SetHintBits HEAP_XMIN_INVALID InvalidTransactionId;; Return TM_Invisible
  else ret tt.

(** A committed deleter: a newer version exists or not. *)
Definition Update_gone {A} (self : ItemPointerData) (tup : HeapTupleHeaderData) : M TM_Result A :=
  if negb (ItemPointerEquals self (t_ctid tup)) then Return TM_Updated else Return TM_Deleted.

Definition Update_xmax_multi {A} (self : ItemPointerData) (cid : CommandId) : M TM_Result A :=
  let* tup := get_tuple in
  let multi := HeapTupleHeaderGetRawXmax tup in
  if HEAP_LOCKED_UPGRADED (t_infomask tup) then Return TM_Ok
  else if HEAP_XMAX_IS_LOCKED_ONLY (t_infomask tup) then
    let* running := MultiXactIdIsRunning multi true in
    if running then Return TM_BeingModified
    else SetHintBits HEAP_XMAX_INVALID InvalidTransactionId;; Return TM_Ok
  else
    let* xmax := HeapTupleGetUpdateXid in
    (if negb (TransactionIdIsValid xmax) then
       let* running := MultiXactIdIsRunning multi false in
       if running then Return TM_BeingModified else ret tt
     else ret tt);;
    let* cur := TransactionIdIsCurrentTransactionId xmax in
    if cur then Update_self_deleted cid
    else
      let* running := MultiXactIdIsRunning multi false in
      if running then Return TM_BeingModified
      else
        let* committed := q_DidCommit xmax in
        if committed then Update_gone self tup
        else
          let* running := MultiXactIdIsRunning multi false in
          if negb running then SetHintBits HEAP_XMAX_INVALID InvalidTransactionId;; Return TM_Ok
          else Return TM_BeingModified.

Definition Update_xmax (self : ItemPointerData) (cid : CommandId) : M TM_Result TM_Result :=
  let* tup := get_tuple in
  if has_flag (t_infomask tup) HEAP_XMAX_INVALID then Return TM_Ok
  else if has_flag (t_infomask tup) HEAP_XMAX_COMMITTED then
    if HEAP_XMAX_IS_LOCKED_ONLY (t_infomask tup) then Return TM_Ok else Update_gone self tup
  else if has_flag (t_infomask tup) HEAP_XMAX_IS_MULTI then
    Update_xmax_multi self cid
  else
    let* cur := TransactionIdIsCurrentTransactionId (HeapTupleHeaderGetRawXmax tup) in
    if cur then
      if HEAP_XMAX_IS_LOCKED_ONLY (t_infomask tup) then Return TM_BeingModified
      else Update_self_deleted cid
    else
      let* inprog := TransactionIdIsInProgress (HeapTupleHeaderGetRawXmax tup) in
      if inprog then Return TM_BeingModified
      else
        let* committed := q_DidCommit (HeapTupleHeaderGetRawXmax tup) in
        if negb committed then SetHintBits HEAP_XMAX_INVALID InvalidTransactionId;; Return TM_Ok
        else if HEAP_XMAX_IS_LOCKED_ONLY (t_infomask tup)
        then SetHintBits HEAP_XMAX_INVALID InvalidTransactionId;; Return TM_Ok
        else SetHintBits HEAP_XMAX_COMMITTED (HeapTupleHeaderGetRawXmax tup);; Update_gone self tup.

Definition HeapTupleSatisfiesUpdate (self : ItemPointerData) (cid : CommandId) : M TM_Result TM_Result :=
  Update_xmin cid;; Update_xmax self cid.

(** ** HeapTupleSatisfiesDirty *)

Definition set_snapshot {R} (f : SnapshotData -> SnapshotData) : M R unit :=
  fun _ s => (inr tt, mkVState (v_tuple s) (f (v_snapshot s)) (v_dead_after s) (v_clock s) (v_dirty s)).

Definition with_xmin (x : TransactionId) (sn : SnapshotData) : SnapshotData :=
  mkSnapshot (snapshot_type sn) x (snap_xmax sn) (xip sn) (subxip sn) (suboverflowed sn)
    (takenDuringRecovery sn) (curcid sn) (speculativeToken sn).
Definition with_xmax (x : TransactionId) (sn : SnapshotData) : SnapshotData :=
  mkSnapshot (snapshot_type sn) (snap_xmin sn) x (xip sn) (subxip sn) (suboverflowed sn)
    (takenDuringRecovery sn) (curcid sn) (speculativeToken sn).
Definition with_token (t : Z) (sn : SnapshotData) : SnapshotData :=
  mkSnapshot (snapshot_type sn) (snap_xmin sn) (snap_xmax sn) (xip sn) (subxip sn) (suboverflowed sn)
    (takenDuringRecovery sn) (curcid sn) t.

Definition Dirty_xmin : M bool unit :=
  set_snapshot (fun sn => with_token 0 (with_xmin InvalidTransactionId (with_xmax InvalidTransactionId sn)));;
  let* tup := get_tuple in
  if negb (HeapTupleHeaderXminCommitted tup) then
    if HeapTupleHeaderXminInvalid tup then Return false
    else if has_flag (t_infomask tup) HEAP_MOVED_OFF then check_moved_off TransactionIdIsInProgress false
    else if has_flag (t_infomask tup) HEAP_MOVED_IN then check_moved_in TransactionIdIsInProgress false
    else
      let* cur := TransactionIdIsCurrentTransactionId (HeapTupleHeaderGetRawXmin tup) in
      if cur then Self_own_insert
      else
        let* inprog := TransactionIdIsInProgress (HeapTupleHeaderGetRawXmin tup) in
        if inprog then
          (if HeapTupleHeaderIsSpeculative tup
           then set_snapshot (with_token (HeapTupleHeaderGetSpeculativeToken tup)) else ret tt);;
          set_snapshot (with_xmin (HeapTupleHeaderGetRawXmin tup));;
          Return true
        else
          let* committed := q_DidCommit (HeapTupleHeaderGetRawXmin tup) in
          if committed then SetHintBits HEAP_XMIN_COMMITTED (HeapTupleHeaderGetRawXmin tup)
          else SetHintBits HEAP_XMIN_INVALID InvalidTransactionId;; Return false
  else ret tt.

Definition Dirty_xmax : M bool bool :=
  let* tup := get_tuple in
  if has_flag (t_infomask tup) HEAP_XMAX_INVALID then Return true
  else if has_flag (t_infomask tup) HEAP_XMAX_COMMITTED then
    if HEAP_XMAX_IS_LOCKED_ONLY (t_infomask tup) then Return true else Return false
  else if has_flag (t_infomask tup) HEAP_XMAX_IS_MULTI then
    if HEAP_XMAX_IS_LOCKED_ONLY (t_infomask tup) then Return true
    else
      let* xmax := HeapTupleGetUpdateXid in
      let* cur := TransactionIdIsCurrentTransactionId xmax in
      if cur then Return false
      else
        let* inprog := TransactionIdIsInProgress xmax in
        if inprog then set_snapshot (with_xmax xmax);; Return true
        else
          let* committed := q_DidCommit xmax in
          if committed then Return false else Return true
  else
    let* cur := TransactionIdIsCurrentTransactionId (HeapTupleHeaderGetRawXmax tup) in
    if cur then
      if HEAP_XMAX_IS_LOCKED_ONLY (t_infomask tup) then Return true else Return false
    else
      let* inprog := TransactionIdIsInProgress (HeapTupleHeaderGetRawXmax tup) in
      if inprog then
        (if negb (HEAP_XMAX_IS_LOCKED_ONLY (t_infomask tup))
         then set_snapshot (with_xmax (HeapTupleHeaderGetRawXmax tup)) else ret tt);;
        Return true
      else
        let* committed := q_DidCommit (HeapTupleHeaderGetRawXmax tup) in
        if negb committed then SetHintBits HEAP_XMAX_INVALID InvalidTransactionId;; Return true
        else if HEAP_XMAX_IS_LOCKED_ONLY (t_infomask tup)
        then SetHintBits HEAP_XMAX_INVALID InvalidTransactionId;; Return true
        else SetHintBits HEAP_XMAX_COMMITTED (HeapTupleHeaderGetRawXmax tup);; Return false.

Definition HeapTupleSatisfiesDirty : M bool bool := Dirty_xmin;; Dirty_xmax.

(** ** HeapTupleSatisfiesMVCC *)

(** Deleted by this transaction: visible if the deletion is not before the
    snapshot's command. *)
Definition MVCC_self_deleted {A} : M bool A :=
  let* snapshot := get_snapshot in
  let* cmax := GetCmax in
  if curcid snapshot <=? cmax then Return true else Return false.

Definition MVCC_own_insert : M bool unit :=
  let* tup := get_tuple in
  let* snapshot := get_snapshot in
  let* cmin := GetCmin in
  if curcid snapshot <=? cmin then Return false
  else if has_flag (t_infomask tup) HEAP_XMAX_INVALID then Return true
  else if HEAP_XMAX_IS_LOCKED_ONLY (t_infomask tup) then Return true
  else if has_flag (t_infomask tup) HEAP_XMAX_IS_MULTI then
    let* xmax := HeapTupleGetUpdateXid in
    let* cur := TransactionIdIsCurrentTransactionId xmax in
    if negb cur then Return true else MVCC_self_deleted
  else
    let* cur := TransactionIdIsCurrentTransactionId (HeapTupleHeaderGetRawXmax tup) in
    if negb cur then SetHintBits HEAP_XMAX_INVALID InvalidTransactionId;; Return true
    else MVCC_self_deleted.

Definition MVCC_xmin : M bool unit :=
  let* tup := get_tuple in
  if negb (HeapTupleHeaderXminCommitted tup) then
    if HeapTupleHeaderXminInvalid tup then Return false
    else if has_flag (t_infomask tup) HEAP_MOVED_OFF then check_moved_off q_XidInMVCCSnapshot false
    else if has_flag (t_infomask tup) HEAP_MOVED_IN then check_moved_in q_XidInMVCCSnapshot false
    else
      let* cur := TransactionIdIsCurrentTransactionId (HeapTupleHeaderGetRawXmin tup) in
      if cur then MVCC_own_insert
      else
        let* insnap := q_XidInMVCCSnapshot (HeapTupleHeaderGetRawXmin tup) in
        if insnap then Return false
        else
          let* committed := q_DidCommit (HeapTupleHeaderGetRawXmin tup) in
          if committed then SetHintBits HEAP_XMIN_COMMITTED (HeapTupleHeaderGetRawXmin tup)
          else SetHintBits HEAP_XMIN_INVALID InvalidTransactionId;; Return false
  else if negb (HeapTupleHeaderXminFrozen tup) then
    let* insnap := q_XidInMVCCSnapshot (HeapTupleHeaderGetRawXmin tup) in
    if insnap then Return false else ret tt
  else ret tt.

Definition MVCC_xmax : M bool bool :=
  let* tup := get_tuple in
  if has_flag (t_infomask tup) HEAP_XMAX_INVALID then Return true
  else if HEAP_XMAX_IS_LOCKED_ONLY (t_infomask tup) then Return true
  else if has_flag (t_infomask tup) HEAP_XMAX_IS_MULTI then
    let* xmax := HeapTupleGetUpdateXid in
    let* cur := TransactionIdIsCurrentTransactionId xmax in
    if cur then MVCC_self_deleted
    else
      let* insnap := q_XidInMVCCSnapshot xmax in
      if insnap then Return true
      else
        let* committed := q_DidCommit xmax in
        if committed then Return false else Return true
  else if negb (has_flag (t_infomask tup) HEAP_XMAX_COMMITTED) then
    let* cur := TransactionIdIsCurrentTransactionId (HeapTupleHeaderGetRawXmax tup) in
    if cur then MVCC_self_deleted
    else
      let* insnap := q_XidInMVCCSnapshot (HeapTupleHeaderGetRawXmax tup) in
      if insnap then Return true
      else
        let* committed := q_DidCommit (HeapTupleHeaderGetRawXmax tup) in
        if negb committed then SetHintBits HEAP_XMAX_INVALID InvalidTransactionId;; Return true
        else SetHintBits HEAP_XMAX_COMMITTED (HeapTupleHeaderGetRawXmax tup);; Return false
  else
    let* insnap := q_XidInMVCCSnapshot (HeapTupleHeaderGetRawXmax tup) in
    if insnap then Return true else Return false.

Definition HeapTupleSatisfiesMVCC : M bool bool := MVCC_xmin;; MVCC_xmax.

(** ** HeapTupleSatisfiesVacuum *)

Inductive HTSV_Result :=
| HEAPTUPLE_DEAD
| HEAPTUPLE_LIVE
| HEAPTUPLE_RECENTLY_DEAD
| HEAPTUPLE_INSERT_IN_PROGRESS
| HEAPTUPLE_DELETE_IN_PROGRESS.

Definition set_dead_after {R} (x : TransactionId) : M R unit :=
  fun _ s => (inr tt, mkVState (v_tuple s) (v_snapshot s) x (v_clock s) (v_dirty s)).

Definition HeapTupleHeaderIsOnlyLocked {R} : M R bool :=
  let* tup := get_tuple in
  if has_flag (t_infomask tup) HEAP_XMAX_INVALID then ret true
  else if has_flag (t_infomask tup) HEAP_XMAX_LOCK_ONLY then ret true
  else if negb (TransactionIdIsValid (HeapTupleHeaderGetRawXmax tup)) then ret true
  else if negb (has_flag (t_infomask tup) HEAP_XMAX_IS_MULTI) then ret false
  else
    let* xmax := HeapTupleGetUpdateXid in
    let* cur := TransactionIdIsCurrentTransactionId xmax in
    if cur then ret false
    else
      let* inprog := TransactionIdIsInProgress xmax in
      if inprog then ret false
      else
        let* committed := q_DidCommit xmax in
        if committed then ret false else ret true.

Definition Vacuum_moved_off : M HTSV_Result unit :=
  let* tup := get_tuple in
  let xvac := HeapTupleHeaderGetXvac tup in
  let* cur := TransactionIdIsCurrentTransactionId xvac in
  if cur then Return HEAPTUPLE_DELETE_IN_PROGRESS
  else
    let* inprog := TransactionIdIsInProgress xvac in
    if inprog then Return HEAPTUPLE_DELETE_IN_PROGRESS
    else
      let* committed := q_DidCommit xvac in
      if committed then SetHintBits HEAP_XMIN_INVALID InvalidTransactionId;; Return HEAPTUPLE_DEAD
      else SetHintBits HEAP_XMIN_COMMITTED InvalidTransactionId.

Definition Vacuum_moved_in : M HTSV_Result unit :=
  let* tup := get_tuple in
  let xvac := HeapTupleHeaderGetXvac tup in
  let* cur := TransactionIdIsCurrentTransactionId xvac in
  if cur then Return HEAPTUPLE_INSERT_IN_PROGRESS
  else
    let* inprog := TransactionIdIsInProgress xvac in
    if inprog then Return HEAPTUPLE_INSERT_IN_PROGRESS
    else
      let* committed := q_DidCommit xvac in
      if committed then SetHintBits HEAP_XMIN_COMMITTED InvalidTransactionId
      else SetHintBits HEAP_XMIN_INVALID InvalidTransactionId;; Return HEAPTUPLE_DEAD.

Definition Vacuum_own_insert : M HTSV_Result unit :=
  let* tup := get_tuple in
  if has_flag (t_infomask tup) HEAP_XMAX_INVALID then Return HEAPTUPLE_INSERT_IN_PROGRESS
  else if HEAP_XMAX_IS_LOCKED_ONLY (t_infomask tup) then Return HEAPTUPLE_INSERT_IN_PROGRESS
  else
    let* onlylocked := HeapTupleHeaderIsOnlyLocked in
    if onlylocked then Return HEAPTUPLE_INSERT_IN_PROGRESS
    else
      let* xmax := HeapTupleHeaderGetUpdateXid in
      let* cur := TransactionIdIsCurrentTransactionId xmax in
      if cur then Return HEAPTUPLE_DELETE_IN_PROGRESS else Return HEAPTUPLE_INSERT_IN_PROGRESS.

Definition Vacuum_xmin : M HTSV_Result unit :=
  set_dead_after InvalidTransactionId;;
  let* tup := get_tuple in
  if negb (HeapTupleHeaderXminCommitted tup) then
    if HeapTupleHeaderXminInvalid tup then Return HEAPTUPLE_DEAD
    else if has_flag (t_infomask tup) HEAP_MOVED_OFF then Vacuum_moved_off
    else if has_flag (t_infomask tup) HEAP_MOVED_IN then Vacuum_moved_in
    else
      let* cur := TransactionIdIsCurrentTransactionId (HeapTupleHeaderGetRawXmin tup) in
      if cur then Vacuum_own_insert
      else
        let* inprog := TransactionIdIsInProgress (HeapTupleHeaderGetRawXmin tup) in
        if inprog then Return HEAPTUPLE_INSERT_IN_PROGRESS
        else
          let* committed := q_DidCommit (HeapTupleHeaderGetRawXmin tup) in
          if committed then SetHintBits HEAP_XMIN_COMMITTED (HeapTupleHeaderGetRawXmin tup)
          else SetHintBits HEAP_XMIN_INVALID InvalidTransactionId;; Return HEAPTUPLE_DEAD
  else ret tt.

Definition Vacuum_xmax_locked : M HTSV_Result HTSV_Result :=
  let* tup := get_tuple in
  (if negb (has_flag (t_infomask tup) HEAP_XMAX_COMMITTED) then
     if has_flag (t_infomask tup) HEAP_XMAX_IS_MULTI then
       (if negb (HEAP_LOCKED_UPGRADED (t_infomask tup)) then
          let* running := MultiXactIdIsRunning (HeapTupleHeaderGetRawXmax tup) true in
          if running then Return HEAPTUPLE_LIVE else ret tt
        else ret tt);;
       SetHintBits HEAP_XMAX_INVALID InvalidTransactionId
     else
       let* inprog := TransactionIdIsInProgress (HeapTupleHeaderGetRawXmax tup) in
       if inprog then Return HEAPTUPLE_LIVE
       else SetHintBits HEAP_XMAX_INVALID InvalidTransactionId
   else ret tt);;
  Return HEAPTUPLE_LIVE.

Definition Vacuum_xmax_multi : M HTSV_Result HTSV_Result :=
  let* tup := get_tuple in
  let* xmax := HeapTupleGetUpdateXid in
  let* inprog := TransactionIdIsInProgress xmax in
  if inprog then Return HEAPTUPLE_DELETE_IN_PROGRESS
  else
    let* committed := q_DidCommit xmax in
    if committed then set_dead_after xmax;; Return HEAPTUPLE_RECENTLY_DEAD
    else
      let* running := MultiXactIdIsRunning (HeapTupleHeaderGetRawXmax tup) false in
      (if negb running then SetHintBits HEAP_XMAX_INVALID InvalidTransactionId else ret tt);;
      Return HEAPTUPLE_LIVE.

Definition Vacuum_xmax : M HTSV_Result HTSV_Result :=
  let* tup := get_tuple in
  if has_flag (t_infomask tup) HEAP_XMAX_INVALID then Return HEAPTUPLE_LIVE
  else if HEAP_XMAX_IS_LOCKED_ONLY (t_infomask tup) then Vacuum_xmax_locked
  else if has_flag (t_infomask tup) HEAP_XMAX_IS_MULTI then Vacuum_xmax_multi
  else
    (if negb (has_flag (t_infomask tup) HEAP_XMAX_COMMITTED) then
       let* inprog := TransactionIdIsInProgress (HeapTupleHeaderGetRawXmax tup) in
       if inprog then Return HEAPTUPLE_DELETE_IN_PROGRESS
       else
         let* committed := q_DidCommit (HeapTupleHeaderGetRawXmax tup) in
         if committed then SetHintBits HEAP_XMAX_COMMITTED (HeapTupleHeaderGetRawXmax tup)
         else SetHintBits HEAP_XMAX_INVALID InvalidTransactionId;; Return HEAPTUPLE_LIVE
     else ret tt);;
    set_dead_after (HeapTupleHeaderGetRawXmax tup);;
    Return HEAPTUPLE_RECENTLY_DEAD.

Definition HeapTupleSatisfiesVacuumHorizon : M HTSV_Result HTSV_Result := Vacuum_xmin;; Vacuum_xmax.

(** Calling one routine from another: its returns do not return for us. *)
Definition invoke {R S} (body : M S S) : M R S :=
  fun c s => let '(r, s') := call body c s in (inr r, s').

Definition get_dead_after {R} : M R TransactionId := fun _ s => (inr (v_dead_after s), s).

Definition HeapTupleSatisfiesVacuum (OldestXmin : TransactionId) : M HTSV_Result HTSV_Result :=
  let* res := invoke HeapTupleSatisfiesVacuumHorizon in
  match res with
  | HEAPTUPLE_RECENTLY_DEAD =>
      let* dead_after := get_dead_after in
      if TransactionIdPrecedes dead_after OldestXmin then Return HEAPTUPLE_DEAD else Return res
  | _ => Return res
  end.

Definition HeapTupleSatisfiesNonVacuumable : M bool bool :=
  let* res := invoke HeapTupleSatisfiesVacuumHorizon in
  match res with
  | HEAPTUPLE_RECENTLY_DEAD =>
      let* dead_after := get_dead_after in
      let* removable := GlobalVisTestIsRemovableXid dead_after in
      if removable then Return false else Return true
  | HEAPTUPLE_DEAD => Return false
  | _ => Return true
  end.

Definition HeapTupleIsSurelyDead : M bool bool :=
  let* tup := get_tuple in
  if negb (HeapTupleHeaderXminCommitted tup) then Return (HeapTupleHeaderXminInvalid tup)
  else if has_flag (t_infomask tup) HEAP_XMAX_INVALID then Return false
  else if HEAP_XMAX_IS_LOCKED_ONLY (t_infomask tup) then Return false
  else if has_flag (t_infomask tup) HEAP_XMAX_IS_MULTI then Return false
  else if negb (has_flag (t_infomask tup) HEAP_XMAX_COMMITTED) then Return false
  else
    let* removable := GlobalVisTestIsRemovableXid (HeapTupleHeaderGetRawXmax tup) in
    Return removable.

(** ** HeapTupleSatisfiesHistoricMVCC *)

(** [bsearch] over an array sorted with [xidComparator]. *)
Definition TransactionIdInArray (xid : TransactionId) (xip : list TransactionId) : bool :=
  (0 <? Z.of_nat (length xip)) && existsb (fun x => x =? xid) xip.

Definition ResolveCminCmaxDuringDecoding {R} : M R (option (CommandId * CommandId)) :=
  fun c s => (inr (ResolveCminCmax c (v_tuple s)), s).

Definition Historic_xmin : M bool unit :=
  let* tup := get_tuple in
  let* snapshot := get_snapshot in
  let xmin := HeapTupleHeaderGetXmin tup in
  if HeapTupleHeaderXminInvalid tup then Return false
  else if TransactionIdInArray xmin (subxip snapshot) then
    let* resolved := ResolveCminCmaxDuringDecoding in
    match resolved with
    | None => Return false
    | Some (cmin, _) => if curcid snapshot <=? cmin then Return false else ret tt
    end
  else if TransactionIdPrecedes xmin (snap_xmin snapshot) then
    if negb (HeapTupleHeaderXminCommitted tup) then
      let* committed := q_DidCommit xmin in
      if negb committed then Return false else ret tt
    else ret tt
  else if TransactionIdFollowsOrEquals xmin (snap_xmax snapshot) then Return false
  else if TransactionIdInArray xmin (xip snapshot) then ret tt
  else Return false.

Definition Historic_xmax : M bool bool :=
  let* tup := get_tuple in
  let* snapshot := get_snapshot in
  if has_flag (t_infomask tup) HEAP_XMAX_INVALID then Return true
  else if HEAP_XMAX_IS_LOCKED_ONLY (t_infomask tup) then Return true
  else
    let* xmax := (if has_flag (t_infomask tup) HEAP_XMAX_IS_MULTI then HeapTupleGetUpdateXid
                  else ret (HeapTupleHeaderGetRawXmax tup)) in
    if TransactionIdInArray xmax (subxip snapshot) then
      let* resolved := ResolveCminCmaxDuringDecoding in
      match resolved with
      | None => Return true
      | Some (_, cmax) =>
          if cmax =? InvalidCommandId then Return true
          else if curcid snapshot <=? cmax then Return true else Return false
      end
    else if TransactionIdPrecedes xmax (snap_xmin snapshot) then
      if has_flag (t_infomask tup) HEAP_XMAX_COMMITTED then Return false
      else
        let* committed := q_DidCommit xmax in
        Return (negb committed)
    else if TransactionIdFollowsOrEquals xmax (snap_xmax snapshot) then Return true
    else if TransactionIdInArray xmax (xip snapshot) then Return false
    else Return true.

Definition HeapTupleSatisfiesHistoricMVCC : M bool bool := Historic_xmin;; Historic_xmax.

(** ** The dispatcher *)

Definition HeapTupleSatisfiesVisibility : M bool bool :=
  let* snapshot := get_snapshot in
  match snapshot_type snapshot with
  | SNAPSHOT_MVCC => HeapTupleSatisfiesMVCC
  | SNAPSHOT_SELF => HeapTupleSatisfiesSelf
  | SNAPSHOT_ANY => HeapTupleSatisfiesAny
  | SNAPSHOT_TOAST => HeapTupleSatisfiesToast
  | SNAPSHOT_DIRTY => HeapTupleSatisfiesDirty
  | SNAPSHOT_HISTORIC_MVCC => HeapTupleSatisfiesHistoricMVCC
  | SNAPSHOT_NON_VACUUMABLE => HeapTupleSatisfiesNonVacuumable
  end.
