(* ===== verification/VisLogic.v ===== *)
(** * VisLogic: reasoning about the visibility routines

    Weakest preconditions for the monad of Visibility, the laws the rest of the
    system obeys over time, and the soundness of hint bits: whatever other
    backends do during a call, a routine only ever sets hint bits that are
    true and stay true. *)

From S2P Require Import Prelude TransactionId HeapTuple Visibility.

Open Scope vis_scope.

(** ** Weakest preconditions *)

Definition wp {R A} (c : Context_) (m : M R A) (s : VState) (Q : R + A -> VState -> Prop) : Prop :=
  Q (m c s).1 (m c s).2.

Lemma wp_ret {R A} c (a : A) s (Q : R + A -> VState -> Prop) : Q (inr a) s -> wp c (ret a) s Q.
Proof. done. Qed.

Lemma wp_Return {R A} c (r : R) s (Q : R + A -> VState -> Prop) : Q (inl r) s -> wp c (Return r) s Q.
Proof. done. Qed.

Lemma wp_bind {R A B} c (m : M R A) (f : A -> M R B) s (Q : R + B -> VState -> Prop) :
  wp c m s (fun r s' => match r with inl r => Q (inl r) s' | inr a => wp c (f a) s' Q end) ->
  wp c (bind m f) s Q.
Proof. unfold wp, bind. by destruct (m c s) as [[r|a] s']. Qed.

Lemma wp_mono {R A} c (m : M R A) s (P Q : R + A -> VState -> Prop) :
  wp c m s P -> (forall r s', P r s' -> Q r s') -> wp c m s Q.
Proof. unfold wp. auto. Qed.

Definition tick (s : VState) : VState :=
  mkVState (v_tuple s) (v_snapshot s) (v_dead_after s) (S (v_clock s)) (v_dirty s).

Lemma wp_query {R A} c (q : World -> A) s (Q : R + A -> VState -> Prop) :
  Q (inr (q (world c (v_clock s)))) (tick s) -> wp c (query q) s Q.
Proof. done. Qed.

Lemma wp_get_tuple {R} c s (Q : R + _ -> VState -> Prop) : Q (inr (v_tuple s)) s -> wp c get_tuple s Q.
Proof. done. Qed.

Lemma wp_get_snapshot {R} c s (Q : R + _ -> VState -> Prop) :
  Q (inr (v_snapshot s)) s -> wp c get_snapshot s Q.
Proof. done. Qed.

Lemma wp_call {R} c (m : M R R) s (Q : R -> VState -> Prop) :
  wp c m s (fun r s' => match r with inl r => Q r s' | inr r => Q r s' end) ->
  Q (call m c s).1 (call m c s).2.
Proof. unfold wp, call. by destruct (m c s) as [[r|a] s']. Qed.

Definition add_hint (h : Z) (tup : HeapTupleHeaderData) : HeapTupleHeaderData :=
  set_infomask tup (Z.lor (t_infomask tup) h).

(** [SetHintBits] sets the bits or, when the commit record may not be on disk
    yet, leaves the tuple alone. *)
Lemma wp_SetHintBits {R} c h x s (Q : R + unit -> VState -> Prop) :
  (forall s', (v_clock s <= v_clock s')%nat -> v_snapshot s' = v_snapshot s ->
     v_dead_after s' = v_dead_after s -> v_tuple s' = v_tuple s \/ v_tuple s' = add_hint h (v_tuple s) ->
     Q (inr tt) s') ->
  wp c (SetHintBits h x) s Q.
Proof.
  intros HQ. unfold SetHintBits. destruct (TransactionIdIsValid x).
  - apply wp_bind, wp_query, wp_bind. unfold wp at 1. simpl.
    destruct (BufferIsPermanent c); simpl.
    + apply wp_bind, wp_query. case_if; [apply HQ; simpl; auto with lia|].
      apply wp_bind, wp_query. case_if; apply HQ; simpl; auto with lia.
    + apply HQ; simpl; auto with lia.
  - apply HQ; simpl; auto with lia.
Qed.

(** ** The world over time *)

(** Laws of the transaction system for the xids in [Started], those assigned
    before the call: commits are permanent, a transaction seen not running has
    its final fate, the caller's own transactions are not committed, and
    multixacts and parent links do not change. *)
Class TimeLaws (W : nat -> World) (Started : TransactionId -> Prop) : Prop := {
  commit_stable : forall t t' x, (t <= t')%nat -> DidCommit (W t) x = true -> DidCommit (W t') x = true;
  finished_fixed : forall t t' t'' x, Started x -> IsInProgress (W t) x = false ->
    (t <= t')%nat -> (t <= t'')%nat -> DidCommit (W t') x = DidCommit (W t'') x;
  current_fixed : forall t t' x, IsCurrentTransactionId (W t) x = IsCurrentTransactionId (W t') x;
  current_uncommitted : forall t x, IsCurrentTransactionId (W t) x = true -> DidCommit (W t) x = false;
  members_fixed : forall t t' m b, MultiXactMembers (W t) m b = MultiXactMembers (W t') m b;
  topmost_fixed : forall t t' x, TopmostTransaction (W t) x = TopmostTransaction (W t') x;
  invalid_uncommitted : forall t, DidCommit (W t) InvalidTransactionId = false;
}.

(** A snapshot taken no later than [t0]: a transaction it does not show as
    running, other than the caller's own, had finished by then. *)
Definition snapshot_law (W : nat -> World) (t0 : nat) (sn : SnapshotData) : Prop :=
  forall x t t', XidInMVCCSnapshot (TopmostTransaction (W t0)) x sn = false ->
    IsCurrentTransactionId (W t0) x = false -> (t0 <= t)%nat -> (t0 <= t')%nat ->
    DidCommit (W t) x = DidCommit (W t') x.

Section Laws.
Context (W : nat -> World) (Started : TransactionId -> Prop) `{!TimeLaws W Started}.

(** Final fates. *)
Definition aborted_from (t : nat) (x : TransactionId) : Prop :=
  forall t', (t <= t')%nat -> DidCommit (W t') x = false.

Definition settled (t : nat) (x : TransactionId) (b : bool) : Prop :=
  if b then DidCommit (W t) x = true else aborted_from t x.

Lemma settled_mono t t' x b : (t <= t')%nat -> settled t x b -> settled t' x b.
Proof.
  intros Hle. destruct b; simpl; [by apply commit_stable|]. intros H t1 H1. apply H. lia.
Qed.

Lemma invalid_aborted t : aborted_from t InvalidTransactionId.
Proof. intros t' _. apply invalid_uncommitted. Qed.

(** Seen not running, then looked up in the log: the answer is final. *)
Lemma lookup_final t t' x :
  Started x -> IsInProgress (W t) x = false -> (t <= t')%nat -> settled t' x (DidCommit (W t') x).
Proof.
  intros Hs Hr Hle. destruct (DidCommit (W t') x) eqn:Hd; simpl; [done|].
  intros t1 H1. rewrite <- Hd. apply (finished_fixed t); try done; lia.
Qed.

Lemma snapshot_final t0 t x sn :
  snapshot_law W t0 sn -> XidInMVCCSnapshot (TopmostTransaction (W t0)) x sn = false ->
  IsCurrentTransactionId (W t0) x = false -> (t0 <= t)%nat -> settled t x (DidCommit (W t) x).
Proof.
  intros Hl Hin Hc Hle. destruct (DidCommit (W t) x) eqn:Hd; simpl; [done|].
  intros t1 H1. rewrite <- Hd. apply Hl; try done; lia.
Qed.

(** ** Meaning of the hint bits *)

Definition moved_off (tup : HeapTupleHeaderData) : bool := has_flag (t_infomask tup) HEAP_MOVED_OFF.
Definition moved (tup : HeapTupleHeaderData) : bool :=
  moved_off tup || has_flag (t_infomask tup) HEAP_MOVED_IN.

(** The transaction that decides whether the tuple was ever inserted, and the
    outcome of it that means it was. *)
Definition insert_xid (tup : HeapTupleHeaderData) : TransactionId :=
  if moved tup then t_field3 tup else t_xmin tup.
Definition insert_if (tup : HeapTupleHeaderData) : bool := negb (moved_off tup).

(** The transaction that deleted or updated the tuple, if it is not only locked. *)
Definition delete_xid (tup : HeapTupleHeaderData) : TransactionId :=
  if has_flag (t_infomask tup) HEAP_XMAX_IS_MULTI
  then update_member (MultiXactMembers (W 0) (t_xmax tup) false) else t_xmax tup.

Definition locked_only (tup : HeapTupleHeaderData) : bool := HEAP_XMAX_IS_LOCKED_ONLY (t_infomask tup).

Record hints_sound (t : nat) (tup : HeapTupleHeaderData) : Prop := {
  xmin_committed_sound :
    has_flag (t_infomask tup) HEAP_XMIN_COMMITTED = true ->
    has_flag (t_infomask tup) HEAP_XMIN_INVALID = false -> settled t (insert_xid tup) (insert_if tup);
  xmin_invalid_sound :
    has_flag (t_infomask tup) HEAP_XMIN_COMMITTED = false ->
    has_flag (t_infomask tup) HEAP_XMIN_INVALID = true -> settled t (insert_xid tup) (negb (insert_if tup));
  xmax_invalid_sound :
    has_flag (t_infomask tup) HEAP_XMAX_INVALID = true ->
    locked_only tup = true \/ settled t (delete_xid tup) false;
  xmax_committed_sound :
    has_flag (t_infomask tup) HEAP_XMAX_COMMITTED = true ->
    has_flag (t_infomask tup) HEAP_XMAX_INVALID = true \/ locked_only tup = true
    \/ settled t (delete_xid tup) true;
}.

Lemma hints_sound_mono t t' tup : (t <= t')%nat -> hints_sound t tup -> hints_sound t' tup.
Proof.
  intros Hle [H1 H2 H3 H4]. split; intros.
  - eapply settled_mono; eauto.
  - eapply settled_mono; eauto.
  - destruct H3; [done|by left|right]. eapply settled_mono; eauto.
  - destruct H4 as [?|[?|?]]; auto. right. right. eapply settled_mono; eauto.
Qed.

(** ** Setting a hint *)

Definition is_hint (h : Z) : Prop :=
  h = HEAP_XMIN_COMMITTED \/ h = HEAP_XMIN_INVALID \/ h = HEAP_XMAX_COMMITTED \/ h = HEAP_XMAX_INVALID.

(** Closed flag tests are evaluated. *)
Ltac flag_eval_hint h :=
  repeat match goal with
  | |- context [has_flag h ?f] =>
      let v := eval vm_compute in (has_flag h f) in change (has_flag h f) with v
  end.
Ltac flag_eval :=
  flag_eval_hint HEAP_XMIN_COMMITTED; flag_eval_hint HEAP_XMIN_INVALID;
  flag_eval_hint HEAP_XMAX_COMMITTED; flag_eval_hint HEAP_XMAX_INVALID;
  rewrite ?orb_false_r, ?orb_true_r.

Lemma add_hint_flag h tup f :
  has_flag (t_infomask (add_hint h tup)) f = has_flag (t_infomask tup) f || has_flag h f.
Proof. apply has_flag_lor. Qed.

Ltac hint_cases H := destruct H as [->|[->|[->| ->]]].

Lemma moved_off_hint h tup : is_hint h -> moved_off (add_hint h tup) = moved_off tup.
Proof. intros H. unfold moved_off. rewrite add_hint_flag. hint_cases H; by flag_eval. Qed.

Lemma moved_hint h tup : is_hint h -> moved (add_hint h tup) = moved tup.
Proof.
  intros H. unfold moved. rewrite moved_off_hint, add_hint_flag by done. hint_cases H; by flag_eval.
Qed.

Lemma insert_xid_hint h tup : is_hint h -> insert_xid (add_hint h tup) = insert_xid tup.
Proof. intros H. unfold insert_xid. by rewrite moved_hint. Qed.

Lemma insert_if_hint h tup : is_hint h -> insert_if (add_hint h tup) = insert_if tup.
Proof. intros H. unfold insert_if. by rewrite moved_off_hint. Qed.

Lemma delete_xid_hint h tup : is_hint h -> delete_xid (add_hint h tup) = delete_xid tup.
Proof. intros H. unfold delete_xid. rewrite add_hint_flag. hint_cases H; by flag_eval. Qed.

Lemma locked_only_add_hint h tup : is_hint h -> locked_only (add_hint h tup) = locked_only tup.
Proof. intros H. apply locked_only_hint. hint_cases H; done. Qed.

(** When a hint may be set. *)
Definition hint_ok (t : nat) (tup : HeapTupleHeaderData) (h : Z) : Prop :=
  (h = HEAP_XMIN_COMMITTED /\ has_flag (t_infomask tup) HEAP_XMIN_INVALID = false
     /\ settled t (insert_xid tup) (insert_if tup))
  \/ (h = HEAP_XMIN_INVALID /\ has_flag (t_infomask tup) HEAP_XMIN_COMMITTED = false
      /\ settled t (insert_xid tup) (negb (insert_if tup)))
  \/ (h = HEAP_XMAX_INVALID /\ (locked_only tup = true \/ settled t (delete_xid tup) false))
  \/ (h = HEAP_XMAX_COMMITTED /\ (locked_only tup = true \/ settled t (delete_xid tup) true)).

Lemma hint_ok_is_hint t tup h : hint_ok t tup h -> is_hint h.
Proof. unfold hint_ok, is_hint. tauto. Qed.

Lemma hints_sound_add t tup h : hints_sound t tup -> hint_ok t tup h -> hints_sound t (add_hint h tup).
Proof.
  intros [H1 H2 H3 H4] Hok. assert (Hh := hint_ok_is_hint _ _ _ Hok).
  split; rewrite ?insert_xid_hint, ?insert_if_hint, ?delete_xid_hint, ?locked_only_add_hint, !add_hint_flag by done;
    destruct Hok as [(-> & Ha & Hb)|[(-> & Ha & Hb)|[(-> & Hb)|(-> & Hb)]]]; flag_eval; intros; auto; tauto || congruence.
Qed.

(** Only hint bits have changed. *)
Definition hint_ext (tup tup' : HeapTupleHeaderData) : Prop :=
  t_xmin tup' = t_xmin tup /\ t_xmax tup' = t_xmax tup /\ t_field3 tup' = t_field3 tup
  /\ t_ctid tup' = t_ctid tup
  /\ exists h, t_infomask tup' = Z.lor (t_infomask tup) h /\ Z.land h (Z.lnot HINT_BITS) = 0.

Lemma hint_ext_refl tup : hint_ext tup tup.
Proof. split_and!; try done. exists 0. split; [by rewrite Z.lor_0_r|done]. Qed.

Lemma hint_ext_add tup tup' h : hint_ext tup tup' -> is_hint h -> hint_ext tup (add_hint h tup').
Proof.
  intros (? & ? & ? & ? & g & Hg & Hz) Hh. split_and!; try done.
  exists (Z.lor g h). simpl. rewrite Hg, Z.lor_assoc. split; [done|].
  rewrite Z.land_lor_distr_l, Hz. hint_cases Hh; done.
Qed.

(** ** What the tuple's xids refer to *)

Definition startedz (x : TransactionId) : Prop := Started x \/ x = InvalidTransactionId.

Record tuple_ok (t : nat) (tup : HeapTupleHeaderData) : Prop := {
  ok_insert : startedz (insert_xid tup);
  ok_xmax : has_flag (t_infomask tup) HEAP_XMAX_IS_MULTI = false -> startedz (t_xmax tup);
  ok_members : has_flag (t_infomask tup) HEAP_XMAX_IS_MULTI = true ->
    forall b, Forall (fun m => Started (mxm_xid m)) (MultiXactMembers (W 0) (t_xmax tup) b);
  (** a tuple inserted by this transaction is deleted by it or not at all *)
  ok_own : IsCurrentTransactionId (W t) (t_xmin tup) = true -> moved tup = false ->
    locked_only tup = false -> IsCurrentTransactionId (W t) (delete_xid tup) = false ->
    aborted_from t (delete_xid tup);
}.

Lemma tuple_ok_hint t tup h : is_hint h -> tuple_ok t tup -> tuple_ok t (add_hint h tup).
Proof.
  intros Hh [H1 H2 H3 H4].
  assert (Hm : has_flag (t_infomask (add_hint h tup)) HEAP_XMAX_IS_MULTI = has_flag (t_infomask tup) HEAP_XMAX_IS_MULTI).
  { rewrite add_hint_flag. hint_cases Hh; by flag_eval. }
  split; rewrite ?Hm, ?insert_xid_hint, ?moved_hint, ?locked_only_add_hint, ?delete_xid_hint by done; auto.
Qed.

Lemma delete_xid_started t tup : tuple_ok t tup -> startedz (delete_xid tup).
Proof.
  intros [_ H2 H3 _]. unfold delete_xid. destruct (has_flag (t_infomask tup) HEAP_XMAX_IS_MULTI) eqn:Hm.
  - destruct (update_member_in (MultiXactMembers (W 0) (t_xmax tup) false)) as [->|Hin]; [by right|left].
    specialize (H3 eq_refl false). rewrite Forall_forall in H3.
    apply list_elem_of_fmap in Hin as (m & -> & Hm'). by apply H3.
  - by apply H2.
Qed.

Lemma lookup_finalz t t' x :
  startedz x -> IsInProgress (W t) x = false -> (t <= t')%nat -> settled t' x (DidCommit (W t') x).
Proof.
  intros [Hs| ->] Hr Hle; [by eapply lookup_final|].
  rewrite invalid_uncommitted. apply invalid_aborted.
Qed.

(** ** The invariant of a routine *)

Record vinv (tup0 : HeapTupleHeaderData) (t0 : nat) (P : SnapshotData -> Prop) (s : VState) : Prop := {
  vi_sound : hints_sound (v_clock s) (v_tuple s);
  vi_ok : tuple_ok (v_clock s) (v_tuple s);
  vi_ext : hint_ext tup0 (v_tuple s);
  vi_time : (t0 <= v_clock s)%nat;
  vi_snap : P (v_snapshot s);
}.

Lemma tuple_ok_mono t t' tup : (t <= t')%nat -> tuple_ok t tup -> tuple_ok t' tup.
Proof.
  intros Hle [H1 H2 H3 H4]. split; auto. intros Hc Hm Hl Hx.
  rewrite (current_fixed t' t) in Hc, Hx. intros t1 Ht1. apply (H4 Hc Hm Hl Hx). lia.
Qed.

Lemma vinv_step tup0 t0 P s s' :
  vinv tup0 t0 P s -> (v_clock s <= v_clock s')%nat -> v_tuple s' = v_tuple s -> P (v_snapshot s') ->
  vinv tup0 t0 P s'.
Proof.
  intros [H1 H2 H3 H4 H5] Hle Ht Hs. split; rewrite ?Ht; eauto using hints_sound_mono, tuple_ok_mono. lia.
Qed.

Lemma vinv_tick tup0 t0 P s : vinv tup0 t0 P s -> vinv tup0 t0 P (tick s).
Proof. intros H. apply (vinv_step _ _ _ s); simpl; [done|lia|done|by destruct H]. Qed.

Lemma vinv_hint tup0 t0 P s s' h :
  vinv tup0 t0 P s -> (v_clock s <= v_clock s')%nat -> v_snapshot s' = v_snapshot s ->
  v_tuple s' = v_tuple s \/ v_tuple s' = add_hint h (v_tuple s) ->
  hint_ok (v_clock s) (v_tuple s) h -> vinv tup0 t0 P s'.
Proof.
  intros [H1 H2 H3 H4 H5] Hle Hs Ht Hok. assert (Hh := hint_ok_is_hint _ _ _ Hok).
  destruct Ht as [Ht|Ht]; split; rewrite ?Ht, ?Hs;
    eauto using hints_sound_mono, tuple_ok_mono, hints_sound_add, tuple_ok_hint, hint_ext_add; lia.
Qed.

End Laws.

(** ** Symbolic execution *)

Ltac wp_step :=
  lazymatch goal with
  | |- wp _ (bind _ _) _ _ => apply wp_bind
  | |- wp _ (Return _) _ _ => apply wp_Return
  | |- wp _ (ret _) _ _ => apply wp_ret
  | |- wp _ get_tuple _ _ => apply wp_get_tuple
  | |- wp _ get_snapshot _ _ => apply wp_get_snapshot
  | |- wp _ (query _) _ _ => apply wp_query
  | |- wp _ (TransactionIdIsCurrentTransactionId _) _ _ => apply wp_query
  | |- wp _ (TransactionIdIsInProgress _) _ _ => apply wp_query
  | |- wp _ (q_DidCommit _) _ _ => apply wp_query
  | |- wp _ (GetMultiXactIdMembers _ _) _ _ => apply wp_query
  | |- wp _ (GlobalVisTestIsRemovableXid _) _ _ => apply wp_query
  | |- wp _ (if ?b then _ else _) _ _ => destruct b eqn:?
  end; cbn beta iota.

Lemma XidInMVCCSnapshot_ext f g x sn :
  (forall y, f y = g y) -> XidInMVCCSnapshot f x sn = XidInMVCCSnapshot g x sn.
Proof. intros H. unfold XidInMVCCSnapshot. by rewrite !H. Qed.

Section Sound.
Context (c : Context_) (Started : TransactionId -> Prop) `{!TimeLaws (world c) Started}.
Abbreviation W := (world c).

(** A way of asking whether a transaction is running: a negative answer means
    its fate is final. *)
Definition running_ok {R} (P : SnapshotData -> Prop) (t0 : nat) (running : TransactionId -> M R bool) : Prop :=
  forall tup0 s x (Q : R + bool -> VState -> Prop),
    vinv W Started tup0 t0 P s -> startedz Started x -> IsCurrentTransactionId (W (v_clock s)) x = false ->
    (forall b s', vinv W Started tup0 t0 P s' -> v_tuple s' = v_tuple s -> (v_clock s <= v_clock s')%nat ->
       (b = false -> forall t, (v_clock s' <= t)%nat -> settled W t x (DidCommit (W t) x)) -> Q (inr b) s') ->
    wp c (running x) s Q.

Lemma in_progress_running_ok {R} P t0 : running_ok (R := R) P t0 TransactionIdIsInProgress.
Proof.
  intros tup0 s x Q Hi Hx Hc HQ. apply wp_query, HQ; [by apply vinv_tick|done|simpl; lia|].
  intros Hb t Ht. eapply lookup_finalz; eauto. simpl in Ht. lia.
Qed.

Lemma in_snapshot_running_ok {R} (P : SnapshotData -> Prop) t0 :
  (forall sn, P sn -> snapshot_law W t0 sn) -> running_ok (R := R) P t0 q_XidInMVCCSnapshot.
Proof.
  intros Hl tup0 s x Q Hi Hx Hc HQ. unfold q_XidInMVCCSnapshot. wp_step. wp_step.
  apply wp_query, HQ; [by apply vinv_tick|done|simpl; lia|].
  intros Hb t Ht. destruct Hi as [_ _ _ H4 H5]. simpl in Ht.
  eapply (snapshot_final W t0); [by apply Hl| |by rewrite (current_fixed t0 (v_clock s))|lia].
  rewrite <- Hb. apply XidInMVCCSnapshot_ext. intros y. apply (topmost_fixed t0 (v_clock s)).
Qed.

Section Routine.
Context (tup0 : HeapTupleHeaderData) (t0 : nat) (P : SnapshotData -> Prop).
Abbreviation inv := (vinv W Started tup0 t0 P).

(** Hint setting keeps the invariant; stated for use at a leaf. *)
Lemma wp_hint {R} h x s (Q : R + unit -> VState -> Prop) :
  inv s -> hint_ok W (v_clock s) (v_tuple s) h -> (forall s', inv s' -> Q (inr tt) s') ->
  wp c (SetHintBits h x) s Q.
Proof. intros Hi Hok HQ. apply wp_SetHintBits. intros s' Hle Hs _ Ht. apply HQ. by eapply vinv_hint. Qed.

Lemma GetXvac_moved tup : moved tup = true -> HeapTupleHeaderGetXvac tup = insert_xid tup.
Proof.
  unfold HeapTupleHeaderGetXvac, insert_xid, HEAP_MOVED, moved, moved_off.
  rewrite has_flag_lor_r. by intros ->.
Qed.

(** No xmin hint is set yet. *)
Definition xmin_unknown (tup : HeapTupleHeaderData) : Prop :=
  has_flag (t_infomask tup) HEAP_XMIN_COMMITTED = false
  /\ has_flag (t_infomask tup) HEAP_XMIN_INVALID = false.

Lemma hint_xmin t tup b h :
  xmin_unknown tup -> settled W t (insert_xid tup) b ->
  h = (if Bool.eqb b (insert_if tup) then HEAP_XMIN_COMMITTED else HEAP_XMIN_INVALID) ->
  hint_ok W t tup h.
Proof.
  intros [Hc Hi] Hs ->. unfold hint_ok. destruct b, (insert_if tup); simpl in *; tauto.
Qed.

Lemma hint_xmax t tup (b : bool) h :
  locked_only tup = true /\ h = HEAP_XMAX_INVALID
  \/ settled W t (delete_xid W tup) b /\ h = (if b then HEAP_XMAX_COMMITTED else HEAP_XMAX_INVALID) ->
  hint_ok W t tup h.
Proof.
  unfold hint_ok. intros [[Hl ->]|[Hs ->]]; [tauto|]. destruct b; simpl in *; tauto.
Qed.

(** The fate of [x] is final from now on. *)
Definition final_now (s : VState) (x : TransactionId) : Prop :=
  forall t, (v_clock s <= t)%nat -> settled W t x (DidCommit (W t) x).

(** A lookup in the log that can be relied on. *)
Lemma wp_lookup {R} x s (Q : R + bool -> VState -> Prop) :
  inv s -> final_now s x ->
  (forall b s', inv s' -> v_tuple s' = v_tuple s -> settled W (v_clock s') x b -> Q (inr b) s') ->
  wp c (q_DidCommit x) s Q.
Proof.
  intros Hi Hf HQ. apply wp_query, HQ; [by apply vinv_tick|done|].
  eapply (settled_mono W Started); [|apply Hf; exact (Nat.le_refl _)]. simpl. lia.
Qed.

Context {R : Type} (running : TransactionId -> M R bool).
Hypothesis (Hrun : running_ok P t0 running).

(** Ask whether [x] is current, then whether it is running: on [No] its fate is
    final. *)
Lemma wp_current x s (Q : R + bool -> VState -> Prop) :
  inv s ->
  (forall b s', inv s' -> v_tuple s' = v_tuple s -> IsCurrentTransactionId (W (v_clock s')) x = b -> Q (inr b) s') ->
  wp c (TransactionIdIsCurrentTransactionId x) s Q.
Proof.
  intros Hi HQ. apply wp_query, HQ; [by apply vinv_tick|done|]. apply current_fixed.
Qed.

Lemma wp_running x s (Q : R + bool -> VState -> Prop) :
  inv s -> startedz Started x -> IsCurrentTransactionId (W (v_clock s)) x = false ->
  (forall b s', inv s' -> v_tuple s' = v_tuple s -> (b = false -> final_now s' x) -> Q (inr b) s') ->
  wp c (running x) s Q.
Proof.
  intros Hi Hx Hc HQ. apply (Hrun tup0); [done..|]. intros b s' Hi' Ht Hle Hf. apply HQ; [done|done|].
  intros Hb t Htt. by apply Hf.
Qed.

Lemma insert_started s : inv s -> startedz Started (insert_xid (v_tuple s)).
Proof. intros [_ [H _ _ _] _ _ _]. exact H. Qed.

Lemma moved_off_sound r s :
  inv s -> moved_off (v_tuple s) = true -> xmin_unknown (v_tuple s) ->
  wp c (check_moved_off running r) s (fun _ s' => inv s').
Proof using Hrun TimeLaws0.
  intros Hi Hm Hu. unfold check_moved_off.
  assert (Hmv : moved (v_tuple s) = true) by (unfold moved; by rewrite Hm).
  assert (Hif : insert_if (v_tuple s) = false) by (unfold insert_if; by rewrite Hm).
  wp_step. wp_step. rewrite (GetXvac_moved _ Hmv).
  wp_step. apply wp_current; [done|]. intros cur s1 Hi1 Ht1 Hc1. wp_step; [by wp_step|subst cur].
  wp_step. apply wp_running; [done|rewrite <- Ht1; by apply insert_started|done|].
  intros b s2 Hi2 Ht2 Hf2. wp_step; [|by wp_step].
  wp_step. apply wp_lookup; [done|apply Hf2; by destruct b|].
  intros b3 s3 Hi3 Ht3 Hs3. rewrite <- Ht1, <- Ht2, <- Ht3 in *.
  destruct b3.
  - wp_step. eapply wp_hint; [done| |intros s4 Hi4; by wp_step].
    by eapply (hint_xmin _ _ true); [| |rewrite Hif].
  - eapply wp_hint; [done| |done]. by eapply (hint_xmin _ _ false); [| |rewrite Hif].
Qed.

Lemma moved_in_sound r s :
  inv s -> moved_off (v_tuple s) = false -> moved (v_tuple s) = true -> xmin_unknown (v_tuple s) ->
  wp c (check_moved_in running r) s (fun _ s' => inv s').
Proof using Hrun TimeLaws0.
  intros Hi Hm Hmv Hu. unfold check_moved_in.
  assert (Hif : insert_if (v_tuple s) = true) by (unfold insert_if; by rewrite Hm).
  wp_step. wp_step. rewrite (GetXvac_moved _ Hmv).
  wp_step. apply wp_current; [done|]. intros cur s1 Hi1 Ht1 Hc1. wp_step; [|by wp_step].
  wp_step. apply wp_running; [done|rewrite <- Ht1; by apply insert_started|by destruct cur|].
  intros b s2 Hi2 Ht2 Hf2. wp_step; [by wp_step|].
  wp_step. apply wp_lookup; [done|apply Hf2; by destruct b|].
  intros b3 s3 Hi3 Ht3 Hs3. rewrite <- Ht1, <- Ht2, <- Ht3 in *.
  destruct b3.
  - eapply wp_hint; [done| |done]. by eapply (hint_xmin _ _ true); [| |rewrite Hif].
  - wp_step. eapply wp_hint; [done| |intros s4 Hi4; by wp_step].
    by eapply (hint_xmin _ _ false); [| |rewrite Hif].
Qed.

(** ** Rules that keep track of the tuple *)

Definition at_tuple (tup : HeapTupleHeaderData) (s : VState) : Prop := inv s /\ v_tuple s = tup.

Lemma final_now_mono s s' x : (v_clock s <= v_clock s')%nat -> final_now s x -> final_now s' x.
Proof. intros Hle H t Ht. apply H. lia. Qed.

Lemma at_tick tup s : at_tuple tup s -> at_tuple tup (tick s).
Proof. intros [Hi Ht]. split; [by apply vinv_tick|done]. Qed.

Lemma at_current tup x s (Q : R + bool -> VState -> Prop) :
  at_tuple tup s ->
  (forall b s', at_tuple tup s' -> v_snapshot s' = v_snapshot s -> (v_clock s <= v_clock s')%nat ->
     IsCurrentTransactionId (W 0) x = b -> Q (inr b) s') ->
  wp c (TransactionIdIsCurrentTransactionId x) s Q.
Proof.
  intros Ha HQ. apply wp_query, HQ; [by apply at_tick|done|simpl; lia|]. apply current_fixed.
Qed.

Lemma at_in_progress tup x s (Q : R + bool -> VState -> Prop) :
  at_tuple tup s ->
  (forall b s', at_tuple tup s' -> v_snapshot s' = v_snapshot s -> (v_clock s <= v_clock s')%nat ->
     (b = false -> startedz Started x -> final_now s' x) -> Q (inr b) s') ->
  wp c (TransactionIdIsInProgress x) s Q.
Proof.
  intros Ha HQ. apply wp_query, HQ; [by apply at_tick|done|simpl; lia|].
  intros Hb Hx t Ht. eapply lookup_finalz; eauto. simpl in Ht. lia.
Qed.

Lemma at_lookup tup x s (Q : R + bool -> VState -> Prop) :
  at_tuple tup s ->
  (forall b s', at_tuple tup s' -> v_snapshot s' = v_snapshot s -> (v_clock s <= v_clock s')%nat ->
     (final_now s x -> settled W (v_clock s') x b) -> Q (inr b) s') ->
  wp c (q_DidCommit x) s Q.
Proof.
  intros Ha HQ. apply wp_query, HQ; [by apply at_tick|done|simpl; lia|]. intros Hf.
  eapply (settled_mono W Started); [|apply Hf; exact (Nat.le_refl _)]. simpl. lia.
Qed.

Lemma at_update_xid tup s (Q : R + TransactionId -> VState -> Prop) :
  at_tuple tup s -> has_flag (t_infomask tup) HEAP_XMAX_IS_MULTI = true ->
  (forall s', at_tuple tup s' -> v_snapshot s' = v_snapshot s -> (v_clock s <= v_clock s')%nat ->
     Q (inr (delete_xid W tup)) s') ->
  wp c HeapTupleGetUpdateXid s Q.
Proof.
  intros Ha Hm HQ. unfold HeapTupleGetUpdateXid. wp_step. wp_step. wp_step. wp_step. wp_step.
  replace (update_member _) with (delete_xid W tup).
  - apply HQ; [by apply at_tick|done|simpl; lia].
  - unfold delete_xid. rewrite Hm. destruct Ha as [_ <-]. by rewrite (members_fixed 0 (v_clock s)).
Qed.

Lemma at_any_member (q : TransactionId -> M R bool) (f : TransactionId -> VState -> Prop) tup ms s
    (Q : R + bool -> VState -> Prop) :
  (forall x s1 s2, (v_clock s1 <= v_clock s2)%nat -> f x s1 -> f x s2) ->
  (forall x s1 (Q1 : R + bool -> VState -> Prop), at_tuple tup s1 ->
     (forall b s', at_tuple tup s' -> v_snapshot s' = v_snapshot s1 -> (v_clock s1 <= v_clock s')%nat ->
        (b = false -> f x s') -> Q1 (inr b) s') -> wp c (q x) s1 Q1) ->
  at_tuple tup s ->
  (forall b s', at_tuple tup s' -> v_snapshot s' = v_snapshot s -> (v_clock s <= v_clock s')%nat ->
     (b = false -> Forall (fun m => f (mxm_xid m) s') ms) -> Q (inr b) s') ->
  wp c (any_member q ms) s Q.
Proof.
  intros Hmono Hq. revert s Q. induction ms as [|m ms IH]; intros s Q Ha HQ; simpl.
  - apply wp_ret, HQ; auto.
  - wp_step. apply Hq; [done|]. intros b s1 Ha1 Hs1 Hle1 Hb1. destruct b.
    + wp_step. apply HQ; [done|done|done|done].
    + apply IH; [done|]. intros b s2 Ha2 Hs2 Hle2 Hb2. apply HQ; [done|congruence|lia|].
      intros Hb. constructor; [|by apply Hb2]. eapply Hmono; [exact Hle2|]. by apply Hb1.
Qed.

(** [MultiXactIdIsRunning] says no: the fate of every member is final. *)
Lemma at_multi_running tup multi b0 s (Q : R + bool -> VState -> Prop) :
  at_tuple tup s ->
  (forall b s', at_tuple tup s' -> v_snapshot s' = v_snapshot s -> (v_clock s <= v_clock s')%nat ->
     (b = false -> Forall (fun m => startedz Started (mxm_xid m) -> final_now s' (mxm_xid m))
                     (MultiXactMembers (W 0) multi b0)) -> Q (inr b) s') ->
  wp c (MultiXactIdIsRunning multi b0) s Q.
Proof.
  intros Ha HQ. unfold MultiXactIdIsRunning. wp_step. wp_step. wp_step.
  rewrite (members_fixed (v_clock s) 0). set (ms := MultiXactMembers (W 0) multi b0).
  apply (at_any_member _ (fun _ _ => True) tup); [done| |by apply at_tick|].
  { intros x s1 Q1 Ha1 HQ1. eapply at_current; [done|]. auto. }
  intros b s1 Ha1 Hs1 Hle1 _. simpl in Hle1. destruct b.
  - wp_step. apply HQ; [done|done|lia|done].
  - apply (at_any_member _ (fun x s => startedz Started x -> final_now s x) tup); [| |done|].
    + intros x s2 s3 Hle H Hx. eapply final_now_mono; eauto.
    + intros x s2 Q1 Ha2 HQ1. eapply at_in_progress; [done|]. auto.
    + intros b s2 Ha2 Hs2 Hle2 Hb. apply HQ; [done|simpl in *; congruence|lia|done].
Qed.

(** The updating member's fate is final when no member runs. *)
Lemma delete_xid_final tup s :
  tuple_ok W Started (v_clock s) tup -> has_flag (t_infomask tup) HEAP_XMAX_IS_MULTI = true ->
  Forall (fun m => startedz Started (mxm_xid m) -> final_now s (mxm_xid m)) (MultiXactMembers (W 0) (t_xmax tup) false) ->
  final_now s (delete_xid W tup).
Proof.
  intros [_ _ Hms _] Hm Hf. unfold delete_xid. rewrite Hm.
  destruct (update_member_in (MultiXactMembers (W 0) (t_xmax tup) false)) as [->|Hin].
  - intros t _. rewrite invalid_uncommitted. by eapply invalid_aborted.
  - apply list_elem_of_fmap in Hin as (m & -> & Hin). specialize (Hms Hm false).
    rewrite Forall_forall in Hms, Hf. apply Hf; [done|left; by apply Hms].
Qed.

End Routine.
End Sound.
