(* ===== verification/VisSound.v ===== *)
(** * VisSound: hint bits are only set when true

    Each routine of heapam_visibility.c, on a tuple whose hint bits are sound,
    changes nothing but hint bits and leaves them sound, under arbitrary
    concurrent commits and aborts between any two of its steps. *)

From S2P Require Import Prelude TransactionId HeapTuple Visibility VisLogic.

Open Scope vis_scope.

Section Sound.
Context (c : Context_) (Started : TransactionId -> Prop) `{!TimeLaws (world c) Started}.
Context (tup0 : HeapTupleHeaderData) (t0 : nat) (P : SnapshotData -> Prop).
Abbreviation W := (world c).
Abbreviation inv := (vinv W Started tup0 t0 P).
Abbreviation at_ := (at_tuple c Started tup0 t0 P).

Lemma at_intro s : inv s -> at_ (v_tuple s) s.
Proof. done. Qed.

Lemma at_get_tuple {R} tup s (Q : R + _ -> VState -> Prop) : at_ tup s -> Q (inr tup) s -> wp c get_tuple s Q.
Proof. by intros [_ <-]. Qed.

Lemma at_ok tup s : at_ tup s -> tuple_ok W Started (v_clock s) tup.
Proof. by intros [[_ H _ _ _] <-]. Qed.

Lemma at_hint {R} tup h x s (Q : R + unit -> VState -> Prop) :
  at_ tup s -> hint_ok W (v_clock s) tup h -> (forall s', inv s' -> Q (inr tt) s') -> wp c (SetHintBits h x) s Q.
Proof. intros [Hi <-]. by apply wp_hint. Qed.

Lemma delete_xid_single tup :
  has_flag (t_infomask tup) HEAP_XMAX_IS_MULTI = false -> delete_xid W tup = t_xmax tup.
Proof. unfold delete_xid. by intros ->. Qed.

(** *** Justifications of the hints, in the form the routines have them *)

Lemma just_xmin tup s x (b : bool) :
  xmin_unknown tup -> moved tup = false -> x = t_xmin tup -> settled W (v_clock s) x b ->
  hint_ok W (v_clock s) tup (if b then HEAP_XMIN_COMMITTED else HEAP_XMIN_INVALID).
Proof.
  intros Hu Hm -> Hs. eapply hint_xmin with (b := b); [done| |].
  - unfold insert_xid. by rewrite Hm.
  - unfold insert_if. unfold moved in Hm. apply orb_false_iff in Hm as [-> _]. by destruct b.
Qed.

Lemma just_xmax_single tup s x (b : bool) :
  has_flag (t_infomask tup) HEAP_XMAX_IS_MULTI = false -> x = t_xmax tup -> settled W (v_clock s) x b ->
  hint_ok W (v_clock s) tup (if b then HEAP_XMAX_COMMITTED else HEAP_XMAX_INVALID).
Proof. intros Hm -> Hs. eapply hint_xmax with (b := b). right. by rewrite delete_xid_single. Qed.

Lemma just_xmax_multi tup s (b : bool) :
  settled W (v_clock s) (delete_xid W tup) b ->
  hint_ok W (v_clock s) tup (if b then HEAP_XMAX_COMMITTED else HEAP_XMAX_INVALID).
Proof. intros Hs. eapply hint_xmax with (b := b). by right. Qed.

Lemma just_locked tup s : HEAP_XMAX_IS_LOCKED_ONLY (t_infomask tup) = true -> hint_ok W (v_clock s) tup HEAP_XMAX_INVALID.
Proof. intros Hl. eapply hint_xmax with (b := false). by left. Qed.

Lemma single_started tup s :
  at_ tup s -> has_flag (t_infomask tup) HEAP_XMAX_IS_MULTI = false -> startedz Started (t_xmax tup).
Proof. intros Ha Hm. destruct (at_ok _ _ Ha). auto. Qed.

Lemma xmin_started tup s : at_ tup s -> moved tup = false -> startedz Started (t_xmin tup).
Proof. intros Ha Hm. destruct (at_ok _ _ Ha) as [H _ _ _]. unfold insert_xid in H. by rewrite Hm in H. Qed.

Lemma just_own tup s :
  at_ tup s -> moved tup = false -> IsCurrentTransactionId (W 0) (t_xmin tup) = true ->
  has_flag (t_infomask tup) HEAP_XMAX_IS_MULTI = false -> HEAP_XMAX_IS_LOCKED_ONLY (t_infomask tup) = false ->
  IsCurrentTransactionId (W 0) (t_xmax tup) = false -> hint_ok W (v_clock s) tup HEAP_XMAX_INVALID.
Proof.
  intros Ha Hm Hcur Hmu Hl Hx. apply (just_xmax_single tup s (t_xmax tup) false); [done|done|].
  destruct (at_ok _ _ Ha) as [_ _ _ Hown]. rewrite <- (delete_xid_single tup) in Hx |- * by done.
  apply Hown; try done; by rewrite (current_fixed (v_clock s) 0).
Qed.

End Sound.

(** ** Symbolic execution with the invariant *)

Ltac at_now :=
  match goal with
  | H : at_tuple _ _ _ _ _ _ ?s |- wp _ _ ?s _ => exact H
  | H : at_tuple _ _ _ _ _ _ ?s |- at_tuple _ _ _ _ _ _ ?s => exact H
  end.

Ltac leaf :=
  match goal with
  | H : at_tuple _ _ _ _ _ _ ?s |- vinv _ _ _ _ _ ?s => exact (proj1 H)
  | H : vinv _ _ _ _ _ ?s |- vinv _ _ _ _ _ ?s => exact H
  end.

(** Conditions on queries that hold at this point, for later lemmas. *)
Ltac vstep :=
  lazymatch goal with
  | |- wp _ (bind _ _) _ _ => apply wp_bind
  | |- wp _ (Return _) _ _ => apply wp_Return; try leaf
  | |- wp _ (ret _) _ _ => apply wp_ret; cbn beta iota; try leaf
  | |- wp _ get_tuple _ _ => eapply at_get_tuple; [eassumption|]
  | |- wp _ get_snapshot _ _ => apply wp_get_snapshot
  | H : at_tuple _ _ _ _ _ _ ?s |- wp _ (TransactionIdIsCurrentTransactionId _) ?s _ =>
      apply (at_current _ _ _ _ _ _ _ _ _ H); intros ? ? ? ? ? ?
  | H : at_tuple _ _ _ _ _ _ ?s |- wp _ (TransactionIdIsInProgress _) ?s _ =>
      apply (at_in_progress _ _ _ _ _ _ _ _ _ H); intros ? ? ? ? ? ?
  | H : at_tuple _ _ _ _ _ _ ?s |- wp _ (q_DidCommit _) ?s _ =>
      apply (at_lookup _ _ _ _ _ _ _ _ _ H); intros ? ? ? ? ? ?
  | H : at_tuple _ _ _ _ _ _ ?s |- wp _ HeapTupleGetUpdateXid ?s _ =>
      apply (at_update_xid _ _ _ _ _ _ _ _ H); [assumption|]; intros ? ? ? ?
  | H : at_tuple _ _ _ _ _ _ ?s |- wp _ (MultiXactIdIsRunning _ _) ?s _ =>
      apply (at_multi_running _ _ _ _ _ _ _ _ _ _ H); intros ? ? ? ? ? ?
  | |- wp _ (if negb ?b then _ else _) _ _ => destruct b eqn:?; cbn [negb]
  | |- wp _ (if ?b then _ else _) _ _ => destruct b eqn:?
  end; cbn beta iota.

Ltac vsteps := repeat vstep.

(** At a hint: the justification, then the continuation, if it only returns. *)
Ltac vhint :=
  try vstep;
  lazymatch goal with
  | H : at_tuple _ _ _ _ _ _ ?s |- wp _ (SetHintBits _ _) ?s _ =>
      apply (at_hint _ _ _ _ _ _ _ _ _ _ H); [|intros; repeat vstep; try assumption]
  end.

(** Solves a justification from the answers collected on the path. *)
Ltac vsettled :=
  match goal with
  | H : final_now ?c _ ?x -> settled _ ?t0 ?x ?b, HL : TimeLaws (world ?c) ?St |- settled _ ?t _ ?b =>
      apply (settled_mono (world c) St t0 t); [lia|]; apply H
  end;
  first
  [match goal with
   | H : false = false -> startedz _ _ -> final_now _ ?s _ |- final_now _ ?s _ =>
       apply H; [reflexivity|];
       first [eapply single_started; eassumption|eapply delete_xid_started, at_ok; eassumption]
   end
  |match goal with
   | H : false = false -> Forall _ _, Ha : at_tuple _ _ _ _ _ _ ?s |- final_now _ ?s _ =>
       apply (delete_xid_final _ _ _ _ (at_ok _ _ _ _ _ _ _ Ha)); [assumption|exact (H eq_refl)]
   end].

Ltac vjust :=
  first [apply just_locked; assumption
        |eapply (just_xmax_single _ _ _ _ true); [assumption|reflexivity|vsettled]
        |eapply (just_xmax_single _ _ _ _ false); [assumption|reflexivity|vsettled]
        |eapply (just_xmax_multi _ _ _ true); vsettled
        |eapply (just_xmax_multi _ _ _ false); vsettled
        |eapply just_own; eassumption].

Ltac vroutine := vsteps; vhint; vjust.

(** An answer of the log that is known to be final. *)
Ltac vknown :=
  match goal with
  | H : final_now _ _ ?x -> settled _ _ ?x _ |- _ => specialize (H ltac:(auto))
  end.

Section Routines.
Context (c : Context_) (Started : TransactionId -> Prop) `{!TimeLaws (world c) Started}.
Context (tup0 : HeapTupleHeaderData) (t0 : nat) (P : SnapshotData -> Prop).
Abbreviation W := (world c).
Abbreviation inv := (vinv W Started tup0 t0 P).
Abbreviation at_ := (at_tuple c Started tup0 t0 P).

(** A routine, or a part of one, that keeps the invariant. *)
Definition sound {R A} (m : M R A) : Prop := forall s, inv s -> wp c m s (fun _ s' => inv s').

Lemma sound_bind {R A B} (m : M R A) (f : A -> M R B) :
  sound m -> (forall a, sound (f a)) -> sound (bind m f).
Proof.
  intros Hm Hf s Hs. apply wp_bind. eapply wp_mono; [by apply Hm|].
  intros [r|a] s' Hs'; [done|by apply Hf].
Qed.

(** The shape shared by the xmin phases of the routines. *)
Lemma xmin_phase_sound {R} (r0 : R) (moff min other rest : HeapTupleHeaderData -> M R unit) :
  (forall tup s, at_ tup s -> xmin_unknown tup -> moved_off tup = true ->
     wp c (moff tup) s (fun _ s' => inv s')) ->
  (forall tup s, at_ tup s -> xmin_unknown tup -> moved_off tup = false -> moved tup = true ->
     wp c (min tup) s (fun _ s' => inv s')) ->
  (forall tup s, at_ tup s -> xmin_unknown tup -> moved tup = false ->
     wp c (other tup) s (fun _ s' => inv s')) ->
  (forall tup s, at_ tup s -> wp c (rest tup) s (fun _ s' => inv s')) ->
  sound (let* tup := get_tuple in
         if negb (HeapTupleHeaderXminCommitted tup) then
           if HeapTupleHeaderXminInvalid tup then Return r0
           else if has_flag (t_infomask tup) HEAP_MOVED_OFF then moff tup
           else if has_flag (t_infomask tup) HEAP_MOVED_IN then min tup
           else other tup
         else rest tup).
Proof.
  intros Hoff Hin Hother Hrest s Hs. apply at_intro in Hs. vstep. vstep.
  destruct (HeapTupleHeaderXminCommitted (v_tuple s)) eqn:Hc; cbn [negb]; [by apply Hrest|].
  unfold HeapTupleHeaderXminCommitted in Hc. rewrite XminInvalid_flags, Hc. cbn [negb andb].
  destruct (has_flag (t_infomask (v_tuple s)) HEAP_XMIN_INVALID) eqn:Hi; [by vstep|].
  assert (Hu : xmin_unknown (v_tuple s)) by done.
  destruct (has_flag (t_infomask (v_tuple s)) HEAP_MOVED_OFF) eqn:Hmo; [by apply Hoff|].
  destruct (has_flag (t_infomask (v_tuple s)) HEAP_MOVED_IN) eqn:Hmi.
  { apply Hin; try done. unfold moved. rewrite Hmi. apply orb_true_r. }
  apply Hother; try done. unfold moved, moved_off. by rewrite Hmo, Hmi.
Qed.

(** The moved blocks with [TransactionIdIsInProgress]. *)
Lemma moved_off_in_progress {R} (r : R) tup s :
  at_ tup s -> xmin_unknown tup -> moved_off tup = true ->
  wp c (check_moved_off TransactionIdIsInProgress r) s (fun _ s' => inv s').
Proof. intros [Hi <-] Hu Hm. eapply moved_off_sound; eauto using in_progress_running_ok. Qed.

Lemma moved_in_in_progress {R} (r : R) tup s :
  at_ tup s -> xmin_unknown tup -> moved_off tup = false -> moved tup = true ->
  wp c (check_moved_in TransactionIdIsInProgress r) s (fun _ s' => inv s').
Proof. intros [Hi <-] Hu Hm Hmv. eapply moved_in_sound; eauto using in_progress_running_ok. Qed.

(** The shape of their last part: another transaction inserted the tuple. *)
Lemma xmin_tail_sound {R} (r : R) (running : M R bool) (m : M R unit) tup s :
  at_ tup s -> xmin_unknown tup -> moved tup = false ->
  wp c running s (fun r s' => match r with
    | inl _ => inv s'
    | inr b => at_ tup s' /\ (b = false -> final_now c s' (t_xmin tup)) end) ->
  sound m ->
  wp c (let* inprog := running in
        if inprog then m
        else let* committed := q_DidCommit (HeapTupleHeaderGetRawXmin tup) in
             if committed then SetHintBits HEAP_XMIN_COMMITTED (HeapTupleHeaderGetRawXmin tup)
             else SetHintBits HEAP_XMIN_INVALID InvalidTransactionId;; Return r) s (fun _ s' => inv s').
Proof.
  intros Ha Hu Hm Hr Hsm. vstep. eapply wp_mono; [exact Hr|]. intros [r1|b] s1; [done|]. intros [Ha1 Hf1].
  vstep; [apply Hsm, Ha1|]. specialize (Hf1 eq_refl). vstep. vstep.
  assert (Hs : settled W (v_clock s') (t_xmin tup) b0) by (by apply H2).
  destruct b0.
  - vhint. by eapply (just_xmin _ _ _ _ true).
  - vhint. by eapply (just_xmin _ _ _ _ false).
Qed.

Lemma in_progress_final {R} tup s x :
  at_ tup s -> startedz Started x ->
  wp c (TransactionIdIsInProgress x) s (fun (r : R + bool) s' => match r with
    | inl _ => inv s' | inr b => at_ tup s' /\ (b = false -> final_now c s' x) end).
Proof. intros Ha Hx. vstep. split; [done|]. auto. Qed.

Lemma Self_own_insert_sound tup s :
  at_ tup s -> moved tup = false -> IsCurrentTransactionId (W 0) (t_xmin tup) = true ->
  wp c Self_own_insert s (fun _ s' => inv s').
Proof.
  intros Ha Hm Hcur. unfold Self_own_insert. vsteps.
  vhint. eapply just_own; eauto.
Qed.

Lemma Self_xmin_sound : sound Self_xmin.
Proof.
  apply xmin_phase_sound; [apply moved_off_in_progress|apply moved_in_in_progress| |intros; by vstep].
  intros tup s Ha Hu Hm. vstep. vstep. vstep; [by eapply Self_own_insert_sound|].
  apply xmin_tail_sound; [done..| |intros s1 Hs1; by vstep].
  eapply in_progress_final; [done|by eapply xmin_started].
Qed.

Lemma Self_xmax_sound : sound Self_xmax.
Proof. intros s Hs. apply at_intro in Hs. unfold Self_xmax. vroutine. Qed.

Lemma Self_sound : sound HeapTupleSatisfiesSelf.
Proof. apply sound_bind; [apply Self_xmin_sound|intros _; apply Self_xmax_sound]. Qed.

Lemma Any_sound : sound HeapTupleSatisfiesAny.
Proof. intros s Hs. by apply wp_Return. Qed.

Lemma sound_assoc {R A B} (m : M R A) (f : A -> M R unit) (k : M R B) :
  sound (bind m f) -> sound k -> sound (bind m (fun a => bind (f a) (fun _ => k))).
Proof.
  intros Hmf Hk s Hs. specialize (Hmf s Hs). unfold wp, bind in *. destruct (m c s) as [[r|a] s1]; [done|].
  destruct (f a c s1) as [[r|[]] s2]; [done|]. apply Hk, Hmf.
Qed.

Lemma Toast_sound : sound HeapTupleSatisfiesToast.
Proof.
  apply sound_assoc; [|intros s Hs; by vstep].
  apply xmin_phase_sound; [apply moved_off_in_progress|apply moved_in_in_progress| |intros; by vstep].
  intros tup s Ha Hu Hm. vsteps.
Qed.

Lemma wp_cid {R} (m : M R CommandId) s (Q : R + CommandId -> VState -> Prop) :
  (exists v, m = fun c s => (inr (v c s), s)) -> (forall v, Q (inr v) s) -> wp c m s Q.
Proof. intros [v ->] HQ. apply HQ. Qed.

Lemma GetCmin_cid {R} : exists v, GetCmin (R := R) = fun c s => (inr (v c s), s).
Proof. by eexists. Qed.
Lemma GetCmax_cid {R} : exists v, GetCmax (R := R) = fun c s => (inr (v c s), s).
Proof. by eexists. Qed.

Lemma Update_self_deleted_sound {A} cid : sound (Update_self_deleted (A := A) cid).
Proof.
  intros s Hs. unfold Update_self_deleted. vstep. apply wp_cid; [apply GetCmax_cid|]. intros v. by vsteps.
Qed.

Lemma Update_own_insert_sound tup s cid :
  at_ tup s -> moved tup = false -> IsCurrentTransactionId (W 0) (t_xmin tup) = true ->
  wp c (Update_own_insert cid) s (fun _ s' => inv s').
Proof.
  intros Ha Hm Hcur. unfold Update_own_insert. vstep. vstep. vstep.
  apply wp_cid; [apply GetCmin_cid|]. intros v. vsteps; try (apply Update_self_deleted_sound; leaf).
  vhint. vjust.
Qed.

Lemma Update_xmin_sound cid : sound (Update_xmin cid).
Proof.
  apply xmin_phase_sound; [apply moved_off_in_progress|apply moved_in_in_progress| |intros; by vstep].
  intros tup s Ha Hu Hm. vstep. vstep. vstep; [by eapply Update_own_insert_sound|].
  apply xmin_tail_sound; [done..| |intros s1 Hs1; by vstep].
  eapply in_progress_final; [done|by eapply xmin_started].
Qed.

Lemma Update_gone_sound {A} self tup : sound (Update_gone (A := A) self tup).
Proof. intros s Hs. unfold Update_gone. by vsteps. Qed.

Lemma Update_xmax_multi_sound {A} self cid tup s :
  at_ tup s -> has_flag (t_infomask tup) HEAP_XMAX_IS_MULTI = true ->
  wp c (Update_xmax_multi (A := A) self cid) s (fun _ s' => inv s').
Proof.
  intros Ha Hm. unfold Update_xmax_multi. vsteps;
    try (apply Update_self_deleted_sound; leaf); try (apply Update_gone_sound; leaf); vhint; vjust.
Qed.

Lemma Update_xmax_sound self cid : sound (Update_xmax self cid).
Proof.
  intros s Hs. apply at_intro in Hs. unfold Update_xmax. vsteps;
    try (apply Update_self_deleted_sound; leaf); try (apply Update_gone_sound; leaf);
    try (eapply Update_xmax_multi_sound; eassumption); vhint; try (apply Update_gone_sound; leaf); vjust.
Qed.

Lemma Update_sound self cid : sound (HeapTupleSatisfiesUpdate self cid).
Proof. apply sound_bind; [apply Update_xmin_sound|intros _; apply Update_xmax_sound]. Qed.

(** *** Dirty: the snapshot is an output *)

Lemma at_set_snapshot {R} tup s f (Q : R + unit -> VState -> Prop) :
  (forall sn, P sn) -> at_ tup s -> (forall s', at_ tup s' -> Q (inr tt) s') -> wp c (set_snapshot f) s Q.
Proof.
  intros HP [Hi Ht] HQ. apply HQ. split; [|done]. by eapply vinv_step.
Qed.

Ltac vdirty :=
  repeat first [vstep
    |match goal with
     | H : at_tuple _ _ _ _ _ _ ?s |- wp _ (set_snapshot _) ?s _ =>
         apply (at_set_snapshot _ _ _ _ ltac:(assumption) H); intros
     end].

Lemma Dirty_xmin_sound : (forall sn, P sn) -> sound Dirty_xmin.
Proof.
  intros HP. apply sound_bind.
  { intros s Hs. apply at_intro in Hs. vdirty. leaf. }
  intros _. apply xmin_phase_sound; [apply moved_off_in_progress|apply moved_in_in_progress| |intros; by vstep].
  intros tup s Ha Hu Hm. vstep. vstep. vstep; [by eapply Self_own_insert_sound|].
  apply xmin_tail_sound; [done..| |].
  - eapply in_progress_final; [done|by eapply xmin_started].
  - intros s1 Hs1. apply at_intro in Hs1. vdirty.
Qed.

Lemma Dirty_xmax_sound : (forall sn, P sn) -> sound Dirty_xmax.
Proof.
  intros HP s Hs. apply at_intro in Hs. unfold Dirty_xmax. vdirty; vhint; vjust.
Qed.

Lemma Dirty_sound : (forall sn, P sn) -> sound HeapTupleSatisfiesDirty.
Proof. intros HP. apply sound_bind; [by apply Dirty_xmin_sound|intros _; by apply Dirty_xmax_sound]. Qed.

(** *** Vacuum *)

Lemma at_set_dead_after {R} tup s x (Q : R + unit -> VState -> Prop) :
  at_ tup s -> (forall s', at_ tup s' -> Q (inr tt) s') -> wp c (set_dead_after x) s Q.
Proof. intros [Hi Ht] HQ. apply HQ. split; [|done]. eapply vinv_step; try done. by destruct Hi. Qed.

Ltac vvac :=
  repeat first [vstep
    |match goal with
     | H : at_tuple _ _ _ _ _ _ ?s |- wp _ (set_dead_after _) ?s _ =>
         apply (at_set_dead_after _ _ _ _ H); intros
     end].

Lemma sound_set_dead_after {R} x : sound (set_dead_after (R := R) x).
Proof. intros s Hs. apply at_intro in Hs. vvac. leaf. Qed.

Lemma IsOnlyLocked_sound {R} : sound (HeapTupleHeaderIsOnlyLocked (R := R)).
Proof. intros s Hs. apply at_intro in Hs. unfold HeapTupleHeaderIsOnlyLocked. vsteps. Qed.

Lemma GetUpdateXid_sound {R} : sound (HeapTupleHeaderGetUpdateXid (R := R)).
Proof.
  intros s Hs. apply at_intro in Hs. unfold HeapTupleHeaderGetUpdateXid. vstep. vstep. vstep; [|by vstep].
  bool_simpl. vstep. leaf.
Qed.

Lemma sound_query {R A} (q : World -> A) : sound (query (R := R) q).
Proof. intros s Hs. apply wp_query. by apply vinv_tick. Qed.

Lemma sound_Return {R A} (r : R) : sound (Return (A := A) r).
Proof. intros s Hs. by apply wp_Return. Qed.

Lemma Vacuum_own_insert_sound : sound Vacuum_own_insert.
Proof.
  apply sound_bind; [intros s Hs; by apply wp_get_tuple|]. intros tup.
  repeat case_if; try apply sound_Return.
  apply sound_bind; [apply IsOnlyLocked_sound|intros b]. destruct b; [apply sound_Return|].
  apply sound_bind; [apply GetUpdateXid_sound|intros x].
  apply sound_bind; [apply sound_query|intros b]. destruct b; apply sound_Return.
Qed.

Lemma Vacuum_moved_off_sound tup s :
  at_ tup s -> xmin_unknown tup -> moved_off tup = true -> wp c Vacuum_moved_off s (fun _ s' => inv s').
Proof.
  intros Ha Hu Hm. unfold Vacuum_moved_off.
  assert (Hmv : moved tup = true) by (unfold moved; by rewrite Hm).
  assert (Hif : insert_if tup = false) by (unfold insert_if; by rewrite Hm).
  vstep. vstep. rewrite (GetXvac_moved _ Hmv). vsteps.
  all: assert (Hs : settled W (v_clock s'1) (insert_xid tup) b1)
         by (subst b1; apply H10, H6; [done|]; by destruct (at_ok _ _ _ _ _ _ _ Ha)).
  all: vhint; subst b1; eapply hint_xmin; [done|exact Hs|by rewrite Hif].
Qed.

Lemma Vacuum_moved_in_sound tup s :
  at_ tup s -> xmin_unknown tup -> moved_off tup = false -> moved tup = true ->
  wp c Vacuum_moved_in s (fun _ s' => inv s').
Proof.
  intros Ha Hu Hm Hmv. unfold Vacuum_moved_in.
  assert (Hif : insert_if tup = true) by (unfold insert_if; by rewrite Hm).
  vstep. vstep. rewrite (GetXvac_moved _ Hmv). vsteps.
  all: assert (Hs : settled W (v_clock s'1) (insert_xid tup) b1)
         by (subst b1; apply H10, H6; [done|]; by destruct (at_ok _ _ _ _ _ _ _ Ha)).
  all: vhint; subst b1; eapply hint_xmin; [done|exact Hs|by rewrite Hif].
Qed.

Lemma Vacuum_xmin_sound : sound Vacuum_xmin.
Proof.
  apply sound_bind; [apply sound_set_dead_after|intros _].
  apply xmin_phase_sound; [apply Vacuum_moved_off_sound|apply Vacuum_moved_in_sound| |intros; by vstep].
  intros tup s Ha Hu Hm. vstep. vstep. vstep; [apply Vacuum_own_insert_sound; leaf|].
  apply xmin_tail_sound; [done..| |intros s1 Hs1; by vstep].
  eapply in_progress_final; [done|by eapply xmin_started].
Qed.

Lemma Vacuum_xmax_locked_sound tup s :
  at_ tup s -> HEAP_XMAX_IS_LOCKED_ONLY (t_infomask tup) = true ->
  wp c Vacuum_xmax_locked s (fun _ s' => inv s').
Proof. intros Ha Hl. unfold Vacuum_xmax_locked. vsteps; vhint; vjust. Qed.

Lemma Vacuum_xmax_multi_sound tup s :
  at_ tup s -> has_flag (t_infomask tup) HEAP_XMAX_IS_MULTI = true ->
  wp c Vacuum_xmax_multi s (fun _ s' => inv s').
Proof. intros Ha Hm. unfold Vacuum_xmax_multi. vvac. vhint; vjust. Qed.

Lemma Vacuum_xmax_sound : sound Vacuum_xmax.
Proof.
  intros s Hs. apply at_intro in Hs. unfold Vacuum_xmax. vvac;
    try (eapply Vacuum_xmax_locked_sound; eassumption); try (eapply Vacuum_xmax_multi_sound; eassumption);
    vhint; try vjust.
  match goal with H : vinv _ _ _ _ _ ?s |- wp _ _ ?s _ => apply at_intro in H end. vvac.
Qed.

Lemma VacuumHorizon_sound : sound HeapTupleSatisfiesVacuumHorizon.
Proof. apply sound_bind; [apply Vacuum_xmin_sound|intros _; apply Vacuum_xmax_sound]. Qed.

Lemma sound_invoke {R S} (body : M S S) : sound body -> sound (invoke (R := R) body).
Proof.
  intros Hb s Hs. specialize (Hb s Hs). unfold wp, invoke, call in *.
  by destruct (body c s) as [[r|r] s'].
Qed.

Lemma sound_get {R A} (f : VState -> A) : sound (fun _ s => (inr (f s), s) : (R + A) * VState).
Proof. intros s Hs. exact Hs. Qed.

Lemma SatisfiesVacuum_sound OldestXmin : sound (HeapTupleSatisfiesVacuum OldestXmin).
Proof.
  apply sound_bind; [apply sound_invoke, VacuumHorizon_sound|].
  intros []; try apply sound_Return.
  apply sound_bind; [apply sound_get|]. intros x. case_if; apply sound_Return.
Qed.

Lemma NonVacuumable_sound : sound HeapTupleSatisfiesNonVacuumable.
Proof.
  apply sound_bind; [apply sound_invoke, VacuumHorizon_sound|].
  intros []; try apply sound_Return.
  apply sound_bind; [apply sound_get|]. intros x.
  apply sound_bind; [apply sound_query|]. intros []; apply sound_Return.
Qed.

(** *** Historic snapshots set no hints at all *)

Lemma Historic_sound : sound HeapTupleSatisfiesHistoricMVCC.
Proof.
  apply sound_bind; [|intros _].
  - intros s Hs. apply at_intro in Hs. unfold Historic_xmin. vsteps.
    + unfold wp. simpl. destruct (ResolveCminCmax c (v_tuple s)) as [[cmin cmax]|]; simpl; [|leaf].
      case_if; simpl; leaf.
  - intros s Hs. apply at_intro in Hs. unfold Historic_xmax. vsteps;
      try (unfold wp; simpl; destruct (ResolveCminCmax c _) as [[cmin cmax]|]; simpl; [|leaf];
           repeat case_if; simpl; leaf).
Qed.

(** *** MVCC: whether a transaction runs is read off the snapshot *)

Section MVCC.
Hypothesis (Hsn : forall sn, P sn -> snapshot_law W t0 sn).

Lemma at_in_snapshot {R} tup x s (Q : R + bool -> VState -> Prop) :
  at_ tup s ->
  (forall b s', at_ tup s' -> v_snapshot s' = v_snapshot s -> (v_clock s <= v_clock s')%nat ->
     (b = XidInMVCCSnapshot (TopmostTransaction (W 0)) x (v_snapshot s)) ->
     (b = false -> IsCurrentTransactionId (W 0) x = false -> final_now c s' x) -> Q (inr b) s') ->
  wp c (q_XidInMVCCSnapshot x) s Q.
Proof using Hsn TimeLaws0.
  intros Ha HQ. unfold q_XidInMVCCSnapshot. vstep. vstep. apply wp_query.
  assert (Heq : forall t, XidInMVCCSnapshot (TopmostTransaction (W t)) x (v_snapshot s)
                = XidInMVCCSnapshot (TopmostTransaction (W 0)) x (v_snapshot s)).
  { intros t. apply XidInMVCCSnapshot_ext. intros y. apply topmost_fixed. }
  apply HQ; [by apply at_tick|done|simpl; lia|apply Heq|]. rewrite Heq. intros Hb Hc t Ht.
  destruct Ha as [[_ _ _ H4 H5] _]. simpl in Ht.
  eapply (snapshot_final W t0); [by apply Hsn|by rewrite Heq|by rewrite (current_fixed t0 0)|lia].
Qed.

Ltac vmvcc :=
  repeat first [vstep
    |match goal with
     | H : at_tuple _ _ _ _ _ _ ?s |- wp _ (q_XidInMVCCSnapshot _) ?s _ =>
         apply (at_in_snapshot _ _ _ _ H); intros ? ? ? ? ? ? ?
     end].

Lemma MVCC_self_deleted_sound {A} : sound (MVCC_self_deleted (A := A)).
Proof.
  intros s Hs. unfold MVCC_self_deleted. vstep. vstep. vstep.
  apply wp_cid; [apply GetCmax_cid|]. intros v. by vsteps.
Qed.

Lemma MVCC_own_insert_sound tup s :
  at_ tup s -> moved tup = false -> IsCurrentTransactionId (W 0) (t_xmin tup) = true ->
  wp c MVCC_own_insert s (fun _ s' => inv s').
Proof.
  intros Ha Hm Hcur. unfold MVCC_own_insert. vstep. vstep. vstep. vstep. vstep.
  apply wp_cid; [apply GetCmin_cid|]. intros v. vsteps; try (apply MVCC_self_deleted_sound; leaf).
  vhint. vjust.
Qed.

Lemma MVCC_xmin_sound : sound MVCC_xmin.
Proof using Hsn TimeLaws0.
  apply xmin_phase_sound.
  - intros tup s [Hi <-] Hu Hm. eapply moved_off_sound; eauto using in_snapshot_running_ok.
  - intros tup s [Hi <-] Hu Hm Hmv. eapply moved_in_sound; eauto using in_snapshot_running_ok.
  - intros tup s Ha Hu Hm. vstep. vstep. vstep; [by eapply MVCC_own_insert_sound|].
    apply xmin_tail_sound; [done..| |intros s1 Hs1; by vstep]. vmvcc. split; [done|].
    intros Hb. by apply H7.
  - intros tup s Ha. vmvcc.
Qed.

Lemma MVCC_xmax_sound : sound MVCC_xmax.
Proof using Hsn TimeLaws0.
  intros s Hs. apply at_intro in Hs. unfold MVCC_xmax. vmvcc; try (apply MVCC_self_deleted_sound; leaf).
  all: vhint; first [eapply (just_xmax_single _ _ _ _ true)|eapply (just_xmax_single _ _ _ _ false)];
    [assumption|reflexivity|].
  all: match goal with H : final_now _ _ ?x -> _ |- settled _ _ ?x _ => apply H end; auto.
Qed.

Lemma MVCC_sound : sound HeapTupleSatisfiesMVCC.
Proof using Hsn TimeLaws0.
  apply sound_bind; [apply MVCC_xmin_sound|]. intros _. apply MVCC_xmax_sound.
Qed.

End MVCC.

End Routines.
