(* ===== verification/VisWorld.v ===== *)
(** * VisWorld: time lines of a running system

    A concrete family of worlds for the visibility routines: every transaction
    has a fate, made of the instant its outcome reaches the commit log and the
    later instant it leaves the array of running transactions.  The laws the
    routines rely on hold of every such time line. *)

From S2P Require Import Prelude TransactionId HeapTuple Visibility VisLogic.

Inductive Fate :=
| Forever                               (** still running at the end of time *)
| Commits (logged gone : nat)
| Aborts (gone : nat).

(** The transactions of the observing backend, the fates of all, and the
    multixacts. *)
Record History := mkHistory {
  own : list TransactionId;
  fate : TransactionId -> Fate;
  multixacts : MultiXactId -> list MultiXactMember;
  horizon : TransactionId -> bool;
}.

Definition history_world (h : History) (t : nat) : World := {|
  IsCurrentTransactionId := fun x => bool_decide (x ∈ own h);
  IsInProgress := fun x =>
    match fate h x with Forever => true | Commits _ gone => Nat.ltb t gone | Aborts gone => Nat.ltb t gone end;
  DidCommit := fun x => match fate h x with Commits logged _ => Nat.leb logged t | _ => false end;
  CommitLSN := fun _ => 100;
  NeedsFlush := fun _ => false;
  BufferLSN := 0;
  MultiXactMembers := fun m _ => multixacts h m;
  TopmostTransaction := fun x => x;
  IsRemovableXid := horizon h;
|}.

(** A transaction commits in the log before it is seen to be gone, and the
    observer's own transactions are still running. *)
Record history_ok (h : History) : Prop := {
  log_first : forall x logged gone, fate h x = Commits logged gone -> (logged <= gone)%nat;
  own_runs : forall x, x ∈ own h -> fate h x = Forever;
  invalid_fate : forall logged gone, fate h InvalidTransactionId <> Commits logged gone;
}.

#[export] Instance history_laws h : history_ok h -> TimeLaws (history_world h) (fun _ => True).
Proof.
  intros [Hlog Hown Hinv]. split; simpl; try done.
  - intros t t' x Hle. destruct (fate h x); try done. rewrite !Nat.leb_le. lia.
  - intros t t' t'' x _ Hr Hle Hle'. destruct (fate h x) as [|l g|g] eqn:Hf; try done.
    apply Nat.ltb_ge in Hr. specialize (Hlog x l g Hf).
    transitivity true; [apply Nat.leb_le; lia|symmetry; apply Nat.leb_le; lia].
  - intros t x Hx. apply bool_decide_eq_true in Hx. by rewrite Hown.
  - intros t. destruct (fate h InvalidTransactionId) as [|l g|g] eqn:Hf; try done. by destruct (Hinv l g).
Qed.

(** A snapshot whose missing transactions had left by [t0]. *)
Lemma history_snapshot h t0 sn :
  history_ok h ->
  (forall x, XidInMVCCSnapshot (fun x => x) x sn = false -> x ∉ own h ->
     IsInProgress (history_world h t0) x = false) ->
  snapshot_law (history_world h) t0 sn.
Proof.
  intros Hok Hs x t t' Hx Hc Hle Hle'. apply bool_decide_eq_false in Hc. specialize (Hs x Hx Hc).
  by apply (finished_fixed (TimeLaws := history_laws h Hok) t0).
Qed.

(** ** An example time line

    The observer runs as transaction 10.  Transaction 7 has aborted and 12 is
    still running when the snapshot is taken at instant 4; 12 commits at
    instant 6 and is gone at 8.  All the others committed before. *)
Definition example_history : History := {|
  own := [10];
  fate := fun x =>
    if x =? 10 then Forever else if x =? 12 then Commits 6 8
    else if (x =? 7) || (x =? 0) then Aborts 2 else Commits 1 3;
  multixacts := fun _ => [];
  horizon := fun x => x <? 10;
|}.

Definition example_context : Context_ := mkContext (history_world example_history) true empty_combo (fun _ => None).

Definition example_snapshot (ty : SnapshotType) : SnapshotData :=
  mkSnapshot ty 10 13 [12] [] false false 3 0.

(** Inserted by 5, then deleted by 12. *)
Definition example_tuple : HeapTupleHeaderData := mkHeapTupleHeader 5 12 0 (mkItemPointer 0 1) 0.

Definition example_state (ty : SnapshotType) (t : nat) : VState :=
  mkVState example_tuple (example_snapshot ty) 0 t false.

Lemma example_history_ok : history_ok example_history.
Proof.
  split; simpl.
  - intros x l g. repeat case_match; naive_solver lia.
  - intros x Hx. apply list_elem_of_singleton in Hx. by subst.
  - done.
Qed.

#[export] Instance example_laws : TimeLaws (world example_context) (fun _ => True).
Proof. apply history_laws, example_history_ok. Qed.

Lemma example_snapshot_law ty : snapshot_law (world example_context) 4 (example_snapshot ty).
Proof.
  apply history_snapshot; [apply example_history_ok|]. intros x Hs Hown. simpl.
  destruct (Z.eqb_spec x 10) as [->|_]; [by destruct Hown; left|].
  destruct (Z.eqb_spec x 12) as [->|_]; [done|]. by destruct ((x =? 7) || (x =? 0)).
Qed.

Lemma example_tuple_ok t : tuple_ok (world example_context) (fun _ => True) t example_tuple.
Proof. by split; try left. Qed.

Lemma example_hints_sound t : hints_sound (world example_context) t example_tuple.
Proof. by split. Qed.
