(* ===== verification/VisMVCC.v ===== *)
(** * VisMVCC: what an MVCC snapshot sees

    [HeapTupleSatisfiesMVCC] decides by hint bits, the snapshot, the commit
    log and command ids, with the system changing between its questions.  Its
    answer is a function of the instant the snapshot was taken: the inserting
    transaction is seen and the deleting one is not.  Consequences are that a
    snapshot never changes its mind about a tuple and that the routines leave
    hint bits sound whatever the kind of snapshot. *)

From S2P Require Import Prelude TransactionId HeapTuple Visibility VisLogic VisSound VisWorld.

Open Scope vis_scope.

(** ** Hint bits leave the rest of the header alone *)

Lemma hint_ext_flag tup tup' f :
  hint_ext tup tup' -> Z.land f HINT_BITS = 0 -> has_flag (t_infomask tup') f = has_flag (t_infomask tup) f.
Proof.
  intros (_ & _ & _ & _ & h & -> & Hh) Hf. rewrite has_flag_lor.
  replace (has_flag h f) with false; [apply orb_false_r|]. unfold has_flag.
  symmetry. apply negb_false_iff, Z.eqb_eq, Z.bits_inj'. intros n Hn.
  apply (f_equal (fun z => Z.testbit z n)) in Hh, Hf. revert Hh Hf.
  rewrite !Z.land_spec, Z.lnot_spec, Z.bits_0 by done.
  destruct (Z.testbit h n), (Z.testbit f n), (Z.testbit HINT_BITS n); done.
Qed.

Lemma hint_ext_locked tup tup' : hint_ext tup tup' -> locked_only tup' = locked_only tup.
Proof.
  intros H. destruct H as (_ & _ & _ & _ & h & Hi & Hh). unfold locked_only. rewrite Hi. apply locked_only_hint.
  apply Z.bits_inj'. intros n Hn. apply (f_equal (fun z => Z.testbit z n)) in Hh. revert Hh.
  assert (Hd : Z.land (Z.lor HEAP_XMAX_LOCK_ONLY (Z.lor HEAP_XMAX_IS_MULTI HEAP_LOCK_MASK)) HINT_BITS = 0) by done.
  apply (f_equal (fun z => Z.testbit z n)) in Hd. revert Hd.
  rewrite !Z.land_spec, Z.lnot_spec, Z.bits_0 by done.
  destruct (Z.testbit h n), (Z.testbit _ n), (Z.testbit HINT_BITS n); done.
Qed.

Lemma hint_ext_delete_xid W tup tup' : hint_ext tup tup' -> delete_xid W tup' = delete_xid W tup.
Proof.
  intros H. unfold delete_xid. rewrite (hint_ext_flag tup tup') by done. by destruct H as (_ & -> & _).
Qed.

Lemma hint_ext_moved tup tup' : hint_ext tup tup' -> moved tup' = moved tup.
Proof. intros H. unfold moved, moved_off. by rewrite !(hint_ext_flag tup tup') by done. Qed.

Lemma hint_ext_cmin st tup tup' : hint_ext tup tup' -> HeapTupleHeaderGetCmin st tup' = HeapTupleHeaderGetCmin st tup.
Proof.
  intros H. unfold HeapTupleHeaderGetCmin. rewrite (hint_ext_flag tup tup') by done.
  unfold HeapTupleHeaderGetRawCommandId. by destruct H as (_ & _ & -> & _).
Qed.

Lemma hint_ext_cmax st tup tup' : hint_ext tup tup' -> HeapTupleHeaderGetCmax st tup' = HeapTupleHeaderGetCmax st tup.
Proof.
  intros H. unfold HeapTupleHeaderGetCmax. rewrite (hint_ext_flag tup tup') by done.
  unfold HeapTupleHeaderGetRawCommandId. by destruct H as (_ & _ & -> & _).
Qed.

(** ** The specification *)

Section Spec.
Context (c : Context_) (t0 : nat) (sn : SnapshotData).
Abbreviation W := (world c).

(** The snapshot, taken at [t0], shows transaction [x] as committed. *)
Definition xid_seen (x : TransactionId) : bool :=
  negb (XidInMVCCSnapshot (TopmostTransaction (W t0)) x sn) && DidCommit (W t0) x.

(** A change made by transaction [x] in command [cid] is seen: an earlier
    command of the observer's own transaction, or a transaction seen as
    committed. *)
Definition change_seen (x : TransactionId) (cid : CommandId) : bool :=
  if IsCurrentTransactionId (W t0) x then cid <? curcid sn else xid_seen x.

Definition insert_seen (tup : HeapTupleHeaderData) : bool :=
  HeapTupleHeaderXminFrozen tup || change_seen (t_xmin tup) (HeapTupleHeaderGetCmin (combos c) tup).

Definition delete_seen (tup : HeapTupleHeaderData) : bool :=
  negb (locked_only tup) && change_seen (delete_xid W tup) (HeapTupleHeaderGetCmax (combos c) tup).

Definition mvcc_visible (tup : HeapTupleHeaderData) : bool := insert_seen tup && negb (delete_seen tup).

(** The observer's own unfinished work is not marked as aborted. *)
Definition own_xmin_live (tup : HeapTupleHeaderData) : Prop :=
  IsCurrentTransactionId (W t0) (t_xmin tup) = true -> HeapTupleHeaderXminInvalid tup = false.
Definition own_xmax_live (tup : HeapTupleHeaderData) : Prop :=
  IsCurrentTransactionId (W t0) (delete_xid W tup) = true -> locked_only tup = false ->
  has_flag (t_infomask tup) HEAP_XMAX_INVALID = false.

Lemma own_xmax_live_hint tup : own_xmax_live tup -> own_xmax_live (add_hint HEAP_XMIN_COMMITTED tup).
Proof.
  unfold own_xmax_live. rewrite delete_xid_hint, locked_only_add_hint, add_hint_flag by (left; done).
  change (has_flag HEAP_XMIN_COMMITTED HEAP_XMAX_INVALID) with false. by rewrite orb_false_r.
Qed.

Lemma delete_seen_ext tup tup' : hint_ext tup tup' -> delete_seen tup' = delete_seen tup.
Proof.
  intros H. unfold delete_seen.
  by rewrite (hint_ext_locked tup tup'), (hint_ext_delete_xid W tup tup'), (hint_ext_cmax _ tup tup').
Qed.

End Spec.

(** What sound xmin hints say of the insertion. *)
Lemma xmin_hints W t tup :
  moved tup = false -> hints_sound W t tup ->
  (HeapTupleHeaderXminInvalid tup = true -> settled W t (t_xmin tup) false)
  /\ (HeapTupleHeaderXminCommitted tup = true -> HeapTupleHeaderXminFrozen tup = false ->
      settled W t (t_xmin tup) true).
Proof.
  intros Hm [Hc Hi _ _]. unfold insert_xid, insert_if in *. rewrite Hm in *.
  unfold moved in Hm. apply orb_false_iff in Hm as [Hm _]. rewrite Hm in *.
  rewrite XminInvalid_flags, XminFrozen_flags. unfold HeapTupleHeaderXminCommitted.
  destruct (has_flag _ HEAP_XMIN_COMMITTED), (has_flag _ HEAP_XMIN_INVALID); naive_solver.
Qed.

Section MVCC.
Context (c : Context_) (Started : TransactionId -> Prop) `{!TimeLaws (world c) Started}.
Context (tup0 : HeapTupleHeaderData) (t0 : nat) (sn : SnapshotData).
Abbreviation W := (world c).
Abbreviation at_ := (at_tuple c Started tup0 t0 (eq sn)).
Hypothesis (Hsn : snapshot_law W t0 sn).

Lemma snapshot_laws sn' : sn = sn' -> snapshot_law W t0 sn'.
Proof using Hsn. by intros <-. Qed.

(** What a path of the routine learns about a transaction. *)
Lemma seen_settled x cid t b :
  IsCurrentTransactionId (W 0) x = false -> XidInMVCCSnapshot (TopmostTransaction (W 0)) x sn = false ->
  (t0 <= t)%nat -> settled W t x b -> change_seen c t0 sn x cid = b.
Proof using Hsn TimeLaws0.
  intros Hc Hx Hle Hs. unfold change_seen, xid_seen. rewrite (current_fixed t0 0), Hc.
  assert (Hx0 : XidInMVCCSnapshot (TopmostTransaction (W t0)) x sn = false).
  { rewrite <- Hx. apply XidInMVCCSnapshot_ext. intros y. apply topmost_fixed. }
  rewrite Hx0. simpl. rewrite (Hsn x t0 t) by (rewrite ?(current_fixed t0 0); done || lia).
  destruct b; [done|]. by apply Hs.
Qed.

Lemma seen_running x cid :
  IsCurrentTransactionId (W 0) x = false -> XidInMVCCSnapshot (TopmostTransaction (W 0)) x sn = true ->
  change_seen c t0 sn x cid = false.
Proof using TimeLaws0.
  intros Hc Hx. unfold change_seen, xid_seen. rewrite (current_fixed t0 0), Hc.
  rewrite (XidInMVCCSnapshot_ext _ (TopmostTransaction (W 0))) by (intros; apply topmost_fixed). by rewrite Hx.
Qed.

Lemma seen_own x cid : IsCurrentTransactionId (W 0) x = true -> change_seen c t0 sn x cid = (cid <? curcid sn).
Proof using TimeLaws0. intros Hc. unfold change_seen. by rewrite (current_fixed t0 0), Hc. Qed.

Lemma seen_aborted x cid t :
  IsCurrentTransactionId (W 0) x = false -> (t0 <= t)%nat -> settled W t x false ->
  change_seen c t0 sn x cid = false.
Proof using Hsn TimeLaws0.
  intros Hc Hle Hs. destruct (XidInMVCCSnapshot (TopmostTransaction (W 0)) x sn) eqn:Hx.
  - by apply seen_running.
  - by eapply seen_settled.
Qed.

Lemma committed_not_current x t : settled W t x true -> IsCurrentTransactionId (W 0) x = false.
Proof using TimeLaws0.
  intros Hs. destruct (IsCurrentTransactionId (W 0) x) eqn:Hc; [|done].
  rewrite (current_fixed 0 t) in Hc. apply current_uncommitted in Hc. simpl in Hs. congruence.
Qed.

Lemma seen_committed x cid t :
  XidInMVCCSnapshot (TopmostTransaction (W 0)) x sn = false ->
  (t0 <= t)%nat -> settled W t x true -> change_seen c t0 sn x cid = true.
Proof using Hsn TimeLaws0. intros Hx Hle Hs. eapply seen_settled; eauto using committed_not_current. Qed.

(** *** The two phases *)

Ltac vmvcc :=
  repeat first [vstep
    |match goal with
     | H : at_tuple _ _ _ _ _ _ ?s |- wp _ (q_XidInMVCCSnapshot _) ?s _ =>
         eapply at_in_snapshot; [done|exact snapshot_laws|exact H|]; intros ? ? ? ? ? ? ?
     end].

Definition returns (b : bool) (r : bool + bool) : Prop := match r with inl b' => b' = b | inr b' => b' = b end.

Lemma at_snapshot tup s : at_ tup s -> v_snapshot s = sn.
Proof. by intros [[_ _ _ _ <-] _]. Qed.

Lemma at_time tup s : at_ tup s -> (t0 <= v_clock s)%nat.
Proof. by intros [[_ _ _ H _] _]. Qed.

Lemma self_deleted_spec {A} tup s (Q : bool + A -> VState -> Prop) :
  at_ tup s ->
  (forall s', Q (inl (negb (HeapTupleHeaderGetCmax (combos c) tup <? curcid sn))) s') ->
  wp c MVCC_self_deleted s Q.
Proof.
  intros Ha HQ. unfold MVCC_self_deleted. vstep. vstep. vstep. unfold wp, GetCmax. cbn [fst snd].
  rewrite (at_snapshot _ _ Ha). destruct Ha as [_ ->]. rewrite <- Z.leb_antisym in HQ.
  destruct (Z.leb _ _); apply HQ.
Qed.

Lemma delete_seen_false tup s :
  at_ tup s -> locked_only tup = true \/ settled W (v_clock s) (delete_xid W tup) false
    /\ IsCurrentTransactionId (W 0) (delete_xid W tup) = false ->
  delete_seen c t0 sn tup = false.
Proof using Hsn TimeLaws0.
  unfold delete_seen. intros Ha [->|[Hs Hc]]; [done|].
  rewrite (seen_aborted _ _ (v_clock s)); eauto using at_time, andb_false_r.
Qed.

Lemma delete_seen_live tup b :
  locked_only tup = false -> change_seen c t0 sn (delete_xid W tup) (HeapTupleHeaderGetCmax (combos c) tup) = b ->
  delete_seen c t0 sn tup = b.
Proof. unfold delete_seen. by intros -> <-. Qed.

Lemma xmax_invalid_unseen tup s :
  at_ tup s -> own_xmax_live c t0 tup -> has_flag (t_infomask tup) HEAP_XMAX_INVALID = true ->
  delete_seen c t0 sn tup = false.
Proof using Hsn TimeLaws0.
  intros Ha Hown Hi. unfold own_xmax_live in Hown. apply (delete_seen_false _ _ Ha). destruct (locked_only tup) eqn:Hl; [by left|right].
  rewrite (current_fixed t0 0) in Hown. split; [|destruct (IsCurrentTransactionId (W 0) _); [|done]].
  - destruct Ha as [[[_ _ H _] _ _ _ _] Ht]. rewrite Ht in H. destruct (H Hi); [congruence|done].
  - rewrite Hown in Hi; done.
Qed.

(** Closes a leaf of the xmax phase. *)
Ltac vsnap :=
  match goal with
  | H : ?b = XidInMVCCSnapshot _ ?x _ |- XidInMVCCSnapshot _ ?x _ = ?b =>
      rewrite H; f_equal; symmetry; eapply at_snapshot; eassumption
  end.
Ltac vchange :=
  first
  [apply seen_own; assumption
  |apply seen_running; [assumption|vsnap]
  |eapply seen_settled;
     [assumption|vsnap| |
      first [match goal with H : final_now _ _ ?x -> settled _ _ ?x _ |- settled _ _ ?x _ => apply H; auto end
            |eassumption]];
     eapply at_time; eassumption].
Ltac vdeleted :=
  match goal with
  | H : at_tuple _ _ _ _ _ _ ?s |- wp _ MVCC_self_deleted ?s _ =>
      apply (self_deleted_spec _ _ _ H); intros ?
  | _ => idtac
  end;
  cbn [returns]; erewrite delete_seen_live; [|eassumption|vchange]; reflexivity.

Lemma MVCC_xmax_spec tup s :
  at_ tup s -> own_xmax_live c t0 tup ->
  wp c MVCC_xmax s (fun r _ => returns (negb (delete_seen c t0 sn tup)) r).
Proof using Hsn TimeLaws0.
  intros Ha Hown. unfold MVCC_xmax. vstep. vstep.
  destruct (has_flag (t_infomask tup) HEAP_XMAX_INVALID) eqn:Hi.
  { vstep. simpl. by erewrite xmax_invalid_unseen. }
  change (HEAP_XMAX_IS_LOCKED_ONLY (t_infomask tup)) with (locked_only tup).
  destruct (locked_only tup) eqn:Hl.
  { vstep. simpl. rewrite (delete_seen_false _ _ Ha); auto. }
  destruct (has_flag (t_infomask tup) HEAP_XMAX_IS_MULTI) eqn:Hm.
  { vmvcc; vdeleted. }
  unfold HeapTupleHeaderGetRawXmax. rewrite <- (delete_xid_single c tup Hm).
  destruct (has_flag (t_infomask tup) HEAP_XMAX_COMMITTED) eqn:Hc; cbn [negb].
  - assert (Hs : settled W (v_clock s) (delete_xid W tup) true).
    { destruct Ha as [[[_ _ _ H] _ _ _ _] Ht]. rewrite Ht in H. destruct (H Hc) as [?|[?|?]]; congruence || done. }
    assert (Hcur := committed_not_current _ _ Hs). vmvcc; vdeleted.
  - vmvcc; try vdeleted; apply wp_SetHintBits; intros; vstep; vdeleted.
Qed.

Lemma own_insert_spec tup s :
  at_ tup s -> own_xmax_live c t0 tup -> moved tup = false -> IsCurrentTransactionId (W 0) (t_xmin tup) = true ->
  HeapTupleHeaderXminFrozen tup = false ->
  wp c MVCC_own_insert s (fun r _ => r = inl (mvcc_visible c t0 sn tup)).
Proof using Hsn TimeLaws0.
  intros Ha Hown Hm Hcur Hf. unfold MVCC_own_insert, mvcc_visible, insert_seen. rewrite Hf, (seen_own _ _ Hcur).
  vstep. vstep. vstep. vstep. vstep. unfold wp at 1, GetCmin. cbn [fst snd].
  assert (Ht := proj2 Ha). rewrite (at_snapshot _ _ Ha), Ht, (Z.ltb_antisym _ (HeapTupleHeaderGetCmin _ _)).
  destruct (curcid sn <=? _) eqn:Hcmin; [by vstep|]. cbn [negb orb andb].
  destruct (has_flag (t_infomask tup) HEAP_XMAX_INVALID) eqn:Hi.
  { vstep. by erewrite xmax_invalid_unseen. }
  change (HEAP_XMAX_IS_LOCKED_ONLY (t_infomask tup)) with (locked_only tup).
  destruct (locked_only tup) eqn:Hl.
  { vstep. rewrite (delete_seen_false _ _ Ha); auto. }
  assert (Hab : IsCurrentTransactionId (W 0) (delete_xid W tup) = false -> delete_seen c t0 sn tup = false).
  { intros Hx. apply (delete_seen_false _ _ Ha). right. split; [|done].
    destruct (at_ok _ _ _ _ _ _ _ Ha) as [_ _ _ H]. apply H; rewrite ?(current_fixed _ 0); done. }
  destruct (has_flag (t_infomask tup) HEAP_XMAX_IS_MULTI) eqn:Hmu;
    [|unfold HeapTupleHeaderGetRawXmax; rewrite <- (delete_xid_single c tup Hmu)];
    vsteps; try (eapply self_deleted_spec; [eassumption|]; intros; by erewrite delete_seen_live; [|done|by apply seen_own]).
  - by rewrite Hab.
  - apply wp_SetHintBits; intros; vstep. by rewrite Hab.
Qed.

Lemma insert_seen_change tup b :
  HeapTupleHeaderXminFrozen tup = false ->
  change_seen c t0 sn (t_xmin tup) (HeapTupleHeaderGetCmin (combos c) tup) = b -> insert_seen c t0 sn tup = b.
Proof. unfold insert_seen. by intros -> ->. Qed.

Lemma insert_unseen tup :
  HeapTupleHeaderXminFrozen tup = false ->
  change_seen c t0 sn (t_xmin tup) (HeapTupleHeaderGetCmin (combos c) tup) = false ->
  mvcc_visible c t0 sn tup = false.
Proof. intros HF H. unfold mvcc_visible. by rewrite (insert_seen_change tup false). Qed.

Lemma MVCC_xmin_spec s :
  at_ tup0 s -> own_xmin_live c t0 tup0 -> own_xmax_live c t0 tup0 -> moved tup0 = false ->
  wp c MVCC_xmin s (fun r s' => match r with
    | inl b => b = mvcc_visible c t0 sn tup0
    | inr _ => insert_seen c t0 sn tup0 = true /\ vinv W Started tup0 t0 (eq sn) s'
               /\ (v_tuple s' = tup0 \/ v_tuple s' = add_hint HEAP_XMIN_COMMITTED tup0) end).
Proof using Hsn TimeLaws0.
  intros Ha Hown Hownx Hm. unfold MVCC_xmin. vstep. vstep.
  assert (Hmo := Hm). unfold moved, moved_off in Hmo. apply orb_false_iff in Hmo as [Hoff Hin].
  assert (Hso : hints_sound W (v_clock s) tup0) by (destruct Ha as [[? _ _ _ _] <-]; done).
  destruct (xmin_hints _ _ _ Hm Hso) as [Hinv Hcom].
  destruct (HeapTupleHeaderXminCommitted tup0) eqn:HC; cbn [negb].
  - unfold mvcc_visible, insert_seen. destruct (HeapTupleHeaderXminFrozen tup0) eqn:HF; cbn [negb orb].
    { vstep. destruct Ha. auto. }
    specialize (Hcom eq_refl eq_refl). assert (Hcur := committed_not_current _ _ Hcom). vmvcc.
    + unfold HeapTupleHeaderGetRawXmin in *. by rewrite (seen_running (t_xmin tup0)) by (assumption || vsnap).
    + unfold HeapTupleHeaderGetRawXmin in *.
      rewrite (seen_committed (t_xmin tup0) _ (v_clock s)); [destruct H; auto|vsnap|by eapply at_time|done].
  - assert (HF : HeapTupleHeaderXminFrozen tup0 = false).
    { rewrite XminFrozen_flags. unfold HeapTupleHeaderXminCommitted in HC. by rewrite HC. }
    destruct (HeapTupleHeaderXminInvalid tup0) eqn:HI.
    { vstep. symmetry. apply insert_unseen; [done|].
      eapply seen_aborted; [|by eapply at_time|by apply Hinv].
      unfold own_xmin_live in Hown. rewrite (current_fixed t0 0) in Hown.
      destruct (IsCurrentTransactionId (W 0) (t_xmin tup0)); [|done]. by rewrite Hown in HI. }
    rewrite Hoff, Hin. unfold HeapTupleHeaderGetRawXmin. vstep. vstep. vstep; [|vmvcc].
    + eapply wp_mono; [by eapply own_insert_spec|]. by intros r s1 ->.
    + symmetry. apply insert_unseen; [done|vchange].
    + assert (Hs : settled W (v_clock s'1) (t_xmin tup0) true) by auto.
      apply wp_SetHintBits. intros s2 Hle Hsn2 _ Ht2. split; [apply insert_seen_change; [done|vchange]|].
      destruct H8 as [Hi Ht]. rewrite Ht in Ht2. split; [|done].
      apply (vinv_hint W Started tup0 t0 (eq sn) s'1 s2 HEAP_XMIN_COMMITTED); try done; rewrite Ht; [done|].
      apply (just_xmin c _ _ (t_xmin tup0) true); try done.
      rewrite XminInvalid_flags in HI. unfold HeapTupleHeaderXminCommitted in HC. by rewrite HC in HI.
    + apply wp_SetHintBits. intros. vstep. symmetry. apply insert_unseen; [done|vchange].
Qed.

Lemma MVCC_spec s :
  at_ tup0 s -> own_xmin_live c t0 tup0 -> own_xmax_live c t0 tup0 -> moved tup0 = false ->
  (call HeapTupleSatisfiesMVCC c s).1 = mvcc_visible c t0 sn tup0.
Proof using Hsn TimeLaws0.
  intros Ha Hown Hownx Hm. apply (wp_call c _ s (fun r _ => r = mvcc_visible c t0 sn tup0)).
  unfold HeapTupleSatisfiesMVCC. apply wp_bind. eapply wp_mono; [by apply MVCC_xmin_spec|].
  intros [r|[]] s1; [done|]. intros (Hin & Hi1 & Ht1).
  eapply wp_mono; [apply (MVCC_xmax_spec (v_tuple s1)); [done|]|].
  - destruct Ht1 as [->| ->]; [done|by apply own_xmax_live_hint].
  - unfold mvcc_visible. rewrite Hin, (delete_seen_ext c t0 sn tup0 (v_tuple s1)) by apply Hi1.
    by intros [b|b] s2 Hb.
Qed.

End MVCC.

(** ** The theorems *)

(** What holds when an MVCC check starts: hint bits and references of the
    tuple are in order, the snapshot was taken by [t0], the tuple was not
    moved by a pre-9.0 VACUUM FULL, and the observer's own work is not marked
    as aborted. *)
Record mvcc_ready (c : Context_) (Started : TransactionId -> Prop) (t0 : nat) (s : VState) : Prop := {
  ready_sound : hints_sound (world c) (v_clock s) (v_tuple s);
  ready_tuple : tuple_ok (world c) Started (v_clock s) (v_tuple s);
  ready_snapshot : snapshot_law (world c) t0 (v_snapshot s);
  ready_time : (t0 <= v_clock s)%nat;
  ready_moved : moved (v_tuple s) = false;
  ready_xmin : own_xmin_live c t0 (v_tuple s);
  ready_xmax : own_xmax_live c t0 (v_tuple s);
}.

Lemma vinv_start c Started t0 (P : SnapshotData -> Prop) s :
  hints_sound (world c) (v_clock s) (v_tuple s) -> tuple_ok (world c) Started (v_clock s) (v_tuple s) ->
  (t0 <= v_clock s)%nat -> P (v_snapshot s) -> vinv (world c) Started (v_tuple s) t0 P s.
Proof. intros. split; try done. apply hint_ext_refl. Qed.

Lemma mvcc_ready_spec c Started `{!TimeLaws (world c) Started} t0 s :
  mvcc_ready c Started t0 s ->
  (call HeapTupleSatisfiesMVCC c s).1 = mvcc_visible c t0 (v_snapshot s) (v_tuple s).
Proof.
  intros [H1 H2 H3 H4 H5 H6 H7]. apply (MVCC_spec c Started (v_tuple s) t0 (v_snapshot s)); try done.
  split; [by apply vinv_start|done].
Qed.

(** C10. HeapTupleSatisfiesMVCC answers whether, at the instant the snapshot was
    taken, the insertion of the tuple was visible and its deletion was not,
    whatever other transactions do during the call and however many hint bits
    are already set. *)
Theorem HeapTupleSatisfiesMVCC_spec c Started (HL : TimeLaws (world c) Started) t0 s :
  mvcc_ready c Started t0 s ->
  (call HeapTupleSatisfiesMVCC c s).1 = mvcc_visible c t0 (v_snapshot s) (v_tuple s).
Proof. apply mvcc_ready_spec. done. Qed.

Lemma example_ready t : (4 <= t)%nat -> mvcc_ready example_context (fun _ => True) 4 (example_state SNAPSHOT_MVCC t).
Proof.
  intros Ht. split; [apply example_hints_sound|apply example_tuple_ok|apply example_snapshot_law|done..].
Qed.

(** Transaction 12 commits while the check runs; the snapshot does not see it. *)
Lemma HeapTupleSatisfiesMVCC_spec_witness :
  (call HeapTupleSatisfiesMVCC example_context (example_state SNAPSHOT_MVCC 4)).1 = true.
Proof.
  rewrite (HeapTupleSatisfiesMVCC_spec _ _ example_laws 4); [reflexivity|]. apply example_ready. lia.
Defined.

(** A snapshot does not change its mind: checked again at any later time,
    after any backend has set hint bits on the tuple, the answer is the
    same. *)
Theorem HeapTupleSatisfiesMVCC_repeatable c Started (HL : TimeLaws (world c) Started) t0 s1 s2 :
  mvcc_ready c Started t0 s1 -> mvcc_ready c Started t0 s2 -> v_snapshot s1 = v_snapshot s2 ->
  hint_ext (v_tuple s1) (v_tuple s2) ->
  HeapTupleHeaderXminFrozen (v_tuple s1) = HeapTupleHeaderXminFrozen (v_tuple s2) ->
  (call HeapTupleSatisfiesMVCC c s1).1 = (call HeapTupleSatisfiesMVCC c s2).1.
Proof.
  intros H1 H2 Hsn Hext HF. rewrite !(mvcc_ready_spec c Started t0) by done. rewrite Hsn.
  unfold mvcc_visible, insert_seen. rewrite HF, (delete_seen_ext c t0 _ _ (v_tuple s2)) by done.
  rewrite (hint_ext_cmin (combos c) (v_tuple s1) (v_tuple s2)) by done. by destruct Hext as (-> & _).
Qed.

(** The tuple again at instant 9, with the inserter hinted as committed. *)
Definition example_later : VState :=
  mkVState (add_hint HEAP_XMIN_COMMITTED example_tuple) (example_snapshot SNAPSHOT_MVCC) 0 9 true.

Lemma example_later_ready : mvcc_ready example_context (fun _ => True) 4 example_later.
Proof.
  split; [|apply tuple_ok_hint; [by left|apply example_tuple_ok]|apply example_snapshot_law|simpl; lia|done..].
  apply hints_sound_add; [apply example_hints_sound|]. by left.
Qed.

(** Before and after transaction 12 commits. *)
Lemma HeapTupleSatisfiesMVCC_repeatable_witness :
  DidCommit (world example_context 4) 12 = false /\ DidCommit (world example_context 9) 12 = true
  /\ (call HeapTupleSatisfiesMVCC example_context (example_state SNAPSHOT_MVCC 4)).1
     = (call HeapTupleSatisfiesMVCC example_context example_later).1.
Proof.
  split; [reflexivity|split; [reflexivity|]].
  apply (HeapTupleSatisfiesMVCC_repeatable _ _ example_laws 4); try reflexivity.
  - apply example_ready. lia.
  - apply example_later_ready.
  - apply hint_ext_add; [apply hint_ext_refl|by left].
Defined.

(** ** Hint bits *)

(** A call changes at most hint bits, and every hint on the tuple afterwards is
    true and will stay true. *)
Definition keeps_hints (c : Context_) (Started : TransactionId -> Prop) {R} (body : M R R) (s : VState) : Prop :=
  let s' := (call body c s).2 in
  hint_ext (v_tuple s) (v_tuple s') /\ hints_sound (world c) (v_clock s') (v_tuple s')
  /\ tuple_ok (world c) Started (v_clock s') (v_tuple s').

Lemma sound_keeps c Started t0 P {R} (body : M R R) s :
  vinv (world c) Started (v_tuple s) t0 P s -> sound c Started (v_tuple s) t0 P body ->
  keeps_hints c Started body s.
Proof.
  intros Hi Hb. unfold keeps_hints. apply (wp_call c body s (fun _ s' => hint_ext (v_tuple s) (v_tuple s')
    /\ hints_sound (world c) (v_clock s') (v_tuple s') /\ tuple_ok (world c) Started (v_clock s') (v_tuple s'))).
  eapply wp_mono; [by apply Hb|]. by intros [r|r] s' [H1 H2 H3 _ _].
Qed.

(** C24. A visibility check with any kind of snapshot changes at most hint bits
    of the tuple, and keeps every hint true, although other transactions may
    commit or abort between any two steps of it. *)
Theorem HeapTupleSatisfiesVisibility_hints c Started (HL : TimeLaws (world c) Started) s :
  hints_sound (world c) (v_clock s) (v_tuple s) -> tuple_ok (world c) Started (v_clock s) (v_tuple s) ->
  (snapshot_type (v_snapshot s) = SNAPSHOT_MVCC -> snapshot_law (world c) (v_clock s) (v_snapshot s)) ->
  keeps_hints c Started HeapTupleSatisfiesVisibility s.
Proof.
  intros H1 H2 H3. unfold HeapTupleSatisfiesVisibility, keeps_hints, call, bind. simpl.
  change (keeps_hints c Started (match snapshot_type (v_snapshot s) with
    | SNAPSHOT_MVCC => HeapTupleSatisfiesMVCC | SNAPSHOT_SELF => HeapTupleSatisfiesSelf
    | SNAPSHOT_ANY => HeapTupleSatisfiesAny | SNAPSHOT_TOAST => HeapTupleSatisfiesToast
    | SNAPSHOT_DIRTY => HeapTupleSatisfiesDirty | SNAPSHOT_HISTORIC_MVCC => HeapTupleSatisfiesHistoricMVCC
    | SNAPSHOT_NON_VACUUMABLE => HeapTupleSatisfiesNonVacuumable end) s).
  destruct (snapshot_type (v_snapshot s)) eqn:Ht.
  1: apply (sound_keeps c Started (v_clock s) (eq (v_snapshot s)));
     [by apply vinv_start|apply MVCC_sound; [done|]; by intros sn <-; apply H3].
  all: apply (sound_keeps c Started (v_clock s) (fun _ => True)); [by apply vinv_start|].
  - by apply Self_sound.
  - by apply Any_sound.
  - by apply Toast_sound.
  - by apply Dirty_sound.
  - by apply Historic_sound.
  - by apply NonVacuumable_sound.
Qed.

Lemma HeapTupleSatisfiesVisibility_hints_witness :
  keeps_hints example_context (fun _ => True) HeapTupleSatisfiesVisibility (example_state SNAPSHOT_MVCC 4)
  /\ t_infomask (v_tuple (call HeapTupleSatisfiesVisibility example_context (example_state SNAPSHOT_MVCC 4)).2)
     = HEAP_XMIN_COMMITTED.
Proof.
  split; [|reflexivity]. apply (HeapTupleSatisfiesVisibility_hints _ _ example_laws).
  - apply example_hints_sound.
  - apply example_tuple_ok.
  - intros _. apply (example_snapshot_law SNAPSHOT_MVCC).
Defined.

(** Locking or updating a row and vacuuming keep hint bits true as well. *)
Theorem HeapTupleSatisfiesUpdate_Vacuum_hints c Started (HL : TimeLaws (world c) Started) s self cid OldestXmin :
  hints_sound (world c) (v_clock s) (v_tuple s) -> tuple_ok (world c) Started (v_clock s) (v_tuple s) ->
  keeps_hints c Started (HeapTupleSatisfiesUpdate self cid) s
  /\ keeps_hints c Started (HeapTupleSatisfiesVacuum OldestXmin) s.
Proof.
  intros H1 H2.
  assert (Hi : vinv (world c) Started (v_tuple s) (v_clock s) (fun _ => True) s) by by apply vinv_start.
  split; apply (sound_keeps _ _ _ _ _ _ Hi); [by apply Update_sound|by apply SatisfiesVacuum_sound].
Qed.

Lemma HeapTupleSatisfiesUpdate_Vacuum_hints_witness :
  keeps_hints example_context (fun _ => True) (HeapTupleSatisfiesUpdate (mkItemPointer 0 1) 3) (example_state SNAPSHOT_ANY 9)
  /\ t_infomask (v_tuple (call (HeapTupleSatisfiesUpdate (mkItemPointer 0 1) 3) example_context (example_state SNAPSHOT_ANY 9)).2)
     = Z.lor HEAP_XMIN_COMMITTED HEAP_XMAX_COMMITTED.
Proof.
  split; [|reflexivity].
  exact (proj1 (HeapTupleSatisfiesUpdate_Vacuum_hints example_context (fun _ => True) example_laws
    (example_state SNAPSHOT_ANY 9) (mkItemPointer 0 1) 3 10 (example_hints_sound 9) (example_tuple_ok 9))).
Defined.
