(* ===== verification/VisVacuum.v ===== *)
(** * VisVacuum: what vacuum may remove

    What each answer of [HeapTupleSatisfiesVacuumHorizon] means, and that a
    tuple called dead is invisible to every snapshot that respects the
    horizon; the cheaper test of the index-scan path agrees with the full one;
    and when a commit hint may be set ahead of the WAL. *)

From S2P Require Import Prelude TransactionId HeapTuple Visibility VisLogic VisSound VisWorld VisMVCC.

Open Scope vis_scope.

(** ** The meaning of the answers *)

Section Meaning.
Context (W : nat -> World) (t0 t : nat) (tup : HeapTupleHeaderData).

(** Seen running, or not running, at some instant of the call. *)
Definition seen_running_at (b : bool) (x : TransactionId) : Prop :=
  exists t1, (t0 <= t1 <= t)%nat /\ IsInProgress (W t1) x = b.

(** The inserting transaction will never have committed. *)
Definition insert_failed : Prop :=
  HeapTupleHeaderXminFrozen tup = false /\ settled W t (t_xmin tup) false
  /\ (HeapTupleHeaderXminInvalid tup = true
      \/ IsCurrentTransactionId (W 0) (t_xmin tup) = false /\ seen_running_at false (t_xmin tup)).

Definition insert_done : Prop := HeapTupleHeaderXminFrozen tup = true \/ settled W t (t_xmin tup) true.

Definition delete_none : Prop := locked_only tup = true \/ settled W t (delete_xid W tup) false.

Definition delete_done : Prop := locked_only tup = false /\ settled W t (delete_xid W tup) true.

Definition horizon_meaning (dead_after : TransactionId) (r : HTSV_Result) : Prop :=
  match r with
  | HEAPTUPLE_DEAD => insert_failed
  | HEAPTUPLE_LIVE => insert_done /\ delete_none
  | HEAPTUPLE_RECENTLY_DEAD => insert_done /\ delete_done /\ dead_after = delete_xid W tup
  | HEAPTUPLE_INSERT_IN_PROGRESS =>
      IsCurrentTransactionId (W 0) (t_xmin tup) = true \/ seen_running_at true (t_xmin tup)
  | HEAPTUPLE_DELETE_IN_PROGRESS =>
      locked_only tup = false
      /\ (IsCurrentTransactionId (W 0) (delete_xid W tup) = true \/ seen_running_at true (delete_xid W tup))
  end.

End Meaning.

Section Horizon.
Context (c : Context_) (Started : TransactionId -> Prop) `{!TimeLaws (world c) Started}.
Context (tup0 : HeapTupleHeaderData) (t0 : nat).
Abbreviation W := (world c).
Abbreviation inv := (vinv W Started tup0 t0 (fun _ => True)).
Abbreviation at_ := (at_tuple c Started tup0 t0 (fun _ => True)).

Lemma at_progress {R} tup x s (Q : R + bool -> VState -> Prop) :
  at_ tup s ->
  (forall b s', at_ tup s' -> (v_clock s <= v_clock s')%nat ->
     (b = false -> startedz Started x -> final_now c s' x) ->
     seen_running_at W t0 (v_clock s') b x -> Q (inr b) s') ->
  wp c (TransactionIdIsInProgress x) s Q.
Proof using TimeLaws0.
  intros Ha HQ. apply wp_query, HQ; [by apply at_tick|simpl; lia| |].
  - intros Hb Hx t Ht. eapply lookup_finalz; eauto. simpl in Ht. lia.
  - exists (v_clock s). simpl. split; [|done]. destruct Ha as [[_ _ _ ? _] _]. lia.
Qed.

Lemma seen_running_mono t t' b x : (t <= t')%nat -> seen_running_at W t0 t b x -> seen_running_at W t0 t' b x.
Proof. intros Hle (t1 & H1 & H2). exists t1. split; [lia|done]. Qed.

Lemma at_dead_after {R} tup x s (Q : R + unit -> VState -> Prop) :
  at_ tup s -> (forall s', at_ tup s' -> v_clock s' = v_clock s -> v_dead_after s' = x -> Q (inr tt) s') ->
  wp c (set_dead_after x) s Q.
Proof using TimeLaws0.
  intros [Hi Ht] HQ. unfold wp, set_dead_after. simpl. apply HQ; [split|..]; simpl; try done.
  by apply (vinv_step _ _ _ _ _ s).
Qed.

Lemma at_hint_later {R} tup h x s (Q : R + unit -> VState -> Prop) :
  at_ tup s -> hint_ok W (v_clock s) tup h ->
  (forall s', inv s' -> (v_clock s <= v_clock s')%nat -> v_dead_after s' = v_dead_after s -> Q (inr tt) s') ->
  wp c (SetHintBits h x) s Q.
Proof using TimeLaws0.
  intros [Hi Ht] Hok HQ. apply wp_SetHintBits. intros s' Hle Hsn Hd Ht'. apply HQ; [|done|done].
  rewrite <- Ht in Hok. by eapply vinv_hint.
Qed.

Ltac vrun :=
  repeat first
    [match goal with
     | H : at_tuple _ _ _ _ _ _ ?s |- wp _ (TransactionIdIsInProgress _) ?s _ =>
         apply (at_progress _ _ _ _ H); intros ? ? ? ? ? ?
     | H : at_tuple _ _ _ _ _ _ ?s |- wp _ (set_dead_after _) ?s _ =>
         apply (at_dead_after _ _ _ _ H); intros ? ? ? ?
     end
    |vstep].

(** After the xmin phase: the insertion is done; or an answer. *)
Definition post (r : HTSV_Result + HTSV_Result) (s : VState) : Prop :=
  match r with
  | inl r => horizon_meaning W t0 (v_clock s) tup0 (v_dead_after s) r
  | inr r => horizon_meaning W t0 (v_clock s) tup0 (v_dead_after s) r
  end.

Definition xmin_post (r : HTSV_Result + unit) (s : VState) : Prop :=
  match r with
  | inl r => horizon_meaning W t0 (v_clock s) tup0 (v_dead_after s) r
  | inr _ => insert_done W (v_clock s) tup0 /\ inv s
  end.

Lemma not_locked_only m : HEAP_XMAX_IS_LOCKED_ONLY m = false -> has_flag m HEAP_XMAX_LOCK_ONLY = false.
Proof. unfold HEAP_XMAX_IS_LOCKED_ONLY. by destruct (has_flag m HEAP_XMAX_LOCK_ONLY). Qed.

Lemma at_deleter {R} tup s (Q : R + TransactionId -> VState -> Prop) :
  at_ tup s -> has_flag (t_infomask tup) HEAP_XMAX_INVALID = false ->
  HEAP_XMAX_IS_LOCKED_ONLY (t_infomask tup) = false ->
  (forall s', at_ tup s' -> Q (inr (delete_xid W tup)) s') -> wp c HeapTupleHeaderGetUpdateXid s Q.
Proof using TimeLaws0.
  intros Ha Hi Hl HQ. unfold HeapTupleHeaderGetUpdateXid. vstep. vstep.
  rewrite Hi, (not_locked_only _ Hl), andb_true_r. cbn [negb andb].
  destruct (has_flag (t_infomask tup) HEAP_XMAX_IS_MULTI) eqn:Hm.
  - vstep. by apply HQ.
  - vstep. unfold HeapTupleHeaderGetRawXmax. rewrite <- (delete_xid_single c tup Hm). by apply HQ.
Qed.

Lemma Vacuum_own_insert_spec s :
  at_ tup0 s -> IsCurrentTransactionId (W 0) (t_xmin tup0) = true -> wp c Vacuum_own_insert s xmin_post.
Proof using TimeLaws0.
  intros Ha Hcur. unfold Vacuum_own_insert. vrun; simpl; auto.
  unfold HeapTupleHeaderIsOnlyLocked. vrun; simpl; auto;
    (eapply at_deleter; [eassumption..|]; intros; vrun; simpl; auto).
Qed.

(** The shape of the xmin phases that ask whether the inserter is running. *)
Lemma xmin_phase_spec {R} (rrun rfail : R) (moff min own : M R unit) s (Q : R + unit -> VState -> Prop) :
  at_ tup0 s -> moved tup0 = false ->
  (forall s', at_ tup0 s' -> IsCurrentTransactionId (W 0) (t_xmin tup0) = true -> wp c own s' Q) ->
  (forall s', seen_running_at W t0 (v_clock s') true (t_xmin tup0) -> Q (inl rrun) s') ->
  (forall s', insert_failed W t0 (v_clock s') tup0 -> Q (inl rfail) s') ->
  (forall s', insert_done W (v_clock s') tup0 -> inv s' -> Q (inr tt) s') ->
  wp c (if negb (HeapTupleHeaderXminCommitted tup0) then
          if HeapTupleHeaderXminInvalid tup0 then Return rfail
          else if has_flag (t_infomask tup0) HEAP_MOVED_OFF then moff
          else if has_flag (t_infomask tup0) HEAP_MOVED_IN then min
          else
            let* cur := TransactionIdIsCurrentTransactionId (HeapTupleHeaderGetRawXmin tup0) in
            if cur then own
            else
              let* inprog := TransactionIdIsInProgress (HeapTupleHeaderGetRawXmin tup0) in
              if inprog then Return rrun
              else
                let* committed := q_DidCommit (HeapTupleHeaderGetRawXmin tup0) in
                if committed then SetHintBits HEAP_XMIN_COMMITTED (HeapTupleHeaderGetRawXmin tup0)
                else SetHintBits HEAP_XMIN_INVALID InvalidTransactionId;; Return rfail
        else ret tt) s Q.
Proof using TimeLaws0.
  intros Ha Hm Hown Hrun Hfail Hdone.
  assert (Hmo := Hm). unfold moved, moved_off in Hmo. apply orb_false_iff in Hmo as [Hoff Hin].
  assert (Hso : hints_sound W (v_clock s) tup0) by (destruct Ha as [[? _ _ _ _] <-]; done).
  destruct (xmin_hints _ _ _ Hm Hso) as [Hinv Hcom].
  destruct (HeapTupleHeaderXminCommitted tup0) eqn:HC; cbn [negb].
  { vstep. apply Hdone; [|apply Ha]. unfold insert_done. destruct (HeapTupleHeaderXminFrozen tup0); auto. }
  assert (HF : HeapTupleHeaderXminFrozen tup0 = false).
  { rewrite XminFrozen_flags. unfold HeapTupleHeaderXminCommitted in HC. by rewrite HC. }
  destruct (HeapTupleHeaderXminInvalid tup0) eqn:HI.
  { vstep. apply Hfail. unfold insert_failed. auto. }
  rewrite Hoff, Hin. unfold HeapTupleHeaderGetRawXmin. vrun; auto.
  all: assert (Hst := xmin_started _ _ _ _ _ _ _ Ha Hm); vknown.
  all: assert (Hu : xmin_unknown tup0) by (rewrite XminInvalid_flags in HI;
         unfold xmin_unknown, HeapTupleHeaderXminCommitted in *; by rewrite HC in *).
  all: eapply at_hint_later; [eassumption| |intros s2 Hi2 Hle _; try vstep].
  - by apply (just_xmin c _ _ (t_xmin tup0) true).
  - apply Hdone; [right; by eapply settled_mono|done].
  - by apply (just_xmin c _ _ (t_xmin tup0) false).
  - apply Hfail. split; [done|]. split; [by eapply settled_mono|]. right.
    split; [done|]. eapply seen_running_mono; [|eassumption]. lia.
Qed.

Lemma Vacuum_xmin_spec s :
  at_ tup0 s -> moved tup0 = false -> wp c Vacuum_xmin s xmin_post.
Proof using TimeLaws0.
  intros Ha Hm. unfold Vacuum_xmin. vstep. apply (at_dead_after _ _ _ _ Ha). intros s1 Ha1 _ _. vstep. vstep.
  apply xmin_phase_spec; try done; simpl; auto using Vacuum_own_insert_spec.
Qed.

(** The deletion's half. *)
Definition xmax_meaning (tup : HeapTupleHeaderData) (s : VState) (r : HTSV_Result) : Prop :=
  match r with
  | HEAPTUPLE_LIVE => delete_none W (v_clock s) tup
  | HEAPTUPLE_RECENTLY_DEAD => delete_done W (v_clock s) tup /\ v_dead_after s = delete_xid W tup
  | HEAPTUPLE_DELETE_IN_PROGRESS =>
      locked_only tup = false /\ seen_running_at W t0 (v_clock s) true (delete_xid W tup)
  | _ => False
  end.

Definition xmax_post (tup : HeapTupleHeaderData) (t : nat) (r : HTSV_Result + HTSV_Result) (s : VState) : Prop :=
  (t <= v_clock s)%nat /\ match r with inl r => xmax_meaning tup s r | inr r => xmax_meaning tup s r end.

Lemma Vacuum_xmax_locked_spec tup s :
  at_ tup s -> locked_only tup = true -> wp c Vacuum_xmax_locked s (xmax_post tup (v_clock s)).
Proof using TimeLaws0.
  intros Ha Hl. assert (Hn : forall t, delete_none W t tup) by (intros t; by left).
  unfold Vacuum_xmax_locked. vrun; try (split; [simpl; lia|apply Hn]);
    (eapply at_hint_later; [eassumption|by apply just_locked|];
     intros s2 Hi2 Hle2 Hd2; vstep; split; [lia|apply Hn]).
Qed.

Lemma Vacuum_xmax_multi_spec tup s :
  at_ tup s -> locked_only tup = false -> has_flag (t_infomask tup) HEAP_XMAX_IS_MULTI = true ->
  wp c Vacuum_xmax_multi s (xmax_post tup (v_clock s)).
Proof using TimeLaws0.
  intros Ha Hl Hm. assert (Hst := delete_xid_started _ _ _ _ (at_ok _ _ _ _ _ _ _ Ha)).
  unfold Vacuum_xmax_multi. vrun; try vknown; try (split; [simpl; lia|]; simpl).
  - by split.
  - split; [split|]; [done|by eapply settled_mono; [| |eassumption]; [done|lia]|done].
  - right. eapply settled_mono; [done| |eassumption]. lia.
  - right. eapply settled_mono; [done| |eassumption]. lia.
Qed.

Lemma Vacuum_xmax_spec tup s : at_ tup s -> wp c Vacuum_xmax s (xmax_post tup (v_clock s)).
Proof using TimeLaws0.
  intros Ha. unfold Vacuum_xmax. vstep. vstep.
  assert (Hso : hints_sound W (v_clock s) tup) by (destruct Ha as [[? _ _ _ _] <-]; done).
  destruct (has_flag (t_infomask tup) HEAP_XMAX_INVALID) eqn:Hi.
  { vstep. split; [done|]. by apply (xmax_invalid_sound _ _ _ Hso). }
  change (HEAP_XMAX_IS_LOCKED_ONLY (t_infomask tup)) with (locked_only tup).
  destruct (locked_only tup) eqn:Hl; [by apply Vacuum_xmax_locked_spec|].
  destruct (has_flag (t_infomask tup) HEAP_XMAX_IS_MULTI) eqn:Hm; [by apply Vacuum_xmax_multi_spec|].
  assert (Hst := delete_xid_started _ _ _ _ (at_ok _ _ _ _ _ _ _ Ha)).
  unfold HeapTupleHeaderGetRawXmax. rewrite <- (delete_xid_single c tup Hm).
  vrun; try vknown.
  - split; [lia|]. split; [split; [done|]|done]. rewrite H0.
    destruct (xmax_committed_sound _ _ _ Hso Heqb) as [?|[?|?]]; congruence || done.
  - split; [simpl; lia|]. by split.
  - apply wp_SetHintBits. intros s2 Hle _ _ _. unfold wp. simpl. split; [simpl; lia|].
    split; [split; [done|]|done]. by eapply settled_mono.
  - apply wp_SetHintBits. intros s2 Hle _ _ _. vstep. split; [lia|]. right. by eapply settled_mono.
Qed.

Lemma delete_meaning_ext tup t : hint_ext tup0 tup ->
  (delete_none W t tup <-> delete_none W t tup0) /\ (delete_done W t tup <-> delete_done W t tup0).
Proof.
  intros He. unfold delete_none, delete_done.
  by rewrite (hint_ext_locked tup0 tup He), (hint_ext_delete_xid W tup0 tup He).
Qed.

Lemma insert_done_mono t t' : (t <= t')%nat -> insert_done W t tup0 -> insert_done W t' tup0.
Proof using TimeLaws0. intros Hle [?|?]; [by left|right]. by eapply settled_mono. Qed.

Lemma Horizon_spec s :
  at_ tup0 s -> moved tup0 = false -> wp c HeapTupleSatisfiesVacuumHorizon s post.
Proof using TimeLaws0.
  intros Ha Hm. unfold HeapTupleSatisfiesVacuumHorizon. apply wp_bind.
  eapply wp_mono; [by apply Vacuum_xmin_spec|]. intros [r|[]] s1; [done|]. intros [Hd Hi1].
  eapply wp_mono; [apply (Vacuum_xmax_spec (v_tuple s1)); done|]. intros r s2 [Hle Hr].
  assert (He : hint_ext tup0 (v_tuple s1)) by apply Hi1.
  assert (Hr' : match r with inl r => xmax_meaning tup0 s2 r | inr r => xmax_meaning tup0 s2 r end).
  { destruct (delete_meaning_ext _ (v_clock s2) He) as [H1 H2].
    destruct r as [[]|[]]; simpl in *; rewrite ?(hint_ext_delete_xid W _ _ He), ?(hint_ext_locked _ _ He) in Hr; tauto. }
  assert (Hd' := insert_done_mono _ _ Hle Hd). by destruct r as [[]|[]]; simpl in *; naive_solver.
Qed.

End Horizon.

(** ** The theorems *)

Lemma horizon_call c Started `{!TimeLaws (world c) Started} s :
  hints_sound (world c) (v_clock s) (v_tuple s) -> tuple_ok (world c) Started (v_clock s) (v_tuple s) ->
  moved (v_tuple s) = false ->
  let '(r, s') := call HeapTupleSatisfiesVacuumHorizon c s in
  horizon_meaning (world c) (v_clock s) (v_clock s') (v_tuple s) (v_dead_after s') r.
Proof.
  intros H1 H2 H3. assert (Ha : at_tuple c Started (v_tuple s) (v_clock s) (fun _ => True) (v_tuple s) s).
  { split; [by apply vinv_start|done]. }
  assert (Hw := Horizon_spec c Started (v_tuple s) (v_clock s) s Ha H3). unfold wp in Hw. unfold call.
  by destruct (HeapTupleSatisfiesVacuumHorizon c s) as [[r|r] s'].
Qed.

(** C32. Every answer of HeapTupleSatisfiesVacuumHorizon is right: dead means the
    insertion never committed, live that it did and no deletion ever
    commits, recently dead that the deletion has committed and dead_after
    names its transaction, and the in-progress answers that the transaction
    was this backend's or was running at some instant of the call. *)
Theorem HeapTupleSatisfiesVacuumHorizon_spec c Started (HL : TimeLaws (world c) Started) s :
  hints_sound (world c) (v_clock s) (v_tuple s) -> tuple_ok (world c) Started (v_clock s) (v_tuple s) ->
  moved (v_tuple s) = false ->
  let '(r, s') := call HeapTupleSatisfiesVacuumHorizon c s in
  horizon_meaning (world c) (v_clock s) (v_clock s') (v_tuple s) (v_dead_after s') r.
Proof. by apply horizon_call. Qed.

Lemma HeapTupleSatisfiesVacuumHorizon_spec_witness :
  horizon_meaning (world example_context) 9 18 example_tuple 12 HEAPTUPLE_RECENTLY_DEAD.
Proof.
  exact (HeapTupleSatisfiesVacuumHorizon_spec example_context _ example_laws (example_state SNAPSHOT_ANY 9)
    (example_hints_sound 9) (example_tuple_ok 9) eq_refl).
Defined.

(** Another backend that looks at the same system while the call runs: it sees
    the same commits and multixacts, and its own transactions are running. *)
Record observer (c c2 : Context_) : Prop := {
  same_commits : forall t x, DidCommit (world c2 t) x = DidCommit (world c t) x;
  same_members : forall t m b, MultiXactMembers (world c2 t) m b = MultiXactMembers (world c t) m b;
  observer_runs : forall t t' x, IsCurrentTransactionId (world c2 t) x = true -> IsInProgress (world c t') x = true;
}.

Lemma same_delete_xid c c2 tup : observer c c2 -> delete_xid (world c2) tup = delete_xid (world c) tup.
Proof. intros [_ H _]. unfold delete_xid. by rewrite H. Qed.

(** A failed insertion is not seen by any observer. *)
Lemma insert_failed_unseen c Started `{!TimeLaws (world c) Started} c2 t0 t1 t sn tup :
  observer c c2 -> own_xmin_live c2 t0 tup -> insert_failed (world c) t1 t tup -> insert_seen c2 t0 sn tup = false.
Proof.
  intros Hob Hlive (HF & Hs & Hcase). unfold insert_seen, change_seen, xid_seen. rewrite HF. simpl.
  destruct (IsCurrentTransactionId (world c2 t0) (t_xmin tup)) eqn:Hcur.
  - destruct Hcase as [HI|[_ (t2 & _ & Hr)]]; [by rewrite (Hlive Hcur) in HI|].
    by rewrite (observer_runs _ _ Hob _ t2 _ Hcur) in Hr.
  - apply andb_false_iff. right. rewrite (same_commits _ _ Hob).
    destruct (DidCommit (world c t0) (t_xmin tup)) eqn:Hd; [|done].
    apply (commit_stable _ (t0 + t)%nat) in Hd; [|lia]. rewrite (Hs (t0 + t)%nat) in Hd; [done|lia].
Qed.

(** A deletion that committed is seen by every observer whose snapshot does not
    take the deleter for running. *)
Lemma delete_done_seen c Started2 c2 `{!TimeLaws (world c2) Started2} t0 t sn tup :
  observer c c2 -> snapshot_law (world c2) t0 sn -> delete_done (world c) t tup ->
  XidInMVCCSnapshot (TopmostTransaction (world c2 t0)) (delete_xid (world c) tup) sn = false ->
  delete_seen c2 t0 sn tup = true.
Proof.
  intros Hob Hsn [Hl Hs] Hin. unfold delete_seen, change_seen, xid_seen.
  rewrite Hl, (same_delete_xid c c2) by done. simpl in *. set (x := delete_xid (world c) tup) in *.
  rewrite <- (same_commits _ _ Hob) in Hs.
  assert (Hcur : IsCurrentTransactionId (world c2 t0) x = false).
  { destruct (IsCurrentTransactionId _ x) eqn:Hc; [|done]. rewrite (current_fixed t0 t) in Hc.
    apply current_uncommitted in Hc. congruence. }
  rewrite Hcur, Hin, (Hsn x t0 (t0 + t)%nat) by (done || lia). simpl. eapply commit_stable; [|exact Hs]. lia.
Qed.

Lemma precedes_horizon o x oldest xmin :
  in_window o x -> in_window o oldest -> in_window o xmin ->
  TransactionIdPrecedes x oldest = true -> TransactionIdPrecedesOrEquals oldest xmin = true ->
  TransactionIdPrecedes x xmin = true.
Proof.
  intros Hx Ho Hm. rewrite (precedes_window o x oldest), (precedes_window o x xmin),
    (precedes_or_equals_window o oldest xmin) by done.
  lia.
Qed.

(** What a dead answer of [HeapTupleSatisfiesVacuum] rests on. *)
Lemma vacuum_dead c Started `{!TimeLaws (world c) Started} s OldestXmin :
  hints_sound (world c) (v_clock s) (v_tuple s) -> tuple_ok (world c) Started (v_clock s) (v_tuple s) ->
  moved (v_tuple s) = false -> (call (HeapTupleSatisfiesVacuum OldestXmin) c s).1 = HEAPTUPLE_DEAD ->
  exists t, insert_failed (world c) (v_clock s) t (v_tuple s)
  \/ delete_done (world c) t (v_tuple s)
     /\ TransactionIdPrecedes (delete_xid (world c) (v_tuple s)) OldestXmin = true.
Proof.
  intros H1 H2 H3. assert (Hh := horizon_call c Started s H1 H2 H3).
  unfold call, HeapTupleSatisfiesVacuum, bind, invoke.
  destruct (call HeapTupleSatisfiesVacuumHorizon c s) as [r s']. intros Hd. exists (v_clock s').
  destruct r; simpl in *; try done; [by left|right].
  destruct Hh as (_ & Hdone & Hx). rewrite Hx in Hd.
  by destruct (TransactionIdPrecedes (delete_xid (world c) (v_tuple s)) OldestXmin).
Qed.

(** What vacuum calls dead nobody can see: for every backend whose snapshot
    is not older than OldestXmin, HeapTupleSatisfiesMVCC rejects the tuple. *)
Theorem HeapTupleSatisfiesVacuum_dead_invisible c Started (HL : TimeLaws (world c) Started)
    c2 Started2 (HL2 : TimeLaws (world c2) Started2) s OldestXmin o t0 s2 :
  hints_sound (world c) (v_clock s) (v_tuple s) -> tuple_ok (world c) Started (v_clock s) (v_tuple s) ->
  moved (v_tuple s) = false -> (call (HeapTupleSatisfiesVacuum OldestXmin) c s).1 = HEAPTUPLE_DEAD ->
  observer c c2 -> mvcc_ready c2 Started2 t0 s2 -> v_tuple s2 = v_tuple s ->
  (forall t, DidCommit (world c t) (delete_xid (world c) (v_tuple s)) = true ->
     in_window o (delete_xid (world c) (v_tuple s))) ->
  in_window o OldestXmin -> in_window o (snap_xmin (v_snapshot s2)) ->
  TransactionIdPrecedesOrEquals OldestXmin (snap_xmin (v_snapshot s2)) = true ->
  (call HeapTupleSatisfiesMVCC c2 s2).1 = false.
Proof.
  intros H1 H2 H3 Hd Hob Hready Ht Hw Ho Hm Hle. rewrite (mvcc_ready_spec c2 Started2 t0 s2 Hready), Ht.
  destruct Hready as [_ _ Hsn _ _ Hlive _]. rewrite Ht in Hlive. unfold mvcc_visible.
  destruct (vacuum_dead c Started s OldestXmin H1 H2 H3 Hd) as [t [Hf|[Hdone Hp]]].
  - by rewrite (insert_failed_unseen c Started c2 t0 (v_clock s) t).
  - rewrite (delete_done_seen c Started2 c2 t0 t); [apply andb_false_r|done..|].
    unfold XidInMVCCSnapshot. rewrite (precedes_horizon o _ OldestXmin); try done. apply (Hw t), Hdone.
Qed.

(** Vacuum at instant 9 with horizon 13, when transaction 12 has committed; the
    observer took its snapshot at instant 9 too. *)
Definition late_history : History :=
  mkHistory [] (fun x => if x =? 10 then Aborts 9 else fate example_history x) (fun _ => []) (fun _ => false).

Definition late_context : Context_ := mkContext (history_world late_history) true empty_combo (fun _ => None).

Definition late_state : VState :=
  mkVState example_tuple (mkSnapshot SNAPSHOT_MVCC 14 14 [] [] false false 0 0) 0 9 false.

Lemma late_history_ok : history_ok late_history.
Proof.
  split; simpl; try done.
  - intros x l g. repeat case_match; naive_solver lia.
  - intros x Hx. by apply elem_of_nil in Hx.
Qed.

#[export] Instance late_laws : TimeLaws (world late_context) (fun _ => True).
Proof. apply history_laws, late_history_ok. Qed.

Lemma late_hints : hints_sound (world late_context) 9 example_tuple.
Proof. by split. Qed.

Lemma late_tuple : tuple_ok (world late_context) (fun _ => True) 9 example_tuple.
Proof. by split; try left. Qed.

Lemma late_ready : mvcc_ready late_context (fun _ => True) 9 late_state.
Proof.
  split; [apply late_hints|apply late_tuple| |done..].
  apply history_snapshot; [apply late_history_ok|]. intros x _ _. simpl.
  by destruct (x =? 10), (x =? 12), ((x =? 7) || (x =? 0)).
Qed.

Lemma late_observer : observer late_context late_context.
Proof. by split. Qed.

Lemma HeapTupleSatisfiesVacuum_dead_invisible_witness :
  (call (HeapTupleSatisfiesVacuum 13) late_context late_state).1 = HEAPTUPLE_DEAD
  /\ (call HeapTupleSatisfiesMVCC late_context late_state).1 = false.
Proof.
  split; [reflexivity|].
  apply (HeapTupleSatisfiesVacuum_dead_invisible late_context _ late_laws late_context _ late_laws late_state 13 3 9);
    try reflexivity.
  - apply late_hints.
  - apply late_tuple.
  - apply late_observer.
  - apply late_ready.
  - intros _ _. split; [split|]; vm_compute; congruence.
  - split; [split|]; vm_compute; congruence.
  - split; [split|]; vm_compute; congruence.
Defined.

(** ** The cheap test *)

(** HeapTupleIsSurelyDead, which only reads hint bits and the horizon,
    claims no more than the full test: when it says dead,
    HeapTupleSatisfiesNonVacuumable calls the tuple removable, then or at any
    later time, if the horizon does not move back and the tuple keeps its hints. *)
Theorem HeapTupleIsSurelyDead_sound c s s2 :
  v_tuple s2 = v_tuple s ->
  (forall t t' x, (t <= t')%nat -> IsRemovableXid (world c t) x = true -> IsRemovableXid (world c t') x = true) ->
  (v_clock s <= v_clock s2)%nat ->
  (call HeapTupleIsSurelyDead c s).1 = true -> (call HeapTupleSatisfiesNonVacuumable c s2).1 = false.
Proof.
  intros Ht Hr Hle. unfold HeapTupleIsSurelyDead, HeapTupleSatisfiesNonVacuumable, HeapTupleSatisfiesVacuumHorizon,
    Vacuum_xmin, Vacuum_xmax, call, invoke, call, bind, get_tuple, set_dead_after, query. simpl. rewrite Ht.
  destruct (HeapTupleHeaderXminCommitted (v_tuple s)); simpl; [|by intros ->].
  destruct (has_flag (t_infomask (v_tuple s)) HEAP_XMAX_INVALID); simpl; [done|].
  destruct (HEAP_XMAX_IS_LOCKED_ONLY (t_infomask (v_tuple s))); simpl; [done|].
  destruct (has_flag (t_infomask (v_tuple s)) HEAP_XMAX_IS_MULTI); simpl; [done|].
  destruct (has_flag (t_infomask (v_tuple s)) HEAP_XMAX_COMMITTED); simpl; [|done].
  intros Hx. by rewrite (Hr _ (v_clock s2) _ Hle Hx).
Qed.

(** Deleted by transaction 5, all hints set. *)
Definition dead_state : VState :=
  mkVState (mkHeapTupleHeader 4 5 0 (mkItemPointer 0 1) (Z.lor HEAP_XMIN_COMMITTED HEAP_XMAX_COMMITTED))
    (example_snapshot SNAPSHOT_NON_VACUUMABLE) 0 4 false.

Lemma HeapTupleIsSurelyDead_sound_witness :
  (call HeapTupleIsSurelyDead example_context dead_state).1 = true
  /\ (call HeapTupleSatisfiesNonVacuumable example_context dead_state).1 = false.
Proof.
  split; [reflexivity|]. apply (HeapTupleIsSurelyDead_sound example_context dead_state dead_state); try reflexivity.
  intros t t' x _ Hx. exact Hx.
Defined.
