(* ===== verification/VisUpdate.v ===== *)
(** * VisUpdate: what an updater is told

    The meaning of every answer of [HeapTupleSatisfiesUpdate]: an updater that
    is told to go ahead overwrites no committed change of another
    transaction, and one that is told to wait has somebody to wait for. *)

From S2P Require Import Prelude TransactionId HeapTuple Visibility VisLogic VisSound VisWorld VisMVCC.
From S2P Require Import VisVacuum.

Open Scope vis_scope.

Section Meaning.
Context (c : Context_) (t0 t : nat) (tup : HeapTupleHeaderData) (self : ItemPointerData) (cid : CommandId).
Abbreviation W := (world c).
Abbreviation current x := (IsCurrentTransactionId (W 0) x).

(** The transactions [t_xmax] stands for. *)
Definition xmax_holder (x : TransactionId) : Prop :=
  if has_flag (t_infomask tup) HEAP_XMAX_IS_MULTI
  then exists b m, m ∈ MultiXactMembers (W 0) (t_xmax tup) b /\ mxm_xid m = x
  else x = t_xmax tup.

Definition being_modified : Prop :=
  exists x, xmax_holder x /\ (current x = true \/ seen_running_at W t0 t true x).

Definition self_deleted : Prop := locked_only tup = false /\ current (delete_xid W tup) = true.

Definition update_meaning (r : TM_Result) : Prop :=
  match r with
  | TM_Ok =>
      (insert_done W t tup \/ current (t_xmin tup) = true /\ HeapTupleHeaderGetCmin (combos c) tup < cid)
      /\ delete_none W t tup
  | TM_Invisible =>
      insert_failed W t0 t tup \/ seen_running_at W t0 t true (t_xmin tup)
      \/ (current (t_xmin tup) = true /\ cid <= HeapTupleHeaderGetCmin (combos c) tup)
      \/ (self_deleted /\ HeapTupleHeaderGetCmax (combos c) tup < cid)
  | TM_SelfModified => self_deleted /\ cid <= HeapTupleHeaderGetCmax (combos c) tup
  | TM_Updated => insert_done W t tup /\ delete_done W t tup /\ ItemPointerEquals self (t_ctid tup) = false
  | TM_Deleted => insert_done W t tup /\ delete_done W t tup /\ ItemPointerEquals self (t_ctid tup) = true
  | TM_BeingModified => being_modified
  | TM_WouldBlock => False
  end.

End Meaning.

Section Update.
Context (c : Context_) (Started : TransactionId -> Prop) `{!TimeLaws (world c) Started}.
Context (tup0 : HeapTupleHeaderData) (t0 : nat) (self : ItemPointerData) (cid : CommandId).
Abbreviation W := (world c).
Abbreviation inv := (vinv W Started tup0 t0 (fun _ => True)).
Abbreviation at_ := (at_tuple c Started tup0 t0 (fun _ => True)).

(** A member of the list is current or was seen running. *)
Definition member_runs (ms : list MultiXactMember) (s : VState) : Prop :=
  exists m, m ∈ ms
  /\ (IsCurrentTransactionId (W 0) (mxm_xid m) = true \/ seen_running_at W t0 (v_clock s) true (mxm_xid m)).

Lemma any_member_true {R} (q : TransactionId -> M R bool) tup ms s (Q : R + bool -> VState -> Prop) :
  (forall x s1 (Q1 : R + bool -> VState -> Prop), at_ tup s1 ->
     (forall b s', at_ tup s' -> (v_clock s1 <= v_clock s')%nat ->
        (b = true -> IsCurrentTransactionId (W 0) x = true \/ seen_running_at W t0 (v_clock s') true x) -> Q1 (inr b) s') ->
     wp c (q x) s1 Q1) ->
  at_ tup s ->
  (forall b s', at_ tup s' -> (v_clock s <= v_clock s')%nat -> (b = true -> member_runs ms s') -> Q (inr b) s') ->
  wp c (any_member q ms) s Q.
Proof.
  intros Hq. revert s Q. induction ms as [|m ms IH]; intros s Q Ha HQ; simpl.
  - apply wp_ret, HQ; auto. done.
  - vstep. apply Hq; [done|]. intros b s1 Ha1 Hle1 Hb1. destruct b.
    + vstep. apply HQ; [done|done|]. intros _. exists m. split; [left|by apply Hb1].
    + apply IH; [done|]. intros b s2 Ha2 Hle2 Hb2. apply HQ; [done|lia|].
      intros Hb. destruct (Hb2 Hb) as (m' & Hm' & H'). exists m'. split; [by right|done].
Qed.

Lemma multi_running_true {R} tup multi b0 s (Q : R + bool -> VState -> Prop) :
  at_ tup s ->
  (forall b s', at_ tup s' -> (v_clock s <= v_clock s')%nat ->
     (b = true -> member_runs (MultiXactMembers (W 0) multi b0) s') -> Q (inr b) s') ->
  wp c (MultiXactIdIsRunning multi b0) s Q.
Proof using TimeLaws0.
  intros Ha HQ. unfold MultiXactIdIsRunning. vstep. wp_step.
  rewrite (members_fixed (v_clock s) 0). set (ms := MultiXactMembers (W 0) multi b0). vstep.
  apply (any_member_true _ tup); [| |].
  { intros x s1 Q1 Ha1 HQ1. vstep. apply HQ1; [done|done|]. intros ->. by left. }
  { by apply at_tick. }
  intros b s1 Ha1 Hle1 Hb1. simpl in Hle1. destruct b.
  - vstep. apply HQ; [done|lia|done].
  - apply (any_member_true _ tup); [| |].
    + intros x s2 Q1 Ha2 HQ1. apply (at_progress _ _ _ _ _ _ _ _ Ha2). intros b s' Ha' Hle' _ Hr.
      apply HQ1; [done|done|]. intros ->. by right.
    + done.
    + intros b s2 Ha2 Hle2 Hb2. apply HQ; [done|lia|done].
Qed.

(** Both readings of [MultiXactIdIsRunning]. *)
Lemma at_multi {R} tup b0 s (Q : R + bool -> VState -> Prop) :
  at_ tup s ->
  (forall b s', at_ tup s' -> (v_clock s <= v_clock s')%nat ->
     (b = true -> member_runs (MultiXactMembers (W 0) (t_xmax tup) b0) s') ->
     (b = false -> b0 = false -> has_flag (t_infomask tup) HEAP_XMAX_IS_MULTI = true ->
        final_now c s' (delete_xid W tup)) -> Q (inr b) s') ->
  wp c (MultiXactIdIsRunning (t_xmax tup) b0) s Q.
Proof using TimeLaws0.
  intros Ha HQ.
  pose proof (multi_running_true (R := R) tup (t_xmax tup) b0 s
    (fun r s' => match r with inl _ => False | inr b => at_ tup s' /\ (v_clock s <= v_clock s')%nat
       /\ (b = true -> member_runs (MultiXactMembers (W 0) (t_xmax tup) b0) s') end) Ha) as H1.
  pose proof (at_multi_running c Started tup0 t0 (fun _ => True) tup (t_xmax tup) b0 s
    (fun (r : R + bool) s' => match r with inl _ => False | inr b =>
       (b = false -> b0 = false -> has_flag (t_infomask tup) HEAP_XMAX_IS_MULTI = true ->
        final_now c s' (delete_xid W tup)) end) Ha) as H2.
  unfold wp in *. destruct (MultiXactIdIsRunning (t_xmax tup) b0 c s) as [[r|b] s']; simpl in *.
  - destruct H1; auto.
  - destruct H1 as (Ha' & Hle & Hr); [auto|]. apply HQ; try done. apply H2. intros b1 s1 Ha1 _ _ Hf Hb -> Hm.
    apply (delete_xid_final _ _ _ _ (at_ok _ _ _ _ _ _ _ Ha1) Hm). by apply Hf.
Qed.

Lemma locked_upgraded tup : HEAP_LOCKED_UPGRADED (t_infomask tup) = true -> locked_only tup = true.
Proof.
  unfold HEAP_LOCKED_UPGRADED, locked_only, HEAP_XMAX_IS_LOCKED_ONLY.
  by destruct (has_flag (t_infomask tup) HEAP_XMAX_LOCK_ONLY); rewrite ?andb_false_r.
Qed.

Lemma members_modified tup b s :
  at_ tup s -> has_flag (t_infomask tup) HEAP_XMAX_IS_MULTI = true ->
  member_runs (MultiXactMembers (W 0) (t_xmax tup) b) s -> being_modified c t0 (v_clock s) tup0.
Proof.
  intros [Hi Ht] Hm (m & Hin & Hr). assert (He : hint_ext tup0 tup) by (rewrite <- Ht; apply Hi).
  exists (mxm_xid m). split; [|done]. unfold xmax_holder.
  rewrite (hint_ext_flag tup0 tup) in Hm by done. rewrite Hm. exists b, m. by destruct He as (_ & <- & _).
Qed.

Lemma xmax_modified tup s :
  at_ tup s -> has_flag (t_infomask tup) HEAP_XMAX_IS_MULTI = false ->
  IsCurrentTransactionId (W 0) (t_xmax tup) = true \/ seen_running_at W t0 (v_clock s) true (t_xmax tup) ->
  being_modified c t0 (v_clock s) tup0.
Proof.
  intros [Hi Ht] Hm Hr. assert (He : hint_ext tup0 tup) by (rewrite <- Ht; apply Hi).
  exists (t_xmax tup). split; [|done]. unfold xmax_holder.
  rewrite (hint_ext_flag tup0 tup) in Hm by done. rewrite Hm. by destruct He as (_ & -> & _).
Qed.

Lemma at_xmax_invalid tup s :
  at_ tup s -> has_flag (t_infomask tup) HEAP_XMAX_INVALID = true -> delete_none W (v_clock s) tup.
Proof. intros [[[_ _ H _] _ _ _ _] Ht] Hi. rewrite Ht in H. by apply H. Qed.

Ltac vupd :=
  repeat first
    [match goal with
     | H : at_tuple _ _ _ _ _ _ ?s |- wp _ (TransactionIdIsInProgress _) ?s _ =>
         apply (at_progress _ _ _ _ _ _ _ _ H); intros ? ? ? ? ? ?
     | H : at_tuple _ _ _ _ _ _ ?s |- wp _ (MultiXactIdIsRunning _ _) ?s _ =>
         apply (at_multi _ _ _ _ H); intros ? ? ? ? ? ?
     end
    |vstep].

(** *** The xmin phase *)

Definition upd_post {A} (good : VState -> Prop) (r : TM_Result + A) (s : VState) : Prop :=
  match r with inl r => update_meaning c t0 (v_clock s) tup0 self cid r | inr _ => good s end.

Lemma self_deleted_update {A} tup s (good : VState -> Prop) :
  at_ tup s -> locked_only tup = false -> IsCurrentTransactionId (W 0) (delete_xid W tup) = true ->
  wp c (Update_self_deleted (A := A) cid) s (upd_post good).
Proof using TimeLaws0.
  intros [Hi Ht] Hl Hc. assert (He : hint_ext tup0 tup) by (rewrite <- Ht; apply Hi).
  rewrite (hint_ext_locked _ _ He) in Hl. rewrite (hint_ext_delete_xid _ _ _ He) in Hc.
  unfold Update_self_deleted. vstep. unfold wp, GetCmax. cbn [fst snd]. rewrite Ht, (hint_ext_cmax _ _ _ He).
  destruct (cid <=? HeapTupleHeaderGetCmax (combos c) tup0) eqn:Hcid; simpl.
  - split; [done|lia].
  - right. right. right. split; [done|lia].
Qed.

Lemma own_insert_update s :
  at_ tup0 s -> moved tup0 = false -> IsCurrentTransactionId (W 0) (t_xmin tup0) = true ->
  wp c (Update_own_insert cid) s (upd_post (fun _ => False)).
Proof using TimeLaws0.
  intros Ha Hm Hcur. unfold Update_own_insert. vstep. vstep. vstep. unfold wp at 1, GetCmin. cbn [fst snd].
  rewrite (proj2 Ha). destruct (cid <=? HeapTupleHeaderGetCmin (combos c) tup0) eqn:Hcid.
  { vstep. simpl. right. right. left. split; [done|lia]. }
  apply Z.leb_gt in Hcid. unfold HeapTupleHeaderGetRawXmax.
  assert (Hok : forall t, delete_none W t tup0 -> update_meaning c t0 t tup0 self cid TM_Ok).
  { intros t Hn. split; [by right|done]. }
  destruct (has_flag (t_infomask tup0) HEAP_XMAX_INVALID) eqn:Hi.
  { vstep. apply Hok. by apply (at_xmax_invalid tup0). }
  change (HEAP_XMAX_IS_LOCKED_ONLY (t_infomask tup0)) with (locked_only tup0).
  destruct (locked_only tup0) eqn:Hl.
  { vupd; simpl; (by apply Hok; left) || eauto using members_modified, xmax_modified. }
  assert (Hab : IsCurrentTransactionId (W 0) (delete_xid W tup0) = false -> forall t, (v_clock s <= t)%nat -> delete_none W t tup0).
  { intros Hx t Hle. right. eapply settled_mono; [done|exact Hle|].
    destruct (at_ok _ _ _ _ _ _ _ Ha) as [_ _ _ H]. apply H; rewrite ?(current_fixed _ 0); done. }
  destruct (has_flag (t_infomask tup0) HEAP_XMAX_IS_MULTI) eqn:Hmu;
    [|rewrite <- (delete_xid_single c tup0 Hmu)]; vupd;
    try (eapply self_deleted_update; eassumption); simpl; eauto using members_modified.
  - apply Hok, Hab; [done|lia].
  - apply wp_SetHintBits. intros s2 Hle _ _ _. vstep. apply Hok, Hab; [done|lia].
Qed.

Lemma Update_xmin_spec s :
  at_ tup0 s -> moved tup0 = false ->
  wp c (Update_xmin cid) s (upd_post (fun s' => insert_done W (v_clock s') tup0 /\ inv s')).
Proof using TimeLaws0.
  intros Ha Hm. unfold Update_xmin. vstep. vstep.
  apply (xmin_phase_spec c Started tup0 t0); try done; simpl; auto.
  intros s' Ha' Hcur. eapply wp_mono; [by apply own_insert_update|]. by intros [r|[]] s1.
Qed.

(** *** The xmax phase *)

Lemma update_gone_spec {A} tup s (good : VState -> Prop) :
  hint_ext tup0 tup -> insert_done W (v_clock s) tup0 -> delete_done W (v_clock s) tup ->
  wp c (Update_gone (A := A) self tup) s (upd_post good).
Proof using TimeLaws0.
  intros He Hins Hd. apply (delete_meaning_ext c tup0 tup (v_clock s) He) in Hd.
  assert (Hc : t_ctid tup = t_ctid tup0) by by destruct He as (_ & _ & _ & -> & _).
  unfold Update_gone. rewrite Hc. destruct (ItemPointerEquals self (t_ctid tup0)) eqn:Heq; cbn [negb]; vstep; simpl; auto.
Qed.

Lemma update_ok tup s :
  hint_ext tup0 tup -> insert_done W (v_clock s) tup0 -> delete_none W (v_clock s) tup ->
  update_meaning c t0 (v_clock s) tup0 self cid TM_Ok.
Proof.
  intros He Hins Hn. split; [by left|]. by apply (delete_meaning_ext c tup0 tup (v_clock s) He).
Qed.

Lemma Update_xmax_multi_spec tup s :
  at_ tup s -> insert_done W (v_clock s) tup0 -> has_flag (t_infomask tup) HEAP_XMAX_IS_MULTI = true ->
  wp c (Update_xmax_multi (A := TM_Result) self cid) s (upd_post (fun _ => False)).
Proof using TimeLaws0.
  intros Ha Hins Hm. assert (He : hint_ext tup0 tup) by (destruct Ha as [Hi <-]; apply Hi).
  unfold Update_xmax_multi. vstep. vstep. unfold HeapTupleHeaderGetRawXmax.
  destruct (HEAP_LOCKED_UPGRADED (t_infomask tup)) eqn:Hup.
  { vstep. apply (update_ok tup); try done. left. by apply locked_upgraded. }
  change (HEAP_XMAX_IS_LOCKED_ONLY (t_infomask tup)) with (locked_only tup).
  destruct (locked_only tup) eqn:Hl.
  { vupd; simpl; eauto using members_modified.
    apply wp_SetHintBits. intros s2 Hle _ _ _. vstep. apply (update_ok tup); [done| |by left].
    eapply insert_done_mono; [done| |exact Hins]. lia. }
  vupd; simpl; eauto using members_modified.
  all: try (eapply self_deleted_update; eassumption).
  all: vknown; assert (Hins' : forall t, (v_clock s <= t)%nat -> insert_done W t tup0) by eauto using insert_done_mono.
  1,3: apply update_gone_spec; [done|apply Hins'; lia|done].
  all: apply wp_SetHintBits; intros s4 Hle _ _ _; vstep; apply (update_ok tup); [done|apply Hins'; lia|].
  all: right; eapply settled_mono; [done| |eassumption]; lia.
Qed.

Lemma Update_xmax_spec tup s :
  at_ tup s -> insert_done W (v_clock s) tup0 -> wp c (Update_xmax self cid) s (upd_post (fun _ => False)).
Proof using TimeLaws0.
  intros Ha Hins. assert (He : hint_ext tup0 tup) by (destruct Ha as [Hi <-]; apply Hi).
  assert (Hins' : forall t, (v_clock s <= t)%nat -> insert_done W t tup0) by eauto using insert_done_mono.
  assert (Hso : hints_sound W (v_clock s) tup) by (destruct Ha as [[? _ _ _ _] <-]; done).
  assert (Hst := delete_xid_started _ _ _ _ (at_ok _ _ _ _ _ _ _ Ha)).
  unfold Update_xmax. vstep. vstep. unfold HeapTupleHeaderGetRawXmax.
  change (HEAP_XMAX_IS_LOCKED_ONLY (t_infomask tup)) with (locked_only tup).
  destruct (has_flag (t_infomask tup) HEAP_XMAX_INVALID) eqn:Hi.
  { vstep. apply (update_ok tup); eauto using at_xmax_invalid. }
  destruct (has_flag (t_infomask tup) HEAP_XMAX_COMMITTED) eqn:HC.
  { destruct (locked_only tup) eqn:Hl; [vstep; apply (update_ok tup); [done..|by left]|].
    eapply update_gone_spec; [done..|]. split; [done|].
    destruct (xmax_committed_sound _ _ _ Hso HC) as [?|[?|?]]; congruence || done. }
  destruct (has_flag (t_infomask tup) HEAP_XMAX_IS_MULTI) eqn:Hm; [by eapply Update_xmax_multi_spec|].
  assert (Hd := delete_xid_single c tup Hm). destruct (locked_only tup) eqn:Hl.
  - vupd; simpl; eauto using xmax_modified; apply wp_SetHintBits; intros s2 Hle _ _ _; vstep;
      (apply (update_ok tup); [done|apply Hins'; lia|by left]).
  - rewrite <- Hd. vupd; try vknown; simpl; try (eapply self_deleted_update; eassumption).
    + rewrite Hd in *. eauto using xmax_modified.
    + apply wp_SetHintBits. intros s2 Hle _ _ _.
      apply update_gone_spec; [done|apply Hins'; lia|]. split; [done|]. by eapply settled_mono.
    + apply wp_SetHintBits. intros s2 Hle _ _ _. vstep. apply (update_ok tup); [done|apply Hins'; lia|].
      right. by eapply settled_mono.
Qed.

Lemma Update_spec s :
  at_ tup0 s -> moved tup0 = false ->
  wp c (HeapTupleSatisfiesUpdate self cid) s (upd_post (fun _ => False)).
Proof using TimeLaws0.
  intros Ha Hm. unfold HeapTupleSatisfiesUpdate. apply wp_bind.
  eapply wp_mono; [by apply Update_xmin_spec|]. intros [r|[]] s1; [done|]. intros [Hd Hi1].
  by apply (Update_xmax_spec (v_tuple s1)).
Qed.

End Update.

(** C21. Every answer of HeapTupleSatisfiesUpdate is right.  TM_Ok: the tuple is
    there for this command and no other transaction's deletion of it has
    committed or will commit; TM_Updated and TM_Deleted: another transaction's has,
    with or without a newer version; TM_SelfModified and TM_Invisible split the
    caller's own deletions by command, the latter also covering insertions
    that failed, are running, or came later; TM_BeingModified: a holder of xmax
    is the caller or was running during the call. *)
Theorem HeapTupleSatisfiesUpdate_spec c Started (HL : TimeLaws (world c) Started) s self cid :
  hints_sound (world c) (v_clock s) (v_tuple s) -> tuple_ok (world c) Started (v_clock s) (v_tuple s) ->
  moved (v_tuple s) = false ->
  let '(r, s') := call (HeapTupleSatisfiesUpdate self cid) c s in
  update_meaning c (v_clock s) (v_clock s') (v_tuple s) self cid r.
Proof.
  intros H1 H2 H3. assert (Ha : at_tuple c Started (v_tuple s) (v_clock s) (fun _ => True) (v_tuple s) s).
  { split; [by apply vinv_start|done]. }
  assert (Hw := Update_spec c Started (v_tuple s) (v_clock s) self cid s Ha H3). unfold wp in Hw. unfold call.
  by destruct (HeapTupleSatisfiesUpdate self cid c s) as [[r|r] s'].
Qed.

Lemma HeapTupleSatisfiesUpdate_spec_witness :
  update_meaning example_context 9 19 example_tuple (mkItemPointer 0 1) 3 TM_Deleted.
Proof.
  exact (HeapTupleSatisfiesUpdate_spec example_context _ example_laws (example_state SNAPSHOT_ANY 9)
    (mkItemPointer 0 1) 3 (example_hints_sound 9) (example_tuple_ok 9) eq_refl).
Defined.
