(* ===== verification/HintWal.v ===== *)
(** * HintWal: hint bits never overtake the WAL

    [SetHintBits] (heapam_visibility.c) looks up the LSN of a commit in
    pg_xact, or in the backend's cache of it (transam.c), and compares it with
    the flush position and with the LSN of the heap page.  Here the routine
    runs on a time line of the commit log (ClogWal) on which the transaction
    was committed asynchronously: whatever happened to the page of the log
    meanwhile, a hint that is set does not reach the disk before the commit
    record. *)

From S2P Require Import Prelude Steps TransactionId Slru Clog ClogWal Subtrans Transam HeapTuple Visibility VisLogic VisWorld.

Section HintWal.
Context (log : nat -> Slru) (subtrans : Slru) (xmin : TransactionId).

Definition lookup_at (t : nat) : LookupEnv := mkLookupEnv (log t) subtrans xmin.

(** The caches a backend can have at instant [t]: those that its lookups up
    to then have left. *)
Inductive cache_at : nat -> FetchCache -> Prop :=
| cache_init t : cache_at t initial_cache
| cache_fetch t y cache st cache' :
    cache_at t cache -> TransactionLogFetch (lookup_at t) y cache = Ok (st, cache') -> cache_at t cache'
| cache_later t t' cache : cache_at t cache -> (t <= t')%nat -> cache_at t' cache.

(** An entry of the cache was read from the log at some instant, and was
    final. *)
Lemma cache_at_read t cache :
  cache_at t cache -> TransactionIdIsNormal (cachedFetchXid cache) = true ->
  exists t0 st, (t0 <= t)%nat /\ final_status st
    /\ TransactionIdGetStatus (log t0) (cachedFetchXid cache) = Some (st, cachedCommitLSN cache).
Proof.
  induction 1 as [t|t y cache st cache' H IH E|t t' cache H IH Hle]; intros Hx.
  - done.
  - revert E. unfold TransactionLogFetch. case_if; [intros [= _ <-]; auto|].
    case_if; [repeat case_if; intros [= _ <-]; auto|].
    destruct (TransactionIdGetStatus (env_clog (lookup_at t)) y) as [[xs xl]|] eqn:Hg; cbn [or_err mbind result_bind]; [|done].
    destruct (Z.eqb_spec xs TRANSACTION_STATUS_IN_PROGRESS); cbn [negb andb]; [intros [= _ <-]; auto|].
    destruct (Z.eqb_spec xs TRANSACTION_STATUS_SUB_COMMITTED); cbn [negb]; intros [= _ <-]; [auto|].
    exists t, xs. split; [done|]. split; [by eapply read_final|done].
  - destruct (IH Hx) as (t0 & st & ? & ? & ?). exists t0, st. split; [lia|done].
Qed.

(** Transaction [x] was committed with the record at [lsn], and the log as it
    was at [tc] is the result; its page is needed from then on.  The answers
    that the visibility routines get are those of the log. *)
Record committed_at (c : Context_) (x : TransactionId) (tc : nat) (lsn : XLogRecPtr) : Prop := {
  ca_recorded : exists before ir MyProc ct xid subxids,
    written_after_wal before /\ TransactionIdIsValid xid = true /\ x ∈ xid :: subxids /\
    run_steps (TransactionIdAsyncCommitTree ir MyProc ct xid subxids lsn) before = Some (log tc);
  ca_normal : TransactionIdIsNormal x = true;
  ca_lsn : lsn <> InvalidXLogRecPtr;
  ca_before t : (t < tc)%nat -> forall st, final_status st -> clog_status (log t) x <> Some st;
  ca_after t : (tc <= t)%nat -> rtc (log_act (TransactionIdToPage x)) (log t) (log (S t));
  ca_CommitLSN t : exists cache, cache_at t cache /\
    TransactionIdGetCommitLSN (lookup_at t) x cache = Ok (CommitLSN (world c t) x);
  ca_NeedsFlush t l : NeedsFlush (world c t) l = (wal_flushed (log t) <? l);
  ca_BufferLSN t t' : (t <= t')%nat -> BufferLSN (world c t) <= BufferLSN (world c t');
}.

Section Laws.
Context (c : Context_) (x : TransactionId) (tc : nat) (lsn : XLogRecPtr) (Hca : committed_at c x tc lsn).

Lemma log_later t t' : (tc <= t)%nat -> (t <= t')%nat -> rtc (log_act (TransactionIdToPage x)) (log t) (log t').
Proof.
  intros Ht Hle. induction Hle as [|t' Hle IH]; [done|]. etransitivity; [exact IH|]. apply (ca_after _ _ _ _ Hca). lia.
Qed.

Lemma log_known t : (tc <= t)%nat -> exists floor, wal_inv None lsn floor [x] (log t).
Proof.
  intros Ht. destruct (ca_recorded _ _ _ _ Hca) as (before & ir & MyProc & ct & xid & subxids & Hw & Hv & Hx & E).
  eexists. eapply (SetTreeStatus_known ir MyProc ct xid subxids TRANSACTION_STATUS_COMMITTED);
    [done|done|done|exact (ca_lsn _ _ _ _ Hca)|done|exact E|by apply log_later].
Qed.

Lemma flushed_later t t' : (tc <= t)%nat -> (t <= t')%nat -> wal_flushed (log t) <= wal_flushed (log t').
Proof.
  intros Ht Hle. destruct (log_known t Ht) as [floor Hi].
  by destruct (log_acts_written _ _ _ (log_later t t' Ht Hle) (wal_inv_written _ _ _ _ Hi)).
Qed.

(** What the log says about the commit of [x]. *)
Lemma log_reports t st l :
  (tc <= t)%nat -> TransactionIdGetStatus (log t) x = Some (st, l) -> lsn <= l \/ lsn <= wal_flushed (log t).
Proof.
  intros Ht. destruct (log_known t Ht) as [floor Hi]. destruct (wi_known _ _ _ _ _ Hi x ltac:(set_solver)) as (p & Hp & Hl).
  unfold TransactionIdGetStatus, SimpleLruReadPage_ReadOnly. rewrite Hp. intros [= _ <-]. lia.
Qed.

(** The answer to [TransactionIdGetCommitLSN], from the log or from the cache. *)
Lemma CommitLSN_covers t : (tc <= t)%nat -> lsn <= CommitLSN (world c t) x \/ lsn <= wal_flushed (log t).
Proof.
  intros Ht. destruct (ca_CommitLSN _ _ _ _ Hca t) as (cache & Hc & E). revert E.
  unfold TransactionIdGetCommitLSN, TransactionIdEquals. destruct (Z.eqb_spec x (cachedFetchXid cache)) as [Hx|_].
  - intros [= <-]. assert (Hn := ca_normal _ _ _ _ Hca). rewrite Hx in Hn.
    destruct (cache_at_read t cache Hc Hn) as (t0 & st & Hle & Hf & Hg). rewrite <- Hx in Hg.
    destruct (Nat.lt_ge_cases t0 tc) as [Hlt|Hge].
    { destruct (ca_before _ _ _ _ Hca t0 Hlt st Hf). unfold clog_status. by rewrite Hg. }
    destruct (log_reports t0 _ _ Hge Hg); [by left|right]. pose proof (flushed_later t0 t Hge Hle). lia.
  - rewrite (ca_normal _ _ _ _ Hca). cbn [negb].
    destruct (TransactionIdGetStatus (env_clog (lookup_at t)) x) as [[st l]|] eqn:Hg; cbn [or_err mbind result_bind]; [|done].
    intros [= <-]. by eapply log_reports.
Qed.

(** The cases of [SetHintBits] on a permanent buffer. *)
Lemma SetHintBits_cases {R : Type} infomask s :
  BufferIsPermanent c = true -> let r := SetHintBits (R := R) infomask x c s in
  let l := CommitLSN (world c (v_clock s)) x in let t := S (v_clock s) in
  if (wal_flushed (log t) <? l) && (BufferLSN (world c (S t)) <? l) then v_tuple r.2 = v_tuple s
  else v_tuple r.2 = add_hint infomask (v_tuple s).
Proof.
  intros Hp. cbv zeta. unfold SetHintBits, bind, q_CommitLSN, is_permanent, XLogNeedsFlush, BufferGetLSNAtomic, set_hint, query.
  assert (TransactionIdIsValid x = true) as -> by (pose proof (ca_normal _ _ _ _ Hca) as Hn; clear -Hn; revert Hn; xid_unfold; intros; bool_simpl; lia).
  rewrite Hp. cbn. rewrite (ca_NeedsFlush _ _ _ _ Hca). destruct (_ <? _); cbn; [|done]. by destruct (_ <? _).
Qed.
End Laws.

(** C33. A hint bit never reaches the disk before the commit record it relies
    on.  Let [x] be committed asynchronously with its record at [lsn], and let
    [SetHintBits] run for [x] any time later on a buffer of a permanent
    relation, with whatever had happened to the commit log and the cache in
    between.  If it changes the tuple, then at every later moment at which the
    page may be written out, the WAL being flushed up to the LSN of the page,
    the commit record is flushed.  And it does set the hint when the LSN it
    finds is flushed. *)
Theorem SetHintBits_wal_safe {R : Type} c x tc lsn infomask s :
  committed_at c x tc lsn -> (tc <= v_clock s)%nat -> BufferIsPermanent c = true ->
  let s' := (SetHintBits (R := R) infomask x c s).2 in
  (v_tuple s' <> v_tuple s ->
   forall t, (v_clock s + 2 <= t)%nat -> BufferLSN (world c t) <= wal_flushed (log t) -> lsn <= wal_flushed (log t)) /\
  (CommitLSN (world c (v_clock s)) x <= wal_flushed (log (v_clock s)) -> v_tuple s' = add_hint infomask (v_tuple s)).
Proof.
  intros Hca Hs Hp. cbv zeta. pose proof (SetHintBits_cases c x tc lsn Hca (R := R) infomask s Hp) as H. cbv zeta in H.
  pose proof (CommitLSN_covers c x tc lsn Hca (v_clock s) Hs) as Hcov.
  pose proof (flushed_later c x tc lsn Hca (v_clock s) (S (v_clock s)) Hs ltac:(lia)) as Hnext. split.
  - intros Hne t Ht Hb. pose proof (flushed_later c x tc lsn Hca (S (v_clock s)) t ltac:(lia) ltac:(lia)) as Hmono.
    pose proof (ca_BufferLSN _ _ _ _ Hca (S (S (v_clock s))) t ltac:(lia)) as Hbuf.
    destruct ((_ <? _) && _) eqn:Hc; [done|]. apply andb_false_iff in Hc as [Hc|Hc]; bool_simpl; lia.
  - intros Hfl. destruct (Z.ltb_spec (wal_flushed (log (S (v_clock s)))) (CommitLSN (world c (v_clock s)) x)); [lia|exact H].
Qed.
End HintWal.

(** ** An example

    Transaction 1000 commits at instant 3 with its record at LSN 900; a
    checkpoint writes the log out at instant 6. *)
Definition committed_1000 : Slru :=
  default two_pages (run_steps (TransactionIdAsyncCommitTree false (mkMyProcXids 0 []) no_contention 1000 [] 900) two_pages).

Definition example_log (t : nat) : Slru :=
  if (t <? 3)%nat then two_pages else if (t <? 6)%nat then committed_1000 else SimpleLruWriteAll committed_1000.

Definition log_world (t : nat) : World :=
  let w := history_world example_history t in
  mkWorld (IsCurrentTransactionId w) (IsInProgress w) (DidCommit w)
    (fun x => default 0 (snd <$> TransactionIdGetStatus (example_log t) x))
    (fun l => wal_flushed (example_log t) <? l)
    0 (MultiXactMembers w) (TopmostTransaction w) (IsRemovableXid w).

Definition log_context : Context_ := mkContext log_world true empty_combo (fun _ => None).

Lemma committed_1000_run :
  run_steps (TransactionIdAsyncCommitTree false (mkMyProcXids 0 []) no_contention 1000 [] 900) two_pages = Some committed_1000.
Proof. vm_compute. reflexivity. Qed.

Lemma example_log_committed : committed_at example_log small_tree 990 log_context 1000 3 900.
Proof.
  constructor.
  - exists two_pages, false, (mkMyProcXids 0 []), no_contention, 1000, []. split; [exact two_pages_written|].
    split; [done|]. split; [set_solver|]. exact committed_1000_run.
  - done.
  - done.
  - intros t Ht st Hf. unfold example_log. rewrite (proj2 (Nat.ltb_lt t 3) Ht).
    replace (clog_status two_pages 1000) with (Some TRANSACTION_STATUS_IN_PROGRESS) by (vm_compute; reflexivity).
    by destruct Hf as [->| ->].
  - intros t Ht. unfold example_log. rewrite (proj2 (Nat.ltb_ge t 3) Ht), (proj2 (Nat.ltb_ge (S t) 3)) by lia.
    destruct (Nat.ltb_spec t 6), (Nat.ltb_spec (S t) 6); try lia; [done| |done]. apply rtc_once, act_checkpoint.
  - intros t. exists initial_cache. split; [constructor|]. unfold TransactionIdGetCommitLSN, log_context, log_world. cbn [world CommitLSN].
    unfold lookup_at. cbn [env_clog]. unfold example_log.
    destruct (t <? 3)%nat; [vm_compute; reflexivity|]. destruct (t <? 6)%nat; vm_compute; reflexivity.
  - done.
  - done.
Qed.

(** Before the checkpoint the hint is withheld, afterwards it is set. *)
Lemma SetHintBits_wal_safe_witness :
  let s t := mkVState (fresh_tuple 1000 0) (example_snapshot SNAPSHOT_MVCC) 0 t false in
  v_tuple (SetHintBits (R := bool) HEAP_XMIN_COMMITTED 1000 log_context (s 3%nat)).2 = fresh_tuple 1000 0 /\
  v_tuple (SetHintBits (R := bool) HEAP_XMIN_COMMITTED 1000 log_context (s 8%nat)).2
    = add_hint HEAP_XMIN_COMMITTED (fresh_tuple 1000 0) /\
  900 <= wal_flushed (example_log 10).
Proof.
  cbv zeta. set (s := mkVState (fresh_tuple 1000 0) (example_snapshot SNAPSHOT_MVCC) 0 8 false).
  destruct (SetHintBits_wal_safe example_log small_tree 990 (R := bool) log_context 1000 3 900 HEAP_XMIN_COMMITTED s
              example_log_committed) as [Hwal Hset].
  - cbn. lia.
  - reflexivity.
  - assert (E : v_tuple (SetHintBits (R := bool) HEAP_XMIN_COMMITTED 1000 log_context s).2
                = add_hint HEAP_XMIN_COMMITTED (fresh_tuple 1000 0)).
    { apply Hset. vm_compute. congruence. }
    split; [vm_compute; reflexivity|]. split; [exact E|].
    apply Hwal; [rewrite E; vm_compute; congruence|cbn; lia|vm_compute; congruence].
Defined.
