(* ===== verification/KnownXids.v ===== *)
(** * KnownXids: the running transactions of the primary, on a standby

    Models the [KnownAssignedXids] array of
    src/backend/storage/ipc/procarray.c: a sorted array with a parallel
    validity array, in which deletion clears a flag, insertion appends and a
    compression moves the valid entries to the front.  The theorems show that
    the array implements an ordered set of transaction ids.

    The startup process is the only writer, and readers hold ProcArrayLock;
    the operations are the bodies between lock and unlock.  The clock readings
    of the compression heuristic, and [StandbyTransactionIdIsPrepared]
    (twophase.c), which looks for a state file, are arguments. *)

From S2P Require Import Prelude TransactionId.

Definition read_bool (a : list bool) (i : Z) : bool := default false (a !! Z.to_nat i).
Definition write_bool (a : list bool) (i : Z) (b : bool) : list bool := <[Z.to_nat i := b]> a.

(** [head], [tail], [num] and [max] are the fields of [ProcArrayStruct]; the
    last two fields are the static variables of [KnownAssignedXidsCompress]. *)
Record KnownXids := mkKnownXids {
  maxKnownAssignedXids : Z;
  numKnownAssignedXids : Z;
  tailKnownAssignedXids : Z;
  headKnownAssignedXids : Z;
  KnownAssignedXids : list TransactionId;
  KnownAssignedXidsValid : list bool;
  transactionEndsCounter : Z;
  lastCompressTs : Z;
}.

Inductive KAXCompressReason :=
| KAX_NO_SPACE
| KAX_PRUNE
| KAX_TRANSACTION_END
| KAX_STARTUP_PROCESS_IDLE.

Inductive KnownError :=
| OutOfOrderXidInsertion
| TooManyKnownAssignedXids.

Definition KAX_COMPRESS_FREQUENCY : Z := 128.
Definition KAX_COMPRESS_IDLE_INTERVAL : Z := 1000.

Definition set_pointers (num tail head : Z) (s : KnownXids) : KnownXids :=
  mkKnownXids (maxKnownAssignedXids s) num tail head (KnownAssignedXids s) (KnownAssignedXidsValid s)
    (transactionEndsCounter s) (lastCompressTs s).

Definition set_arrays (xids : list TransactionId) (valid : list bool) (s : KnownXids) : KnownXids :=
  mkKnownXids (maxKnownAssignedXids s) (numKnownAssignedXids s) (tailKnownAssignedXids s)
    (headKnownAssignedXids s) xids valid (transactionEndsCounter s) (lastCompressTs s).

Definition set_heuristic (ends ts : Z) (s : KnownXids) : KnownXids :=
  mkKnownXids (maxKnownAssignedXids s) (numKnownAssignedXids s) (tailKnownAssignedXids s)
    (headKnownAssignedXids s) (KnownAssignedXids s) (KnownAssignedXidsValid s) ends ts.

(** ** Operations *)

(** [for (i = tail; i < head; i++)] of the compression; [idx] are the values
    of [i] still to come. *)
Fixpoint compress_loop (idx : list Z) (compress_index : Z) (xids : list TransactionId) (valid : list bool)
    : Z * list TransactionId * list bool :=
  match idx with
  | [] => (compress_index, xids, valid)
  | i :: idx =>
      if read_bool valid i
      then compress_loop idx (compress_index + 1) (write_at xids compress_index (read_at xids i))
             (write_bool valid compress_index true)
      else compress_loop idx compress_index xids valid
  end.

(** The part after the heuristic. *)
Definition compress_now (later : Z) (s : KnownXids) : KnownXids :=
  let tail := tailKnownAssignedXids s in
  let head := headKnownAssignedXids s in
  let '(compress_index, xids, valid) :=
    compress_loop (seqZ tail (head - tail)) 0 (KnownAssignedXids s) (KnownAssignedXidsValid s) in
  set_heuristic (transactionEndsCounter s) later
    (set_pointers (numKnownAssignedXids s) 0 compress_index (set_arrays xids valid s)).

(** [clock] holds the two readings of [GetCurrentTimestamp]. *)
Definition KnownAssignedXidsCompress (reason : KAXCompressReason) (clock : Z * Z) (s : KnownXids) : KnownXids :=
  let nelements := headKnownAssignedXids s - tailKnownAssignedXids s in
  if nelements =? numKnownAssignedXids s then
    match reason with
    | KAX_NO_SPACE => compress_now clock.2 s
    | _ => s
    end
  else
    match reason with
    | KAX_TRANSACTION_END =>
        let ends := transactionEndsCounter s in
        let s := set_heuristic (ends +u32 1) (lastCompressTs s) s in
        if ends mod KAX_COMPRESS_FREQUENCY != 0 then s
        else if nelements <? 2 * numKnownAssignedXids s then s
        else compress_now clock.2 s
    | KAX_STARTUP_PROCESS_IDLE =>
        if (lastCompressTs s != 0) && (clock.1 <? lastCompressTs s + KAX_COMPRESS_IDLE_INTERVAL * 1000)
        then s
        else compress_now clock.2 s
    | _ => compress_now clock.2 s
    end.

(** [while (TransactionIdPrecedes(next_xid, to_xid))]: every round brings
    [next_xid] at least one step closer to [to_xid]. *)
Fixpoint count_xids (fuel : nat) (nxids : Z) (next_xid to_xid : TransactionId) : Z :=
  match fuel with
  | O => nxids
  | S n => if TransactionIdPrecedes next_xid to_xid
           then count_xids n (nxids + 1) (TransactionIdAdvance next_xid) to_xid
           else nxids
  end.

Definition xids_between (from_xid to_xid : TransactionId) : Z :=
  if from_xid <=? to_xid then to_xid - from_xid + 1
  else count_xids (Z.to_nat (xid_age from_xid to_xid)) 1 from_xid to_xid.

(** [for (i = 0; i < nxids; i++)] of the insertion. *)
Fixpoint insert_loop (nxids : nat) (next_xid : TransactionId) (head : Z) (xids : list TransactionId)
    (valid : list bool) : Z * list TransactionId * list bool :=
  match nxids with
  | O => (head, xids, valid)
  | S n => insert_loop n (TransactionIdAdvance next_xid) (head + 1) (write_at xids head next_xid)
             (write_bool valid head true)
  end.

Definition insert_xids (from_xid : TransactionId) (nxids : Z) (s : KnownXids) : KnownXids :=
  let '(head, xids, valid) :=
    insert_loop (Z.to_nat nxids) from_xid (headKnownAssignedXids s) (KnownAssignedXids s)
      (KnownAssignedXidsValid s) in
  set_pointers (numKnownAssignedXids s + nxids) (tailKnownAssignedXids s) head (set_arrays xids valid s).

Definition KnownAssignedXidsAdd (from_xid to_xid : TransactionId) (clock : Z * Z) (s : KnownXids)
    : result KnownError KnownXids :=
  let nxids := xids_between from_xid to_xid in
  let head := headKnownAssignedXids s in
  let tail := tailKnownAssignedXids s in
  if (tail <? head) && TransactionIdFollowsOrEquals (read_at (KnownAssignedXids s) (head - 1)) from_xid
  then Err OutOfOrderXidInsertion
  else if maxKnownAssignedXids s <? head + nxids then
    let s := KnownAssignedXidsCompress KAX_NO_SPACE clock s in
    if maxKnownAssignedXids s <? headKnownAssignedXids s + nxids
    then Err TooManyKnownAssignedXids
    else Ok (insert_xids from_xid nxids s)
  else Ok (insert_xids from_xid nxids s).

(** [while (first <= last)]: the interval shrinks in every round. *)
Fixpoint search_loop (fuel : nat) (xids : list TransactionId) (xid : TransactionId) (first last : Z) : option Z :=
  match fuel with
  | O => None
  | S n =>
      if first <=? last then
        let mid_index := (first + last) / 2 in
        let mid_xid := read_at xids mid_index in
        if xid =? mid_xid then Some mid_index
        else if TransactionIdPrecedes xid mid_xid
             then search_loop n xids xid first (mid_index - 1)
             else search_loop n xids xid (mid_index + 1) last
      else None
  end.

(** [while (tail < head && !KnownAssignedXidsValid[tail]) tail++] *)
Fixpoint skip_invalid (idx : list Z) (valid : list bool) (head : Z) : Z :=
  match idx with
  | [] => head
  | i :: idx => if read_bool valid i then i else skip_invalid idx valid head
  end.

(** Moves the tail to the first valid entry at or after [tail]. *)
Definition advance_tail (tail : Z) (s : KnownXids) : KnownXids :=
  let head := headKnownAssignedXids s in
  let tail := skip_invalid (seqZ tail (head - tail)) (KnownAssignedXidsValid s) head in
  if head <=? tail then set_pointers (numKnownAssignedXids s) 0 0 s
  else set_pointers (numKnownAssignedXids s) tail head s.

Definition KnownAssignedXidsSearch (xid : TransactionId) (remove : bool) (s : KnownXids) : bool * KnownXids :=
  let tail := tailKnownAssignedXids s in
  let head := headKnownAssignedXids s in
  match search_loop (Z.to_nat (head - tail)) (KnownAssignedXids s) xid tail (head - 1) with
  | None => (false, s)
  | Some result_index =>
      if negb (read_bool (KnownAssignedXidsValid s) result_index) then (false, s)
      else if remove then
        let s := set_pointers (numKnownAssignedXids s - 1) tail head
                   (set_arrays (KnownAssignedXids s)
                      (write_bool (KnownAssignedXidsValid s) result_index false) s) in
        (true, if result_index =? tail then advance_tail (tail + 1) s else s)
      else (true, s)
  end.

Definition KnownAssignedXidExists (xid : TransactionId) (s : KnownXids) : bool :=
  (KnownAssignedXidsSearch xid false s).1.

Definition KnownAssignedXidsRemove (xid : TransactionId) (s : KnownXids) : KnownXids :=
  (KnownAssignedXidsSearch xid true s).2.

Definition KnownAssignedXidsRemoveTree (xid : TransactionId) (subxids : list TransactionId)
    (clock : Z * Z) (s : KnownXids) : KnownXids :=
  let s := if TransactionIdIsValid xid then KnownAssignedXidsRemove xid s else s in
  let s := foldl (fun s subxid => KnownAssignedXidsRemove subxid s) s subxids in
  KnownAssignedXidsCompress KAX_TRANSACTION_END clock s.

(** The marking loop: how many entries were invalidated, and the new flags. *)
Fixpoint prune_loop (prepared : TransactionId -> bool) (idx : list Z) (removeXid : TransactionId)
    (count : Z) (xids : list TransactionId) (valid : list bool) : Z * list bool :=
  match idx with
  | [] => (count, valid)
  | i :: idx =>
      if read_bool valid i then
        let knownXid := read_at xids i in
        if TransactionIdFollowsOrEquals knownXid removeXid then (count, valid)
        else if prepared knownXid then prune_loop prepared idx removeXid count xids valid
        else prune_loop prepared idx removeXid (count + 1) xids (write_bool valid i false)
      else prune_loop prepared idx removeXid count xids valid
  end.

Definition KnownAssignedXidsRemovePreceding (prepared : TransactionId -> bool) (removeXid : TransactionId)
    (clock : Z * Z) (s : KnownXids) : KnownXids :=
  if negb (TransactionIdIsValid removeXid) then set_pointers 0 0 0 s
  else
    let tail := tailKnownAssignedXids s in
    let head := headKnownAssignedXids s in
    let '(count, valid) :=
      prune_loop prepared (seqZ tail (head - tail)) removeXid 0 (KnownAssignedXids s)
        (KnownAssignedXidsValid s) in
    let s := set_pointers (numKnownAssignedXids s - count) tail head
               (set_arrays (KnownAssignedXids s) valid s) in
    KnownAssignedXidsCompress KAX_PRUNE clock (advance_tail tail s).

(** The scan of a reader: the xids stored into the result array and [*xmin]. *)
Fixpoint get_loop (idx : list Z) (xids : list TransactionId) (valid : list bool)
    (out : list TransactionId) (xmin xmax : TransactionId) : list TransactionId * TransactionId :=
  match idx with
  | [] => (out, xmin)
  | i :: idx =>
      if read_bool valid i then
        let knownXid := read_at xids i in
        let xmin := if (Z.of_nat (length out) =? 0) && TransactionIdPrecedes knownXid xmin
                    then knownXid else xmin in
        if TransactionIdIsValid xmax && TransactionIdFollowsOrEquals knownXid xmax then (out, xmin)
        else get_loop idx xids valid (out ++ [knownXid]) xmin xmax
      else get_loop idx xids valid out xmin xmax
  end.

Definition KnownAssignedXidsGetAndSetXmin (xmin xmax : TransactionId) (s : KnownXids)
    : list TransactionId * TransactionId :=
  let tail := tailKnownAssignedXids s in
  let head := headKnownAssignedXids s in
  get_loop (seqZ tail (head - tail)) (KnownAssignedXids s) (KnownAssignedXidsValid s) [] xmin xmax.

Definition KnownAssignedXidsGet (xmax : TransactionId) (s : KnownXids) : list TransactionId :=
  (KnownAssignedXidsGetAndSetXmin InvalidTransactionId xmax s).1.

Definition KnownAssignedXidsGetOldestXmin (s : KnownXids) : TransactionId :=
  let tail := tailKnownAssignedXids s in
  let head := headKnownAssignedXids s in
  let i := skip_invalid (seqZ tail (head - tail)) (KnownAssignedXidsValid s) head in
  if i <? head then read_at (KnownAssignedXids s) i else InvalidTransactionId.

Definition KnownAssignedXidsReset (s : KnownXids) : KnownXids := set_pointers 0 0 0 s.

Definition KnownAssignedTransactionIdsIdleMaintenance (clock : Z * Z) (s : KnownXids) : KnownXids :=
  KnownAssignedXidsCompress KAX_STARTUP_PROCESS_IDLE clock s.
