(* ===== verification/KnownRefine.v ===== *)
(** * KnownRefine: the known-assigned array implements an ordered set

    [entries] is the used part of the array with its flags, [known] the
    transaction ids it stands for.  Each operation of KnownXids.v is shown to
    act on [known] as the corresponding set operation and to preserve the
    invariant [known_ok] of the representation. *)

From stdpp Require Import sorting.
From S2P Require Import Prelude TransactionId KnownXids.

Abbreviation Slot := (TransactionId * bool)%type (only parsing).

(** ** The abstraction *)

Definition slots (xids : list TransactionId) (valid : list bool) (a n : Z) : list Slot :=
  (fun i => (read_at xids i, read_bool valid i)) <$> seqZ a n.

Definition valid_xids (l : list Slot) : list TransactionId :=
  omap (fun p : Slot => if p.2 then Some p.1 else None) l.

Definition entries (s : KnownXids) : list Slot :=
  slots (KnownAssignedXids s) (KnownAssignedXidsValid s) (tailKnownAssignedXids s)
    (headKnownAssignedXids s - tailKnownAssignedXids s).

Definition known (s : KnownXids) : list TransactionId := valid_xids (entries s).

Record known_ok (o : TransactionId) (s : KnownXids) : Prop := {
  ko_xids : Z.of_nat (length (KnownAssignedXids s)) = maxKnownAssignedXids s;
  ko_valid : Z.of_nat (length (KnownAssignedXidsValid s)) = maxKnownAssignedXids s;
  ko_pointers : 0 <= tailKnownAssignedXids s <= headKnownAssignedXids s;
  ko_head : headKnownAssignedXids s <= maxKnownAssignedXids s;
  ko_sorted : xid_sorted o (entries s).*1;
  ko_num : numKnownAssignedXids s = Z.of_nat (length (known s));
}.

(** ** Slots *)

Lemma read_bool_same a i b : 0 <= i < Z.of_nat (length a) -> read_bool (write_bool a i b) i = b.
Proof. intros Hi. unfold read_bool, write_bool. rewrite list_lookup_insert_eq; [done|lia]. Qed.

Lemma read_bool_other a i j b : 0 <= i -> 0 <= j -> i <> j -> read_bool (write_bool a i b) j = read_bool a j.
Proof. intros. unfold read_bool, write_bool. rewrite list_lookup_insert_ne; [done|lia]. Qed.

Lemma length_write_bool a i b : length (write_bool a i b) = length a.
Proof. apply length_insert. Qed.

Lemma slots_nil xids valid a n : n <= 0 -> slots xids valid a n = [].
Proof. intros. unfold slots. by rewrite seqZ_nil. Qed.

Lemma slots_cons xids valid a n :
  0 < n -> slots xids valid a n = (read_at xids a, read_bool valid a) :: slots xids valid (a + 1) (n - 1).
Proof. intros. unfold slots. rewrite seqZ_cons by done. done. Qed.

Lemma slots_app xids valid a n m :
  0 <= n -> 0 <= m -> slots xids valid a (n + m) = slots xids valid a n ++ slots xids valid (a + n) m.
Proof. intros. unfold slots. by rewrite seqZ_app, fmap_app. Qed.

(** The slots before, at and after the index [r]. *)
Lemma slots_split xids valid a n r :
  a <= r < a + n ->
  slots xids valid a n
  = slots xids valid a (r - a) ++ (read_at xids r, read_bool valid r)
    :: slots xids valid (r + 1) (a + n - r - 1).
Proof.
  intros. replace n with ((r - a) + (a + n - r)) at 1 by lia.
  rewrite slots_app by lia. f_equal. replace (a + (r - a)) with r by lia. by rewrite slots_cons by lia.
Qed.

Lemma slots_snoc xids valid a n :
  0 <= n -> slots xids valid a (n + 1) = slots xids valid a n ++ [(read_at xids (a + n), read_bool valid (a + n))].
Proof. intros. rewrite slots_app by lia. rewrite (slots_cons _ _ (a + n)), (slots_nil _ _ (a + n + 1)) by lia. done. Qed.

Lemma slots_ext xids valid xids' valid' a n :
  (forall i, a <= i < a + n -> read_at xids i = read_at xids' i /\ read_bool valid i = read_bool valid' i) ->
  slots xids valid a n = slots xids' valid' a n.
Proof.
  intros H. unfold slots. apply list_fmap_ext. intros j i Hi.
  apply lookup_seqZ in Hi as [-> ?]. destruct (H (a + Z.of_nat j)) as [-> ->]; [lia|done].
Qed.

Lemma length_slots xids valid a n : length (slots xids valid a n) = Z.to_nat n.
Proof. unfold slots. by rewrite length_fmap, length_seqZ. Qed.

Lemma elem_of_slots xids valid a n p :
  p ∈ slots xids valid a n <-> exists i, a <= i < a + n /\ p = (read_at xids i, read_bool valid i).
Proof.
  unfold slots. rewrite list_elem_of_fmap. split.
  - intros (i & -> & Hi). apply elem_of_seqZ in Hi. eauto.
  - intros (i & Hi & ->). exists i. split; [done|]. by apply elem_of_seqZ.
Qed.

(** A write at [r] touches no slot of a range that [r] is outside of. *)
Lemma slots_write_out xids valid a n r x b :
  0 <= a -> 0 <= r -> r < a \/ a + n <= r ->
  slots (write_at xids r x) (write_bool valid r b) a n = slots xids valid a n.
Proof.
  intros. apply slots_ext. intros i Hi. split; [apply read_write_other; lia|apply read_bool_other; lia].
Qed.

Lemma slots_flag_out xids valid a n r b :
  0 <= a -> 0 <= r -> r < a \/ a + n <= r ->
  slots xids (write_bool valid r b) a n = slots xids valid a n.
Proof. intros. apply slots_ext. intros i Hi. split; [done|apply read_bool_other; lia]. Qed.

Lemma valid_xids_app l1 l2 : valid_xids (l1 ++ l2) = valid_xids l1 ++ valid_xids l2.
Proof. apply omap_app. Qed.

Lemma valid_xids_cons x v l : valid_xids ((x, v) :: l) = if v then x :: valid_xids l else valid_xids l.
Proof. by destruct v. Qed.

Lemma valid_xids_true xs : valid_xids ((fun x => (x, true)) <$> xs) = xs.
Proof. induction xs as [|x xs IH]; [done|]. cbn. by f_equal. Qed.

Lemma elem_of_valid_xids x l : x ∈ valid_xids l <-> (x, true) ∈ l.
Proof.
  unfold valid_xids. rewrite list_elem_of_omap. split.
  - intros ([y []] & Hin & ?); naive_solver.
  - intros. exists (x, true). done.
Qed.

Lemma valid_xids_sublist l : valid_xids l `sublist_of` l.*1.
Proof. induction l as [|[x []] l IH]; cbn; [done|by apply sublist_skip|by apply sublist_cons]. Qed.

Create Rewrite HintDb slots.
#[export] Hint Rewrite length_write_bool length_write : slots.

(** ** Loops *)

Lemma seqZ_succ a n : seqZ a (Z.of_nat (S n)) = a :: seqZ (a + 1) (Z.of_nat n).
Proof. rewrite seqZ_cons by lia. f_equal. by f_equal; lia. Qed.

Lemma slots_succ xids valid a n :
  slots xids valid a (Z.of_nat (S n))
  = (read_at xids a, read_bool valid a) :: slots xids valid (a + 1) (Z.of_nat n).
Proof. rewrite slots_cons by lia. by do 2 f_equal; lia. Qed.

Lemma compress_loop_spec (n : nat) i ci xids valid :
  0 <= ci <= i -> i + Z.of_nat n <= Z.of_nat (length xids) -> length valid = length xids ->
  exists ci' xids' valid',
    compress_loop (seqZ i (Z.of_nat n)) ci xids valid = (ci', xids', valid') /\
    length xids' = length xids /\ length valid' = length xids /\
    ci' = ci + Z.of_nat (length (valid_xids (slots xids valid i (Z.of_nat n)))) /\
    slots xids' valid' 0 ci'
    = slots xids valid 0 ci ++ ((fun x => (x, true)) <$> valid_xids (slots xids valid i (Z.of_nat n))).
Proof.
  revert i ci xids valid. induction n as [|n IH]; intros i ci xids valid Hci Hn Hl.
  { exists ci, xids, valid. cbn. by rewrite app_nil_r, Z.add_0_r. }
  rewrite seqZ_succ, slots_succ. cbn [compress_loop valid_xids omap list_omap snd fst].
  destruct (read_bool valid i) eqn:Hv.
  - edestruct (IH (i + 1) (ci + 1)) as (ci' & xids' & valid' & -> & Hx & Hb & -> & Hs);
      [..|exists (ci + 1 + Z.of_nat (length (valid_xids (slots xids valid (i + 1) (Z.of_nat n))))), xids', valid'];
      autorewrite with slots; [lia|lia|done|].
    rewrite slots_write_out in * by lia. autorewrite with slots in *. cbn [length].
    repeat split; [done|done|fold (valid_xids (slots xids valid (i + 1) (Z.of_nat n))); lia|].
    rewrite Hs, slots_snoc, Z.add_0_l, read_write_same, read_bool_same, slots_write_out by lia.
    by rewrite <- app_assoc.
  - edestruct (IH (i + 1) ci) as (ci' & xids' & valid' & -> & Hx & Hb & -> & Hs); [lia|lia|done|].
    eexists _, xids', valid'. done.
Qed.

(** The [n] transaction ids from [x] on. *)
Fixpoint xid_run (n : nat) (x : TransactionId) : list TransactionId :=
  match n with O => [] | S n => x :: xid_run n (TransactionIdAdvance x) end.

Lemma insert_loop_spec (n : nat) x a head xids valid :
  0 <= a <= head -> head + Z.of_nat n <= Z.of_nat (length xids) -> length valid = length xids ->
  exists xids' valid',
    insert_loop n x head xids valid = (head + Z.of_nat n, xids', valid') /\
    length xids' = length xids /\ length valid' = length xids /\
    slots xids' valid' a (head + Z.of_nat n - a)
    = slots xids valid a (head - a) ++ ((fun x => (x, true)) <$> xid_run n x).
Proof.
  revert x head xids valid. induction n as [|n IH]; intros x head xids valid Ha Hn Hl.
  { exists xids, valid. cbn. by rewrite app_nil_r, Z.add_0_r. }
  cbn [insert_loop]. edestruct (IH (TransactionIdAdvance x) (head + 1)) as (xids' & valid' & -> & Hx & Hb & Hs);
    [..|exists xids', valid']; autorewrite with slots; [lia|lia|done|].
  autorewrite with slots in *. replace (head + 1 + Z.of_nat n) with (head + Z.of_nat (S n)) in * by lia.
  repeat split; [done|done|]. rewrite Hs. replace (head + 1 - a) with (head - a + 1) by lia.
  rewrite slots_snoc, slots_write_out by lia. replace (a + (head - a)) with head by lia.
  rewrite read_write_same, read_bool_same by lia. by rewrite <- app_assoc.
Qed.

Lemma skip_invalid_spec (n : nat) a xids valid :
  let j := skip_invalid (seqZ a (Z.of_nat n)) valid (a + Z.of_nat n) in
  a <= j <= a + Z.of_nat n /\ (j < a + Z.of_nat n -> read_bool valid j = true) /\
  valid_xids (slots xids valid a (j - a)) = [].
Proof.
  revert a. induction n as [|n IH]; intros a j.
  { subst j. rewrite seqZ_nil by lia. cbn [skip_invalid]. rewrite slots_nil by lia. repeat split; lia. }
  subst j. rewrite seqZ_succ. cbn [skip_invalid]. destruct (read_bool valid a) eqn:Hv.
  - rewrite slots_nil by lia. repeat split; try done; lia.
  - destruct (IH (a + 1)) as (Hj & Hvj & Hs). replace (a + 1 + Z.of_nat n) with (a + Z.of_nat (S n)) in * by lia.
    repeat split; [lia|lia|done|]. rewrite slots_cons by lia. cbn. rewrite Hv.
    by replace (_ - a - 1) with (skip_invalid (seqZ (a + 1) (Z.of_nat n)) valid (a + Z.of_nat (S n)) - (a + 1)) by lia.
Qed.

(** The binary search, on a range whose ids ascend. *)
Lemma search_loop_spec o xids xid (fuel : nat) first last :
  (forall i, first <= i <= last -> in_window o (read_at xids i)) ->
  (forall i j, first <= i -> i < j -> j <= last -> xid_age o (read_at xids i) < xid_age o (read_at xids j)) ->
  in_window o xid -> last - first < Z.of_nat fuel ->
  match search_loop fuel xids xid first last with
  | Some i => first <= i <= last /\ read_at xids i = xid
  | None => forall i, first <= i <= last -> read_at xids i <> xid
  end.
Proof.
  revert first last. induction fuel as [|fuel IH]; intros first last Hwin Hlt Hxid Hfuel; cbn [search_loop].
  { intros; lia. }
  destruct (Z.leb_spec first last); [|intros; lia].
  assert (Hmid : first <= (first + last) / 2 <= last) by (Z.to_euclidean_division_equations; lia).
  set (mid := (first + last) / 2) in *. clearbody mid.
  destruct (Z.eqb_spec xid (read_at xids mid)) as [->|Hne]; [done|].
  rewrite (precedes_window o) by auto. destruct (Z.ltb_spec (xid_age o xid) (xid_age o (read_at xids mid))).
  - assert (Hr : forall i, mid <= i <= last -> read_at xids i <> xid).
    { intros i Hi <-. destruct (decide (i = mid)) as [->|]; [done|]. specialize (Hlt mid i). lia. }
    specialize (IH first (mid - 1)). destruct (search_loop _ _ _ _ _).
    + destruct IH; [intros; apply Hwin; lia|intros; apply Hlt; lia|done|lia|]. split; [lia|done].
    + intros i Hi. destruct (decide (i < mid)); [apply IH; [intros; apply Hwin; lia|intros; apply Hlt; lia|done|lia|lia]|].
      apply Hr. lia.
  - assert (Hr : forall i, first <= i <= mid -> read_at xids i <> xid).
    { intros i Hi <-. destruct (decide (i = mid)) as [->|]; [done|]. specialize (Hlt i mid). lia. }
    specialize (IH (mid + 1) last). destruct (search_loop _ _ _ _ _).
    + destruct IH; [intros; apply Hwin; lia|intros; apply Hlt; lia|done|lia|]. split; [lia|done].
    + intros i Hi. destruct (decide (mid < i)); [apply IH; [intros; apply Hwin; lia|intros; apply Hlt; lia|done|lia|lia]|].
      apply Hr. lia.
Qed.

(** The marking loop of the pruning, as a function on slots. *)
Fixpoint pruned (prepared : TransactionId -> bool) (removeXid : TransactionId) (l : list Slot) : list Slot :=
  match l with
  | [] => []
  | (x, v) :: l =>
      if v && TransactionIdFollowsOrEquals x removeXid then (x, v) :: l
      else (x, v && prepared x) :: pruned prepared removeXid l
  end.

Lemma prune_loop_spec prepared removeXid (n : nat) i count xids valid :
  0 <= i -> i + Z.of_nat n <= Z.of_nat (length valid) ->
  exists count' valid',
    prune_loop prepared (seqZ i (Z.of_nat n)) removeXid count xids valid = (count', valid') /\
    length valid' = length valid /\
    (forall j, 0 <= j < i -> read_bool valid' j = read_bool valid j) /\
    slots xids valid' i (Z.of_nat n) = pruned prepared removeXid (slots xids valid i (Z.of_nat n)) /\
    count' = count + Z.of_nat (length (valid_xids (slots xids valid i (Z.of_nat n))))
             - Z.of_nat (length (valid_xids (slots xids valid' i (Z.of_nat n)))).
Proof.
  revert i count valid. induction n as [|n IH]; intros i count valid Hi Hn.
  { exists count, valid. cbn. split_and!; try done. lia. }
  rewrite seqZ_succ. setoid_rewrite slots_succ. cbn [prune_loop pruned].
  destruct (read_bool valid i) eqn:Hv; [case_if; [|destruct (prepared (read_at xids i)) eqn:Hp]|]; cbn [andb].
  - exists count, valid. rewrite Hv. split_and!; try done. lia.
  - destruct (IH (i + 1) count valid) as (count' & valid' & -> & Hl & Hlow & Hs & ->); [lia|lia|].
    eexists _, valid'. rewrite Hlow, Hv, Hs by lia. rewrite !valid_xids_cons.
    split_and!; [done|done| |done|cbn [length]; lia].
    intros j Hj. apply Hlow. lia.
  - destruct (IH (i + 1) (count + 1) (write_bool valid i false)) as (count' & valid' & -> & Hl & Hlow & Hs & ->);
      autorewrite with slots in *; [lia|lia|].
    rewrite slots_flag_out in * by lia.
    eexists _, valid'. rewrite Hlow, Hs, read_bool_same by lia. rewrite !valid_xids_cons.
    split_and!; [done|done| |done|cbn [length]; lia].
    intros j Hj. rewrite Hlow by lia. apply read_bool_other; lia.
  - destruct (IH (i + 1) count valid) as (count' & valid' & -> & Hl & Hlow & Hs & ->); [lia|lia|].
    eexists _, valid'. rewrite Hlow, Hv, Hs by lia. rewrite !valid_xids_cons.
    split_and!; [done|done| |done|cbn [length]; lia].
    intros j Hj. apply Hlow. lia.
Qed.

Definition survives (prepared : TransactionId -> bool) (removeXid x : TransactionId) : bool :=
  negb (TransactionIdPrecedes x removeXid) || prepared x.

Lemma follows_or_equals_negb o x y :
  in_window o x -> in_window o y -> TransactionIdFollowsOrEquals x y = negb (TransactionIdPrecedes x y).
Proof.
  intros. rewrite (follows_or_equals_window o), (precedes_window o) by done. lia.
Qed.

Lemma pruned_known o prepared removeXid l :
  in_window o removeXid -> xid_sorted o l.*1 ->
  valid_xids (pruned prepared removeXid l)
  = filter (fun x => survives prepared removeXid x = true) (valid_xids l).
Proof.
  intros Hrem. induction l as [|[x v] l IH]; intros Hsort; [done|].
  apply xid_sorted_cons in Hsort as (Hx & Hall & Hsort).
  specialize (IH Hsort). cbn [pruned]. destruct v; cbn [andb]; [|by cbn].
  rewrite (follows_or_equals_negb o) by done. destruct (TransactionIdPrecedes x removeXid) eqn:Hp; cbn [negb].
  - assert (Hs : survives prepared removeXid x = prepared x) by (unfold survives; by rewrite Hp).
    rewrite !valid_xids_cons, IH. destruct (prepared x);
      [by rewrite filter_cons_True by done|by rewrite filter_cons_False by (by rewrite Hs)].
  - symmetry. apply filter_all, Forall_forall. intros y Hy%elem_of_valid_xids. unfold survives.
    apply orb_true_iff. left. apply negb_true_iff. apply elem_of_cons in Hy as [[= ->]|Hy]; [done|].
    apply (list_elem_of_fmap_2 fst) in Hy. rewrite (precedes_window o) in * by eauto using xid_sorted_elem.
    rewrite Forall_forall in Hall. specialize (Hall _ Hy). cbn in *. lia.
Qed.

Lemma pruned_fst prepared removeXid l : (pruned prepared removeXid l).*1 = l.*1.
Proof.
  induction l as [|[x v] l IH]; [done|]. cbn [pruned]. case_if; cbn; by rewrite ?IH.
Qed.

(** ** Operations that only take slots away *)

Record narrowed (s s' : KnownXids) : Prop := {
  na_max : maxKnownAssignedXids s' = maxKnownAssignedXids s;
  na_xids : length (KnownAssignedXids s') = length (KnownAssignedXids s);
  na_valid : length (KnownAssignedXidsValid s') = length (KnownAssignedXidsValid s);
  na_pointers : 0 <= tailKnownAssignedXids s' <= headKnownAssignedXids s';
  na_head : headKnownAssignedXids s' <= headKnownAssignedXids s;
  na_slots : (entries s').*1 `sublist_of` (entries s).*1;
  na_num : numKnownAssignedXids s' - Z.of_nat (length (known s'))
           = numKnownAssignedXids s - Z.of_nat (length (known s));
}.

Lemma narrowed_ok o s s' : narrowed s s' -> known_ok o s -> known_ok o s'.
Proof.
  intros [] []. constructor; [congruence|congruence|done|lia|by eapply xid_sorted_sublist|lia].
Qed.

Lemma narrowed_refl o s : known_ok o s -> narrowed s s.
Proof. intros []. constructor; done. Qed.

Lemma narrowed_trans s1 s2 s3 : narrowed s1 s2 -> narrowed s2 s3 -> narrowed s1 s3.
Proof.
  intros [] []. constructor; [congruence|congruence|congruence|done|lia|by etransitivity|lia].
Qed.

(** The ids of [entries], in the form the array loops use. *)
Lemma entries_nat o s :
  known_ok o s -> exists n : nat,
    headKnownAssignedXids s = tailKnownAssignedXids s + Z.of_nat n /\
    headKnownAssignedXids s - tailKnownAssignedXids s = Z.of_nat n /\
    entries s = slots (KnownAssignedXids s) (KnownAssignedXidsValid s) (tailKnownAssignedXids s) (Z.of_nat n).
Proof.
  intros [? ? Hp]. exists (Z.to_nat (headKnownAssignedXids s - tailKnownAssignedXids s)).
  unfold entries. rewrite Z2Nat.id by lia. split_and!; [lia|done|done].
Qed.

Lemma compress_now_spec o later s :
  known_ok o s ->
  narrowed s (compress_now later s) /\ known (compress_now later s) = known s /\
  headKnownAssignedXids (compress_now later s) = numKnownAssignedXids s.
Proof.
  intros Hok. destruct (entries_nat o s Hok) as (n & Hh & Hd & He). destruct Hok as [Hx Hv Hp Hm _ Hn].
  unfold compress_now. rewrite Hd.
  destruct (compress_loop_spec n (tailKnownAssignedXids s) 0 (KnownAssignedXids s) (KnownAssignedXidsValid s))
    as (ci & xids & valid & -> & Hlx & Hlv & -> & Hs); [lia|lia|lia|].
  rewrite <- He in *. fold (known s) in *. cbn [app slots] in Hs.
  rewrite (slots_nil (KnownAssignedXids s)) in Hs by lia. cbn [app] in Hs.
  set (s' := set_heuristic _ _ _).
  assert (He' : entries s' = (fun x => (x, true)) <$> known s).
  { unfold entries, s'. cbn. rewrite <- Hs. f_equal. lia. }
  assert (Hk : known s' = known s) by (unfold known at 1; by rewrite He', valid_xids_true).
  assert (Hlen : (length (known s) <= n)%nat).
  { pose proof (sublist_length _ _ (valid_xids_sublist (entries s))) as Hl.
    rewrite length_fmap in Hl. rewrite He, length_slots, Nat2Z.id in Hl. rewrite <- He in Hl. done. }
  split; [|split; [done|cbn; lia]].
  constructor; cbn -[entries known]; [done|lia|lia|lia|lia| |by rewrite Hk].
  rewrite He'. rewrite <- list_fmap_compose. cbn. rewrite list_fmap_id. apply valid_xids_sublist.
Qed.

Lemma KnownAssignedXidsCompress_spec o reason clock s :
  known_ok o s ->
  narrowed s (KnownAssignedXidsCompress reason clock s) /\
  known (KnownAssignedXidsCompress reason clock s) = known s.
Proof.
  intros Hok. unfold KnownAssignedXidsCompress.
  assert (Hnow : forall ends, narrowed s (compress_now clock.2 (set_heuristic ends (lastCompressTs s) s)) /\
    known (compress_now clock.2 (set_heuristic ends (lastCompressTs s) s)) = known s).
  { intros ends. destruct (compress_now_spec o clock.2 (set_heuristic ends (lastCompressTs s) s)) as (Hn & Hk & _).
    - destruct Hok. constructor; done.
    - split; [|done]. destruct Hn. constructor; done. }
  pose proof (Hnow (transactionEndsCounter s)) as Hsame.
  replace (set_heuristic (transactionEndsCounter s) (lastCompressTs s) s) with s in Hsame by (by destruct s).
  pose proof (narrowed_refl o s Hok) as Hid.
  destruct (_ =? _); destruct reason; cbn zeta; repeat case_if; try done; (split; [|done]);
    destruct Hid; by constructor.
Qed.

(** Advancing the tail from [tail], below which every slot is invalid. *)
Lemma advance_tail_spec o tail s :
  known_ok o s -> tailKnownAssignedXids s <= tail <= headKnownAssignedXids s ->
  valid_xids (slots (KnownAssignedXids s) (KnownAssignedXidsValid s) (tailKnownAssignedXids s)
                (tail - tailKnownAssignedXids s)) = [] ->
  narrowed s (advance_tail tail s) /\ known (advance_tail tail s) = known s.
Proof.
  intros [Hx Hv Hp Hm _ _] Ht Hlow. unfold advance_tail.
  destruct (Z_of_nat_complete (headKnownAssignedXids s - tail)) as [n Hn]; [lia|].
  destruct (skip_invalid_spec n tail (KnownAssignedXids s) (KnownAssignedXidsValid s)) as (Hj & _ & Hskip).
  rewrite Hn. replace (tail + Z.of_nat n) with (headKnownAssignedXids s) in * by lia.
  set (j := skip_invalid _ _ _) in *. clearbody j.
  assert (He : entries s = slots (KnownAssignedXids s) (KnownAssignedXidsValid s) (tailKnownAssignedXids s)
                              (j - tailKnownAssignedXids s) ++
    slots (KnownAssignedXids s) (KnownAssignedXidsValid s) j (headKnownAssignedXids s - j)).
  { unfold entries. replace (headKnownAssignedXids s - tailKnownAssignedXids s)
      with ((j - tailKnownAssignedXids s) + (headKnownAssignedXids s - j)) by lia.
    rewrite slots_app by lia. do 2 f_equal. lia. }
  assert (Hk : known s = valid_xids (slots (KnownAssignedXids s) (KnownAssignedXidsValid s) j
                                       (headKnownAssignedXids s - j))).
  { unfold known. rewrite He, valid_xids_app.
    replace (j - tailKnownAssignedXids s) with ((tail - tailKnownAssignedXids s) + (j - tail)) by lia.
    rewrite slots_app, valid_xids_app, Hlow by lia.
    replace (tailKnownAssignedXids s + (tail - tailKnownAssignedXids s)) with tail by lia. by rewrite Hskip. }
  destruct (Z.leb_spec (headKnownAssignedXids s) j).
  - assert (Hnil : known s = []) by (rewrite Hk, slots_nil by lia; done).
    split; [|done]. constructor; cbn -[known entries]; try done; try lia.
    + apply sublist_nil_l.
    + by rewrite Hnil.
  - split; [|done]. constructor; cbn -[known entries]; try done; try lia.
    + rewrite He, fmap_app. by apply sublist_inserts_l.
    + rewrite Hk. done.
Qed.

Lemma entries_read o s i :
  known_ok o s -> tailKnownAssignedXids s <= i < headKnownAssignedXids s ->
  (entries s).*1 !! Z.to_nat (i - tailKnownAssignedXids s) = Some (read_at (KnownAssignedXids s) i).
Proof.
  intros [? ? ?] Hi. unfold entries, slots. rewrite !list_lookup_fmap, lookup_seqZ_lt by lia.
  cbn. do 2 f_equal. lia.
Qed.

Lemma search_known o s xid :
  known_ok o s -> in_window o xid ->
  let tail := tailKnownAssignedXids s in
  let head := headKnownAssignedXids s in
  match search_loop (Z.to_nat (head - tail)) (KnownAssignedXids s) xid tail (head - 1) with
  | Some i => tail <= i < head /\ read_at (KnownAssignedXids s) i = xid
  | None => xid ∉ (entries s).*1
  end.
Proof.
  intros Hok Hxid tail head. pose proof (ko_sorted o s Hok) as Hs. pose proof (ko_pointers o s Hok) as Hp.
  pose proof (search_loop_spec o (KnownAssignedXids s) xid (Z.to_nat (head - tail)) tail (head - 1)) as Hsearch.
  assert (Hread : forall i, tail <= i < head ->
    (entries s).*1 !! Z.to_nat (i - tail) = Some (read_at (KnownAssignedXids s) i)).
  { intros. by apply (entries_read o). }
  destruct (search_loop _ _ _ _ _) as [i|];
    [destruct Hsearch as [? Hi]; [..|split; [lia|done]]|intros Hin];
    try (intros; eapply xid_sorted_elem, list_elem_of_lookup_2, Hread; [done|lia]);
    try (intros; eapply xid_sorted_lookup; [done|apply Hread|apply Hread|]; lia); [done|subst tail head; lia|].
  unfold entries in Hin. apply list_elem_of_fmap in Hin as (p & -> & (i & Hi & ->)%elem_of_slots).
  apply (Hsearch) with i; try done; try (subst tail head; lia);
    try (intros; eapply xid_sorted_elem, list_elem_of_lookup_2, Hread; [done|lia]);
    intros; eapply xid_sorted_lookup; [done|apply Hread|apply Hread|]; lia.
Qed.

Lemma known_sorted o s : known_ok o s -> xid_sorted o (known s).
Proof. intros []. eapply xid_sorted_sublist; [apply valid_xids_sublist|done]. Qed.

Lemma known_not_in s xid : xid ∉ (entries s).*1 -> filter (fun y => y <> xid) (known s) = known s.
Proof.
  intros Hx. apply filter_all, Forall_forall. intros y Hy ->. apply Hx.
  apply elem_of_valid_xids in Hy. by apply (list_elem_of_fmap_2 fst) in Hy.
Qed.

(** Clearing the flag of the slot [i] takes its id out of [known]. *)
Lemma clear_flag_spec o s i :
  known_ok o s -> tailKnownAssignedXids s <= i < headKnownAssignedXids s ->
  read_bool (KnownAssignedXidsValid s) i = true ->
  let s' := set_pointers (numKnownAssignedXids s - 1) (tailKnownAssignedXids s) (headKnownAssignedXids s)
              (set_arrays (KnownAssignedXids s) (write_bool (KnownAssignedXidsValid s) i false) s) in
  narrowed s s' /\ known s' = filter (fun y => y <> read_at (KnownAssignedXids s) i) (known s).
Proof.
  intros Hok Hi Hb s'. pose proof (xid_sorted_NoDup _ _ (known_sorted _ _ Hok)) as Hnd.
  destruct Hok as [Hx Hv Hp Hm _ _].
  set (l1 := slots (KnownAssignedXids s) (KnownAssignedXidsValid s) (tailKnownAssignedXids s)
               (i - tailKnownAssignedXids s)).
  set (l2 := slots (KnownAssignedXids s) (KnownAssignedXidsValid s) (i + 1) (headKnownAssignedXids s - i - 1)).
  assert (He : entries s = l1 ++ (read_at (KnownAssignedXids s) i, true) :: l2).
  { unfold entries. rewrite (slots_split _ _ _ _ i), Hb by lia. do 3 f_equal. lia. }
  assert (He' : entries s' = l1 ++ (read_at (KnownAssignedXids s) i, false) :: l2).
  { unfold entries. cbn. rewrite (slots_split _ _ _ _ i), read_bool_same, !slots_flag_out by lia.
    do 3 f_equal. lia. }
  unfold known in *. rewrite He, valid_xids_app, valid_xids_cons in Hnd.
  apply NoDup_app in Hnd as (_ & Hn1 & [Hn2 _]%NoDup_cons).
  split.
  - constructor; cbn -[entries known]; try done; try lia.
    + by autorewrite with slots.
    + rewrite He, He', !fmap_app. done.
    + unfold known. rewrite He, He', !valid_xids_app, !valid_xids_cons, !length_app. cbn [length]. lia.
  - rewrite He, He', !valid_xids_app, !valid_xids_cons, filter_app, filter_cons_False by naive_solver.
    f_equal; symmetry; apply filter_all, Forall_forall; intros y Hy ->; [|done].
    apply (Hn1 _ Hy). left.
Qed.

Lemma flag_known o s i :
  known_ok o s -> tailKnownAssignedXids s <= i < headKnownAssignedXids s ->
  read_bool (KnownAssignedXidsValid s) i = bool_decide (read_at (KnownAssignedXids s) i ∈ known s).
Proof.
  intros Hok Hi. destruct (decide (read_at (KnownAssignedXids s) i ∈ known s)) as [Hin|Hin];
    [rewrite (bool_decide_true _ Hin)|rewrite (bool_decide_false _ Hin)].
  - apply elem_of_valid_xids, elem_of_slots in Hin as (j & Hj & Heq).
    replace i with j; [congruence|].
    enough (Z.to_nat (j - tailKnownAssignedXids s) = Z.to_nat (i - tailKnownAssignedXids s)) by lia.
    eapply NoDup_lookup; [eapply xid_sorted_NoDup, ko_sorted; done|..];
      [apply (entries_read o); [done|lia]|rewrite (entries_read o) by done; congruence].
  - apply not_true_iff_false. contradict Hin. apply elem_of_valid_xids, elem_of_slots. exists i.
    split; [lia|congruence].
Qed.

Lemma KnownAssignedXidsSearch_spec o remove xid s :
  known_ok o s -> in_window o xid ->
  (KnownAssignedXidsSearch xid remove s).1 = bool_decide (xid ∈ known s) /\
  narrowed s (KnownAssignedXidsSearch xid remove s).2 /\
  known (KnownAssignedXidsSearch xid remove s).2
  = if remove then filter (fun y => y <> xid) (known s) else known s.
Proof.
  intros Hok Hxid. pose proof (search_known o s xid Hok Hxid) as Hs. pose proof (narrowed_refl o s Hok) as Hid.
  cbn zeta in Hs. unfold KnownAssignedXidsSearch. destruct (search_loop _ _ _ _ _) as [i|].
  2: { cbn. rewrite known_not_in by done. split_and!; [|done|by destruct remove].
       symmetry. apply bool_decide_false. contradict Hs. apply elem_of_valid_xids in Hs.
       by apply (list_elem_of_fmap_2 fst) in Hs. }
  destruct Hs as [Hi Hx].
  assert (Hin : read_bool (KnownAssignedXidsValid s) i = bool_decide (xid ∈ known s))
    by (rewrite <- Hx; by apply (flag_known o)).
  destruct (read_bool (KnownAssignedXidsValid s) i) eqn:Hb; cbn [negb].
  2: { split_and!; [done|done|]. destruct remove; [|done]. cbn. symmetry. apply filter_all, Forall_forall.
       intros y Hy ->. symmetry in Hin. by apply bool_decide_eq_false in Hin. }
  destruct remove; [|done]. cbn [fst snd]. split; [done|].
  destruct (clear_flag_spec o s i) as [Hn Hk]; [done..|]. rewrite Hx in Hk.
  case_if; [|done].
  edestruct (advance_tail_spec o (tailKnownAssignedXids s + 1)) as [Hn' Hk'];
    [eapply narrowed_ok; [exact Hn|done]|cbn; lia| |split; [by eapply narrowed_trans|congruence]].
  cbn. rewrite slots_cons, slots_nil, valid_xids_cons by lia. bool_simpl. subst i.
  rewrite read_bool_same; [done|]. destruct Hok. lia.
Qed.

Lemma KnownAssignedXidsRemove_all o xids s :
  known_ok o s -> Forall (in_window o) xids ->
  let s' := foldl (fun s subxid => KnownAssignedXidsRemove subxid s) s xids in
  narrowed s s' /\ known s' = filter (fun y => y ∉ xids) (known s).
Proof.
  intros Hok Hw. revert s Hok. induction Hw as [|x xids Hx Hw IH]; intros s Hok; cbn.
  { split; [by eapply narrowed_refl|]. symmetry. apply filter_all, Forall_forall. intros y _. apply not_elem_of_nil. }
  destruct (KnownAssignedXidsSearch_spec o true x s) as (_ & Hn & Hk); [done..|].
  destruct (IH (KnownAssignedXidsRemove x s)) as [Hn' Hk']; [by eapply narrowed_ok|].
  split; [by eapply narrowed_trans|]. rewrite Hk'. unfold KnownAssignedXidsRemove at 1.
  rewrite Hk, list_filter_filter.
  apply list_filter_iff. intros y. rewrite not_elem_of_cons. naive_solver.
Qed.

(** The ids a tree removal names. *)
Definition tree_xids (xid : TransactionId) (subxids : list TransactionId) : list TransactionId :=
  if TransactionIdIsValid xid then xid :: subxids else subxids.

Lemma KnownAssignedXidsRemoveTree_spec o xid subxids clock s :
  known_ok o s -> Forall (in_window o) (tree_xids xid subxids) ->
  narrowed s (KnownAssignedXidsRemoveTree xid subxids clock s) /\
  known (KnownAssignedXidsRemoveTree xid subxids clock s)
  = filter (fun y => y ∉ tree_xids xid subxids) (known s).
Proof.
  intros Hok Hw. unfold KnownAssignedXidsRemoveTree.
  replace (foldl _ _ subxids)
    with (foldl (fun s subxid => KnownAssignedXidsRemove subxid s) s (tree_xids xid subxids))
    by (unfold tree_xids; by case_if).
  destruct (KnownAssignedXidsRemove_all o (tree_xids xid subxids) s) as [Hn Hk]; [done..|].
  destruct (KnownAssignedXidsCompress_spec o KAX_TRANSACTION_END clock
              (foldl (fun s subxid => KnownAssignedXidsRemove subxid s) s (tree_xids xid subxids)))
    as [Hn' Hk']; [by eapply narrowed_ok|].
  split; [by eapply narrowed_trans|congruence].
Qed.

Lemma KnownAssignedXidsRemovePreceding_spec o prepared removeXid clock s :
  known_ok o s -> in_window o removeXid ->
  narrowed s (KnownAssignedXidsRemovePreceding prepared removeXid clock s) /\
  known (KnownAssignedXidsRemovePreceding prepared removeXid clock s)
  = filter (fun x => survives prepared removeXid x = true) (known s).
Proof.
  intros Hok Hrem. unfold KnownAssignedXidsRemovePreceding.
  rewrite normal_TransactionIdIsValid by (by destruct Hrem). cbn [negb].
  destruct (entries_nat o s Hok) as (n & Hh & Hd & He). rewrite Hd.
  destruct (prune_loop_spec prepared removeXid n (tailKnownAssignedXids s) 0 (KnownAssignedXids s)
    (KnownAssignedXidsValid s)) as (count & valid & -> & Hl & _ & Hs & ->); [destruct Hok; lia..|].
  rewrite <- He in *. set (s1 := set_pointers _ _ _ _).
  assert (He1 : entries s1 = pruned prepared removeXid (entries s)).
  { unfold entries at 1. cbn. by rewrite Hd. }
  assert (Hk1 : known s1 = filter (fun x => survives prepared removeXid x = true) (known s)).
  { unfold known at 1. rewrite He1. apply (pruned_known o); [done|]. by destruct Hok. }
  assert (Hn1 : narrowed s s1).
  { pose proof Hok as []. constructor; cbn -[known entries]; try done; try lia.
    - by rewrite He1, pruned_fst.
    - unfold known. rewrite He1, <- Hs. lia. }
  destruct (advance_tail_spec o (tailKnownAssignedXids s) s1) as [Hn2 Hk2];
    [by eapply narrowed_ok|destruct Hok; cbn; lia|by rewrite slots_nil by (cbn; lia)|].
  destruct (KnownAssignedXidsCompress_spec o KAX_PRUNE clock (advance_tail (tailKnownAssignedXids s) s1))
    as [Hn3 Hk3]; [by eapply narrowed_ok; [|eapply narrowed_ok]|].
  split; [by eapply narrowed_trans; [|eapply narrowed_trans]|congruence].
Qed.

(** ** Runs of consecutive ids *)

(** The id [k] steps after [x]: the counter skips the three special values. *)
Definition nth_xid (x : TransactionId) (k : Z) : TransactionId :=
  if x + k <? 2 ^ 32 then x + k else x + k - 2 ^ 32 + FirstNormalTransactionId.

Lemma TransactionIdAdvance_normal x : normal_xid x -> TransactionIdAdvance x = nth_xid x 1.
Proof.
  intros Hx. unfold TransactionIdAdvance, nth_xid. xid_unfold.
  destruct (Z.ltb_spec (x + 1) (2 ^ 32)).
  - rewrite u32_small by (unfold is_u32; lia). destruct (Z.ltb_spec (x + 1) 3); lia.
  - replace x with (2 ^ 32 - 1) by lia. reflexivity.
Qed.

Lemma nth_xid_normal x k : normal_xid x -> 0 <= k < 2 ^ 31 -> normal_xid (nth_xid x k).
Proof. unfold nth_xid. xid_unfold. case_if; lia. Qed.

Lemma nth_xid_add x j k :
  normal_xid x -> 0 <= j -> 0 <= k -> j + k < 2 ^ 31 -> nth_xid (nth_xid x j) k = nth_xid x (j + k).
Proof.
  unfold nth_xid. xid_unfold. intros. repeat case_if; lia.
Qed.

Lemma nth_xid_age x k :
  normal_xid x -> 0 <= k < 2 ^ 31 ->
  xid_age x (nth_xid x k) = if x + k <? 2 ^ 32 then k else k + FirstNormalTransactionId.
Proof. unfold nth_xid. xid_unfold. intros. case_if; cint. Qed.

(** Every normal id ahead of [x] is some number of steps ahead. *)
Lemma nth_xid_surj x y :
  normal_xid x -> normal_xid y -> xid_age x y < 2 ^ 31 ->
  exists k, 0 <= k <= xid_age x y /\ y = nth_xid x k.
Proof.
  intros Hx Hy Hage.
  exists (if x <=? y then y - x else y + 2 ^ 32 - x - FirstNormalTransactionId).
  revert Hx Hy Hage. unfold nth_xid. xid_unfold. destruct (Z.leb_spec x y); intros.
  - replace (x + (y - x) <? 2 ^ 32) with true by lia. cint.
  - replace (x + (y + 2 ^ 32 - x - 3) <? 2 ^ 32) with false by lia. cint.
Qed.

Lemma xid_run_nth n x :
  normal_xid x -> Z.of_nat n <= 2 ^ 31 -> xid_run n x = nth_xid x <$> seqZ 0 (Z.of_nat n).
Proof.
  revert x. induction n as [|n IH]; intros x Hx Hn; [done|].
  rewrite seqZ_succ. cbn [xid_run fmap list_fmap].
  rewrite TransactionIdAdvance_normal by done. rewrite IH; [|apply nth_xid_normal; [done|lia]|lia].
  f_equal.
  - unfold nth_xid. revert Hx. xid_unfold. intros. replace (x + 0 <? 2 ^ 32) with true by lia. lia.
  - change (0 + 1) with 1. replace (seqZ 1 (Z.of_nat n)) with (Z.add 1 <$> seqZ 0 (Z.of_nat n))
      by (by rewrite fmap_add_seqZ).
    rewrite <- list_fmap_compose. apply list_fmap_ext. intros i k [-> ?]%lookup_seqZ. cbn [compose].
    apply nth_xid_add; [done|lia..].
Qed.

Lemma nth_xid_0 x : normal_xid x -> nth_xid x 0 = x.
Proof. unfold nth_xid. xid_unfold. intros. replace (x + 0 <? 2 ^ 32) with true by lia. lia. Qed.

Lemma in_window_self x : normal_xid x -> in_window x x.
Proof. xid_unfold. intros. split; [done|]. cint. Qed.

Lemma count_xids_spec (fuel : nat) n x k :
  normal_xid x -> 0 <= k <= Z.of_nat fuel -> k + FirstNormalTransactionId < 2 ^ 31 ->
  count_xids fuel n x (nth_xid x k) = n + k.
Proof.
  change FirstNormalTransactionId with 3.
  revert n x k. induction fuel as [|fuel IH]; intros n x k Hx Hf Hk; cbn [count_xids]; [lia|].
  destruct (decide (k = 0)) as [->|Hne]; [rewrite nth_xid_0, precedes_irrefl by done; lia|].
  assert (Hage : k <= xid_age x (nth_xid x k) < 2 ^ 31)
    by (rewrite nth_xid_age by (done || lia); change FirstNormalTransactionId with 3; case_if; lia).
  rewrite (precedes_window x); [|by apply in_window_self|split; [apply nth_xid_normal; [done|lia]|lia]].
  rewrite (proj2 (Z.ltb_lt _ _)) 
    by (unfold xid_age at 1; rewrite Z.sub_diag; change (u32 0) with 0; lia).
  rewrite TransactionIdAdvance_normal by done. replace (nth_xid x k) with (nth_xid (nth_xid x 1) (k - 1)).
  - rewrite IH; [lia|apply nth_xid_normal; [done|lia]|lia|lia].
  - rewrite nth_xid_add by (done || lia). f_equal. lia.
Qed.

Lemma xids_between_spec from_xid to_xid :
  normal_xid from_xid -> normal_xid to_xid -> xid_age from_xid to_xid < 2 ^ 31 - FirstNormalTransactionId ->
  exists k, 0 <= k <= xid_age from_xid to_xid /\ to_xid = nth_xid from_xid k /\
    xids_between from_xid to_xid = k + 1.
Proof.
  change FirstNormalTransactionId with 3.
  intros Hx Hy Hage. destruct (nth_xid_surj from_xid to_xid) as (k & Hk & Hto); [done|done|lia|].
  exists k. split; [done|]. split; [done|]. unfold xids_between. destruct (Z.leb_spec from_xid to_xid).
  - revert Hto Hk Hage Hx Hy. unfold nth_xid. xid_unfold. case_if; cint.
  - rewrite Hto at 2. rewrite count_xids_spec; [lia|done|lia|change FirstNormalTransactionId with 3; lia].
Qed.

Lemma xid_age_diff o x y :
  normal_xid x -> normal_xid y -> xid_age o x <= xid_age o y -> xid_age x y = xid_age o y - xid_age o x.
Proof. xid_unfold. cint. Qed.

Lemma nth_xid_age_from o x k :
  normal_xid x -> 0 <= k -> xid_age o x + k < 2 ^ 31 ->
  xid_age o (nth_xid x k) = xid_age o x + if x + k <? 2 ^ 32 then k else k + FirstNormalTransactionId.
Proof. unfold nth_xid. xid_unfold. intros. case_if; cint. Qed.

Lemma seqZ_sorted {A} (R : A -> A -> Prop) (f : Z -> A) a n :
  (forall i j, a <= i -> i < j -> j < a + n -> R (f i) (f j)) -> StronglySorted R (f <$> seqZ a n).
Proof.
  intros H. destruct (Z.le_gt_cases n 0) as [Hn|Hn]; [rewrite seqZ_nil by done; constructor|].
  destruct (Z_of_nat_complete n) as [m ->]; [lia|]. clear Hn. revert a H.
  induction m as [|m IH]; intros a H; [constructor|]. rewrite seqZ_succ. cbn. constructor.
  - apply IH. intros. apply H; lia.
  - apply Forall_fmap, Forall_seqZ. intros j Hj. cbn. apply H; lia.
Qed.

(** The ids of an insertion: all from [from_xid] to [to_xid], in order. *)
Lemma xid_run_between o from_xid to_xid :
  in_window o from_xid -> in_window o to_xid -> xid_age o from_xid <= xid_age o to_xid ->
  xid_age o to_xid < 2 ^ 31 - FirstNormalTransactionId ->
  let run := xid_run (Z.to_nat (xids_between from_xid to_xid)) from_xid in
  xid_sorted o run /\ Z.of_nat (length run) = xids_between from_xid to_xid /\
  forall y, y ∈ run <-> normal_xid y /\ xid_age o from_xid <= xid_age o y <= xid_age o to_xid.
Proof.
  change FirstNormalTransactionId with 3. intros [Hx ?] [Hy ?] Hle Hmax run.
  pose proof (xid_age_diff o _ _ Hx Hy Hle) as Hd.
  destruct (xids_between_spec from_xid to_xid) as (k & Hk & Hto & Hn); [done|done| |].
  { change FirstNormalTransactionId with 3. revert Hx. unfold xid_age in *. cint. }
  assert (Hpos : 0 <= xid_age o from_xid) by (unfold xid_age; cint).
  assert (Hrun : run = nth_xid from_xid <$> seqZ 0 (k + 1)).
  { subst run. rewrite Hn, xid_run_nth by (done || lia). do 2 f_equal. lia. }
  assert (Hage : forall j, 0 <= j <= k -> normal_xid (nth_xid from_xid j) /\
    xid_age o (nth_xid from_xid j) = xid_age o from_xid + if from_xid + j <? 2 ^ 32 then j else j + 3).
  { intros j Hj. split; [apply nth_xid_normal; [done|lia]|]. apply nth_xid_age_from; [done|lia..]. }
  pose proof (Hage k) as [_ Hagek]; [lia|]. rewrite <- Hto in Hagek.
  split_and!.
  - rewrite Hrun. split.
    + apply Forall_fmap, Forall_seqZ. intros j Hj. cbn. destruct (Hage j) as [? Ha]; [lia|].
      split; [done|]. rewrite Ha. revert Hagek. repeat case_if; lia.
    + apply seqZ_sorted. intros i j Hi Hij Hj. destruct (Hage i) as [_ ->]; [lia|].
      destruct (Hage j) as [_ ->]; [lia|]. repeat case_if; lia.
  - rewrite Hrun, length_fmap, length_seqZ. lia.
  - intros y. rewrite Hrun, list_elem_of_fmap. setoid_rewrite elem_of_seqZ. split.
    + intros (j & -> & Hj). destruct (Hage j) as [? ->]; [lia|]. rewrite Hagek. split; [done|].
      repeat case_if; lia.
    + intros [Hny Ha]. pose proof (xid_age_diff o from_xid y) as Hdy.
      destruct (nth_xid_surj from_xid y) as (j & Hj & ->); [done|done|rewrite Hdy by (done || lia); lia|].
      rewrite Hdy in Hj by (done || lia).
      exists j. split; [done|]. rewrite nth_xid_age_from, Hagek in Ha by (done || lia).
      change FirstNormalTransactionId with 3 in Ha. revert Ha. repeat case_if; lia.
Qed.

(** ** Insertion *)

Lemma xid_sorted_app_2 o l1 l2 :
  xid_sorted o l1 -> xid_sorted o l2 -> (forall x y, x ∈ l1 -> y ∈ l2 -> xid_age o x < xid_age o y) ->
  xid_sorted o (l1 ++ l2).
Proof.
  intros [Hw1 Hs1] [Hw2 Hs2] H. split; [by apply Forall_app|]. by apply StronglySorted_app_2.
Qed.

Definition all_older (o from_xid : TransactionId) (s : KnownXids) : Prop :=
  Forall (fun x => xid_age o x < xid_age o from_xid) (entries s).*1.

Lemma insert_xids_spec o from_xid to_xid s :
  known_ok o s -> in_window o from_xid -> in_window o to_xid -> xid_age o from_xid <= xid_age o to_xid ->
  xid_age o to_xid < 2 ^ 31 - FirstNormalTransactionId -> all_older o from_xid s ->
  let nxids := xids_between from_xid to_xid in
  let run := xid_run (Z.to_nat nxids) from_xid in
  headKnownAssignedXids s + nxids <= maxKnownAssignedXids s ->
  known_ok o (insert_xids from_xid nxids s) /\ known (insert_xids from_xid nxids s) = known s ++ run /\
  (entries (insert_xids from_xid nxids s)).*1 = (entries s).*1 ++ run.
Proof.
  intros Hok Hx Hy Hle Hmax Hold nxids run Hfit.
  destruct (xid_run_between o from_xid to_xid) as (Hrs & Hrl & Hre); [done..|].
  fold nxids in Hrs, Hrl, Hre. fold run in Hrs, Hrl, Hre.
  pose proof Hok as [Hlx Hlv Hp Hm Hs Hn]. unfold insert_xids.
  destruct (insert_loop_spec (Z.to_nat nxids) from_xid (tailKnownAssignedXids s) (headKnownAssignedXids s)
              (KnownAssignedXids s) (KnownAssignedXidsValid s)) as (xids & valid & -> & Hx' & Hv' & He);
    [lia|lia|lia|].
  fold (entries s) in He. fold run in He. set (s' := set_pointers _ _ _ _).
  change (slots xids valid _ _) with (entries s') in He.
  assert (Hk : known s' = known s ++ run) by (unfold known at 1; rewrite He, valid_xids_app, valid_xids_true; done).
  assert (Hf : (entries s').*1 = (entries s).*1 ++ run).
  { rewrite He, fmap_app, <- list_fmap_compose. f_equal. apply list_fmap_id. }
  split; [|done]. constructor; cbn -[entries known]; try lia.
  - rewrite Hf. apply xid_sorted_app_2; [done|done|]. intros x y Hxin Hyin.
    unfold all_older in Hold. rewrite Forall_forall in Hold. specialize (Hold x Hxin).
    apply Hre in Hyin. lia.
  - rewrite Hk, length_app. lia.
Qed.

Lemma insert_xids_max from_xid nxids s : maxKnownAssignedXids (insert_xids from_xid nxids s) = maxKnownAssignedXids s.
Proof. unfold insert_xids. by destruct (insert_loop _ _ _ _ _) as [[??]?]. Qed.

Lemma all_older_last o from_xid s :
  known_ok o s -> in_window o from_xid ->
  (tailKnownAssignedXids s <? headKnownAssignedXids s)
  && TransactionIdFollowsOrEquals (read_at (KnownAssignedXids s) (headKnownAssignedXids s - 1)) from_xid = false
  <-> all_older o from_xid s.
Proof.
  intros Hok Hx. pose proof (ko_sorted _ _ Hok) as Hs. pose proof (ko_pointers _ _ Hok) as Hp.
  destruct (Z.ltb_spec (tailKnownAssignedXids s) (headKnownAssignedXids s)) as [Hlt|Hge]; cbn [andb].
  - assert (Hl : (entries s).*1 !! Z.to_nat (headKnownAssignedXids s - 1 - tailKnownAssignedXids s)
                 = Some (read_at (KnownAssignedXids s) (headKnownAssignedXids s - 1)))
      by (apply (entries_read o); [done|lia]).
    rewrite (follows_or_equals_window o) by (eauto using xid_sorted_elem, list_elem_of_lookup_2).
    rewrite Z.leb_gt. unfold all_older. rewrite Forall_lookup. split.
    + intros Hlast i x Hi. pose proof (lookup_lt_Some _ _ _ Hi) as Hil.
      rewrite length_fmap in Hil. unfold entries in Hil. rewrite length_slots in Hil.
      destruct (decide (i = Z.to_nat (headKnownAssignedXids s - 1 - tailKnownAssignedXids s))) as [->|];
        [congruence|]. etransitivity; [eapply xid_sorted_lookup; [exact Hs|exact Hi|exact Hl|lia]|done].
    + intros Hall. by apply Hall in Hl.
  - split; [|done]. intros _. unfold all_older, entries. rewrite slots_nil by lia. constructor.
Qed.

Lemma narrowed_all_older o from_xid s s' : narrowed s s' -> all_older o from_xid s -> all_older o from_xid s'.
Proof.
  intros [] Hold. unfold all_older in *. rewrite Forall_forall in *. intros x Hx. by eapply Hold, elem_of_sublist.
Qed.

Lemma KnownAssignedXidsAdd_spec o from_xid to_xid clock s :
  known_ok o s -> in_window o from_xid -> in_window o to_xid -> xid_age o from_xid <= xid_age o to_xid ->
  xid_age o to_xid < 2 ^ 31 - FirstNormalTransactionId ->
  let run := xid_run (Z.to_nat (xids_between from_xid to_xid)) from_xid in
  match KnownAssignedXidsAdd from_xid to_xid clock s with
  | Err OutOfOrderXidInsertion => ~ all_older o from_xid s
  | Err TooManyKnownAssignedXids =>
      all_older o from_xid s /\ maxKnownAssignedXids s < Z.of_nat (length (known s ++ run))
  | Ok s' =>
      all_older o from_xid s /\ known_ok o s' /\ known s' = known s ++ run /\
      maxKnownAssignedXids s' = maxKnownAssignedXids s /\
      forall x, x ∈ (entries s').*1 -> x ∈ (entries s).*1 \/ x ∈ run
  end.
Proof.
  intros Hok Hx Hy Hle Hmax run.
  destruct (xid_run_between o from_xid to_xid) as (_ & Hrl & _); [done..|]. fold run in Hrl.
  unfold KnownAssignedXidsAdd. pose proof (all_older_last o from_xid s Hok Hx) as Hlast.
  destruct (_ && _); [intros Hold; by apply Hlast in Hold|]. pose proof (proj1 Hlast eq_refl) as Hold.
  destruct (Z.ltb_spec (maxKnownAssignedXids s) (headKnownAssignedXids s + xids_between from_xid to_xid)).
  - destruct (compress_now_spec o clock.2 s Hok) as (Hn & Hk & Hh).
    replace (KnownAssignedXidsCompress KAX_NO_SPACE clock s) with (compress_now clock.2 s)
      by (unfold KnownAssignedXidsCompress; by destruct (_ =? _)).
    rewrite (na_max _ _ Hn), Hh. case_if; bool_simpl.
    + split; [done|]. rewrite length_app. pose proof (ko_num _ _ Hok). lia.
    + destruct (insert_xids_spec o from_xid to_xid (compress_now clock.2 s)) as (Hok' & Hk' & He');
        [by eapply narrowed_ok|done..|by eapply narrowed_all_older|rewrite (na_max _ _ Hn), Hh; lia|].
      split_and!; [done|done|by rewrite Hk', Hk|by rewrite insert_xids_max, (na_max _ _ Hn)|].
      intros x. rewrite He', elem_of_app. intros [Hin|?]; [left|by right]. by eapply elem_of_sublist, na_slots.
  - destruct (insert_xids_spec o from_xid to_xid s) as (Hok' & Hk' & He'); [done..|lia|].
    split_and!; [done|done|done|by rewrite insert_xids_max|]. intros x. by rewrite He', elem_of_app.
Qed.

(** ** Reading *)

(** What a reader keeps: everything before [xmax], if there is one. *)
Definition before (xmax x : TransactionId) : bool :=
  negb (TransactionIdIsValid xmax) || TransactionIdPrecedes x xmax.

Definition lower_xmin (xmin : TransactionId) (l : list TransactionId) : TransactionId :=
  match l with
  | [] => xmin
  | x :: _ => if TransactionIdPrecedes x xmin then x else xmin
  end.

Lemma get_loop_spec o xids valid xmax (n : nat) a out xmin :
  let l := valid_xids (slots xids valid a (Z.of_nat n)) in
  xid_sorted o l -> (TransactionIdIsValid xmax = true -> in_window o xmax) ->
  get_loop (seqZ a (Z.of_nat n)) xids valid out xmin xmax
  = (out ++ filter (fun x => before xmax x = true) l, match out with [] => lower_xmin xmin l | _ => xmin end).
Proof.
  revert a out xmin. induction n as [|n IH]; intros a out xmin l Hs Hmax; subst l.
  { cbn. rewrite app_nil_r. by destruct out. }
  rewrite slots_succ, valid_xids_cons in *. rewrite seqZ_succ. cbn [get_loop].
  destruct (read_bool valid a); [|by apply IH]. apply xid_sorted_cons in Hs as (Hx & Hall & Hs).
  set (x := read_at xids a) in *. set (rest := valid_xids _) in *.
  assert (Hxm : (if (Z.of_nat (length out) =? 0) && TransactionIdPrecedes x xmin then x else xmin)
                = match out with [] => lower_xmin xmin (x :: rest) | _ => xmin end) by (by destruct out).
  rewrite Hxm. destruct (TransactionIdIsValid xmax && TransactionIdFollowsOrEquals x xmax) eqn:Hstop.
  - bool_simpl. f_equal. rewrite filter_nil_all; [by rewrite app_nil_r|].
    intros y Hy. unfold before. rewrite H. specialize (Hmax H). cbn [negb orb].
    rewrite (follows_or_equals_window o) in H0 by done.
    rewrite (precedes_window o); [|apply elem_of_cons in Hy as [->|Hy]; [done|by eapply xid_sorted_elem]|done].
    apply not_true_iff_false, Z.ltb_ge. apply Z.leb_le in H0.
    apply elem_of_cons in Hy as [->|Hy]; [done|]. rewrite Forall_forall in Hall. specialize (Hall y Hy). lia.
  - rewrite IH by done. rewrite filter_cons_True.
    + rewrite <- app_assoc. cbn. f_equal. by destruct out.
    + unfold before. destruct (TransactionIdIsValid xmax); [|done]. cbn in *.
      rewrite (follows_or_equals_negb o) in Hstop by auto. by apply negb_false_iff.
Qed.

Lemma KnownAssignedXidsGetAndSetXmin_spec o xmin xmax s :
  known_ok o s -> (TransactionIdIsValid xmax = true -> in_window o xmax) ->
  KnownAssignedXidsGetAndSetXmin xmin xmax s
  = (filter (fun x => before xmax x = true) (known s), lower_xmin xmin (known s)).
Proof.
  intros Hok Hmax. destruct (entries_nat o s Hok) as (n & _ & Hd & He).
  unfold KnownAssignedXidsGetAndSetXmin. rewrite Hd, (get_loop_spec o); [|rewrite <- He; by apply known_sorted|done].
  cbn. unfold known. by rewrite He.
Qed.

Lemma KnownAssignedXidsGetOldestXmin_spec o s :
  known_ok o s -> KnownAssignedXidsGetOldestXmin s = default InvalidTransactionId (head (known s)).
Proof.
  intros Hok. destruct (entries_nat o s Hok) as (n & Hh & Hd & He). unfold KnownAssignedXidsGetOldestXmin.
  destruct (skip_invalid_spec n (tailKnownAssignedXids s) (KnownAssignedXids s) (KnownAssignedXidsValid s))
    as (Hj & Hv & Hskip). rewrite Hd. rewrite <- Hh in *. set (j := skip_invalid _ _ _) in *. clearbody j.
  unfold known. rewrite He.
  replace (Z.of_nat n) with ((j - tailKnownAssignedXids s) + (headKnownAssignedXids s - j)) by lia.
  rewrite slots_app, valid_xids_app, Hskip by lia. cbn [app].
  replace (tailKnownAssignedXids s + (j - tailKnownAssignedXids s)) with j by lia.
  destruct (Z.ltb_spec j (headKnownAssignedXids s)).
  - rewrite slots_cons, Hv by lia. done.
  - by rewrite slots_nil by lia.
Qed.

(** ** The array as an ordered set *)

(** The calls of the startup process. *)
Inductive KnownOp :=
| OpAdd (from_xid to_xid : TransactionId)
| OpRemoveTree (xid : TransactionId) (subxids : list TransactionId)
| OpRemovePreceding (removeXid : TransactionId)
| OpIdle
| OpReset.

Section Ops.
Context (prepared : TransactionId -> bool) (clock : Z * Z).

Definition known_step (op : KnownOp) (s : KnownXids) : result KnownError KnownXids :=
  match op with
  | OpAdd from_xid to_xid => KnownAssignedXidsAdd from_xid to_xid clock s
  | OpRemoveTree xid subxids => Ok (KnownAssignedXidsRemoveTree xid subxids clock s)
  | OpRemovePreceding removeXid => Ok (KnownAssignedXidsRemovePreceding prepared removeXid clock s)
  | OpIdle => Ok (KnownAssignedTransactionIdsIdleMaintenance clock s)
  | OpReset => Ok (KnownAssignedXidsReset s)
  end.

(** The same calls on a set of ids, listed in order. *)
Definition set_step (op : KnownOp) (l : list TransactionId) : list TransactionId :=
  match op with
  | OpAdd from_xid to_xid => l ++ xid_run (Z.to_nat (xids_between from_xid to_xid)) from_xid
  | OpRemoveTree xid subxids => filter (fun x => x ∉ tree_xids xid subxids) l
  | OpRemovePreceding removeXid =>
      if TransactionIdIsValid removeXid then filter (fun x => survives prepared removeXid x = true) l else []
  | OpIdle => l
  | OpReset => []
  end.

(** The ids of a call lie within half a turn of [o]; a run is not backwards. *)
Definition op_in_window (o : TransactionId) (op : KnownOp) : Prop :=
  match op with
  | OpAdd from_xid to_xid =>
      in_window o from_xid /\ in_window o to_xid /\ xid_age o from_xid <= xid_age o to_xid /\
      xid_age o to_xid < 2 ^ 31 - FirstNormalTransactionId
  | OpRemoveTree xid subxids => Forall (in_window o) (tree_xids xid subxids)
  | OpRemovePreceding removeXid => removeXid = InvalidTransactionId \/ in_window o removeXid
  | _ => True
  end.

Lemma cleared_ok o s :
  known_ok o s -> known_ok o (set_pointers 0 0 0 s) /\ known (set_pointers 0 0 0 s) = [].
Proof.
  intros []. split; [|done]. constructor; cbn; try done; try lia. split; constructor.
Qed.

Lemma known_step_spec o op s :
  known_ok o s -> op_in_window o op ->
  match known_step op s with
  | Ok s' => known_ok o s' /\ known s' = set_step op (known s)
  | Err OutOfOrderXidInsertion =>
      exists from_xid to_xid, op = OpAdd from_xid to_xid /\ ~ all_older o from_xid s
  | Err TooManyKnownAssignedXids => maxKnownAssignedXids s < Z.of_nat (length (set_step op (known s)))
  end.
Proof.
  intros Hok Hop. destruct op as [from_xid to_xid|xid subxids|removeXid| |]; cbn [known_step set_step] in *.
  - destruct Hop as (Hf & Ht & Hle & Hmax).
    pose proof (KnownAssignedXidsAdd_spec o from_xid to_xid clock s Hok Hf Ht Hle Hmax) as Hadd.
    destruct (KnownAssignedXidsAdd _ _ _ _) as [s'|[]]; [by destruct Hadd as (_ & ? & ? & _)| |apply Hadd].
    by exists from_xid, to_xid.
  - destruct (KnownAssignedXidsRemoveTree_spec o xid subxids clock s) as [Hn Hk]; [done..|].
    split; [by eapply narrowed_ok|done].
  - destruct Hop as [->|Hrem]; [by apply cleared_ok|].
    destruct (KnownAssignedXidsRemovePreceding_spec o prepared removeXid clock s) as [Hn Hk]; [done..|].
    split; [by eapply narrowed_ok|]. rewrite normal_TransactionIdIsValid by (by destruct Hrem). done.
  - destruct (KnownAssignedXidsCompress_spec o KAX_STARTUP_PROCESS_IDLE clock s) as [Hn Hk]; [done|].
    split; [by eapply narrowed_ok|done].
  - by apply cleared_ok.
Qed.

End Ops.

(** C15. the known-assigned array implements an ordered set of transaction
    ids: from any state that satisfies the invariant, each operation of the
    startup process leaves a state that satisfies it and whose valid entries
    are those of the set operation, or fails because the ids do not follow
    those already added or do not fit; membership, the ids before a limit, the
    oldest id and a lowered [xmin] are read off exactly. *)
Theorem KnownAssignedXids_refines_set (o : TransactionId) (prepared : TransactionId -> bool)
    (clock : Z * Z) (op : KnownOp) (s : KnownXids) (xid xmin xmax : TransactionId) :
  known_ok o s -> op_in_window o op -> in_window o xid -> xmax = InvalidTransactionId \/ in_window o xmax ->
  match known_step prepared clock op s with
  | Ok s' => known_ok o s' /\ known s' = set_step prepared op (known s)
  | Err OutOfOrderXidInsertion =>
      exists from_xid to_xid, op = OpAdd from_xid to_xid /\ ~ all_older o from_xid s
  | Err TooManyKnownAssignedXids => maxKnownAssignedXids s < Z.of_nat (length (set_step prepared op (known s)))
  end /\
  KnownAssignedXidExists xid s = bool_decide (xid ∈ known s) /\
  KnownAssignedXidsGetAndSetXmin xmin xmax s
  = (filter (fun x => before xmax x = true) (known s), lower_xmin xmin (known s)) /\
  KnownAssignedXidsGetOldestXmin s = default InvalidTransactionId (head (known s)).
Proof.
  intros Hok Hop Hxid Hmax. split_and!.
  - by apply known_step_spec.
  - by apply (KnownAssignedXidsSearch_spec o).
  - apply (KnownAssignedXidsGetAndSetXmin_spec o); [done|]. intros Hv. by destruct Hmax as [->|].
  - by apply (KnownAssignedXidsGetOldestXmin_spec o).
Qed.

(** A small array with a gap: 100, 101 and 103 known, 102 removed. *)
Definition known_example : KnownXids :=
  mkKnownXids 8 3 1 5 [90; 100; 101; 102; 103; 0; 0; 0]
    [false; true; true; false; true; false; false; false] 0 0.

Lemma known_example_ok : known_ok 3 known_example.
Proof.
  constructor; cbn; try lia; try done.
  split; [by repeat constructor|]. repeat constructor; vm_compute; done.
Qed.

Lemma KnownAssignedXids_refines_set_witness :
  exists s', known_step (fun _ => false) (0, 0) (OpAdd 104 108) known_example = Ok s' /\
    known s' = [100; 101; 103; 104; 105; 106; 107; 108] /\
    KnownAssignedXidsGetAndSetXmin 102 103 known_example = ([100; 101], 100).
Proof.
  destruct (KnownAssignedXids_refines_set 3 (fun _ => false) (0, 0) (OpAdd 104 108) known_example 101 102 103)
    as (Hstep & _ & Hget & _); [exact known_example_ok|..].
  - cbn. repeat split; vm_compute; done.
  - split; vm_compute; done.
  - right. split; vm_compute; done.
  - eexists. split; [vm_compute; reflexivity|]. split; [vm_compute; reflexivity|].
    rewrite Hget. vm_compute. reflexivity.
Defined.
