(* ===== verification/ProcArray.v ===== *)
(** * ProcArray: the shared array of processes

    Models the data of src/backend/storage/ipc/procarray.c and of
    src/include/storage/proc.h that say which transactions are running, and
    the operations that change them: adding and removing processes, assigning
    ids (the end of [GetNewTransactionId] of
    src/backend/access/transam/varsup.c), ending a transaction, preparing it,
    dropping the ids of an aborted subtransaction.

    A [PGPROC *] is the number of the process in [allProcs].  The arrays of
    [ProcGlobal] that mirror fields of the processes ([xids], [subxidStates],
    [statusFlags]) and [pgprocnos] are lists of length [numProcs]; what C
    leaves behind their end is never read.  Each definition is the code
    between acquiring and releasing its locks. *)

From S2P Require Import Prelude TransactionId KnownXids.

Definition PROC_IS_AUTOVACUUM : Z := 0x01.
Definition PROC_IN_VACUUM : Z := 0x02.
Definition PROC_IN_SAFE_IC : Z := 0x04.
Definition PROC_VACUUM_FOR_WRAPAROUND : Z := 0x08.
Definition PROC_IN_LOGICAL_DECODING : Z := 0x10.
Definition PROC_AFFECTS_ALL_HORIZONS : Z := 0x20.
Definition PROC_VACUUM_STATE_MASK : Z :=
  Z.lor (Z.lor PROC_IN_VACUUM PROC_IN_SAFE_IC) PROC_VACUUM_FOR_WRAPAROUND.
Definition MAX_CACHED_SUBXIDS : nat := 64.
Definition InvalidLocalTransactionId : Z := 0.
Definition InvalidOid : Z := 0.

Record XidCacheStatus := mkXidCacheStatus { count : nat; overflowed : bool }.

Definition no_subxids : XidCacheStatus := mkXidCacheStatus 0 false.

#[export] Instance XidCacheStatus_eq_dec : EqDecision XidCacheStatus.
Proof. solve_decision. Defined.

(** [pr_subxids] is the array [subxids.xids], whose first [count] elements
    are in use; [waitLock] is the number of the lock waited for. *)
Record PGPROC := mkPGPROC {
  pgprocno : nat;
  pid : Z;
  pgxactoff : nat;
  pr_xid : TransactionId;
  pr_xmin : TransactionId;
  lxid : Z;
  backendId : Z;
  databaseId : Z;
  roleId : Z;
  pr_statusFlags : Z;
  delayChkptFlags : Z;
  recoveryConflictPending : bool;
  isBackgroundWorker : bool;
  waitLock : option nat;
  subxidStatus : XidCacheStatus;
  pr_subxids : list TransactionId;
}.

Definition set_pgxactoff (i : nat) (p : PGPROC) : PGPROC :=
  mkPGPROC (pgprocno p) (pid p) i (pr_xid p) (pr_xmin p) (lxid p) (backendId p) (databaseId p) (roleId p)
    (pr_statusFlags p) (delayChkptFlags p) (recoveryConflictPending p) (isBackgroundWorker p)
    (waitLock p) (subxidStatus p) (pr_subxids p).

Definition set_xid (x : TransactionId) (p : PGPROC) : PGPROC :=
  mkPGPROC (pgprocno p) (pid p) (pgxactoff p) x (pr_xmin p) (lxid p) (backendId p) (databaseId p) (roleId p)
    (pr_statusFlags p) (delayChkptFlags p) (recoveryConflictPending p) (isBackgroundWorker p)
    (waitLock p) (subxidStatus p) (pr_subxids p).

Definition set_xmin (x : TransactionId) (p : PGPROC) : PGPROC :=
  mkPGPROC (pgprocno p) (pid p) (pgxactoff p) (pr_xid p) x (lxid p) (backendId p) (databaseId p) (roleId p)
    (pr_statusFlags p) (delayChkptFlags p) (recoveryConflictPending p) (isBackgroundWorker p)
    (waitLock p) (subxidStatus p) (pr_subxids p).

Definition set_statusFlags (f : Z) (p : PGPROC) : PGPROC :=
  mkPGPROC (pgprocno p) (pid p) (pgxactoff p) (pr_xid p) (pr_xmin p) (lxid p) (backendId p) (databaseId p)
    (roleId p) f (delayChkptFlags p) (recoveryConflictPending p) (isBackgroundWorker p)
    (waitLock p) (subxidStatus p) (pr_subxids p).

Definition set_subxids (st : XidCacheStatus) (xids : list TransactionId) (p : PGPROC) : PGPROC :=
  mkPGPROC (pgprocno p) (pid p) (pgxactoff p) (pr_xid p) (pr_xmin p) (lxid p) (backendId p) (databaseId p)
    (roleId p) (pr_statusFlags p) (delayChkptFlags p) (recoveryConflictPending p) (isBackgroundWorker p)
    (waitLock p) st xids.

(** [xid], [lxid], [xmin] and [recoveryConflictPending] cleared;
    [delayChkptFlags] as given. *)
Definition clear_xact (delay : Z) (p : PGPROC) : PGPROC :=
  mkPGPROC (pgprocno p) (pid p) (pgxactoff p) InvalidTransactionId InvalidTransactionId
    InvalidLocalTransactionId (backendId p) (databaseId p) (roleId p) (pr_statusFlags p) delay false
    (isBackgroundWorker p) (waitLock p) (subxidStatus p) (pr_subxids p).

Definition no_proc : PGPROC :=
  mkPGPROC 0 0 0 InvalidTransactionId InvalidTransactionId 0 0 0 0 0 0 false false None no_subxids [].

(** [ProcArrayStruct], the mirror arrays of [ProcGlobal], and the fields of
    [ShmemVariableCache] that ProcArrayLock and XidGenLock protect. *)
Record ProcShared := mkProcShared {
  allProcs : list PGPROC;
  maxProcs : nat;
  pgprocnos : list nat;
  xids : list TransactionId;
  subxidStates : list XidCacheStatus;
  statusFlags : list Z;
  lastOverflowedXid : TransactionId;
  replication_slot_xmin : TransactionId;
  replication_slot_catalog_xmin : TransactionId;
  latestCompletedXid : FullTransactionId;
  xactCompletionCount : Z;
  sh_nextXid : FullTransactionId;
  sh_oldestXid : TransactionId;
  knownXids : KnownXids;
}.

Definition numProcs (sh : ProcShared) : nat := length (pgprocnos sh).

Definition proc (sh : ProcShared) (n : nat) : PGPROC := default no_proc (allProcs sh !! n).

Definition upd_proc (n : nat) (f : PGPROC -> PGPROC) (sh : ProcShared) : ProcShared :=
  mkProcShared (alter f n (allProcs sh)) (maxProcs sh) (pgprocnos sh) (xids sh) (subxidStates sh)
    (statusFlags sh) (lastOverflowedXid sh) (replication_slot_xmin sh) (replication_slot_catalog_xmin sh)
    (latestCompletedXid sh) (xactCompletionCount sh) (sh_nextXid sh) (sh_oldestXid sh) (knownXids sh).

Definition set_mirrors (nos : list nat) (xs : list TransactionId) (sts : list XidCacheStatus) (fls : list Z)
    (sh : ProcShared) : ProcShared :=
  mkProcShared (allProcs sh) (maxProcs sh) nos xs sts fls (lastOverflowedXid sh) (replication_slot_xmin sh)
    (replication_slot_catalog_xmin sh) (latestCompletedXid sh) (xactCompletionCount sh) (sh_nextXid sh)
    (sh_oldestXid sh) (knownXids sh).

Definition set_completed (latest : FullTransactionId) (cnt : Z) (sh : ProcShared) : ProcShared :=
  mkProcShared (allProcs sh) (maxProcs sh) (pgprocnos sh) (xids sh) (subxidStates sh) (statusFlags sh)
    (lastOverflowedXid sh) (replication_slot_xmin sh) (replication_slot_catalog_xmin sh) latest cnt
    (sh_nextXid sh) (sh_oldestXid sh) (knownXids sh).

Definition set_next (next : FullTransactionId) (sh : ProcShared) : ProcShared :=
  mkProcShared (allProcs sh) (maxProcs sh) (pgprocnos sh) (xids sh) (subxidStates sh) (statusFlags sh)
    (lastOverflowedXid sh) (replication_slot_xmin sh) (replication_slot_catalog_xmin sh)
    (latestCompletedXid sh) (xactCompletionCount sh) next (sh_oldestXid sh) (knownXids sh).

Definition set_standby (overflowed_xid : TransactionId) (k : KnownXids) (sh : ProcShared) : ProcShared :=
  mkProcShared (allProcs sh) (maxProcs sh) (pgprocnos sh) (xids sh) (subxidStates sh) (statusFlags sh)
    overflowed_xid (replication_slot_xmin sh) (replication_slot_catalog_xmin sh)
    (latestCompletedXid sh) (xactCompletionCount sh) (sh_nextXid sh) (sh_oldestXid sh) k.

Definition set_slots (xmin catalog_xmin : TransactionId) (sh : ProcShared) : ProcShared :=
  mkProcShared (allProcs sh) (maxProcs sh) (pgprocnos sh) (xids sh) (subxidStates sh) (statusFlags sh)
    (lastOverflowedXid sh) xmin catalog_xmin (latestCompletedXid sh) (xactCompletionCount sh)
    (sh_nextXid sh) (sh_oldestXid sh) (knownXids sh).

Definition put_xid (i : nat) (x : TransactionId) (sh : ProcShared) : ProcShared :=
  set_mirrors (pgprocnos sh) (<[i := x]> (xids sh)) (subxidStates sh) (statusFlags sh) sh.
Definition upd_subxidState (i : nat) (f : XidCacheStatus -> XidCacheStatus) (sh : ProcShared) : ProcShared :=
  set_mirrors (pgprocnos sh) (xids sh) (alter f i (subxidStates sh)) (statusFlags sh) sh.
Definition put_statusFlags (i : nat) (f : Z) (sh : ProcShared) : ProcShared :=
  set_mirrors (pgprocnos sh) (xids sh) (subxidStates sh) (<[i := f]> (statusFlags sh)) sh.

(** ** Full transaction ids from 32-bit ones *)

Definition FullXidRelativeTo (rel : FullTransactionId) (xid : TransactionId) : FullTransactionId :=
  u64 (rel + s32 (xid -u32 XidFromFullTransactionId rel)).

Definition MaintainLatestCompletedXid (latestXid : TransactionId) (sh : ProcShared) : ProcShared :=
  let cur_latest := latestCompletedXid sh in
  if TransactionIdPrecedes (XidFromFullTransactionId cur_latest) latestXid
  then set_completed (FullXidRelativeTo cur_latest latestXid) (xactCompletionCount sh) sh
  else sh.

Definition MaintainLatestCompletedXidRecovery (latestXid : TransactionId) (sh : ProcShared) : ProcShared :=
  let cur_latest := latestCompletedXid sh in
  if negb (FullTransactionIdIsValid cur_latest)
     || TransactionIdPrecedes (XidFromFullTransactionId cur_latest) latestXid
  then set_completed (FullXidRelativeTo (sh_nextXid sh) latestXid) (xactCompletionCount sh) sh
  else sh.

(** [ShmemVariableCache->xactCompletionCount++] *)
Definition count_completion (sh : ProcShared) : ProcShared :=
  set_completed (latestCompletedXid sh) (u64 (xactCompletionCount sh + 1)) sh.

(** ** Adding and removing processes *)

(** The search for the position of [no], and the [memmove]s. *)
Fixpoint insert_position (no : nat) (nos : list nat) : nat :=
  match nos with
  | [] => 0
  | n :: nos => if (no <? n)%nat then 0 else S (insert_position no nos)
  end.

Definition insert_at {A} (i : nat) (x : A) (l : list A) : list A := take i l ++ x :: drop i l.

(** [allProcs[procno].pgxactoff = index] for the entries from [index] on. *)
Fixpoint renumber (index : nat) (nos : list nat) (sh : ProcShared) : ProcShared :=
  match nos with
  | [] => sh
  | n :: nos => renumber (S index) nos (upd_proc n (set_pgxactoff index) sh)
  end.

Definition ProcArrayAdd (p : nat) (sh : ProcShared) : option ProcShared :=
  if (maxProcs sh <=? numProcs sh)%nat then None
  else
    let pr := proc sh p in
    let index := insert_position (pgprocno pr) (pgprocnos sh) in
    let sh := set_mirrors (insert_at index (pgprocno pr) (pgprocnos sh)) (insert_at index (pr_xid pr) (xids sh))
                (insert_at index (subxidStatus pr) (subxidStates sh))
                (insert_at index (pr_statusFlags pr) (statusFlags sh)) sh in
    let sh := upd_proc p (set_pgxactoff index) sh in
    Some (renumber (S index) (drop (S index) (pgprocnos sh)) sh).

Definition ProcArrayRemove (p : nat) (latestXid : TransactionId) (sh : ProcShared) : ProcShared :=
  let myoff := pgxactoff (proc sh p) in
  let sh :=
    if TransactionIdIsValid latestXid then
      upd_subxidState myoff (fun _ => no_subxids) (put_xid myoff InvalidTransactionId
        (count_completion (MaintainLatestCompletedXid latestXid sh)))
    else sh in
  let sh := put_statusFlags myoff 0 sh in
  let sh := set_mirrors (delete myoff (pgprocnos sh)) (delete myoff (xids sh)) (delete myoff (subxidStates sh))
              (delete myoff (statusFlags sh)) sh in
  renumber myoff (drop myoff (pgprocnos sh)) sh.

(** ** Assigning ids *)

(** The end of [GetNewTransactionId], with the advance of the counter.  In C
    the two are separate stores, both under [XidGenLock], which every reader of
    [nextXid] takes.  A scan between them sees the state before: the id is not
    in the array yet, and it is after [latestCompletedXid] and so not below the
    [xmax] of a snapshot taken then.  The single step therefore loses no
    observation. *)
Definition advertise_xid (p : nat) (isSubXact : bool) (sh : ProcShared) : ProcShared :=
  let full_xid := sh_nextXid sh in
  let xid := XidFromFullTransactionId full_xid in
  let sh := set_next (FullTransactionIdAdvance full_xid) sh in
  let pr := proc sh p in
  if negb isSubXact then put_xid (pgxactoff pr) xid (upd_proc p (set_xid xid) sh)
  else
    let nxids := count (subxidStatus pr) in
    if (nxids <? MAX_CACHED_SUBXIDS)%nat then
      let set_count st := mkXidCacheStatus (S nxids) (overflowed st) in
      let sh := upd_proc p (set_subxids (set_count (subxidStatus pr)) (<[nxids := xid]> (pr_subxids pr))) sh in
      upd_subxidState (pgxactoff pr) set_count sh
    else
      let set_overflowed st := mkXidCacheStatus (count st) true in
      let sh := upd_proc p (set_subxids (set_overflowed (subxidStatus pr)) (pr_subxids pr)) sh in
      upd_subxidState (pgxactoff pr) set_overflowed sh.

(** ** Ending transactions *)

(** [statusFlags &= ~PROC_VACUUM_STATE_MASK], in the process and its mirror. *)
Definition clear_vacuum_flags (p : nat) (sh : ProcShared) : ProcShared :=
  let pr := proc sh p in
  if has_flag (pr_statusFlags pr) PROC_VACUUM_STATE_MASK then
    let f := Z.land (pr_statusFlags pr) (Z.lnot PROC_VACUUM_STATE_MASK) in
    put_statusFlags (pgxactoff pr) f (upd_proc p (set_statusFlags f) sh)
  else sh.

Definition clear_subxids (p : nat) (sh : ProcShared) : ProcShared :=
  let pr := proc sh p in
  if (0 <? count (subxidStatus pr))%nat || overflowed (subxidStatus pr) then
    upd_subxidState (pgxactoff pr) (fun _ => no_subxids) (upd_proc p (set_subxids no_subxids (pr_subxids pr)) sh)
  else sh.

Definition ProcArrayEndTransactionInternal (p : nat) (latestXid : TransactionId) (sh : ProcShared) : ProcShared :=
  let sh := put_xid (pgxactoff (proc sh p)) InvalidTransactionId sh in
  let sh := upd_proc p (clear_xact 0) sh in
  let sh := clear_vacuum_flags p sh in
  let sh := clear_subxids p sh in
  count_completion (MaintainLatestCompletedXid latestXid sh).

(** The branch without an id.  In C the [xmin] is cleared without a lock, and
    then, if flags are set, these under [ProcArrayLock].  Here it is one step
    that needs no lock, so that it can fall into the middle of a scan.  The
    state between the two stores has no [xmin] and no id any more, and a scan
    passes over such an entry whatever its flags are. *)
Definition end_without_xid (p : nat) (sh : ProcShared) : ProcShared :=
  let clear pr := mkPGPROC (pgprocno pr) (pid pr) (pgxactoff pr) (pr_xid pr) InvalidTransactionId
    InvalidLocalTransactionId (backendId pr) (databaseId pr) (roleId pr) (pr_statusFlags pr) 0 false
    (isBackgroundWorker pr) (waitLock pr) (subxidStatus pr) (pr_subxids pr) in
  clear_vacuum_flags p (upd_proc p clear sh).

(** [group] clears the process through [ProcArrayGroupClearXid] when the lock
    is not free. *)
Definition ProcArrayEndTransaction (lock_free : bool) (group : nat -> TransactionId -> ProcShared -> ProcShared)
    (p : nat) (latestXid : TransactionId) (sh : ProcShared) : ProcShared :=
  if TransactionIdIsValid latestXid then
    if lock_free then ProcArrayEndTransactionInternal p latestXid sh else group p latestXid sh
  else end_without_xid p sh.

Definition ProcArrayClearTransaction (p : nat) (sh : ProcShared) : ProcShared :=
  let sh := put_xid (pgxactoff (proc sh p)) InvalidTransactionId sh in
  let sh := upd_proc p (fun pr => clear_xact (delayChkptFlags pr) pr) sh in
  clear_subxids p (count_completion sh).

(** ** Subtransaction abort *)

(** The backward scan for [x] among the first [n] entries. *)
Fixpoint find_back (x : TransactionId) (n : nat) (a : list TransactionId) : option nat :=
  match n with
  | O => None
  | S j => if TransactionIdEquals (default 0 (a !! j)) x then Some j else find_back x j a
  end.

Definition remove_cached (p : nat) (x : TransactionId) (sh : ProcShared) : ProcShared :=
  let pr := proc sh p in
  let n := count (subxidStatus pr) in
  match find_back x n (pr_subxids pr) with
  | None => sh
  | Some j =>
      let drop_one st := mkXidCacheStatus (count st - 1) (overflowed st) in
      let a := <[j := default 0 (pr_subxids pr !! (n - 1)%nat)]> (pr_subxids pr) in
      upd_subxidState (pgxactoff pr) drop_one (upd_proc p (set_subxids (drop_one (subxidStatus pr)) a) sh)
  end.

Definition XidCacheRemoveRunningXids (p : nat) (xid : TransactionId) (children : list TransactionId)
    (latestXid : TransactionId) (sh : ProcShared) : ProcShared :=
  let sh := foldr (remove_cached p) sh children in
  let sh := remove_cached p xid sh in
  count_completion (MaintainLatestCompletedXid latestXid sh).
