(* ===== verification/ProcInv.v ===== *)
(** * ProcInv: the process array and its mirrors agree

    The dense arrays that scans read repeat fields of the processes, at the
    offset each process stores.  [mirrored] states the agreement; every
    operation of ProcArray.v preserves it. *)

From stdpp Require Import sorting.
From S2P Require Import Prelude TransactionId KnownXids ProcArray.

Record proc_wf (n : nat) (pr : PGPROC) : Prop := {
  pw_no : pgprocno pr = n;
  pw_cache : length (pr_subxids pr) = MAX_CACHED_SUBXIDS;
  pw_count : (count (subxidStatus pr) <= MAX_CACHED_SUBXIDS)%nat;
}.

Record mirrored (sh : ProcShared) : Prop := {
  mi_sorted : StronglySorted lt (pgprocnos sh);
  mi_bound : Forall (fun n => n < length (allProcs sh))%nat (pgprocnos sh);
  mi_wf : forall n pr, allProcs sh !! n = Some pr -> proc_wf n pr;
  mi_off : forall i n, pgprocnos sh !! i = Some n -> pgxactoff (proc sh n) = i;
  mi_xids : xids sh = (fun n => pr_xid (proc sh n)) <$> pgprocnos sh;
  mi_subxids : subxidStates sh = (fun n => subxidStatus (proc sh n)) <$> pgprocnos sh;
  mi_flags : statusFlags sh = (fun n => pr_statusFlags (proc sh n)) <$> pgprocnos sh;
}.

(** ** Processes *)

Lemma sorted_lt_NoDup l : StronglySorted lt l -> NoDup l.
Proof.
  induction 1 as [|x l Hs IH Hx]; constructor; [|done].
  intros Hin. rewrite Forall_forall in Hx. specialize (Hx x Hin). lia.
Qed.

Lemma mi_NoDup sh : mirrored sh -> NoDup (pgprocnos sh).
Proof. intros. by apply sorted_lt_NoDup, mi_sorted. Qed.

Lemma proc_lookup sh n : (n < length (allProcs sh))%nat -> allProcs sh !! n = Some (proc sh n).
Proof. intros Hn. unfold proc. by destruct (lookup_lt_is_Some_2 _ _ Hn) as [pr ->]. Qed.

Lemma proc_alter_eq sh n f :
  (n < length (allProcs sh))%nat -> default no_proc (alter f n (allProcs sh) !! n) = f (proc sh n).
Proof. intros Hn. rewrite list_lookup_alter_eq, proc_lookup by done. done. Qed.

Lemma proc_alter_ne sh n m f :
  n <> m -> default no_proc (alter f n (allProcs sh) !! m) = proc sh m.
Proof. intros Hn. by rewrite list_lookup_alter_ne. Qed.

Lemma mi_lt sh p : mirrored sh -> p ∈ pgprocnos sh -> (p < length (allProcs sh))%nat.
Proof. intros Hm Hp. by eapply Forall_forall in Hp; [|apply mi_bound]. Qed.

Lemma mi_at sh p : mirrored sh -> p ∈ pgprocnos sh -> pgprocnos sh !! pgxactoff (proc sh p) = Some p.
Proof. intros Hm [i Hi]%list_elem_of_lookup_1. by rewrite (mi_off _ Hm i p Hi). Qed.

Lemma mi_proc_wf sh p : mirrored sh -> p ∈ pgprocnos sh -> proc_wf p (proc sh p).
Proof. intros Hm Hp. eapply mi_wf; [done|]. by apply proc_lookup, mi_lt. Qed.

(** The mirror of a field, when one process changes. *)
Lemma mirror_alter {B} (g : PGPROC -> B) sh p f :
  mirrored sh -> p ∈ pgprocnos sh ->
  (fun n => g (default no_proc (alter f p (allProcs sh) !! n))) <$> pgprocnos sh
  = <[pgxactoff (proc sh p) := g (f (proc sh p))]> ((fun n => g (proc sh n)) <$> pgprocnos sh).
Proof.
  intros Hm Hp. pose proof (mi_at sh p Hm Hp) as Hat. apply list_eq. intros i.
  rewrite list_lookup_fmap. destruct (decide (i = pgxactoff (proc sh p))) as [->|Hne].
  - rewrite list_lookup_insert_eq by (rewrite length_fmap; by eapply lookup_lt_Some).
    rewrite Hat. cbn. by rewrite proc_alter_eq by (by apply mi_lt).
  - rewrite list_lookup_insert_ne, list_lookup_fmap by done. destruct (pgprocnos sh !! i) as [n|] eqn:Hi; [|done].
    cbn. rewrite proc_alter_ne; [done|]. intros <-. apply Hne. by apply (mi_off _ Hm) in Hi.
Qed.

(** An operation that changes one process of the array and the three mirrored
    fields along with it. *)
Lemma mirrored_update sh sh' p f :
  mirrored sh -> p ∈ pgprocnos sh ->
  proc_wf p (f (proc sh p)) -> pgxactoff (f (proc sh p)) = pgxactoff (proc sh p) ->
  allProcs sh' = alter f p (allProcs sh) -> pgprocnos sh' = pgprocnos sh ->
  xids sh' = <[pgxactoff (proc sh p) := pr_xid (f (proc sh p))]> (xids sh) ->
  subxidStates sh' = <[pgxactoff (proc sh p) := subxidStatus (f (proc sh p))]> (subxidStates sh) ->
  statusFlags sh' = <[pgxactoff (proc sh p) := pr_statusFlags (f (proc sh p))]> (statusFlags sh) ->
  mirrored sh'.
Proof.
  intros Hm Hp Hwf Hoff Ha Hn Hx Hs Hf. pose proof (mi_lt sh p Hm Hp) as Hlt.
  constructor; rewrite ?Hn.
  - apply Hm.
  - rewrite Ha, length_alter. apply Hm.
  - intros n pr Hpr. rewrite Ha in Hpr. destruct (decide (n = p)) as [->|Hne].
    + rewrite list_lookup_alter_eq, proc_lookup in Hpr by done. cbn in Hpr. by simplify_eq.
    + rewrite list_lookup_alter_ne in Hpr by done. by apply Hm.
  - intros i n Hi. unfold proc. rewrite Ha. destruct (decide (n = p)) as [->|Hne].
    + rewrite proc_alter_eq, Hoff by done. by apply Hm.
    + rewrite proc_alter_ne by done. by apply Hm.
  - rewrite Hx, (mi_xids _ Hm), <- (mirror_alter pr_xid) by done. unfold proc. by rewrite Ha.
  - rewrite Hs, (mi_subxids _ Hm), <- (mirror_alter subxidStatus) by done. unfold proc. by rewrite Ha.
  - rewrite Hf, (mi_flags _ Hm), <- (mirror_alter pr_statusFlags) by done. unfold proc. by rewrite Ha.
Qed.

(** The mirror entries of a process. *)
Lemma mirror_at sh p :
  mirrored sh -> p ∈ pgprocnos sh ->
  xids sh !! pgxactoff (proc sh p) = Some (pr_xid (proc sh p)) /\
  subxidStates sh !! pgxactoff (proc sh p) = Some (subxidStatus (proc sh p)) /\
  statusFlags sh !! pgxactoff (proc sh p) = Some (pr_statusFlags (proc sh p)).
Proof.
  intros Hm Hp. pose proof (mi_at sh p Hm Hp) as Hat.
  rewrite (mi_xids _ Hm), (mi_subxids _ Hm), (mi_flags _ Hm), !list_lookup_fmap, Hat. done.
Qed.

Lemma alter_insert {A} (f : A -> A) i (l : list A) x : l !! i = Some x -> alter f i l = <[i := f x]> l.
Proof.
  intros Hx. apply list_eq. intros j. destruct (decide (j = i)) as [->|Hne].
  - rewrite list_lookup_alter_eq, list_lookup_insert_eq, Hx by (by eapply lookup_lt_Some). done.
  - by rewrite list_lookup_alter_ne, list_lookup_insert_ne.
Qed.

(** States with the same arrays. *)
Definition same_arrays (sh sh' : ProcShared) : Prop :=
  allProcs sh' = allProcs sh /\ pgprocnos sh' = pgprocnos sh /\ xids sh' = xids sh /\
  subxidStates sh' = subxidStates sh /\ statusFlags sh' = statusFlags sh /\ maxProcs sh' = maxProcs sh.

Lemma same_arrays_proc sh sh' n : same_arrays sh sh' -> proc sh' n = proc sh n.
Proof. intros (Ha & _). unfold proc. by rewrite Ha. Qed.

Lemma mirrored_same sh sh' : same_arrays sh sh' -> mirrored sh -> mirrored sh'.
Proof.
  intros Hs Hm. pose proof (fun n => same_arrays_proc sh sh' n Hs) as Hp.
  destruct Hs as (Ha & Hn & Hx & Hst & Hf & _), Hm as [].
  constructor; rewrite ?Ha, ?Hn, ?Hx, ?Hst, ?Hf; try done; [by intros; rewrite Hp; auto|..];
    etransitivity; try done; apply list_fmap_ext; intros; by rewrite Hp.
Qed.

Lemma MaintainLatestCompletedXid_same x sh : same_arrays sh (MaintainLatestCompletedXid x sh).
Proof. unfold MaintainLatestCompletedXid. by case_if. Qed.

Lemma count_completion_same sh : same_arrays sh (count_completion sh).
Proof. done. Qed.

(** ** Operations on one process *)

(** Closes the mirror equations of [mirrored_update]: a mirror that is not
    written already holds the value. *)
Ltac mirror_done Hm Hp :=
  let Hx := fresh in let Hs := fresh in let Hf := fresh in
  destruct (mirror_at _ _ Hm Hp) as (Hx & Hs & Hf);
  first [done | exact (eq_sym (list_insert_id _ _ _ Hx)) | exact (eq_sym (list_insert_id _ _ _ Hs))
        | exact (eq_sym (list_insert_id _ _ _ Hf)) | exact (alter_insert _ _ _ _ Hs)
        | constructor;
          cbn [pgprocno pr_subxids subxidStatus count set_subxids set_xid set_xmin set_statusFlags clear_xact no_subxids];
          rewrite ?length_insert; bool_simpl; first [done | lia]].

Section Preserved.
Context (sh : ProcShared) (p : nat) (Hm : mirrored sh) (Hp : p ∈ pgprocnos sh).

Lemma clear_xact_mirrored d :
  mirrored (upd_proc p (fun pr => clear_xact (d pr) pr) (put_xid (pgxactoff (proc sh p)) InvalidTransactionId sh)).
Proof.
  destruct (mi_proc_wf sh p Hm Hp). eapply (mirrored_update sh _ p (fun pr => clear_xact (d pr) pr)); try done; mirror_done Hm Hp.
Qed.

Lemma clear_vacuum_flags_mirrored : mirrored (clear_vacuum_flags p sh).
Proof.
  destruct (mi_proc_wf sh p Hm Hp). unfold clear_vacuum_flags. case_if; [|done].
  eapply (mirrored_update sh _ p (set_statusFlags _)); try done; mirror_done Hm Hp.
Qed.

Lemma clear_subxids_mirrored : mirrored (clear_subxids p sh).
Proof.
  destruct (mi_proc_wf sh p Hm Hp). unfold clear_subxids. case_if; [|done].
  eapply (mirrored_update sh _ p (set_subxids no_subxids (pr_subxids (proc sh p)))); try done; mirror_done Hm Hp.
Qed.

Lemma end_without_xid_clear :
  let clear pr := mkPGPROC (pgprocno pr) (pid pr) (pgxactoff pr) (pr_xid pr) InvalidTransactionId
    InvalidLocalTransactionId (backendId pr) (databaseId pr) (roleId pr) (pr_statusFlags pr) 0 false
    (isBackgroundWorker pr) (waitLock pr) (subxidStatus pr) (pr_subxids pr) in
  mirrored (upd_proc p clear sh).
Proof.
  intros clear. destruct (mi_proc_wf sh p Hm Hp).
  eapply (mirrored_update sh _ p clear); try done; mirror_done Hm Hp.
Qed.

Lemma set_xmin_mirrored x : mirrored (upd_proc p (set_xmin x) sh).
Proof.
  destruct (mi_proc_wf sh p Hm Hp).
  eapply (mirrored_update sh _ p (set_xmin x)); try done; mirror_done Hm Hp.
Qed.

Lemma set_flags_mirrored f :
  mirrored (put_statusFlags (pgxactoff (proc sh p)) f (upd_proc p (set_statusFlags f) sh)).
Proof.
  destruct (mi_proc_wf sh p Hm Hp).
  eapply (mirrored_update sh _ p (set_statusFlags f)); try done; mirror_done Hm Hp.
Qed.

Lemma find_back_lt x n a j : find_back x n a = Some j -> (j < n)%nat.
Proof. induction n as [|n IH]; [done|]. cbn. case_if; [intros [= ->]; lia|]. intros H%IH. lia. Qed.

Lemma remove_cached_mirrored x : mirrored (remove_cached p x sh).
Proof.
  destruct (mi_proc_wf sh p Hm Hp) as [Hno Hc Hle]. unfold remove_cached.
  destruct (find_back _ _ _) as [j|]; [|done].
  eapply (mirrored_update sh _ p (set_subxids _ _)); try done; mirror_done Hm Hp.
Qed.

Lemma advertise_xid_mirrored sub : mirrored (advertise_xid p sub sh).
Proof.
  destruct (mi_proc_wf sh p Hm Hp) as [Hno Hc Hle]. unfold advertise_xid. cbn [set_next proc allProcs].
  fold (proc sh p). destruct sub; cbn [negb].
  - case_if.
    + eapply (mirrored_update sh _ p (set_subxids _ _)); try done; mirror_done Hm Hp.
    + eapply (mirrored_update sh _ p (set_subxids _ _)); try done; mirror_done Hm Hp.
  - eapply (mirrored_update sh _ p (set_xid _)); try done; mirror_done Hm Hp.
Qed.

End Preserved.

(** ** Renumbering *)

Lemma renumber_fields idx nos sh :
  pgprocnos (renumber idx nos sh) = pgprocnos sh /\ xids (renumber idx nos sh) = xids sh /\
  subxidStates (renumber idx nos sh) = subxidStates sh /\ statusFlags (renumber idx nos sh) = statusFlags sh /\
  length (allProcs (renumber idx nos sh)) = length (allProcs sh) /\ maxProcs (renumber idx nos sh) = maxProcs sh /\
  latestCompletedXid (renumber idx nos sh) = latestCompletedXid sh /\
  xactCompletionCount (renumber idx nos sh) = xactCompletionCount sh /\ sh_nextXid (renumber idx nos sh) = sh_nextXid sh.
Proof.
  revert idx sh. induction nos as [|n nos IH]; intros idx sh; [done|]. cbn [renumber].
  destruct (IH (S idx) (upd_proc n (set_pgxactoff idx) sh)) as (-> & -> & -> & -> & -> & -> & -> & -> & ->).
  cbn. by rewrite length_alter.
Qed.

Lemma renumber_proc idx nos sh n :
  NoDup nos -> (forall m, m ∈ nos -> (m < length (allProcs sh))%nat) ->
  (n ∉ nos -> proc (renumber idx nos sh) n = proc sh n) /\
  (forall k, nos !! k = Some n -> proc (renumber idx nos sh) n = set_pgxactoff (idx + k) (proc sh n)).
Proof.
  intros Hnd. revert idx sh. induction Hnd as [|m nos Hm Hnd IH]; intros idx sh Hlt; [done|]. cbn [renumber].
  set (sh1 := upd_proc m (set_pgxactoff idx) sh).
  assert (Hlt1 : forall m', m' ∈ nos -> (m' < length (allProcs sh1))%nat).
  { intros. cbn. rewrite length_alter. apply Hlt. by right. }
  specialize (IH (S idx) sh1 Hlt1) as [IH1 IH2]. split.
  - intros [Hne Hn]%not_elem_of_cons. rewrite IH1 by done. by apply proc_alter_ne.
  - intros [|k] Hk; cbn in Hk.
    + simplify_eq. rewrite IH1 by done. rewrite Nat.add_0_r. apply proc_alter_eq, Hlt. left.
    + rewrite (IH2 k Hk). replace (S idx + k)%nat with (idx + S k)%nat by lia.
      f_equal. apply proc_alter_ne. intros ->. by apply Hm, list_elem_of_lookup_2 with k.
Qed.

(** A field that the offset does not belong to. *)
Lemma renumber_field {B} (g : PGPROC -> B) idx nos sh n :
  (forall i pr, g (set_pgxactoff i pr) = g pr) -> NoDup nos ->
  (forall m, m ∈ nos -> (m < length (allProcs sh))%nat) -> g (proc (renumber idx nos sh) n) = g (proc sh n).
Proof.
  intros Hg Hnd Hlt. destruct (renumber_proc idx nos sh n Hnd Hlt) as [Hout Hin].
  destruct (decide (n ∈ nos)) as [[k Hk]%list_elem_of_lookup_1|Hn]; [by rewrite (Hin k Hk), Hg|by rewrite Hout].
Qed.

(** Mirrors that agree up to the offsets from [k] on, which are then set. *)
Lemma mirrored_renumber k sh :
  StronglySorted lt (pgprocnos sh) -> Forall (fun n => n < length (allProcs sh))%nat (pgprocnos sh) ->
  (forall n pr, allProcs sh !! n = Some pr -> proc_wf n pr) ->
  (forall i n, (i < k)%nat -> pgprocnos sh !! i = Some n -> pgxactoff (proc sh n) = i) ->
  xids sh = (fun n => pr_xid (proc sh n)) <$> pgprocnos sh ->
  subxidStates sh = (fun n => subxidStatus (proc sh n)) <$> pgprocnos sh ->
  statusFlags sh = (fun n => pr_statusFlags (proc sh n)) <$> pgprocnos sh ->
  mirrored (renumber k (drop k (pgprocnos sh)) sh).
Proof.
  intros Hs Hb Hwf Hoff Hx Hst Hf. pose proof (sorted_lt_NoDup _ Hs) as Hnd.
  assert (Hnd' : NoDup (drop k (pgprocnos sh))) by (by eapply sublist_NoDup, sublist_drop).
  rewrite Forall_forall in Hb.
  assert (Hlt : forall m, m ∈ drop k (pgprocnos sh) -> (m < length (allProcs sh))%nat).
  { intros m Hin. apply Hb. by eapply elem_of_sublist, sublist_drop. }
  destruct (renumber_fields k (drop k (pgprocnos sh)) sh) as (En & Ex & Es & Ef & El & _).
  constructor; rewrite ?En, ?Ex, ?Es, ?Ef, ?El; [done|by apply Forall_forall|..].
  - intros n pr Hpr. assert (Hn : (n < length (allProcs sh))%nat) by (rewrite <- El; by eapply lookup_lt_Some).
    replace pr with (proc (renumber k (drop k (pgprocnos sh)) sh) n) by (unfold proc; by rewrite Hpr).
    destruct (Hwf n (proc sh n)) as [Hw1 Hw2 Hw3]; [by apply proc_lookup|].
    by constructor; rewrite renumber_field.
  - intros i n Hi. destruct (renumber_proc k (drop k (pgprocnos sh)) sh n Hnd' Hlt) as [Hout Hin].
    destruct (decide (i < k)%nat) as [Hik|Hik].
    + rewrite Hout; [by apply Hoff|]. intros (j & Hj)%list_elem_of_lookup_1. rewrite lookup_drop in Hj.
      pose proof (NoDup_lookup _ _ _ _ Hnd Hi Hj). lia.
    + rewrite (Hin (i - k)%nat); [cbn; lia|]. rewrite lookup_drop. by replace (k + (i - k))%nat with i by lia.
  - rewrite Hx. apply list_fmap_ext. intros. by rewrite renumber_field.
  - rewrite Hst. apply list_fmap_ext. intros. by rewrite renumber_field.
  - rewrite Hf. apply list_fmap_ext. intros. by rewrite renumber_field.
Qed.

(** ** Adding and removing *)

Lemma insert_position_spec no nos :
  StronglySorted lt nos -> no ∉ nos ->
  let i := insert_position no nos in
  (i <= length nos)%nat /\ Forall (fun n => n < no)%nat (take i nos) /\ Forall (fun n => no < n)%nat (drop i nos).
Proof.
  induction 1 as [|n nos Hs IH Hn]; intros Hno i; subst i; cbn [insert_position].
  { split_and!; [lia|constructor|constructor]. }
  apply not_elem_of_cons in Hno as [Hne Hno]. specialize (IH Hno) as (Hle & Ht & Hd).
  destruct (Nat.ltb_spec no n); cbn [take drop length].
  - split_and!; [lia|constructor|]. constructor; [done|]. eapply Forall_impl; [exact Hn|]. intros m Hm. lia.
  - split_and!; [lia|constructor; [lia|done]|done].
Qed.

Lemma insert_at_sorted no nos :
  StronglySorted lt nos -> no ∉ nos -> StronglySorted lt (insert_at (insert_position no nos) no nos).
Proof.
  intros Hs Hno. destruct (insert_position_spec no nos Hs Hno) as (_ & Ht & Hd). unfold insert_at.
  rewrite <- (take_drop (insert_position no nos) nos) in Hs.
  pose proof (StronglySorted_app_1_l _ _ _ Hs) as Hs1. pose proof (StronglySorted_app_1_r _ _ _ Hs) as Hs2.
  rewrite Forall_forall in Ht, Hd. apply StronglySorted_app_2; [|done|by constructor; [|apply Forall_forall]].
  intros x y Hx [->|Hy]%elem_of_cons; [by apply Ht|]. specialize (Ht x Hx). specialize (Hd y Hy). lia.
Qed.

Lemma insert_at_fmap {A B} (f : A -> B) i x l : insert_at i (f x) (f <$> l) = f <$> insert_at i x l.
Proof. unfold insert_at. by rewrite fmap_app, fmap_cons, fmap_take, fmap_drop. Qed.

Lemma elem_of_insert_at {A} i (x y : A) l : y ∈ insert_at i x l <-> y = x \/ y ∈ l.
Proof.
  unfold insert_at. rewrite elem_of_app, elem_of_cons. rewrite <- (take_drop i l) at 3. rewrite elem_of_app. tauto.
Qed.

Lemma ProcArrayAdd_mirrored sh p sh' :
  mirrored sh -> (p < length (allProcs sh))%nat -> p ∉ pgprocnos sh -> ProcArrayAdd p sh = Some sh' ->
  mirrored sh' /\ (forall n, n ∈ pgprocnos sh' <-> n = p \/ n ∈ pgprocnos sh).
Proof.
  intros Hm Hp Hno. unfold ProcArrayAdd. case_if; [done|]. intros [= <-].
  pose proof (mi_wf _ Hm p (proc sh p) (proc_lookup _ _ Hp)) as [Hpno Hc Hle]. rewrite Hpno.
  set (i := insert_position p (pgprocnos sh)). set (nos := insert_at i p (pgprocnos sh)).
  destruct (insert_position_spec p (pgprocnos sh) (mi_sorted _ Hm) Hno) as (Hil & _). fold i in Hil.
  set (sh1 := upd_proc p (set_pgxactoff i) (set_mirrors nos _ _ _ sh)).
  assert (Hproc : forall n, n <> p -> proc sh1 n = proc sh n) by (intros n Hn; exact (proc_alter_ne sh p n _ (not_eq_sym Hn))).
  assert (Hprocp : proc sh1 p = set_pgxactoff i (proc sh p)) by (exact (proc_alter_eq sh p _ Hp)).
  assert (Hfield : forall B (g : PGPROC -> B), (forall j pr, g (set_pgxactoff j pr) = g pr) ->
    insert_at i (g (proc sh p)) ((fun n => g (proc sh n)) <$> pgprocnos sh) = (fun n => g (proc sh1 n)) <$> nos).
  { intros B g Hg. rewrite (insert_at_fmap (fun n => g (proc sh n))). apply list_fmap_ext. intros j n _.
    destruct (decide (n = p)) as [->|Hn]; [by rewrite Hprocp, Hg|by rewrite Hproc]. }
  destruct (renumber_fields (S i) (drop (S i) nos) sh1) as (En & _).
  split; [|intros n; cbn [pgprocnos]; rewrite En; apply elem_of_insert_at].
  apply (mirrored_renumber (S i) sh1); change (pgprocnos sh1) with nos.
  - by apply insert_at_sorted, Hno; apply Hm.
  - unfold sh1. cbn. rewrite length_alter. apply Forall_forall.
    intros n [->|Hn]%elem_of_insert_at; [done|by apply mi_lt].
  - intros n pr Hpr. cbn in Hpr. destruct (decide (n = p)) as [->|Hn].
    + rewrite list_lookup_alter_eq, proc_lookup in Hpr by done. cbn in Hpr. simplify_eq. by constructor.
    + rewrite list_lookup_alter_ne in Hpr by done. by apply Hm.
  - intros j n Hj Hn. unfold nos, insert_at in Hn. destruct (decide (j = i)) as [->|Hne].
    + rewrite list_lookup_middle in Hn by (rewrite length_take; lia). simplify_eq. by rewrite Hprocp.
    + rewrite lookup_app_l, lookup_take_lt in Hn by (rewrite ?length_take; lia).
      rewrite Hproc; [by apply Hm|]. intros ->. by apply Hno, list_elem_of_lookup_2 with j.
  - unfold sh1 at 1. cbn [xids upd_proc set_mirrors]. rewrite (mi_xids _ Hm). by apply (Hfield _ pr_xid).
  - unfold sh1 at 1. cbn [subxidStates upd_proc set_mirrors]. rewrite (mi_subxids _ Hm). by apply (Hfield _ subxidStatus).
  - unfold sh1 at 1. cbn [statusFlags upd_proc set_mirrors]. rewrite (mi_flags _ Hm). by apply (Hfield _ pr_statusFlags).
Qed.

Lemma delete_alter {A} (f : A -> A) i (l : list A) : delete i (alter f i l) = delete i l.
Proof.
  apply list_eq. intros j. rewrite !list_lookup_delete. rewrite list_lookup_alter_ne; [done|]. case_decide; lia.
Qed.

Lemma delete_insert {A} i (x : A) (l : list A) : delete i (<[i := x]> l) = delete i l.
Proof.
  apply list_eq. intros j. rewrite !list_lookup_delete. rewrite list_lookup_insert_ne; [done|]. case_decide; lia.
Qed.

Lemma sorted_sublist l1 l2 : l1 `sublist_of` l2 -> StronglySorted lt l2 -> StronglySorted lt l1.
Proof.
  induction 1 as [|x l1 l2 Hs IH|x l1 l2 Hs IH]; [done|..]; intros [Hl Hx]%StronglySorted_inv; [|by apply IH].
  constructor; [by apply IH|]. rewrite Forall_forall in *. intros y Hy. by eapply Hx, elem_of_sublist.
Qed.

Lemma elem_of_delete_NoDup {A} (l : list A) i x y :
  NoDup l -> l !! i = Some x -> y ∈ delete i l <-> y ∈ l /\ y <> x.
Proof.
  intros Hnd Hi. rewrite delete_take_drop. rewrite <- (take_drop_middle l i x Hi) in Hnd |- *.
  apply NoDup_app in Hnd as (_ & Hn1 & [Hn2 _]%NoDup_cons).
  rewrite !elem_of_app, elem_of_cons, take_drop_middle by done. split; [|naive_solver].
  intros [Hy|Hy]; (split; [tauto|]); intros ->; [|done]. apply (Hn1 x); [done|left].
Qed.

(** The arrays after the part of [ProcArrayRemove] that precedes the
    renumbering. *)
Lemma ProcArrayRemove_arrays sh p x :
  exists sh1, ProcArrayRemove p x sh = renumber (pgxactoff (proc sh p)) (drop (pgxactoff (proc sh p)) (pgprocnos sh1)) sh1 /\
    allProcs sh1 = allProcs sh /\ pgprocnos sh1 = delete (pgxactoff (proc sh p)) (pgprocnos sh) /\
    xids sh1 = delete (pgxactoff (proc sh p)) (xids sh) /\
    subxidStates sh1 = delete (pgxactoff (proc sh p)) (subxidStates sh) /\
    statusFlags sh1 = delete (pgxactoff (proc sh p)) (statusFlags sh) /\
    sh_nextXid sh1 = sh_nextXid sh /\
    (latestCompletedXid sh1, xactCompletionCount sh1)
    = (let sh' := if TransactionIdIsValid x then count_completion (MaintainLatestCompletedXid x sh) else sh in
       (latestCompletedXid sh', xactCompletionCount sh')).
Proof.
  eexists. split; [reflexivity|]. cbn -[delete].
  destruct (MaintainLatestCompletedXid_same x sh) as (Ea & En & Ex & Es & Ef & Em).
  assert (sh_nextXid (MaintainLatestCompletedXid x sh) = sh_nextXid sh)
    by (unfold MaintainLatestCompletedXid; by case_if).
  case_if; cbn -[delete]; rewrite ?Ea, ?En, ?Ex, ?Es, ?Ef, ?delete_insert, ?delete_alter; done.
Qed.

Lemma ProcArrayRemove_mirrored sh p x :
  mirrored sh -> p ∈ pgprocnos sh ->
  mirrored (ProcArrayRemove p x sh) /\
  (forall n, n ∈ pgprocnos (ProcArrayRemove p x sh) <-> n ∈ pgprocnos sh /\ n <> p).
Proof.
  intros Hm Hp. destruct (ProcArrayRemove_arrays sh p x) as (sh1 & -> & Ea & En & Ex & Es & Ef & _).
  pose proof (mi_at sh p Hm Hp) as Hat. pose proof (mi_NoDup _ Hm) as Hnd.
  assert (Hproc : forall n, proc sh1 n = proc sh n) by (intros; unfold proc; by rewrite Ea).
  assert (Hsub : delete (pgxactoff (proc sh p)) (pgprocnos sh) `sublist_of` pgprocnos sh) by apply sublist_delete.
  destruct (renumber_fields (pgxactoff (proc sh p)) (drop (pgxactoff (proc sh p)) (pgprocnos sh1)) sh1) as (Er & _).
  split.
  - apply mirrored_renumber; rewrite ?Ea, ?En, ?Ex, ?Es, ?Ef.
    + eapply sorted_sublist; [done|apply Hm].
    + apply Forall_forall. intros n Hn. apply mi_lt; [done|]. by eapply elem_of_sublist.
    + apply Hm.
    + intros i n Hi Hn. rewrite list_lookup_delete_lt in Hn by done. rewrite Hproc. by apply Hm.
    + rewrite (mi_xids _ Hm), <- list_fmap_delete. apply list_fmap_ext. intros. by rewrite Hproc.
    + rewrite (mi_subxids _ Hm), <- list_fmap_delete. apply list_fmap_ext. intros. by rewrite Hproc.
    + rewrite (mi_flags _ Hm), <- list_fmap_delete. apply list_fmap_ext. intros. by rewrite Hproc.
  - intros n. rewrite Er, En. by apply elem_of_delete_NoDup.
Qed.

(** ** Operations that leave the other processes alone *)

Record acts_on (p : nat) (sh sh' : ProcShared) : Prop := {
  ao_mirrored : mirrored sh';
  ao_nos : pgprocnos sh' = pgprocnos sh;
  ao_others : forall n, n <> p -> proc sh' n = proc sh n;
  ao_next : sh_nextXid sh' = sh_nextXid sh;
}.

Lemma acts_on_trans p sh1 sh2 sh3 : acts_on p sh1 sh2 -> acts_on p sh2 sh3 -> acts_on p sh1 sh3.
Proof.
  intros [_ N1 O1 X1] [M2 N2 O2 X2]. constructor; [done|congruence| |congruence].
  intros n Hn. by rewrite O2, O1.
Qed.

Lemma acts_on_same p sh sh' :
  mirrored sh -> same_arrays sh sh' -> sh_nextXid sh' = sh_nextXid sh -> acts_on p sh sh'.
Proof.
  intros Hm Hs Hn. constructor; [by eapply mirrored_same|by destruct Hs as (_ & ? & _)| |done].
  intros n _. by apply same_arrays_proc.
Qed.

Lemma MaintainLatestCompletedXid_next x sh : sh_nextXid (MaintainLatestCompletedXid x sh) = sh_nextXid sh.
Proof. unfold MaintainLatestCompletedXid. by case_if. Qed.

(** The common tail: [latestCompletedXid] and the completion count. *)
Lemma completion_acts_on p x sh :
  mirrored sh -> acts_on p sh (count_completion (MaintainLatestCompletedXid x sh)).
Proof.
  intros Hm. apply acts_on_same; [done|apply (MaintainLatestCompletedXid_same x sh)|].
  apply MaintainLatestCompletedXid_next.
Qed.

Lemma completion_fields x sh :
  let cur := latestCompletedXid sh in
  latestCompletedXid (count_completion (MaintainLatestCompletedXid x sh))
  = (if TransactionIdPrecedes (XidFromFullTransactionId cur) x then FullXidRelativeTo cur x else cur) /\
  xactCompletionCount (count_completion (MaintainLatestCompletedXid x sh)) = u64 (xactCompletionCount sh + 1).
Proof. unfold MaintainLatestCompletedXid. by case_if. Qed.

Lemma clear_subxids_completed p sh :
  latestCompletedXid (clear_subxids p sh) = latestCompletedXid sh /\
  xactCompletionCount (clear_subxids p sh) = xactCompletionCount sh.
Proof. unfold clear_subxids. by case_if. Qed.

Lemma clear_vacuum_flags_completed p sh :
  latestCompletedXid (clear_vacuum_flags p sh) = latestCompletedXid sh /\
  xactCompletionCount (clear_vacuum_flags p sh) = xactCompletionCount sh.
Proof. unfold clear_vacuum_flags. by case_if. Qed.

Section ActsOn.
Context (sh : ProcShared) (p : nat) (Hm : mirrored sh) (Hp : p ∈ pgprocnos sh).

Lemma upd_proc_at f : proc (upd_proc p f sh) p = f (proc sh p).
Proof. by apply (proc_alter_eq sh p f), mi_lt. Qed.

Lemma clear_vacuum_flags_acts_on :
  acts_on p sh (clear_vacuum_flags p sh) /\
  pr_xid (proc (clear_vacuum_flags p sh) p) = pr_xid (proc sh p) /\
  subxidStatus (proc (clear_vacuum_flags p sh) p) = subxidStatus (proc sh p) /\
  pr_subxids (proc (clear_vacuum_flags p sh) p) = pr_subxids (proc sh p).
Proof.
  pose proof (clear_vacuum_flags_mirrored sh p Hm Hp) as Hm'. unfold clear_vacuum_flags in *.
  case_if; [|by split_and!; [constructor|..]].
  set (f := set_statusFlags _) in *. pose proof (upd_proc_at f) as Hat. split_and!.
  - constructor; [done|done| |done]. intros n Hn. exact (proc_alter_ne sh p n _ (not_eq_sym Hn)).
  - by change (pr_xid (proc (upd_proc p f sh) p) = pr_xid (proc sh p)); rewrite Hat.
  - by change (subxidStatus (proc (upd_proc p f sh) p) = subxidStatus (proc sh p)); rewrite Hat.
  - by change (pr_subxids (proc (upd_proc p f sh) p) = pr_subxids (proc sh p)); rewrite Hat.
Qed.

Lemma clear_subxids_acts_on :
  acts_on p sh (clear_subxids p sh) /\
  pr_xid (proc (clear_subxids p sh) p) = pr_xid (proc sh p) /\
  subxidStatus (proc (clear_subxids p sh) p) = no_subxids.
Proof.
  pose proof (clear_subxids_mirrored sh p Hm Hp) as Hm'. unfold clear_subxids in *. case_if.
  - set (f := set_subxids _ _) in *. pose proof (upd_proc_at f) as Hat. split_and!.
    + constructor; [done|done| |done]. intros n Hn. exact (proc_alter_ne sh p n _ (not_eq_sym Hn)).
    + by change (pr_xid (proc (upd_proc p f sh) p) = pr_xid (proc sh p)); rewrite Hat.
    + by change (subxidStatus (proc (upd_proc p f sh) p) = no_subxids); rewrite Hat.
  - split_and!; [by constructor|done|]. bool_simpl. destruct (subxidStatus (proc sh p)) as [c ov]. cbn in *.
    unfold no_subxids. f_equal; [lia|done].
Qed.

Lemma clear_xact_acts_on d :
  let sh' := upd_proc p (fun pr => clear_xact (d pr) pr) (put_xid (pgxactoff (proc sh p)) InvalidTransactionId sh) in
  acts_on p sh sh' /\ proc sh' p = clear_xact (d (proc sh p)) (proc sh p).
Proof.
  intros sh'. split; [|exact (upd_proc_at (fun pr => clear_xact (d pr) pr))].
  constructor; [by apply clear_xact_mirrored|done| |done].
  intros n Hn. exact (proc_alter_ne sh p n _ (not_eq_sym Hn)).
Qed.

End ActsOn.

Lemma ProcArrayEndTransactionInternal_effect sh p x :
  mirrored sh -> p ∈ pgprocnos sh ->
  let sh' := ProcArrayEndTransactionInternal p x sh in
  acts_on p sh sh' /\ pr_xid (proc sh' p) = InvalidTransactionId /\ subxidStatus (proc sh' p) = no_subxids /\
  latestCompletedXid sh' = latestCompletedXid (MaintainLatestCompletedXid x sh) /\
  xactCompletionCount sh' = u64 (xactCompletionCount sh + 1).
Proof.
  intros Hm Hp sh'. destruct (clear_xact_acts_on sh p Hm Hp (fun _ => 0)) as [H1 E1].
  set (sh1 := upd_proc _ _ _) in *. assert (Hp1 : p ∈ pgprocnos sh1) by (by rewrite (ao_nos _ _ _ H1)).
  destruct (clear_vacuum_flags_acts_on sh1 p (ao_mirrored _ _ _ H1) Hp1) as (H2 & X2 & S2 & _).
  set (sh2 := clear_vacuum_flags p sh1) in *. assert (Hp2 : p ∈ pgprocnos sh2) by (by rewrite (ao_nos _ _ _ H2)).
  destruct (clear_subxids_acts_on sh2 p (ao_mirrored _ _ _ H2) Hp2) as (H3 & X3 & S3).
  set (sh3 := clear_subxids p sh2) in *. pose proof (completion_acts_on p x sh3 (ao_mirrored _ _ _ H3)) as H4.
  change sh' with (count_completion (MaintainLatestCompletedXid x sh3)).
  assert (E4 : forall n, proc (count_completion (MaintainLatestCompletedXid x sh3)) n = proc sh3 n).
  { intros n. apply same_arrays_proc, (MaintainLatestCompletedXid_same x sh3). }
  assert (Hl : latestCompletedXid sh3 = latestCompletedXid sh /\ xactCompletionCount sh3 = xactCompletionCount sh).
  { unfold sh3. destruct (clear_subxids_completed p sh2) as [-> ->].
    unfold sh2. by destruct (clear_vacuum_flags_completed p sh1) as [-> ->]. }
  split_and!.
  - by eapply acts_on_trans, acts_on_trans, acts_on_trans.
  - rewrite E4, X3, X2, E1. done.
  - by rewrite E4.
  - destruct (completion_fields x sh3) as [-> _], Hl as [-> _]. unfold MaintainLatestCompletedXid. by case_if.
  - destruct (completion_fields x sh3) as [_ ->], Hl as [_ ->]. done.
Qed.

Lemma ProcArrayClearTransaction_effect sh p :
  mirrored sh -> p ∈ pgprocnos sh ->
  let sh' := ProcArrayClearTransaction p sh in
  acts_on p sh sh' /\ pr_xid (proc sh' p) = InvalidTransactionId /\ subxidStatus (proc sh' p) = no_subxids /\
  latestCompletedXid sh' = latestCompletedXid sh /\ xactCompletionCount sh' = u64 (xactCompletionCount sh + 1).
Proof.
  intros Hm Hp sh'. destruct (clear_xact_acts_on sh p Hm Hp delayChkptFlags) as [H1 E1].
  set (sh1 := upd_proc _ _ _) in *.
  assert (H2 : acts_on p sh1 (count_completion sh1)) by (by apply acts_on_same; [apply H1|..]).
  assert (Hp2 : p ∈ pgprocnos (count_completion sh1)) by (by cbn).
  destruct (clear_subxids_acts_on (count_completion sh1) p (ao_mirrored _ _ _ H2) Hp2) as (H3 & X3 & S3).
  change sh' with (clear_subxids p (count_completion sh1)). split_and!.
  - by eapply acts_on_trans, acts_on_trans.
  - rewrite X3. change (pr_xid (proc sh1 p) = InvalidTransactionId). by rewrite E1.
  - done.
  - apply (clear_subxids_completed p (count_completion sh1)).
  - apply (clear_subxids_completed p (count_completion sh1)).
Qed.

Lemma end_without_xid_effect sh p :
  mirrored sh -> p ∈ pgprocnos sh ->
  let sh' := end_without_xid p sh in
  acts_on p sh sh' /\ pr_xid (proc sh' p) = pr_xid (proc sh p) /\
  subxidStatus (proc sh' p) = subxidStatus (proc sh p) /\ pr_subxids (proc sh' p) = pr_subxids (proc sh p) /\
  latestCompletedXid sh' = latestCompletedXid sh /\ xactCompletionCount sh' = xactCompletionCount sh.
Proof.
  intros Hm Hp sh'. pose proof (end_without_xid_clear sh p Hm Hp) as Hm1. cbn zeta in Hm1.
  unfold sh', end_without_xid. set (f := fun pr => mkPGPROC _ _ _ _ _ _ _ _ _ _ _ _ _ _ _ _) in *.
  assert (H1 : acts_on p sh (upd_proc p f sh)).
  { constructor; [done|done| |done]. intros n Hn. exact (proc_alter_ne sh p n _ (not_eq_sym Hn)). }
  destruct (clear_vacuum_flags_acts_on (upd_proc p f sh) p Hm1 Hp) as (H2 & X2 & S2 & C2).
  rewrite (upd_proc_at sh p Hm Hp f) in X2, S2, C2.
  split_and!; [by eapply acts_on_trans|done|done|done|..]; by apply (clear_vacuum_flags_completed p (upd_proc p f sh)).
Qed.

(** ** The subtransaction cache *)

(** The entries in use. *)
Definition cached (pr : PGPROC) : list TransactionId := take (count (subxidStatus pr)) (pr_subxids pr).

Lemma find_back_spec x n a :
  (n <= length a)%nat ->
  match find_back x n a with
  | Some j => (j < n)%nat /\ a !! j = Some x
  | None => x ∉ take n a
  end.
Proof.
  induction n as [|n IH]; intros Hn; cbn [find_back]; [apply not_elem_of_nil|].
  destruct (lookup_lt_is_Some_2 a n) as [y Hy]; [lia|]. rewrite Hy.
  unfold TransactionIdEquals. cbn [default from_option id]. destruct (Z.eqb_spec y x) as [->|Hne]; [split; [lia|done]|].
  specialize (IH ltac:(lia)). destruct (find_back x n a); [split; [lia|apply IH]|].
  rewrite (take_S_r a n y) by done. rewrite elem_of_app, list_elem_of_singleton. naive_solver.
Qed.

(** Overwriting an entry by the last one and dropping the last one. *)
Lemma swap_remove_perm (a : list TransactionId) n j x :
  (n <= length a)%nat -> (j < n)%nat -> a !! j = Some x ->
  take n a ≡ₚ x :: take (n - 1) (<[j := default 0 (a !! (n - 1)%nat)]> a).
Proof.
  intros Hn Hj Hx. destruct (lookup_lt_is_Some_2 a (n - 1)) as [z Hz]; [lia|]. rewrite Hz. cbn [default from_option id].
  assert (Htake : take n a = take (n - 1) a ++ [z]).
  { rewrite <- (take_S_r a (n - 1) z) by done. f_equal. lia. }
  rewrite Htake. destruct (decide (j = n - 1)%nat) as [->|Hne].
  - rewrite take_insert_ge by lia. assert (z = x) as -> by congruence. by rewrite <- Permutation_cons_append.
  - rewrite take_insert_lt by lia.
    assert (Hx1 : take (n - 1) a !! j = Some x) by (by rewrite lookup_take_lt by lia).
    rewrite insert_take_drop by (by eapply lookup_lt_Some). rewrite <- (take_drop_middle _ _ _ Hx1) at 1.
    rewrite <- app_assoc. cbn [app]. rewrite <- Permutation_middle. constructor.
    apply Permutation_app_head. symmetry. apply Permutation_cons_append.
Qed.

Lemma perm_remove (x : TransactionId) l c :
  l ≡ₚ x :: c -> NoDup l -> NoDup c /\ forall y, y ∈ c <-> y ∈ l /\ y <> x.
Proof.
  intros Hp. rewrite Hp. intros [Hx Hnd]%NoDup_cons. split; [done|]. intros y. rewrite Hp, elem_of_cons.
  split; [intros Hy; split; [by right|by intros ->]|naive_solver].
Qed.

(** Removing ids from the cache of a process. *)
Record uncached (p : nat) (xs : list TransactionId) (sh sh' : ProcShared) : Prop := {
  un_acts : acts_on p sh sh';
  un_xid : pr_xid (proc sh' p) = pr_xid (proc sh p);
  un_overflowed : overflowed (subxidStatus (proc sh' p)) = overflowed (subxidStatus (proc sh p));
  un_nodup : NoDup (cached (proc sh' p));
  un_cached : forall y, y ∈ cached (proc sh' p) <-> y ∈ cached (proc sh p) /\ y ∉ xs;
  un_completed : latestCompletedXid sh' = latestCompletedXid sh /\ xactCompletionCount sh' = xactCompletionCount sh;
}.

Lemma remove_cached_effect sh p x :
  mirrored sh -> p ∈ pgprocnos sh -> NoDup (cached (proc sh p)) -> uncached p [x] sh (remove_cached p x sh).
Proof.
  intros Hm Hp Hnd. pose proof (remove_cached_mirrored sh p Hm Hp x) as Hm'.
  destruct (mi_proc_wf sh p Hm Hp) as [_ Hlen Hcnt]. rewrite <- Hlen in Hcnt. unfold remove_cached in *.
  pose proof (find_back_spec x _ _ Hcnt) as Hf. destruct (find_back _ _ _) as [j|].
  - destruct Hf as [Hj Hx]. pose proof (swap_remove_perm _ _ _ _ Hcnt Hj Hx) as Hperm.
    destruct (perm_remove _ _ _ Hperm Hnd) as [Hnd' Hel]. set (f := set_subxids _ _) in *.
    pose proof (upd_proc_at sh p Hm Hp f) as Hat.
    change (proc (upd_proc p f sh) p) with (proc (upd_subxidState (pgxactoff (proc sh p))
      (fun st => mkXidCacheStatus (count st - 1) (overflowed st)) (upd_proc p f sh)) p) in Hat.
    constructor; try rewrite Hat; try done.
    + constructor; [done|done| |done]. intros n Hn. exact (proc_alter_ne sh p n _ (not_eq_sym Hn)).
    + intros y. etransitivity; [apply Hel|]. rewrite list_elem_of_singleton. done.
  - constructor; try done. intros y. rewrite list_elem_of_singleton. split; [|naive_solver].
    intros Hy. split; [done|]. by intros ->.
Qed.

Lemma uncached_trans p xs ys sh1 sh2 sh3 :
  uncached p xs sh1 sh2 -> uncached p ys sh2 sh3 -> uncached p (xs ++ ys) sh1 sh3.
Proof.
  intros [A1 X1 O1 N1 C1 L1] [A2 X2 O2 N2 C2 L2]. constructor; try congruence; try done.
  - by eapply acts_on_trans.
  - intros y. rewrite C2, C1, not_elem_of_app. tauto.
  - destruct L1, L2. split; congruence.
Qed.

Lemma uncached_mirrored p xs sh sh' : uncached p xs sh sh' -> mirrored sh'.
Proof. intros [[]]. done. Qed.

Lemma uncached_present p xs sh sh' : uncached p xs sh sh' -> p ∈ pgprocnos sh -> p ∈ pgprocnos sh'.
Proof. intros [[_ -> _ _]]. done. Qed.

Lemma XidCacheRemoveRunningXids_effect sh p xid children latestXid :
  mirrored sh -> p ∈ pgprocnos sh -> NoDup (cached (proc sh p)) ->
  exists sh1, uncached p (xid :: children) sh sh1 /\
    XidCacheRemoveRunningXids p xid children latestXid sh
    = count_completion (MaintainLatestCompletedXid latestXid sh1).
Proof.
  intros Hm Hp Hnd. eexists. split; [|reflexivity].
  assert (Hall : uncached p children sh (foldr (remove_cached p) sh children)).
  { induction children as [|x children IH]; cbn.
    - constructor; try done. intros y. split; [|tauto]. intros. split; [done|apply not_elem_of_nil].
    - pose proof (remove_cached_effect (foldr (remove_cached p) sh children) p x (uncached_mirrored _ _ _ _ IH)
        (uncached_present _ _ _ _ IH Hp) (un_nodup _ _ _ _ IH)) as Hx.
      pose proof (uncached_trans _ _ _ _ _ _ IH Hx) as [A X O N C L]. constructor; try done.
      intros y. rewrite C. set_solver. }
  set (sh1 := foldr _ _ _) in *.
  pose proof (remove_cached_effect sh1 p xid (uncached_mirrored _ _ _ _ Hall)
    (uncached_present _ _ _ _ Hall Hp) (un_nodup _ _ _ _ Hall)) as Hx.
  pose proof (uncached_trans _ _ _ _ _ _ Hall Hx) as [A X O N C L]. constructor; try done.
  intros y. rewrite C. set_solver.
Qed.

(** ** Assigning an id *)

Lemma advertise_xid_common sh p sub :
  mirrored sh -> p ∈ pgprocnos sh ->
  let sh' := advertise_xid p sub sh in
  mirrored sh' /\ pgprocnos sh' = pgprocnos sh /\ (forall n, n <> p -> proc sh' n = proc sh n) /\
  sh_nextXid sh' = FullTransactionIdAdvance (sh_nextXid sh) /\
  latestCompletedXid sh' = latestCompletedXid sh /\ xactCompletionCount sh' = xactCompletionCount sh /\
  statusFlags sh' = statusFlags sh.
Proof.
  intros Hm Hp sh'. split; [by apply advertise_xid_mirrored|]. unfold sh', advertise_xid.
  destruct sub; cbn [negb]; [case_if|]; (split_and!; try done);
    intros n Hn; exact (proc_alter_ne sh p n _ (not_eq_sym Hn)).
Qed.

Lemma advertise_top sh p :
  mirrored sh -> p ∈ pgprocnos sh ->
  proc (advertise_xid p false sh) p = set_xid (XidFromFullTransactionId (sh_nextXid sh)) (proc sh p).
Proof. intros Hm Hp. exact (upd_proc_at sh p Hm Hp (set_xid _)). Qed.

Lemma advertise_sub_proc sh p :
  mirrored sh -> p ∈ pgprocnos sh ->
  let pr := proc sh p in
  let n := count (subxidStatus pr) in
  proc (advertise_xid p true sh) p
  = if (n <? MAX_CACHED_SUBXIDS)%nat
    then set_subxids (mkXidCacheStatus (S n) (overflowed (subxidStatus pr)))
           (<[n := XidFromFullTransactionId (sh_nextXid sh)]> (pr_subxids pr)) pr
    else set_subxids (mkXidCacheStatus n true) (pr_subxids pr) pr.
Proof.
  intros Hm Hp pr n. unfold advertise_xid. cbn [negb].
  change (proc (set_next _ sh) p) with pr. fold n. case_if; exact (upd_proc_at sh p Hm Hp (set_subxids _ _)).
Qed.

Lemma advertise_sub sh p :
  mirrored sh -> p ∈ pgprocnos sh ->
  let x := XidFromFullTransactionId (sh_nextXid sh) in
  let pr := proc sh p in
  let pr' := proc (advertise_xid p true sh) p in
  pr_xid pr' = pr_xid pr /\
  (cached pr' = cached pr ++ [x] /\ overflowed (subxidStatus pr') = overflowed (subxidStatus pr) \/
   cached pr' = cached pr /\ overflowed (subxidStatus pr') = true) /\
  (count (subxidStatus pr) <= count (subxidStatus pr'))%nat /\
  take (count (subxidStatus pr)) (pr_subxids pr') = cached pr /\ pr_xmin pr' = pr_xmin pr.
Proof.
  intros Hm Hp x pr pr'. destruct (mi_proc_wf sh p Hm Hp) as [_ Hlen Hcnt]. fold pr in Hlen, Hcnt.
  unfold pr'. rewrite advertise_sub_proc by done. fold pr. case_if; bool_simpl; unfold cached; cbn [set_subxids
    pr_xid pr_xmin subxidStatus pr_subxids count overflowed]; (split; [done|]); [|split_and!; try lia; by auto].
  split_and!; [left|lia|by rewrite take_insert_ge|done]. split; [|done].
  rewrite (take_S_r _ _ x) by (apply list_lookup_insert_eq; lia). by rewrite take_insert_ge.
Qed.

Lemma advertise_sub_flags sh p :
  mirrored sh -> p ∈ pgprocnos sh ->
  pr_statusFlags (proc (advertise_xid p true sh) p) = pr_statusFlags (proc sh p) /\
  databaseId (proc (advertise_xid p true sh) p) = databaseId (proc sh p).
Proof. intros Hm Hp. rewrite advertise_sub_proc by done. by case_if. Qed.

Lemma end_without_xid_flags sh p :
  mirrored sh -> p ∈ pgprocnos sh -> has_flag (pr_statusFlags (proc sh p)) PROC_VACUUM_STATE_MASK = false ->
  pr_statusFlags (proc (end_without_xid p sh) p) = pr_statusFlags (proc sh p) /\
  databaseId (proc (end_without_xid p sh) p) = databaseId (proc sh p).
Proof.
  intros Hm Hp Hf. unfold end_without_xid, clear_vacuum_flags. rewrite (upd_proc_at sh p Hm Hp).
  cbn [pr_statusFlags]. rewrite Hf. by rewrite (upd_proc_at sh p Hm Hp).
Qed.
