(* ===== verification/ProcRun.v ===== *)
(** * ProcRun: the running transactions of a system of backends

    A step relation for the backends that share the process array: each act is
    one of the operations of ProcArray.v, performed under its locks.  Beside
    the shared memory, a system state carries what the memory only represents
    partly: the running subtransactions of each process, of which the memory
    caches at most 64, and the transactions whose commit is in the commit log.
    The invariant [sys_ok] relates the two, and every act preserves it. *)

From stdpp Require Import sorting.
From S2P Require Import Prelude TransactionId KnownXids ProcArray ProcInv.

Record Sys := mkSys {
  mem : ProcShared;
  subs : nat -> list TransactionId;
  committed : list TransactionId;
}.

Definition put_subs (p : nat) (l : list TransactionId) (f : nat -> list TransactionId) : nat -> list TransactionId :=
  fun n => if decide (n = p) then l else f n.

Definition next_xid (sh : ProcShared) : TransactionId := XidFromFullTransactionId (sh_nextXid sh).
Definition latest_xid (sh : ProcShared) : TransactionId := XidFromFullTransactionId (latestCompletedXid sh).

(** ** Acts *)

(** [AAdd p tree] adds a process whose running subtransactions are [tree]
    (none for a new backend, those of the preparing backend for a prepared
    transaction); [APrepared] is the clearing of the preparing backend. *)
Inductive Act :=
| AAdd (p : nat) (tree : list TransactionId)
| ARemove (p : nat) (latestXid : TransactionId)
| AAssign (p : nat)
| AAssignSub (p : nat)
| ACommitLog (p : nat)
| AEnd (p : nat) (latestXid : TransactionId)
| AEndNoXid (p : nat)
| APrepared (p : nat)
| AAbortSub (p : nat) (xid : TransactionId) (children : list TransactionId) (latestXid : TransactionId)
| ASetXmin (p : nat) (xmin : TransactionId)
| ASetFlags (p : nat) (f : Z).

Definition act (a : Act) (s : Sys) : option Sys :=
  let sh := mem s in
  match a with
  | AAdd p tree => (fun sh => mkSys sh (put_subs p tree (subs s)) (committed s)) <$> ProcArrayAdd p sh
  | ARemove p latestXid => Some (mkSys (ProcArrayRemove p latestXid sh) (subs s) (committed s))
  | AAssign p => Some (mkSys (advertise_xid p false sh) (put_subs p [] (subs s)) (committed s))
  | AAssignSub p =>
      Some (mkSys (advertise_xid p true sh) (put_subs p (subs s p ++ [next_xid sh]) (subs s)) (committed s))
  | ACommitLog p => Some (mkSys sh (subs s) (pr_xid (proc sh p) :: subs s p ++ committed s))
  | AEnd p latestXid =>
      Some (mkSys (ProcArrayEndTransactionInternal p latestXid sh) (put_subs p [] (subs s)) (committed s))
  | AEndNoXid p => Some (mkSys (end_without_xid p sh) (subs s) (committed s))
  | APrepared p => Some (mkSys (ProcArrayClearTransaction p sh) (put_subs p [] (subs s)) (committed s))
  | AAbortSub p xid children latestXid =>
      Some (mkSys (XidCacheRemoveRunningXids p xid children latestXid sh)
              (put_subs p (filter (fun x => x ∉ xid :: children) (subs s p)) (subs s)) (committed s))
  | ASetXmin p xmin => Some (mkSys (upd_proc p (set_xmin xmin) sh) (subs s) (committed s))
  | ASetFlags p f =>
      Some (mkSys (put_statusFlags (pgxactoff (proc sh p)) f (upd_proc p (set_statusFlags f) sh))
              (subs s) (committed s))
  end.

Definition act_proc (a : Act) : nat :=
  match a with
  | AAdd p _ | ARemove p _ | AAssign p | AAssignSub p | ACommitLog p | AEnd p _ | AEndNoXid p | APrepared p
  | AAbortSub p _ _ _ | ASetXmin p _ | ASetFlags p _ => p
  end.

(** ** Running transactions *)

(** Scans for snapshots skip lazy vacuum and logical decoding. *)
Definition skipped (pr : PGPROC) : bool :=
  has_flag (pr_statusFlags pr) (Z.lor PROC_IN_LOGICAL_DECODING PROC_IN_VACUUM).

Definition runs (s : Sys) (p : nat) (x : TransactionId) : Prop :=
  p ∈ pgprocnos (mem s) /\ TransactionIdIsValid x = true /\ (x = pr_xid (proc (mem s) p) \/ x ∈ subs s p).

Definition running (s : Sys) (x : TransactionId) : Prop := exists p, runs s p x.

(** Assigned in the current half turn: before the counter, from [o] on. *)
Definition assigned (o next x : TransactionId) : Prop := normal_xid x /\ xid_age o x < xid_age o next.

Lemma XidFromFull_relative rel x : is_u32 x -> XidFromFullTransactionId (FullXidRelativeTo rel x) = x.
Proof. unfold XidFromFullTransactionId, FullXidRelativeTo, XidFromFullTransactionId. cint. Qed.

Lemma assigned_window o next x : in_window o next -> assigned o next x -> in_window o x.
Proof. intros [_ Hn] [Hx Ha]. split; [done|lia]. Qed.

Lemma assigned_le o next next' x : xid_age o next <= xid_age o next' -> assigned o next x -> assigned o next' x.
Proof. intros Hn [Hx Ha]. split; [done|lia]. Qed.

(** The completion of [x]: [latestCompletedXid] moves forward, to [x] at least. *)
Lemma maintain_latest o sh x :
  in_window o (next_xid sh) -> assigned o (next_xid sh) (latest_xid sh) -> assigned o (next_xid sh) x ->
  let cur := latestCompletedXid sh in
  let new := XidFromFullTransactionId
    (if TransactionIdPrecedes (XidFromFullTransactionId cur) x then FullXidRelativeTo cur x else cur) in
  assigned o (next_xid sh) new /\ xid_age o (latest_xid sh) <= xid_age o new /\ xid_age o x <= xid_age o new.
Proof.
  intros Hn Hl Hx cur new. unfold new. clear new. change (XidFromFullTransactionId cur) with (latest_xid sh).
  rewrite (precedes_window o) by (by eapply assigned_window). case_if; bool_simpl.
  - rewrite XidFromFull_relative by (destruct Hx as [[] _]; split; xid_unfold; lia). split; [done|lia].
  - change (XidFromFullTransactionId cur) with (latest_xid sh). split; [done|lia].
Qed.

Lemma advance_next o f :
  is_u64 f -> f + 4 < 2 ^ 64 -> in_window o (XidFromFullTransactionId f) ->
  xid_age o (XidFromFullTransactionId f) + 4 < 2 ^ 31 ->
  let next := XidFromFullTransactionId f in
  let next' := XidFromFullTransactionId (FullTransactionIdAdvance f) in
  is_u64 (FullTransactionIdAdvance f) /\ in_window o next' /\ xid_age o next < xid_age o next' /\
  forall x, assigned o next' x -> xid_age o next <= xid_age o x -> x = next.
Proof.
  intros Hf H4 [Hn Hw] Hage next next'. unfold next'. rewrite FullTransactionIdAdvance_normal by done.
  unfold MaxTransactionId, assigned, next. revert Hn Hage. xid_unfold.
  destruct (Z.eqb_spec (u32 f) 4294967295); intros; split_and!; try cint; intros x [Hx ?] ?; cint.
Qed.

Section Inv.
Context (topmost : TransactionId -> TransactionId) (o : TransactionId).

(** A process, its running subtransactions and what its cache tells of them. *)
Record proc_ok (next : TransactionId) (pr : PGPROC) (tree : list TransactionId) : Prop := {
  po_idle : pr_xid pr = InvalidTransactionId -> tree = [] /\ subxidStatus pr = no_subxids;
  po_xid : pr_xid pr <> InvalidTransactionId -> assigned o next (pr_xid pr) /\ topmost (pr_xid pr) = pr_xid pr;
  po_sub : forall x, x ∈ tree -> assigned o next x /\ xid_age o (pr_xid pr) < xid_age o x /\ topmost x = pr_xid pr;
  po_cached : forall x, x ∈ cached pr -> x ∈ tree;
  po_known : forall x, x ∈ tree -> x ∈ cached pr \/ overflowed (subxidStatus pr) = true;
  po_nodup : NoDup (cached pr);
}.

Record sys_ok (s : Sys) : Prop := {
  so_mirrored : mirrored (mem s);
  so_next : in_window o (next_xid (mem s));
  so_next_full : is_u64 (sh_nextXid (mem s));
  so_latest : assigned o (next_xid (mem s)) (latest_xid (mem s));
  so_procs : forall p, p ∈ pgprocnos (mem s) -> proc_ok (next_xid (mem s)) (proc (mem s) p) (subs s p);
  so_completed : forall x, assigned o (next_xid (mem s)) x ->
    xid_age o (latest_xid (mem s)) < xid_age o x -> running s x;
}.

(** When an act is performed.  [latestXid] is what
    [TransactionIdLatest] computes from the ids that end. *)
Definition latest_of (s : Sys) (latestXid : TransactionId) (ended : TransactionId -> Prop) : Prop :=
  assigned o (next_xid (mem s)) latestXid /\ forall x, ended x -> xid_age o x <= xid_age o latestXid.

(** The counter is clear of both wraparounds. *)
Definition room (s : Sys) : Prop :=
  sh_nextXid (mem s) + 4 < 2 ^ 64 /\ xid_age o (next_xid (mem s)) + 4 < 2 ^ 31.

Definition act_ok (a : Act) (s : Sys) : Prop :=
  let sh := mem s in
  let pr := proc sh (act_proc a) in
  let present := act_proc a ∈ pgprocnos sh in
  match a with
  | AAdd p tree =>
      (p < length (allProcs sh))%nat /\ ~ present /\ proc_ok (next_xid sh) pr tree /\
      (pr_xid pr <> InvalidTransactionId ->
       exists q, q ∈ pgprocnos sh /\ pr_xid (proc sh q) = pr_xid pr /\ subs s q = tree /\ skipped (proc sh q) = false)
  | ARemove p latestXid =>
      present /\ if TransactionIdIsValid latestXid
                 then latest_of s latestXid (fun x => x = pr_xid pr \/ x ∈ subs s p)
                 else pr_xid pr = InvalidTransactionId
  | AAssign p => present /\ pr_xid pr = InvalidTransactionId /\ topmost (next_xid sh) = next_xid sh /\ room s
  | AAssignSub p => present /\ pr_xid pr <> InvalidTransactionId /\ topmost (next_xid sh) = pr_xid pr /\ room s
  | ACommitLog p => present /\ pr_xid pr <> InvalidTransactionId
  | AEnd p latestXid =>
      present /\ pr_xid pr <> InvalidTransactionId /\
      latest_of s latestXid (fun x => x = pr_xid pr \/ x ∈ subs s p)
  | AEndNoXid p => present /\ pr_xid pr = InvalidTransactionId
  | APrepared p =>
      present /\ pr_xid pr <> InvalidTransactionId /\
      exists q, q <> p /\ q ∈ pgprocnos sh /\ pr_xid (proc sh q) = pr_xid pr /\ subs s q = subs s p
  | AAbortSub p xid children latestXid =>
      present /\ pr_xid pr <> InvalidTransactionId /\ latest_of s latestXid (fun x => x ∈ xid :: children)
  | ASetXmin p _ => present
  | ASetFlags p _ => present /\ pr_xid pr = InvalidTransactionId
  end.

Inductive sys_step (a : Act) (s s' : Sys) : Prop :=
| sys_step_intro : act_ok a s -> act a s = Some s' -> sys_step a s s'.

(** A sequence of acts. *)
Inductive sys_run : list Act -> Sys -> Sys -> Prop :=
| run_nil s : sys_run [] s s
| run_cons a acts s s1 s' : sys_step a s s1 -> sys_run acts s1 s' -> sys_run (a :: acts) s s'.

(** ** Preservation *)

Lemma proc_ok_ext next pr pr' tree :
  pr_xid pr' = pr_xid pr -> subxidStatus pr' = subxidStatus pr -> pr_subxids pr' = pr_subxids pr ->
  proc_ok next pr tree -> proc_ok next pr' tree.
Proof.
  intros Hx Hs Ha [H1 H2 H3 H4 H5 H6]. unfold cached in *. constructor; unfold cached; by rewrite ?Hx, ?Hs, ?Ha.
Qed.

Lemma proc_ok_next next next' pr tree :
  xid_age o next <= xid_age o next' -> proc_ok next pr tree -> proc_ok next' pr tree.
Proof.
  intros Hn [H1 H2 H3 H4 H5 H6]. constructor; try done.
  - intros Hx. destruct (H2 Hx). split; [by eapply assigned_le|done].
  - intros x Hx. destruct (H3 x Hx) as (? & ? & ?). split_and!; [by eapply assigned_le|done|done].
Qed.

Lemma proc_ok_cleared next pr :
  pr_xid pr = InvalidTransactionId -> subxidStatus pr = no_subxids -> proc_ok next pr [].
Proof.
  intros Hx Hs. unfold cached. constructor; unfold cached; rewrite ?Hx, ?Hs; try done.
  - intros x Hx0. by apply not_elem_of_nil in Hx0.
  - intros x Hx0. by apply not_elem_of_nil in Hx0.
  - constructor.
Qed.

(** An act on one process that leaves the counter alone. *)
Lemma sys_ok_acts_on s s' p :
  sys_ok s -> acts_on p (mem s) (mem s') -> (forall n, n <> p -> subs s' n = subs s n) ->
  (p ∈ pgprocnos (mem s) -> proc_ok (next_xid (mem s)) (proc (mem s') p) (subs s' p)) ->
  assigned o (next_xid (mem s)) (latest_xid (mem s')) ->
  xid_age o (latest_xid (mem s)) <= xid_age o (latest_xid (mem s')) ->
  (forall x, runs s p x -> running s' x \/ xid_age o x <= xid_age o (latest_xid (mem s'))) ->
  sys_ok s'.
Proof.
  intros [Hm Hn Hf Hl Hps Hc] [Hm' En Eo Ex] Es Hp Hl' Hle Hrun.
  assert (Enext : next_xid (mem s') = next_xid (mem s)) by (unfold next_xid; by rewrite Ex).
  constructor; rewrite ?Enext; try done; [by rewrite Ex|..].
  - intros n Hin. rewrite En in Hin. destruct (decide (n = p)) as [->|Hne]; [by apply Hp|].
    rewrite Eo, Es by done. by apply Hps.
  - intros x Hx Hlt. destruct (Hc x Hx) as [q Hq]; [lia|]. destruct (decide (q = p)) as [->|Hne].
    + destruct (Hrun x Hq) as [?|?]; [done|lia].
    + exists q. unfold runs in *. by rewrite En, Eo, Es.
Qed.

Lemma runs_dup s s' p q x :
  q <> p -> q ∈ pgprocnos (mem s) -> pr_xid (proc (mem s) q) = pr_xid (proc (mem s) p) -> subs s q = subs s p ->
  acts_on p (mem s) (mem s') -> (forall n, n <> p -> subs s' n = subs s n) -> runs s p x -> running s' x.
Proof.
  intros Hne Hq Hx Hs [_ En Eo _] Es (_ & Hv & Hr). exists q. unfold runs.
  rewrite En, Eo, Es, Hx, Hs by done. done.
Qed.

Lemma put_subs_eq p l f : put_subs p l f p = l.
Proof. unfold put_subs. by rewrite decide_True. Qed.

Lemma put_subs_ne p l f n : n <> p -> put_subs p l f n = f n.
Proof. intros. unfold put_subs. by rewrite decide_False. Qed.

Lemma end_ok s p latestXid :
  sys_ok s -> act_ok (AEnd p latestXid) s ->
  sys_ok (mkSys (ProcArrayEndTransactionInternal p latestXid (mem s)) (put_subs p [] (subs s)) (committed s)).
Proof.
  intros Hok (Hp & _ & Hlat & Hall). pose proof Hok as [Hm Hn _ Hl _ _].
  destruct (ProcArrayEndTransactionInternal_effect (mem s) p latestXid Hm Hp) as (Ha & Hx & Hst & Hlc & _).
  destruct (maintain_latest o (mem s) latestXid Hn Hl Hlat) as (H1 & H2 & H3).
  assert (Elat : latest_xid (ProcArrayEndTransactionInternal p latestXid (mem s)) = XidFromFullTransactionId
    (if TransactionIdPrecedes (XidFromFullTransactionId (latestCompletedXid (mem s))) latestXid
     then FullXidRelativeTo (latestCompletedXid (mem s)) latestXid else latestCompletedXid (mem s))).
  { unfold latest_xid. rewrite Hlc. unfold MaintainLatestCompletedXid. by case_if. }
  eapply (sys_ok_acts_on s _ p); cbn [mem subs]; rewrite ?Elat; try done.
  - intros n Hne. by apply put_subs_ne.
  - intros _. rewrite put_subs_eq. by apply proc_ok_cleared.
  - intros x (_ & _ & Hr). right. etransitivity; [by apply Hall|done].
Qed.

Lemma prepared_ok s p :
  sys_ok s -> act_ok (APrepared p) s ->
  sys_ok (mkSys (ProcArrayClearTransaction p (mem s)) (put_subs p [] (subs s)) (committed s)).
Proof.
  intros Hok (Hp & _ & q & Hqp & Hq & Hqx & Hqs). pose proof Hok as [Hm Hn _ Hl _ _].
  destruct (ProcArrayClearTransaction_effect (mem s) p Hm Hp) as (Ha & Hx & Hst & Hlc & _).
  eapply (sys_ok_acts_on s _ p); cbn [mem subs]; unfold latest_xid; rewrite ?Hlc; try done.
  - intros n Hne. by apply put_subs_ne.
  - intros _. rewrite put_subs_eq. by apply proc_ok_cleared.
  - intros x Hr. left. eapply (runs_dup s _ p q); cbn [mem subs]; try done. intros. by apply put_subs_ne.
Qed.

(** An act that changes neither ids nor counters of the process. *)
Lemma same_xids_ok s s' p :
  sys_ok s -> p ∈ pgprocnos (mem s) -> acts_on p (mem s) (mem s') -> subs s' = subs s ->
  pr_xid (proc (mem s') p) = pr_xid (proc (mem s) p) ->
  subxidStatus (proc (mem s') p) = subxidStatus (proc (mem s) p) ->
  pr_subxids (proc (mem s') p) = pr_subxids (proc (mem s) p) ->
  latestCompletedXid (mem s') = latestCompletedXid (mem s) -> sys_ok s'.
Proof.
  intros Hok Hp Ha Es Hx Hst Hsx Hlc. pose proof Hok as [Hm Hn _ Hl Hps _].
  eapply (sys_ok_acts_on s _ p); unfold latest_xid; rewrite ?Hlc, ?Es; try done.
  - intros _. eapply proc_ok_ext; [done..|]. by apply Hps.
  - intros x (_ & Hv & Hr). left. exists p. destruct Ha as [_ En _ _]. unfold runs. by rewrite En, Hx, Es.
Qed.

Lemma end_no_xid_ok s p :
  sys_ok s -> p ∈ pgprocnos (mem s) -> sys_ok (mkSys (end_without_xid p (mem s)) (subs s) (committed s)).
Proof.
  intros Hok Hp. destruct (end_without_xid_effect (mem s) p (so_mirrored _ Hok) Hp) as (Ha & ? & ? & ? & ? & _).
  by eapply (same_xids_ok s _ p).
Qed.

Lemma set_xmin_ok s p x :
  sys_ok s -> p ∈ pgprocnos (mem s) -> sys_ok (mkSys (upd_proc p (set_xmin x) (mem s)) (subs s) (committed s)).
Proof.
  intros Hok Hp. pose proof (so_mirrored _ Hok) as Hm.
  pose proof (upd_proc_at (mem s) p Hm Hp (set_xmin x)) as Hat.
  eapply (same_xids_ok s _ p); cbn [mem]; rewrite ?Hat; try done.
  constructor; [by apply set_xmin_mirrored|done| |done].
  intros n Hne. exact (proc_alter_ne (mem s) p n _ (not_eq_sym Hne)).
Qed.

Lemma set_flags_ok s p f :
  sys_ok s -> p ∈ pgprocnos (mem s) ->
  sys_ok (mkSys (put_statusFlags (pgxactoff (proc (mem s) p)) f (upd_proc p (set_statusFlags f) (mem s)))
            (subs s) (committed s)).
Proof.
  intros Hok Hp. pose proof (so_mirrored _ Hok) as Hm.
  pose proof (upd_proc_at (mem s) p Hm Hp (set_statusFlags f)) as Hat.
  change (proc (upd_proc p (set_statusFlags f) (mem s)) p)
    with (proc (put_statusFlags (pgxactoff (proc (mem s) p)) f (upd_proc p (set_statusFlags f) (mem s))) p) in Hat.
  eapply (same_xids_ok s _ p); cbn [mem]; rewrite ?Hat; try done.
  constructor; [by apply set_flags_mirrored|done| |done].
  intros n Hne. exact (proc_alter_ne (mem s) p n _ (not_eq_sym Hne)).
Qed.

Lemma abort_sub_ok s p xid children latestXid :
  sys_ok s -> act_ok (AAbortSub p xid children latestXid) s ->
  sys_ok (mkSys (XidCacheRemoveRunningXids p xid children latestXid (mem s))
            (put_subs p (filter (fun x => x ∉ xid :: children) (subs s p)) (subs s)) (committed s)).
Proof.
  intros Hok (Hp & Hxp & Hlat & Hall). pose proof Hok as [Hm Hn _ Hl Hps _]. cbn [act_proc] in *.
  destruct (Hps p Hp) as [P1 P2 P3 P4 P5 P6].
  destruct (XidCacheRemoveRunningXids_effect (mem s) p xid children latestXid Hm Hp P6) as (sh1 & Hu & ->).
  destruct Hu as [Ha Ux Uo Un Uc [Ul _]].
  pose proof (completion_acts_on p latestXid sh1 (ao_mirrored _ _ _ Ha)) as Ha2.
  assert (Eproc : proc (count_completion (MaintainLatestCompletedXid latestXid sh1)) p = proc sh1 p).
  { apply same_arrays_proc, (MaintainLatestCompletedXid_same latestXid sh1). }
  destruct (completion_fields latestXid sh1) as [Elc _]. rewrite Ul in Elc.
  destruct (maintain_latest o (mem s) latestXid Hn Hl Hlat) as (H1 & H2 & H3). cbn zeta in H1, H2, H3, Elc.
  eapply (sys_ok_acts_on s _ p); cbn [mem subs]; unfold latest_xid; rewrite ?Elc, ?put_subs_eq; try done.
  - by eapply acts_on_trans.
  - intros n Hne. by apply put_subs_ne.
  - intros _. rewrite Eproc. constructor; rewrite ?Ux, ?Uo; try done.
    + intros x Hx%list_elem_of_filter. apply P3, Hx.
    + intros x Hx%Uc. apply list_elem_of_filter. destruct Hx. split; [done|by apply P4].
    + intros x Hx%list_elem_of_filter. destruct Hx as [Hx1 Hx2]. destruct (P5 x Hx2) as [?|?]; [left|by right].
      by apply Uc.
  - intros x (_ & Hv & Hr). destruct (decide (x ∈ xid :: children)) as [Hin|Hnin].
    + right. etransitivity; [by apply Hall|done].
    + left. exists p. unfold runs. cbn [mem subs]. rewrite Eproc, Ux, put_subs_eq.
      rewrite (ao_nos _ _ _ Ha2), (ao_nos _ _ _ Ha). split_and!; [done|done|].
      destruct Hr as [->|Hr]; [by left|right]. by apply list_elem_of_filter.
Qed.

(** An id is assigned: the counter moves, and the new id is running. *)
Lemma assign_ok s p sub tree :
  sys_ok s -> p ∈ pgprocnos (mem s) -> room s ->
  let sh' := advertise_xid p sub (mem s) in
  let next' := XidFromFullTransactionId (FullTransactionIdAdvance (sh_nextXid (mem s))) in
  proc_ok next' (proc sh' p) tree ->
  (next_xid (mem s) = pr_xid (proc sh' p) \/ next_xid (mem s) ∈ tree) ->
  (pr_xid (proc (mem s) p) = InvalidTransactionId \/ pr_xid (proc sh' p) = pr_xid (proc (mem s) p)) ->
  (forall x, x ∈ subs s p -> x ∈ tree) ->
  sys_ok (mkSys sh' (put_subs p tree (subs s)) (committed s)).
Proof.
  intros Hok Hp [H4 Hage] sh' next' Hpok Hnew Hold Htree. pose proof Hok as [Hm Hn Hf Hl Hps Hc].
  destruct (advertise_xid_common (mem s) p sub Hm Hp) as (Hm' & En & Eo & Ex & El & _ & _).
  fold sh' in Hm', En, Eo, Ex, El.
  destruct (advance_next o (sh_nextXid (mem s)) Hf H4 Hn Hage) as (Hf' & Hw' & Hlt & Hgap).
  fold (next_xid (mem s)) in Hlt, Hgap. fold next' in Hw', Hlt, Hgap.
  assert (Enext : next_xid sh' = next') by (unfold next_xid; by rewrite Ex).
  assert (Elat : latest_xid sh' = latest_xid (mem s)) by (unfold latest_xid; by rewrite El).
  constructor; cbn [mem subs]; rewrite ?Enext, ?Elat; try done; [by rewrite Ex|..].
  - eapply assigned_le; [|done]. lia.
  - intros n Hin. rewrite En in Hin. destruct (decide (n = p)) as [->|Hne]; [by rewrite put_subs_eq|].
    rewrite Eo, put_subs_ne by done. eapply proc_ok_next; [|by apply Hps]. lia.
  - intros x Hx Hlx. destruct (decide (xid_age o x < xid_age o (next_xid (mem s)))) as [Hb|Hb].
    + destruct (Hc x) as [q (Hq & Hv & Hr)]; [by split; [apply Hx|]|done|]. exists q. unfold runs. cbn [mem subs].
      rewrite En. split_and!; [done|done|]. destruct (decide (q = p)) as [->|Hne].
      * rewrite put_subs_eq. destruct Hr as [->|Hr]; [|right; by apply Htree].
        destruct Hold as [Hz|Hz]; [by rewrite Hz in Hv|left; by symmetry].
      * by rewrite Eo, put_subs_ne by done.
    + exists p. unfold runs. cbn [mem subs]. rewrite En, put_subs_eq.
      split_and!; [done|apply normal_TransactionIdIsValid, Hx|]. rewrite (Hgap x Hx) by lia. done.
Qed.

Lemma assign_top_ok s p s' :
  sys_ok s -> act_ok (AAssign p) s -> act (AAssign p) s = Some s' -> sys_ok s'.
Proof.
  intros Hok (Hp & Hidle & Htop & Hroom) [= <-]. cbn [act_proc] in *. pose proof Hok as [Hm Hn Hf _ Hps _].
  destruct (advance_next o (sh_nextXid (mem s)) Hf (proj1 Hroom) Hn (proj2 Hroom)) as (_ & _ & Hlt & _).
  destruct (po_idle _ _ _ (Hps p Hp) Hidle) as [Ht Hs].
  pose proof (advertise_top (mem s) p Hm Hp) as Eproc. fold (next_xid (mem s)) in Eproc, Hlt.
  apply assign_ok; try done; rewrite ?Eproc; [|by left|by left|by rewrite Ht].
  assert (Hc : cached (set_xid (next_xid (mem s)) (proc (mem s) p)) = []) by (unfold cached; cbn; by rewrite Hs).
  constructor; rewrite ?Hc; cbn [set_xid pr_xid subxidStatus].
  - intros Hz. exfalso. destruct Hn as [[Hn3 _] _]. rewrite Hz in Hn3. by vm_compute in Hn3.
  - intros _. split; [split; [apply Hn|done]|done].
  - by intros x Hx%not_elem_of_nil.
  - done.
  - by intros x Hx%not_elem_of_nil.
  - constructor.
Qed.

Lemma assign_sub_ok s p s' :
  sys_ok s -> act_ok (AAssignSub p) s -> act (AAssignSub p) s = Some s' -> sys_ok s'.
Proof.
  intros Hok (Hp & Hxid & Htop & Hroom) [= <-]. cbn [act_proc] in *. pose proof Hok as [Hm Hn Hf _ Hps _].
  destruct (advance_next o (sh_nextXid (mem s)) Hf (proj1 Hroom) Hn (proj2 Hroom)) as (_ & _ & Hlt & _).
  destruct (Hps p Hp) as [P1 P2 P3 P4 P5 P6]. destruct (P2 Hxid) as [[Hxn Hxa] Hxt].
  destruct (advertise_sub (mem s) p Hm Hp) as (Ex & Hcases & _). fold (next_xid (mem s)) in Hcases, Hlt.
  apply assign_ok; try done; [|right; apply elem_of_app; right; by apply list_elem_of_singleton|by right|].
  2: { intros x Hx. apply elem_of_app. by left. }
  assert (Hfresh : next_xid (mem s) ∉ cached (proc (mem s) p)).
  { intros Hin%P4%P3. destruct Hin as [[_ ?] _]. lia. }
  constructor; rewrite ?Ex; try done.
  - intros _. split; [split; [done|lia]|done].
  - intros x [Hx| ->%list_elem_of_singleton]%elem_of_app.
    + destruct (P3 x Hx) as (? & ? & ?). split_and!; [eapply assigned_le; [|done]; lia|done|done].
    + split_and!; [split; [apply Hn|done]|done|done].
  - intros x. rewrite elem_of_app, list_elem_of_singleton.
    destruct Hcases as [[-> _]|[-> _]]; [rewrite elem_of_app, list_elem_of_singleton; naive_solver|naive_solver].
  - intros x. rewrite elem_of_app, list_elem_of_singleton.
    destruct Hcases as [[-> ->]|[-> ->]]; [|by right]. rewrite elem_of_app, list_elem_of_singleton.
    intros [Hx| ->]; [|by left; right]. destruct (P5 x Hx) as [?|?]; [by left; left|by right].
  - destruct Hcases as [[-> _]|[-> _]]; [|done]. apply NoDup_app. split_and!; [done| |by apply NoDup_singleton].
    intros x Hx ->%list_elem_of_singleton. done.
Qed.

(** The process array before and after a renumbering agrees but for offsets. *)
Definition same_proc (sh sh' : ProcShared) (n : nat) : Prop :=
  pr_xid (proc sh' n) = pr_xid (proc sh n) /\ subxidStatus (proc sh' n) = subxidStatus (proc sh n) /\
  pr_subxids (proc sh' n) = pr_subxids (proc sh n) /\ pr_statusFlags (proc sh' n) = pr_statusFlags (proc sh n).

Lemma renumber_same idx nos sh n :
  NoDup nos -> (forall m, m ∈ nos -> (m < length (allProcs sh))%nat) -> same_proc sh (renumber idx nos sh) n.
Proof. intros. split_and!; by apply renumber_field. Qed.

Lemma ProcArrayAdd_effect sh p sh' :
  mirrored sh -> (p < length (allProcs sh))%nat -> p ∉ pgprocnos sh -> ProcArrayAdd p sh = Some sh' ->
  mirrored sh' /\ (forall n, n ∈ pgprocnos sh' <-> n = p \/ n ∈ pgprocnos sh) /\ (forall n, same_proc sh sh' n) /\
  sh_nextXid sh' = sh_nextXid sh /\ latestCompletedXid sh' = latestCompletedXid sh /\
  xactCompletionCount sh' = xactCompletionCount sh.
Proof.
  intros Hm Hp Hno Hadd. destruct (ProcArrayAdd_mirrored sh p sh' Hm Hp Hno Hadd) as [Hm' Hel].
  split; [done|]. split; [done|]. unfold ProcArrayAdd in Hadd. destruct (_ <=? _)%nat; [done|]. cbn zeta in Hadd.
  set (i := insert_position _ _) in Hadd. set (sh1 := upd_proc p (set_pgxactoff i) _) in Hadd.
  apply (f_equal (default sh)) in Hadd. cbn [default from_option id] in Hadd. subst sh'.
  destruct (renumber_fields (S i) (drop (S i) (pgprocnos sh1)) sh1) as (En & _ & _ & _ & El & _ & -> & -> & ->).
  split_and!; try done. intros n.
  assert (H1 : same_proc sh sh1 n).
  { destruct (decide (n = p)) as [->|Hne].
    - unfold same_proc. replace (proc sh1 p) with (set_pgxactoff i (proc sh p)); [done|].
      symmetry. exact (proc_alter_eq sh p _ Hp).
    - unfold same_proc. replace (proc sh1 n) with (proc sh n); [done|].
      symmetry. exact (proc_alter_ne sh p n _ (not_eq_sym Hne)). }
  assert (Hnd : NoDup (drop (S i) (pgprocnos sh1))).
  { eapply sublist_NoDup, sublist_drop. rewrite <- En. by apply mi_NoDup. }
  unfold same_proc in H1 |- *.
  destruct (renumber_same (S i) (drop (S i) (pgprocnos sh1)) sh1 n Hnd) as (-> & -> & -> & ->); [|done].
  intros m Hm1. rewrite <- El. apply mi_lt; [done|]. rewrite En. by eapply elem_of_sublist, sublist_drop.
Qed.

Lemma ProcArrayRemove_effect sh p x :
  mirrored sh -> p ∈ pgprocnos sh ->
  let sh' := ProcArrayRemove p x sh in
  mirrored sh' /\ (forall n, n ∈ pgprocnos sh' <-> n ∈ pgprocnos sh /\ n <> p) /\ (forall n, same_proc sh sh' n) /\
  sh_nextXid sh' = sh_nextXid sh /\
  (latestCompletedXid sh', xactCompletionCount sh')
  = (let sh' := if TransactionIdIsValid x then count_completion (MaintainLatestCompletedXid x sh) else sh in
     (latestCompletedXid sh', xactCompletionCount sh')).
Proof.
  intros Hm Hp sh'. destruct (ProcArrayRemove_mirrored sh p x Hm Hp) as [Hm' Hel].
  split; [done|]. split; [done|]. unfold sh' in *. clear sh'.
  destruct (ProcArrayRemove_arrays sh p x) as (sh1 & E & Ea & En & _ & _ & _ & Ex & Ec). rewrite E in *.
  destruct (renumber_fields (pgxactoff (proc sh p)) (drop (pgxactoff (proc sh p)) (pgprocnos sh1)) sh1)
    as (En' & _ & _ & _ & El & _ & -> & -> & ->).
  split_and!; try done. intros n.
  assert (H1 : same_proc sh sh1 n) by (unfold same_proc, proc; by rewrite Ea).
  unfold same_proc in H1 |- *.
  destruct (renumber_same (pgxactoff (proc sh p)) (drop (pgxactoff (proc sh p)) (pgprocnos sh1)) sh1 n)
    as (-> & -> & -> & ->); [..|done].
  - eapply sublist_NoDup, sublist_drop. rewrite <- En'. by apply mi_NoDup.
  - intros m Hm1. rewrite <- El. apply mi_lt; [done|]. rewrite En'. by eapply elem_of_sublist, sublist_drop.
Qed.

Lemma add_ok s p tree s' :
  sys_ok s -> act_ok (AAdd p tree) s -> act (AAdd p tree) s = Some s' -> sys_ok s'.
Proof.
  intros Hok (Hlt & Hno & Hpok & _) Hact. cbn [act_proc act] in *. pose proof Hok as [Hm Hn Hf Hl Hps Hc].
  destruct (ProcArrayAdd p (mem s)) as [sh'|] eqn:Hadd; [|done]. cbn in Hact. injection Hact as <-.
  destruct (ProcArrayAdd_effect (mem s) p sh' Hm Hlt Hno Hadd) as (Hm' & Hel & Hsame & Ex & El & _).
  assert (Enext : next_xid sh' = next_xid (mem s)) by (unfold next_xid; by rewrite Ex).
  assert (Elat : latest_xid sh' = latest_xid (mem s)) by (unfold latest_xid; by rewrite El).
  constructor; cbn [mem subs]; rewrite ?Enext, ?Elat; try done; [by rewrite Ex|..].
  - intros n Hin. destruct (Hsame n) as (E1 & E2 & E3 & _). destruct (decide (n = p)) as [->|Hne].
    + rewrite put_subs_eq. by eapply proc_ok_ext.
    + rewrite put_subs_ne by done. eapply proc_ok_ext; [done..|]. apply Hps. apply Hel in Hin. naive_solver.
  - intros x Hx Hlx. destruct (Hc x Hx Hlx) as [q (Hq & Hv & Hr)]. exists q. unfold runs. cbn [mem subs].
    destruct (Hsame q) as (-> & _ & _). rewrite Hel. assert (q <> p) by (by intros ->).
    rewrite put_subs_ne by done. split_and!; [by right|done|done].
Qed.

Lemma remove_ok s p latestXid :
  sys_ok s -> act_ok (ARemove p latestXid) s ->
  sys_ok (mkSys (ProcArrayRemove p latestXid (mem s)) (subs s) (committed s)).
Proof.
  intros Hok (Hp & Hlat). cbn [act_proc] in *. pose proof Hok as [Hm Hn Hf Hl Hps Hc].
  destruct (ProcArrayRemove_effect (mem s) p latestXid Hm Hp) as (Hm' & Hel & Hsame & Ex & Ec).
  apply (f_equal fst) in Ec. cbn [fst] in Ec. set (sh' := ProcArrayRemove p latestXid (mem s)) in *.
  assert (Enext : next_xid sh' = next_xid (mem s)) by (unfold next_xid; by rewrite Ex).
  assert (Hlatest : assigned o (next_xid (mem s)) (latest_xid sh') /\
    xid_age o (latest_xid (mem s)) <= xid_age o (latest_xid sh') /\
    forall x, runs s p x -> xid_age o x <= xid_age o (latest_xid sh')).
  { unfold latest_xid. rewrite Ec. destruct (TransactionIdIsValid latestXid).
    - destruct Hlat as [Hlat Hall]. destruct (completion_fields latestXid (mem s)) as [-> _].
      destruct (maintain_latest o (mem s) latestXid Hn Hl Hlat) as (H1 & H2 & H3). split_and!; [done|done|].
      intros x (_ & _ & Hr). etransitivity; [by apply Hall|done].
    - split_and!; [done|lia|]. intros x (_ & Hv & Hr). destruct (po_idle _ _ _ (Hps p Hp) Hlat) as [Ht _].
      rewrite Ht, Hlat in Hr. destruct Hr as [->|Hr]; [done|by apply not_elem_of_nil in Hr]. }
  destruct Hlatest as (H1 & H2 & H3).
  constructor; cbn [mem subs]; rewrite ?Enext; try done; [by rewrite Ex|..].
  - intros n Hin. destruct (Hsame n) as (E1 & E2 & E3 & _). eapply proc_ok_ext; [done..|]. apply Hps. by apply Hel in Hin as [? _].
  - intros x Hx Hlx. destruct (Hc x Hx) as [q (Hq & Hv & Hr)]; [lia|]. exists q. unfold runs. cbn [mem subs].
    destruct (Hsame q) as (-> & _ & _). rewrite Hel. split_and!; [done| |done|done].
    intros ->. specialize (H3 x). assert (runs s p x) by done. specialize (H3 H). lia.
Qed.

Lemma sys_step_ok a s s' : sys_ok s -> sys_step a s s' -> sys_ok s'.
Proof.
  intros Hok [Ha Hact]. destruct a as [p tree|p x|p|p|p|p x|p|p|p x l y|p x|p f].
  - exact (add_ok s p tree s' Hok Ha Hact).
  - injection Hact as <-. exact (remove_ok s p x Hok Ha).
  - exact (assign_top_ok s p s' Hok Ha Hact).
  - exact (assign_sub_ok s p s' Hok Ha Hact).
  - injection Hact as <-. destruct Hok as [H1 H2 H3 H4 H5 H6].
    constructor; [exact H1|exact H2|exact H3|exact H4|exact H5|exact H6].
  - injection Hact as <-. exact (end_ok s p x Hok Ha).
  - injection Hact as <-. exact (end_no_xid_ok s p Hok (proj1 Ha)).
  - injection Hact as <-. exact (prepared_ok s p Hok Ha).
  - injection Hact as <-. exact (abort_sub_ok s p x l y Hok Ha).
  - injection Hact as <-. exact (set_xmin_ok s p x Hok Ha).
  - injection Hact as <-. exact (set_flags_ok s p f Hok (proj1 Ha)).
Qed.

Lemma sys_run_ok acts s s' : sys_ok s -> sys_run acts s s' -> sys_ok s'.
Proof. intros Hok Hr. induction Hr as [|a acts s s1 s' Hs Hr IH]; [done|]. by eapply IH, sys_step_ok. Qed.

End Inv.
