(* ===== verification/ProcExample.v ===== *)
(** * ProcExample: a small system of three backends

    Backend 1 runs transaction 100 with subtransaction 101, backend 2 has run
    transaction 102 to its end, and backend 0 observes.  The states are
    reached from an empty process array by acts of ProcRun.v; they instantiate
    the theorems about the process array. *)

From S2P Require Import Prelude TransactionId KnownXids ProcArray ProcInv ProcRun.

Definition idle_proc (n : nat) : PGPROC :=
  mkPGPROC n (1000 + Z.of_nat n) 0 0 0 0 (Z.of_nat n) 5 10 0 0 false false None no_subxids (replicate MAX_CACHED_SUBXIDS 0).

Definition empty_known : KnownXids := mkKnownXids 4 0 0 0 [0; 0; 0; 0] [false; false; false; false] 0 0.

Definition empty_array : ProcShared :=
  mkProcShared (idle_proc <$> [0; 1; 2]%nat) 3 [] [] [] [] 0 0 0 99 1 100 3 empty_known.

Definition empty_sys : Sys := mkSys empty_array (fun _ => []) [].

Definition ex_topmost (x : TransactionId) : TransactionId := if x =? 101 then 100 else x.

(** The state after a sequence of acts. *)
Fixpoint perform (acts : list Act) (s : Sys) : Sys :=
  match acts with [] => s | a :: acts => perform acts (default s (act a s)) end.

Definition ex_acts : list Act :=
  [AAdd 1 []; AAdd 0 []; AAdd 2 []; AAssign 1; AAssignSub 1; AAssign 2; ACommitLog 2; AEnd 2 102].

Definition ex_sys (n : nat) : Sys := perform (take n ex_acts) empty_sys.

Lemma perform_run top o acts s :
  (forall n a, acts !! n = Some a -> act_ok top o a (perform (take n acts) s) /\
     is_Some (act a (perform (take n acts) s))) ->
  sys_run top o acts s (perform acts s).
Proof.
  revert s. induction acts as [|a acts IH]; intros s H; [constructor|].
  destruct (H 0%nat a eq_refl) as [Hok [s1 Hs1]]. cbn in Hok, Hs1. econstructor; [by constructor|].
  cbn [perform]. rewrite Hs1. apply IH. intros n b Hb. specialize (H (S n) b Hb). cbn in H. by rewrite Hs1 in H.
Qed.

Lemma empty_ok : sys_ok ex_topmost 3 empty_sys.
Proof.
  constructor; cbn [mem subs empty_sys].
  - constructor; cbn [pgprocnos xids subxidStates statusFlags empty_array]; [constructor|constructor| |done..].
    intros n pr Hpr. do 3 (destruct n as [|n]; [injection Hpr as <-; constructor; cbn; [done|done|lia]|]). done.
  - split; vm_compute; done.
  - split; vm_compute; done.
  - split; vm_compute; done.
  - intros p Hp. by apply not_elem_of_nil in Hp.
  - intros x [Hx Ha] Hlt. exfalso. revert Ha Hlt.
    change (xid_age 3 (next_xid empty_array)) with 97. change (xid_age 3 (latest_xid empty_array)) with 96. lia.
Qed.

(** Discharges the ground conditions of an act. *)
Ltac ground :=
  repeat match goal with
  | |- _ /\ _ => split
  | |- ~ (_ ∈ _) => apply (bool_decide_unpack _); vm_compute; exact I
  | |- _ ∈ _ => apply (bool_decide_unpack _); vm_compute; exact I
  | |- _ => progress (vm_compute; done)
  end.

Lemma idle_ok next n : (n < 3)%nat -> proc_ok ex_topmost 3 next (idle_proc n) [].
Proof. intros. by apply proc_ok_cleared. Qed.

Lemma ex_run : sys_run ex_topmost 3 ex_acts empty_sys (ex_sys 8).
Proof.
  apply perform_run. intros n a Ha.
  do 3 (destruct n as [|n];
    [injection Ha as <-; split; [|vm_compute; by eexists];
     split; [vm_compute; lia|]; split; [ground|]; split; [|by intros []]; by apply idle_ok; lia|]).
  do 3 (destruct n as [|n];
    [injection Ha as <-; split; [|vm_compute; by eexists]; split; [ground|]; split; [by vm_compute|];
     split; [by vm_compute|]; split; by vm_compute|]).
  destruct n as [|n]; [injection Ha as <-; split; [|vm_compute; by eexists]; split; [ground|by vm_compute]|].
  destruct n as [|n]; [injection Ha as <-; split; [|vm_compute; by eexists]|done].
  split; [ground|]. split; [by vm_compute|]. split; [split; by vm_compute|].
  intros x [->|Hx]; [by vm_compute|]. vm_compute in Hx. by apply not_elem_of_nil in Hx.
Qed.

Lemma ex_ok : sys_ok ex_topmost 3 (ex_sys 8).
Proof. eapply sys_run_ok; [exact empty_ok|exact ex_run]. Qed.

(** The same after backend 2 has been assigned 103. *)
Definition ex_next : Sys := perform [AAssign 2] (ex_sys 8).

Lemma ex_step : sys_step ex_topmost 3 (AAssign 2) (ex_sys 8) ex_next.
Proof.
  constructor; [|reflexivity]. split; [ground|]. split; [by vm_compute|]. split; [by vm_compute|]. split; by vm_compute.
Qed.

(** C19. every sequence of acts keeps the process array well formed: the dense
    arrays mirror the processes in the order of their numbers, the ids that run
    are all assigned, a cached subtransaction belongs to the transaction of its
    process, and no id after [latestCompletedXid] has ended. *)
Theorem process_array_consistent (topmost : TransactionId -> TransactionId) (o : TransactionId) (acts : list Act) (s s' : Sys) :
  sys_ok topmost o s -> sys_run topmost o acts s s' ->
  mirrored (mem s') /\
  (forall p x, runs s' p x -> assigned o (next_xid (mem s')) x /\ topmost x = pr_xid (proc (mem s') p)) /\
  (forall p x, p ∈ pgprocnos (mem s') -> x ∈ cached (proc (mem s') p) -> x ∈ subs s' p) /\
  (forall x, assigned o (next_xid (mem s')) x -> xid_age o (latest_xid (mem s')) < xid_age o x -> running s' x).
Proof.
  intros Hok Hr. destruct (sys_run_ok topmost o acts s s' Hok Hr) as [Hm _ _ _ Hps Hc].
  split_and!; [done| | |done].
  - intros p x (Hp & Hv & Hor). destruct (Hps p Hp) as [_ P2 P3 _ _ _]. destruct Hor as [->|Hin].
    + apply P2. intros Hz. by rewrite Hz in Hv.
    + by destruct (P3 x Hin) as (? & _ & ?).
  - intros p x Hp. apply (Hps p Hp).
Qed.

Lemma process_array_consistent_witness :
  xids (mem (ex_sys 8)) = [0; 100; 0] /\ cached (proc (mem (ex_sys 8)) 1) = [101] /\ 101 ∈ subs (ex_sys 8) 1.
Proof.
  destruct (process_array_consistent ex_topmost 3 ex_acts empty_sys (ex_sys 8) empty_ok ex_run) as (_ & _ & H & _).
  split; [vm_compute; reflexivity|]. split; [vm_compute; reflexivity|].
  apply H; ground.
Defined.
