(* ===== verification/ProcGroup.v ===== *)
(** * ProcGroup: ending transactions as a group

    Models [ProcArrayGroupClearXid] of src/backend/storage/ipc/procarray.c, by
    which backends that cannot get ProcArrayLock at once put themselves on a
    lock-free list; the first of them gets the lock and ends the transactions
    of all, then wakes them up.

    Every access to shared memory is a step of its own: the steps of the
    backends interleave in any order.  The walk under the lock reads the link
    of a member in the step that clears it.  Links, flags and semaphores are
    functions of the number of the process. *)

From stdpp Require Import functions.
From S2P Require Import Prelude TransactionId KnownXids ProcArray.

(** Where a backend stands in the function; the arguments are its local
    variables. *)
Inductive GroupPc :=
| PStart
| PRead
| PWrite (nextidx : option nat)
| PCas (nextidx : option nat)
| PSleep (extraWaits : nat)
| PCheck (extraWaits : nat)
| PFix (extraWaits : nat)
| PFollowed
| PLeader
| PExchange
| PClear (wakeidx nextidx : option nat)
| PWake (wakeidx : option nat)
| PWakeUp (nextproc : nat) (wakeidx : option nat)
| PUnlock (nextproc : nat) (wakeidx : option nat)
| PLed.

#[export] Instance GroupPc_eq_dec : EqDecision GroupPc.
Proof. solve_decision. Defined.

(** [None] is INVALID_PGPROCNO. *)
Record Group := mkGroup {
  g_mem : ProcShared;
  procArrayGroupFirst : option nat;
  procArrayGroupNext : nat -> option nat;
  procArrayGroupMember : nat -> bool;
  procArrayGroupMemberXid : nat -> TransactionId;
  sem : nat -> nat;
  ProcArrayLock : option nat;
  pc : nat -> GroupPc;
}.

Definition goto (p : nat) (l : GroupPc) (s : Group) : Group :=
  mkGroup (g_mem s) (procArrayGroupFirst s) (procArrayGroupNext s) (procArrayGroupMember s)
    (procArrayGroupMemberXid s) (sem s) (ProcArrayLock s) (<[p := l]> (pc s)).
Definition set_first (f : option nat) (s : Group) : Group :=
  mkGroup (g_mem s) f (procArrayGroupNext s) (procArrayGroupMember s)
    (procArrayGroupMemberXid s) (sem s) (ProcArrayLock s) (pc s).
Definition set_link (p : nat) (n : option nat) (s : Group) : Group :=
  mkGroup (g_mem s) (procArrayGroupFirst s) (<[p := n]> (procArrayGroupNext s)) (procArrayGroupMember s)
    (procArrayGroupMemberXid s) (sem s) (ProcArrayLock s) (pc s).
Definition set_member (p : nat) (b : bool) (s : Group) : Group :=
  mkGroup (g_mem s) (procArrayGroupFirst s) (procArrayGroupNext s) (<[p := b]> (procArrayGroupMember s))
    (procArrayGroupMemberXid s) (sem s) (ProcArrayLock s) (pc s).
Definition set_member_xid (p : nat) (x : TransactionId) (s : Group) : Group :=
  mkGroup (g_mem s) (procArrayGroupFirst s) (procArrayGroupNext s) (procArrayGroupMember s)
    (<[p := x]> (procArrayGroupMemberXid s)) (sem s) (ProcArrayLock s) (pc s).
Definition set_sem (p n : nat) (s : Group) : Group :=
  mkGroup (g_mem s) (procArrayGroupFirst s) (procArrayGroupNext s) (procArrayGroupMember s)
    (procArrayGroupMemberXid s) (<[p := n]> (sem s)) (ProcArrayLock s) (pc s).
Definition set_lock (h : option nat) (s : Group) : Group :=
  mkGroup (g_mem s) (procArrayGroupFirst s) (procArrayGroupNext s) (procArrayGroupMember s)
    (procArrayGroupMemberXid s) (sem s) h (pc s).
Definition set_mem (m : ProcShared) (s : Group) : Group :=
  mkGroup m (procArrayGroupFirst s) (procArrayGroupNext s) (procArrayGroupMember s)
    (procArrayGroupMemberXid s) (sem s) (ProcArrayLock s) (pc s).

(** The next step of backend [p], which ends its transaction with [latestXid];
    [None] when it is blocked or has returned. *)
Definition ProcArrayGroupClearXid (latestXid : TransactionId) (p : nat) (s : Group) : option Group :=
  match pc s p with
  | PStart => Some (goto p PRead (set_member_xid p latestXid (set_member p true s)))
  | PRead => Some (goto p (PWrite (procArrayGroupFirst s)) s)
  | PWrite nextidx => Some (goto p (PCas nextidx) (set_link p nextidx s))
  | PCas nextidx =>
      if decide (procArrayGroupFirst s = nextidx) then
        Some (goto p (match nextidx with None => PLeader | Some _ => PSleep 0 end) (set_first (Some p) s))
      else Some (goto p (PWrite (procArrayGroupFirst s)) s)
  | PSleep extraWaits =>
      match sem s p with
      | O => None
      | S n => Some (goto p (PCheck extraWaits) (set_sem p n s))
      end
  | PCheck extraWaits =>
      Some (goto p (if procArrayGroupMember s p then PSleep (S extraWaits) else PFix extraWaits) s)
  | PFix O => Some (goto p PFollowed s)
  | PFix (S n) => Some (goto p (PFix n) (set_sem p (S (sem s p)) s))
  | PLeader =>
      match ProcArrayLock s with
      | None => Some (goto p PExchange (set_lock (Some p) s))
      | Some _ => None
      end
  | PExchange => Some (goto p (PClear (procArrayGroupFirst s) (procArrayGroupFirst s)) (set_first None s))
  | PClear wakeidx (Some q) =>
      Some (goto p (PClear wakeidx (procArrayGroupNext s q))
              (set_mem (ProcArrayEndTransactionInternal q (procArrayGroupMemberXid s q) (g_mem s)) s))
  | PClear wakeidx None => Some (goto p (PWake wakeidx) (set_lock None s))
  | PWake (Some q) => Some (goto p (PWakeUp q (procArrayGroupNext s q)) (set_link q None s))
  | PWake None => Some (goto p PLed s)
  | PWakeUp q wakeidx =>
      Some (goto p (if decide (q = p) then PWake wakeidx else PUnlock q wakeidx) (set_member q false s))
  | PUnlock q wakeidx => Some (goto p (PWake wakeidx) (set_sem q (S (sem s q)) s))
  | PFollowed | PLed => None
  end.

Definition returned (l : GroupPc) : Prop := l = PFollowed \/ l = PLed.

(** ** The list *)

Fixpoint chain (next : nat -> option nat) (h : option nat) (l : list nat) : Prop :=
  match l with
  | [] => h = None
  | p :: l => h = Some p /\ chain next (next p) l
  end.

Lemma chain_frame next next' h l : (forall p, p ∈ l -> next' p = next p) -> chain next h l -> chain next' h l.
Proof.
  revert h. induction l as [|p l IH]; intros h Hn; [done|]. intros [-> Hc]. split; [done|].
  rewrite Hn by left. apply IH; [|done]. intros q Hq. apply Hn. by right.
Qed.

Lemma chain_insert next p n h l : p ∉ l -> chain next h l -> chain (<[p := n]> next) h l.
Proof. intros Hp. apply chain_frame. intros q Hq. apply fn_lookup_insert_ne. by intros ->. Qed.

Lemma chain_none next h l : chain next h l -> h = None -> l = [].
Proof. destruct l; [done|]. intros [-> _]. done. Qed.

Lemma chain_some next h l q : chain next h l -> h = Some q -> exists l', l = q :: l' /\ chain next (next q) l'.
Proof. destruct l as [|p l]; [by intros -> |]. intros [-> Hc] [= ->]. eauto. Qed.

(** What a backend is doing, as far as the lists go. *)
Inductive Role := Arriving | Waiting | Leading | Serving | Finished.

Definition role (l : GroupPc) : Role :=
  match l with
  | PStart | PRead | PWrite _ | PCas _ => Arriving
  | PSleep _ | PCheck _ => Waiting
  | PLeader | PExchange => Leading
  | PClear _ _ | PWake _ | PWakeUp _ _ | PUnlock _ _ => Serving
  | PFix _ | PFollowed | PLed => Finished
  end.

(** The members that are still linked: [pend] from the global list,
    [taken p] those that leader [p] has yet to wake up, [rest p] those of them
    whose transaction it has yet to end; [log] the order in which transactions
    were ended, [unl p] how often the leader unlocked the semaphore of [p]. *)
Record Ghost := mkGhost {
  pend : list nat;
  taken : nat -> list nat;
  rest : nat -> list nat;
  log : list nat;
  unl : nat -> nat;
}.

Definition listed (G : Ghost) (p : nat) : Prop := p ∈ pend G \/ exists L, p ∈ taken G L.

(** [L] is the last of its list, and the others wait. *)
Definition heads (s : Group) (L : nat) (l : list nat) : Prop :=
  exists w, l = w ++ [L] /\ forall q, q ∈ w -> role (pc s q) = Waiting.

Definition serves (s : Group) (G : Ghost) (L : nat) : Prop :=
  let ch := chain (procArrayGroupNext s) in
  match pc s L with
  | PClear w n => ch w (taken G L) /\ ch n (rest G L) /\ (exists d, taken G L = d ++ rest G L) /\ heads s L (taken G L)
  | PWake w => ch w (taken G L) /\ rest G L = [] /\ (taken G L = [] \/ heads s L (taken G L))
  | PWakeUp q w => (exists l, taken G L = q :: l /\ ch w l) /\ rest G L = [] /\ heads s L (taken G L)
  | PUnlock q w => ch w (taken G L) /\ rest G L = [] /\ heads s L (taken G L)
  | _ => taken G L = [] /\ rest G L = []
  end.

Record lists_ok (s : Group) (G : Ghost) : Prop := {
  lo_first : chain (procArrayGroupNext s) (procArrayGroupFirst s) (pend G);
  lo_pend : pend G = [] \/ exists L, heads s L (pend G) /\ role (pc s L) = Leading;
  lo_lead : forall p, role (pc s p) = Leading -> heads s p (pend G);
  lo_serve : forall L, serves s G L;
  lo_nodup : NoDup (pend G) /\ forall L, NoDup (taken G L);
  lo_apart : forall p L, p ∈ pend G -> p ∉ taken G L;
  lo_apart_taken : forall p L L', p ∈ taken G L -> p ∈ taken G L' -> L = L';
}.

Lemma heads_frame s s' L l :
  (forall q, q ∈ l -> role (pc s q) = Waiting -> role (pc s' q) = Waiting) -> heads s L l -> heads s' L l.
Proof.
  intros Hr (w & -> & Hw). exists w. split; [done|]. intros q Hq. apply Hr; [apply elem_of_app; by left|by apply Hw].
Qed.

Lemma heads_last s L l : heads s L l -> L ∈ l.
Proof. intros (w & -> & _). apply elem_of_app. right. by apply list_elem_of_singleton. Qed.

Lemma heads_elem s L l q : heads s L l -> q ∈ l -> q = L \/ role (pc s q) = Waiting.
Proof.
  intros (w & -> & Hw) [Hq|Hq]%elem_of_app; [right; by apply Hw|]. apply list_elem_of_singleton in Hq. by left.
Qed.

(** What a leader does is not touched by steps of others. *)
Lemma serves_frame s s' G G' L :
  pc s' L = pc s L -> taken G' L = taken G L -> rest G' L = rest G L ->
  (forall q, q ∈ taken G L -> procArrayGroupNext s' q = procArrayGroupNext s q) ->
  (forall q, q ∈ taken G L -> role (pc s q) = Waiting -> role (pc s' q) = Waiting) ->
  serves s G L -> serves s' G' L.
Proof.
  intros Epc Et Er En Hr. unfold serves. rewrite Epc, Et, Er.
  assert (Hchain : forall h l, (forall q, q ∈ l -> q ∈ taken G L) -> chain (procArrayGroupNext s) h l ->
    chain (procArrayGroupNext s') h l).
  { intros h l Hl. apply chain_frame. auto. }
  pose proof (heads_frame s s' L (taken G L) Hr) as Hheads.
  destruct (pc s L); try done.
  - intros (A & B & (d & C) & D). split_and!; [by apply Hchain| |by exists d|by apply Hheads].
    apply Hchain; [|done]. intros q Hq. rewrite C. apply elem_of_app. by right.
  - intros (A & B & C). split_and!; [by apply Hchain|done|]. destruct C as [?|?]; [by left|right]. by apply Hheads.
  - intros ((l & E & A) & B & C). split_and!; [|done|by apply Hheads]. exists l. split; [done|].
    apply Hchain; [|done]. intros q Hq. rewrite E. by right.
  - intros (A & B & C). split_and!; [by apply Hchain|done|by apply Hheads].
Qed.

Lemma serves_taken s G L q : serves s G L -> q ∈ taken G L -> role (pc s L) = Serving /\ (q = L \/ role (pc s q) = Waiting).
Proof.
  unfold serves. intros H Hq.
  assert (Hno : taken G L = [] -> role (pc s L) = Serving /\ (q = L \/ role (pc s q) = Waiting)).
  { intros E. rewrite E in Hq. by apply not_elem_of_nil in Hq. }
  assert (Hh : heads s L (taken G L) -> q = L \/ role (pc s q) = Waiting) by (intros; by eapply heads_elem).
  destruct (pc s L); cbn [role]; try (by apply Hno, H); split; try done.
  - by apply Hh, H.
  - destruct H as (_ & _ & [E|?]); [by apply Hno|by apply Hh].
  - by apply Hh, H.
  - by apply Hh, H.
Qed.

(** A step that changes no list: the links of listed members stay, and a
    member stays in its role. *)
Lemma lists_frame s s' G :
  procArrayGroupFirst s' = procArrayGroupFirst s ->
  (forall q, listed G q -> procArrayGroupNext s' q = procArrayGroupNext s q) ->
  (forall q, pc s' q = pc s q \/ role (pc s q) <> Serving /\ role (pc s' q) <> Serving /\
     (role (pc s' q) = role (pc s q) \/ ~ listed G q /\ role (pc s' q) <> Leading)) ->
  lists_ok s G -> lists_ok s' G.
Proof.
  intros Ef En Epc [H1 H2 H3 H4 [H5 H5'] H6 H7].
  assert (Hrole : forall q, listed G q -> role (pc s' q) = role (pc s q)).
  { intros q Hq. destruct (Epc q) as [->|(_ & _ & [?|[? _]])]; done. }
  assert (Hpend : forall q, q ∈ pend G -> listed G q) by (by left).
  assert (Htaken : forall L q, q ∈ taken G L -> listed G q) by (by right; eexists).
  assert (Hheads : forall L, heads s L (pend G) -> heads s' L (pend G)).
  { intros L. apply heads_frame. intros q Hq Hr. by rewrite Hrole by auto. }
  constructor; try done.
  - rewrite Ef. eapply chain_frame; [|exact H1]. auto.
  - destruct H2 as [?|(L & Hh & Hr)]; [by left|right]. exists L. split; [by apply Hheads|]. rewrite Hrole; [done|].
    left. by eapply heads_last.
  - intros p Hp. apply Hheads, H3. destruct (Epc p) as [Epp|(_ & _ & [Er|[_ ?]])]; [by rewrite <- Epp|congruence|done].
  - intros L. destruct (Epc L) as [EL|(Hn & Hn' & _)].
    + eapply serves_frame; [done..| | |apply H4]; [by eauto|]. intros q Hq Hr. by rewrite Hrole by eauto.
    + specialize (H4 L). unfold serves in *.
      assert (Hnil : taken G L = [] /\ rest G L = []) by (by destruct (pc s L)). by destruct (pc s' L).
Qed.

Section Lists.
Context (s : Group) (G : Ghost) (Hok : lists_ok s G).

Lemma listed_role q : listed G q -> role (pc s q) = Waiting \/ role (pc s q) = Leading \/ role (pc s q) = Serving.
Proof.
  intros [Hq|[L Hq]].
  - destruct (lo_pend _ _ Hok) as [E|(L & Hh & Hr)]; [rewrite E in Hq; by apply not_elem_of_nil in Hq|].
    destruct (heads_elem _ _ _ _ Hh Hq) as [->|?]; auto.
  - destruct (serves_taken _ _ _ _ (lo_serve _ _ Hok L) Hq) as [Hr [->|?]]; auto.
Qed.

Lemma arriving_unlisted p : role (pc s p) = Arriving -> ~ listed G p.
Proof. intros Hr Hl. destruct (listed_role p Hl) as [?|[?|?]]; congruence. Qed.

(** A backend that is not waiting is in no list of another leader. *)
Lemma taken_other p L : role (pc s p) <> Waiting -> L <> p -> p ∉ taken G L.
Proof.
  intros Hr Hne Hin. destruct (serves_taken _ _ _ _ (lo_serve _ _ Hok L) Hin) as [_ [?|?]]; congruence.
Qed.

Lemma not_serving_empty L : role (pc s L) <> Serving -> taken G L = [] /\ rest G L = [].
Proof. intros Hr. pose proof (lo_serve _ _ Hok L) as H. unfold serves in H. by destruct (pc s L). Qed.

(** [p] links itself in front. *)
Lemma lists_push p n :
  pc s p = PCas n -> procArrayGroupNext s p = n -> procArrayGroupFirst s = n ->
  lists_ok (goto p (match n with None => PLeader | Some _ => PSleep 0 end) (set_first (Some p) s))
    (mkGhost (p :: pend G) (taken G) (rest G) (log G) (unl G)).
Proof.
  intros Hpc Hn Hf. pose proof Hok as [H1 H2 H3 H4 [H5 H5'] H6 H7].
  assert (Hun : ~ listed G p) by (apply arriving_unlisted; by rewrite Hpc).
  assert (Hpp : p ∉ pend G) by (intros ?; apply Hun; by left).
  assert (Hpt : forall L, p ∉ taken G L) by (intros L ?; apply Hun; by right; exists L).
  rewrite Hf in H1. set (l := match n with None => PLeader | Some _ => PSleep 0 end).
  assert (Hrole : forall q, q <> p -> role (<[p := l]> (pc s) q) = role (pc s q)).
  { intros q Hq. by rewrite fn_lookup_insert_ne. }
  constructor; cbn [procArrayGroupNext procArrayGroupFirst goto set_first pend taken rest pc].
  - split; [done|]. by rewrite Hn.
  - right. destruct H2 as [E|(L & Hh & Hr)].
    + rewrite E in *. cbn in H1. exists p. split; [by exists []; split; [|intros ? ?%not_elem_of_nil]|].
      cbn. rewrite fn_lookup_insert. unfold l. by rewrite H1.
    + destruct n as [n|]; [|by apply chain_none in H1; [|done]; rewrite H1 in Hh; apply heads_last, not_elem_of_nil in Hh].
      assert (L <> p) by (intros ->; by apply Hpp, (heads_last s)). exists L. split; [|by rewrite Hrole].
      destruct Hh as (w & E & Hw). exists (p :: w). split; [by rewrite E|]. intros q [->|Hq]%elem_of_cons.
      * cbn. by rewrite fn_lookup_insert.
      * cbn. rewrite Hrole; [by apply Hw|]. intros ->. apply Hpp. rewrite E. apply elem_of_app. by left.
  - intros q Hq. destruct (decide (q = p)) as [->|Hne].
    + rewrite fn_lookup_insert in Hq. unfold l in Hq. destruct n; [done|]. rewrite (chain_none _ _ _ H1) by done.
      by exists []; split; [|intros ? ?%not_elem_of_nil].
    + rewrite fn_lookup_insert_ne in Hq by done. destruct (H3 q Hq) as (w & E & Hw). exists (p :: w). split; [by rewrite E|].
      intros r [->|Hr]%elem_of_cons.
      * cbn. rewrite fn_lookup_insert. unfold l. destruct n; [done|]. apply chain_none in H1; [|done]. rewrite H1 in E. by destruct w.
      * cbn. rewrite Hrole; [by apply Hw|]. intros ->. apply Hpp. rewrite E.
        apply elem_of_app. by left.
  - intros L. destruct (decide (L = p)) as [->|Hne].
    + destruct (not_serving_empty p) as [E1 E2]; [by rewrite Hpc|]. unfold serves. cbn. rewrite fn_lookup_insert.
      unfold l. by destruct n.
    + eapply serves_frame; [| | | | |apply (H4 L)]; try done.
      * cbn. by rewrite fn_lookup_insert_ne.
      * intros q Hq Hr. cbn. rewrite Hrole; [done|]. intros ->. by destruct (Hpt L).
  - split; [by constructor|done].
  - intros q L [->|Hq]%elem_of_cons; [done|by apply H6].
  - done.
Qed.

(** A leader at work changes only its own list. *)
Lemma lists_serve p l' s' G' :
  role (pc s p) = Serving -> role l' <> Leading -> pc s' = <[p := l']> (pc s) ->
  procArrayGroupFirst s' = procArrayGroupFirst s ->
  (forall q, q ∉ taken G p -> procArrayGroupNext s' q = procArrayGroupNext s q) ->
  pend G' = pend G -> (forall L, L <> p -> taken G' L = taken G L /\ rest G' L = rest G L) ->
  taken G' p ⊆ taken G p -> NoDup (taken G' p) -> serves s' G' p -> lists_ok s' G'.
Proof.
  intros Hr Hl Epc Ef En Ep Et Hsub Hnd Hserve. pose proof Hok as [H1 H2 H3 H4 [H5 H5'] H6 H7].
  assert (Hpp : p ∉ pend G).
  { intros Hin. destruct H2 as [E|(L & Hh & HL)]; [rewrite E in Hin; by apply not_elem_of_nil in Hin|].
    destruct (heads_elem _ _ _ _ Hh Hin) as [->|?]; congruence. }
  assert (Hrole : forall q, q <> p -> role (pc s' q) = role (pc s q)).
  { intros q Hq. by rewrite Epc, fn_lookup_insert_ne. }
  assert (Hheads : forall L, heads s L (pend G) -> heads s' L (pend G)).
  { intros L. apply heads_frame. intros q Hq HW. rewrite Hrole; [done|]. by intros ->. }
  assert (Hin : forall q L, q ∈ taken G' L -> q ∈ taken G L).
  { intros q L. destruct (decide (L = p)) as [->|Hne]; [apply Hsub|]. by destruct (Et L Hne) as [-> _]. }
  constructor; rewrite ?Ep.
  - rewrite Ef. eapply chain_frame; [|exact H1]. intros q Hq. by apply En, H6.
  - destruct H2 as [?|(L & Hh & HL)]; [by left|right]. exists L. split; [by apply Hheads|].
    rewrite Hrole; [done|]. intros ->. congruence.
  - intros q Hq. apply Hheads, H3. rewrite Epc in Hq. destruct (decide (q = p)) as [->|Hne].
    + by rewrite fn_lookup_insert in Hq.
    + by rewrite fn_lookup_insert_ne in Hq.
  - intros L. destruct (decide (L = p)) as [->|Hne]; [done|]. destruct (Et L Hne) as [E1 E2].
    eapply serves_frame; [|exact E1|exact E2| | |apply (H4 L)].
    + by rewrite Epc, fn_lookup_insert_ne.
    + intros q Hq. apply En. intros Hq'. by destruct Hne, (H7 q L p).
    + intros q Hq HW. rewrite Hrole; [done|]. intros ->. congruence.
  - split; [done|]. intros L. destruct (decide (L = p)) as [->|Hne]; [done|]. by destruct (Et L Hne) as [-> _].
  - intros q L Hq HL. by apply (H6 q L Hq), Hin.
  - intros q L L' HL HL'. by apply (H7 q); apply Hin.
Qed.

(** [p] takes the list over. *)
Lemma lists_exchange p :
  pc s p = PExchange ->
  lists_ok (goto p (PClear (procArrayGroupFirst s) (procArrayGroupFirst s)) (set_first None s))
    (mkGhost [] (<[p := pend G]> (taken G)) (<[p := pend G]> (rest G)) (log G) (unl G)).
Proof.
  intros Hpc. pose proof Hok as [H1 H2 H3 H4 [H5 H5'] H6 H7]. destruct (H3 p) as (w & E & Hw); [by rewrite Hpc|].
  assert (Hpw : p ∉ w) by (rewrite E in H5; apply NoDup_app in H5 as (_ & Hd & _); intros Hp; apply (Hd p Hp); by left).
  assert (Hpend : heads s p (pend G)) by (by exists w).
  set (l := PClear _ _). assert (Hrole : forall q, q <> p -> role (<[p := l]> (pc s) q) = role (pc s q)).
  { intros q Hq. by rewrite fn_lookup_insert_ne. }
  assert (Hlead : forall q, role (pc s q) = Leading -> q = p).
  { intros q Hq. destruct (H3 q Hq) as (w' & E' & _). rewrite E in E'. by apply app_inj_tail in E' as [_ ?]. }
  constructor; cbn [procArrayGroupNext procArrayGroupFirst goto set_first pend taken rest pc].
  - done.
  - by left.
  - intros q Hq. destruct (decide (q = p)) as [->|Hne]; [by rewrite fn_lookup_insert in Hq|].
    rewrite Hrole in Hq by done. by apply Hlead in Hq.
  - intros L. destruct (decide (L = p)) as [->|Hne].
    + unfold serves. cbn. rewrite !fn_lookup_insert. unfold l. split_and!; [done|done|by exists []|].
      exists w. split; [done|]. intros q Hq. cbn. rewrite Hrole; [by apply Hw|]. by intros ->.
    + eapply serves_frame; [| | | | |apply (H4 L)].
      * cbn. by rewrite fn_lookup_insert_ne.
      * cbn. by rewrite fn_lookup_insert_ne.
      * cbn. by rewrite fn_lookup_insert_ne.
      * done.
      * intros q Hq Hr. cbn. rewrite Hrole; [done|]. intros ->. by rewrite Hpc in Hr.
  - split; [constructor|]. intros L. destruct (decide (L = p)) as [->|Hne]; [by rewrite fn_lookup_insert|].
    by rewrite fn_lookup_insert_ne.
  - intros q L Hq. by apply not_elem_of_nil in Hq.
  - intros q L L'. destruct (decide (L = p)) as [->|Hne], (decide (L' = p)) as [->|Hne'];
      rewrite ?fn_lookup_insert, ?fn_lookup_insert_ne by done; [done| | |by apply H7].
    + intros Hq Hq'. by apply H6 in Hq'.
    + intros Hq Hq'. by apply H6 in Hq.
Qed.
End Lists.
