(* ===== verification/ProcGroupRun.v ===== *)
(** * ProcGroupRun: every group of ending transactions gets through

    The invariant of the steps of [ProcArrayGroupClearXid], a measure that
    every step decreases, and the absence of deadlock. *)

From stdpp Require Import functions.
From S2P Require Import Prelude TransactionId KnownXids ProcArray ProcInv ProcRun ProcExample ProcGroup.

(** The values of a function after an assignment, at and beside [p]. *)
Ltac at_proc q p :=
  destruct (decide (q = p)) as [->|];
  rewrite ?fn_lookup_insert, ?fn_lookup_insert_ne in * by done.

Definition holds_lock (l : GroupPc) : bool := match l with PExchange | PClear _ _ => true | _ => false end.

Definition follower (l : GroupPc) : bool :=
  match l with PSleep _ | PCheck _ | PFix _ | PFollowed => true | _ => false end.

Definition released (l : GroupPc) : bool := match l with PFix _ | PFollowed => true | _ => false end.

(** The count [n] of a semaphore that started at [n0] and was unlocked [u]
    times by the leader: what was taken is given back at the end. *)
Definition sem_ok (l : GroupPc) (n n0 u : nat) : Prop :=
  match l with
  | PSleep e => (n + e = n0 + u /\ e <= n0)%nat
  | PCheck e | PFix e => (n + e + 1 = n0 + u)%nat
  | PFollowed => (n + 1 = n0 + u)%nat
  | _ => n = n0
  end.

(** When one summand pays for what the others gain. *)
Lemma sum_le (f f' : nat -> nat) d l : (forall q, q ∈ l -> f' q <= f q + d)%nat ->
  (sum_list_with f' l <= sum_list_with f l + d * length l)%nat.
Proof.
  induction l as [|q l IH]; intros H; cbn; [lia|]. specialize (IH (fun r Hr => H r (list_elem_of_further _ _ _ Hr))).
  specialize (H q (list_elem_of_here _ _)). lia.
Qed.

Lemma sum_pays (f f' : nat -> nat) p d l :
  NoDup l -> p ∈ l -> (forall q, q <> p -> f' q <= f q + d)%nat ->
  (sum_list_with f' l + f p <= sum_list_with f l + f' p + d * length l)%nat.
Proof.
  intros Hnd Hp H. induction Hnd as [|q l Hq Hnd IH]; [by apply not_elem_of_nil in Hp|]. cbn.
  apply elem_of_cons in Hp as [->|Hp].
  - assert (Hl : forall r, r ∈ l -> (f' r <= f r + d)%nat) by (intros r Hr; apply H; by intros ->).
    apply sum_le in Hl. lia.
  - specialize (IH Hp). assert (q <> p) by (by intros ->). specialize (H q ltac:(done)). lia.
Qed.

Section Run.
Context (ps : list nat) (latest : nat -> TransactionId) (m0 : ProcShared) (sem0 : nat -> nat).

Definition end_all (l : list nat) : ProcShared :=
  foldl (fun m p => ProcArrayEndTransactionInternal p (latest p) m) m0 l.

Definition waking (s : Group) (p : nat) : Prop := exists L w, pc s L = PUnlock p w.

(** The wakeup of a follower is under way until the leader has unlocked. *)
Definition unl_ok (l : GroupPc) (u : nat) (member : bool) (waking : Prop) : Prop :=
  if follower l then
    (u = 0%nat /\ (member = true \/ waking) \/ u = 1%nat /\ member = false) /\
    (released l = true -> member = false)
  else u = 0%nat.

Lemma unl_ok_ext l u member (P Q : Prop) : (P -> Q) -> unl_ok l u member P -> unl_ok l u member Q.
Proof. unfold unl_ok. destruct (follower l); tauto. Qed.

Record group_ok (s : Group) (G : Ghost) : Prop := {
  go_lists : lists_ok s G;
  go_member : forall p, listed G p ->
    procArrayGroupMember s p = true /\ procArrayGroupMemberXid s p = latest p /\ p ∈ ps;
  go_waiting : forall p, role (pc s p) = Waiting -> procArrayGroupMember s p = true -> listed G p;
  go_announced : forall p, role (pc s p) = Arriving -> p ∈ ps /\
    (pc s p = PStart \/ procArrayGroupMember s p = true /\ procArrayGroupMemberXid s p = latest p);
  go_cas : forall p n, pc s p = PCas n -> procArrayGroupNext s p = n;
  go_lock : forall p, ProcArrayLock s = Some p <-> holds_lock (pc s p) = true;
  go_sem : forall p, sem_ok (pc s p) (sem s p) (sem0 p) (unl G p);
  go_unl : forall p, unl_ok (pc s p) (unl G p) (procArrayGroupMember s p) (waking s p);
  go_unlock : forall L L' q w w', pc s L = PUnlock q w -> pc s L' = PUnlock q w' -> L = L';
  go_unlocking : forall L q w, pc s L = PUnlock q w ->
    follower (pc s q) = true /\ unl G q = 0%nat /\ procArrayGroupMember s q = false;
  go_log : NoDup (log G) /\ forall p, p ∈ log G <->
    p ∈ ps /\ role (pc s p) <> Arriving /\ (p ∉ pend G) /\ (forall L, p ∉ rest G L);
  go_mem : g_mem s = end_all (log G);
  go_ps : forall p, p ∉ ps -> pc s p = PLed;
}.

(** A step of [p] that is of no concern to the others. *)
Record private (p : nat) (l' : GroupPc) (s s' : Group) (G : Ghost) : Prop := {
  pv_mem : g_mem s' = g_mem s;
  pv_first : procArrayGroupFirst s' = procArrayGroupFirst s;
  pv_lock : ProcArrayLock s' = ProcArrayLock s;
  pv_pc : pc s' = <[p := l']> (pc s);
  pv_next : forall q, q <> p \/ listed G p -> procArrayGroupNext s' q = procArrayGroupNext s q;
  pv_member : forall q, q <> p \/ role l' <> Arriving -> procArrayGroupMember s' q = procArrayGroupMember s q;
  pv_xid : forall q, q <> p \/ role l' <> Arriving -> procArrayGroupMemberXid s' q = procArrayGroupMemberXid s q;
  pv_sem : forall q, q <> p -> sem s' q = sem s q;
  pv_roles : role (pc s p) = role l' /\ (role l' = Arriving \/ role l' = Waiting \/ role l' = Finished) \/
    role (pc s p) = Waiting /\ role l' = Finished /\ procArrayGroupMember s p = false;
  pv_follower : follower l' = follower (pc s p);
}.

Lemma private_ok p l' s s' G :
  p ∈ ps -> private p l' s s' G -> group_ok s G ->
  (role l' = Arriving -> procArrayGroupMember s' p = true /\ procArrayGroupMemberXid s' p = latest p) ->
  (forall n, l' = PCas n -> procArrayGroupNext s' p = n) ->
  sem_ok l' (sem s' p) (sem0 p) (unl G p) ->
  (released l' = true -> procArrayGroupMember s' p = false) ->
  group_ok s' G.
Proof.
  intros Hp [E1 E2 E3 Epc En Em Ex Es Hr Hfol] [H1 H2 H3 H4 H5 H6 H7 H8 H9 H10 H11 H12 H13] HA HC HS HR.
  assert (Hserve : role (pc s p) <> Serving /\ role l' <> Serving /\ role (pc s p) <> Leading /\ role l' <> Leading).
  { destruct Hr as [[-> [->|[->| ->]]]|(-> & -> & _)]; done. }
  assert (Hfin : listed G p -> role l' = role (pc s p)).
  { intros Hl. destruct Hr as [[-> _]|(_ & _ & Hf)]; [done|]. destruct (H2 p Hl). congruence. }
  assert (Harr : role l' = Arriving -> role (pc s p) = Arriving) by (intros E; destruct Hr as [[-> _]|(_ & ? & _)]; congruence).
  assert (Harr' : role (pc s p) = Arriving -> role l' = Arriving) by (intros E; destruct Hr as [[<- _]|(? & _)]; congruence).
  assert (Hnolist : role l' = Arriving -> ~ listed G p) by (intros E; eapply arriving_unlisted; [exact H1|by apply Harr]).
  assert (Hmem : forall q, role (pc s q) <> Arriving -> procArrayGroupMember s' q = procArrayGroupMember s q).
  { intros q Hq. apply Em. destruct (decide (q = p)) as [->|]; [right; auto|by left]. }
  assert (Hunl : forall L q w, <[p := l']> (pc s) L = PUnlock q w <-> pc s L = PUnlock q w).
  { intros L q w. at_proc L p; [|done]. destruct Hserve as (? & ? & _). split; intros E; rewrite E in *; done. }
  assert (Hlk : holds_lock l' = false /\ holds_lock (pc s p) = false).
  { destruct Hserve as (? & ? & ? & ?). by destruct l', (pc s p). }
  constructor; rewrite ?Epc.
  - eapply lists_frame; [done| |intros q|exact H1].
    + intros q Hl. apply En. destruct (decide (q = p)) as [->|]; [by right|by left].
    + rewrite Epc. at_proc q p; [|by left]. right. destruct Hserve as (? & ? & ? & ?). split_and!; [done|done|].
      destruct Hr as [[-> _]|(_ & HF & Hf)]; [by left|right]. split; [|by rewrite HF]. intros Hl. destruct (H2 p Hl). congruence.
  - intros q Hq. destruct (H2 q Hq) as (? & ? & ?). destruct (decide (q = p)) as [->|Hne].
    + split_and!; [rewrite Em; [done|right]|rewrite Ex; [done|right]|done]; intros E; by destruct (Hnolist E).
    + rewrite Em, Ex by (by left). done.
  - intros q Hq Hm. at_proc q p.
    + destruct Hr as [[Er _]|(_ & ? & _)]; [|congruence]. rewrite <- Er in Hq. apply H3; [done|]. by rewrite <- Hmem by congruence.
    + rewrite Em in Hm by (by left). by apply H3.
  - intros q Hq. at_proc q p; [by split; [|right; apply HA]|]. destruct (H4 q Hq) as [? Hor]. split; [done|].
    by rewrite Em, Ex by (by left).
  - intros q n Hq. at_proc q p; [by apply HC|]. rewrite En by (by left). by apply H5.
  - intros q. rewrite E3, H6. at_proc q p; [|done]. destruct Hlk as [-> ->]. done.
  - intros q. at_proc q p; [done|]. by rewrite Es.
  - intros q. eapply unl_ok_ext; [|]; swap 1 2.
    + specialize (H8 q). instantiate (1 := waking s q). at_proc q p; [|by rewrite Em by (by left)].
      revert H8. unfold unl_ok. rewrite Hfol. destruct (follower (pc s p)) eqn:Hf; [|done].
      rewrite (Hmem p) in * by (by destruct (pc s p)). intros [H8 _]. split; [done|]. exact HR.
    + intros (L & w & HL). exists L, w. rewrite Epc. by apply Hunl.
  - intros L L' q w w' HL HL'. rewrite Hunl in HL, HL'. by eapply H9.
  - intros L q w HL. rewrite Hunl in HL. destruct (H10 L q w HL) as (? & ? & Hm). split_and!; [by at_proc q p; [rewrite Hfol|]|done|].
    rewrite Hmem; [done|]. by destruct (pc s q).
  - destruct H11 as [? H11]. split; [done|]. intros q. rewrite H11. at_proc q p; [|done].
    split; (intros (? & ? & ? & ?); split_and!; [done| |done|done]); auto.
  - by rewrite E1.
  - intros q Hq. rewrite fn_lookup_insert_ne by (by intros ->). by apply H13.
Qed.

(** A step of a leader: what has to be shown beside the lists. *)
Lemma leader_ok p l' s s' G G' :
  group_ok s G -> p ∈ ps -> role (pc s p) = Leading \/ role (pc s p) = Serving ->
  role l' = Leading \/ role l' = Serving \/ l' = PLed ->
  pc s' = <[p := l']> (pc s) -> lists_ok s' G' ->
  procArrayGroupMemberXid s' = procArrayGroupMemberXid s ->
  (forall q, listed G' q -> listed G q /\ procArrayGroupMember s' q = procArrayGroupMember s q) ->
  (forall q, procArrayGroupMember s' q = procArrayGroupMember s q \/
     ~ listed G' q /\ listed G q /\ procArrayGroupMember s' q = false /\ (q = p \/ exists w, l' = PUnlock q w)) ->
  (forall q, role (pc s q) = Waiting -> procArrayGroupMember s' q = true -> listed G q -> listed G' q) ->
  (forall q, role (pc s q) = Arriving -> procArrayGroupNext s' q = procArrayGroupNext s q) ->
  (forall q, ProcArrayLock s' = Some q <-> holds_lock (<[p := l']> (pc s) q) = true) ->
  (forall q, q <> p -> follower (pc s q) = true ->
     sem s' q = sem s q /\ unl G' q = unl G q /\ (forall w, pc s p <> PUnlock q w) \/
     exists w, pc s p = PUnlock q w /\ sem s' q = S (sem s q) /\ unl G' q = 1%nat) ->
  (forall q, q = p \/ follower (pc s q) = false -> sem s' q = sem s q /\ unl G' q = unl G q) ->
  (forall q w, l' = PUnlock q w -> procArrayGroupMember s' q = false /\ listed G q /\ role (pc s q) = Waiting) ->
  NoDup (log G') ->
  (forall q, q ∈ log G' <-> q ∈ ps /\ role (pc s q) <> Arriving /\ (q ∉ pend G') /\ (forall L, q ∉ rest G' L)) ->
  g_mem s' = end_all (log G') ->
  group_ok s' G'.
Proof.
  intros [H1 H2 H3 H4 H5 H6 H7 H8 H9 H10 H11 H12 H13] Hp Hr Hr' Epc HL Ex Hli Hme Hwt Hnx Hlk Hsm Hsm' Hul Hnd Hlg Hmm.
  assert (Hfp : follower (pc s p) = false /\ role (pc s p) <> Arriving /\ role (pc s p) <> Waiting).
  { destruct (pc s p), Hr as [?|?]; done. }
  assert (Hfl : follower l' = false /\ role l' <> Arriving /\ role l' <> Waiting).
  { destruct Hr' as [?|[?|E]]; [by destruct l'..|by rewrite E]. }
  destruct Hfp as (Hfp & Hra & Hrw), Hfl as (Hfl & Hra' & Hrw').
  assert (Hmono : forall q, procArrayGroupMember s' q = true -> procArrayGroupMember s q = true).
  { intros q Hq. destruct (Hme q) as [<-|(_ & _ & ? & _)]; [done|congruence]. }
  constructor; rewrite ?Epc, ?Ex; try done.
  - intros q Hq. destruct (Hli q Hq) as [Hq' ->]. by apply H2.
  - intros q Hq Hm. at_proc q p; [done|]. apply Hwt; [done|done|]. by apply H3; [|apply Hmono].
  - intros q Hq. at_proc q p; [done|]. destruct (H4 q Hq) as [? Hor]. split; [done|].
    destruct (Hme q) as [->|(_ & Hq' & _)]; [done|]. by destruct (arriving_unlisted s G H1 q Hq).
  - intros q n Hq. at_proc q p; [by subst l'|]. rewrite Hnx by (by rewrite Hq). by apply H5.
  - intros q. at_proc q p.
    + destruct (Hsm' p) as [-> ->]; [by left|]. specialize (H7 p). destruct (pc s p), l'; done.
    + specialize (H7 q). destruct (follower (pc s q)) eqn:Hf.
      * destruct (Hsm q) as [(-> & -> & _)|(w & Hw & -> & ->)]; [done|done|done|].
        destruct (H10 p q w Hw) as (_ & E & _). rewrite E in H7. destruct (pc s q); cbn in *; lia.
      * destruct (Hsm' q) as [-> ->]; [by right|done].
  - intros q. at_proc q p; [|].
    { unfold unl_ok. rewrite Hfl. destruct (Hsm' p) as [_ ->]; [by left|]. specialize (H8 p). unfold unl_ok in H8. by rewrite Hfp in H8. }
    specialize (H8 q). unfold unl_ok in *. destruct (follower (pc s q)) eqn:Hf.
    + destruct H8 as [H8 H8r].
      assert (Hmf : procArrayGroupMember s q = false -> procArrayGroupMember s' q = false).
      { intros E. apply not_true_iff_false. intros E'. apply Hmono in E'. congruence. }
      split; [|auto]. destruct (Hsm q) as [(_ & -> & Hnw)|(w & Hw & _ & ->)]; [done|done| |].
      * destruct H8 as [[-> H8]|[-> ?]]; [left|right; auto]. split; [done|].
        destruct (Hme q) as [->|(_ & _ & _ & [?|[w ->]])]; [|done|right; exists p, w; by rewrite Epc, fn_lookup_insert].
        destruct H8 as [?|(L & w & HLw)]; [by left|right]. exists L, w. rewrite Epc. rewrite fn_lookup_insert_ne; [done|].
        intros ->. by destruct (Hnw w).
      * right. split; [done|]. apply Hmf. by destruct (H10 p q w Hw) as (_ & _ & ?).
    + destruct (Hsm' q) as [_ ->]; [by right|done].
  - intros L L' q w w' HLu HLu'. at_proc L p; at_proc L' p; try done.
    + destruct (Hul q w HLu) as (_ & Hq & _). destruct (H2 q Hq) as [Hm _].
      destruct (H10 L' q w' HLu') as (_ & _ & Hm'). congruence.
    + destruct (Hul q w' HLu') as (_ & Hq & _). destruct (H2 q Hq) as [Hm _].
      destruct (H10 L q w HLu) as (_ & _ & Hm'). congruence.
    + by eapply H9.
  - intros L q w HLu. at_proc L p.
    + destruct (Hul q w HLu) as (Hm' & Hq & HW). destruct (H2 q Hq) as [Hm _].
      assert (q <> p) by (intros ->; congruence). assert (Hf : follower (pc s q) = true) by (by destruct (pc s q)).
      rewrite fn_lookup_insert_ne by done. split_and!; [done| |done]. specialize (H8 q). unfold unl_ok in H8. rewrite Hf in H8.
      destruct (Hsm q) as [(_ & -> & _)|(w' & Hw & _)]; [done|done| |].
      * destruct H8 as [[[? _]|[_ ?]] _]; [done|congruence].
      * destruct (H10 p q w' Hw) as (_ & _ & ?). congruence.
    + destruct (H10 L q w HLu) as (Hf & Hu & Hm). assert (q <> p) by (intros ->; congruence).
      rewrite fn_lookup_insert_ne by done. split_and!; [done| |].
      * destruct (Hsm q) as [(_ & -> & _)|(w' & Hw & _)]; [done..|]. by destruct (H9 L p q w w' HLu Hw).
      * apply not_true_iff_false. intros E. apply Hmono in E. congruence.
  - split; [done|]. intros q. rewrite Hlg. at_proc q p; [|done]. tauto.
  - intros q Hq. rewrite fn_lookup_insert_ne by (by intros ->). by apply H13.
Qed.

(** ** The measure *)

Abbreviation n := (length ps).

(** What is owed for a member of the global list, and of a leader's list. *)
Definition pend_cost : nat := 4 * n + 9.
Definition taken_cost : nat := 4 * n + 8.

(** A read of the head that is out of date costs another round. *)
Definition stale (s : Group) (idx : option nat) : nat := if decide (procArrayGroupFirst s = idx) then 0 else 3.

Definition weight (s : Group) (G : Ghost) (p : nat) : nat :=
  let arriving := (6 * n + 4 * sem s p + pend_cost)%nat in
  match pc s p with
  | PStart => arriving + 25
  | PRead => arriving + 24
  | PWrite idx => arriving + 23 + stale s idx
  | PCas idx => arriving + 22 + stale s idx
  | PSleep e => 4 * sem s p + e + 20
  | PCheck e => 4 * sem s p + e + 22
  | PFix e => e + 10
  | PLeader => 3 * n + 20
  | PExchange => 3 * n + 19
  | PClear _ _ => 18 + taken_cost * length (taken G p) + length (rest G p)
  | PWake _ => 17 + taken_cost * length (taken G p)
  | PWakeUp _ _ => 16 + taken_cost * length (taken G p)
  | PUnlock _ _ => 22 + 4 * n + taken_cost * length (taken G p)
  | PFollowed | PLed => 0
  end%nat.

Definition measure (s : Group) (G : Ghost) : nat := sum_list_with (weight s G) ps + pend_cost * length (pend G).

Lemma measure_decreases s s' G G' p d :
  NoDup ps -> p ∈ ps -> (forall q, q <> p -> weight s' G' q <= weight s G q + d)%nat ->
  (weight s' G' p + d * n + pend_cost * length (pend G') < weight s G p + pend_cost * length (pend G))%nat ->
  (measure s' G' < measure s G)%nat.
Proof.
  intros Hnd Hp Hq Hlt. unfold measure. pose proof (sum_pays (weight s G) (weight s' G') p d ps Hnd Hp Hq). lia.
Qed.

(** Others keep their weight when neither their semaphore nor the head of the
    list changes. *)
Lemma weight_same s s' G G' p l' q :
  q <> p -> pc s' = <[p := l']> (pc s) -> procArrayGroupFirst s' = procArrayGroupFirst s -> sem s' q = sem s q ->
  taken G' q = taken G q -> rest G' q = rest G q -> weight s' G' q = weight s G q.
Proof.
  intros Hq Epc Ef Es Et Er. unfold weight, stale. rewrite Epc, fn_lookup_insert_ne, Ef, Es, Et, Er by done. done.
Qed.

(** When the head changes, reads of it may become out of date. *)
Lemma weight_stale s s' G G' p l' q :
  q <> p -> pc s' = <[p := l']> (pc s) -> sem s' q = sem s q -> taken G' q = taken G q -> rest G' q = rest G q ->
  (weight s' G' q <= weight s G q + 3)%nat.
Proof.
  intros Hq Epc Es Et Er. unfold weight, stale. rewrite Epc, fn_lookup_insert_ne, Es, Et, Er by done.
  destruct (pc s q); repeat case_decide; lia.
Qed.

(** ** Steps *)

Context (Hnd : NoDup ps).

Definition good_step (s s' : Group) (G : Ghost) : Prop :=
  exists G', group_ok s' G' /\ (measure s' G' < measure s G)%nat.

Lemma private_step p l' s s' G :
  p ∈ ps -> private p l' s s' G -> group_ok s G ->
  (role l' = Arriving -> procArrayGroupMember s' p = true /\ procArrayGroupMemberXid s' p = latest p) ->
  (forall n, l' = PCas n -> procArrayGroupNext s' p = n) ->
  sem_ok l' (sem s' p) (sem0 p) (unl G p) ->
  (released l' = true -> procArrayGroupMember s' p = false) ->
  (weight s' G p < weight s G p)%nat -> good_step s s' G.
Proof.
  intros Hp Hpv Hok HA HC HS HR Hw. exists G. split; [by eapply private_ok|].
  eapply (measure_decreases s s' G G p 0); [done|done| |lia].
  intros q Hq. rewrite (weight_same s s' G G p l' q); [lia|done|apply Hpv..|done|done]. done.
Qed.

Lemma arriving_step p l' s s' G :
  p ∈ ps -> group_ok s G -> role (pc s p) = Arriving -> role l' = Arriving ->
  g_mem s' = g_mem s -> procArrayGroupFirst s' = procArrayGroupFirst s -> ProcArrayLock s' = ProcArrayLock s ->
  pc s' = <[p := l']> (pc s) -> sem s' = sem s ->
  (forall q, q <> p -> procArrayGroupNext s' q = procArrayGroupNext s q) ->
  (forall q, q <> p -> procArrayGroupMember s' q = procArrayGroupMember s q) ->
  (forall q, q <> p -> procArrayGroupMemberXid s' q = procArrayGroupMemberXid s q) ->
  procArrayGroupMember s' p = true /\ procArrayGroupMemberXid s' p = latest p ->
  (forall n, l' = PCas n -> procArrayGroupNext s' p = n) ->
  (weight s' G p < weight s G p)%nat -> good_step s s' G.
Proof.
  intros Hp Hok Hr Hl E1 E2 E3 Epc Es En Em Ex HA HC Hw.
  assert (Hun : ~ listed G p) by (by eapply arriving_unlisted; [apply Hok|]).
  eapply (private_step p l'); try done.
  - constructor; try done.
    + intros q [?|?]; [by apply En|done].
    + intros q [?|?]; [by apply Em|done].
    + intros q [?|?]; [by apply Ex|done].
    + by rewrite Es.
    + left. split; [congruence|by left].
    + by destruct l', (pc s p).
  - rewrite Es. pose proof (go_sem _ _ Hok p) as H. destruct (pc s p), l'; done.
  - by destruct l'.
Qed.

Lemma step_arrive p s s' G :
  p ∈ ps -> group_ok s G -> ProcArrayGroupClearXid (latest p) p s = Some s' ->
  role (pc s p) = Arriving -> (forall idx, pc s p = PCas idx -> procArrayGroupFirst s <> idx) -> good_step s s' G.
Proof.
  intros Hp Hok Hst Hr Hne. destruct (go_announced _ _ Hok p Hr) as [_ Hann]. unfold ProcArrayGroupClearXid in Hst.
  destruct (pc s p) as [| |idx|idx| | | | | | | | | | |] eqn:Hpc; try done.
  - injection Hst as <-. eapply (arriving_step p PRead); try done; try (by rewrite Hpc); cbn.
    1-2: intros q Hq; by rewrite fn_lookup_insert_ne.
    + by rewrite !fn_lookup_insert.
    + unfold weight. cbn. rewrite fn_lookup_insert, Hpc. lia.
  - destruct Hann as [?|Hann]; [done|]. injection Hst as <-.
    eapply (arriving_step p (PWrite (procArrayGroupFirst s))); try done; try (by rewrite Hpc).
    unfold weight, stale. cbn. rewrite fn_lookup_insert, Hpc, decide_True by done. lia.
  - destruct Hann as [?|Hann]; [done|]. injection Hst as <-.
    eapply (arriving_step p (PCas idx)); try done; try (by rewrite Hpc); cbn.
    + intros q Hq. by rewrite fn_lookup_insert_ne.
    + intros m [= ->]. by rewrite fn_lookup_insert.
    + unfold weight, stale. cbn. rewrite fn_lookup_insert, Hpc. lia.
  - destruct Hann as [?|Hann]; [done|]. rewrite decide_False in Hst by auto. injection Hst as <-.
    eapply (arriving_step p (PWrite (procArrayGroupFirst s))); try done; try (by rewrite Hpc).
    unfold weight, stale. cbn. rewrite fn_lookup_insert, Hpc, decide_True, decide_False by auto. lia.
Qed.

(** Steps of followers only touch their semaphore. *)
Lemma follower_step p l' s s' G :
  p ∈ ps -> group_ok s G -> s' = goto p l' s \/ (exists k, s' = goto p l' (set_sem p k s)) ->
  role (pc s p) = role l' \/ role l' = Finished /\ procArrayGroupMember s p = false ->
  follower (pc s p) = true -> follower l' = true -> sem_ok l' (sem s' p) (sem0 p) (unl G p) ->
  (released l' = true -> procArrayGroupMember s p = false) ->
  (weight s' G p < weight s G p)%nat -> good_step s s' G.
Proof.
  intros Hp Hok Hs' Hr Hf Hf' Hs HR Hw.
  assert (Hpv : private p l' s s' G).
  { assert (Hroles : role (pc s p) = role l' /\ (role l' = Arriving \/ role l' = Waiting \/ role l' = Finished) \/
      role (pc s p) = Waiting /\ role l' = Finished /\ procArrayGroupMember s p = false).
    { destruct (pc s p), l'; cbn in *; try done; destruct Hr as [?|[? ?]]; try done; auto. }
    destruct Hs' as [->|[k ->]]; constructor; try done; try congruence.
    intros q Hq. cbn. by rewrite fn_lookup_insert_ne. }
  eapply (private_step p l'); try done.
  - by destruct l'.
  - by destruct l'.
  - intros HRl. destruct Hs' as [->|[k ->]]; by apply HR.
Qed.

Lemma step_follow p s s' G :
  p ∈ ps -> group_ok s G -> ProcArrayGroupClearXid (latest p) p s = Some s' -> follower (pc s p) = true ->
  good_step s s' G.
Proof.
  intros Hp Hok Hst Hf. pose proof (go_sem _ _ Hok p) as Hs. pose proof (go_unl _ _ Hok p) as Hu.
  unfold ProcArrayGroupClearXid in Hst. unfold unl_ok in Hu. rewrite Hf in Hu.
  destruct (pc s p) as [| | | |e|e|e| | | | | | | |] eqn:Hpc; try done; cbn in Hs.
  - destruct (sem s p) as [|k] eqn:Hk; [done|]. injection Hst as <-. apply (follower_step p (PCheck e)); try done; eauto.
    + rewrite Hpc. auto.
    + by rewrite Hpc.
    + cbn. rewrite fn_lookup_insert. lia.
    + unfold weight. cbn. rewrite !fn_lookup_insert, Hpc, Hk. lia.
  - injection Hst as <-. destruct (procArrayGroupMember s p) eqn:Hm.
    + apply (follower_step p (PSleep (S e))); try done; eauto.
      * rewrite Hpc. auto.
      * by rewrite Hpc.
      * cbn. destruct Hu as [[[? _]|[_ ?]] _]; [lia|done].
      * unfold weight. cbn. rewrite !fn_lookup_insert, Hpc. lia.
    + apply (follower_step p (PFix e)); try done; eauto.
      * by rewrite Hpc.
      * unfold weight. cbn. rewrite !fn_lookup_insert, Hpc. lia.
  - destruct Hu as [_ Hm]. specialize (Hm eq_refl). destruct e as [|e]; injection Hst as <-.
    + apply (follower_step p PFollowed); try done; eauto.
      * by rewrite Hpc.
      * cbn. lia.
      * unfold weight. cbn. rewrite !fn_lookup_insert, Hpc. lia.
    + apply (follower_step p (PFix e)); try done; eauto.
      * by rewrite Hpc.
      * cbn. rewrite fn_lookup_insert. lia.
      * unfold weight. cbn. rewrite !fn_lookup_insert, Hpc. lia.
Qed.

(** [p] becomes a member. *)
Lemma step_push p idx s G :
  p ∈ ps -> group_ok s G -> pc s p = PCas idx -> procArrayGroupFirst s = idx ->
  good_step s (goto p (match idx with None => PLeader | Some _ => PSleep 0 end) (set_first (Some p) s)) G.
Proof.
  intros Hp Hok Hpc Hf. pose proof Hok as [H1 H2 H3 H4 H5 H6 H7 H8 H9 H10 H11 H12 H13].
  assert (Hra : role (pc s p) = Arriving) by (by rewrite Hpc).
  destruct (H4 p Hra) as [_ [?|[Hm Hx]]]; [congruence|].
  assert (Hun : ~ listed G p) by (by eapply arriving_unlisted).
  set (l := match idx with None => PLeader | Some _ => PSleep 0 end).
  assert (Hl : role l <> Arriving /\ holds_lock l = false /\ forall q w, l <> PUnlock q w) by (unfold l; by destruct idx).
  destruct Hl as (Hl & Hlk & Hlu).
  assert (Hpu : forall q w, pc s p <> PUnlock q w) by (intros; congruence).
  exists (mkGhost (p :: pend G) (taken G) (rest G) (log G) (unl G)). split.
  - constructor; cbn [pc goto set_first procArrayGroupMember procArrayGroupMemberXid procArrayGroupNext ProcArrayLock sem g_mem
      pend taken rest log unl]; try done.
    + by apply lists_push; [|done|apply H5|].
    + intros q [[->|Hq]%elem_of_cons|[L Hq]]; [done|apply H2; by left|apply H2; by right; exists L].
    + intros q Hq Hmq. destruct (decide (q = p)) as [->|Hne]; [left; by left|]. rewrite fn_lookup_insert_ne in Hq by done.
      destruct (H3 q Hq Hmq) as [?|?]; [left; by right|by right].
    + intros q Hq. at_proc q p; [done|by apply H4].
    + intros q m Hq. at_proc q p; [by rewrite Hq in Hl|by apply H5].
    + intros q. rewrite H6. at_proc q p; [|done]. by rewrite Hpc, Hlk.
    + intros q. at_proc q p; [|done]. specialize (H7 p). specialize (H8 p). unfold unl_ok in H8. rewrite Hpc in H7, H8. cbn in *.
      unfold l. destruct idx; cbn; [lia|done].
    + intros q. apply (unl_ok_ext _ _ _ (waking s q)).
      * intros (L & w & HLw). exists L, w. cbn. rewrite fn_lookup_insert_ne; [done|]. intros ->. by destruct (Hpu q w).
      * at_proc q p; [|done]. specialize (H8 p). unfold unl_ok in *. rewrite Hpc in H8. cbn in H8. rewrite Hm, H8.
        unfold l. destruct idx; cbn; [|done]. split; [left; auto|done].
    + intros L L' q w w' HL HL'. at_proc L p; [by destruct (Hlu q w)|]. at_proc L' p; [by destruct (Hlu q w')|]. by eapply H9.
    + intros L q w HL. at_proc L p; [by destruct (Hlu q w)|]. destruct (H10 L q w HL) as (? & ? & ?).
      at_proc q p; [congruence|done].
    + destruct H11 as [? H11]. split; [done|]. intros q. rewrite H11. destruct (decide (q = p)) as [->|Hne].
      * split; [by intros (_ & ? & _)|]. intros (_ & _ & Hn & _). destruct Hn. by left.
      * rewrite fn_lookup_insert_ne by done. rewrite not_elem_of_cons. tauto.
    + intros q Hq. rewrite fn_lookup_insert_ne by (by intros ->). by apply H13.
  - apply (measure_decreases s _ G _ p 3); [done|done| |].
    + intros q Hq. by apply (weight_stale s _ G _ p l).
    + unfold weight, stale. cbn. rewrite fn_lookup_insert, Hpc, decide_True by done. unfold l. destruct idx; lia.
Qed.

(** Steps of a leader that leave flags and semaphores alone. *)
Lemma leader_quiet p l' s s' G G' :
  group_ok s G -> p ∈ ps -> role (pc s p) = Leading \/ role (pc s p) = Serving ->
  role l' = Leading \/ role l' = Serving \/ l' = PLed ->
  (forall q w, pc s p <> PUnlock q w /\ l' <> PUnlock q w) ->
  pc s' = <[p := l']> (pc s) -> lists_ok s' G' ->
  procArrayGroupMemberXid s' = procArrayGroupMemberXid s -> procArrayGroupMember s' = procArrayGroupMember s ->
  sem s' = sem s -> unl G' = unl G -> (forall q, listed G' q <-> listed G q) ->
  (forall q, role (pc s q) = Arriving -> procArrayGroupNext s' q = procArrayGroupNext s q) ->
  (forall q, ProcArrayLock s' = Some q <-> holds_lock (<[p := l']> (pc s) q) = true) ->
  NoDup (log G') ->
  (forall q, q ∈ log G' <-> q ∈ ps /\ role (pc s q) <> Arriving /\ (q ∉ pend G') /\ (forall L, q ∉ rest G' L)) ->
  g_mem s' = end_all (log G') -> group_ok s' G'.
Proof.
  intros Hok Hp Hr Hr' Hu Epc HL Ex Em Es Eu Hli Hnx Hlk Hn Hlg Hmm.
  eapply (leader_ok p l'); try done; rewrite ?Em, ?Es, ?Eu.
  - intros q Hq. split; [by apply Hli|done].
  - intros q. by left.
  - intros q _ _ Hq. by apply Hli.
  - intros q Hq Hf. left. split_and!; [done|done|]. intros w. apply Hu.
  - done.
  - intros q w Hl. by destruct (Hu q w).
Qed.

(** The lock changes hands only through [p]. *)
Lemma lock_moves s G p l' (h : option nat) :
  group_ok s G -> (holds_lock (pc s p) = true \/ ProcArrayLock s = None) ->
  h = (if holds_lock l' then Some p else None) ->
  forall q, h = Some q <-> holds_lock (<[p := l']> (pc s) q) = true.
Proof.
  intros Hok Hor -> q. pose proof (go_lock _ _ Hok) as Hl. at_proc q p.
  - destruct (holds_lock l'); split; congruence.
  - assert (Hq : holds_lock (pc s q) = false).
    { apply not_true_iff_false. intros Hq. apply Hl in Hq. destruct Hor as [Hp|?]; [apply Hl in Hp|]; congruence. }
    rewrite Hq. destruct (holds_lock l'); split; congruence.
Qed.

Lemma step_lock p s G :
  p ∈ ps -> group_ok s G -> pc s p = PLeader -> ProcArrayLock s = None ->
  good_step s (goto p PExchange (set_lock (Some p) s)) G.
Proof.
  intros Hp Hok Hpc Hlk. exists G. pose proof (go_log _ _ Hok) as [Hn Hlog]. split.
  - eapply (leader_quiet p PExchange); try done; try (rewrite Hpc; auto); try apply Hok.
    + by left.
    + eapply lists_frame; [..|apply Hok]; try done. intros q. cbn. at_proc q p; [right|by left]. rewrite Hpc. split_and!; auto.
    + by apply (lock_moves s G); [|right|].
  - apply (measure_decreases s _ G _ p 0); [done|done| |].
    + intros q Hq. rewrite (weight_same s _ G G p PExchange); [lia|done..].
    + unfold weight. cbn. rewrite fn_lookup_insert, Hpc. lia.
Qed.

Lemma step_exchange p s G :
  p ∈ ps -> group_ok s G -> pc s p = PExchange ->
  good_step s (goto p (PClear (procArrayGroupFirst s) (procArrayGroupFirst s)) (set_first None s)) G.
Proof.
  intros Hp Hok Hpc. pose proof (go_log _ _ Hok) as [Hn Hlog]. pose proof (go_lists _ _ Hok) as HL.
  destruct (not_serving_empty s G HL p) as [Et Er]; [by rewrite Hpc|].
  eexists. split; [eapply (leader_quiet p (PClear (procArrayGroupFirst s) (procArrayGroupFirst s)))|].
  7: by apply lists_exchange; [apply Hok|].
  all: cbn; try done; try (rewrite Hpc; auto; done).
  - by right; left.
  - intros q. unfold listed. cbn. split.
    + intros [Hq|[L Hq]]; [by apply not_elem_of_nil in Hq|]. at_proc L p; [by left|right; by exists L].
    + intros [Hq|[L Hq]]; [right; exists p; by rewrite fn_lookup_insert|]. right. exists L. at_proc L p; [|done].
      rewrite Et in Hq. by apply not_elem_of_nil in Hq.
  - apply (lock_moves s G); [done|left; by rewrite Hpc|]. apply (go_lock _ _ Hok). by rewrite Hpc.
  - intros q. rewrite Hlog. split; intros (A & B & C & D); (split_and!; [done|done| |]).
    + apply not_elem_of_nil.
    + intros L. at_proc L p; [done|apply D].
    + intros Hq. apply (D p). by rewrite fn_lookup_insert.
    + intros L. specialize (D L). at_proc L p; [|done]. rewrite Er. apply not_elem_of_nil.
  - apply Hok.
  - apply (measure_decreases s _ G _ p 3); [done|done| |].
    + intros q Hq. eapply (weight_stale s _ G _ p); try done; cbn; by rewrite fn_lookup_insert_ne.
    + unfold weight, pend_cost, taken_cost. cbn. rewrite !fn_lookup_insert, Hpc. nia.
Qed.

(** A leader at work, with an unchanged list of members to wake up. *)
Lemma serve_quiet p l' s s' G rest' log' :
  p ∈ ps -> group_ok s G -> role (pc s p) = Serving -> role l' = Serving \/ l' = PLed ->
  (forall q w, pc s p <> PUnlock q w /\ l' <> PUnlock q w) ->
  let G' := mkGhost (pend G) (taken G) (<[p := rest']> (rest G)) log' (unl G) in
  pc s' = <[p := l']> (pc s) -> procArrayGroupFirst s' = procArrayGroupFirst s ->
  procArrayGroupMemberXid s' = procArrayGroupMemberXid s -> procArrayGroupMember s' = procArrayGroupMember s ->
  sem s' = sem s -> (forall q, q ∉ taken G p -> procArrayGroupNext s' q = procArrayGroupNext s q) ->
  (forall q, ProcArrayLock s' = Some q <-> holds_lock (<[p := l']> (pc s) q) = true) ->
  serves s' G' p -> NoDup log' ->
  (forall q, q ∈ log' <-> q ∈ ps /\ role (pc s q) <> Arriving /\ (q ∉ pend G) /\ (forall L, q ∉ rest G' L)) ->
  g_mem s' = end_all log' -> (weight s' G' p < weight s G p)%nat -> good_step s s' G.
Proof.
  intros Hp Hok Hr Hr' Hu G' Epc Ef Ex Em Es En Hlk Hsv Hn Hlog Hmm Hw.
  pose proof (go_lists _ _ Hok) as HL. exists G'. split.
  - eapply (leader_quiet p l'); try done; [by right|by right|..].
    + eapply (lists_serve s G HL p l'); try done.
      * by destruct Hr' as [->| ->].
      * intros L HLp. cbn. by rewrite fn_lookup_insert_ne.
      * by apply HL.
    + intros q Hq. apply En. intros Hin. apply (arriving_unlisted s G HL q Hq). right. by exists p.
  - apply (measure_decreases s _ G _ p 0); [done|done| |cbn; lia].
    intros q Hq. rewrite (weight_same s _ G G' p l' q); [lia|done..| |done|].
    + by rewrite Es.
    + cbn. by rewrite fn_lookup_insert_ne.
Qed.

Lemma log_restart s G p : group_ok s G ->
  forall q, q ∈ log G <-> q ∈ ps /\ role (pc s q) <> Arriving /\ (q ∉ pend G) /\
    (forall L, q ∉ (<[p := rest G p]> (rest G)) L).
Proof.
  intros Hok q. destruct (go_log _ _ Hok) as [_ ->].
  assert (E : forall L, (<[p := rest G p]> (rest G)) L = rest G L) by (intros L; by at_proc L p). by setoid_rewrite E.
Qed.

Lemma step_clear p w q s G :
  p ∈ ps -> group_ok s G -> pc s p = PClear w (Some q) ->
  good_step s (goto p (PClear w (procArrayGroupNext s q))
    (set_mem (ProcArrayEndTransactionInternal q (procArrayGroupMemberXid s q) (g_mem s)) s)) G.
Proof.
  intros Hp Hok Hpc. pose proof (go_lists _ _ Hok) as HL. destruct (go_log _ _ Hok) as [Hn Hlog].
  pose proof (lo_serve _ _ HL p) as Hs. unfold serves in Hs. rewrite Hpc in Hs. destruct Hs as (A & B & (d & C) & D).
  destruct (chain_some _ _ _ q B eq_refl) as (r & Er & Hr).
  assert (Hq : q ∈ taken G p) by (rewrite C, Er; apply elem_of_app; right; by left).
  assert (Hql : listed G q) by (by right; exists p). destruct (go_member _ _ Hok q Hql) as (_ & Hx & Hqp).
  assert (Hqr : q ∉ r).
  { pose proof (proj2 (lo_nodup _ _ HL) p) as HN. rewrite C, Er in HN. apply NoDup_app in HN as (_ & _ & HN). by inversion HN. }
  assert (Hqlog : q ∉ log G) by (intros Hin; apply Hlog in Hin as (_ & _ & _ & Hin); apply (Hin p); rewrite Er; by left).
  assert (Hrsub : forall L q', q' ∈ rest G L -> q' ∈ taken G L).
  { intros L q' Hq'. pose proof (lo_serve _ _ HL L) as HS. unfold serves in HS.
    destruct (pc s L); try (destruct HS as (? & E & ?); rewrite E in Hq'; by apply not_elem_of_nil in Hq');
    try (destruct HS as (_ & E); rewrite E in Hq'; by apply not_elem_of_nil in Hq').
    destruct HS as (_ & _ & (d' & E) & _). rewrite E. apply elem_of_app. by right. }
  eapply (serve_quiet p _ s _ G r (log G ++ [q])); try done; try (by rewrite Hpc).
  - by left.
  - intros q'. cbn. rewrite (go_lock _ _ Hok). at_proc q' p; [by rewrite Hpc|done].
  - unfold serves. cbn. rewrite !fn_lookup_insert. split_and!; [done|done| |].
    + exists (d ++ [q]). by rewrite C, Er, <- app_assoc.
    + eapply heads_frame; [|exact D]. intros q' _ HW. cbn. at_proc q' p; [by rewrite Hpc in HW|done].
  - apply NoDup_app. split_and!; [done| |apply NoDup_singleton]. intros q' Hq'. by rewrite list_elem_of_singleton; intros ->.
  - intros q'. rewrite elem_of_app, list_elem_of_singleton, Hlog. cbn. split.
    + intros [(E1 & E2 & E3 & E4)| ->].
      * split_and!; [done..|]. intros L. at_proc L p; [|apply E4]. intros Hin. apply (E4 p). rewrite Er. by right.
      * split_and!; [done| | |].
        -- intros Ha. by apply (arriving_unlisted s G HL q).
        -- intros Hin. by apply (lo_apart _ _ HL q p).
        -- intros L. at_proc L p; [done|]. intros Hin. apply Hrsub in Hin. by destruct (lo_apart_taken _ _ HL q L p Hin Hq).
    + intros (E1 & E2 & E3 & E4). destruct (decide (q' = q)) as [->|Hne]; [by right|left]. split_and!; [done..|].
      intros L. specialize (E4 L). at_proc L p; [|done]. rewrite Er. by rewrite not_elem_of_cons.
  - cbn. unfold end_all. rewrite foldl_app. cbn. rewrite Hx. f_equal. apply (go_mem _ _ Hok).
  - unfold weight. cbn. rewrite !fn_lookup_insert, Hpc, Er. cbn. lia.
Qed.

Lemma step_clear_end p w s G :
  p ∈ ps -> group_ok s G -> pc s p = PClear w None -> good_step s (goto p (PWake w) (set_lock None s)) G.
Proof.
  intros Hp Hok Hpc. pose proof (go_lists _ _ Hok) as HL.
  pose proof (lo_serve _ _ HL p) as Hs. unfold serves in Hs. rewrite Hpc in Hs. destruct Hs as (A & B & _ & D).
  eapply (serve_quiet p _ s _ G (rest G p) (log G)); try done; try (by rewrite Hpc); try apply Hok.
  - by left.
  - apply (lock_moves s G); [done| |done]. left. by rewrite Hpc.
  - unfold serves. cbn. rewrite !fn_lookup_insert. split_and!; [done|by eapply chain_none|right].
    eapply heads_frame; [|exact D]. intros q' _ HW. cbn. at_proc q' p; [by rewrite Hpc in HW|done].
  - by apply log_restart.
  - unfold weight. cbn. rewrite !fn_lookup_insert, Hpc. lia.
Qed.

(** A leader past the lock. *)
Lemma lock_idle s G p l' :
  group_ok s G -> holds_lock (pc s p) = false -> holds_lock l' = false ->
  forall q, ProcArrayLock s = Some q <-> holds_lock (<[p := l']> (pc s) q) = true.
Proof. intros Hok H1 H2 q. rewrite (go_lock _ _ Hok). at_proc q p; [by rewrite H1, H2|done]. Qed.

Lemma step_wake p q s G :
  p ∈ ps -> group_ok s G -> pc s p = PWake (Some q) ->
  good_step s (goto p (PWakeUp q (procArrayGroupNext s q)) (set_link q None s)) G.
Proof.
  intros Hp Hok Hpc. pose proof (go_lists _ _ Hok) as HL.
  pose proof (lo_serve _ _ HL p) as Hs. unfold serves in Hs. rewrite Hpc in Hs. destruct Hs as (A & B & C).
  destruct (chain_some _ _ _ q A eq_refl) as (l & El & Hl).
  assert (Hq : q ∉ l) by (pose proof (proj2 (lo_nodup _ _ HL) p) as HN; rewrite El in HN; by inversion HN).
  eapply (serve_quiet p _ s _ G (rest G p) (log G)); try done; try (by rewrite Hpc); try apply Hok.
  - by left.
  - intros q' Hq'. cbn. rewrite fn_lookup_insert_ne; [done|]. intros ->. apply Hq'. rewrite El. by left.
  - apply (lock_idle s G); [done|by rewrite Hpc|done].
  - unfold serves. cbn. rewrite !fn_lookup_insert. split_and!; [|done|].
    + exists l. split; [done|]. by apply chain_insert.
    + destruct C as [C|C]; [congruence|]. eapply heads_frame; [|exact C]. intros q' _ HW. cbn.
      at_proc q' p; [by rewrite Hpc in HW|done].
  - by apply log_restart.
  - unfold weight. cbn. rewrite !fn_lookup_insert, Hpc. lia.
Qed.

Lemma step_led p s G :
  p ∈ ps -> group_ok s G -> pc s p = PWake None -> good_step s (goto p PLed s) G.
Proof.
  intros Hp Hok Hpc. pose proof (go_lists _ _ Hok) as HL.
  pose proof (lo_serve _ _ HL p) as Hs. unfold serves in Hs. rewrite Hpc in Hs. destruct Hs as (A & B & C).
  eapply (serve_quiet p _ s _ G (rest G p) (log G)); try done; try (by rewrite Hpc); try apply Hok.
  - by right.
  - apply (lock_idle s G); [done|by rewrite Hpc|done].
  - unfold serves. cbn. rewrite !fn_lookup_insert. split; [by eapply chain_none|done].
  - by apply log_restart.
  - unfold weight. cbn. rewrite !fn_lookup_insert, Hpc. lia.
Qed.

Lemma step_wakeup p q w s G :
  p ∈ ps -> group_ok s G -> pc s p = PWakeUp q w ->
  good_step s (goto p (if decide (q = p) then PWake w else PUnlock q w) (set_member q false s)) G.
Proof.
  intros Hp Hok Hpc. pose proof (go_lists _ _ Hok) as HL. destruct (go_log _ _ Hok) as [Hn Hlog].
  pose proof (lo_serve _ _ HL p) as Hs. unfold serves in Hs. rewrite Hpc in Hs. destruct Hs as ((l & El & Hl) & B & C).
  assert (HN : NoDup (q :: l)) by (rewrite <- El; apply HL). apply NoDup_cons in HN as [Hql HN].
  assert (Hqt : q ∈ taken G p) by (rewrite El; by left). assert (Hqlist : listed G q) by (by right; exists p).
  set (l' := if decide (q = p) then PWake w else PUnlock q w).
  assert (Hrl : role l' = Serving /\ holds_lock l' = false) by (unfold l'; by case_decide). destruct Hrl as [Hrl Hhl].
  set (G' := mkGhost (pend G) (<[p := l]> (taken G)) (rest G) (log G) (unl G)).
  assert (Hheads : q <> p -> heads s p l).
  { intros Hqp. destruct C as (w' & E & Hw'). rewrite El in E. destruct w' as [|r w']; simplify_eq/=.
    exists w'. split; [done|]. intros x Hx. apply Hw'. by right. }
  assert (Hnil : q = p -> l = []).
  { intros ->. destruct C as (w' & E & _). rewrite El in E. destruct w' as [|r w']; simplify_eq/=; [done|].
    destruct Hql. apply elem_of_app. right. by left. }
  assert (Hin : forall x, listed G' x <-> listed G x /\ x <> q).
  { intros x. unfold listed. cbn. split.
    - intros [Hx|[L Hx]].
      + split; [by left|]. intros ->. by apply (lo_apart _ _ HL q p).
      + at_proc L p.
        * split; [right; exists p; rewrite El; by right|by intros ->].
        * split; [by right; exists L|]. intros ->. by destruct (lo_apart_taken _ _ HL q L p Hx Hqt).
    - intros [[Hx|[L Hx]] Hne]; [by left|right]. exists L. at_proc L p; [|done]. rewrite El in Hx. by apply elem_of_cons in Hx as [?|?]. }
  assert (Hwq : q <> p -> role (pc s q) = Waiting).
  { intros Hqp. destruct (heads_elem _ _ _ _ C Hqt) as [?|?]; done. }
  exists G'. split.
  - eapply (leader_ok p l' s _ G G'); try done; try (by rewrite Hpc; auto); try apply Hok; cbn.
    + by right; left.
    + eapply (lists_serve s G HL p l'); try done; try (by rewrite Hpc); cbn.
      * by rewrite Hrl.
      * intros L HLp. by rewrite fn_lookup_insert_ne.
      * rewrite fn_lookup_insert, El. intros x Hx. by right.
      * by rewrite fn_lookup_insert.
      * assert (Hfr : forall x, x ∈ l -> role (pc s x) = Waiting -> role (<[p := l']> (pc s) x) = Waiting).
        { intros x _ HW. at_proc x p; [by rewrite Hpc in HW|done]. }
        unfold serves. cbn. rewrite !fn_lookup_insert. unfold l' at 1. case_decide as Hqp.
        -- split_and!; [done|done|left; by apply Hnil].
        -- split_and!; [done|done|]. eapply heads_frame; [|by apply Hheads]. exact Hfr.
    + intros x Hx. apply Hin in Hx as [Hx Hne]. split; [done|]. by rewrite fn_lookup_insert_ne.
    + intros x. destruct (decide (x = q)) as [->|Hne]; [right|left; by rewrite fn_lookup_insert_ne].
      rewrite fn_lookup_insert. split_and!; [by rewrite Hin; intros [_ ?]|done|done|]. unfold l'.
      case_decide; [by left|right; by exists w].
    + intros x _ Hm Hx. apply Hin. split; [done|]. intros ->. by rewrite fn_lookup_insert in Hm.
    + apply (lock_idle s G); [done|by rewrite Hpc|done].
    + intros x w' Hx. unfold l' in Hx. case_decide as Hqp; [done|]. injection Hx as -> ->. rewrite fn_lookup_insert. auto.
  - apply (measure_decreases s _ G _ p 0); [done|done| |].
    + intros x Hx. rewrite (weight_same s _ G G' p l' x); [lia|done..| |done]. cbn. by rewrite fn_lookup_insert_ne.
    + unfold weight, taken_cost. cbn. rewrite !fn_lookup_insert, Hpc, El. unfold l'. case_decide; cbn; lia.
Qed.

Lemma step_unlock p q w s G :
  p ∈ ps -> group_ok s G -> pc s p = PUnlock q w -> good_step s (goto p (PWake w) (set_sem q (S (sem s q)) s)) G.
Proof.
  intros Hp Hok Hpc. pose proof (go_lists _ _ Hok) as HL. destruct (go_log _ _ Hok) as [Hn Hlog].
  pose proof (lo_serve _ _ HL p) as Hs. unfold serves in Hs. rewrite Hpc in Hs. destruct Hs as (A & B & C).
  destruct (go_unlocking _ _ Hok p q w Hpc) as (Hf & Hu & Hm).
  assert (Hqp : q <> p) by (intros ->; by rewrite Hpc in Hf).
  set (G' := mkGhost (pend G) (taken G) (rest G) (log G) (<[q := 1%nat]> (unl G))). exists G'. split.
  - eapply (leader_ok p (PWake w) s _ G G'); try done; try (by rewrite Hpc; auto); try apply Hok; cbn.
    + by right; left.
    + eapply (lists_serve s G HL p (PWake w)); try done; try (by rewrite Hpc); [by apply HL|].
      unfold serves. cbn. rewrite !fn_lookup_insert. split_and!; [done|done|right].
      eapply heads_frame; [|exact C]. intros x _ HW. cbn. at_proc x p; [by rewrite Hpc in HW|done].
    + by left.
    + apply (lock_idle s G); [done|by rewrite Hpc|done].
    + intros x Hx Hfx. destruct (decide (x = q)) as [->|Hne].
      * right. exists w. by rewrite !fn_lookup_insert.
      * left. rewrite !fn_lookup_insert_ne by done. split_and!; [done|done|]. intros w'. rewrite Hpc. congruence.
    + intros x Hx. rewrite !fn_lookup_insert_ne; [done|..]; (intros ->; destruct Hx as [->|Hx]; [done|congruence]).
  - apply (measure_decreases s _ G _ p 4); [done|done| |].
    + intros x Hx. unfold weight, stale. cbn. rewrite fn_lookup_insert_ne by done. destruct (decide (x = q)) as [->|Hne].
      * rewrite fn_lookup_insert. destruct (pc s q); cbn in *; lia.
      * rewrite fn_lookup_insert_ne by done. destruct (pc s x); lia.
    + unfold weight. cbn. rewrite !fn_lookup_insert, Hpc. lia.
Qed.

Lemma group_step_ok p s s' G :
  p ∈ ps -> group_ok s G -> ProcArrayGroupClearXid (latest p) p s = Some s' -> good_step s s' G.
Proof.
  intros Hp Hok Hst. assert (Hst' := Hst). unfold ProcArrayGroupClearXid in Hst.
  destruct (pc s p) as [| |idx|idx|e|e|e| | | |w [q|]|[q|]|q w|q w|] eqn:Hpc; try done;
    try (by eapply step_follow; eauto; rewrite Hpc); try (by eapply step_arrive; eauto; rewrite Hpc); try (injection Hst as <-).
  - destruct (decide (procArrayGroupFirst s = idx)) as [Hf|Hf].
    + injection Hst as <-. by apply step_push.
    + eapply step_arrive; [done|done|exact Hst'|by rewrite Hpc|]. intros idx' Hi. rewrite Hpc in Hi. by injection Hi as <-.
  - destruct (ProcArrayLock s) eqn:Hl; [done|]. injection Hst as <-. by apply step_lock.
  - by apply step_exchange.
  - by apply step_clear.
  - by apply step_clear_end.
  - by apply step_wake.
  - by apply step_led.
  - by apply step_wakeup.
  - by apply step_unlock.
Qed.

(** ** Runs *)

Inductive group_run : list nat -> Group -> Group -> Prop :=
| group_run_nil s : group_run [] s s
| group_run_cons p sched s s1 s' : p ∈ ps -> ProcArrayGroupClearXid (latest p) p s = Some s1 ->
    group_run sched s1 s' -> group_run (p :: sched) s s'.

Lemma group_run_ok sched s s' G :
  group_run sched s s' -> group_ok s G ->
  exists G', group_ok s' G' /\ (length sched + measure s' G' <= measure s G)%nat.
Proof.
  intros Hr. revert G. induction Hr as [s|p sched s s1 s' Hp Hst Hr IH]; intros G Hok; [exists G; split; [done|cbn; lia]|].
  destruct (group_step_ok p s s1 G Hp Hok Hst) as (G1 & Hok1 & Hlt). destruct (IH G1 Hok1) as (G' & Hok' & Hle).
  exists G'. split; [done|]. cbn. lia.
Qed.

(** Nobody can take a step only when all have returned. *)
Lemma no_deadlock s G :
  group_ok s G -> (forall p, p ∈ ps -> ProcArrayGroupClearXid (latest p) p s = None) ->
  forall p, p ∈ ps -> returned (pc s p).
Proof.
  intros Hok Hstuck. pose proof (go_lists _ _ Hok) as HL.
  assert (Hin : forall p, role (pc s p) <> Finished -> p ∈ ps).
  { intros p Hr. destruct (decide (p ∈ ps)) as [?|Hn]; [done|]. by rewrite (go_ps _ _ Hok p Hn) in Hr. }
  assert (Hserving : forall p, role (pc s p) <> Serving).
  { intros p Hr. specialize (Hstuck p (Hin p ltac:(congruence))). unfold ProcArrayGroupClearXid in Hstuck.
    by destruct (pc s p) as [| | | | | | | | | |w [?|]|[?|]| | |]. }
  assert (Hleading : forall p, role (pc s p) <> Leading).
  { intros p Hr. pose proof (Hstuck p (Hin p ltac:(congruence))) as Hst. unfold ProcArrayGroupClearXid in Hst.
    destruct (pc s p) eqn:Hpc; try done. destruct (ProcArrayLock s) as [h|] eqn:Hlk; [|done].
    apply (go_lock _ _ Hok) in Hlk. destruct (pc s h) as [| | | | | | | | | |w k| | | |] eqn:Hh; try done.
    - assert (Hhp : h ∈ ps) by (apply Hin; by rewrite Hh). specialize (Hstuck h Hhp). unfold ProcArrayGroupClearXid in Hstuck.
      by rewrite Hh in Hstuck.
    - by destruct (Hserving h); rewrite Hh. }
  assert (Hlists : forall p, ~ listed G p).
  { intros p [Hp|[L Hp]].
    - destruct (lo_pend _ _ HL) as [E|(L & _ & Hr)]; [rewrite E in Hp; by apply not_elem_of_nil in Hp|by destruct (Hleading L)].
    - destruct (serves_taken _ _ _ _ (lo_serve _ _ HL L) Hp) as [Hr _]. by destruct (Hserving L). }
  intros p Hp. specialize (Hstuck p Hp). unfold ProcArrayGroupClearXid in Hstuck.
  destruct (pc s p) as [| |idx|idx|e|e|[|e]| | | |w k|k|q w|q w|] eqn:Hpc; try done; try (by left); try (by right);
    try (by destruct (Hserving p); rewrite Hpc); try (by destruct (Hleading p); rewrite Hpc); try (by case_decide).
  exfalso. pose proof (go_unl _ _ Hok p) as Hu. pose proof (go_sem _ _ Hok p) as Hs. unfold unl_ok in Hu. rewrite Hpc in Hu, Hs.
  cbn in Hu, Hs. destruct (procArrayGroupMember s p) eqn:Hm.
  - apply (Hlists p). apply (go_waiting _ _ Hok); [by rewrite Hpc|done].
  - destruct Hu as [[[_ [?|(L & w & HLw)]]|[Hu _]] _]; [done| |].
    + by destruct (Hserving L); rewrite HLw.
    + destruct (sem s p) eqn:Hsm; [|done]. lia.
Qed.

Lemma all_returned s G :
  group_ok s G -> (forall p, p ∈ ps -> returned (pc s p)) ->
  (forall p, sem s p = sem0 p) /\ procArrayGroupFirst s = None /\ ProcArrayLock s = None /\
  exists order, order ≡ₚ ps /\ g_mem s = end_all order.
Proof.
  intros Hok Hret0. pose proof (go_lists _ _ Hok) as HL.
  assert (Hret : forall p, returned (pc s p)).
  { intros p. destruct (decide (p ∈ ps)) as [?|Hn]; [by apply Hret0|]. right. by apply (go_ps _ _ Hok). }
  assert (Hrole : forall p, role (pc s p) = Finished) by (intros p; by destruct (Hret p) as [->| ->]).
  assert (Hpend : pend G = []).
  { destruct (lo_pend _ _ HL) as [?|(L & _ & Hr)]; [done|]. by rewrite Hrole in Hr. }
  assert (Hrest : forall L, rest G L = []) by (intros L; apply (not_serving_empty s G HL); by rewrite Hrole).
  split_and!.
  - intros p. pose proof (go_unl _ _ Hok p) as Hu. pose proof (go_sem _ _ Hok p) as Hs. unfold unl_ok in Hu.
    destruct (Hret p) as [E|E]; rewrite E in Hu, Hs; cbn in Hu, Hs; [|done].
    destruct Hu as [[[_ [Hm|(L & w & HLw)]]|[Hu1 _]] Hm']; [by rewrite Hm' in Hm|by destruct (Hret L); congruence|lia].
  - pose proof (lo_first _ _ HL) as Hf. by rewrite Hpend in Hf.
  - destruct (ProcArrayLock s) as [h|] eqn:Hlk; [|done]. apply (go_lock _ _ Hok) in Hlk. by destruct (Hret h) as [E|E]; rewrite E in Hlk.
  - destruct (go_log _ _ Hok) as [Hn Hlog]. exists (log G). split; [|apply Hok]. apply NoDup_Permutation; [done|done|].
    intros p. rewrite Hlog, Hrole, Hpend. setoid_rewrite Hrest. pose proof (not_elem_of_nil p). naive_solver.
Qed.
End Run.

(** Some backends are about to call the function, nobody is in it. *)
Definition group_start (ps : list nat) (s : Group) : Prop :=
  procArrayGroupFirst s = None /\ ProcArrayLock s = None /\
  forall p, pc s p = if decide (p ∈ ps) then PStart else PLed.

Lemma group_start_ok ps latest s :
  group_start ps s ->
  group_ok ps latest (g_mem s) (sem s) s (mkGhost [] (fun _ => []) (fun _ => []) [] (fun _ => 0%nat)).
Proof.
  intros (Hf & Hl & Hpc).
  assert (Hcase : forall p, p ∈ ps /\ pc s p = PStart \/ (p ∉ ps) /\ pc s p = PLed) by (intros p; rewrite Hpc; case_decide; auto).
  assert (Hno : forall p, ~ listed (mkGhost [] (fun _ => []) (fun _ => []) [] (fun _ => 0%nat)) p).
  { intros p [Hp|[L Hp]]; by apply not_elem_of_nil in Hp. }
  assert (Hnou : forall L q w, pc s L <> PUnlock q w) by (intros L q w; destruct (Hcase L) as [[_ ->]|[_ ->]]; done).
  constructor; cbn.
  - constructor; cbn; try done; try (by left).
    + intros p Hr. by destruct (Hcase p) as [[_ E]|[_ E]]; rewrite E in Hr.
    + intros L. unfold serves. by destruct (Hcase L) as [[_ ->]|[_ ->]].
    + split; [constructor|intros; constructor].
    + intros p L Hp. by apply not_elem_of_nil in Hp.
    + intros p L L' Hp. by apply not_elem_of_nil in Hp.
  - intros p Hp. by destruct (Hno p).
  - intros p Hr. by destruct (Hcase p) as [[_ E]|[_ E]]; rewrite E in Hr.
  - intros p Hr. destruct (Hcase p) as [[? E]|[_ E]]; [auto|by rewrite E in Hr].
  - intros p n Hr. by destruct (Hcase p) as [[_ E]|[_ E]]; rewrite E in Hr.
  - intros p. rewrite Hl. by destruct (Hcase p) as [[_ ->]|[_ ->]].
  - intros p. by destruct (Hcase p) as [[_ ->]|[_ ->]].
  - intros p. by destruct (Hcase p) as [[_ ->]|[_ ->]].
  - intros L L' q w w' H. by destruct (Hnou L q w).
  - intros L q w H. by destruct (Hnou L q w).
  - split; [constructor|]. intros p. split; [intros Hp; by apply not_elem_of_nil in Hp|]. intros (Hp & Hr & _).
    by destruct (Hcase p) as [[_ E]|[? _]]; [rewrite E in Hr|].
  - done.
  - intros p Hp. by destruct (Hcase p) as [[? _]|[_ ?]].
Qed.

(** C14. every group of ending transactions gets through: whatever the order
    in which the backends take their steps, only finitely many steps are
    possible, and when none is left every backend has returned, the
    transactions of all were ended one after the other, the list is empty, the
    lock is free and every semaphore, whatever wakeups it had absorbed, has its
    old count.  There is no deadlock, and no member without a leader. *)
Theorem ProcArrayGroupClearXid_completes (ps : list nat) (latest : nat -> TransactionId) (s : Group) :
  NoDup ps -> group_start ps s ->
  (exists bound, forall sched s', group_run ps latest sched s s' -> (length sched <= bound)%nat) /\
  forall sched s', group_run ps latest sched s s' ->
    (forall p, p ∈ ps -> ProcArrayGroupClearXid (latest p) p s' = None) ->
    (forall p, p ∈ ps -> returned (pc s' p)) /\ (forall p, sem s' p = sem s p) /\
    procArrayGroupFirst s' = None /\ ProcArrayLock s' = None /\
    exists order, order ≡ₚ ps /\
      g_mem s' = foldl (fun m p => ProcArrayEndTransactionInternal p (latest p) m) (g_mem s) order.
Proof.
  intros Hnd Hs. pose proof (group_start_ok ps latest s Hs) as Hok. split.
  - eexists. intros sched s' Hr. destruct (group_run_ok ps latest (g_mem s) (sem s) Hnd sched s s' _ Hr Hok) as (G' & _ & Hle).
    apply (Nat.le_trans _ (length sched + measure ps s' G')); [lia|exact Hle].
  - intros sched s' Hr Hstuck. destruct (group_run_ok ps latest (g_mem s) (sem s) Hnd sched s s' _ Hr Hok) as (G' & Hok' & _).
    pose proof (no_deadlock ps latest (g_mem s) (sem s) s' G' Hok' Hstuck) as Hret. split; [done|].
    by apply (all_returned ps latest (g_mem s) (sem s) Hnd s' G').
Qed.

(** Backends 1 and 2 end transactions 100 and 103 together; a stray wakeup is
    on the semaphore of backend 2. *)
Definition ex_latest (p : nat) : TransactionId := if (p =? 1)%nat then 101 else 103.

Definition ex_group : Group :=
  mkGroup (mem ex_next) None (fun _ => None) (fun _ => false) (fun _ => 0) (fun p => if (p =? 2)%nat then 1%nat else 0%nat) None
    (fun p => if decide (p ∈ [1; 2]%nat) then PStart else PLed).

Fixpoint take_steps (sched : list nat) (s : Group) : Group :=
  match sched with
  | [] => s
  | p :: sched => take_steps sched (default s (ProcArrayGroupClearXid (ex_latest p) p s))
  end.

Definition ex_sched : list nat := [1; 1; 1; 1; 2; 2; 2; 2; 2; 2; 1; 1; 1; 1; 1; 1; 1; 1; 1; 1; 1; 2; 2; 2; 2]%nat.

Lemma take_steps_run sched s :
  (forall n p, sched !! n = Some p -> p ∈ [1; 2]%nat /\
     is_Some (ProcArrayGroupClearXid (ex_latest p) p (take_steps (take n sched) s))) ->
  group_run [1; 2]%nat ex_latest sched s (take_steps sched s).
Proof.
  revert s. induction sched as [|p sched IH]; intros s H; [constructor|].
  destruct (H 0%nat p eq_refl) as [Hp [s1 Hs1]]. cbn in Hs1. econstructor; [done|exact Hs1|]. cbn [take_steps]. rewrite Hs1.
  apply IH. intros n q Hq. specialize (H (S n) q Hq). cbn in H. by rewrite Hs1 in H.
Qed.

Lemma ProcArrayGroupClearXid_completes_witness :
  let s := take_steps ex_sched ex_group in
  (sem s 2 = 1 /\ pc s 1 = PLed /\ pc s 2 = PFollowed)%nat /\ xids (g_mem s) = [0; 0; 0] /\
  exists order, order ≡ₚ [1; 2]%nat /\
    g_mem s = foldl (fun m p => ProcArrayEndTransactionInternal p (ex_latest p) m) (mem ex_next) order.
Proof.
  intros s.
  destruct (ProcArrayGroupClearXid_completes [1; 2]%nat ex_latest ex_group) as [_ H].
  - repeat constructor; ground.
  - split_and!; done.
  - destruct (H ex_sched s) as (_ & Hsem & _ & _ & Hord).
    + apply take_steps_run. intros n p Hn.
      do 25 (destruct n as [|n]; [injection Hn as <-; split; [ground|vm_compute; by eexists]|]). done.
    + intros p Hp. apply list_elem_of_In in Hp. destruct Hp as [<-|[<-|[]]]; vm_compute; reflexivity.
    + split; [|split; [vm_compute; reflexivity|exact Hord]]. split; [exact (Hsem 2%nat)|]. split; vm_compute; reflexivity.
Defined.
