(* ===== verification/ProcScan.v ===== *)
(** * ProcScan: reading the process array

    Models the readers of src/backend/storage/ipc/procarray.c: snapshots, the
    test whether a transaction is in progress, and the removal horizons.

    A reader holds ProcArrayLock in shared mode, and other backends go on
    assigning ids meanwhile.  The reads of a scan therefore see a sequence of
    memories: [m t] is the shared memory at the [t]-th read, and each
    definition says which read sees which memory. *)

From S2P Require Import Prelude TransactionId KnownXids HeapTuple ProcArray.

(** The bounds of the [GlobalVisTest] functions. *)
Record GlobalVisState := mkGlobalVis {
  definitely_needed : FullTransactionId;
  maybe_needed : FullTransactionId;
}.

(** The variables of the scanning backend. *)
Record ProcLocal := mkProcLocal {
  MyProcNo : nat;
  MyDatabaseId : Z;
  TransactionXmin : TransactionId;
  RecentXmin : TransactionId;
  cachedXidIsNotInProgress : TransactionId;
  GlobalVisSharedRels : GlobalVisState;
  GlobalVisCatalogRels : GlobalVisState;
  GlobalVisDataRels : GlobalVisState;
  GlobalVisTempRels : GlobalVisState;
  ComputeXidHorizonsResultLastXmin : TransactionId;
}.

Definition set_xmins (txmin rxmin : TransactionId) (l : ProcLocal) : ProcLocal :=
  mkProcLocal (MyProcNo l) (MyDatabaseId l) txmin rxmin (cachedXidIsNotInProgress l) (GlobalVisSharedRels l)
    (GlobalVisCatalogRels l) (GlobalVisDataRels l) (GlobalVisTempRels l) (ComputeXidHorizonsResultLastXmin l).

Definition set_cachedXid (x : TransactionId) (l : ProcLocal) : ProcLocal :=
  mkProcLocal (MyProcNo l) (MyDatabaseId l) (TransactionXmin l) (RecentXmin l) x (GlobalVisSharedRels l)
    (GlobalVisCatalogRels l) (GlobalVisDataRels l) (GlobalVisTempRels l) (ComputeXidHorizonsResultLastXmin l).

Definition set_globalvis (sr cr dr tr : GlobalVisState) (lastx : TransactionId) (l : ProcLocal) : ProcLocal :=
  mkProcLocal (MyProcNo l) (MyDatabaseId l) (TransactionXmin l) (RecentXmin l) (cachedXidIsNotInProgress l)
    sr cr dr tr lastx.

(** A snapshot and the completion count it was built at. *)
Record Snapshot := mkSnap {
  snap : SnapshotData;
  snapXactCompletionCount : Z;
}.

Definition NormalTransactionIdPrecedes (id1 id2 : TransactionId) : bool := s32 (id1 -u32 id2) <? 0.

(** [for (i = 0; i < numProcs; i++)]: an index and the rounds left. *)
Definition at_index (l : list Z) (i : nat) : Z := default 0 (l !! i).
Definition state_at (sh : ProcShared) (i : nat) : XidCacheStatus := default no_subxids (subxidStates sh !! i).
Definition procno_at (sh : ProcShared) (i : nat) : nat := default 0%nat (pgprocnos sh !! i).

(** ** Snapshots *)

Record SnapScan := mkSnapScan {
  sc_xmin : TransactionId;
  sc_xip : list TransactionId;
  sc_subxip : list TransactionId;
  sc_overflowed : bool;
}.

(** One round of the scan.  The five reads of entry [i] are the id, the flags,
    the overflow flag, the count and the cached ids. *)
Definition snapshot_entry (m : nat -> ProcShared) (mypgxactoff : nat) (xmax : TransactionId) (i : nat)
    (sc : SnapScan) : SnapScan :=
  let xid := at_index (xids (m (5 * i)%nat)) i in
  if xid =? InvalidTransactionId then sc
  else if (i =? mypgxactoff)%nat then sc
  else if negb (NormalTransactionIdPrecedes xid xmax) then sc
  else
    let flags := at_index (statusFlags (m (5 * i + 1)%nat)) i in
    if has_flag flags (Z.lor PROC_IN_LOGICAL_DECODING PROC_IN_VACUUM) then sc
    else
      let xmin := if NormalTransactionIdPrecedes xid (sc_xmin sc) then xid else sc_xmin sc in
      let xip := sc_xip sc ++ [xid] in
      if sc_overflowed sc then mkSnapScan xmin xip (sc_subxip sc) true
      else if overflowed (state_at (m (5 * i + 2)%nat) i) then mkSnapScan xmin xip (sc_subxip sc) true
      else
        let nsubxids := count (state_at (m (5 * i + 3)%nat) i) in
        let m4 := m (5 * i + 4)%nat in
        mkSnapScan xmin xip (sc_subxip sc ++ take nsubxids (pr_subxids (proc m4 (procno_at m4 i)))) false.

Fixpoint snapshot_scan (m : nat -> ProcShared) (mypgxactoff : nat) (xmax : TransactionId) (rounds i : nat)
    (sc : SnapScan) : SnapScan :=
  match rounds with
  | O => sc
  | S r => snapshot_scan m mypgxactoff xmax r (S i) (snapshot_entry m mypgxactoff xmax i sc)
  end.

(** The GlobalVis bounds a new snapshot gives, from the values read under the
    lock. *)
Definition snapshot_globalvis (latest_completed : FullTransactionId) (oldestxid xmin slot_xmin slot_catalog_xmin
    myxid : TransactionId) (l : ProcLocal) : ProcLocal :=
  let oldestfxid := FullXidRelativeTo latest_completed oldestxid in
  let def_vis_xid_data := TransactionIdOlder xmin slot_xmin in
  let def_vis_xid := TransactionIdOlder slot_catalog_xmin def_vis_xid_data in
  let def_vis_fxid := FullXidRelativeTo latest_completed def_vis_xid in
  let def_vis_fxid_data := FullXidRelativeTo latest_completed def_vis_xid_data in
  let bump def g := mkGlobalVis (FullTransactionIdNewer def (definitely_needed g))
                                (FullTransactionIdNewer (maybe_needed g) oldestfxid) in
  let temp := if TransactionIdIsNormal myxid then FullXidRelativeTo latest_completed myxid
              else FullTransactionIdAdvance latest_completed in
  set_globalvis (bump def_vis_fxid (GlobalVisSharedRels l)) (bump def_vis_fxid (GlobalVisCatalogRels l))
    (bump def_vis_fxid_data (GlobalVisDataRels l)) (mkGlobalVis temp temp)
    (ComputeXidHorizonsResultLastXmin l) l.

(** The bulk of a snapshot, from the memories seen under the lock; [m 0] is
    the one at the acquisition of the lock. *)
Definition snapshot_contents (in_recovery : bool) (m : nat -> ProcShared) (me : nat) : SnapScan * TransactionId :=
  let sh := m 0%nat in
  let latest_completed := latestCompletedXid sh in
  let mypgxactoff := pgxactoff (proc sh me) in
  let myxid := at_index (xids sh) mypgxactoff in
  let xmax := TransactionIdAdvance (XidFromFullTransactionId latest_completed) in
  let xmin := if TransactionIdIsNormal myxid && NormalTransactionIdPrecedes myxid xmax then myxid else xmax in
  if negb in_recovery then
    (snapshot_scan m mypgxactoff xmax (numProcs sh) 0 (mkSnapScan xmin [] [] false), xmax)
  else
    let '(subxip, xmin) := KnownAssignedXidsGetAndSetXmin xmin xmax (knownXids sh) in
    (mkSnapScan xmin [] subxip (TransactionIdPrecedesOrEquals xmin (lastOverflowedXid sh)), xmax).

(** What a reused snapshot keeps: everything but the command id. *)
Definition set_curcid (cid : CommandId) (sn : SnapshotData) : SnapshotData :=
  mkSnapshot (snapshot_type sn) (snap_xmin sn) (snap_xmax sn) (xip sn) (subxip sn) (suboverflowed sn)
    (takenDuringRecovery sn) cid (speculativeToken sn).

(** [MyProc->xmin = TransactionXmin = xmin] when no xmin is advertised yet,
    and [RecentXmin = xmin]. *)
Definition install_xmin (xmin : TransactionId) (sh : ProcShared) (l : ProcLocal) : ProcShared * ProcLocal :=
  if negb (TransactionIdIsValid (pr_xmin (proc sh (MyProcNo l))))
  then (upd_proc (MyProcNo l) (set_xmin xmin) sh, set_xmins xmin xmin l)
  else (sh, set_xmins (TransactionXmin l) xmin l).

Definition GetSnapshotDataReuse (curcid : CommandId) (s : Snapshot) (sh : ProcShared) (l : ProcLocal)
    : option (Snapshot * ProcShared * ProcLocal) :=
  if snapXactCompletionCount s =? 0 then None
  else if xactCompletionCount sh != snapXactCompletionCount s then None
  else
    let '(sh, l) := install_xmin (snap_xmin (snap s)) sh l in
    Some (mkSnap (set_curcid curcid (snap s)) (snapXactCompletionCount s), sh, l).

(** [last] is the memory at the release of the lock. *)
Definition GetSnapshotData (in_recovery : bool) (curcid : CommandId) (m : nat -> ProcShared) (last : ProcShared)
    (s : Snapshot) (l : ProcLocal) : Snapshot * ProcShared * ProcLocal :=
  let sh := m 0%nat in
  match GetSnapshotDataReuse curcid s sh l with
  | Some r => r
  | None =>
      let me := MyProcNo l in
      let '(sc, xmax) := snapshot_contents in_recovery m me in
      let xmin := sc_xmin sc in
      let '(last', l) := install_xmin xmin last l in
      let l := snapshot_globalvis (latestCompletedXid sh) (sh_oldestXid sh) xmin (replication_slot_xmin last)
                 (replication_slot_catalog_xmin last) (at_index (xids sh) (pgxactoff (proc sh me))) l in
      (mkSnap (mkSnapshot (snapshot_type (snap s)) xmin xmax (sc_xip sc) (sc_subxip sc) (sc_overflowed sc)
                 in_recovery curcid (speculativeToken (snap s)))
              (xactCompletionCount sh), last', l)
  end.

(** ** Is a transaction in progress? *)

(** The answer of the scan for [xid]: found running, or the main ids that have
    uncached children.  The four reads of an entry are the id, the count, the
    cached ids and the overflow flag. *)
Fixpoint progress_scan (m : nat -> ProcShared) (mypgxactoff : nat) (xid : TransactionId) (rounds i : nat)
    (saved : list TransactionId) : option (list TransactionId) :=
  match rounds with
  | O => Some saved
  | S r =>
      let pxid := at_index (xids (m (4 * i)%nat)) i in
      if (i =? mypgxactoff)%nat then progress_scan m mypgxactoff xid r (S i) saved
      else if negb (TransactionIdIsValid pxid) then progress_scan m mypgxactoff xid r (S i) saved
      else if TransactionIdEquals pxid xid then None
      else if TransactionIdPrecedes xid pxid then progress_scan m mypgxactoff xid r (S i) saved
      else
        let pxids := count (state_at (m (4 * i + 1)%nat) i) in
        let m2 := m (4 * i + 2)%nat in
        match find_back xid pxids (pr_subxids (proc m2 (procno_at m2 i))) with
        | Some _ => None
        | None =>
            let saved := if overflowed (state_at (m (4 * i + 3)%nat) i) then saved ++ [pxid] else saved in
            progress_scan m mypgxactoff xid r (S i) saved
        end
  end.

(** [IsCurrent], [DidAbort] and [Topmost] are the functions of xact.c,
    transam.c and subtrans.c the test calls. *)
Definition TransactionIdIsInProgress (IsCurrent DidAbort : TransactionId -> bool)
    (Topmost : TransactionId -> TransactionId) (in_recovery : bool) (m : nat -> ProcShared) (last : ProcShared)
    (xid : TransactionId) (l : ProcLocal) : bool * ProcLocal :=
  if TransactionIdPrecedes xid (RecentXmin l) then (false, l)
  else if TransactionIdEquals (cachedXidIsNotInProgress l) xid then (false, l)
  else if IsCurrent xid then (true, l)
  else
    let sh := m 0%nat in
    if TransactionIdPrecedes (XidFromFullTransactionId (latestCompletedXid sh)) xid then (true, l)
    else
      match progress_scan m (pgxactoff (proc sh (MyProcNo l))) xid (numProcs sh) 0 [] with
      | None => (true, l)
      | Some saved =>
          if in_recovery && KnownAssignedXidExists xid (knownXids last) then (true, l)
          else
            let saved := if in_recovery && TransactionIdPrecedesOrEquals xid (lastOverflowedXid last)
                         then KnownAssignedXidsGet xid (knownXids last) else saved in
            match saved with
            | [] => (false, set_cachedXid xid l)
            | _ =>
                if DidAbort xid then (false, set_cachedXid xid l)
                else
                  let topxid := Topmost xid in
                  if negb (TransactionIdEquals topxid xid) && pg_lfind32 topxid saved then (true, l)
                  else (false, set_cachedXid xid l)
            end
      end.

(** The reads of an entry are the id and the pid. *)
Fixpoint active_scan (m : nat -> ProcShared) (xid : TransactionId) (rounds i : nat) : bool :=
  match rounds with
  | O => false
  | S r =>
      let pxid := at_index (xids (m (2 * i)%nat)) i in
      if negb (TransactionIdIsValid pxid) then active_scan m xid r (S i)
      else
        let m1 := m (2 * i + 1)%nat in
        if pid (proc m1 (procno_at m1 i)) =? 0 then active_scan m xid r (S i)
        else if TransactionIdEquals pxid xid then true
        else active_scan m xid r (S i)
  end.

Definition TransactionIdIsActive (m : nat -> ProcShared) (xid : TransactionId) (l : ProcLocal) : bool :=
  if TransactionIdPrecedes xid (RecentXmin l) then false else active_scan m xid (numProcs (m 0%nat)) 0.

(** ** Horizons *)

Record ComputeXidHorizonsResult := mkHorizons {
  latest_completed : FullTransactionId;
  slot_xmin : TransactionId;
  slot_catalog_xmin : TransactionId;
  oldest_considered_running : TransactionId;
  shared_oldest_nonremovable : TransactionId;
  shared_oldest_nonremovable_raw : TransactionId;
  catalog_oldest_nonremovable : TransactionId;
  data_oldest_nonremovable : TransactionId;
  temp_oldest_nonremovable : TransactionId;
}.

(** The three minima of the loop: considered running, shared, data. *)
Abbreviation Minima := (TransactionId * TransactionId * TransactionId)%type (only parsing).

(** The three reads of an entry are the flags, the id and the xmin. *)
Definition horizon_entry (m : nat -> ProcShared) (in_recovery : bool) (MyDatabaseId : Z) (i : nat)
    (h : Minima) : Minima :=
  let '(running, shared, data) := h in
  let flags := at_index (statusFlags (m (3 * i)%nat)) i in
  let xid := at_index (xids (m (3 * i + 1)%nat)) i in
  let m2 := m (3 * i + 2)%nat in
  let pr := proc m2 (procno_at m2 i) in
  let xmin := TransactionIdOlder (pr_xmin pr) xid in
  if negb (TransactionIdIsValid xmin) then h
  else
    let running := TransactionIdOlder running xmin in
    if has_flag flags (Z.lor PROC_IN_VACUUM PROC_IN_LOGICAL_DECODING) then (running, shared, data)
    else
      let shared := TransactionIdOlder shared xmin in
      if (databaseId pr =? MyDatabaseId) || (MyDatabaseId =? InvalidOid)
         || has_flag flags PROC_AFFECTS_ALL_HORIZONS || in_recovery
      then (running, shared, TransactionIdOlder data xmin)
      else (running, shared, data).

Fixpoint horizon_scan (m : nat -> ProcShared) (in_recovery : bool) (MyDatabaseId : Z) (rounds i : nat)
    (h : Minima) : Minima :=
  match rounds with
  | O => h
  | S r => horizon_scan m in_recovery MyDatabaseId r (S i) (horizon_entry m in_recovery MyDatabaseId i h)
  end.

(** The computation after the lock is released. *)
Definition finish_horizons (latest : FullTransactionId) (sxmin scxmin : TransactionId) (h : Minima)
    (temp : TransactionId) : ComputeXidHorizonsResult :=
  let '(running, shared, data) := h in
  let shared := TransactionIdOlder shared sxmin in
  let data := TransactionIdOlder data sxmin in
  let shared_raw := shared in
  let shared := TransactionIdOlder shared scxmin in
  let catalog := TransactionIdOlder data scxmin in
  let running := TransactionIdOlder running shared in
  let running := TransactionIdOlder running catalog in
  let running := TransactionIdOlder running data in
  mkHorizons latest sxmin scxmin running shared shared_raw catalog data temp.

Definition GlobalVisUpdateApply (horizons : ComputeXidHorizonsResult) (l : ProcLocal) : ProcLocal :=
  let rel := FullXidRelativeTo (latest_completed horizons) in
  let shared_maybe := rel (shared_oldest_nonremovable horizons) in
  let catalog_maybe := rel (catalog_oldest_nonremovable horizons) in
  let data_maybe := rel (data_oldest_nonremovable horizons) in
  let temp_maybe := rel (temp_oldest_nonremovable horizons) in
  let newer maybe g := mkGlobalVis (FullTransactionIdNewer maybe (definitely_needed g)) maybe in
  set_globalvis (newer shared_maybe (GlobalVisSharedRels l)) (newer catalog_maybe (GlobalVisCatalogRels l))
    (newer data_maybe (GlobalVisDataRels l)) (mkGlobalVis temp_maybe temp_maybe) (RecentXmin l) l.

(** [last] is the memory at the release of the lock. *)
Definition ComputeXidHorizons (in_recovery : bool) (m : nat -> ProcShared) (last : ProcShared) (l : ProcLocal)
    : ComputeXidHorizonsResult * ProcLocal :=
  let sh := m 0%nat in
  let latest := latestCompletedXid sh in
  let initial := TransactionIdAdvance (XidFromFullTransactionId latest) in
  let myxid := pr_xid (proc sh (MyProcNo l)) in
  let temp := if TransactionIdIsValid myxid then myxid else initial in
  let '(running, shared, data) :=
    horizon_scan m in_recovery (MyDatabaseId l) (numProcs sh) 0 (initial, initial, initial) in
  let kaxmin := KnownAssignedXidsGetOldestXmin (knownXids last) in
  let h := if in_recovery
           then (TransactionIdOlder running kaxmin, TransactionIdOlder shared kaxmin, TransactionIdOlder data kaxmin)
           else (running, shared, data) in
  let r := finish_horizons latest (replication_slot_xmin sh) (replication_slot_catalog_xmin sh) h temp in
  (r, GlobalVisUpdateApply r l).

Inductive GlobalVisHorizonKind :=
| VISHORIZON_SHARED
| VISHORIZON_CATALOG
| VISHORIZON_DATA
| VISHORIZON_TEMP.

(** What the choice of a horizon asks of a relation. *)
Record Relation := mkRelation {
  relisshared : bool;
  IsCatalogRelation : bool;
  RelationIsAccessibleInLogicalDecoding : bool;
  RELATION_IS_LOCAL : bool;
}.

(** [None] is the null pointer. *)
Definition GlobalVisHorizonKindForRel (in_recovery : bool) (rel : option Relation) : GlobalVisHorizonKind :=
  match rel with
  | None => VISHORIZON_SHARED
  | Some rel =>
      if relisshared rel || in_recovery then VISHORIZON_SHARED
      else if IsCatalogRelation rel || RelationIsAccessibleInLogicalDecoding rel then VISHORIZON_CATALOG
      else if negb (RELATION_IS_LOCAL rel) then VISHORIZON_DATA
      else VISHORIZON_TEMP
  end.

Definition kind_horizon (k : GlobalVisHorizonKind) (h : ComputeXidHorizonsResult) : TransactionId :=
  match k with
  | VISHORIZON_SHARED => shared_oldest_nonremovable h
  | VISHORIZON_CATALOG => catalog_oldest_nonremovable h
  | VISHORIZON_DATA => data_oldest_nonremovable h
  | VISHORIZON_TEMP => temp_oldest_nonremovable h
  end.

Definition GetOldestNonRemovableTransactionId (in_recovery : bool) (m : nat -> ProcShared) (last : ProcShared)
    (rel : option Relation) (l : ProcLocal) : TransactionId * ProcLocal :=
  let '(horizons, l) := ComputeXidHorizons in_recovery m last l in
  (kind_horizon (GlobalVisHorizonKindForRel in_recovery rel) horizons, l).

Definition GetOldestTransactionIdConsideredRunning (in_recovery : bool) (m : nat -> ProcShared)
    (last : ProcShared) (l : ProcLocal) : TransactionId * ProcLocal :=
  let '(horizons, l) := ComputeXidHorizons in_recovery m last l in (oldest_considered_running horizons, l).

Definition GetReplicationHorizons (in_recovery : bool) (m : nat -> ProcShared) (last : ProcShared)
    (l : ProcLocal) : TransactionId * TransactionId * ProcLocal :=
  let '(horizons, l) := ComputeXidHorizons in_recovery m last l in
  (shared_oldest_nonremovable_raw horizons, slot_catalog_xmin horizons, l).

(** A [GlobalVisState *] is one of the four variables. *)
Definition GlobalVisTestFor (in_recovery : bool) (rel : option Relation) : GlobalVisHorizonKind :=
  GlobalVisHorizonKindForRel in_recovery rel.

Definition vis_state (k : GlobalVisHorizonKind) (l : ProcLocal) : GlobalVisState :=
  match k with
  | VISHORIZON_SHARED => GlobalVisSharedRels l
  | VISHORIZON_CATALOG => GlobalVisCatalogRels l
  | VISHORIZON_DATA => GlobalVisDataRels l
  | VISHORIZON_TEMP => GlobalVisTempRels l
  end.

Definition GlobalVisTestShouldUpdate (k : GlobalVisHorizonKind) (l : ProcLocal) : bool :=
  if negb (TransactionIdIsValid (ComputeXidHorizonsResultLastXmin l)) then true
  else if definitely_needed (vis_state k l) <=? maybe_needed (vis_state k l) then false
  else RecentXmin l != ComputeXidHorizonsResultLastXmin l.

Definition GlobalVisUpdate (in_recovery : bool) (m : nat -> ProcShared) (last : ProcShared) (l : ProcLocal)
    : ProcLocal := (ComputeXidHorizons in_recovery m last l).2.

Definition GlobalVisTestIsRemovableFullXid (in_recovery : bool) (m : nat -> ProcShared) (last : ProcShared)
    (k : GlobalVisHorizonKind) (fxid : FullTransactionId) (l : ProcLocal) : bool * ProcLocal :=
  if FullTransactionIdPrecedes fxid (maybe_needed (vis_state k l)) then (true, l)
  else if definitely_needed (vis_state k l) <=? fxid then (false, l)
  else if GlobalVisTestShouldUpdate k l then
    let l := GlobalVisUpdate in_recovery m last l in
    (FullTransactionIdPrecedes fxid (maybe_needed (vis_state k l)), l)
  else (false, l).

Definition GlobalVisTestIsRemovableXid (in_recovery : bool) (m : nat -> ProcShared) (last : ProcShared)
    (k : GlobalVisHorizonKind) (xid : TransactionId) (l : ProcLocal) : bool * ProcLocal :=
  let fxid := FullXidRelativeTo (definitely_needed (vis_state k l)) xid in
  GlobalVisTestIsRemovableFullXid in_recovery m last k fxid l.

Definition GlobalVisTestNonRemovableFullHorizon (in_recovery : bool) (m : nat -> ProcShared) (last : ProcShared)
    (k : GlobalVisHorizonKind) (l : ProcLocal) : FullTransactionId * ProcLocal :=
  let l := if GlobalVisTestShouldUpdate k l then GlobalVisUpdate in_recovery m last l else l in
  (maybe_needed (vis_state k l), l).

Definition GlobalVisTestNonRemovableHorizon (in_recovery : bool) (m : nat -> ProcShared) (last : ProcShared)
    (k : GlobalVisHorizonKind) (l : ProcLocal) : TransactionId * ProcLocal :=
  let '(cutoff, l) := GlobalVisTestNonRemovableFullHorizon in_recovery m last k l in
  (XidFromFullTransactionId cutoff, l).

Definition GlobalVisCheckRemovableFullXid (in_recovery : bool) (m : nat -> ProcShared) (last : ProcShared)
    (rel : option Relation) (fxid : FullTransactionId) (l : ProcLocal) : bool * ProcLocal :=
  GlobalVisTestIsRemovableFullXid in_recovery m last (GlobalVisTestFor in_recovery rel) fxid l.

Definition GlobalVisCheckRemovableXid (in_recovery : bool) (m : nat -> ProcShared) (last : ProcShared)
    (rel : option Relation) (xid : TransactionId) (l : ProcLocal) : bool * ProcLocal :=
  GlobalVisTestIsRemovableXid in_recovery m last (GlobalVisTestFor in_recovery rel) xid l.
