(* ===== verification/ProcReaders.v ===== *)
(** * ProcReaders: the other users of the process array

    Models the rest of src/backend/storage/ipc/procarray.c that looks at the
    array: the list of running transactions for standbys, the oldest running
    transaction, virtual transactions, backends by pid or database, imported
    xmins and the limits of replication slots.

    As in ProcScan.v, [m t] is the memory at the [t]-th read of a scan under
    the shared lock.  Where every field read is protected by the locks held,
    one memory is enough.  Signals are returned as a list; the permission
    checks of src/backend/utils/adt/acl.c are arguments. *)

From S2P Require Import Prelude TransactionId KnownXids HeapTuple ProcArray ProcScan.

Definition proc_at (sh : ProcShared) (i : nat) : PGPROC := proc sh (procno_at sh i).

(** ** Virtual transactions *)

Record VirtualTransactionId := mkVxid {
  vx_backendId : Z;
  localTransactionId : Z;
}.

Definition VirtualTransactionIdIsValid (vxid : VirtualTransactionId) : bool :=
  localTransactionId vxid != InvalidLocalTransactionId.

Definition VirtualTransactionIdEquals (vxid1 vxid2 : VirtualTransactionId) : bool :=
  (vx_backendId vxid1 =? vx_backendId vxid2) && (localTransactionId vxid1 =? localTransactionId vxid2).

Definition GET_VXID_FROM_PGPROC (pr : PGPROC) : VirtualTransactionId := mkVxid (backendId pr) (lxid pr).

(** [if (VirtualTransactionIdIsValid(vxid)) vxids[count++] = vxid] *)
Definition push_vxid (vxid : VirtualTransactionId) (vxids : list VirtualTransactionId) : list VirtualTransactionId :=
  if VirtualTransactionIdIsValid vxid then vxids ++ [vxid] else vxids.

(** The two reads of an entry are the flags and the virtual id. *)
Fixpoint delaying_scan (m : nat -> ProcShared) (type : Z) (rounds i : nat) (vxids : list VirtualTransactionId)
    : list VirtualTransactionId :=
  match rounds with
  | O => vxids
  | S r =>
      if has_flag (delayChkptFlags (proc_at (m (2 * i)%nat) i)) type
      then delaying_scan m type r (S i) (push_vxid (GET_VXID_FROM_PGPROC (proc_at (m (2 * i + 1)%nat) i)) vxids)
      else delaying_scan m type r (S i) vxids
  end.

Definition GetVirtualXIDsDelayingChkpt (m : nat -> ProcShared) (type : Z) : list VirtualTransactionId :=
  delaying_scan m type (numProcs (m 0%nat)) 0 [].

(** Here the virtual id is read first. *)
Fixpoint still_delaying_scan (m : nat -> ProcShared) (vxids : list VirtualTransactionId) (type : Z) (rounds i : nat)
    : bool :=
  match rounds with
  | O => false
  | S r =>
      let vxid := GET_VXID_FROM_PGPROC (proc_at (m (2 * i)%nat) i) in
      if has_flag (delayChkptFlags (proc_at (m (2 * i + 1)%nat) i)) type && VirtualTransactionIdIsValid vxid
         && existsb (VirtualTransactionIdEquals vxid) vxids
      then true
      else still_delaying_scan m vxids type r (S i)
  end.

Definition HaveVirtualXIDsDelayingChkpt (m : nat -> ProcShared) (vxids : list VirtualTransactionId) (type : Z) : bool :=
  still_delaying_scan m vxids type (numProcs (m 0%nat)) 0.

(** The reads are the flags, the database, the xmin and the virtual id. *)
Fixpoint current_vxids_scan (m : nat -> ProcShared) (limitXmin : TransactionId) (excludeXmin0 allDbs : bool)
    (excludeVacuum : Z) (l : ProcLocal) (rounds i : nat) (vxids : list VirtualTransactionId)
    : list VirtualTransactionId :=
  match rounds with
  | O => vxids
  | S r =>
      let next := current_vxids_scan m limitXmin excludeXmin0 allDbs excludeVacuum l r (S i) in
      let flags := at_index (statusFlags (m (4 * i)%nat)) i in
      if (procno_at (m (4 * i)%nat) i =? MyProcNo l)%nat then next vxids
      else if has_flag excludeVacuum flags then next vxids
      else if allDbs || (databaseId (proc_at (m (4 * i + 1)%nat) i) =? MyDatabaseId l) then
        let pxmin := pr_xmin (proc_at (m (4 * i + 2)%nat) i) in
        if excludeXmin0 && negb (TransactionIdIsValid pxmin) then next vxids
        else if negb (TransactionIdIsValid limitXmin) || TransactionIdPrecedesOrEquals pxmin limitXmin
        then next (push_vxid (GET_VXID_FROM_PGPROC (proc_at (m (4 * i + 3)%nat) i)) vxids)
        else next vxids
      else next vxids
  end.

Definition GetCurrentVirtualXIDs (m : nat -> ProcShared) (limitXmin : TransactionId) (excludeXmin0 allDbs : bool)
    (excludeVacuum : Z) (l : ProcLocal) : list VirtualTransactionId :=
  current_vxids_scan m limitXmin excludeXmin0 allDbs excludeVacuum l (numProcs (m 0%nat)) 0 [].

(** The reads are the pid, the database, the xmin and the virtual id. *)
Fixpoint conflicting_scan (m : nat -> ProcShared) (limitXmin : TransactionId) (dbOid : Z) (rounds i : nat)
    (vxids : list VirtualTransactionId) : list VirtualTransactionId :=
  match rounds with
  | O => vxids
  | S r =>
      let next := conflicting_scan m limitXmin dbOid r (S i) in
      if pid (proc_at (m (4 * i)%nat) i) =? 0 then next vxids
      else if (dbOid =? InvalidOid) || (databaseId (proc_at (m (4 * i + 1)%nat) i) =? dbOid) then
        let pxmin := pr_xmin (proc_at (m (4 * i + 2)%nat) i) in
        if negb (TransactionIdIsValid limitXmin)
           || (TransactionIdIsValid pxmin && negb (TransactionIdFollows pxmin limitXmin))
        then next (push_vxid (GET_VXID_FROM_PGPROC (proc_at (m (4 * i + 3)%nat) i)) vxids)
        else next vxids
      else next vxids
  end.

Definition InvalidBackendId : Z := -1.

(** With the terminator. *)
Definition GetConflictingVirtualXIDs (m : nat -> ProcShared) (limitXmin : TransactionId) (dbOid : Z)
    : list VirtualTransactionId :=
  conflicting_scan m limitXmin dbOid (numProcs (m 0%nat)) 0 [] ++ [mkVxid InvalidBackendId InvalidLocalTransactionId].

(** ** Signals *)

(** [SendProcSignal(pid, reason, backendId)] and [kill(pid, SIGTERM)]. *)
Inductive Signal :=
| SendProcSignal (pid reason backendId : Z)
| Kill_SIGTERM (pid : Z).

Definition set_conflictPending (b : bool) (p : PGPROC) : PGPROC :=
  mkPGPROC (pgprocno p) (pid p) (pgxactoff p) (pr_xid p) (pr_xmin p) (lxid p) (backendId p) (databaseId p)
    (roleId p) (pr_statusFlags p) (delayChkptFlags p) b (isBackgroundWorker p) (waitLock p) (subxidStatus p)
    (pr_subxids p).

(** The entry with the virtual id: [m i] is read for entry [i]. *)
Fixpoint find_vxid (m : nat -> ProcShared) (vxid : VirtualTransactionId) (rounds i : nat) : option nat :=
  match rounds with
  | O => None
  | S r =>
      if VirtualTransactionIdEquals (GET_VXID_FROM_PGPROC (proc_at (m i) i)) vxid then Some (procno_at (m i) i)
      else find_vxid m vxid r (S i)
  end.

(** [last] is the memory the found process is changed in.  The pid signalled,
    the new memory and the signals. *)
Definition SignalVirtualTransaction (m : nat -> ProcShared) (last : ProcShared) (vxid : VirtualTransactionId)
    (sigmode : Z) (conflictPending : bool) : Z * ProcShared * list Signal :=
  match find_vxid m vxid (numProcs (m 0%nat)) 0 with
  | None => (0, last, [])
  | Some p =>
      let pd := pid (proc last p) in
      (pd, upd_proc p (set_conflictPending conflictPending) last,
       if pd != 0 then [SendProcSignal pd sigmode (vx_backendId vxid)] else [])
  end.

Definition CancelVirtualTransaction (m : nat -> ProcShared) (last : ProcShared) (vxid : VirtualTransactionId)
    (sigmode : Z) : Z * ProcShared * list Signal := SignalVirtualTransaction m last vxid sigmode true.

(** Under the exclusive lock. *)
Fixpoint cancel_scan (databaseid sigmode : Z) (conflictPending : bool) (nos : list nat) (sh : ProcShared)
    : ProcShared * list Signal :=
  match nos with
  | [] => (sh, [])
  | p :: nos =>
      let pr := proc sh p in
      if (databaseid =? InvalidOid) || (databaseId pr =? databaseid) then
        let '(sh, signals) :=
          cancel_scan databaseid sigmode conflictPending nos (upd_proc p (set_conflictPending conflictPending) sh) in
        (sh, if pid pr != 0 then SendProcSignal (pid pr) sigmode (backendId pr) :: signals else signals)
      else cancel_scan databaseid sigmode conflictPending nos sh
  end.

Definition CancelDBBackends (databaseid sigmode : Z) (conflictPending : bool) (sh : ProcShared)
    : ProcShared * list Signal := cancel_scan databaseid sigmode conflictPending (pgprocnos sh) sh.

(** ** Backends by pid, transaction, database and user *)

Fixpoint find_pid (pd : Z) (sh : ProcShared) (nos : list nat) : option nat :=
  match nos with
  | [] => None
  | p :: nos => if pid (proc sh p) =? pd then Some p else find_pid pd sh nos
  end.

(** [None] is the null pointer. *)
Definition BackendPidGetProcWithLock (pd : Z) (sh : ProcShared) : option nat :=
  if pd =? 0 then None else find_pid pd sh (pgprocnos sh).

Definition BackendPidGetProc (pd : Z) (sh : ProcShared) : option nat :=
  if pd =? 0 then None else BackendPidGetProcWithLock pd sh.

Definition IsBackendPid (pd : Z) (sh : ProcShared) : bool := bool_decide (is_Some (BackendPidGetProc pd sh)).

Fixpoint xid_pid_scan (m : nat -> ProcShared) (xid : TransactionId) (rounds i : nat) : Z :=
  match rounds with
  | O => 0
  | S r => if at_index (xids (m i)) i =? xid then pid (proc_at (m i) i) else xid_pid_scan m xid r (S i)
  end.

Definition BackendXidGetPid (m : nat -> ProcShared) (xid : TransactionId) : Z :=
  if xid =? InvalidTransactionId then 0 else xid_pid_scan m xid (numProcs (m 0%nat)) 0.

(** The loops that count entries. *)
Fixpoint count_procs (counted : PGPROC -> bool) (sh : ProcShared) (nos : list nat) (cnt : Z) : Z :=
  match nos with
  | [] => cnt
  | p :: nos => count_procs counted sh nos (if counted (proc sh p) then cnt + 1 else cnt)
  end.

Definition CountDBBackends (databaseid : Z) (sh : ProcShared) : Z :=
  count_procs (fun pr => if pid pr =? 0 then false else (databaseid =? InvalidOid) || (databaseId pr =? databaseid))
    sh (pgprocnos sh) 0.

Definition CountDBConnections (databaseid : Z) (sh : ProcShared) : Z :=
  count_procs (fun pr => if pid pr =? 0 then false
                         else if isBackgroundWorker pr then false
                         else (databaseid =? InvalidOid) || (databaseId pr =? databaseid))
    sh (pgprocnos sh) 0.

Definition CountUserBackends (roleid : Z) (sh : ProcShared) : Z :=
  count_procs (fun pr => if pid pr =? 0 then false else if isBackgroundWorker pr then false else roleId pr =? roleid)
    sh (pgprocnos sh) 0.

(** One look at the array: whether anything was found, backends, prepared
    transactions, and the pids of autovacuum workers, at most
    [MAXAUTOVACPIDS]. *)
Definition MAXAUTOVACPIDS : nat := 10.

Fixpoint other_db_scan (database : Z) (me : nat) (sh : ProcShared) (nos : list nat) (i : nat)
    (acc : bool * Z * Z * list Z) : bool * Z * Z * list Z :=
  match nos with
  | [] => acc
  | p :: nos =>
      let pr := proc sh p in
      let flags := at_index (statusFlags sh) i in
      let '(found, nbackends, nprepared, autovac_pids) := acc in
      if databaseId pr != database then other_db_scan database me sh nos (S i) acc
      else if (p =? me)%nat then other_db_scan database me sh nos (S i) acc
      else if pid pr =? 0
      then other_db_scan database me sh nos (S i) (true, nbackends, nprepared + 1, autovac_pids)
      else
        let pids := if has_flag flags PROC_IS_AUTOVACUUM && (length autovac_pids <? MAXAUTOVACPIDS)%nat
                    then autovac_pids ++ [pid pr] else autovac_pids in
        other_db_scan database me sh nos (S i) (true, nbackends + 1, nprepared, pids)
  end.

Inductive CountError := QueryCanceled.

(** [memory k] is what the [k]-th try sees, [interrupt k] whether
    CHECK_FOR_INTERRUPTS of that try reports an error.  The answer, the two
    counts and the signals sent. *)
Fixpoint other_db_tries (memory : nat -> ProcShared) (interrupt : nat -> bool) (database : Z) (me left tries : nat)
    (counts : Z * Z) (signals : list Signal) : result CountError (bool * Z * Z * list Signal) :=
  match left with
  | O => Ok (true, counts.1, counts.2, signals)
  | S n =>
      if interrupt tries then Err QueryCanceled
      else
        let sh := memory tries in
        let '(found, nbackends, nprepared, pids) := other_db_scan database me sh (pgprocnos sh) 0 (false, 0, 0, []) in
        if negb found then Ok (false, nbackends, nprepared, signals)
        else other_db_tries memory interrupt database me n (S tries) (nbackends, nprepared)
               (signals ++ (Kill_SIGTERM <$> pids))
  end.

Definition CountOtherDBBackends (memory : nat -> ProcShared) (interrupt : nat -> bool) (database : Z) (me : nat)
    : result CountError (bool * Z * Z * list Signal) :=
  other_db_tries memory interrupt database me 50 0 (0, 0) [].

(** The pids of the other processes of the database, and how many of its
    processes stand for prepared transactions. *)
Fixpoint terminate_scan (database : Z) (me : nat) (sh : ProcShared) (nos : list nat) (acc : list Z * Z) : list Z * Z :=
  match nos with
  | [] => acc
  | p :: nos =>
      let pr := proc sh p in
      if databaseId pr != database then terminate_scan database me sh nos acc
      else if (p =? me)%nat then terminate_scan database me sh nos acc
      else if pid pr != 0 then terminate_scan database me sh nos (acc.1 ++ [pid pr], acc.2)
      else terminate_scan database me sh nos (acc.1, acc.2 + 1)
  end.

Inductive TerminateError :=
| UsedByPreparedTransactions (nprepared : Z)
| PermissionDenied (pid : Z).

Definition ROLE_PG_SIGNAL_BACKEND : Z := 4200.

Section Terminate.
Context (superuser_arg : Z -> bool) (superuser : bool) (has_privs_of_role : Z -> Z -> bool) (GetUserId : Z).

Definition may_terminate (role : Z) : bool :=
  if superuser_arg role && negb superuser then false
  else has_privs_of_role GetUserId role || has_privs_of_role GetUserId ROLE_PG_SIGNAL_BACKEND.

(** The loop of checks: [check k] is the memory of the [k]-th lookup. *)
Fixpoint check_pids (check : nat -> ProcShared) (pids : list Z) (k : nat) : option Z :=
  match pids with
  | [] => None
  | pd :: pids =>
      match BackendPidGetProc pd (check k) with
      | Some p => if may_terminate (roleId (proc (check k) p)) then check_pids check pids (S k) else Some pd
      | None => check_pids check pids (S k)
      end
  end.

(** The loop of signals, to the process groups. *)
Fixpoint kill_pids (check : nat -> ProcShared) (pids : list Z) (k : nat) : list Signal :=
  match pids with
  | [] => []
  | pd :: pids =>
      match BackendPidGetProc pd (check k) with
      | Some _ => Kill_SIGTERM (- pd) :: kill_pids check pids (S k)
      | None => kill_pids check pids (S k)
      end
  end.

Definition TerminateOtherDBBackends (sh : ProcShared) (check again : nat -> ProcShared) (database : Z) (me : nat)
    : result TerminateError (list Signal) :=
  let '(pids, nprepared) := terminate_scan database me sh (pgprocnos sh) ([], 0) in
  if 0 <? nprepared then Err (UsedByPreparedTransactions nprepared)
  else
    match check_pids check pids 0 with
    | Some pd => Err (PermissionDenied pd)
    | None => Ok (kill_pids again pids 0)
    end.
End Terminate.

(** ** Slots *)

Definition ProcArraySetReplicationSlotXmin (xmin catalog_xmin : TransactionId) (sh : ProcShared) : ProcShared :=
  set_slots xmin catalog_xmin sh.

Definition ProcArrayGetReplicationSlotXmin (sh : ProcShared) : TransactionId * TransactionId :=
  (replication_slot_xmin sh, replication_slot_catalog_xmin sh).

(** ** Imported and restored xmins *)

Definition PROC_XMIN_FLAGS : Z := Z.lor PROC_IN_VACUUM PROC_IN_SAFE_IC.

(** Whether some entry is the source transaction and covers [xmin].  The reads
    are the flags, the backend id, the local transaction id, the database and
    the xmin. *)
Fixpoint import_scan (m : nat -> ProcShared) (xmin : TransactionId) (source : VirtualTransactionId) (l : ProcLocal)
    (rounds i : nat) : bool :=
  match rounds with
  | O => false
  | S r =>
      let flags := at_index (statusFlags (m (5 * i)%nat)) i in
      let xid := pr_xmin (proc_at (m (5 * i + 4)%nat) i) in
      if has_flag flags PROC_IN_VACUUM then import_scan m xmin source l r (S i)
      else if backendId (proc_at (m (5 * i + 1)%nat) i) != vx_backendId source then import_scan m xmin source l r (S i)
      else if lxid (proc_at (m (5 * i + 2)%nat) i) != localTransactionId source then import_scan m xmin source l r (S i)
      else if databaseId (proc_at (m (5 * i + 3)%nat) i) != MyDatabaseId l then import_scan m xmin source l r (S i)
      else if negb (TransactionIdIsNormal xid) || negb (TransactionIdPrecedesOrEquals xid xmin)
      then import_scan m xmin source l r (S i)
      else true
  end.

(** [last] is the memory the xmin is installed in. *)
Definition ProcArrayInstallImportedXmin (m : nat -> ProcShared) (last : ProcShared) (xmin : TransactionId)
    (sourcevxid : option VirtualTransactionId) (l : ProcLocal) : bool * ProcShared * ProcLocal :=
  match sourcevxid with
  | None => (false, last, l)
  | Some source =>
      if import_scan m xmin source l (numProcs (m 0%nat)) 0
      then (true, upd_proc (MyProcNo l) (set_xmin xmin) last, set_xmins xmin (RecentXmin l) l)
      else (false, last, l)
  end.

(** Under the exclusive lock; [p] is the source. *)
Definition ProcArrayInstallRestoredXmin (xmin : TransactionId) (p : nat) (sh : ProcShared) (l : ProcLocal)
    : bool * ProcShared * ProcLocal :=
  let xid := pr_xmin (proc sh p) in
  if (databaseId (proc sh p) =? MyDatabaseId l) && TransactionIdIsNormal xid && TransactionIdPrecedesOrEquals xid xmin
  then
    let me := MyProcNo l in
    let sh := upd_proc me (set_xmin xmin) sh in
    let f := Z.lor (Z.land (pr_statusFlags (proc sh me)) (Z.lnot PROC_XMIN_FLAGS))
                   (Z.land (pr_statusFlags (proc sh p)) PROC_XMIN_FLAGS) in
    let sh := upd_proc me (set_statusFlags f) sh in
    (true, put_statusFlags (pgxactoff (proc sh me)) f sh, set_xmins xmin (RecentXmin l) l)
  else (false, sh, l).

(** ** Running transactions, for standbys *)

Record RunningTransactionsData := mkRunning {
  xcnt : Z;
  subxcnt : Z;
  subxid_overflow : bool;
  rx_nextXid : TransactionId;
  oldestRunningXid : TransactionId;
  rx_latestCompletedXid : TransactionId;
  rx_xids : list TransactionId;
}.

(** The first loop: the oldest id, whether a cache has overflowed, the ids. *)
Fixpoint running_scan (sh : ProcShared) (rounds i : nat) (acc : TransactionId * bool * list TransactionId)
    : TransactionId * bool * list TransactionId :=
  match rounds with
  | O => acc
  | S r =>
      let '(oldest, suboverflowed, ids) := acc in
      let xid := at_index (xids sh) i in
      if negb (TransactionIdIsValid xid) then running_scan sh r (S i) acc
      else
        let oldest := if TransactionIdPrecedes xid oldest then xid else oldest in
        let suboverflowed := if overflowed (state_at sh i) then true else suboverflowed in
        running_scan sh r (S i) (oldest, suboverflowed, ids ++ [xid])
  end.

(** The second loop: the cached subtransactions. *)
Fixpoint running_subxids (sh : ProcShared) (rounds i : nat) : list TransactionId :=
  match rounds with
  | O => []
  | S r =>
      let nsubxids := count (state_at sh i) in
      (if (0 <? nsubxids)%nat then take nsubxids (pr_subxids (proc_at sh i)) else [])
      ++ running_subxids sh r (S i)
  end.

(** With ProcArrayLock and XidGenLock held. *)
Definition GetRunningTransactionData (sh : ProcShared) : RunningTransactionsData :=
  let latest := XidFromFullTransactionId (latestCompletedXid sh) in
  let oldest := XidFromFullTransactionId (sh_nextXid sh) in
  let '(oldest, suboverflowed, ids) := running_scan sh (numProcs sh) 0 (oldest, false, []) in
  let subxids := if negb suboverflowed then running_subxids sh (numProcs sh) 0 else [] in
  let count := Z.of_nat (length (ids ++ subxids)) in
  let subcount := Z.of_nat (length subxids) in
  mkRunning (count - subcount) subcount suboverflowed (XidFromFullTransactionId (sh_nextXid sh)) oldest latest
    (ids ++ subxids).

(** The loop of the two functions below; [m i] is the memory of read [i]. *)
Fixpoint oldest_scan (m : nat -> ProcShared) (rounds i : nat) (oldest : TransactionId) : TransactionId :=
  match rounds with
  | O => oldest
  | S r =>
      let xid := at_index (xids (m i)) i in
      if negb (TransactionIdIsNormal xid) then oldest_scan m r (S i) oldest
      else oldest_scan m r (S i) (if TransactionIdPrecedes xid oldest then xid else oldest)
  end.

(** [next] is the memory under XidGenLock, [m] those under ProcArrayLock
    afterwards. *)
Definition GetOldestActiveTransactionId (next : ProcShared) (m : nat -> ProcShared) : TransactionId :=
  oldest_scan m (numProcs (m 0%nat)) 0 (XidFromFullTransactionId (sh_nextXid next)).

(** With both locks held. *)
Definition GetOldestSafeDecodingTransactionId (in_recovery catalogOnly : bool) (sh : ProcShared) : TransactionId :=
  let oldest := XidFromFullTransactionId (sh_nextXid sh) in
  let slot := replication_slot_xmin sh in
  let oldest := if TransactionIdIsValid slot && TransactionIdPrecedes slot oldest then slot else oldest in
  let catalog := replication_slot_catalog_xmin sh in
  let oldest := if catalogOnly && TransactionIdIsValid catalog && TransactionIdPrecedes catalog oldest
                then catalog else oldest in
  if negb in_recovery then oldest_scan (fun _ => sh) (numProcs sh) 0 oldest else oldest.

(** ** The initial array *)

(** [procs] are the processes, [maxprocs] is PROCARRAY_MAXPROCS. *)
Definition CreateSharedProcArray (procs : list PGPROC) (maxprocs : nat) (next latest : FullTransactionId)
    (oldest : TransactionId) : ProcShared :=
  let total := ((MAX_CACHED_SUBXIDS + 1) * maxprocs)%nat in
  mkProcShared procs maxprocs [] [] [] [] InvalidTransactionId InvalidTransactionId InvalidTransactionId latest 1
    next oldest
    (mkKnownXids (Z.of_nat total) 0 0 0 (replicate total 0) (replicate total false) 0 0).
