(* ===== verification/ProcSnapshot.v ===== *)
(** * ProcSnapshot: snapshots show the running transactions

    While a backend scans the process array under the shared lock, others may
    assign ids, set their xmin or finish read-only transactions, but no
    transaction with an id can end.  Under these acts, which [quiet_run]
    describes, the snapshot that [GetSnapshotData] builds shows exactly what
    was running when the lock was taken, and it goes on doing so until the
    completion count changes, which is what [GetSnapshotDataReuse] checks. *)

From stdpp Require Import sorting.
From S2P Require Import Prelude TransactionId KnownXids HeapTuple ProcArray ProcInv ProcRun ProcExample.
From S2P Require Import ProcScan.

Section Snapshot.
Context (topmost : TransactionId -> TransactionId) (o : TransactionId).

Abbreviation step := (sys_step topmost o).
Abbreviation ok := (sys_ok topmost o).

(** ** Acts under the shared lock *)

Definition quiet_act (a : Act) (s : Sys) : Prop :=
  match a with
  | AAssign _ | AAssignSub _ | ACommitLog _ | ASetXmin _ _ => True
  | AEndNoXid p => has_flag (pr_statusFlags (proc (mem s) p)) PROC_VACUUM_STATE_MASK = false
  | _ => False
  end.

Inductive quiet_run : Sys -> Sys -> Prop :=
| quiet_refl s : quiet_run s s
| quiet_step a s s1 s' : quiet_act a s -> step a s s1 -> quiet_run s1 s' -> quiet_run s s'.

(** What a process may look like later: an id that was set stays, the cache
    only grows, and what is new was not assigned before. *)
Record proc_later (next : TransactionId) (pr pr' : PGPROC) : Prop := {
  pl_xid : pr_xid pr' = pr_xid pr \/
    pr_xid pr = InvalidTransactionId /\ normal_xid (pr_xid pr') /\ xid_age o next <= xid_age o (pr_xid pr');
  pl_count : (count (subxidStatus pr) <= count (subxidStatus pr'))%nat;
  pl_prefix : take (count (subxidStatus pr)) (pr_subxids pr') = cached pr;
  pl_new : forall x, x ∈ cached pr' -> x ∈ cached pr \/ xid_age o next <= xid_age o x;
  pl_overflowed : overflowed (subxidStatus pr) = true -> overflowed (subxidStatus pr') = true;
  pl_flags : pr_statusFlags pr' = pr_statusFlags pr;
  pl_db : databaseId pr' = databaseId pr;
}.

Record later (s s' : Sys) : Prop := {
  la_nos : pgprocnos (mem s') = pgprocnos (mem s);
  la_latest : latestCompletedXid (mem s') = latestCompletedXid (mem s);
  la_completions : xactCompletionCount (mem s') = xactCompletionCount (mem s);
  la_next : xid_age o (next_xid (mem s)) <= xid_age o (next_xid (mem s'));
  la_procs : forall p, p ∈ pgprocnos (mem s) ->
    proc_later (next_xid (mem s)) (proc (mem s) p) (proc (mem s') p);
}.

Lemma proc_later_refl next pr : proc_later next pr pr.
Proof. constructor; auto. Qed.

Lemma take_take_le {A} (n n' : nat) (l : list A) : (n <= n')%nat -> take n (take n' l) = take n l.
Proof. intros. rewrite take_take. by rewrite Nat.min_l. Qed.

Lemma proc_later_trans next next' pr1 pr2 pr3 :
  xid_age o next <= xid_age o next' -> proc_later next pr1 pr2 -> proc_later next' pr2 pr3 ->
  proc_later next pr1 pr3.
Proof.
  intros Hn [X1 C1 P1 N1 O1 F1 D1] [X2 C2 P2 N2 O2 F2 D2]. constructor.
  - destruct X2 as [->|(E & Hx & Ha)]; [done|]. right. destruct X1 as [X1|(E1 & Hx1 & _)].
    + split_and!; [congruence|done|lia].
    + rewrite E in Hx1. destruct Hx1 as [Hx1 _]. by vm_compute in Hx1.
  - lia.
  - rewrite <- P1. rewrite <- (take_take_le _ (count (subxidStatus pr2))) by done. rewrite P2.
    unfold cached. by rewrite take_take_le.
  - intros x Hx. destruct (N2 x Hx) as [Hx2|?]; [|right; lia]. by apply N1.
  - auto.
  - congruence.
  - congruence.
Qed.

Lemma later_refl s : later s s.
Proof. constructor; try done. intros p _. apply proc_later_refl. Qed.

Lemma later_trans s1 s2 s3 : later s1 s2 -> later s2 s3 -> later s1 s3.
Proof.
  intros [A1 B1 C1 D1 E1] [A2 B2 C2 D2 E2]. constructor; [congruence..|lia|].
  intros p Hp. eapply proc_later_trans; [exact D1|by apply E1|]. apply E2. by rewrite A1.
Qed.

Lemma later_others s s' p :
  pgprocnos (mem s') = pgprocnos (mem s) -> latestCompletedXid (mem s') = latestCompletedXid (mem s) ->
  xactCompletionCount (mem s') = xactCompletionCount (mem s) ->
  xid_age o (next_xid (mem s)) <= xid_age o (next_xid (mem s')) ->
  (forall n, n <> p -> proc (mem s') n = proc (mem s) n) ->
  proc_later (next_xid (mem s)) (proc (mem s) p) (proc (mem s') p) -> later s s'.
Proof.
  intros En El Ec Hn Ho Hp. constructor; try done. intros n _.
  destruct (decide (n = p)) as [->|Hne]; [done|]. rewrite Ho by done. apply proc_later_refl.
Qed.

Lemma proc_later_same next pr pr' :
  pr_xid pr' = pr_xid pr -> subxidStatus pr' = subxidStatus pr -> pr_subxids pr' = pr_subxids pr ->
  pr_statusFlags pr' = pr_statusFlags pr -> databaseId pr' = databaseId pr -> proc_later next pr pr'.
Proof.
  intros Hx Hs Ha Hf Hd. constructor; unfold cached; rewrite ?Hs, ?Ha; try done; [by left|by left].
Qed.

Lemma quiet_act_later a s s' : ok s -> quiet_act a s -> step a s s' -> later s s'.
Proof.
  intros Hok Hq [Ha Hact]. pose proof Hok as [Hm Hn Hf _ Hps _].
  destruct a as [p tree|p x|p|p|p|p x|p|p|p x l y|p x|p f]; try done; injection Hact as <-.
  - destruct Ha as (Hp & Hidle & _ & H4 & Hage). cbn [act_proc] in *.
    destruct (advertise_xid_common (mem s) p false Hm Hp) as (_ & En & Eo & Ex & El & Ec & _).
    destruct (advance_next o (sh_nextXid (mem s)) Hf H4 Hn Hage) as (_ & _ & Hlt & _).
    apply (later_others s _ p); cbn [mem]; try done.
    + unfold next_xid. rewrite Ex. unfold next_xid in Hlt. lia.
    + rewrite (advertise_top (mem s) p Hm Hp). constructor; try done; [|by left].
      right. split_and!; [done|apply Hn|]. cbn. unfold next_xid. lia.
  - destruct Ha as (Hp & Hidle & _ & H4 & Hage). cbn [act_proc] in *.
    destruct (advertise_xid_common (mem s) p true Hm Hp) as (_ & En & Eo & Ex & El & Ec & _).
    destruct (advance_next o (sh_nextXid (mem s)) Hf H4 Hn Hage) as (_ & _ & Hlt & _).
    apply (later_others s _ p); cbn [mem]; try done.
    + unfold next_xid. rewrite Ex. unfold next_xid in Hlt. lia.
    + destruct (advertise_sub (mem s) p Hm Hp) as (Exid & Hc & Hcnt & Hpre & _).
      pose proof (advertise_sub_flags (mem s) p Hm Hp) as [Efl Edb].
      constructor; try done; [by left| |].
      * intros x. destruct Hc as [[-> _]|[-> _]]; [|by left]. rewrite elem_of_app, list_elem_of_singleton.
        intros [?| ->]; [by left|right]. unfold next_xid. lia.
      * destruct Hc as [[_ ->]|[_ ->]]; done.
  - by destruct (later_refl s).
  - destruct Ha as [Hp _]. cbn [act_proc quiet_act] in *.
    destruct (end_without_xid_effect (mem s) p Hm Hp) as ([_ En Eo Ex] & E1 & E2 & E3 & E4 & E5).
    apply (later_others s _ p); cbn [mem]; try done.
    + unfold next_xid. rewrite Ex. lia.
    + apply proc_later_same; try done; by apply end_without_xid_flags.
  - cbn [act_ok act_proc] in Ha. apply (later_others s _ p); cbn [mem]; try done.
    + intros n Hne. exact (proc_alter_ne (mem s) p n _ (not_eq_sym Hne)).
    + rewrite (upd_proc_at (mem s) p Hm Ha). by apply proc_later_same.
Qed.

Lemma quiet_run_ok s s' : ok s -> quiet_run s s' -> ok s'.
Proof. intros Hok Hr. induction Hr as [|a s s1 s' Hq Hs Hr IH]; [done|]. by eapply IH, sys_step_ok. Qed.

Lemma quiet_run_later s s' : ok s -> quiet_run s s' -> later s s'.
Proof.
  intros Hok Hr. induction Hr as [|a s s1 s' Hq Hs Hr IH]; [apply later_refl|].
  eapply later_trans; [by eapply quiet_act_later|]. by eapply IH, sys_step_ok.
Qed.

(** ** The scan *)

(** The processes a snapshot of [me] includes. *)
Definition included (sh : ProcShared) (me : nat) (xmax : TransactionId) (p : nat) : bool :=
  TransactionIdIsValid (pr_xid (proc sh p)) && negb (p =? me)%nat
  && TransactionIdPrecedes (pr_xid (proc sh p)) xmax && negb (skipped (proc sh p)).

Lemma normal_precedes o' x y :
  in_window o' x -> in_window o' y -> NormalTransactionIdPrecedes x y = TransactionIdPrecedes x y.
Proof. intros [Hx ?] [Hy ?]. unfold NormalTransactionIdPrecedes. xid_cmp. done. Qed.

(** The first id after the latest completed one is no later than the counter. *)
Lemma xmax_window sh :
  in_window o (next_xid sh) -> assigned o (next_xid sh) (latest_xid sh) ->
  let xmax := TransactionIdAdvance (latest_xid sh) in
  in_window o xmax /\ xid_age o xmax <= xid_age o (next_xid sh) /\
  forall x, normal_xid x -> xid_age o xmax <= xid_age o x -> xid_age o x < 2 ^ 31 -> xid_age o (latest_xid sh) < xid_age o x.
Proof.
  intros [Hn Hw] [Hl Ha] xmax. unfold xmax, TransactionIdAdvance. revert Hn Hw Hl Ha. xid_unfold.
  destruct (Z.ltb_spec (latest_xid sh +u32 1) 3); intros; split_and!; try cint; intros; cint.
Qed.

(** The state of the memory at the reads of one backend's scan. *)
Definition scanning (sigma : nat -> Sys) : Prop := ok (sigma 0%nat) /\ forall t, quiet_run (sigma t) (sigma (S t)).

Lemma quiet_run_trans s1 s2 s3 : quiet_run s1 s2 -> quiet_run s2 s3 -> quiet_run s1 s3.
Proof. induction 1; [done|]. intros. econstructor; eauto. Qed.

Lemma scanning_run sigma t t' : scanning sigma -> (t <= t')%nat -> quiet_run (sigma t) (sigma t').
Proof.
  intros [_ Hs] Hle. induction Hle as [|t' Hle IH]; [constructor|]. by eapply quiet_run_trans.
Qed.

Lemma scanning_ok sigma t : scanning sigma -> ok (sigma t).
Proof. intros Hs. eapply quiet_run_ok; [apply Hs|]. apply scanning_run; [done|lia]. Qed.

Lemma scanning_later sigma t t' : scanning sigma -> (t <= t')%nat -> later (sigma t) (sigma t').
Proof. intros Hs Hle. eapply quiet_run_later; [by apply scanning_ok|by apply scanning_run]. Qed.

(** A read of the mirrors at index [i] is a read of the process there. *)
Lemma read_mirrors s i p :
  ok s -> pgprocnos (mem s) !! i = Some p ->
  at_index (xids (mem s)) i = pr_xid (proc (mem s) p) /\ state_at (mem s) i = subxidStatus (proc (mem s) p) /\
  at_index (statusFlags (mem s)) i = pr_statusFlags (proc (mem s) p) /\ procno_at (mem s) i = p /\
  pgxactoff (proc (mem s) p) = i.
Proof.
  intros Hok Hi. pose proof (so_mirrored _ _ _ Hok) as Hm. unfold at_index, state_at, procno_at.
  rewrite (mi_xids _ Hm), (mi_subxids _ Hm), (mi_flags _ Hm), !list_lookup_fmap, Hi.
  split_and!; try done. by apply (mi_off _ Hm).
Qed.

(** What the scan has gathered from the processes [l]. *)
Record scanned (s : Sys) (me : nat) (xmax myxmin : TransactionId) (l : list nat) (sc : SnapScan) : Prop := {
  sn_xip : sc_xip sc = (fun p => pr_xid (proc (mem s) p)) <$> filter (fun p => included (mem s) me xmax p = true) l;
  sn_xmin_window : in_window o (sc_xmin sc);
  sn_xmin_le : xid_age o (sc_xmin sc) <= xid_age o myxmin /\
    forall x, x ∈ sc_xip sc -> xid_age o (sc_xmin sc) <= xid_age o x;
  sn_xmin_attained : sc_xmin sc = myxmin \/ sc_xmin sc ∈ sc_xip sc;
  sn_complete : sc_overflowed sc = false -> forall p, p ∈ l -> included (mem s) me xmax p = true ->
    overflowed (subxidStatus (proc (mem s) p)) = false /\ forall x, x ∈ cached (proc (mem s) p) -> x ∈ sc_subxip sc;
  sn_exact : forall x, x ∈ sc_subxip sc ->
    (exists p, p ∈ l /\ included (mem s) me xmax p = true /\ x ∈ cached (proc (mem s) p)) \/
    xid_age o (next_xid (mem s)) <= xid_age o x;
}.

Lemma scanned_skip s me xmax myxmin l sc p :
  included (mem s) me xmax p = false -> scanned s me xmax myxmin l sc -> scanned s me xmax myxmin (l ++ [p]) sc.
Proof.
  intros Hi [H1 H2 H3 H4 H5 H6]. constructor; try done.
  - rewrite filter_app, filter_cons_False by (by rewrite Hi). by rewrite filter_nil, app_nil_r.
  - intros Ho q [Hq| ->%list_elem_of_singleton]%elem_of_app Hinc; [by apply H5|congruence].
  - intros x Hx. destruct (H6 x Hx) as [(q & Hq & ?)|?]; [left|by right]. exists q. split; [|done].
    apply elem_of_app. by left.
Qed.

Lemma scanned_add s me xmax myxmin l sc p sub ov :
  let xid := pr_xid (proc (mem s) p) in
  included (mem s) me xmax p = true -> in_window o xid -> scanned s me xmax myxmin l sc ->
  (ov = false -> sc_overflowed sc = false /\ overflowed (subxidStatus (proc (mem s) p)) = false /\
     forall x, x ∈ cached (proc (mem s) p) -> x ∈ sub) ->
  (forall x, x ∈ sub -> x ∈ cached (proc (mem s) p) \/ xid_age o (next_xid (mem s)) <= xid_age o x) ->
  scanned s me xmax myxmin (l ++ [p])
    (mkSnapScan (if NormalTransactionIdPrecedes xid (sc_xmin sc) then xid else sc_xmin sc)
       (sc_xip sc ++ [xid]) (sc_subxip sc ++ sub) ov).
Proof.
  intros xid Hinc Hw [H1 H2 [H3 H3'] H4 H5 H6] Hov Hsub.
  rewrite (normal_precedes o) by done. rewrite (precedes_window o) by done.
  constructor; cbn [sc_xip sc_xmin sc_subxip sc_overflowed].
  - by rewrite filter_app, filter_cons_True, filter_nil, fmap_app, H1.
  - by case_if.
  - case_if; bool_simpl; (split; [lia|]); intros x [Hx| ->%list_elem_of_singleton]%elem_of_app; try lia;
      specialize (H3' x Hx); lia.
  - case_if; [right; apply elem_of_app; right; by apply list_elem_of_singleton|].
    destruct H4 as [?|?]; [by left|right; apply elem_of_app; by left].
  - intros ->. destruct (Hov eq_refl) as (Ho & Hp & Hc).
    intros q [Hq| ->%list_elem_of_singleton]%elem_of_app Hq'.
    + destruct (H5 Ho q Hq Hq') as [? Hx]. split; [done|]. intros x ?%Hx. apply elem_of_app. by left.
    + split; [done|]. intros x ?%Hc. apply elem_of_app. by right.
  - intros x [Hx|Hx]%elem_of_app.
    + destruct (H6 x Hx) as [(q & Hq & ?)|?]; [left|by right]. exists q. split; [apply elem_of_app; by left|done].
    + destruct (Hsub x Hx) as [?|?]; [left|by right]. exists p.
      split; [apply elem_of_app; right; by apply list_elem_of_singleton|done].
Qed.

(** The processes of an array keep their places during a scan. *)
Lemma scanning_at sigma t i p :
  scanning sigma -> pgprocnos (mem (sigma 0%nat)) !! i = Some p ->
  pgprocnos (mem (sigma t)) !! i = Some p /\
  proc_later (next_xid (mem (sigma 0%nat))) (proc (mem (sigma 0%nat)) p) (proc (mem (sigma t)) p).
Proof.
  intros Hs Hi. destruct (scanning_later sigma 0 t Hs) as [En _ _ _ Hp]; [lia|]. rewrite En. split; [done|].
  apply Hp. by eapply list_elem_of_lookup_2.
Qed.

(** An id read during the scan is the one at its start, or none was there and
    it is not before the counter. *)
Lemma xid_read sigma t i p :
  scanning sigma -> pgprocnos (mem (sigma 0%nat)) !! i = Some p ->
  let x := at_index (xids (mem (sigma t))) i in
  let x0 := pr_xid (proc (mem (sigma 0%nat)) p) in
  (x = x0 \/ x0 = InvalidTransactionId /\ xid_age o (next_xid (mem (sigma 0%nat))) <= xid_age o x) /\
  (x <> InvalidTransactionId -> in_window o x).
Proof.
  intros Hs Hi x x0. destruct (scanning_at sigma t i p Hs Hi) as [Hit [Hx _ _ _ _ _]].
  destruct (read_mirrors _ _ _ (scanning_ok sigma t Hs) Hit) as (Ex & _). fold x in Ex. rewrite <- Ex in Hx.
  split; [destruct Hx as [?|(? & _ & ?)]; [by left|by right]|]. intros Hne. rewrite Ex in *.
  pose proof (scanning_ok sigma t Hs) as Hok. eapply assigned_window; [apply Hok|].
  apply (so_procs _ _ _ Hok p); [by eapply list_elem_of_lookup_2|done].
Qed.

Section Scan.
Context (sigma : nat -> Sys) (me : nat) (Hscan : scanning sigma).
Context (Hme : me ∈ pgprocnos (mem (sigma 0%nat))).

Abbreviation s0 := (sigma 0%nat).
Abbreviation sh0 := (mem (sigma 0%nat)).
Abbreviation m := (fun t => mem (sigma t)).

Lemma ok0 : ok s0.
Proof. apply Hscan. Qed.

Definition the_xmax : TransactionId := TransactionIdAdvance (latest_xid sh0).

Lemma the_xmax_window :
  in_window o the_xmax /\ xid_age o the_xmax <= xid_age o (next_xid sh0) /\
  forall x, normal_xid x -> xid_age o the_xmax <= xid_age o x -> xid_age o x < 2 ^ 31 ->
    xid_age o (latest_xid sh0) < xid_age o x.
Proof. apply xmax_window; apply ok0. Qed.

Lemma xid0_window p : p ∈ pgprocnos sh0 -> pr_xid (proc sh0 p) <> InvalidTransactionId -> in_window o (pr_xid (proc sh0 p)).
Proof. intros Hp Hx. eapply assigned_window; [apply ok0|]. by apply (so_procs _ _ _ ok0 p). Qed.

(** The cached ids copied at [t'] with the count read at [t]: all that were
    cached at the start, and nothing else that was assigned by then. *)
Lemma subxids_read t t' i p :
  (t <= t')%nat -> pgprocnos sh0 !! i = Some p ->
  let sub := take (count (state_at (m t) i)) (pr_subxids (proc (m t') (procno_at (m t') i))) in
  (forall x, x ∈ cached (proc sh0 p) -> x ∈ sub) /\
  (forall x, x ∈ sub -> x ∈ cached (proc sh0 p) \/ xid_age o (next_xid sh0) <= xid_age o x).
Proof.
  intros Hle Hi. destruct (scanning_at sigma t i p Hscan Hi) as [Hit Hlt].
  destruct (read_mirrors _ _ _ (scanning_ok sigma t Hscan) Hit) as (_ & -> & _).
  destruct (scanning_at sigma t' i p Hscan Hi) as [Hit' _].
  destruct (read_mirrors _ _ _ (scanning_ok sigma t' Hscan) Hit') as (_ & _ & _ & -> & _).
  destruct (scanning_later sigma t t' Hscan Hle) as [_ _ _ _ Hl].
  rewrite (pl_prefix _ _ _ (Hl p (list_elem_of_lookup_2 _ _ _ Hit))). split; [|by apply (pl_new _ _ _ Hlt)].
  intros x Hx. rewrite <- (pl_prefix _ _ _ Hlt) in Hx. unfold cached.
  eapply elem_of_sublist; [exact Hx|]. rewrite <- (take_take_le _ (count (subxidStatus (proc (m t) p)))) by apply Hlt.
  apply sublist_take.
Qed.

Lemma snapshot_entry_scanned i p l myxmin sc :
  pgprocnos sh0 !! i = Some p -> scanned s0 me the_xmax myxmin l sc ->
  scanned s0 me the_xmax myxmin (l ++ [p]) (snapshot_entry m (pgxactoff (proc sh0 me)) the_xmax i sc).
Proof.
  intros Hi Hsc. destruct the_xmax_window as (Hxw & Hxn & _). unfold snapshot_entry.
  assert (Hp : p ∈ pgprocnos sh0) by (by eapply list_elem_of_lookup_2).
  destruct (xid_read sigma (5 * i) i p Hscan Hi) as [Hx Hxwin]. set (x := at_index (xids _) i) in *.
  destruct (Z.eqb_spec x InvalidTransactionId) as [Hx0|Hxne].
  { apply scanned_skip; [|done]. unfold included. destruct Hx as [<-|[-> _]]; by rewrite ?Hx0. }
  specialize (Hxwin Hxne). destruct (Nat.eqb_spec i (pgxactoff (proc sh0 me))) as [Hoff|Hoff].
  { apply scanned_skip; [|done]. unfold included. pose proof (mi_at _ _ (so_mirrored _ _ _ ok0) Hme) as Hat.
    rewrite <- Hoff, Hi in Hat. simplify_eq. by rewrite Nat.eqb_refl, andb_false_r. }
  assert (Hpme : (p =? me)%nat = false).
  { apply Nat.eqb_neq. intros ->. apply Hoff. symmetry. by apply (mi_off _ (so_mirrored _ _ _ ok0)). }
  rewrite (normal_precedes o) by done. destruct (TransactionIdPrecedes x the_xmax) eqn:Hpre; cbn [negb].
  2: { apply scanned_skip; [|done]. unfold included. destruct Hx as [<-|[-> _]]; [|done]. by rewrite Hpre, andb_false_r. }
  destruct Hx as [Hx|[_ Hx]].
  2: { rewrite (precedes_window o) in Hpre by done. apply Z.ltb_lt in Hpre. lia. }
  destruct (scanning_at sigma (5 * i + 1) i p Hscan Hi) as [Hi1 Hl1].
  destruct (read_mirrors _ _ _ (scanning_ok sigma (5 * i + 1) Hscan) Hi1) as (_ & _ & -> & _).
  rewrite (pl_flags _ _ _ Hl1). change (has_flag (pr_statusFlags (proc sh0 p)) _) with (skipped (proc sh0 p)).
  destruct (skipped (proc sh0 p)) eqn:Hsk.
  { apply scanned_skip; [|done]. unfold included. by rewrite Hsk, andb_false_r. }
  assert (Hinc : included sh0 me the_xmax p = true).
  { unfold included. rewrite <- Hx, Hpre, Hpme, Hsk. unfold TransactionIdIsValid. by rewrite (proj2 (Z.eqb_neq _ _) Hxne). }
  rewrite Hx in *. destruct (sc_overflowed sc) eqn:Hov.
  { replace (sc_subxip sc) with (sc_subxip sc ++ []) by apply app_nil_r.
    apply scanned_add; try done. by intros y ?%not_elem_of_nil. }
  destruct (scanning_at sigma (5 * i + 2) i p Hscan Hi) as [Hi2 Hl2].
  destruct (read_mirrors _ _ _ (scanning_ok sigma (5 * i + 2) Hscan) Hi2) as (_ & -> & _).
  destruct (overflowed (subxidStatus (proc (m (5 * i + 2)%nat) p))) eqn:Hov2.
  { replace (sc_subxip sc) with (sc_subxip sc ++ []) by apply app_nil_r.
    apply scanned_add; try done. by intros y ?%not_elem_of_nil. }
  destruct (subxids_read (5 * i + 3) (5 * i + 4) i p) as [Hsub Hnew]; [lia|done|]. apply scanned_add; try done.
  intros _. split_and!; [done| |done].
  destruct (overflowed (subxidStatus (proc sh0 p))) eqn:Ho; [|done]. by rewrite (pl_overflowed _ _ _ Hl2 Ho) in Hov2.
Qed.

Lemma snapshot_scan_scanned rounds i myxmin sc :
  (i + rounds = numProcs sh0)%nat -> scanned s0 me the_xmax myxmin (take i (pgprocnos sh0)) sc ->
  scanned s0 me the_xmax myxmin (pgprocnos sh0)
    (snapshot_scan m (pgxactoff (proc sh0 me)) the_xmax rounds i sc).
Proof.
  revert i sc. induction rounds as [|r IH]; intros i sc Hr Hsc; cbn [snapshot_scan].
  { rewrite take_ge in Hsc; [done|]. unfold numProcs in Hr. lia. }
  destruct (lookup_lt_is_Some_2 (pgprocnos sh0) i) as [p Hi]; [unfold numProcs in Hr; lia|].
  apply IH; [lia|]. rewrite (take_S_r _ _ p) by done. by apply snapshot_entry_scanned.
Qed.

(** The contents of a snapshot taken outside recovery. *)
Lemma snapshot_contents_scanned :
  let myxid := pr_xid (proc sh0 me) in
  let myxmin := if TransactionIdIsNormal myxid && TransactionIdPrecedes myxid the_xmax then myxid else the_xmax in
  (snapshot_contents false m me).2 = the_xmax /\
  scanned s0 me the_xmax myxmin (pgprocnos sh0) (snapshot_contents false m me).1.
Proof.
  intros myxid myxmin. unfold snapshot_contents. cbn [negb fst snd]. split; [done|].
  pose proof (mi_at _ _ (so_mirrored _ _ _ ok0) Hme) as Hat.
  destruct (read_mirrors _ _ _ ok0 Hat) as (-> & _). fold (latest_xid sh0). fold the_xmax. fold myxid.
  destruct the_xmax_window as (Hxw & _).
  assert (Hmy : TransactionIdIsNormal myxid = true -> in_window o myxid).
  { intros Hn. apply xid0_window; [done|]. fold myxid. intros Hz. by rewrite Hz in Hn. }
  replace (if TransactionIdIsNormal myxid && NormalTransactionIdPrecedes myxid the_xmax then myxid else the_xmax)
    with myxmin.
  2: { unfold myxmin. destruct (TransactionIdIsNormal myxid) eqn:Hn; [|done]. by rewrite (normal_precedes o) by auto. }
  apply snapshot_scan_scanned; [done|].
  assert (Hw : in_window o myxmin) by (unfold myxmin; case_if; bool_simpl; auto).
  constructor; cbn [sc_xip sc_xmin sc_subxip sc_overflowed]; try done; [|by left|..].
  - split; [lia|]. by intros x ?%not_elem_of_nil.
  - by intros _ p ?%not_elem_of_nil.
  - by intros x ?%not_elem_of_nil.
Qed.

End Scan.

(** ** What a snapshot shows *)

Definition snapshot_shows (me : nat) (s : Sys) (sn : SnapshotData) : Prop :=
  forall x, in_window o x ->
    ((exists q, q <> me /\ runs s q x /\ skipped (proc (mem s) q) = false) -> ~ runs s me x ->
     XidInMVCCSnapshot topmost x sn = true) /\
    (~ assigned o (next_xid (mem s)) x -> XidInMVCCSnapshot topmost x sn = true) /\
    (XidInMVCCSnapshot topmost x sn = true ->
     ~ assigned o (next_xid (mem s)) x \/ running s x \/ suboverflowed sn = true /\ running s (topmost x)).

Section Shows.
Context (s : Sys) (me : nat) (myxmin : TransactionId) (sc : SnapScan) (ty : SnapshotType) (cid token : Z).
Context (Hok : ok s).

Abbreviation xmax := (TransactionIdAdvance (latest_xid (mem s))).
Abbreviation sn :=
  (mkSnapshot ty (sc_xmin sc) xmax (sc_xip sc) (sc_subxip sc) (sc_overflowed sc) false cid token).

Context (Hsc : scanned s me xmax myxmin (pgprocnos (mem s)) sc) (Hmin : xid_age o myxmin <= xid_age o xmax).

Lemma xip_elem x : x ∈ sc_xip sc <-> exists p, p ∈ pgprocnos (mem s) /\ included (mem s) me xmax p = true /\ x = pr_xid (proc (mem s) p).
Proof.
  rewrite (sn_xip _ _ _ _ _ _ Hsc), list_elem_of_fmap. setoid_rewrite list_elem_of_filter. naive_solver.
Qed.

Lemma included_runs p : p ∈ pgprocnos (mem s) -> included (mem s) me xmax p = true -> runs s p (pr_xid (proc (mem s) p)).
Proof. intros Hp Hi. unfold included in Hi. bool_simpl. split_and!; auto. Qed.

(** The test between the bounds. *)
Lemma XidInMVCC_between x :
  in_window o x -> xid_age o x < xid_age o xmax ->
  XidInMVCCSnapshot topmost x sn = true ->
  if sc_overflowed sc then topmost x ∈ sc_xip sc else x ∈ sc_subxip sc \/ x ∈ sc_xip sc.
Proof.
  intros Hx Hlt. destruct (xmax_window (mem s)) as (Hxw & _); [apply Hok..|].
  unfold XidInMVCCSnapshot. cbn [snap_xmin snap_xmax xip subxip suboverflowed takenDuringRecovery negb].
  case_if; [done|]. rewrite (follows_or_equals_window o) by done. case_if; [bool_simpl; lia|].
  destruct (sc_overflowed sc); cbn [negb].
  - case_if; [done|]. case_if; [|done]. intros _. by apply pg_lfind32_elem.
  - case_if; [intros _; left; by apply pg_lfind32_elem|]. case_if; [|done]. intros _. right. by apply pg_lfind32_elem.
Qed.

Lemma XidInMVCC_at_least x :
  in_window o x -> xid_age o xmax <= xid_age o x -> XidInMVCCSnapshot topmost x sn = true.
Proof.
  intros Hx Hle. destruct (xmax_window (mem s)) as (Hxw & _); [apply Hok..|].
  pose proof (sn_xmin_window _ _ _ _ _ _ Hsc). destruct (sn_xmin_le _ _ _ _ _ _ Hsc) as [Hm _].
  unfold XidInMVCCSnapshot. cbn [snap_xmin snap_xmax].
  rewrite (precedes_window o), (follows_or_equals_window o) by done.
  case_if; bool_simpl; [lia|]. rewrite (proj2 (Z.leb_le _ _)) by done. done.
Qed.

Lemma XidInMVCC_included x p :
  in_window o x -> p ∈ pgprocnos (mem s) -> included (mem s) me xmax p = true -> runs s p x ->
  XidInMVCCSnapshot topmost x sn = true.
Proof.
  intros Hx Hp Hinc Hr. destruct (xmax_window (mem s)) as (Hxw & _); [apply Hok..|].
  destruct (Z.le_gt_cases (xid_age o xmax) (xid_age o x)) as [?|Hlt]; [by apply XidInMVCC_at_least|].
  pose proof (sn_xmin_window _ _ _ _ _ _ Hsc) as Hmw. destruct (sn_xmin_le _ _ _ _ _ _ Hsc) as [_ Hall].
  assert (Hxip : pr_xid (proc (mem s) p) ∈ sc_xip sc) by (apply xip_elem; eauto).
  pose proof (Hall _ Hxip) as Hle. destruct (so_procs _ _ _ Hok p Hp) as [P1 P2 P3 P4 P5 P6].
  assert (Hxne : pr_xid (proc (mem s) p) <> InvalidTransactionId).
  { unfold included in Hinc. bool_simpl. intros Hz. by rewrite Hz in *. }
  destruct (P2 Hxne) as [Hxa Hxt]. pose proof (assigned_window _ _ _ (so_next _ _ _ Hok) Hxa) as Hxaw.
  assert (Htop : topmost x = pr_xid (proc (mem s) p) /\ xid_age o (pr_xid (proc (mem s) p)) <= xid_age o x).
  { destruct Hr as (_ & _ & [->|Hin]); [split; [done|lia]|]. destruct (P3 x Hin) as (_ & ? & ?). split; [done|lia]. }
  destruct Htop as [Htop Hage]. unfold XidInMVCCSnapshot.
  cbn [snap_xmin snap_xmax xip subxip suboverflowed takenDuringRecovery negb]. rewrite Htop.
  rewrite !(precedes_window o), (follows_or_equals_window o) by done.
  rewrite !(proj2 (Z.ltb_ge _ _)), (proj2 (Z.leb_gt _ _)) by lia.
  destruct (sc_overflowed sc) eqn:Hov; cbn [negb].
  - by rewrite (proj2 (pg_lfind32_elem _ _) Hxip).
  - destruct (sn_complete _ _ _ _ _ _ Hsc Hov p Hp Hinc) as [Hpo Hc]. destruct Hr as (_ & _ & [->|Hin]).
    + rewrite (proj2 (pg_lfind32_elem _ _) Hxip). by case_if.
    + destruct (P5 x Hin) as [Hca|?]; [|congruence]. by rewrite (proj2 (pg_lfind32_elem _ _) (Hc x Hca)).
Qed.

Lemma scanned_shows : snapshot_shows me s sn.
Proof.
  intros x Hx. destruct (xmax_window (mem s)) as (Hxw & Hxn & Hgap); [apply Hok..|]. split_and!.
  - intros (q & Hq & Hr & Hsk) _. destruct Hr as (Hp & Hv & Hor). assert (Hr : runs s q x) by done.
    destruct (Z.le_gt_cases (xid_age o xmax) (xid_age o x)) as [?|Hlt]; [by apply XidInMVCC_at_least|].
    apply (XidInMVCC_included x q); try done. destruct (so_procs _ _ _ Hok q Hp) as [P1 P2 P3 _ _ _].
    assert (Hxne : pr_xid (proc (mem s) q) <> InvalidTransactionId).
    { intros Hz. destruct (P1 Hz) as [Ht _]. rewrite Ht, Hz in Hor.
      destruct Hor as [->|Hin]; [done|by apply not_elem_of_nil in Hin]. }
    destruct (P2 Hxne) as [Hxa _]. pose proof (assigned_window _ _ _ (so_next _ _ _ Hok) Hxa) as Hxaw.
    unfold included, TransactionIdIsValid. rewrite Hsk, (proj2 (Z.eqb_neq _ _) Hxne), (proj2 (Nat.eqb_neq _ _) Hq).
    rewrite (precedes_window o) by done. cbn [negb andb]. rewrite andb_true_r. apply Z.ltb_lt.
    destruct Hor as [->|Hin]; [done|]. destruct (P3 x Hin) as (_ & ? & _). lia.
  - intros Hna. apply XidInMVCC_at_least; [done|]. unfold assigned in Hna.
    destruct (Z.le_gt_cases (xid_age o (next_xid (mem s))) (xid_age o x)); [lia|]. destruct Hna. split; [apply Hx|done].
  - intros Hin. destruct (Z.le_gt_cases (xid_age o xmax) (xid_age o x)) as [Hle|Hlt].
    + destruct (decide (xid_age o x < xid_age o (next_xid (mem s)))) as [Ha|Ha]; [|left; by intros [_ ?]].
      right. left. apply (so_completed _ _ _ Hok); [by split; [apply Hx|]|]. apply Hgap; [apply Hx|done|apply Hx].
    + pose proof (XidInMVCC_between x Hx Hlt Hin) as Hb. cbn [suboverflowed]. destruct (sc_overflowed sc).
      * right. right. split; [done|]. apply xip_elem in Hb as (p & Hp & Hi & ->). exists p. by apply included_runs.
      * destruct Hb as [Hb|Hb].
        { destruct (sn_exact _ _ _ _ _ _ Hsc x Hb) as [(p & Hp & _ & Hc)|?]; [|lia]. right. left. exists p.
          split_and!; [done|by apply normal_TransactionIdIsValid; destruct Hx|right].
          by apply (po_cached _ _ _ _ _ (so_procs _ _ _ Hok p Hp)). }
        { right. left. apply xip_elem in Hb as (p & Hp & Hi & ->). exists p. by apply included_runs. }
Qed.

End Shows.

(** ** Reuse *)

(** The acts that move the completion count. *)
Definition completing (a : Act) : bool :=
  match a with
  | ARemove _ latestXid => TransactionIdIsValid latestXid
  | AEnd _ _ | APrepared _ | AAbortSub _ _ _ _ => true
  | _ => false
  end.

Lemma act_completions a s s' :
  ok s -> step a s s' ->
  xactCompletionCount (mem s')
  = if completing a then u64 (xactCompletionCount (mem s) + 1) else xactCompletionCount (mem s).
Proof.
  intros Hok [Ha Hact]. pose proof Hok as [Hm _ _ _ Hps _].
  destruct a as [p tree|p x|p|p|p|p x|p|p|p x l y|p x|p f]; cbn [completing act act_ok act_proc] in *.
  - destruct (ProcArrayAdd p (mem s)) as [sh'|] eqn:Hadd; [|done]. cbn in Hact. injection Hact as <-.
    destruct Ha as (Hlt & Hno & _). by apply (ProcArrayAdd_effect (mem s) p sh' Hm Hlt Hno Hadd).
  - injection Hact as <-. destruct Ha as [Hp _].
    destruct (ProcArrayRemove_effect (mem s) p x Hm Hp) as (_ & _ & _ & _ & Ec).
    apply (f_equal snd) in Ec. cbn [snd] in Ec. cbn [mem]. rewrite Ec. case_if; [|done].
    by destruct (completion_fields x (mem s)) as [_ ->].
  - injection Hact as <-. by apply (advertise_xid_common (mem s) p false Hm (proj1 Ha)).
  - injection Hact as <-. by apply (advertise_xid_common (mem s) p true Hm (proj1 Ha)).
  - by injection Hact as <-.
  - injection Hact as <-. by apply (ProcArrayEndTransactionInternal_effect (mem s) p x Hm (proj1 Ha)).
  - injection Hact as <-. by apply (end_without_xid_effect (mem s) p Hm (proj1 Ha)).
  - injection Hact as <-. by apply (ProcArrayClearTransaction_effect (mem s) p Hm (proj1 Ha)).
  - injection Hact as <-. destruct Ha as [Hp _].
    destruct (XidCacheRemoveRunningXids_effect (mem s) p x l y Hm Hp (po_nodup _ _ _ _ _ (Hps p Hp))) as (sh1 & Hu & E).
    cbn [mem]. rewrite E. destruct (completion_fields y sh1) as [_ ->]. by destruct (un_completed _ _ _ _ Hu) as [_ ->].
  - by injection Hact as <-.
  - by injection Hact as <-.
Qed.

Fixpoint completions (acts : list Act) : nat :=
  match acts with [] => 0 | a :: acts => (if completing a then 1 else 0) + completions acts end.

Lemma run_completions acts s s' :
  ok s -> sys_run topmost o acts s s' -> is_u64 (xactCompletionCount (mem s)) ->
  xactCompletionCount (mem s') = u64 (xactCompletionCount (mem s) + Z.of_nat (completions acts)).
Proof.
  intros Hok Hr. induction Hr as [s|a acts s s1 s' Hs Hr IH]; intros Hu; cbn [completions].
  { rewrite Z.add_0_r. unfold is_u64, u64 in *. symmetry. by apply Z.mod_small. }
  pose proof (act_completions a s s1 Hok Hs) as Hc. rewrite IH, Hc; [..|by eapply sys_step_ok|].
  - case_if; [|done]. rewrite Nat2Z.inj_add. unfold u64. rewrite Zplus_mod_idemp_l. f_equal. lia.
  - rewrite Hc. case_if; [|done]. unfold is_u64, u64. apply Z.mod_pos_bound. lia.
Qed.

(** An act that completes nothing: what ran goes on running, what is newly
    assigned runs, and what runs and was assigned before ran before, in a
    process that a snapshot includes if it now does. *)
Record continues (s s' : Sys) : Prop := {
  co_next : xid_age o (next_xid (mem s)) <= xid_age o (next_xid (mem s'));
  co_runs : forall q x, runs s q x -> runs s' q x;
  co_new : forall x, assigned o (next_xid (mem s')) x -> ~ assigned o (next_xid (mem s)) x -> running s' x;
  co_back : forall q x, runs s' q x -> assigned o (next_xid (mem s)) x -> skipped (proc (mem s') q) = false ->
    exists q', runs s q' x /\ skipped (proc (mem s) q') = false;
}.

Lemma continues_shows me s s' sn : continues s s' -> snapshot_shows me s sn -> snapshot_shows me s' sn.
Proof.
  intros [Hn Hr Hnew Hback] Hs x Hx. destruct (Hs x Hx) as (H1 & H2 & H3).
  assert (Hdec : Decision (assigned o (next_xid (mem s)) x)) by (unfold assigned; apply _).
  split_and!.
  - intros (q & Hq & Hrq & Hsk) Hme. destruct (decide (assigned o (next_xid (mem s)) x)) as [Ha|Ha]; [|by apply H2].
    destruct (Hback q x Hrq Ha Hsk) as (q' & Hrq' & Hsk'). apply H1; [|by intros ?%Hr].
    exists q'. split; [|done]. intros ->. by apply Hme, Hr.
  - intros Hna. apply H2. contradict Hna. by eapply assigned_le.
  - intros Hin. destruct (H3 Hin) as [Hna|[[p Hp]|[? [p Hp]]]].
    + destruct (decide (xid_age o x < xid_age o (next_xid (mem s')))) as [Hlt|?]; [|left; by intros [_ ?]].
      right. left. apply Hnew; [|done]. split; [apply Hx|done].
    + right. left. exists p. by apply Hr.
    + right. right. split; [done|]. exists p. by apply Hr.
Qed.

(** Acts on one process that leave its ids and its place alone. *)
Lemma continues_same s s' p :
  ok s -> p ∈ pgprocnos (mem s) -> acts_on p (mem s) (mem s') -> subs s' = subs s ->
  pr_xid (proc (mem s') p) = pr_xid (proc (mem s) p) ->
  (pr_xid (proc (mem s) p) = InvalidTransactionId \/ skipped (proc (mem s') p) = skipped (proc (mem s) p)) ->
  continues s s'.
Proof.
  intros Hok Hp [_ En Eo Ex] Es Epx Hsk.
  assert (Hruns : forall q x, runs s' q x <-> runs s q x).
  { intros q x. unfold runs. rewrite En, Es. destruct (decide (q = p)) as [->|Hne]; [by rewrite Epx|by rewrite Eo]. }
  assert (Enext : next_xid (mem s') = next_xid (mem s)) by (unfold next_xid; by rewrite Ex).
  constructor; rewrite ?Enext; [lia|by intros q x ?; apply Hruns|done|].
  intros q x Hr Ha Hs. apply Hruns in Hr. exists q. split; [done|].
  destruct (decide (q = p)) as [->|Hne]; [|by rewrite <- Eo]. destruct Hsk as [Hz|Hsk]; [|congruence].
  destruct Hr as (_ & Hv & Hor). destruct (po_idle _ _ _ _ _ (so_procs _ _ _ Hok p Hp) Hz) as [Ht _].
  rewrite Hz, Ht in Hor. destruct Hor as [->|Hin]; [done|by apply not_elem_of_nil in Hin].
Qed.

Lemma add_continues s p tree s' : ok s -> step (AAdd p tree) s s' -> continues s s'.
Proof.
  intros Hok [(Hlt & Hno & Hpok & Hdup) Hact]. cbn [act_proc act] in *. pose proof Hok as [Hm _ _ _ _ _].
  destruct (ProcArrayAdd p (mem s)) as [sh'|] eqn:Hadd; [|done]. cbn in Hact. injection Hact as <-.
  destruct (ProcArrayAdd_effect (mem s) p sh' Hm Hlt Hno Hadd) as (_ & Hel & Hsame & Ex & _).
  assert (Enext : next_xid sh' = next_xid (mem s)) by (unfold next_xid; by rewrite Ex).
  constructor; cbn [mem]; rewrite ?Enext; [lia| |done|].
  - intros q x (Hq & Hv & Hor). unfold runs. cbn [mem subs]. destruct (Hsame q) as (-> & _).
    rewrite put_subs_ne by (by intros ->). rewrite Hel. by split_and!; [right|..].
  - intros q x (Hq & Hv & Hor) Ha Hsk. cbn [mem subs] in *. destruct (Hsame q) as (Ex' & _ & _ & Ef).
    unfold skipped in Hsk. rewrite Ef in Hsk. rewrite Ex' in Hor. destruct (decide (q = p)) as [->|Hne].
    + rewrite put_subs_eq in Hor. destruct (decide (pr_xid (proc (mem s) p) = InvalidTransactionId)) as [Hz|Hz].
      * destruct (po_idle _ _ _ _ _ Hpok Hz) as [Ht _]. rewrite Hz, Ht in Hor.
        destruct Hor as [->|Hin]; [done|by apply not_elem_of_nil in Hin].
      * destruct (Hdup Hz) as (q & Hq' & E1 & E2 & Hs'). exists q. split; [|done]. split_and!; [done|done|].
        by rewrite E1, E2.
    + rewrite put_subs_ne in Hor by done. apply Hel in Hq as [->|Hq]; [done|]. by exists q.
Qed.

Lemma remove_continues s p x s' :
  ok s -> TransactionIdIsValid x = false -> step (ARemove p x) s s' -> continues s s'.
Proof.
  intros Hok Hx [(Hp & Hidle) Hact]. injection Hact as <-. cbn [act_proc] in *. rewrite Hx in Hidle.
  pose proof Hok as [Hm _ _ _ Hps _].
  destruct (ProcArrayRemove_effect (mem s) p x Hm Hp) as (_ & Hel & Hsame & Ex & _).
  assert (Enext : next_xid (ProcArrayRemove p x (mem s)) = next_xid (mem s)) by (unfold next_xid; by rewrite Ex).
  assert (Hnone : forall y, ~ runs s p y).
  { intros y (_ & Hv & Hor). destruct (po_idle _ _ _ _ _ (Hps p Hp) Hidle) as [Ht _]. rewrite Hidle, Ht in Hor.
    destruct Hor as [->|Hin]; [done|by apply not_elem_of_nil in Hin]. }
  constructor; cbn [mem]; rewrite ?Enext; [lia| |done|].
  - intros q y Hr. pose proof Hr as (Hq & Hv & Hor). unfold runs. cbn [mem subs]. destruct (Hsame q) as (-> & _).
    rewrite Hel. split_and!; [done| |done|done]. intros ->. by apply (Hnone y).
  - intros q y (Hq & Hv & Hor) Ha Hsk. cbn [mem subs] in *. destruct (Hsame q) as (Ex' & _ & _ & Ef).
    unfold skipped in Hsk. rewrite Ef in Hsk. rewrite Ex' in Hor. exists q. split; [|done].
    split_and!; [by apply Hel in Hq as [? _]|done|done].
Qed.

Lemma assign_continues s p sub tree :
  ok s -> p ∈ pgprocnos (mem s) -> room o s ->
  let sh' := advertise_xid p sub (mem s) in
  skipped (proc sh' p) = skipped (proc (mem s) p) ->
  (pr_xid (proc (mem s) p) = InvalidTransactionId /\ pr_xid (proc sh' p) = next_xid (mem s) \/
   pr_xid (proc sh' p) = pr_xid (proc (mem s) p)) ->
  (forall x, x ∈ subs s p -> x ∈ tree) -> (forall x, x ∈ tree -> x ∈ subs s p \/ x = next_xid (mem s)) ->
  (pr_xid (proc sh' p) = next_xid (mem s) \/ next_xid (mem s) ∈ tree) ->
  continues s (mkSys sh' (put_subs p tree (subs s)) (committed s)).
Proof.
  intros Hok Hp [H4 Hage] sh' Hsk Hxid Htree Htree' Hnew. pose proof Hok as [Hm Hn Hf _ Hps _].
  destruct (advertise_xid_common (mem s) p sub Hm Hp) as (_ & En & Eo & Ex & _).
  fold sh' in En, Eo, Ex. destruct (advance_next o (sh_nextXid (mem s)) Hf H4 Hn Hage) as (_ & _ & Hlt & Hgap).
  assert (Enext : next_xid sh' = XidFromFullTransactionId (FullTransactionIdAdvance (sh_nextXid (mem s))))
    by (unfold next_xid; by rewrite Ex).
  fold (next_xid (mem s)) in Hlt, Hgap. rewrite <- Enext in Hlt, Hgap. constructor; cbn [mem]; [lia|..].
  - intros q x (Hq & Hv & Hor). unfold runs. cbn [mem subs]. rewrite En. split_and!; [done|done|].
    destruct (decide (q = p)) as [->|Hne]; [|by rewrite Eo, put_subs_ne].
    rewrite put_subs_eq. destruct Hor as [->|Hin]; [|right; by apply Htree].
    destruct Hxid as [[Hz _]|Hz]; [by rewrite Hz in Hv|left; by symmetry].
  - intros x Ha Hna. exists p. unfold runs. cbn [mem subs]. rewrite En, put_subs_eq.
    split_and!; [done|apply normal_TransactionIdIsValid, Ha|]. rewrite (Hgap x Ha).
    + destruct Hnew as [?|?]; [left; by symmetry|by right].
    + destruct (Z.le_gt_cases (xid_age o (next_xid (mem s))) (xid_age o x)) as [?|?]; [done|].
      destruct Hna. split; [apply Ha|done].
  - intros q x (Hq & Hv & Hor) Ha Hs. cbn [mem subs] in *. rewrite En in Hq. exists q.
    destruct (decide (q = p)) as [->|Hne]; [|rewrite Eo in Hor, Hs by done; rewrite put_subs_ne in Hor by done; done].
    split; [|congruence]. split_and!; [done|done|]. rewrite put_subs_eq in Hor.
    assert (Hnx : x <> next_xid (mem s)) by (intros ->; destruct Ha; lia).
    destruct Hor as [->|Hin]; [|by destruct (Htree' x Hin); [right|]].
    destruct Hxid as [[_ Hz]|Hz]; [congruence|by left].
Qed.

Lemma step_continues a s s' : ok s -> completing a = false -> step a s s' -> continues s s'.
Proof.
  intros Hok Hc Hs. pose proof Hok as [Hm _ _ _ Hps _].
  destruct a as [p tree|p x|p|p|p|p x|p|p|p x l y|p x|p f]; try done.
  - by eapply add_continues.
  - by eapply remove_continues.
  - destruct Hs as [(Hp & Hidle & _ & Hroom) Hact]. injection Hact as <-. cbn [act_proc] in *.
    pose proof (advertise_top (mem s) p Hm Hp) as Ep. destruct (po_idle _ _ _ _ _ (Hps p Hp) Hidle) as [Ht _].
    apply assign_continues; try done; rewrite ?Ep, ?Ht; try done; [by left|by intros x ?%not_elem_of_nil|by left].
  - destruct Hs as [(Hp & _ & _ & Hroom) Hact]. injection Hact as <-. cbn [act_proc] in *.
    destruct (advertise_sub (mem s) p Hm Hp) as (Ep & _). pose proof (advertise_sub_flags (mem s) p Hm Hp) as [Ef _].
    apply assign_continues; try done.
    + unfold skipped. by rewrite Ef.
    + by right.
    + intros x Hx. apply elem_of_app. by left.
    + intros x [?| ->%list_elem_of_singleton]%elem_of_app; auto.
    + right. apply elem_of_app. right. by apply list_elem_of_singleton.
  - destruct Hs as [_ Hact]. injection Hact as <-.
    constructor; [cbn; lia|by intros q x Hr|by intros x Ha Hna|intros q x Hr _ Hsk; by exists q].
  - destruct Hs as [(Hp & Hidle) Hact]. injection Hact as <-. cbn [act_proc] in *.
    destruct (end_without_xid_effect (mem s) p Hm Hp) as (Ha & Ex & _).
    eapply (continues_same s _ p); try done. by left.
  - destruct Hs as [Hp Hact]. injection Hact as <-. cbn [act_proc act_ok] in *.
    pose proof (upd_proc_at (mem s) p Hm Hp (set_xmin x)) as Hat.
    eapply (continues_same s _ p); cbn [mem]; rewrite ?Hat; try done; [|by right].
    constructor; [by apply set_xmin_mirrored|done| |done].
    intros n Hne. exact (proc_alter_ne (mem s) p n _ (not_eq_sym Hne)).
  - destruct Hs as [(Hp & Hidle) Hact]. injection Hact as <-. cbn [act_proc] in *.
    pose proof (upd_proc_at (mem s) p Hm Hp (set_statusFlags f)) as Hat.
    change (proc (upd_proc p (set_statusFlags f) (mem s)) p)
      with (proc (put_statusFlags (pgxactoff (proc (mem s) p)) f (upd_proc p (set_statusFlags f) (mem s))) p) in Hat.
    eapply (continues_same s _ p); cbn [mem]; rewrite ?Hat; try done; [|by left].
    constructor; [by apply set_flags_mirrored|done| |done].
    intros n Hne. exact (proc_alter_ne (mem s) p n _ (not_eq_sym Hne)).
Qed.

Lemma run_shows me acts s s' sn :
  ok s -> sys_run topmost o acts s s' -> completions acts = 0%nat -> snapshot_shows me s sn ->
  snapshot_shows me s' sn.
Proof.
  intros Hok Hr. induction Hr as [s|a acts s s1 s' Hs Hr IH]; [done|]. cbn [completions]. intros Hc Hsn.
  apply IH; [by eapply sys_step_ok|lia|]. eapply continues_shows; [|done].
  eapply step_continues; [done| |done]. destruct (completing a); [lia|done].
Qed.

Lemma completions_le acts : (completions acts <= length acts)%nat.
Proof. induction acts as [|a acts IH]; cbn; [lia|]. destruct (completing a); lia. Qed.

(** A snapshot of [me] that was built, or found to be still current, at a
    state from which the present one is reached. *)
Definition snapshot_of (me : nat) (sn : Snapshot) (s : Sys) : Prop :=
  exists s1 acts, ok s1 /\ is_u64 (xactCompletionCount (mem s1)) /\ sys_run topmost o acts s1 s /\
    Z.of_nat (length acts) < 2 ^ 64 /\ snapXactCompletionCount sn = xactCompletionCount (mem s1) /\
    snapshot_shows me s1 (snap sn) /\ in_window o (snap_xmin (snap sn)).

(** A 64-bit counter that shows the same value has not moved. *)
Lemma same_count c (k : nat) : is_u64 c -> Z.of_nat k < 2 ^ 64 -> c = u64 (c + Z.of_nat k) -> k = 0%nat.
Proof.
  unfold is_u64, u64. intros Hc Hk E. destruct (Z.lt_ge_cases (c + Z.of_nat k) (2 ^ 64)).
  - rewrite Z.mod_small in E by lia. lia.
  - replace (c + Z.of_nat k) with ((c + Z.of_nat k - 2 ^ 64) + 1 * 2 ^ 64) in E by lia.
    rewrite Z.mod_add, Z.mod_small in E by lia. lia.
Qed.

(** The same completion count: the snapshot is as good as new. *)
Lemma snapshot_of_current me sn s :
  snapshot_of me sn s -> xactCompletionCount (mem s) = snapXactCompletionCount sn -> snapshot_shows me s (snap sn).
Proof.
  intros (s1 & acts & Hok & Hu & Hr & Hl & Hc & Hsn & _) Heq. eapply run_shows; [done..| |done].
  pose proof (run_completions acts s1 s Hok Hr Hu) as Hrun. pose proof (completions_le acts).
  rewrite Heq, Hc in Hrun. eapply same_count; [exact Hu| |exact Hrun]. lia.
Qed.

Lemma shows_curcid me s sn cid : snapshot_shows me s sn -> snapshot_shows me s (set_curcid cid sn).
Proof. by destruct sn. Qed.

Lemma install_xmin_spec xmin sh l :
  (MyProcNo l < length (allProcs sh))%nat ->
  let r := install_xmin xmin sh l in
  RecentXmin r.2 = xmin /\ MyProcNo r.2 = MyProcNo l /\
  (forall n, n <> MyProcNo l -> proc r.1 n = proc sh n) /\
  pr_xmin (proc r.1 (MyProcNo l))
  = if TransactionIdIsValid (pr_xmin (proc sh (MyProcNo l))) then pr_xmin (proc sh (MyProcNo l)) else xmin.
Proof.
  intros Hlt r. unfold r, install_xmin. destruct (TransactionIdIsValid _); cbn [negb fst snd]; split_and!; try done.
  - intros n Hne. exact (proc_alter_ne sh (MyProcNo l) n _ (not_eq_sym Hne)).
  - replace (proc _ _) with (set_xmin xmin (proc sh (MyProcNo l))); [done|].
    symmetry. exact (proc_alter_eq sh (MyProcNo l) _ Hlt).
Qed.

Section Claim.
Context (sigma : nat -> Sys) (last : ProcShared) (cid : CommandId) (l : ProcLocal).
Context (Hscan : scanning sigma) (Hme : MyProcNo l ∈ pgprocnos (mem (sigma 0%nat))).
Context (Hlast : (MyProcNo l < length (allProcs last))%nat).

Abbreviation m := (fun t => mem (sigma t)).

Lemma snapshot_built ty token :
  let '(sc, xmax) := snapshot_contents false m (MyProcNo l) in
  snapshot_shows (MyProcNo l) (sigma 0%nat)
    (mkSnapshot ty (sc_xmin sc) xmax (sc_xip sc) (sc_subxip sc) (sc_overflowed sc) false cid token) /\
  in_window o (sc_xmin sc).
Proof.
  pose proof (snapshot_contents_scanned sigma (MyProcNo l) Hscan Hme) as [Hx Hsc].
  destruct (snapshot_contents false m (MyProcNo l)) as [sc xmax]. cbn [fst snd] in *. subst xmax.
  split; [|apply Hsc]. eapply scanned_shows; [apply Hscan|exact Hsc|].
  destruct (the_xmax_window sigma Hscan) as ([Hxn _] & _). case_if; [|done].
  bool_simpl. fold (the_xmax sigma). rewrite (precedes_window o) in *; [bool_simpl; lia|..].
  - apply (xid0_window sigma Hscan); [done|]. intros Hz. by rewrite Hz in *.
  - by apply the_xmax_window.
Qed.

Definition snapshot_result_ok (r : Snapshot * ProcShared * ProcLocal) : Prop :=
  let '(sn, last', l') := r in
  snapshot_shows (MyProcNo l) (sigma 0%nat) (snap sn) /\ snapshot_of (MyProcNo l) sn (sigma 0%nat) /\
  curcid (snap sn) = cid /\ RecentXmin l' = snap_xmin (snap sn) /\
  TransactionIdIsValid (pr_xmin (proc last' (MyProcNo l))) = true.

Lemma installed_valid xmin sh :
  (MyProcNo l < length (allProcs sh))%nat -> in_window o xmin ->
  RecentXmin (install_xmin xmin sh l).2 = xmin /\
  TransactionIdIsValid (pr_xmin (proc (install_xmin xmin sh l).1 (MyProcNo l))) = true.
Proof.
  intros Hlt Hx. destruct (install_xmin_spec xmin sh l Hlt) as (-> & _ & _ & ->). split; [done|].
  case_if; [done|]. apply normal_TransactionIdIsValid. by destruct Hx.
Qed.

Lemma reuse_result s r :
  snapXactCompletionCount s = 0 \/ snapshot_of (MyProcNo l) s (sigma 0%nat) ->
  GetSnapshotDataReuse cid s (m 0%nat) l = Some r -> snapshot_result_ok r.
Proof.
  intros Hs. unfold GetSnapshotDataReuse. destruct (Z.eqb_spec (snapXactCompletionCount s) 0) as [?|Hne]; [done|].
  destruct Hs as [?|Hs]; [done|]. case_if; [done|]. bool_simpl.
  pose proof (snapshot_of_current _ _ _ Hs ltac:(done)) as Hshows.
  destruct Hs as (s1 & acts & H1 & H2 & H3 & H4 & H5 & H6 & H7).
  destruct (installed_valid (snap_xmin (snap s)) (m 0%nat)) as [Hr Hv]; [|done|].
  { apply mi_lt; [|done]. apply (so_mirrored _ _ _ (proj1 Hscan)). }
  destruct (install_xmin _ _ _) as [sh' l']. intros [= <-]. unfold snapshot_result_ok. cbn [snap fst snd] in *.
  split_and!; [by apply shows_curcid| |by destruct (snap s)|by destruct (snap s)|done].
  exists s1, acts. cbn [snap snapXactCompletionCount]. by split_and!.
Qed.

Lemma GetSnapshotData_result s :
  is_u64 (xactCompletionCount (m 0%nat)) ->
  snapXactCompletionCount s = 0 \/ snapshot_of (MyProcNo l) s (sigma 0%nat) ->
  snapshot_result_ok (GetSnapshotData false cid m last s l).
Proof.
  intros Hu Hs. unfold GetSnapshotData. destruct (GetSnapshotDataReuse _ _ _ _) as [r|] eqn:Hr; [by eapply reuse_result|].
  pose proof (snapshot_built (snapshot_type (snap s)) (speculativeToken (snap s))) as Hb.
  destruct (snapshot_contents false m (MyProcNo l)) as [sc xmax]. destruct Hb as [Hshow Hw].
  destruct (installed_valid (sc_xmin sc) last Hlast Hw) as [Hrx Hv].
  destruct (install_xmin (sc_xmin sc) last l) as [last' l']. cbn [fst snd] in *. unfold snapshot_result_ok.
  cbn [snap curcid snap_xmin]. split_and!; try done.
  exists (sigma 0%nat), []. split_and!; try done; [apply Hscan|constructor].
Qed.

End Claim.
End Snapshot.

(** C2. a snapshot shows what was running when its lock was taken: whatever
    other backends do while the array is scanned, the snapshot
    [GetSnapshotData] returns regards as running every transaction and
    subtransaction that another backend (lazy vacuum and logical decoding
    apart) was running then, and every id not yet assigned; what it regards as
    running was running, or, when subtransaction ids had overflowed, has a
    top-level transaction that was.  This also holds when it returns an old
    snapshot again because the completion count has not moved. *)
Theorem GetSnapshotData_shows_running (topmost : TransactionId -> TransactionId) (o : TransactionId)
    (sigma : nat -> Sys) (last : ProcShared) (cid : CommandId) (s : Snapshot) (l : ProcLocal) :
  scanning topmost o sigma -> MyProcNo l ∈ pgprocnos (mem (sigma 0%nat)) ->
  (MyProcNo l < length (allProcs last))%nat -> is_u64 (xactCompletionCount (mem (sigma 0%nat))) ->
  snapXactCompletionCount s = 0 \/ snapshot_of topmost o (MyProcNo l) s (sigma 0%nat) ->
  let '(sn, last', l') := GetSnapshotData false cid (fun t => mem (sigma t)) last s l in
  snapshot_shows topmost o (MyProcNo l) (sigma 0%nat) (snap sn) /\
  snapshot_of topmost o (MyProcNo l) sn (sigma 0%nat) /\
  curcid (snap sn) = cid /\ RecentXmin l' = snap_xmin (snap sn) /\
  TransactionIdIsValid (pr_xmin (proc last' (MyProcNo l))) = true.
Proof. intros Hs Hme Hl Hu Hold. exact (GetSnapshotData_result topmost o sigma last cid l Hs Hme Hl s Hu Hold). Qed.

(** The memories of a scan of backend 0 during which backend 2 is assigned
    103. *)
Definition ex_scan (t : nat) : Sys := if (t <? 6)%nat then ex_sys 8 else ex_next.

Lemma ex_scanning : scanning ex_topmost 3 ex_scan.
Proof.
  split; [exact ex_ok|]. intros t. unfold ex_scan.
  destruct (Nat.ltb_spec t 6), (Nat.ltb_spec (S t) 6); [apply quiet_refl| |lia|apply quiet_refl].
  eapply quiet_step; [|exact ex_step|apply quiet_refl]. exact I.
Qed.

Definition ex_local : ProcLocal :=
  mkProcLocal 0 5 0 0 0 (mkGlobalVis 0 0) (mkGlobalVis 0 0) (mkGlobalVis 0 0) (mkGlobalVis 0 0) 0.

Definition ex_old_snapshot : Snapshot := mkSnap (mkSnapshot SNAPSHOT_MVCC 0 0 [] [] false false 0 0) 0.

Lemma GetSnapshotData_shows_running_witness :
  let sn := (GetSnapshotData false 7 (fun t => mem (ex_scan t)) (mem ex_next) ex_old_snapshot ex_local).1.1 in
  snapshot_shows ex_topmost 3 0 (ex_sys 8) (snap sn) /\
  (snap_xmin (snap sn), snap_xmax (snap sn), xip (snap sn), subxip (snap sn)) = (100, 103, [100], [101]).
Proof.
  pose proof (GetSnapshotData_shows_running ex_topmost 3 ex_scan (mem ex_next) 7 ex_old_snapshot ex_local
    ex_scanning ltac:(ground) ltac:(vm_compute; lia) ltac:(vm_compute; done) (or_introl eq_refl)) as H.
  destruct (GetSnapshotData false 7 _ _ _ _) as [[sn last] l] eqn:E. destruct H as [H _]. split; [exact H|].
  apply (f_equal (fun r => r.1.1)) in E. cbn [fst] in E. cbn [fst]. rewrite <- E. vm_compute. reflexivity.
Defined.
