(* ===== verification/ProcRunning.v ===== *)
(** * ProcRunning: the running transactions reported to standbys

    [GetRunningTransactionData] is what a primary writes into the WAL for its
    standbys.  Here: it lists the running transactions, completely unless it
    says that subtransactions are missing. *)

From S2P Require Import Prelude TransactionId KnownXids ProcArray ProcInv ProcRun ProcScan ProcReaders.
From S2P Require Import ProcExample ProcSnapshot.

Section Running.
Context (topmost : TransactionId -> TransactionId) (o : TransactionId) (s : Sys) (Hok : sys_ok topmost o s).

Abbreviation sh := (mem s).

Lemma running_window x : running s x -> assigned o (next_xid sh) x /\ in_window o x.
Proof.
  intros (p & Hp & Hv & Hor). assert (Ha : assigned o (next_xid sh) x).
  { destruct (so_procs _ _ _ Hok p Hp) as [_ P2 P3 _ _ _]. destruct Hor as [->|Hin]; [|by apply P3].
    apply P2. intros Hz. by rewrite Hz in Hv. }
  split; [done|]. eapply assigned_window; [apply Hok|done].
Qed.

(** What the first loop has gathered from the processes [l]. *)
Record gathered (l : list nat) (acc : TransactionId * bool * list TransactionId) : Prop := {
  ga_window : in_window o acc.1.1;
  ga_next : xid_age o acc.1.1 <= xid_age o (next_xid sh);
  ga_from : acc.1.1 = next_xid sh \/ acc.1.1 ∈ acc.2;
  ga_oldest : forall x, x ∈ acc.2 -> xid_age o acc.1.1 <= xid_age o x;
  ga_xids : acc.2 = filter (fun x => TransactionIdIsValid x = true) ((fun p => pr_xid (proc sh p)) <$> l);
  ga_overflowed : acc.1.2 = true <-> exists p, p ∈ l /\ TransactionIdIsValid (pr_xid (proc sh p)) = true /\
    overflowed (subxidStatus (proc sh p)) = true;
}.

Lemma running_scan_gathered rounds i acc :
  (i + rounds = numProcs sh)%nat -> gathered (take i (pgprocnos sh)) acc ->
  gathered (pgprocnos sh) (running_scan sh rounds i acc).
Proof.
  revert i acc. induction rounds as [|r IH]; intros i acc Hr Hg; cbn [running_scan].
  { rewrite <- (take_ge (pgprocnos sh) i); [done|]. unfold numProcs in Hr. lia. }
  destruct (lookup_lt_is_Some_2 (pgprocnos sh) i) as [p Hi]; [unfold numProcs in Hr; lia|].
  destruct (read_mirrors topmost o s i p Hok Hi) as (Ex & Es & _). rewrite Ex, Es.
  assert (Hp : p ∈ pgprocnos sh) by (by eapply list_elem_of_lookup_2).
  destruct acc as [[oldest over] ids], Hg as [G1 G2 G3 G4 G5 G6]. cbn [fst snd] in *.
  destruct (TransactionIdIsValid (pr_xid (proc sh p))) eqn:Hv; cbn [negb].
  - destruct (running_window (pr_xid (proc sh p))) as [[_ Hlt] Hw]; [exists p; split_and!; auto|].
    apply IH; [lia|]. rewrite (take_S_r _ _ p) by done. rewrite (precedes_window o) by done.
    constructor; cbn [fst snd].
    + by case_if.
    + case_if; bool_simpl; lia.
    + case_if; [right; set_solver|]. destruct G3; [by left|right; set_solver].
    + intros x [Hx|Hx%list_elem_of_singleton]%elem_of_app; [specialize (G4 x Hx)|subst x]; case_if; bool_simpl; lia.
    + rewrite fmap_app, filter_app, G5. cbn [fmap list_fmap]. by rewrite filter_cons_True.
    + setoid_rewrite elem_of_app. destruct (overflowed (subxidStatus (proc sh p))) eqn:Ho.
      * split; [|done]. intros _. exists p. split_and!; [right; by apply list_elem_of_singleton|done|done].
      * rewrite G6. split; [intros (q & ? & ?); eauto|]. intros (q & [?|Hq%list_elem_of_singleton] & ? & ?); [eauto|congruence].
  - apply IH; [lia|]. rewrite (take_S_r _ _ p) by done. constructor; cbn [fst snd]; try done.
    + rewrite fmap_app, filter_app, G5. cbn [fmap list_fmap]. rewrite filter_cons_False by (rewrite Hv; done). by rewrite app_nil_r.
    + rewrite G6. setoid_rewrite elem_of_app. split; [intros (q & ? & ?); eauto|].
      intros (q & [?|Hq%list_elem_of_singleton] & ? & ?); [eauto|congruence].
Qed.

Lemma running_subxids_cached rounds i :
  (i + rounds = numProcs sh)%nat ->
  forall x, x ∈ running_subxids sh rounds i <-> exists p, p ∈ drop i (pgprocnos sh) /\ x ∈ cached (proc sh p).
Proof.
  revert i. induction rounds as [|r IH]; intros i Hr x; cbn [running_subxids].
  { rewrite drop_ge by (unfold numProcs in Hr; lia). split; [by intros ?%not_elem_of_nil|]. by intros (p & ?%not_elem_of_nil & _). }
  destruct (lookup_lt_is_Some_2 (pgprocnos sh) i) as [p Hi]; [unfold numProcs in Hr; lia|].
  destruct (read_mirrors topmost o s i p Hok Hi) as (_ & Es & _ & Ep & _).
  rewrite elem_of_app, (IH (S i)) by lia. rewrite (drop_S _ p i) by done. unfold proc_at. rewrite Es, Ep.
  assert (E : x ∈ (if (0 <? count (subxidStatus (proc sh p)))%nat
                   then take (count (subxidStatus (proc sh p))) (pr_subxids (proc sh p)) else [])
              <-> x ∈ cached (proc sh p)).
  { unfold cached. destruct (count (subxidStatus (proc sh p))); reflexivity. }
  rewrite E. split.
  - intros [Hx|(q & Hq & Hx)]; [exists p; split; [by left|done]|exists q; split; [by right|done]].
  - intros (q & [->|Hq]%elem_of_cons & Hx); [by left|right; eauto].
Qed.

(** An overflow flag that is not reported means a complete cache. *)
Lemma cached_running over :
  (over = true <-> exists p, p ∈ pgprocnos sh /\ TransactionIdIsValid (pr_xid (proc sh p)) = true /\
    overflowed (subxidStatus (proc sh p)) = true) -> over = false ->
  forall x, (exists p, p ∈ pgprocnos sh /\ (TransactionIdIsValid x = true /\ x = pr_xid (proc sh p) \/ x ∈ cached (proc sh p)))
    <-> running s x.
Proof.
  intros Ho Hf x. split.
  - intros (p & Hp & Hor). exists p. destruct (so_procs _ _ _ Hok p Hp) as [_ _ P3 P4 _ _].
    destruct Hor as [[Hv ->]|Hc]; [by split_and!; auto|]. pose proof (P4 x Hc) as Hs. split_and!; [done| |by right].
    destruct (P3 x Hs) as [[Hn _] _]. by apply normal_TransactionIdIsValid.
  - intros (p & Hp & Hv & Hor). exists p. split; [done|]. destruct Hor as [->|Hs]; [by left|]. right.
    destruct (so_procs _ _ _ Hok p Hp) as [P1 _ _ _ P5 _]. destruct (P5 x Hs) as [?|Hov]; [done|]. exfalso.
    destruct (TransactionIdIsValid (pr_xid (proc sh p))) eqn:Hvp; [rewrite (proj2 Ho) in Hf; [done|eauto]|].
    destruct P1 as [Hz _]; [by apply negb_false_iff, Z.eqb_eq in Hvp|]. rewrite Hz in Hs. by apply not_elem_of_nil in Hs.
Qed.
End Running.

(** C22. what a primary tells its standbys is complete:
    [GetRunningTransactionData] lists first the running top-level transactions;
    unless it reports an overflow, it lists exactly the running transactions
    with their subtransactions.  Its oldest id is that of a running
    transaction, or the next id, and no running one precedes it; every id
    between its latest completed id and the next one is running. *)
Theorem GetRunningTransactionData_spec (topmost : TransactionId -> TransactionId) (o : TransactionId) (s : Sys) :
  sys_ok topmost o s ->
  let r := GetRunningTransactionData (mem s) in
  xcnt r + subxcnt r = Z.of_nat (length (rx_xids r)) /\
  (forall x, x ∈ take (Z.to_nat (xcnt r)) (rx_xids r) <->
     TransactionIdIsValid x = true /\ exists p, p ∈ pgprocnos (mem s) /\ x = pr_xid (proc (mem s) p)) /\
  (subxid_overflow r = false -> forall x, x ∈ rx_xids r <-> running s x) /\
  (forall x, running s x -> xid_age o (oldestRunningXid r) <= xid_age o x < xid_age o (rx_nextXid r)) /\
  (oldestRunningXid r = rx_nextXid r \/ running s (oldestRunningXid r)) /\
  (forall x, normal_xid x -> xid_age o (rx_latestCompletedXid r) < xid_age o x < xid_age o (rx_nextXid r) -> running s x).
Proof.
  intros Hok r. unfold r, GetRunningTransactionData.
  assert (Hg : gathered o s (pgprocnos (mem s)) (running_scan (mem s) (numProcs (mem s)) 0 (next_xid (mem s), false, []))).
  { apply (running_scan_gathered topmost o s Hok); [lia|]. rewrite take_0. constructor; cbn [fst snd]; try done.
    - apply Hok.
    - by left.
    - intros x Hx. by apply not_elem_of_nil in Hx.
    - split; [done|]. by intros (p & ?%not_elem_of_nil & _). }
  change (XidFromFullTransactionId (sh_nextXid (mem s))) with (next_xid (mem s)).
  destruct (running_scan _ _ _ _) as [[oldest over] ids], Hg as [G1 G2 G3 G4 G5 G6]. cbn [fst snd] in *.
  cbn [xcnt subxcnt subxid_overflow rx_nextXid oldestRunningXid rx_latestCompletedXid rx_xids].
  assert (Hids : forall x, x ∈ ids <-> TransactionIdIsValid x = true /\ exists p, p ∈ pgprocnos (mem s) /\ x = pr_xid (proc (mem s) p)).
  { intros x. rewrite G5, list_elem_of_filter, list_elem_of_fmap. naive_solver. }
  assert (Hrun : forall x, x ∈ ids -> running s x).
  { intros x (Hv & p & Hp & ->)%Hids. exists p. split_and!; auto. }
  split_and!.
  - lia.
  - intros x. rewrite length_app.
    replace (Z.to_nat _) with (length ids) by lia. by rewrite take_app_length.
  - intros ->. intros x. cbn [negb]. rewrite elem_of_app, Hids, (running_subxids_cached topmost o s Hok) by lia.
    rewrite <- (cached_running topmost o s Hok false G6 eq_refl). rewrite drop_0. naive_solver.
  - intros x Hx. destruct (running_window topmost o s Hok x Hx) as [[_ Hlt] _]. split; [|done].
    destruct Hx as (p & Hp & Hv & Hor). destruct (so_procs _ _ _ Hok p Hp) as [P1 _ P3 _ _ _].
    destruct Hor as [->|Hin]; [apply G4, Hids; eauto|]. destruct (P3 x Hin) as (_ & Hage & _).
    destruct (TransactionIdIsValid (pr_xid (proc (mem s) p))) eqn:Hvp.
    + specialize (G4 (pr_xid (proc (mem s) p)) ltac:(apply Hids; eauto)). lia.
    + destruct P1 as [Hz _]; [by apply negb_false_iff, Z.eqb_eq in Hvp|]. rewrite Hz in Hin. by apply not_elem_of_nil in Hin.
  - destruct G3 as [->|Hin]; [by left|right; by apply Hrun].
  - intros x Hx [H1 H2]. apply (so_completed _ _ _ Hok); [by split|done].
Qed.

Lemma GetRunningTransactionData_spec_witness :
  let r := GetRunningTransactionData (mem (ex_sys 8)) in
  rx_xids r = [100; 101] /\ xcnt r = 1 /\ subxid_overflow r = false /\ oldestRunningXid r = 100 /\
  rx_nextXid r = 103 /\ running (ex_sys 8) 101.
Proof.
  destruct (GetRunningTransactionData_spec ex_topmost 3 (ex_sys 8) ex_ok) as (_ & _ & H & _).
  do 5 (split; [vm_compute; reflexivity|]). apply H; [vm_compute; reflexivity|]. ground.
Defined.
