(* ===== verification/ProcWorld.v ===== *)
(** * ProcWorld: the process array keeps the promises of visibility checks

    The visibility routines are proved against the laws [TimeLaws] and
    [snapshot_law] of VisLogic.v.  Here a time line of system states, in which
    one backend observes while the others act, is read as the worlds of those
    laws: the transactions of the observer, the running ones, the committed
    ones.  The laws hold of every such time line, for every snapshot that
    shows what was running when it was taken. *)

From S2P Require Import Prelude TransactionId KnownXids HeapTuple Visibility VisLogic VisSound VisMVCC.
From S2P Require Import ProcArray ProcInv ProcRun ProcScan ProcExample ProcSnapshot.

(** ** Executable readings of a system state *)

Definition runsb (s : Sys) (p : nat) (x : TransactionId) : bool :=
  bool_decide (p ∈ pgprocnos (mem s)) && TransactionIdIsValid x
  && ((x =? pr_xid (proc (mem s) p)) || bool_decide (x ∈ subs s p)).

Definition runningb (s : Sys) (x : TransactionId) : bool := existsb (fun p => runsb s p x) (pgprocnos (mem s)).

Lemma runsb_spec s p x : runsb s p x = true <-> runs s p x.
Proof.
  unfold runsb, runs. rewrite !andb_true_iff, orb_true_iff, Z.eqb_eq, !bool_decide_eq_true. tauto.
Qed.

Lemma runningb_spec s x : runningb s x = true <-> running s x.
Proof.
  unfold runningb, running. rewrite existsb_exists. setoid_rewrite runsb_spec. setoid_rewrite <- list_elem_of_In.
  split; [intros (p & _ & ?); eauto|]. intros [p Hp]. exists p. split; [apply Hp|done].
Qed.

Section World.
Context (topmost : TransactionId -> TransactionId) (o : TransactionId) (me : nat) (base : World).

Abbreviation ok := (sys_ok topmost o).
Abbreviation step := (sys_step topmost o).

(** The world an observer sees in a state; what has nothing to do with the
    process array is taken from [base]. *)
Definition sys_world (s : Sys) : World := {|
  IsCurrentTransactionId := runsb s me;
  IsInProgress := runningb s;
  DidCommit := fun x => bool_decide (x ∈ committed s);
  CommitLSN := CommitLSN base;
  NeedsFlush := NeedsFlush base;
  BufferLSN := BufferLSN base;
  MultiXactMembers := MultiXactMembers base;
  TopmostTransaction := topmost;
  IsRemovableXid := IsRemovableXid base;
|}.

(** ** Acts of the others *)

(** An act of another backend, or an xmin of the observer; preparing a
    transaction of the observer is not one. *)
Definition foreign (a : Act) (s : Sys) : Prop :=
  (act_proc a <> me \/ exists x, a = ASetXmin me x) /\
  match a with
  | AAdd p _ => pr_xid (proc (mem s) p) = InvalidTransactionId \/ pr_xid (proc (mem s) p) <> pr_xid (proc (mem s) me)
  | _ => True
  end.

Inductive foreign_run : Sys -> Sys -> Prop :=
| foreign_refl s : foreign_run s s
| foreign_step a s s1 s' : foreign a s -> step a s s1 -> foreign_run s1 s' -> foreign_run s s'.

(** Nobody else runs a transaction of the observer, and it has not committed. *)
Record observed (s : Sys) : Prop := {
  ob_present : me ∈ pgprocnos (mem s);
  ob_sole : forall q x, q <> me -> runs s q x -> ~ runs s me x;
  ob_uncommitted : forall x, runs s me x -> x ∉ committed s;
  ob_valid : forall x, x ∈ committed s -> TransactionIdIsValid x = true;
}.

(** An act leaves alone what the other processes run. *)
Lemma others_runs a s s' q x : ok s -> step a s s' -> q <> act_proc a -> runs s' q x <-> runs s q x.
Proof.
  intros Hok [Ha Hact] Hne. pose proof Hok as [Hm _ _ _ Hps _].
  assert (Hacts : forall p sh' f', q <> p -> acts_on p (mem s) sh' -> (forall n, n <> p -> f' n = subs s n) ->
    runs (mkSys sh' f' (committed s)) q x <-> runs s q x).
  { intros p sh' f' Hqp [_ En Eo _] Hf. unfold runs. cbn [mem subs]. by rewrite En, Eo, Hf. }
  assert (Hassign : forall p sub f', q <> p -> p ∈ pgprocnos (mem s) -> (forall n, n <> p -> f' n = subs s n) ->
    runs (mkSys (advertise_xid p sub (mem s)) f' (committed s)) q x <-> runs s q x).
  { intros p sub f' Hqp Hp Hf. destruct (advertise_xid_common (mem s) p sub Hm Hp) as (_ & En & Eo & _).
    unfold runs. cbn [mem subs]. by rewrite En, Eo, Hf. }
  destruct a as [p tree|p y|p|p|p|p y|p|p|p y l z|p y|p f]; cbn [act act_ok act_proc] in *.
  - destruct (ProcArrayAdd p (mem s)) as [sh'|] eqn:Hadd; [|done]. cbn in Hact. injection Hact as <-.
    destruct Ha as (Hlt & Hno & _). destruct (ProcArrayAdd_effect (mem s) p sh' Hm Hlt Hno Hadd) as (_ & Hel & Hsame & _).
    unfold runs. cbn [mem subs]. destruct (Hsame q) as (-> & _). rewrite put_subs_ne, Hel by done. naive_solver.
  - injection Hact as <-. destruct (ProcArrayRemove_effect (mem s) p y Hm (proj1 Ha)) as (_ & Hel & Hsame & _).
    unfold runs. cbn [mem subs]. destruct (Hsame q) as (-> & _). rewrite Hel. naive_solver.
  - injection Hact as <-. apply Hassign; [done|apply Ha|]. intros. by apply put_subs_ne.
  - injection Hact as <-. apply Hassign; [done|apply Ha|]. intros. by apply put_subs_ne.
  - by injection Hact as <-.
  - injection Hact as <-. apply (Hacts p); [done| |intros; by apply put_subs_ne].
    by apply ProcArrayEndTransactionInternal_effect; [|apply Ha].
  - injection Hact as <-. apply (Hacts p); [done| |done]. by apply end_without_xid_effect; [|apply Ha].
  - injection Hact as <-. apply (Hacts p); [done| |intros; by apply put_subs_ne].
    by apply ProcArrayClearTransaction_effect; [|apply Ha].
  - injection Hact as <-. apply (Hacts p); [done| |intros; by apply put_subs_ne]. destruct Ha as [Hp _].
    destruct (XidCacheRemoveRunningXids_effect (mem s) p y l z Hm Hp (po_nodup _ _ _ _ _ (Hps p Hp))) as (sh1 & Hu & ->).
    eapply acts_on_trans; [apply Hu|]. apply completion_acts_on. by eapply uncached_mirrored.
  - injection Hact as <-. unfold runs. cbn [mem subs].
    by replace (proc (upd_proc p (set_xmin y) (mem s)) q) with (proc (mem s) q)
      by (symmetry; exact (proc_alter_ne (mem s) p q _ (not_eq_sym Hne))).
  - injection Hact as <-. unfold runs. cbn [mem subs pgprocnos put_statusFlags set_mirrors upd_proc].
    match goal with |- context [proc ?sh' q] => replace (proc sh' q) with (proc (mem s) q); [done|] end.
    symmetry. exact (proc_alter_ne (mem s) p q _ (not_eq_sym Hne)).
Qed.

(** What the acting process runs afterwards: what it ran, a new id, or, when a
    prepared transaction is added, what the preparing backend runs. *)
Lemma own_runs a s s' x :
  ok s -> step a s s' -> runs s' (act_proc a) x ->
  runs s (act_proc a) x \/ x = next_xid (mem s) \/
  exists p tree q, a = AAdd p tree /\ runs s q x /\
    pr_xid (proc (mem s) q) = pr_xid (proc (mem s) p) /\ pr_xid (proc (mem s) p) <> InvalidTransactionId.
Proof.
  intros Hok [Ha Hact]. pose proof Hok as [Hm _ _ _ Hps _].
  assert (Hnone : forall p sh' f', pr_xid (proc sh' p) = InvalidTransactionId -> f' p = [] ->
    ~ runs (mkSys sh' f' (committed s)) p x).
  { intros p sh' f' Hz Hf (_ & Hv & Hor). cbn [mem subs] in Hor. rewrite Hz, Hf in Hor.
    destruct Hor as [->|Hin]; [done|by apply not_elem_of_nil in Hin]. }
  destruct a as [p tree|p y|p|p|p|p y|p|p|p y l z|p y|p f]; cbn [act act_ok act_proc] in *.
  - destruct (ProcArrayAdd p (mem s)) as [sh'|] eqn:Hadd; [|done]. cbn in Hact. injection Hact as <-.
    destruct Ha as (Hlt & Hno & Hpok & Hdup).
    destruct (ProcArrayAdd_effect (mem s) p sh' Hm Hlt Hno Hadd) as (_ & _ & Hsame & _).
    destruct (Hsame p) as (Ex & _). intros (_ & Hv & Hor). cbn [mem subs] in Hor. rewrite Ex, put_subs_eq in Hor.
    destruct (decide (pr_xid (proc (mem s) p) = InvalidTransactionId)) as [Hz|Hz].
    + destruct (po_idle _ _ _ _ _ Hpok Hz) as [Ht _]. rewrite Hz, Ht in Hor.
      destruct Hor as [->|Hin]; [done|by apply not_elem_of_nil in Hin].
    + destruct (Hdup Hz) as (q & Hq & E1 & E2 & _). right. right. exists p, tree, q.
      split; [done|]. split; [|done]. split; [done|]. split; [done|]. by rewrite E1, E2.
  - injection Hact as <-. destruct (ProcArrayRemove_effect (mem s) p y Hm (proj1 Ha)) as (_ & Hel & Hsame & _).
    intros (Hp & _). cbn [mem] in Hp. apply Hel in Hp as [_ ?]. done.
  - injection Hact as <-. intros (_ & Hv & Hor). cbn [mem subs] in Hor. right. left.
    rewrite put_subs_eq, (advertise_top (mem s) p Hm (proj1 Ha)) in Hor.
    destruct Hor as [->|Hin]; [done|by apply not_elem_of_nil in Hin].
  - injection Hact as <-. intros (_ & Hv & Hor). cbn [mem subs] in Hor.
    destruct (advertise_sub (mem s) p Hm (proj1 Ha)) as (Ex & _). rewrite Ex, put_subs_eq, elem_of_app, list_elem_of_singleton in Hor.
    destruct Hor as [?|[?|?]]; [left|left|by right; left]; (split_and!; [apply Ha|done|]); [by left|by right].
  - injection Hact as <-. by left.
  - injection Hact as <-. intros Hr. exfalso. eapply Hnone; [|apply put_subs_eq|exact Hr].
    by apply ProcArrayEndTransactionInternal_effect; [|apply Ha].
  - injection Hact as <-. intros (_ & Hv & Hor). left. cbn [mem subs] in Hor.
    destruct (end_without_xid_effect (mem s) p Hm (proj1 Ha)) as (_ & Ex & _). rewrite Ex in Hor.
    split_and!; [apply Ha|done|done].
  - injection Hact as <-. intros Hr. exfalso. eapply Hnone; [|apply put_subs_eq|exact Hr].
    by apply ProcArrayClearTransaction_effect; [|apply Ha].
  - injection Hact as <-. intros (_ & Hv & Hor). left. cbn [mem subs] in Hor. destruct Ha as [Hp _].
    destruct (XidCacheRemoveRunningXids_effect (mem s) p y l z Hm Hp (po_nodup _ _ _ _ _ (Hps p Hp))) as (sh1 & Hu & E).
    rewrite E, put_subs_eq in Hor.
    replace (proc (count_completion (MaintainLatestCompletedXid z sh1)) p) with (proc sh1 p) in Hor
      by (symmetry; apply same_arrays_proc, (MaintainLatestCompletedXid_same z sh1)).
    rewrite (un_xid _ _ _ _ Hu) in Hor. split_and!; [done|done|].
    destruct Hor as [?|Hin]; [by left|right]. by apply list_elem_of_filter in Hin as [_ ?].
  - injection Hact as <-. intros (_ & Hv & Hor). left. cbn [mem subs] in Hor.
    rewrite (upd_proc_at (mem s) p Hm Ha (set_xmin y)) in Hor. done.
  - injection Hact as <-. intros (_ & Hv & Hor). left. cbn [mem subs] in Hor. split_and!; [apply Ha|done|].
    replace (proc _ p) with (set_statusFlags f (proc (mem s) p)) in Hor; [done|].
    symmetry. exact (upd_proc_at (mem s) p Hm (proj1 Ha) (set_statusFlags f)).
Qed.

Lemma running_assigned s p x : ok s -> runs s p x -> assigned o (next_xid (mem s)) x.
Proof.
  intros Hok (Hp & Hv & Hor). destruct (so_procs _ _ _ Hok p Hp) as [_ P2 P3 _ _ _].
  destruct Hor as [->|Hin]; [apply P2|by apply P3]. intros Hz. by rewrite Hz in Hv.
Qed.

Lemma step_next a s s' : ok s -> step a s s' -> xid_age o (next_xid (mem s)) <= xid_age o (next_xid (mem s')).
Proof.
  intros Hok Hs. destruct (completing a) eqn:Hc; [|by eapply co_next, step_continues].
  pose proof Hok as [Hm _ _ _ Hps _]. destruct Hs as [Ha Hact].
  destruct a as [p tree|p y|p|p|p|p y|p|p|p y l z|p y|p f]; try done; injection Hact as <-;
    unfold next_xid; cbn [mem act_ok act_proc] in *; destruct Ha as [Hp _].
  - destruct (ProcArrayRemove_effect (mem s) p y Hm Hp) as (_ & _ & _ & -> & _). lia.
  - destruct (ProcArrayEndTransactionInternal_effect (mem s) p y Hm Hp) as ([_ _ _ ->] & _). lia.
  - destruct (ProcArrayClearTransaction_effect (mem s) p Hm Hp) as ([_ _ _ ->] & _). lia.
  - destruct (XidCacheRemoveRunningXids_effect (mem s) p y l z Hm Hp (po_nodup _ _ _ _ _ (Hps p Hp))) as (sh1 & Hu & ->).
    cbn. rewrite MaintainLatestCompletedXid_next, (ao_next _ _ _ (un_acts _ _ _ _ Hu)). lia.
Qed.

Lemma step_gone a s s' x :
  ok s -> step a s s' -> assigned o (next_xid (mem s)) x -> ~ running s x -> ~ running s' x.
Proof.
  intros Hok Hs Ha Hn [q Hq]. apply Hn. destruct (decide (q = act_proc a)) as [->|Hne].
  - destruct (own_runs a s s' x Hok Hs Hq) as [?|[->|(p & tree & q & _ & Hr & _)]]; [by eexists| |by eexists].
    destruct Ha. lia.
  - exists q. exact (proj1 (others_runs a s s' q x Hok Hs Hne) Hq).
Qed.

Lemma step_committed a s s' x :
  ok s -> step a s s' ->
  (x ∈ committed s -> x ∈ committed s') /\ (x ∈ committed s' -> x ∈ committed s \/ runs s (act_proc a) x).
Proof.
  intros Hok [Ha Hact]. pose proof Hok as [_ _ _ _ Hps _].
  destruct a as [p tree|p y|p|p|p|p y|p|p|p y l z|p y|p f]; cbn [act act_ok act_proc] in *;
    try (injection Hact as <-; cbn [committed]; tauto).
  - destruct (ProcArrayAdd p (mem s)); [|done]. cbn in Hact. injection Hact as <-. cbn [committed]. tauto.
  - injection Hact as <-. cbn [committed]. destruct Ha as [Hp Hx]. split.
    + intros Hin. right. apply elem_of_app. by right.
    + intros [->|[Hin|Hin]%elem_of_app]%elem_of_cons; [right|right|by left]; split_and!; try done; try by auto.
      * by apply negb_true_iff, Z.eqb_neq.
      * apply normal_TransactionIdIsValid, (po_sub _ _ _ _ _ (Hps p Hp) x Hin).
Qed.

Lemma foreign_runs a s s' x : ok s -> foreign a s -> step a s s' -> runs s' me x <-> runs s me x.
Proof.
  intros Hok [[Hne|[y ->]] _] Hs; [by apply (others_runs a s s'); [| |apply not_eq_sym]|].
  destruct Hs as [Ha Hact]. injection Hact as <-. unfold runs. cbn [mem subs pgprocnos upd_proc].
  by rewrite (upd_proc_at (mem s) me (so_mirrored _ _ _ Hok) Ha (set_xmin y)).
Qed.

Lemma foreign_present a s s' :
  ok s -> foreign a s -> step a s s' -> me ∈ pgprocnos (mem s) -> me ∈ pgprocnos (mem s').
Proof.
  intros Hok [[Hne|[y ->]] _] [Ha Hact] Hp; [|by injection Hact as <-]. pose proof Hok as [Hm _ _ _ Hps _].
  destruct a as [p tree|p y|p|p|p|p y|p|p|p y l z|p y|p f]; cbn [act act_ok act_proc] in *.
  - destruct (ProcArrayAdd p (mem s)) as [sh'|] eqn:Hadd; [|done]. cbn in Hact. injection Hact as <-.
    destruct Ha as (Hlt & Hno & _). apply (ProcArrayAdd_effect (mem s) p sh' Hm Hlt Hno Hadd). by right.
  - injection Hact as <-. apply (ProcArrayRemove_effect (mem s) p y Hm (proj1 Ha)). by split; [|apply not_eq_sym].
  - injection Hact as <-. cbn [mem]. by destruct (advertise_xid_common (mem s) p false Hm (proj1 Ha)) as (_ & -> & _).
  - injection Hact as <-. cbn [mem]. by destruct (advertise_xid_common (mem s) p true Hm (proj1 Ha)) as (_ & -> & _).
  - by injection Hact as <-.
  - injection Hact as <-. cbn [mem]. by destruct (ProcArrayEndTransactionInternal_effect (mem s) p y Hm (proj1 Ha)) as ([_ -> _ _] & _).
  - injection Hact as <-. cbn [mem]. by destruct (end_without_xid_effect (mem s) p Hm (proj1 Ha)) as ([_ -> _ _] & _).
  - injection Hact as <-. cbn [mem]. by destruct (ProcArrayClearTransaction_effect (mem s) p Hm (proj1 Ha)) as ([_ -> _ _] & _).
  - injection Hact as <-. cbn [mem]. destruct Ha as [Hpp _].
    destruct (XidCacheRemoveRunningXids_effect (mem s) p y l z Hm Hpp (po_nodup _ _ _ _ _ (Hps p Hpp))) as (sh1 & Hu & ->).
    cbn. destruct (MaintainLatestCompletedXid_same z sh1) as (_ & -> & _). by rewrite (ao_nos _ _ _ (un_acts _ _ _ _ Hu)).
  - by injection Hact as <-.
  - by injection Hact as <-.
Qed.

Lemma foreign_observed a s s' : ok s -> foreign a s -> step a s s' -> observed s -> observed s'.
Proof.
  intros Hok Hf Hs [Hp Hsole Hun Hval]. pose proof (fun x => foreign_runs a s s' x Hok Hf Hs) as Hme.
  constructor.
  - apply (foreign_present a s s' Hok Hf Hs Hp).
  - intros q x Hq Hr Hr'. apply Hme in Hr'. destruct (decide (q = act_proc a)) as [->|Hne].
    + destruct (own_runs a s s' x Hok Hs Hr) as [?|[->|(p & tree & q & -> & Hrq & Hx & Hz)]].
      * by eapply Hsole.
      * apply (running_assigned s me _ Hok) in Hr'. destruct Hr'. lia.
      * destruct Hf as [_ [?|Hx']]; [done|]. destruct (decide (q = me)) as [->|?]; [done|]. by eapply (Hsole q).
    + apply (others_runs a s s' q x Hok Hs Hne) in Hr. by eapply Hsole.
  - intros x Hr Hin. apply Hme in Hr. destruct (step_committed a s s' x Hok Hs) as [_ Hb].
    destruct (Hb Hin) as [?|Hra]; [by eapply Hun|]. destruct Hf as [[Hne|[y ->]] _]; [by eapply (Hsole (act_proc a))|].
    destruct Hs as [_ Hact]. injection Hact as <-. by eapply Hun.
  - intros x Hin. destruct (step_committed a s s' x Hok Hs) as [_ Hb].
    destruct (Hb Hin) as [?|(_ & ? & _)]; [by apply Hval|done].
Qed.

(** ** Time lines *)

Record watching (s : Sys) : Prop := { wa_ok : ok s; wa_observed : observed s }.

(** What happens between two states of a time line. *)
Record passes (s s' : Sys) : Prop := {
  pa_watching : watching s';
  pa_next : xid_age o (next_xid (mem s)) <= xid_age o (next_xid (mem s'));
  pa_me : forall x, runs s' me x <-> runs s me x;
  pa_committed : forall x, x ∈ committed s -> x ∈ committed s';
  pa_gone : forall x, assigned o (next_xid (mem s)) x -> ~ running s x ->
    ~ running s' x /\ (x ∈ committed s' -> x ∈ committed s);
  pa_outside : forall x, ~ in_window o x -> x ∈ committed s' -> x ∈ committed s;
}.

Lemma passes_refl s : watching s -> passes s s.
Proof. intros. constructor; try done. Qed.

Lemma passes_trans s1 s2 s3 : passes s1 s2 -> passes s2 s3 -> passes s1 s3.
Proof.
  intros [W1 N1 M1 C1 G1 O1] [W2 N2 M2 C2 G2 O2]. constructor; [done|lia| |by auto| |by auto].
  - intros x. by rewrite M2.
  - intros x Ha Hn. destruct (G1 x Ha Hn) as [Hn1 Hc1]. destruct (G2 x) as [Hn2 Hc2]; [by eapply assigned_le|done|].
    split; [done|auto].
Qed.

Lemma step_passes a s s' : watching s -> foreign a s -> step a s s' -> passes s s'.
Proof.
  intros [Hok Hob] Hf Hs. constructor.
  - constructor; [by eapply sys_step_ok|by eapply foreign_observed].
  - by eapply step_next.
  - intros x. by eapply foreign_runs.
  - intros x. by apply (step_committed a s s').
  - intros x Ha Hn. split; [by eapply step_gone|]. intros Hin.
    destruct (step_committed a s s' x Hok Hs) as [_ Hb]. destruct (Hb Hin) as [?|Hr]; [done|]. destruct Hn. by eexists.
  - intros x Hx Hin. destruct (step_committed a s s' x Hok Hs) as [_ Hb]. destruct (Hb Hin) as [?|Hr]; [done|].
    destruct Hx. eapply assigned_window; [apply Hok|]. by eapply running_assigned.
Qed.

Lemma run_passes s s' : watching s -> foreign_run s s' -> passes s s'.
Proof.
  intros Hw Hr. induction Hr as [|a s s1 s' Hf Hs Hr IH]; [by apply passes_refl|].
  pose proof (step_passes a s s1 Hw Hf Hs) as Hp. eapply passes_trans; [done|]. apply IH, Hp.
Qed.

Section Line.
Context (tau : nat -> Sys) (Hstart : watching (tau 0%nat)).
Context (Hline : forall t, foreign_run (tau t) (tau (S t))).

Lemma line_watching t : watching (tau t).
Proof. induction t as [|t IH]; [done|]. eapply pa_watching, run_passes; [exact IH|apply Hline]. Qed.

Lemma line_passes t t' : (t <= t')%nat -> passes (tau t) (tau t').
Proof.
  intros Hle. induction Hle as [|t' Hle IH]; [apply passes_refl, line_watching|].
  eapply passes_trans; [exact IH|]. apply run_passes; [apply line_watching|apply Hline].
Qed.

(** Finished by [t]: from then on the commit log does not change for it. *)
Lemma finished_committed t t' t'' x :
  assigned o (next_xid (mem (tau t))) x -> ~ running (tau t) x -> (t <= t')%nat -> (t <= t'')%nat ->
  bool_decide (x ∈ committed (tau t')) = bool_decide (x ∈ committed (tau t'')).
Proof.
  intros Ha Hn H1 H2. apply bool_decide_ext.
  destruct (line_passes t t' H1) as [_ _ _ C1 G1 _], (line_passes t t'' H2) as [_ _ _ C2 G2 _].
  destruct (G1 x Ha Hn), (G2 x Ha Hn). naive_solver.
Qed.

(** The ids the laws speak of: all but those the counter has yet to reach. *)
Definition started (x : TransactionId) : Prop := in_window o x -> assigned o (next_xid (mem (tau 0%nat))) x.

Lemma outside_committed t t' x :
  ~ in_window o x -> bool_decide (x ∈ committed (tau t)) = bool_decide (x ∈ committed (tau t')).
Proof.
  intros Hx. apply bool_decide_ext.
  destruct (line_passes 0 t (Nat.le_0_l _)) as [_ _ _ C1 _ O1], (line_passes 0 t' (Nat.le_0_l _)) as [_ _ _ C2 _ O2].
  naive_solver.
Qed.

Lemma sys_time_laws : TimeLaws (fun t => sys_world (tau t)) started.
Proof.
  constructor; cbn [sys_world DidCommit IsInProgress IsCurrentTransactionId MultiXactMembers TopmostTransaction];
    try done.
  - intros t t' x Hle. rewrite !bool_decide_eq_true. by apply (line_passes t t' Hle).
  - intros t t' t'' x Hs Hr H1 H2. destruct (decide (in_window o x)) as [Hw|Hw]; [|by apply outside_committed].
    apply (finished_committed t); [|by rewrite <- runningb_spec, Hr|done|done].
    eapply assigned_le; [|exact (Hs Hw)]. apply (line_passes 0 t). lia.
  - intros t t' x. apply eq_true_iff_eq. rewrite !runsb_spec.
    rewrite (pa_me _ _ (line_passes 0 t (Nat.le_0_l _))), (pa_me _ _ (line_passes 0 t' (Nat.le_0_l _))). done.
  - intros t x Hr%runsb_spec. apply bool_decide_eq_false.
    by apply (ob_uncommitted _ (wa_observed _ (line_watching t))).
  - intros t. apply bool_decide_eq_false. intros Hin.
    by apply (ob_valid _ (wa_observed _ (line_watching t))) in Hin.
Qed.

(** Processes that snapshots skip have no transaction of their own. *)
Definition skipped_idle (s : Sys) : Prop :=
  forall p, p ∈ pgprocnos (mem s) -> skipped (proc (mem s) p) = true -> pr_xid (proc (mem s) p) = InvalidTransactionId.

Lemma sys_snapshot_law t0 sn :
  skipped_idle (tau t0) -> snapshot_shows topmost o me (tau t0) sn ->
  snapshot_law (fun t => sys_world (tau t)) t0 sn.
Proof.
  intros Hsk Hsn x t t' Hin Hcur H1 H2. cbn [sys_world DidCommit IsCurrentTransactionId TopmostTransaction] in *.
  destruct (line_watching t0) as [Hok _]. destruct (decide (in_window o x)) as [Hw|Hw].
  - destruct (Hsn x Hw) as (S1 & S2 & _). rewrite Hin in S1, S2.
    assert (Hme : ~ runs (tau t0) me x) by (rewrite <- runsb_spec; by rewrite Hcur).
    apply (finished_committed t0); try done.
    + destruct (decide (xid_age o x < xid_age o (next_xid (mem (tau t0))))) as [?|Hge]; [by split; [apply Hw|]|].
      discriminate S2. by intros [_ ?].
    + intros [q Hq]. discriminate S1; [|done]. exists q. split_and!; [by intros ->|done|].
      destruct (skipped (proc (mem (tau t0)) q)) eqn:Hs; [|done]. exfalso. pose proof Hq as (Hp & Hv & Hor).
      pose proof (Hsk q Hp Hs) as Hz. destruct (po_idle _ _ _ _ _ (so_procs _ _ _ Hok q Hp) Hz) as [Ht _].
      rewrite Hz, Ht in Hor. destruct Hor as [->|Hi]; [done|by apply not_elem_of_nil in Hi].
  - by apply outside_committed.
Qed.

End Line.
End World.

(** A tuple ready to be checked, apart from the law for the snapshot. *)
Record tuple_ready (c : Context_) (Started : TransactionId -> Prop) (t0 : nat) (vs : VState) : Prop := {
  tr_sound : hints_sound (world c) (v_clock vs) (v_tuple vs);
  tr_tuple : tuple_ok (world c) Started (v_clock vs) (v_tuple vs);
  tr_time : (t0 <= v_clock vs)%nat;
  tr_moved : moved (v_tuple vs) = false;
  tr_xmin : own_xmin_live c t0 (v_tuple vs);
  tr_xmax : own_xmax_live c t0 (v_tuple vs);
}.

(** C9. snapshots and visibility checks fit together: on every time line of a
    system in which one backend observes, the process array satisfies the laws
    the visibility routines rely on, the snapshot that [GetSnapshotData] gives
    the observer at [t0] satisfies the law for snapshots, and
    [HeapTupleSatisfiesMVCC] with that snapshot answers as of [t0], at any
    later time and whatever the others have committed since. *)
Theorem snapshot_visibility (topmost : TransactionId -> TransactionId) (o : TransactionId) (base : World)
    (tau sigma : nat -> Sys) (t0 : nat) (last : ProcShared) (cid : CommandId) (s : Snapshot) (l : ProcLocal) :
  let me := MyProcNo l in
  let W t := sys_world topmost me base (tau t) in
  let Started := started o tau in
  let sn := snap (GetSnapshotData false cid (fun t => mem (sigma t)) last s l).1.1 in
  watching topmost o me (tau 0%nat) -> (forall t, foreign_run topmost o me (tau t) (tau (S t))) ->
  skipped_idle (tau t0) -> scanning topmost o sigma -> sigma 0%nat = tau t0 ->
  (me < length (allProcs last))%nat -> is_u64 (xactCompletionCount (mem (sigma 0%nat))) ->
  snapXactCompletionCount s = 0 \/ snapshot_of topmost o me s (sigma 0%nat) ->
  TimeLaws W Started /\ snapshot_law W t0 sn /\
  forall c vs, world c = W -> v_snapshot vs = sn -> tuple_ready c Started t0 vs ->
    (call HeapTupleSatisfiesMVCC c vs).1 = mvcc_visible c t0 sn (v_tuple vs).
Proof.
  intros me W Started sn Hw Hl Hsk Hs E Hlt Hu Hold.
  assert (Hme : me ∈ pgprocnos (mem (sigma 0%nat))).
  { rewrite E. exact (ob_present _ _ (wa_observed _ _ _ _ (line_watching topmost o me tau Hw Hl t0))). }
  pose proof (GetSnapshotData_result topmost o sigma last cid l Hs Hme Hlt s Hu Hold) as Hr.
  assert (Hshow : snapshot_shows topmost o me (tau t0) sn).
  { unfold sn. rewrite <- E. destruct (GetSnapshotData _ _ _ _ _ _) as [[sn' last'] l']. apply Hr. }
  pose proof (sys_time_laws topmost o me base tau Hw Hl) as HL.
  pose proof (sys_snapshot_law topmost o me base tau Hw Hl t0 sn Hsk Hshow) as HS.
  split; [exact HL|]. split; [exact HS|]. intros c vs Hc Hsn [H1 H2 H3 H4 H5 H6]. rewrite <- Hsn.
  assert (HLc : TimeLaws (world c) Started) by (rewrite Hc; exact HL).
  apply (mvcc_ready_spec c Started). constructor; try assumption. rewrite Hc, Hsn. exact HS.
Qed.

(** ** An example time line: backend 0 observes, backend 2 is assigned 103,
    and transaction 100 of backend 1 commits and leaves the array. *)
Definition ex_line_acts : list Act := [AAssign 2; ACommitLog 1; AEnd 1 101].
Definition ex_line (t : nat) : Sys := perform (take t ex_line_acts) (ex_sys 8).

Lemma ex_watching : watching ex_topmost 3 0 (ex_sys 8).
Proof.
  assert (Hno : forall x, ~ runs (ex_sys 8) 0 x).
  { intros x (_ & Hv & [->|Hx]); [done|]. vm_compute in Hx. by apply not_elem_of_nil in Hx. }
  split; [exact ex_ok|]. constructor; [ground|intros q x _ _; apply Hno|intros x Hx; by destruct (Hno x)|].
  intros x Hx. change (x ∈ [102]) in Hx. by apply list_elem_of_singleton in Hx as ->.
Qed.

Lemma ex_line_run t : foreign_run ex_topmost 3 0 (ex_line t) (ex_line (S t)).
Proof.
  destruct t as [|[|[|t]]]; [| | |unfold ex_line; rewrite !take_ge by (cbn; lia); apply foreign_refl].
  - eapply foreign_step; [|exact ex_step|apply foreign_refl]. split; [by left|exact I].
  - eapply (foreign_step _ _ _ (ACommitLog 1)); [split; [by left|exact I]| |apply foreign_refl].
    constructor; [|reflexivity]. split; [ground|by vm_compute].
  - eapply (foreign_step _ _ _ (AEnd 1 101)); [split; [by left|exact I]| |apply foreign_refl].
    constructor; [|reflexivity]. split; [ground|]. split; [by vm_compute|]. split; [split; by vm_compute|].
    intros x Hx. vm_compute in Hx. destruct Hx as [->|Hx]; [by vm_compute|].
    apply list_elem_of_singleton in Hx as ->. by vm_compute.
Qed.

Lemma ex_skipped : skipped_idle (ex_line 0).
Proof.
  intros n Hn. change (n ∈ [0; 1; 2]%nat) in Hn. apply list_elem_of_In in Hn. destruct Hn as [<-|[<-|[<-|[]]]]; by vm_compute.
Qed.

Definition ex_base : World :=
  mkWorld (fun _ => false) (fun _ => false) (fun _ => false) (fun _ => 100) (fun _ => false) 0 (fun _ _ => []) (fun x => x)
    (fun _ => false).

Definition ex_line_context : Context_ :=
  mkContext (fun t => sys_world ex_topmost 0 ex_base (ex_line t)) true empty_combo (fun _ => None).

(** Inserted by 101, the committed subtransaction of 100. *)
Definition ex_inserted : HeapTupleHeaderData :=
  mkHeapTupleHeader 101 InvalidTransactionId 0 (mkItemPointer 0 1) HEAP_XMAX_INVALID.

Definition ex_taken : SnapshotData :=
  snap (GetSnapshotData false 7 (fun t => mem (ex_scan t)) (mem ex_next) ex_old_snapshot ex_local).1.1.

Definition ex_check (t : nat) : VState := mkVState ex_inserted ex_taken 0 t false.

Lemma ex_check_ready t : tuple_ready ex_line_context (started 3 ex_line) 0 (ex_check t).
Proof.
  assert (H0 : aborted_from (world ex_line_context) t InvalidTransactionId).
  { intros t' Ht. exact (invalid_uncommitted (TimeLaws := sys_time_laws ex_topmost 3 0 ex_base ex_line ex_watching ex_line_run) t'). }
  assert (Hi : xid_age 3 101 < xid_age 3 (next_xid (mem (ex_line 0)))) by (vm_compute; done).
  split; [| |cbn; lia|reflexivity|by intros|by intros].
  - split; try done. by right.
  - split; [by left|by right|done|]. intros. exact H0.
Qed.

(** At instant 5 the inserter has committed and is gone; the snapshot of
    instant 0 does not see its tuple. *)
Lemma snapshot_visibility_witness :
  DidCommit (world ex_line_context 5) 101 = true /\ IsInProgress (world ex_line_context 5) 101 = false /\
  (call HeapTupleSatisfiesMVCC ex_line_context (ex_check 5)).1 = false.
Proof.
  split; [vm_compute; reflexivity|]. split; [vm_compute; reflexivity|].
  destruct (snapshot_visibility ex_topmost 3 ex_base ex_line ex_scan 0 (mem ex_next) 7 ex_old_snapshot ex_local
    ex_watching ex_line_run ex_skipped ex_scanning eq_refl ltac:(vm_compute; lia) ltac:(vm_compute; done) (or_introl eq_refl))
    as (_ & _ & H).
  rewrite (H ex_line_context (ex_check 5) eq_refl eq_refl (ex_check_ready 5)). vm_compute. reflexivity.
Defined.
