(* ===== verification/ProcFloor.v ===== *)
(** * ProcFloor: the xmin of snapshots never goes back

    The xmin of a snapshot is the greatest bound below everything that may
    still be running.  Such bounds only move forward, whatever the backends
    do; so a backend that advertises the xmin of one of its snapshots also
    covers all snapshots it takes later, and those it finds to be still
    current. *)

From S2P Require Import Prelude TransactionId KnownXids HeapTuple ProcArray ProcInv ProcRun ProcScan ProcExample.
From S2P Require Import ProcSnapshot ProcWorld.

Lemma remove_cached_flags sh p x q :
  mirrored sh -> p ∈ pgprocnos sh -> pr_statusFlags (proc (remove_cached p x sh) q) = pr_statusFlags (proc sh q).
Proof.
  intros Hm Hp. unfold remove_cached. destruct (find_back _ _ _) as [j|]; [|done]. set (f := set_subxids _ _).
  change (proc (upd_subxidState _ _ (upd_proc p f sh)) q) with (proc (upd_proc p f sh) q).
  destruct (decide (q = p)) as [->|Hne]; [by rewrite (upd_proc_at sh p Hm Hp f)|].
  f_equal. exact (proc_alter_ne sh p q f (not_eq_sym Hne)).
Qed.

Lemma abort_flags sh p xid children latestXid q :
  mirrored sh -> p ∈ pgprocnos sh ->
  pr_statusFlags (proc (XidCacheRemoveRunningXids p xid children latestXid sh) q) = pr_statusFlags (proc sh q).
Proof.
  intros Hm Hp. unfold XidCacheRemoveRunningXids.
  assert (Hall : forall l, mirrored (foldr (remove_cached p) sh l) /\ p ∈ pgprocnos (foldr (remove_cached p) sh l) /\
    pr_statusFlags (proc (foldr (remove_cached p) sh l) q) = pr_statusFlags (proc sh q)).
  { intros l. induction l as [|y l (M & P & F)]; cbn; [done|].
    split_and!; [by apply remove_cached_mirrored| |by rewrite remove_cached_flags].
    unfold remove_cached. by destruct (find_back _ _ _). }
  destruct (Hall children) as (M & P & F). rewrite <- F, <- (remove_cached_flags _ p xid q M P).
  f_equal. apply same_arrays_proc, (MaintainLatestCompletedXid_same latestXid).
Qed.

Section Floor.
Context (topmost : TransactionId -> TransactionId) (o : TransactionId).

Abbreviation ok := (sys_ok topmost o).
Abbreviation step := (sys_step topmost o).

(** A process that runs a transaction before and after an act keeps the flags
    by which snapshots skip it. *)
Lemma step_skipped a s s' q x :
  ok s -> step a s s' -> runs s q x -> runs s' q x -> skipped (proc (mem s') q) = skipped (proc (mem s) q).
Proof.
  intros Hok [Ha Hact] Hr Hr'. pose proof Hok as [Hm _ _ _ Hps _].
  assert (Hidle : forall p, p ∈ pgprocnos (mem s) -> pr_xid (proc (mem s) p) = InvalidTransactionId -> ~ runs s p x).
  { intros p Hp Hz (_ & Hv & Hor). destruct (po_idle _ _ _ _ _ (Hps p Hp) Hz) as [Ht _]. rewrite Hz, Ht in Hor.
    destruct Hor as [->|Hin]; [done|by apply not_elem_of_nil in Hin]. }
  assert (Hother : forall p sh', acts_on p (mem s) sh' -> q <> p -> skipped (proc sh' q) = skipped (proc (mem s) q)).
  { intros p sh' [_ _ Eo _] Hne. by rewrite Eo. }
  unfold skipped. 
  destruct a as [p tree|p y|p|p|p|p y|p|p|p y l z|p y|p f]; cbn [act act_ok act_proc] in *.
  - destruct (ProcArrayAdd p (mem s)) as [sh'|] eqn:Hadd; [|done]. cbn in Hact. injection Hact as <-.
    destruct Ha as (Hlt & Hno & _). destruct (ProcArrayAdd_effect (mem s) p sh' Hm Hlt Hno Hadd) as (_ & _ & Hsame & _).
    cbn [mem]. by destruct (Hsame q) as (_ & _ & _ & ->).
  - injection Hact as <-. destruct (ProcArrayRemove_effect (mem s) p y Hm (proj1 Ha)) as (_ & _ & Hsame & _).
    cbn [mem]. by destruct (Hsame q) as (_ & _ & _ & ->).
  - injection Hact as <-. cbn [mem]. destruct (decide (q = p)) as [->|Hne]; [by destruct Ha as (Hp & Hz & _), (Hidle p Hp Hz)|].
    destruct (advertise_xid_common (mem s) p false Hm (proj1 Ha)) as (_ & _ & -> & _); done.
  - injection Hact as <-. cbn [mem]. destruct (decide (q = p)) as [->|Hne].
    + by destruct (advertise_sub_flags (mem s) p Hm (proj1 Ha)) as [-> _].
    + destruct (advertise_xid_common (mem s) p true Hm (proj1 Ha)) as (_ & _ & -> & _); done.
  - by injection Hact as <-.
  - injection Hact as <-. destruct (decide (q = p)) as [->|Hne].
    + exfalso. destruct Hr' as (_ & Hv & Hor). cbn [mem subs] in Hor.
      destruct (ProcArrayEndTransactionInternal_effect (mem s) p y Hm (proj1 Ha)) as (_ & Ex & _).
      rewrite Ex, put_subs_eq in Hor. destruct Hor as [->|Hin]; [done|by apply not_elem_of_nil in Hin].
    + apply (Hother p); [|done]. by apply ProcArrayEndTransactionInternal_effect; [|apply Ha].
  - injection Hact as <-. destruct (decide (q = p)) as [->|Hne]; [by destruct Ha as [Hp Hz], (Hidle p Hp Hz)|].
    apply (Hother p); [|done]. by apply end_without_xid_effect; [|apply Ha].
  - injection Hact as <-. destruct (decide (q = p)) as [->|Hne].
    + exfalso. destruct Hr' as (_ & Hv & Hor). cbn [mem subs] in Hor.
      destruct (ProcArrayClearTransaction_effect (mem s) p Hm (proj1 Ha)) as (_ & Ex & _).
      rewrite Ex, put_subs_eq in Hor. destruct Hor as [->|Hin]; [done|by apply not_elem_of_nil in Hin].
    + apply (Hother p); [|done]. by apply ProcArrayClearTransaction_effect; [|apply Ha].
  - injection Hact as <-. cbn [mem]. by rewrite abort_flags by (done || apply Ha).
  - injection Hact as <-. cbn [mem]. destruct (decide (q = p)) as [->|Hne].
    + by rewrite (upd_proc_at (mem s) p Hm Ha (set_xmin y)).
    + f_equal. f_equal. exact (proc_alter_ne (mem s) p q _ (not_eq_sym Hne)).
  - injection Hact as <-. cbn [mem]. destruct (decide (q = p)) as [->|Hne]; [by destruct Ha as [Hp Hz], (Hidle p Hp Hz)|].
    f_equal. f_equal. exact (proc_alter_ne (mem s) p q _ (not_eq_sym Hne)).
Qed.

(** [latestCompletedXid] moves forward, and only when something completes. *)
Lemma step_latest a s s' :
  ok s -> step a s s' ->
  xid_age o (latest_xid (mem s)) <= xid_age o (latest_xid (mem s')) /\
  (completing a = false -> latest_xid (mem s') = latest_xid (mem s)).
Proof.
  intros Hok [Ha Hact]. pose proof Hok as [Hm Hn _ Hl Hps _].
  assert (Hsame : forall sh', latestCompletedXid sh' = latestCompletedXid (mem s) ->
    xid_age o (latest_xid (mem s)) <= xid_age o (latest_xid sh') /\ (completing a = false -> latest_xid sh' = latest_xid (mem s))).
  { intros sh' E. unfold latest_xid. rewrite E. split; [lia|done]. }
  assert (Hend : forall sh' x, completing a = true -> assigned o (next_xid (mem s)) x ->
    latestCompletedXid sh' = latestCompletedXid (count_completion (MaintainLatestCompletedXid x (mem s))) ->
    xid_age o (latest_xid (mem s)) <= xid_age o (latest_xid sh') /\ (completing a = false -> latest_xid sh' = latest_xid (mem s))).
  { intros sh' x Hc Hx E. split; [|by rewrite Hc]. unfold latest_xid at 2. rewrite E.
    destruct (completion_fields x (mem s)) as [-> _]. apply (maintain_latest o (mem s) x Hn Hl Hx). }
  destruct a as [p tree|p y|p|p|p|p y|p|p|p y l z|p y|p f]; cbn [act act_ok act_proc] in *.
  - destruct (ProcArrayAdd p (mem s)) as [sh'|] eqn:Hadd; [|done]. cbn in Hact. injection Hact as <-.
    destruct Ha as (Hlt & Hno & _). apply Hsame. by apply (ProcArrayAdd_effect (mem s) p sh' Hm Hlt Hno Hadd).
  - injection Hact as <-. destruct Ha as [Hp Hx].
    destruct (ProcArrayRemove_effect (mem s) p y Hm Hp) as (_ & _ & _ & _ & Ec). apply (f_equal fst) in Ec. cbn [fst] in Ec.
    destruct (TransactionIdIsValid y) eqn:Hv; [|by apply Hsame]. apply (Hend _ y); [done|apply Hx|]. cbn [mem]. by rewrite Ec.
  - injection Hact as <-. apply Hsame. by apply (advertise_xid_common (mem s) p false Hm (proj1 Ha)).
  - injection Hact as <-. apply Hsame. by apply (advertise_xid_common (mem s) p true Hm (proj1 Ha)).
  - injection Hact as <-. by apply Hsame.
  - injection Hact as <-. destruct Ha as (Hp & _ & Hlat & _). apply (Hend _ y); [done|done|].
    exact (proj1 (proj2 (proj2 (proj2 (ProcArrayEndTransactionInternal_effect (mem s) p y Hm Hp))))).
  - injection Hact as <-. apply Hsame. by apply (end_without_xid_effect (mem s) p Hm (proj1 Ha)).
  - injection Hact as <-. apply Hsame. by apply (ProcArrayClearTransaction_effect (mem s) p Hm (proj1 Ha)).
  - injection Hact as <-. destruct Ha as (Hp & _ & Hlat & _). apply (Hend _ z); [done|done|].
    destruct (XidCacheRemoveRunningXids_effect (mem s) p y l z Hm Hp (po_nodup _ _ _ _ _ (Hps p Hp))) as (sh1 & Hu & E).
    cbn [mem]. rewrite E. destruct (completion_fields z sh1) as [-> _], (completion_fields z (mem s)) as [-> _].
    by destruct (un_completed _ _ _ _ Hu) as [-> _].
  - injection Hact as <-. by apply Hsame.
  - injection Hact as <-. by apply Hsame.
Qed.

Lemma completing_next a s s' : ok s -> completing a = true -> step a s s' -> next_xid (mem s') = next_xid (mem s).
Proof.
  intros Hok Hc [Ha Hact]. pose proof Hok as [Hm _ _ _ Hps _].
  destruct a as [p tree|p y|p|p|p|p y|p|p|p y l z|p y|p f]; try done; injection Hact as <-;
    unfold next_xid; cbn [mem act_ok act_proc] in *; destruct Ha as [Hp _].
  - by destruct (ProcArrayRemove_effect (mem s) p y Hm Hp) as (_ & _ & _ & -> & _).
  - by destruct (ProcArrayEndTransactionInternal_effect (mem s) p y Hm Hp) as ([_ _ _ ->] & _).
  - by destruct (ProcArrayClearTransaction_effect (mem s) p Hm Hp) as ([_ _ _ ->] & _).
  - destruct (XidCacheRemoveRunningXids_effect (mem s) p y l z Hm Hp (po_nodup _ _ _ _ _ (Hps p Hp))) as (sh1 & Hu & ->).
    cbn. by rewrite MaintainLatestCompletedXid_next, (ao_next _ _ _ (un_acts _ _ _ _ Hu)).
Qed.

(** ** Bounds below what may be running *)

(** [a] is below every id that is not known to have ended: those after the
    latest completed one, those that snapshots of others show, and those of
    [me]. *)
Record floor (me : nat) (s : Sys) (a : Z) : Prop := {
  fl_latest : forall x, in_window o x -> xid_age o (latest_xid (mem s)) < xid_age o x -> a <= xid_age o x;
  fl_runs : forall q x, runs s q x -> skipped (proc (mem s) q) = false -> a <= xid_age o x;
  fl_own : forall x, runs s me x -> a <= xid_age o x;
}.

Lemma floor_le me s a a' : a' <= a -> floor me s a -> floor me s a'.
Proof. intros Hle [H1 H2 H3]. constructor; intros; [specialize (H1 x)|specialize (H2 q x)|specialize (H3 x)]; naive_solver lia. Qed.

Lemma floor_step me a s s' b :
  ok s -> me ∈ pgprocnos (mem s) -> step a s s' -> floor me s b -> floor me s' b.
Proof.
  intros Hok Hme Hs [H1 H2 H3]. destruct (step_latest a s s' Hok Hs) as [Hl _].
  assert (Hok' : ok s') by (by eapply sys_step_ok).
  assert (Hnew : forall q x, runs s' q x -> ~ assigned o (next_xid (mem s)) x -> b <= xid_age o x).
  { intros q x Hr Hna. pose proof (running_assigned topmost o s' q x Hok' Hr) as Ha. apply H1.
    - eapply assigned_window; [apply Hok'|done].
    - destruct (Z.le_gt_cases (xid_age o (next_xid (mem s))) (xid_age o x)) as [Hle|Hgt].
      + destruct (so_latest _ _ _ Hok). lia.
      + destruct Hna. split; [apply Ha|done]. }
  constructor.
  - intros x Hx Hlt. apply H1; [done|lia].
  - intros q x Hr Hsk. destruct (completing a) eqn:Hc.
    2: { assert (Hdec : Decision (assigned o (next_xid (mem s)) x)) by (unfold assigned; apply _).
         destruct (decide (assigned o (next_xid (mem s)) x)) as [Hx|Hx]; [|by eapply Hnew].
         destruct (co_back _ _ _ (step_continues topmost o a s s' Hok Hc Hs) q x Hr Hx Hsk) as (q' & Hr' & Hsk'). by apply (H2 q'). }
    assert (Hr0 : runs s q x).
    { destruct (decide (q = act_proc a)) as [->|Hne]; [|by apply (others_runs topmost o a s s' q x Hok Hs Hne)].
      destruct (own_runs topmost o a s s' x Hok Hs Hr) as [Hr0|[->|(p & tree & q & -> & _)]]; [done| |done].
      exfalso. pose proof (running_assigned topmost o s' _ _ Hok' Hr) as [_ Hlt].
      rewrite (completing_next a s s' Hok Hc Hs) in Hlt. lia. }
    apply (H2 _ _ Hr0). by rewrite <- (step_skipped a s s' _ x Hok Hs Hr0 Hr).
  - intros x Hr. destruct (decide (me = act_proc a)) as [E|Hne].
    + rewrite E in Hr. destruct (own_runs topmost o a s s' x Hok Hs Hr) as [Hr0|[->|(p & tree & q & -> & _)]].
      * apply H3. by rewrite E.
      * apply (Hnew _ _ Hr). intros [_ ?]. lia.
      * cbn in E. subst p. by destruct Hs as [(_ & Hno & _) _].
    + apply H3. by apply (others_runs topmost o a s s' me x Hok Hs Hne).
Qed.

(** Without a completion the bounds are the same before and after. *)
Lemma floor_back me a s s' b :
  ok s -> step a s s' -> completing a = false -> floor me s' b -> floor me s b.
Proof.
  intros Hok Hs Hc [H1 H2 H3]. destruct (step_latest a s s' Hok Hs) as [_ Hl]. rewrite (Hl Hc) in H1.
  pose proof (co_runs _ _ _ (step_continues topmost o a s s' Hok Hc Hs)) as Hr.
  constructor; [done| |by intros x Hx; apply H3, Hr].
  intros q x Hx Hsk. apply (H2 q); [by apply Hr|]. by rewrite (step_skipped a s s' q x Hok Hs Hx (Hr q x Hx)).
Qed.

(** The place of [me] in the array is its own. *)
Lemma step_present me a s s' : step a s s' -> ok s -> me ∈ pgprocnos (mem s) -> (forall x, a <> ARemove me x) -> me ∈ pgprocnos (mem s').
Proof.
  intros [Ha Hact] Hok Hme Hno. pose proof Hok as [Hm _ _ _ Hps _].
  destruct a as [p tree|p y|p|p|p|p y|p|p|p y l z|p y|p f]; cbn [act act_ok act_proc] in *.
  - destruct (ProcArrayAdd p (mem s)) as [sh'|] eqn:Hadd; [|done]. cbn in Hact. injection Hact as <-.
    destruct Ha as (Hlt & Hn & _). destruct (ProcArrayAdd_effect (mem s) p sh' Hm Hlt Hn Hadd) as (_ & Hel & _).
    apply Hel. by right.
  - injection Hact as <-. destruct (ProcArrayRemove_effect (mem s) p y Hm (proj1 Ha)) as (_ & Hel & _).
    apply Hel. split; [done|]. intros ->. by apply (Hno y).
  - injection Hact as <-. cbn [mem]. by destruct (advertise_xid_common (mem s) p false Hm (proj1 Ha)) as (_ & -> & _).
  - injection Hact as <-. cbn [mem]. by destruct (advertise_xid_common (mem s) p true Hm (proj1 Ha)) as (_ & -> & _).
  - by injection Hact as <-.
  - injection Hact as <-. cbn [mem]. by destruct (ProcArrayEndTransactionInternal_effect (mem s) p y Hm (proj1 Ha)) as ([_ -> _ _] & _).
  - injection Hact as <-. cbn [mem]. by destruct (end_without_xid_effect (mem s) p Hm (proj1 Ha)) as ([_ -> _ _] & _).
  - injection Hact as <-. cbn [mem]. by destruct (ProcArrayClearTransaction_effect (mem s) p Hm (proj1 Ha)) as ([_ -> _ _] & _).
  - injection Hact as <-. destruct Ha as [Hp _]. cbn [mem].
    destruct (XidCacheRemoveRunningXids_effect (mem s) p y l z Hm Hp (po_nodup _ _ _ _ _ (Hps p Hp))) as (sh1 & Hu & ->).
    pose proof (un_acts _ _ _ _ Hu) as A.
    rewrite (ao_nos _ _ _ (completion_acts_on p z sh1 (ao_mirrored _ _ _ A))). by rewrite (ao_nos _ _ _ A).
  - by injection Hact as <-.
  - by injection Hact as <-.
Qed.

(** A run in which [me] stays in the array. *)
Definition staying (me : nat) (acts : list Act) : Prop := Forall (fun a => forall x, a <> ARemove me x) acts.

Lemma run_floor me acts s s' b :
  ok s -> sys_run topmost o acts s s' -> staying me acts -> me ∈ pgprocnos (mem s) ->
  ok s' /\ me ∈ pgprocnos (mem s') /\ (floor me s b -> floor me s' b) /\
  (completions acts = 0%nat -> floor me s' b -> floor me s b).
Proof.
  intros Hok Hr. induction Hr as [s|a acts s s1 s' Hs Hr IH]; [by intros; split_and!|]. intros [Ha Hst]%Forall_cons Hme.
  pose proof (sys_step_ok _ _ _ _ _ Hok Hs) as Hok1. pose proof (step_present me a s s1 Hs Hok Hme Ha) as Hme1.
  destruct (IH Hok1 Hst Hme1) as (H1 & H2 & H3 & H4). split_and!; [done|done| |].
  - intros Hf. apply H3. exact (floor_step me a s s1 b Hok Hme Hs Hf).
  - cbn [completions]. intros Hc Hf. destruct (completing a) eqn:E; [lia|]. apply (floor_back me a s s1 b Hok Hs E). by apply H4.
Qed.

(** The xmin of a snapshot: the greatest of the bounds. *)
Definition lowest (me : nat) (s : Sys) (x : TransactionId) : Prop :=
  in_window o x /\ forall a, floor me s a <-> a <= xid_age o x.

Lemma run_lowest me acts s s' x :
  ok s -> sys_run topmost o acts s s' -> staying me acts -> me ∈ pgprocnos (mem s) -> completions acts = 0%nat ->
  lowest me s x -> lowest me s' x.
Proof.
  intros Hok Hr Hst Hme Hc [Hw Hx]. split; [done|]. intros a. rewrite <- Hx.
  destruct (run_floor me acts s s' a Hok Hr Hst Hme) as (_ & _ & H1 & H2). split; auto.
Qed.

(** ** Snapshots *)

Lemma after_latest sh x :
  assigned o (next_xid sh) (latest_xid sh) -> in_window o x -> in_window o (next_xid sh) ->
  xid_age o (latest_xid sh) < xid_age o x -> xid_age o (TransactionIdAdvance (latest_xid sh)) <= xid_age o x.
Proof.
  intros [Hl Ha] [Hx Hw] [Hn Hnw] Hlt. unfold TransactionIdAdvance. revert Hl Ha Hx Hw Hn Hnw Hlt. xid_unfold.
  destruct (Z.ltb_spec (latest_xid sh +u32 1) 3); intros; cint.
Qed.

(** Every id a process runs is no older than its main id. *)
Lemma runs_after_main s p x :
  ok s -> runs s p x ->
  runs s p (pr_xid (proc (mem s) p)) /\ in_window o (pr_xid (proc (mem s) p)) /\ xid_age o (pr_xid (proc (mem s) p)) <= xid_age o x.
Proof.
  intros Hok (Hp & Hv & Hor). pose proof (so_procs _ _ _ Hok p Hp) as P.
  assert (Hz : pr_xid (proc (mem s) p) <> InvalidTransactionId).
  { intros Hz. destruct (po_idle _ _ _ _ _ P Hz) as [Ht _]. rewrite Hz, Ht in Hor.
    destruct Hor as [->|Hin]; [done|by apply not_elem_of_nil in Hin]. }
  destruct (po_xid _ _ _ _ _ P Hz) as [Ha _]. split_and!.
  - split_and!; [done|apply normal_TransactionIdIsValid, Ha|by left].
  - eapply assigned_window; [apply Hok|done].
  - destruct Hor as [->|Hin]; [lia|]. destruct (po_sub _ _ _ _ _ P x Hin) as (_ & Hlt & _). lia.
Qed.

Section Scan.
Context (sigma : nat -> Sys) (me : nat) (Hscan : scanning topmost o sigma) (Hme : me ∈ pgprocnos (mem (sigma 0%nat))).

Abbreviation s0 := (sigma 0%nat).
Abbreviation xmin0 := (sc_xmin (snapshot_contents false (fun t => mem (sigma t)) me).1).

Lemma built_floor : floor me s0 (xid_age o xmin0).
Proof.
  pose proof (ok0 topmost o sigma Hscan) as Hok.
  pose proof (snapshot_contents_scanned topmost o sigma me Hscan Hme) as [_ [_ _ [Hmy Hxip] _ _ _]].
  pose proof (the_xmax_window topmost o sigma Hscan) as (Hxw & _). fold (the_xmax sigma) in *.
  set (sc := (snapshot_contents _ _ _).1) in *.
  assert (Hle : xid_age o (sc_xmin sc) <= xid_age o (the_xmax sigma)).
  { etrans; [exact Hmy|]. case_if; [|done]. bool_simpl. rewrite (precedes_window o) in *; [bool_simpl; lia| |done].
    apply (xid0_window topmost o sigma Hscan); [done|]. intros Hz. by rewrite Hz in *. }
  assert (Hmain : forall q, runs s0 q (pr_xid (proc (mem s0) q)) -> q = me \/ skipped (proc (mem s0) q) = false ->
    xid_age o (sc_xmin sc) <= xid_age o (pr_xid (proc (mem s0) q))).
  { intros q Hr Hq. pose proof (runs_after_main s0 q _ Hok Hr) as (_ & Hw & _). pose proof Hr as (Hp & Hv & _).
    destruct (TransactionIdPrecedes (pr_xid (proc (mem s0) q)) (the_xmax sigma)) eqn:Hpre.
    2: { rewrite (precedes_window o) in Hpre by done. bool_simpl. lia. }
    destruct (decide (q = me)) as [->|Hne].
    - etrans; [exact Hmy|]. rewrite (normal_TransactionIdIsNormal _ (proj1 Hw)), Hpre. done.
    - apply Hxip, (xip_elem o s0 me _ sc (proj2 (snapshot_contents_scanned topmost o sigma me Hscan Hme))).
      exists q. split_and!; [done| |done]. unfold included. fold (the_xmax sigma). destruct Hq as [?|Hsk]; [done|].
      rewrite Hv, Hpre, Hsk. by apply Nat.eqb_neq in Hne as ->. }
  constructor.
  - intros x Hx Hlt. etrans; [exact Hle|]. apply after_latest; [apply Hok|done|apply Hok|done].
  - intros q x Hr Hsk. destruct (runs_after_main s0 q x Hok Hr) as (Hr' & _ & Hge). specialize (Hmain q Hr' (or_intror Hsk)). lia.
  - intros x Hr. destruct (runs_after_main s0 me x Hok Hr) as (Hr' & _ & Hge). specialize (Hmain me Hr' (or_introl eq_refl)). lia.
Qed.

Lemma built_lowest : lowest me s0 xmin0.
Proof.
  pose proof (ok0 topmost o sigma Hscan) as Hok.
  pose proof (snapshot_contents_scanned topmost o sigma me Hscan Hme) as [_ Hsc].
  pose proof (the_xmax_window topmost o sigma Hscan) as (Hxw & _ & Hxl).
  split; [apply Hsc|]. intros a. split; [|intros Hle; eapply floor_le; [done|apply built_floor]].
  intros [H1 H2 H3].
  assert (Hmax : a <= xid_age o (the_xmax sigma)).
  { apply H1; [done|]. apply Hxl; [apply Hxw|done|apply Hxw]. }
  destruct (sn_xmin_attained _ _ _ _ _ _ _ Hsc) as [->|Hin].
  - case_if; [|done]. bool_simpl. apply H3. split_and!; [done| |by left].
    unfold TransactionIdIsNormal, TransactionIdIsValid, FirstNormalTransactionId, InvalidTransactionId in *. bool_simpl. lia.
  - apply (xip_elem o s0 me _ _ Hsc) in Hin as (q & Hq & Hinc & ->). apply (H2 q).
    + eapply included_runs; [done|exact Hinc].
    + unfold included in Hinc. by destruct (skipped _); rewrite ?andb_false_r in Hinc.
Qed.
End Scan.

(** A snapshot that [me] took at most [n] acts ago. *)
Definition taken (n : nat) (me : nat) (sn : Snapshot) (s : Sys) : Prop :=
  exists s1 acts, ok s1 /\ is_u64 (xactCompletionCount (mem s1)) /\ me ∈ pgprocnos (mem s1) /\
    sys_run topmost o acts s1 s /\ staying me acts /\ (length acts <= n)%nat /\
    snapXactCompletionCount sn = xactCompletionCount (mem s1) /\
    snapshot_shows topmost o me s1 (snap sn) /\ lowest me s1 (snap_xmin (snap sn)).

Lemma taken_run n k me sn s s' acts :
  taken n me sn s -> sys_run topmost o acts s s' -> staying me acts -> (n + length acts <= k)%nat -> taken k me sn s'.
Proof.
  intros (s1 & acts1 & H1 & H2 & H3 & H4 & H5 & H6 & H7) Hr Hst Hk. exists s1, (acts1 ++ acts).
  refine (conj H1 (conj H2 (conj H3 (conj _ (conj _ (conj _ H7)))))); [|by apply Forall_app|rewrite length_app; lia].
  clear -H4 Hr. induction H4; [done|]. cbn. econstructor; eauto.
Qed.

Lemma taken_snapshot_of n me sn s : Z.of_nat n < 2 ^ 64 -> taken n me sn s -> snapshot_of topmost o me sn s.
Proof.
  intros Hn (s1 & acts & H1 & H2 & H3 & H4 & H5 & H6 & H7 & H8 & H9 & _). exists s1, acts.
  refine (conj H1 (conj H2 (conj H4 (conj _ (conj H7 (conj H8 H9)))))). lia.
Qed.

(** Found current, a snapshot is as good as new, its xmin included. *)
Lemma taken_current n me sn s :
  Z.of_nat n < 2 ^ 64 -> taken n me sn s -> xactCompletionCount (mem s) = snapXactCompletionCount sn ->
  lowest me s (snap_xmin (snap sn)).
Proof.
  intros Hn (s1 & acts & H1 & H2 & H3 & H4 & H5 & H6 & H7 & _ & H9) Heq.
  apply (run_lowest me acts s1 s _ H1 H4 H5 H3); [|done].
  pose proof (run_completions topmost o acts s1 s H1 H4 H2) as Hrun. pose proof (completions_le acts).
  rewrite Heq, H7 in Hrun. eapply same_count; [exact H2| |exact Hrun]. lia.
Qed.

Lemma install_xmin_me x sh l : MyProcNo (install_xmin x sh l).2 = MyProcNo l.
Proof. unfold install_xmin. by case_if. Qed.

(** What the snapshot manager gets from the process array: the snapshot, its
    xmin installed unless an older one is advertised. *)
Lemma GetSnapshotData_taken sigma last cid sn l n :
  let me := MyProcNo l in
  scanning topmost o sigma -> me ∈ pgprocnos (mem (sigma 0%nat)) ->
  (me < length (allProcs last))%nat -> is_u64 (xactCompletionCount (mem (sigma 0%nat))) ->
  Z.of_nat n < 2 ^ 64 -> snapXactCompletionCount sn = 0 \/ taken n me sn (sigma 0%nat) ->
  let '(sn', sh', l') := GetSnapshotData false cid (fun t => mem (sigma t)) last sn l in
  taken n me sn' (sigma 0%nat) /\ lowest me (sigma 0%nat) (snap_xmin (snap sn')) /\ MyProcNo l' = me /\
  snapshot_shows topmost o me (sigma 0%nat) (snap sn') /\
  exists X, (X = mem (sigma 0%nat) \/ X = last) /\ sh' = (install_xmin (snap_xmin (snap sn')) X l).1.
Proof.
  intros me Hs Hme Hl Hu Hn Hold.
  assert (Hof : snapXactCompletionCount sn = 0 \/ snapshot_of topmost o me sn (sigma 0%nat)).
  { destruct Hold as [?|?]; [by left|right; by eapply taken_snapshot_of]. }
  pose proof (GetSnapshotData_result topmost o sigma last cid l Hs Hme Hl sn Hu Hof) as Hshow. unfold snapshot_result_ok in Hshow.
  pose proof (ok0 topmost o sigma Hs) as Hok.
  unfold GetSnapshotData in *. destruct (GetSnapshotDataReuse _ _ _ _) as [[[sn' sh'] l']|] eqn:Hr.
  - unfold GetSnapshotDataReuse in Hr. destruct (Z.eqb_spec (snapXactCompletionCount sn) 0) as [?|Hne]; [done|].
    destruct Hold as [?|Ht]; [done|]. destruct (_ != _) eqn:Hc; [done|]. bool_simpl.
    pose proof (taken_current n me sn _ Hn Ht ltac:(done)) as Hlow.
    destruct (install_xmin (snap_xmin (snap sn)) (mem (sigma 0%nat)) l) as [sh1 l1] eqn:Ei.
    pose proof (install_xmin_me (snap_xmin (snap sn)) (mem (sigma 0%nat)) l) as El. rewrite Ei in El. cbn [snd] in El.
    injection Hr as <- <- <-. cbn [snap] in *.
    assert (Ex : snap_xmin (set_curcid cid (snap sn)) = snap_xmin (snap sn)) by (by destruct (snap sn)). rewrite Ex.
    split; [|split; [done|split; [done|split; [apply Hshow|]]]].
    + destruct Ht as (s1 & acts & Ht). exists s1, acts. cbn [snap snapXactCompletionCount]. rewrite Ex.
      destruct Ht as (H1 & H2 & H3 & H4 & H5 & H6 & H7 & H8 & H9).
      refine (conj H1 (conj H2 (conj H3 (conj H4 (conj H5 (conj H6 (conj H7 (conj _ H9)))))))). by apply shows_curcid.
    + exists (mem (sigma 0%nat)). split; [by left|]. by rewrite Ei.
  - pose proof (built_lowest sigma me Hs Hme) as Hlow. fold me in Hshow |- *.
    destruct (snapshot_contents false _ me) as [sc xmax] eqn:Esc. cbn [fst] in Hlow.
    destruct (install_xmin (sc_xmin sc) last l) as [sh1 l1] eqn:Ei.
    pose proof (install_xmin_me (sc_xmin sc) last l) as El. rewrite Ei in El. cbn [snd] in El.
    destruct Hshow as (Hshow & _). cbn [snap snap_xmin] in *.
    split; [|split; [done|split; [done|split; [exact Hshow|]]]].
    + exists (sigma 0%nat), []. cbn [snap snapXactCompletionCount snap_xmin].
      refine (conj Hok (conj Hu (conj Hme (conj _ (conj _ (conj _ (conj eq_refl (conj Hshow Hlow)))))))); [constructor..|cbn; lia].
    + exists last. split; [by right|]. by rewrite Ei.
Qed.
End Floor.
