(* ===== verification/ProcProgress.v ===== *)
(** * ProcProgress: the test for running transactions

    [TransactionIdIsInProgress] answers from three local shortcuts, the process
    array and, when some cache of subtransactions has overflowed, the commit
    log and pg_subtrans.  Outside recovery its answer for an assigned id is
    whether the transaction was running when the lock was taken. *)

From S2P Require Import Prelude TransactionId KnownXids HeapTuple Visibility VisLogic ProcArray ProcInv.
From S2P Require Import ProcRun ProcScan ProcExample ProcSnapshot ProcWorld.

Section Progress.
Context (topmost : TransactionId -> TransactionId) (o : TransactionId).

(** What a backend remembers of transactions that are over. *)
Definition local_ok (s : Sys) (l : ProcLocal) : Prop :=
  forall x, assigned o (next_xid (mem s)) x ->
    TransactionIdPrecedes x (RecentXmin l) = true \/ cachedXidIsNotInProgress l = x -> ~ running s x.

(** The commit log records the abort of a subtransaction before its id leaves
    the array, and of no running transaction. *)
Definition abort_logged (s : Sys) (DidAbort : TransactionId -> bool) : Prop :=
  forall x, assigned o (next_xid (mem s)) x ->
    (running s x -> DidAbort x = false) /\
    (~ running s x -> topmost x <> x -> running s (topmost x) -> DidAbort x = true).

Lemma local_ok_run acts s s' l :
  sys_ok topmost o s -> sys_run topmost o acts s s' -> local_ok s l ->
  (forall x, assigned o (next_xid (mem s')) x -> TransactionIdPrecedes x (RecentXmin l) = true \/ cachedXidIsNotInProgress l = x ->
     assigned o (next_xid (mem s)) x) ->
  local_ok s' l.
Proof.
  intros Hok Hr Hl Hold x Ha Hx. assert (Hn := Hl x (Hold x Ha Hx) Hx). specialize (Hold x Ha Hx). clear Ha Hx Hl.
  induction Hr as [s|a acts s s1 s' Hs Hr IH]; [done|]. apply IH.
  - by eapply sys_step_ok.
  - eapply assigned_le; [|exact Hold]. by eapply step_next.
  - by eapply step_gone.
Qed.

Section Scan.
Context (sigma : nat -> Sys) (me : nat) (x : TransactionId) (Hscan : scanning topmost o sigma).
Context (Hme : me ∈ pgprocnos (mem (sigma 0%nat))) (Hx : assigned o (next_xid (mem (sigma 0%nat))) x).

Abbreviation s0 := (sigma 0%nat).
Abbreviation sh0 := (mem (sigma 0%nat)).
Abbreviation m := (fun t => mem (sigma t)).
Abbreviation off := (pgxactoff (proc sh0 me)).

(** A process that runs [x] without showing it; its own id has been saved. *)
Definition hidden (saved : list TransactionId) (p : nat) : Prop :=
  p <> me -> runs s0 p x -> x <> pr_xid (proc sh0 p) /\ x ∈ subs s0 p /\ pr_xid (proc sh0 p) ∈ saved.

Definition saved_ok (saved : list TransactionId) : Prop := forall y, y ∈ saved -> running s0 y.

(** One round: the test is over, or the process hides [x] if it runs it. *)
Definition round_ok (i p : nat) (saved : list TransactionId) : Prop :=
  forall r, exists saved', (progress_scan m off x (S r) i saved = None /\ running s0 x) \/
    (progress_scan m off x (S r) i saved = progress_scan m off x r (S i) saved' /\
     saved ⊆ saved' /\ (saved_ok saved -> saved_ok saved') /\ hidden saved' p).

Lemma off_me i p : pgprocnos sh0 !! i = Some p -> (i =? off)%nat = (p =? me)%nat.
Proof.
  intros Hi. pose proof (so_mirrored _ _ _ (proj1 Hscan)) as Hm. apply eq_true_iff_eq. rewrite !Nat.eqb_eq. split.
  - intros ->. pose proof (mi_at _ _ Hm Hme) as Hat. congruence.
  - intros ->. symmetry. by apply (mi_off _ Hm).
Qed.

(** The search of a cache finds [x] when it was there at the start. *)
Lemma cache_search t t' i p :
  (t <= t')%nat -> pgprocnos sh0 !! i = Some p ->
  match find_back x (count (state_at (m t) i)) (pr_subxids (proc (m t') (procno_at (m t') i))) with
  | Some _ => x ∈ cached (proc sh0 p)
  | None => x ∉ cached (proc sh0 p)
  end.
Proof.
  intros Hle Hi. destruct (subxids_read topmost o sigma Hscan t t' i p Hle Hi) as [Hsub Hnew].
  destruct (scanning_at topmost o sigma t i p Hscan Hi) as [Hit _].
  destruct (scanning_at topmost o sigma t' i p Hscan Hi) as [Hit' _].
  pose proof (scanning_ok topmost o sigma t Hscan) as Hok. pose proof (scanning_ok topmost o sigma t' Hscan) as Hok'.
  destruct (read_mirrors topmost o _ _ _ Hok Hit) as (_ & Es & _).
  destruct (read_mirrors topmost o _ _ _ Hok' Hit') as (_ & _ & _ & Ep & _).
  assert (Hwf : forall s, sys_ok topmost o s -> pgprocnos (mem s) !! i = Some p -> proc_wf p (proc (mem s) p)).
  { intros s [Hm _ _ _ _ _] Hs. apply (mi_wf _ Hm), proc_lookup, mi_lt; [done|]. by eapply list_elem_of_lookup_2. }
  pose proof (find_back_spec x (count (state_at (m t) i)) (pr_subxids (proc (m t') (procno_at (m t') i)))) as Hf.
  cbv beta in *. rewrite Es, Ep in *. destruct (Hwf _ Hok Hit) as [_ _ Hc], (Hwf _ Hok' Hit') as [_ Hc' _].
  specialize (Hf ltac:(rewrite Hc'; exact Hc)).
  destruct (find_back _ _ _) as [j|]; [|naive_solver]. destruct Hf as [Hj Hat].
  destruct (Hnew x) as [?|Hage]; [|done|destruct Hx; lia].
  eapply list_elem_of_lookup_2. rewrite lookup_take_lt by done. exact Hat.
Qed.

Lemma idle_runs p : p ∈ pgprocnos sh0 -> pr_xid (proc sh0 p) = InvalidTransactionId -> ~ runs s0 p x.
Proof.
  intros Hp Hz (_ & Hv & Hor). destruct (so_procs _ _ _ (proj1 Hscan) p Hp) as [P1 _ _ _ _ _]. destruct (P1 Hz) as [Ht _].
  rewrite Hz, Ht in Hor. destruct Hor as [->|Hin]; [done|by apply not_elem_of_nil in Hin].
Qed.

Lemma progress_round i p saved : pgprocnos sh0 !! i = Some p -> round_ok i p saved.
Proof.
  intros Hi r. pose proof (proj1 Hscan) as Hok. assert (Hp : p ∈ pgprocnos sh0) by (by eapply list_elem_of_lookup_2).
  assert (Hv : TransactionIdIsValid x = true) by (apply normal_TransactionIdIsValid, Hx).
  assert (Hskip : forall sc, (p <> me -> ~ runs s0 p x) -> sc = progress_scan m off x r (S i) saved ->
    exists saved', (sc = None /\ running s0 x) \/ (sc = progress_scan m off x r (S i) saved' /\
     saved ⊆ saved' /\ (saved_ok saved -> saved_ok saved') /\ hidden saved' p)).
  { intros sc Hn ->. exists saved. right. split_and!; try done. intros Hne Hr. by destruct (Hn Hne). }
  cbn [progress_scan]. rewrite (off_me i p Hi). destruct (Nat.eqb_spec p me) as [->|Hne]; [by apply Hskip|].
  destruct (xid_read topmost o sigma (4 * i) i p Hscan Hi) as [Hxr Hxw]. set (y := at_index (xids _) i) in *.
  destruct (so_procs _ _ _ Hok p Hp) as [P1 P2 P3 P4 P5 P6]. pose proof (idle_runs p Hp) as Hidle.
  unfold TransactionIdIsValid, TransactionIdEquals. destruct (Z.eqb_spec y InvalidTransactionId) as [Hy0|Hy]; cbn [negb].
  { apply Hskip; [|done]. intros _. apply Hidle. destruct Hxr as [<-|[-> _]]; done. }
  specialize (Hxw Hy). assert (Hxwin : in_window o x) by (eapply assigned_window; [apply Hok|done]).
  rewrite (precedes_window o) by done. destruct Hxr as [Hxr|[Hz Hnew]].
  2: { destruct (Z.eqb_spec y x) as [->|_]; [destruct Hx; lia|].
       rewrite (proj2 (Z.ltb_lt _ _)) by (destruct Hx; lia). apply Hskip; [auto|done]. }
  destruct (Z.eqb_spec y x) as [Hyx|Hyx].
  { exists saved. left. split; [done|]. exists p. split_and!; [done|done|left; congruence]. }
  destruct (Z.ltb_spec (xid_age o x) (xid_age o y)) as [Hlt|Hge].
  { apply Hskip; [|done]. intros _ (_ & _ & [?|Hin]); [congruence|]. rewrite Hxr in Hlt. destruct (P3 x Hin) as (_ & ? & _). lia. }
  pose proof (cache_search (4 * i + 1) (4 * i + 2) i p ltac:(lia) Hi) as Hc. cbv beta zeta in Hc |- *.
  destruct (find_back _ _ _) as [j|].
  { exists saved. left. split; [done|]. exists p. split_and!; [done|done|right; by apply P4]. }
  destruct (scanning_at topmost o sigma (4 * i + 3) i p Hscan Hi) as [Hi3 Hl3].
  destruct (read_mirrors topmost o _ _ _ (scanning_ok topmost o sigma (4 * i + 3) Hscan) Hi3) as (_ & -> & _).
  eexists. right. split; [reflexivity|]. split_and!.
  - intros z Hz. case_if; [|exact Hz]. apply elem_of_app. by left.
  - intros Hs z. case_if; [|apply Hs]. rewrite elem_of_app, list_elem_of_singleton.
    intros [?| ->]; [by apply Hs|]. exists p. split_and!; [done| |by left]. by apply negb_true_iff, Z.eqb_neq.
  - intros _ (_ & _ & [?|Hin]); [congruence|]. split_and!; [congruence|done|].
    destruct (P5 x Hin) as [?|Ho]; [done|]. rewrite (pl_overflowed _ _ _ _ Hl3 Ho).
    apply elem_of_app. right. rewrite <- Hxr. by apply list_elem_of_singleton.
Qed.

Lemma progress_scan_spec rounds i saved :
  (i + rounds = numProcs sh0)%nat ->
  match progress_scan m off x rounds i saved with
  | None => running s0 x
  | Some saved' => saved ⊆ saved' /\ (saved_ok saved -> saved_ok saved') /\
      forall j p, (i <= j)%nat -> pgprocnos sh0 !! j = Some p -> hidden saved' p
  end.
Proof.
  revert i saved. induction rounds as [|r IH]; intros i saved Hr.
  { split_and!; try done. intros j p Hj Hp. apply lookup_lt_Some in Hp. unfold numProcs in Hr. lia. }
  destruct (lookup_lt_is_Some_2 (pgprocnos sh0) i) as [p Hi]; [unfold numProcs in Hr; lia|].
  destruct (progress_round i p saved Hi r) as [saved1 [[-> ?]|(-> & Hsub & Hok & Hh)]]; [done|].
  specialize (IH (S i) saved1 ltac:(lia)). destruct (progress_scan _ _ _ _ _ _) as [saved'|]; [|done].
  destruct IH as (Hsub' & Hok' & Hh'). split_and!; [by transitivity saved1|auto|]. intros j q Hj Hq.
  destruct (decide (j = i)) as [->|Hji]; [|apply (Hh' j); [lia|done]].
  simplify_eq. intros Hne Hrun. destruct (Hh Hne Hrun) as (? & ? & ?). split_and!; [done|done|by apply Hsub'].
Qed.

Context (IsCurrent DidAbort : TransactionId -> bool) (last : ProcShared) (l : ProcLocal).
Context (Hno : MyProcNo l = me) (Hcur : IsCurrent x = runsb s0 me x).
Context (Habort : abort_logged s0 DidAbort) (Hlocal : local_ok s0 l).

(** An assigned id is reported as running exactly when it is, and what the
    test remembers is right. *)
Lemma in_progress_result :
  let r := TransactionIdIsInProgress IsCurrent DidAbort topmost false m last x l in
  r.1 = runningb s0 x /\ local_ok s0 r.2.
Proof.
  assert (Hyes : running s0 x -> (true, l).1 = runningb s0 x /\ local_ok s0 (true, l).2).
  { intros Hr. split; [symmetry; by apply runningb_spec|exact Hlocal]. }
  assert (Hnot : ~ running s0 x -> false = runningb s0 x).
  { intros Hr. symmetry. apply not_true_iff_false. by rewrite runningb_spec. }
  assert (Hnew : ~ running s0 x ->
    (false, set_cachedXid x l).1 = runningb s0 x /\ local_ok s0 (false, set_cachedXid x l).2).
  { intros Hr. split; [by apply Hnot|]. intros y Hy [Hp|Hc]; [apply Hlocal; auto|]. cbn in Hc. by subst y. }
  intros r. unfold r, TransactionIdIsInProgress. clear r. rewrite Hno, Hcur.
  destruct (TransactionIdPrecedes x (RecentXmin l)) eqn:Hrec; [split; [apply Hnot, Hlocal; auto|exact Hlocal]|].
  unfold TransactionIdEquals. destruct (Z.eqb_spec (cachedXidIsNotInProgress l) x) as [Hc|Hc].
  { split; [apply Hnot, Hlocal; auto|exact Hlocal]. }
  destruct (runsb s0 me x) eqn:Hown; [apply Hyes; exists me; by apply runsb_spec|].
  pose proof (proj1 Hscan) as Hok. change (XidFromFullTransactionId (latestCompletedXid sh0)) with (latest_xid sh0).
  rewrite (precedes_window o) by (eapply assigned_window; [apply Hok|first [exact Hx|apply Hok]]).
  destruct (Z.ltb_spec (xid_age o (latest_xid sh0)) (xid_age o x)) as [Hl|_]; [by apply Hyes, (so_completed _ _ _ Hok)|].
  pose proof (progress_scan_spec (numProcs sh0) 0 [] ltac:(lia)) as Hs. cbn zeta.
  destruct (progress_scan _ _ _ _ _ _) as [saved|]; [|by apply Hyes]. destruct Hs as (_ & Hsv & Hh). cbn [andb].
  assert (Hhid : forall p, runs s0 p x -> x <> pr_xid (proc sh0 p) /\ x ∈ subs s0 p /\ pr_xid (proc sh0 p) ∈ saved).
  { intros p Hr. destruct (list_elem_of_lookup_1 _ _ (proj1 Hr)) as [j Hj]. apply (Hh j p); [lia|done| |done].
    intros ->. apply runsb_spec in Hr. congruence. }
  destruct saved as [|y0 saved0] eqn:Esv.
  { apply Hnew. intros [p Hr]. destruct (Hhid p Hr) as (_ & _ & Hin). by apply not_elem_of_nil in Hin. }
  rewrite <- Esv in *. clear Esv y0 saved0. destruct (Habort x Hx) as [Hab1 Hab2].
  destruct (DidAbort x); [apply Hnew; intros Hr; by specialize (Hab1 Hr)|].
  destruct (negb _ && _) eqn:Htop.
  - apply andb_true_iff in Htop as [Hne%negb_true_iff%Z.eqb_neq Hin%pg_lfind32_elem].
    apply Hyes, runningb_spec, not_false_iff_true. intros Hr. discriminate Hab2; [|done|].
    + rewrite <- runningb_spec. congruence.
    + apply Hsv; [by intros y ?%not_elem_of_nil|done].
  - apply Hnew. intros [p Hr]. destruct (Hhid p Hr) as (H1 & H2 & H3).
    destruct (so_procs _ _ _ Hok p (proj1 Hr)) as [_ _ P3 _ _ _]. destruct (P3 x H2) as (_ & Hage & Ht).
    apply andb_false_iff in Htop as [Heq%negb_false_iff%Z.eqb_eq|Hni].
    + congruence.
    + apply not_true_iff_false in Hni. apply Hni, pg_lfind32_elem. by rewrite Ht.
Qed.
End Scan.
End Progress.


Lemma ex_abort_logged : abort_logged ex_topmost 3 (ex_sys 8) (fun _ => false).
Proof.
  intros x Hx. split; [done|]. intros Hn Ht _. exfalso. apply Hn. unfold ex_topmost in Ht.
  destruct (Z.eqb_spec x 101) as [->|_]; [|done]. apply runningb_spec. by vm_compute.
Qed.

Definition ex_after_snapshot : ProcLocal := set_xmins 100 100 ex_local.

Lemma ex_running x : running (ex_sys 8) x -> x = 100 \/ x = 101.
Proof.
  intros [p (Hp & Hv & Hor)]. change (p ∈ [0; 1; 2]%nat) in Hp. apply list_elem_of_In in Hp.
  destruct Hp as [<-|[<-|[<-|[]]]].
  - change (x = 0 \/ x ∈ []) in Hor. destruct Hor as [->|Hin]; [done|by apply not_elem_of_nil in Hin].
  - change (x = 100 \/ x ∈ [101]) in Hor. by rewrite list_elem_of_singleton in Hor.
  - change (x = 0 \/ x ∈ []) in Hor. destruct Hor as [->|Hin]; [done|by apply not_elem_of_nil in Hin].
Qed.

Lemma ex_local_ok : local_ok 3 (ex_sys 8) ex_after_snapshot.
Proof.
  intros x _ Hor Hr. destruct (ex_running x Hr) as [-> | ->]; destruct Hor as [Hp|Hc]; [by vm_compute in Hp|done|by vm_compute in Hp|done].
Qed.

