(* ===== verification/ProcHorizon.v ===== *)
(** * ProcHorizon: what may be removed

    [ComputeXidHorizons] computes, while other backends assign ids, install
    xmins and drop them, the ids before which deleted tuples may be removed.
    Here: what such a horizon bounds, and why nobody sees as running a
    transaction before it. *)

From S2P Require Import Prelude TransactionId KnownXids HeapTuple ProcArray ProcInv ProcRun ProcScan.
From S2P Require Import ProcExample ProcSnapshot ProcWorld.

(** The older of two ids, either of which may be missing. *)
Lemma TransactionIdOlder_spec o a b :
  (TransactionIdIsValid a = true -> in_window o a) -> (TransactionIdIsValid b = true -> in_window o b) ->
  let c := TransactionIdOlder a b in
  TransactionIdIsValid c = TransactionIdIsValid a || TransactionIdIsValid b /\
  (TransactionIdIsValid c = true -> in_window o c) /\
  (TransactionIdIsValid a = true -> xid_age o c <= xid_age o a) /\
  (TransactionIdIsValid b = true -> xid_age o c <= xid_age o b).
Proof.
  intros Ha Hb. unfold TransactionIdOlder. destruct (TransactionIdIsValid a) eqn:Ea; cbn [negb].
  2: { split_and!; intros; auto; try done; lia. }
  destruct (TransactionIdIsValid b) eqn:Eb; cbn [negb]; [|split_and!; intros; auto; try done; lia].
  rewrite (precedes_window o) by auto. destruct (Z.ltb_spec (xid_age o a) (xid_age o b)); split_and!; intros; auto; lia.
Qed.

(** The processes a horizon of each kind looks at. *)
Definition concerned (k : GlobalVisHorizonKind) (l : ProcLocal) (sh : ProcShared) (p : nat) : bool :=
  let pr := proc sh p in
  match k with
  | VISHORIZON_TEMP => (p =? MyProcNo l)%nat
  | VISHORIZON_SHARED => negb (skipped pr)
  | _ => negb (skipped pr) && ((databaseId pr =? MyDatabaseId l) || (MyDatabaseId l =? InvalidOid)
                               || has_flag (pr_statusFlags pr) PROC_AFFECTS_ALL_HORIZONS)
  end.

(** The processes that may access a relation, and those whose snapshots count
    for it: every process for a shared relation, those of the database for the
    others, and the owner alone for a private one, which is neither a catalog
    nor decoded. *)
Definition shared_relation (rel : option Relation) : bool :=
  match rel with Some r => relisshared r | None => true end.

Definition decoded_relation (rel : option Relation) : bool :=
  match rel with Some r => IsCatalogRelation r || RelationIsAccessibleInLogicalDecoding r | None => true end.

Definition private_relation (rel : option Relation) : bool :=
  match rel with Some r => RELATION_IS_LOCAL r | None => false end
  && negb (shared_relation rel) && negb (decoded_relation rel).

Definition accesses (rel : option Relation) (l : ProcLocal) (sh : ProcShared) (p : nat) : bool :=
  let pr := proc sh p in
  if private_relation rel then (p =? MyProcNo l)%nat
  else negb (skipped pr) && (shared_relation rel || (databaseId pr =? MyDatabaseId l) || (MyDatabaseId l =? InvalidOid)
                             || has_flag (pr_statusFlags pr) PROC_AFFECTS_ALL_HORIZONS).

Lemma relation_kind rel l sh p :
  concerned (GlobalVisHorizonKindForRel false rel) l sh p = accesses rel l sh p /\
  (private_relation rel = false -> GlobalVisHorizonKindForRel false rel <> VISHORIZON_TEMP) /\
  (shared_relation rel || decoded_relation rel = true ->
     GlobalVisHorizonKindForRel false rel = VISHORIZON_SHARED \/ GlobalVisHorizonKindForRel false rel = VISHORIZON_CATALOG).
Proof.
  unfold accesses, private_relation, shared_relation, decoded_relation, GlobalVisHorizonKindForRel.
  destruct rel as [[sr ca de lo]|]; cbn [relisshared IsCatalogRelation RelationIsAccessibleInLogicalDecoding RELATION_IS_LOCAL].
  - destruct sr, ca, de, lo; cbn; rewrite ?andb_true_r; split_and!; by auto.
  - cbn. rewrite andb_true_r. by split_and!; auto.
Qed.

Section Horizon.
Context (topmost : TransactionId -> TransactionId) (o : TransactionId).

(** Advertised xmins are less than half the id space back. *)
Definition xmins_ok (sigma : nat -> Sys) : Prop :=
  forall t p, p ∈ pgprocnos (mem (sigma 0%nat)) -> TransactionIdIsValid (pr_xmin (proc (mem (sigma t)) p)) = true ->
    in_window o (pr_xmin (proc (mem (sigma t)) p)).

Definition slots_ok (sh : ProcShared) : Prop :=
  (TransactionIdIsValid (replication_slot_xmin sh) = true -> in_window o (replication_slot_xmin sh)) /\
  (TransactionIdIsValid (replication_slot_catalog_xmin sh) = true -> in_window o (replication_slot_catalog_xmin sh)).

Section Scan.
Context (sigma : nat -> Sys) (l : ProcLocal) (Hscan : scanning topmost o sigma).
Context (Hxmins : xmins_ok sigma) (Hslots : slots_ok (mem (sigma 0%nat))).

Abbreviation s0 := (sigma 0%nat).
Abbreviation sh0 := (mem (sigma 0%nat)).
Abbreviation m := (fun t => mem (sigma t)).

(** [h] is no later than the id of process [p] at the start and than the xmin
    it advertises at [t]. *)
Definition bounds_at (t : nat) (p : nat) (h : TransactionId) : Prop :=
  (TransactionIdIsValid (pr_xid (proc sh0 p)) = true -> xid_age o h <= xid_age o (pr_xid (proc sh0 p))) /\
  (TransactionIdIsValid (pr_xmin (proc (m t) p)) = true -> xid_age o h <= xid_age o (pr_xmin (proc (m t) p))).

Lemma bounds_le t p h h' : xid_age o h' <= xid_age o h -> bounds_at t p h -> bounds_at t p h'.
Proof. intros Hle [H1 H2]. split; intros Hv; [specialize (H1 Hv)|specialize (H2 Hv)]; lia. Qed.

(** What [TransactionIdOlder(h, xmin)] of an entry does to a minimum. *)
Definition entry_xmin (i : nat) : TransactionId :=
  let m2 := m (3 * i + 2)%nat in
  TransactionIdOlder (pr_xmin (proc m2 (procno_at m2 i))) (at_index (xids (m (3 * i + 1)%nat)) i).

Lemma entry_xmin_spec i p :
  pgprocnos sh0 !! i = Some p ->
  (TransactionIdIsValid (entry_xmin i) = true -> in_window o (entry_xmin i)) /\
  (TransactionIdIsValid (entry_xmin i) = true -> bounds_at (3 * i + 2) p (entry_xmin i)) /\
  (TransactionIdIsValid (entry_xmin i) = false -> forall h, bounds_at (3 * i + 2) p h).
Proof.
  intros Hi. assert (Hp : p ∈ pgprocnos sh0) by (by eapply list_elem_of_lookup_2).
  destruct (scanning_at topmost o sigma (3 * i + 2) i p Hscan Hi) as [Hi2 _].
  destruct (read_mirrors topmost o _ _ _ (scanning_ok topmost o sigma (3 * i + 2) Hscan) Hi2) as (_ & _ & _ & Ep & _).
  destruct (xid_read topmost o sigma (3 * i + 1) i p Hscan Hi) as [Hx Hxw].
  unfold entry_xmin. rewrite Ep. set (x := at_index (xids _) i) in *.
  assert (Hval : TransactionIdIsValid x = true -> in_window o x).
  { intros Hv. apply Hxw. intros Hz. by rewrite Hz in Hv. }
  destruct (TransactionIdOlder_spec o _ _ (Hxmins (3 * i + 2)%nat p Hp) Hval) as (Hv & Hw & Ha & Hb).
  assert (Hx0 : TransactionIdIsValid (pr_xid (proc sh0 p)) = true -> TransactionIdIsValid x = true /\ x = pr_xid (proc sh0 p)).
  { intros Hv0. destruct Hx as [->|[Hz _]]; [done|]. by rewrite Hz in Hv0. }
  split_and!; [exact Hw| |].
  - intros _. split; [|exact Ha]. intros Hv0. destruct (Hx0 Hv0) as [Hvx <-]. by apply Hb.
  - intros E h. rewrite E in Hv. symmetry in Hv. apply orb_false_iff in Hv as [E1 E2]. split.
    + intros Hv0. destruct (Hx0 Hv0). congruence.
    + intros Hv0. cbv beta in Hv0. congruence.
Qed.

(** The minima after the processes before [i]. *)
Record minima_ok (i : nat) (h : TransactionId * TransactionId * TransactionId) : Prop := {
  mo_window : in_window o h.1.1 /\ in_window o h.1.2 /\ in_window o h.2;
  mo_next : xid_age o h.1.1 <= xid_age o (next_xid sh0) /\ xid_age o h.1.2 <= xid_age o (next_xid sh0) /\
    xid_age o h.2 <= xid_age o (next_xid sh0);
  mo_running : forall j p, (j < i)%nat -> pgprocnos sh0 !! j = Some p -> bounds_at (3 * j + 2) p h.1.1;
  mo_shared : forall j p, (j < i)%nat -> pgprocnos sh0 !! j = Some p ->
    concerned VISHORIZON_SHARED l sh0 p = true -> bounds_at (3 * j + 2) p h.1.2;
  mo_data : forall j p, (j < i)%nat -> pgprocnos sh0 !! j = Some p ->
    concerned VISHORIZON_DATA l sh0 p = true -> bounds_at (3 * j + 2) p h.2;
}.

(** One minimum: it moves to the xmin of the entry where it has to. *)
Lemma older_entry i p (use : bool) (P : nat -> bool) h :
  pgprocnos sh0 !! i = Some p -> in_window o h -> xid_age o h <= xid_age o (next_xid sh0) ->
  TransactionIdIsValid (entry_xmin i) = true -> (P p = true -> use = true) ->
  (forall j q, (j < i)%nat -> pgprocnos sh0 !! j = Some q -> P q = true -> bounds_at (3 * j + 2) q h) ->
  let h' := if use then TransactionIdOlder h (entry_xmin i) else h in
  in_window o h' /\ xid_age o h' <= xid_age o (next_xid sh0) /\
  forall j q, (j < S i)%nat -> pgprocnos sh0 !! j = Some q -> P q = true -> bounds_at (3 * j + 2) q h'.
Proof.
  intros Hi Hw Hn Hv Huse Hold. destruct (entry_xmin_spec i p Hi) as (Hew & Heb & _).
  destruct (TransactionIdOlder_spec o h (entry_xmin i)) as (Hvc & Hwc & Hle & Hle'); [done|done|].
  assert (Hvh : TransactionIdIsValid h = true) by (by apply normal_TransactionIdIsValid, Hw).
  rewrite Hvh in Hvc. specialize (Hle Hvh). specialize (Hle' Hv). specialize (Hwc Hvc). specialize (Heb Hv).
  assert (Hh : let h' := if use then TransactionIdOlder h (entry_xmin i) else h in in_window o h' /\ xid_age o h' <= xid_age o h).
  { destruct use; split; try done; lia. }
  intros h'. fold h' in Hh. destruct Hh as [Hw' Hle2]. split_and!; [done|lia|]. intros j q Hj Hq HP.
  destruct (decide (j = i)) as [->|Hne]; [|eapply bounds_le; [exact Hle2|apply Hold; [lia|done|done]]].
  assert (p = q) as <- by congruence. eapply bounds_le; [|exact Heb]. unfold h'. rewrite (Huse HP). done.
Qed.

Lemma horizon_entry_ok i p h :
  pgprocnos sh0 !! i = Some p -> minima_ok i h -> minima_ok (S i) (horizon_entry m false (MyDatabaseId l) i h).
Proof.
  intros Hi [(W1 & W2 & W3) (N1 & N2 & N3) B1 B2 B3]. destruct h as [[r s] d]. cbn [fst snd] in *.
  destruct (scanning_at topmost o sigma (3 * i) i p Hscan Hi) as [Hi0 Hl0].
  destruct (read_mirrors topmost o _ _ _ (scanning_ok topmost o sigma (3 * i) Hscan) Hi0) as (_ & _ & Ef & _).
  rewrite (pl_flags _ _ _ _ Hl0) in Ef.
  destruct (scanning_at topmost o sigma (3 * i + 2) i p Hscan Hi) as [Hi2 Hl2].
  destruct (read_mirrors topmost o _ _ _ (scanning_ok topmost o sigma (3 * i + 2) Hscan) Hi2) as (_ & _ & _ & Ep & _).
  destruct (entry_xmin_spec i p Hi) as (_ & _ & Hinv).
  unfold horizon_entry. rewrite Ef. change (TransactionIdOlder _ (at_index _ i)) with (entry_xmin i).
  destruct (TransactionIdIsValid (entry_xmin i)) eqn:Hv; cbn [negb].
  2: { constructor; cbn [fst snd]; [done|done|..]; intros j q Hj Hq; (destruct (decide (j = i)) as [->|];
         [assert (p = q) as <- by congruence; intros; by apply Hinv|first [apply B1|apply B2|apply B3]; [lia|done]]). }
  rewrite Ep, (pl_db _ _ _ _ Hl2).
  change (has_flag _ (Z.lor PROC_IN_VACUUM PROC_IN_LOGICAL_DECODING)) with (skipped (proc sh0 p)).
  set (us := concerned VISHORIZON_SHARED l sh0 p). set (ud := concerned VISHORIZON_DATA l sh0 p).
  destruct (older_entry i p true (fun _ => true) r Hi W1 N1 Hv) as (W1' & N1' & B1'); [done|by intros; apply B1|].
  destruct (older_entry i p us (concerned VISHORIZON_SHARED l sh0) s Hi W2 N2 Hv) as (W2' & N2' & B2'); [done|done|].
  destruct (older_entry i p ud (concerned VISHORIZON_DATA l sh0) d Hi W3 N3 Hv) as (W3' & N3' & B3'); [done|done|].
  assert (Hnew : minima_ok (S i) (TransactionIdOlder r (entry_xmin i),
    if us then TransactionIdOlder s (entry_xmin i) else s, if ud then TransactionIdOlder d (entry_xmin i) else d)).
  { constructor; cbn [fst snd]; [done|done| |done|done]. intros j q Hj Hq. by apply B1'. }
  revert Hnew. unfold us, ud, concerned. destruct (skipped (proc sh0 p)); cbn [negb andb]; [done|].
  rewrite orb_false_r. destruct (_ || _); done.
Qed.

Lemma horizon_scan_ok rounds i h :
  (i + rounds = numProcs sh0)%nat -> minima_ok i h ->
  minima_ok (numProcs sh0) (horizon_scan m false (MyDatabaseId l) rounds i h).
Proof.
  revert i h. induction rounds as [|r IH]; intros i h Hr Hh; cbn [horizon_scan].
  { by replace (numProcs sh0) with i by lia. }
  destruct (lookup_lt_is_Some_2 (pgprocnos sh0) i) as [p Hi]; [unfold numProcs in Hr; lia|].
  apply IH; [lia|]. by eapply horizon_entry_ok.
Qed.

(** What a computed horizon bounds. *)
Record horizon_ok (k : GlobalVisHorizonKind) (h : TransactionId) : Prop := {
  ho_window : in_window o h;
  ho_next : xid_age o h <= xid_age o (next_xid sh0);
  ho_xid : forall p, p ∈ pgprocnos sh0 -> concerned k l sh0 p = true ->
    TransactionIdIsValid (pr_xid (proc sh0 p)) = true -> xid_age o h <= xid_age o (pr_xid (proc sh0 p));
  ho_xmin : k <> VISHORIZON_TEMP -> forall p, p ∈ pgprocnos sh0 -> concerned k l sh0 p = true ->
    exists t, TransactionIdIsValid (pr_xmin (proc (m t) p)) = true -> xid_age o h <= xid_age o (pr_xmin (proc (m t) p));
}.

(** [h] protects what a replication slot asks for. *)
Definition below_slot (slot h : TransactionId) : Prop :=
  TransactionIdIsValid slot = true -> xid_age o h <= xid_age o slot.

Lemma horizon_ok_older k h (slot : TransactionId) :
  (TransactionIdIsValid slot = true -> in_window o slot) -> horizon_ok k h -> horizon_ok k (TransactionIdOlder h slot).
Proof.
  intros Hs [H1 H2 H3 H4]. assert (Hv : TransactionIdIsValid h = true) by (by apply normal_TransactionIdIsValid, H1).
  destruct (TransactionIdOlder_spec o h slot (fun _ => H1) Hs) as (Hvc & Hw & Hle & _). rewrite Hv in Hvc.
  specialize (Hle Hv). constructor; [by apply Hw|lia| |].
  - intros p Hp Hc Hx. specialize (H3 p Hp Hc Hx). lia.
  - intros Hk p Hp Hc. destruct (H4 Hk p Hp Hc) as [t Ht]. exists t. intros Hx. specialize (Ht Hx). lia.
Qed.

Lemma below_slot_older h slot slot' :
  in_window o h -> (TransactionIdIsValid slot = true -> in_window o slot) ->
  below_slot slot (TransactionIdOlder h slot) /\ (below_slot slot' h -> below_slot slot' (TransactionIdOlder h slot)) /\
  in_window o (TransactionIdOlder h slot).
Proof.
  intros Hh Hs. assert (Hv : TransactionIdIsValid h = true) by (by apply normal_TransactionIdIsValid, Hh).
  destruct (TransactionIdOlder_spec o h slot (fun _ => Hh) Hs) as (Hvc & Hw & Hle & Hle').
  rewrite Hv in Hvc. specialize (Hle Hv). split; [exact Hle'|]. split; [|by apply Hw].
  intros Hb Hv'. specialize (Hb Hv'). lia.
Qed.

Lemma horizon_ok_of_bounds k h :
  in_window o h -> xid_age o h <= xid_age o (next_xid sh0) ->
  (forall j p, (j < numProcs sh0)%nat -> pgprocnos sh0 !! j = Some p -> concerned k l sh0 p = true ->
     bounds_at (3 * j + 2) p h) -> horizon_ok k h.
Proof.
  intros Hw Hn Hb. assert (Hat : forall p, p ∈ pgprocnos sh0 -> concerned k l sh0 p = true -> exists t, bounds_at t p h).
  { intros p Hp Hc. destruct (list_elem_of_lookup_1 _ _ Hp) as [j Hj]. exists (3 * j + 2)%nat. apply Hb; try done.
    by eapply lookup_lt_Some. }
  constructor; [done|done| |].
  - intros p Hp Hc Hx. destruct (Hat p Hp Hc) as [t [Ht _]]. by apply Ht.
  - intros _ p Hp Hc. destruct (Hat p Hp Hc) as [t [_ Ht]]. by exists t.
Qed.

Lemma scan_minima :
  minima_ok (numProcs sh0) (horizon_scan m false (MyDatabaseId l) (numProcs sh0) 0 (the_xmax sigma, the_xmax sigma, the_xmax sigma)).
Proof.
  destruct (the_xmax_window topmost o sigma Hscan) as (Hxw & Hxn & _).
  apply horizon_scan_ok; [lia|]. constructor; cbn [fst snd]; [done|done|intros; lia..].
Qed.

Lemma ComputeXidHorizons_slots last k :
  let h := kind_horizon k (ComputeXidHorizons false m last l).1 in
  (k <> VISHORIZON_TEMP -> below_slot (replication_slot_xmin sh0) h) /\
  (k = VISHORIZON_SHARED \/ k = VISHORIZON_CATALOG -> below_slot (replication_slot_catalog_xmin sh0) h).
Proof.
  unfold ComputeXidHorizons.
  change (TransactionIdAdvance (XidFromFullTransactionId (latestCompletedXid sh0))) with (the_xmax sigma).
  pose proof scan_minima as Hs. cbv beta. destruct (horizon_scan _ _ _ _ _ _) as [[r s] d]. cbn [fst snd].
  destruct Hs as [(_ & W2 & W3) _ _ _ _]. cbn [fst snd] in *. destruct Hslots as [Hsx Hsc].
  assert (Hboth : forall h, in_window o h -> let h' := TransactionIdOlder h (replication_slot_xmin sh0) in
    let h'' := TransactionIdOlder h' (replication_slot_catalog_xmin sh0) in
    below_slot (replication_slot_xmin sh0) h' /\ below_slot (replication_slot_xmin sh0) h'' /\
    below_slot (replication_slot_catalog_xmin sh0) h'').
  { intros h Hw h' h''. destruct (below_slot_older h _ (replication_slot_xmin sh0) Hw Hsx) as (H1 & _ & Hw').
    destruct (below_slot_older h' _ (replication_slot_xmin sh0) Hw' Hsc) as (H2 & H3 & _). auto. }
  destruct (Hboth s W2) as (S1 & S2 & S3), (Hboth d W3) as (D1 & D2 & D3).
  destruct k; unfold finish_horizons; cbn [kind_horizon shared_oldest_nonremovable catalog_oldest_nonremovable
    data_oldest_nonremovable temp_oldest_nonremovable]; split; try done; by intros [?|?].
Qed.

Lemma ComputeXidHorizons_ok last k :
  MyProcNo l ∈ pgprocnos sh0 -> horizon_ok k (kind_horizon k (ComputeXidHorizons false m last l).1).
Proof.
  intros Hme. pose proof (proj1 Hscan) as Hok. unfold ComputeXidHorizons.
  change (TransactionIdAdvance (XidFromFullTransactionId (latestCompletedXid sh0))) with (the_xmax sigma).
  destruct (the_xmax_window topmost o sigma Hscan) as (Hxw & Hxn & _).
  pose proof scan_minima as Hs. cbv beta. destruct (horizon_scan _ _ _ _ _ _) as [[r s] d]. cbn [fst snd].
  destruct Hs as [(_ & W2 & W3) (_ & N2 & N3) _ B2 B3]. cbn [fst snd] in *. destruct Hslots as [Hsx Hsc].
  assert (Hshared : horizon_ok VISHORIZON_SHARED s) by (by apply horizon_ok_of_bounds).
  assert (Hdata : horizon_ok VISHORIZON_DATA d) by (by apply horizon_ok_of_bounds).
  destruct k; unfold finish_horizons; cbn [kind_horizon shared_oldest_nonremovable catalog_oldest_nonremovable
    data_oldest_nonremovable temp_oldest_nonremovable]; auto using horizon_ok_older.
  - apply (horizon_ok_older VISHORIZON_CATALOG); [done|]. apply (horizon_ok_older VISHORIZON_CATALOG); [done|].
    by apply (horizon_ok_of_bounds VISHORIZON_CATALOG).
  - assert (Hmine : forall h, concerned VISHORIZON_TEMP l sh0 h = true -> h = MyProcNo l) by (intros h; apply Nat.eqb_eq).
    destruct (TransactionIdIsValid (pr_xid (proc sh0 (MyProcNo l)))) eqn:Hv.
    + destruct (so_procs _ _ _ Hok _ Hme) as [_ P2 _ _ _ _].
      destruct P2 as [Ha _]; [intros Hz; by rewrite Hz in Hv|].
      constructor; [eapply assigned_window; [apply Hok|done]|destruct Ha; lia| |done].
      intros p Hp Hc%Hmine Hx. subst p. lia.
    + constructor; [done|done| |done]. intros p Hp Hc%Hmine Hx. subst p. congruence.
Qed.
End Scan.

(** ** Who may see a transaction before a horizon as running *)

(** The process of a transaction that changes a relation is among those that
    may access it; a parent precedes its children. *)
Record touches (scope : nat -> bool) (s : Sys) (x : TransactionId) : Prop := {
  to_window : in_window o x;
  to_top : normal_xid (topmost x) /\ xid_age o (topmost x) <= xid_age o x;
  to_where : forall q y, y = x \/ y = topmost x -> runs s q y -> scope q = true;
}.

(** While the horizon is computed, process [p] advertises an xmin that covers
    the snapshot. *)
Definition holds (sigma : nat -> Sys) (p : nat) (sn : SnapshotData) : Prop :=
  in_window o (snap_xmin sn) /\
  forall t, let xmin := pr_xmin (proc (mem (sigma t)) p) in
    TransactionIdIsValid xmin = true /\ xid_age o xmin <= xid_age o (snap_xmin sn).

Lemma run_gone acts s s' x :
  sys_ok topmost o s -> sys_run topmost o acts s s' -> assigned o (next_xid (mem s)) x -> ~ running s x ->
  assigned o (next_xid (mem s')) x /\ ~ running s' x.
Proof.
  intros Hok Hr. induction Hr as [s|a acts s s1 s' Hs Hr IH]; intros Ha Hn; [done|].
  apply IH; [by eapply sys_step_ok| |by eapply step_gone]. eapply assigned_le; [|exact Ha]. by eapply step_next.
Qed.

Lemma touches_ext scope scope' s x : (forall q, scope q = scope' q) -> touches scope s x -> touches scope' s x.
Proof. intros E [H1 H2 H3]. constructor; [done|done|]. intros q y Hy Hr. rewrite <- E. by eapply H3. Qed.

Lemma horizon_over sigma l k h x :
  sys_ok topmost o (sigma 0%nat) -> horizon_ok sigma l k h -> xid_age o x < xid_age o h -> normal_xid x ->
  (forall q, runs (sigma 0%nat) q x -> concerned k l (mem (sigma 0%nat)) q = true) ->
  assigned o (next_xid (mem (sigma 0%nat))) x /\ ~ running (sigma 0%nat) x.
Proof.
  intros Hok [Hw Hn Hx _] Hlt Hnx Hwhere. split; [split; [done|lia]|]. intros [q Hr].
  pose proof (Hwhere q Hr) as Hc. destruct Hr as (Hp & Hv & Hor). specialize (Hx q Hp Hc).
  destruct (so_procs _ _ _ Hok q Hp) as [P1 _ P3 _ _ _]. destruct Hor as [->|Hin]; [specialize (Hx Hv); lia|].
  destruct (TransactionIdIsValid (pr_xid (proc (mem (sigma 0%nat)) q))) eqn:Hvq.
  - destruct (P3 x Hin) as (_ & Hage & _). specialize (Hx eq_refl). lia.
  - destruct P1 as [Ht _]; [by apply negb_false_iff, Z.eqb_eq in Hvq|]. rewrite Ht in Hin. by apply not_elem_of_nil in Hin.
Qed.

Lemma horizon_unseen sigma l k h x :
  scanning topmost o sigma -> horizon_ok sigma l k h -> touches (concerned k l (mem (sigma 0%nat))) (sigma 0%nat) x ->
  TransactionIdPrecedes x h = true ->
  (forall acts s me sn, sys_run topmost o acts (sigma 0%nat) s -> snapshot_shows topmost o me s sn ->
     XidInMVCCSnapshot topmost x sn = false) /\
  (k <> VISHORIZON_TEMP -> forall p sn, p ∈ pgprocnos (mem (sigma 0%nat)) ->
     concerned k l (mem (sigma 0%nat)) p = true -> holds sigma p sn -> XidInMVCCSnapshot topmost x sn = false).
Proof.
  intros [Hok _] Hh [Hxw [Htn Hta] Hwhere] Hp. pose proof Hh as [Hw _ _ Hxm].
  rewrite (precedes_window o) in Hp by done. apply Z.ltb_lt in Hp.
  destruct (horizon_over sigma l k h x Hok Hh Hp) as [Ha Hn]; [by apply Hxw|by intros q; apply Hwhere; left|].
  destruct (horizon_over sigma l k h (topmost x) Hok Hh) as [Hat Hnt]; [lia|done|by intros q; apply Hwhere; right|].
  split.
  - intros acts s me sn Hr Hs. destruct (run_gone _ _ _ _ Hok Hr Ha Hn) as [Ha' Hn'].
    destruct (run_gone _ _ _ _ Hok Hr Hat Hnt) as [_ Hnt']. destruct (Hs x Hxw) as (_ & _ & H3).
    apply not_true_iff_false. intros Ht. destruct (H3 Ht) as [?|[?|[_ ?]]]; done.
  - intros Hk p sn Hin Hc [Hsw Hheld]. destruct (Hxm Hk p Hin Hc) as [t Ht]. destruct (Hheld t) as [Hv Hle].
    specialize (Ht Hv). unfold XidInMVCCSnapshot. rewrite (precedes_window o) by done.
    by rewrite (proj2 (Z.ltb_lt _ _)) by lia.
Qed.
End Horizon.

(** C12. removal horizons are safe: when [GetOldestNonRemovableTransactionId]
    gives a horizon for a relation, no transaction before it that changed the
    relation is seen as running, by any snapshot taken from the moment its lock
    was acquired, nor by any older snapshot whose holder, one of the processes
    that may access the relation, advertised a covering xmin throughout.  And
    the horizon is not after what replication slots ask to keep, for a shared,
    catalog or decoded relation also not after their catalog xmin.  Other
    backends assign ids, install xmins and drop them while the array is
    scanned. *)
Theorem GetOldestNonRemovableTransactionId_safe (topmost : TransactionId -> TransactionId) (o : TransactionId)
    (sigma : nat -> Sys) (last : ProcShared) (rel : option Relation) (l : ProcLocal) :
  let s0 := sigma 0%nat in
  let scope := accesses rel l (mem s0) in
  let h := (GetOldestNonRemovableTransactionId false (fun t => mem (sigma t)) last rel l).1 in
  scanning topmost o sigma -> xmins_ok o sigma -> slots_ok o (mem s0) -> MyProcNo l ∈ pgprocnos (mem s0) ->
  (forall x, touches topmost o scope s0 x -> TransactionIdPrecedes x h = true ->
    (forall acts s me sn, sys_run topmost o acts s0 s -> snapshot_shows topmost o me s sn ->
       XidInMVCCSnapshot topmost x sn = false) /\
    (private_relation rel = false -> forall p sn, p ∈ pgprocnos (mem s0) -> scope p = true ->
       holds o sigma p sn -> XidInMVCCSnapshot topmost x sn = false)) /\
  (private_relation rel = false -> below_slot o (replication_slot_xmin (mem s0)) h) /\
  (shared_relation rel || decoded_relation rel = true -> below_slot o (replication_slot_catalog_xmin (mem s0)) h).
Proof.
  intros s0 scope h Hs Hx Hsl Hme. set (k := GlobalVisHorizonKindForRel false rel).
  assert (Eh : h = kind_horizon k (ComputeXidHorizons false (fun t => mem (sigma t)) last l).1).
  { unfold h, GetOldestNonRemovableTransactionId. by destruct (ComputeXidHorizons _ _ _ _). }
  rewrite Eh. clear h Eh. destruct (relation_kind rel l (mem s0) 0) as (_ & Hpriv & Hcat).
  destruct (ComputeXidHorizons_slots topmost o sigma l Hs Hx Hsl last k) as [Hs1 Hs2]. split_and!; [|by auto|by auto].
  intros x Ht Hp. destruct (horizon_unseen topmost o sigma l k _ x Hs (ComputeXidHorizons_ok topmost o sigma l Hs Hx Hsl last k Hme))
    as [H1 H2]; [|done|].
  { eapply touches_ext; [|exact Ht]. intros q. symmetry. apply relation_kind. }
  split; [done|]. intros Hk p sn Hin Hsc. apply H2; [by apply Hpriv|done|].
  rewrite <- Hsc. apply relation_kind.
Qed.

(** Backend 0 holds a snapshot with xmin 100 while backend 2 asks. *)
Definition ex_held : Sys := perform [ASetXmin 0 100] (ex_sys 8).

Lemma ex_held_run : sys_run ex_topmost 3 [ASetXmin 0 100] (ex_sys 8) ex_held.
Proof.
  eapply run_cons; [|apply run_nil]. constructor; [|reflexivity]. change (0%nat ∈ pgprocnos (mem (ex_sys 8))). ground.
Qed.

Lemma ex_held_scanning : scanning ex_topmost 3 (fun _ => ex_held).
Proof. split; [|intros; apply quiet_refl]. eapply sys_run_ok; [exact ex_ok|exact ex_held_run]. Qed.

Definition ex_vacuum : ProcLocal :=
  mkProcLocal 2 5 0 0 0 (mkGlobalVis 0 0) (mkGlobalVis 0 0) (mkGlobalVis 0 0) (mkGlobalVis 0 0) 0.

Definition ex_table : option Relation := Some (mkRelation false false false false).

Definition ex_held_snapshot : SnapshotData := mkSnapshot SNAPSHOT_MVCC 100 103 [100] [101] false false 7 0.

Lemma ex_procs_cases (P : nat -> Prop) : P 0%nat -> P 1%nat -> P 2%nat -> forall p, p ∈ pgprocnos (mem ex_held) -> P p.
Proof.
  intros H0 H1 H2 p Hp. change (p ∈ [0; 1; 2]%nat) in Hp. apply list_elem_of_In in Hp. by destruct Hp as [<-|[<-|[<-|[]]]].
Qed.

Lemma GetOldestNonRemovableTransactionId_safe_witness :
  (GetOldestNonRemovableTransactionId false (fun _ => mem ex_held) (mem ex_held) ex_table ex_vacuum).1 = 100 /\
  XidInMVCCSnapshot ex_topmost 99 ex_held_snapshot = false.
Proof.
  split; [vm_compute; reflexivity|].
  assert (Hx : xmins_ok 3 (fun _ => ex_held)).
  { intros t p Hp. revert p Hp. refine (ex_procs_cases _ _ _ _); vm_compute; done. }
  assert (Ht : touches ex_topmost 3 (accesses ex_table ex_vacuum (mem ex_held)) ex_held 99).
  { constructor; [split; vm_compute; done|split; [vm_compute; done|by vm_compute]|].
    intros q y Hy (Hq & _). revert q Hq. refine (ex_procs_cases _ _ _ _); by vm_compute. }
  destruct (GetOldestNonRemovableTransactionId_safe ex_topmost 3 (fun _ => ex_held) (mem ex_held) ex_table ex_vacuum
    ex_held_scanning Hx ltac:(split; done) ltac:(ground)) as [Hsafe _].
  destruct (Hsafe 99 Ht ltac:(vm_compute; reflexivity)) as [_ H].
  apply (H ltac:(done) 0%nat); [ground|by vm_compute|]. split; [split; vm_compute; done|].
  intros _. split; [by vm_compute|vm_compute; done].
Defined.
