(* ===== verification/ProcVacuum.v ===== *)
(** * ProcVacuum: vacuum removes only what nobody sees

    Puts the parts together: one backend computes a horizon from the process
    array and checks tuples with [HeapTupleSatisfiesVacuum]; another backend
    has taken a snapshot from the same array and checks tuples with
    [HeapTupleSatisfiesMVCC]; the rest of the system runs on. *)

From S2P Require Import Prelude TransactionId KnownXids HeapTuple Visibility VisLogic VisSound VisMVCC.
From S2P Require Import VisVacuum ProcArray ProcInv ProcRun ProcScan ProcExample ProcSnapshot ProcWorld.
From S2P Require Import ProcHorizon.

Section Line.
Context (topmost : TransactionId -> TransactionId) (o : TransactionId) (base : World) (tau : nat -> Sys).

(** The context of the checks of backend [me]. *)
Definition line_context (me : nat) (permanent : bool) (combo : ComboState)
    (cids : HeapTupleHeaderData -> option (CommandId * CommandId)) : Context_ :=
  mkContext (fun t => sys_world topmost me base (tau t)) permanent combo cids.

(** Both backends observe: neither starts or ends a transaction. *)
Definition observes (me : nat) : Prop :=
  watching topmost o me (tau 0%nat) /\ forall t, foreign_run topmost o me (tau t) (tau (S t)).

Lemma foreign_acts me s s' : foreign_run topmost o me s s' -> exists acts, sys_run topmost o acts s s'.
Proof.
  induction 1 as [s|a s s1 s' _ Hs _ [acts IH]]; [exists []; constructor|]. exists (a :: acts). by econstructor.
Qed.

Lemma sys_run_app acts acts' s1 s2 s3 :
  sys_run topmost o acts s1 s2 -> sys_run topmost o acts' s2 s3 -> sys_run topmost o (acts ++ acts') s1 s3.
Proof. induction 1; [done|]. intros. cbn. econstructor; eauto. Qed.

Lemma line_run me t t' :
  observes me -> (t <= t')%nat -> exists acts, sys_run topmost o acts (tau t) (tau t').
Proof.
  intros [_ Hl] Hle. induction Hle as [|t' Hle [acts IH]]; [exists []; constructor|].
  destruct (foreign_acts me _ _ (Hl t')) as [acts' Hr]. exists (acts ++ acts'). by eapply sys_run_app.
Qed.

Lemma line_observer v p perm perm2 combo combo2 cids cids2 :
  observes v -> observes p -> observer (line_context v perm combo cids) (line_context p perm2 combo2 cids2).
Proof.
  intros _ [Hw Hl]. constructor; cbn; [done|done|]. intros t t' x Hx. apply runningb_spec. exists p.
  apply (runsb_spec (tau t) p x) in Hx. destruct (Nat.le_ge_cases t t') as [Hle|Hle].
  - by apply (pa_me _ _ _ _ _ (line_passes topmost o p tau Hw Hl t t' Hle)).
  - by apply (pa_me _ _ _ _ _ (line_passes topmost o p tau Hw Hl t' t Hle)).
Qed.

Lemma line_laws me perm combo cids : observes me -> TimeLaws (world (line_context me perm combo cids)) (started o tau).
Proof. intros [Hw Hl]. exact (sys_time_laws topmost o me base tau Hw Hl). Qed.
End Line.

(** A snapshot the reader [p] may use: taken from the array at [t0], when the
    horizon was already being computed at [t1], or held with a covering xmin
    while it was. *)
Definition usable topmost o tau sigma (rel : option Relation) (l : ProcLocal) (p t0 t1 : nat) (sn : SnapshotData) : Prop :=
  snapshot_shows topmost o p (tau t0) sn /\ skipped_idle (tau t0) /\
  ((t1 <= t0)%nat \/
   private_relation rel = false /\ accesses rel l (mem (tau t1)) p = true /\ holds o sigma p sn).

(** C1. vacuum removes only what nobody sees.  One backend computes the
    horizon of a relation at [t1] with [GetOldestNonRemovableTransactionId] and
    finds a tuple of the relation dead with [HeapTupleSatisfiesVacuum]; then
    [HeapTupleSatisfiesMVCC] rejects the tuple in every other backend, with
    every snapshot taken since then or held at the time. *)
Theorem vacuum_invisible (topmost : TransactionId -> TransactionId) (o : TransactionId) (base : World)
    (tau sigma : nat -> Sys) (t0 t1 : nat) (last : ProcShared) (rel : option Relation) (l : ProcLocal) (p : nat)
    (perm perm2 : bool) (combo combo2 : ComboState) cids cids2 (s s2 : VState) :
  let v := MyProcNo l in
  let c := line_context topmost base tau v perm combo cids in
  let c2 := line_context topmost base tau p perm2 combo2 cids2 in
  let OldestXmin := (GetOldestNonRemovableTransactionId false (fun t => mem (sigma t)) last rel l).1 in
  let deleter := delete_xid (world c) (v_tuple s) in
  observes topmost o tau v -> observes topmost o tau p ->
  scanning topmost o sigma -> sigma 0%nat = tau t1 -> xmins_ok o sigma -> slots_ok o (mem (tau t1)) ->
  (TransactionIdIsValid deleter = true -> touches topmost o (accesses rel l (mem (tau t1))) (tau t1) deleter) ->
  hints_sound (world c) (v_clock s) (v_tuple s) -> tuple_ok (world c) (started o tau) (v_clock s) (v_tuple s) ->
  moved (v_tuple s) = false -> (call (HeapTupleSatisfiesVacuum OldestXmin) c s).1 = HEAPTUPLE_DEAD ->
  v_tuple s2 = v_tuple s -> tuple_ready c2 (started o tau) t0 s2 ->
  usable topmost o tau sigma rel l p t0 t1 (v_snapshot s2) ->
  (call HeapTupleSatisfiesMVCC c2 s2).1 = false.
Proof.
  intros v c c2 OldestXmin deleter Hv Hp Hs E Hx Hsl Htouch H1 H2 H3 Hd Ht Hready (Hshow & Hsk & Hcase).
  pose proof (line_laws topmost o base tau v perm combo cids Hv) as HL.
  pose proof (line_laws topmost o base tau p perm2 combo2 cids2 Hp) as HL2.
  pose proof (line_observer topmost o base tau v p perm perm2 combo combo2 cids cids2 Hv Hp) as Hob.
  pose proof (sys_snapshot_law topmost o p base tau (proj1 Hp) (proj2 Hp) t0 _ Hsk Hshow) as Hsn.
  destruct Hready as [R1 R2 R3 R4 R5 R6].
  rewrite (mvcc_ready_spec c2 (started o tau) t0 s2) by (constructor; done). rewrite Ht in *. unfold mvcc_visible.
  destruct (vacuum_dead c (started o tau) s OldestXmin H1 H2 H3 Hd) as [t [Hf|[Hdone Hprec]]].
  { by rewrite (insert_failed_unseen c (started o tau) c2 t0 (v_clock s) t). }
  rewrite (delete_done_seen c (started o tau) c2 t0 t); [apply andb_false_r|done..|]. change (delete_xid _ _) with deleter.
  assert (Hval : TransactionIdIsValid deleter = true).
  { apply negb_true_iff, Z.eqb_neq. intros Hz. destruct Hdone as [_ Hc]. change (delete_xid _ _) with deleter in Hc.
    rewrite Hz in Hc. pose proof (invalid_uncommitted (TimeLaws := HL) t) as Hi. change (DidCommit (world c t) InvalidTransactionId = true) in Hc. exact (diff_true_false (eq_trans (eq_sym Hc) Hi)). }
  assert (Hme : MyProcNo l ∈ pgprocnos (mem (sigma 0%nat))).
  { rewrite E. apply (ob_present _ _ (wa_observed _ _ _ _ (line_watching topmost o v tau (proj1 Hv) (proj2 Hv) t1))). }
  set (k := GlobalVisHorizonKindForRel false rel).
  destruct (horizon_unseen topmost o sigma l k OldestXmin deleter) as [Hlater Hheld]; [done| | |done|].
  { rewrite <- E in Hsl. pose proof (ComputeXidHorizons_ok topmost o sigma l Hs Hx Hsl last k Hme) as H.
    unfold OldestXmin, GetOldestNonRemovableTransactionId. by destruct (ComputeXidHorizons _ _ _ _). }
  { rewrite E. eapply touches_ext; [|by apply Htouch]. intros q. symmetry. apply relation_kind. }
  rewrite E in Hlater, Hheld. destruct Hcase as [Hle|(Hk & Hc & Hh)].
  - destruct (line_run topmost o tau p t1 t0 Hp Hle) as [acts Hr]. exact (Hlater acts (tau t0) p _ Hr Hshow).
  - destruct (relation_kind rel l (mem (tau t1)) p) as (Hkind & Hpriv & _). apply (Hheld (Hpriv Hk) p); [|exact (eq_trans Hkind Hc)|done].
    apply (ob_present _ _ (wa_observed _ _ _ _ (line_watching topmost o p tau (proj1 Hp) (proj2 Hp) t1))).
Qed.

(** Transactions 100 and 102 are over, 103 runs in backend 2; backend 1
    vacuums and backend 0 reads. *)
Definition ex_late : Sys := ex_line 3.

Lemma ex_late_idle p x : p = 0%nat \/ p = 1%nat -> ~ runs ex_late p x.
Proof.
  intros Hp (_ & Hv & Hor). assert (Hz : pr_xid (proc (mem ex_late) p) = 0 /\ subs ex_late p = []).
  { by destruct Hp as [->| ->]; vm_compute. }
  destruct Hz as [Hz Hs]. rewrite Hz, Hs in Hor. destruct Hor as [->|Hin]; [done|by apply not_elem_of_nil in Hin].
Qed.

Lemma ex_late_observes p : p = 0%nat \/ p = 1%nat -> observes ex_topmost 3 (fun _ => ex_late) p.
Proof.
  intros Hp. split; [|intros; apply foreign_refl].
  pose proof (line_watching ex_topmost 3 0 ex_line ex_watching ex_line_run 3) as [Hok [_ _ _ Hval]].
  split; [exact Hok|]. constructor.
  - destruct Hp as [->| ->]; ground.
  - intros q x _ _. by apply ex_late_idle.
  - intros x Hx. by apply ex_late_idle in Hx.
  - exact Hval.
Qed.

Lemma ex_late_scanning : scanning ex_topmost 3 (fun _ => ex_late).
Proof. split; [|intros; apply quiet_refl]. apply (proj1 (ex_late_observes 0 (or_introl eq_refl))). Qed.

Definition ex_vacuum1 : ProcLocal :=
  mkProcLocal 1 5 0 0 0 (mkGlobalVis 0 0) (mkGlobalVis 0 0) (mkGlobalVis 0 0) (mkGlobalVis 0 0) 0.

(** Inserted by 100 and deleted by 102. *)
Definition ex_deleted : HeapTupleHeaderData := mkHeapTupleHeader 100 102 0 (mkItemPointer 0 1) 0.

Definition ex_late_context (p : nat) : Context_ :=
  line_context ex_topmost ex_base (fun _ => ex_late) p true empty_combo (fun _ => None).

Definition ex_late_snapshot : SnapshotData :=
  snap (GetSnapshotData false 7 (fun _ => mem ex_late) (mem ex_late) ex_old_snapshot ex_local).1.1.

Definition ex_late_check : VState := mkVState ex_deleted ex_late_snapshot 0 4 false.

Lemma ex_late_shows : snapshot_shows ex_topmost 3 0 ex_late ex_late_snapshot.
Proof.
  unfold ex_late_snapshot.
  pose proof (GetSnapshotData_result ex_topmost 3 (fun _ => ex_late) (mem ex_late) 7 ex_local ex_late_scanning
    ltac:(ground) ltac:(vm_compute; lia) ex_old_snapshot ltac:(vm_compute; done) (or_introl eq_refl)) as H.
  destruct (GetSnapshotData _ _ _ _ _ _) as [[sn last] l]. apply H.
Qed.

Lemma ex_late_procs (P : nat -> Prop) : P 0%nat -> P 1%nat -> P 2%nat -> forall p, p ∈ pgprocnos (mem ex_late) -> P p.
Proof.
  intros H0 H1 H2 p Hp. change (p ∈ [0; 1; 2]%nat) in Hp. apply list_elem_of_In in Hp. by destruct Hp as [<-|[<-|[<-|[]]]].
Qed.

Lemma ex_late_own p t x : p = 0%nat \/ p = 1%nat -> IsCurrentTransactionId (world (ex_late_context p) t) x = false.
Proof.
  intros Hp. unfold ex_late_context, line_context. cbn [world sys_world IsCurrentTransactionId].
  apply not_true_iff_false. rewrite runsb_spec. by apply ex_late_idle.
Qed.

Lemma ex_late_started x : x = 100 \/ x = 102 -> started 3 (fun _ => ex_late) x.
Proof.
  intros Hx [Hn _]. assert (Hnext : next_xid (mem ex_late) = 104) by (vm_compute; reflexivity).
  split; [exact Hn|]. rewrite Hnext. destruct Hx as [->| ->]; vm_compute; reflexivity.
Qed.

Lemma ex_late_tuple p :
  p = 0%nat \/ p = 1%nat ->
  hints_sound (world (ex_late_context p)) 4 ex_deleted /\
  tuple_ok (world (ex_late_context p)) (started 3 (fun _ => ex_late)) 4 ex_deleted /\
  own_xmin_live (ex_late_context p) 0 ex_deleted /\ own_xmax_live (ex_late_context p) 0 ex_deleted.
Proof.
  intros Hp. split_and!.
  - by split.
  - split; [left; apply ex_late_started; by left|intros _; left; apply ex_late_started; by right| |].
    + intros Hf. exfalso. revert Hf. vm_compute. discriminate.
    + intros Hc. by rewrite ex_late_own in Hc.
  - intros Hc. by rewrite ex_late_own in Hc.
  - intros Hc. by rewrite ex_late_own in Hc.
Qed.

Lemma ex_late_slots : slots_ok 3 (mem ex_late).
Proof.
  assert (E1 : replication_slot_xmin (mem ex_late) = 0) by (vm_compute; reflexivity).
  assert (E2 : replication_slot_catalog_xmin (mem ex_late) = 0) by (vm_compute; reflexivity).
  split; rewrite ?E1, ?E2; done.
Qed.

Lemma ex_late_xmins : xmins_ok 3 (fun _ => ex_late).
Proof. intros t p Hp. revert p Hp. refine (ex_late_procs _ _ _ _); vm_compute; done. Qed.

Lemma ex_late_touches : touches ex_topmost 3 (accesses ex_table ex_vacuum1 (mem ex_late)) ex_late 102.
Proof.
  constructor; [split; vm_compute; done|split; [vm_compute; done|by vm_compute]|].
  intros q y Hy (Hq & _). revert q Hq. refine (ex_late_procs _ _ _ _); by vm_compute.
Qed.

Lemma ex_late_skipped : skipped_idle ex_late.
Proof. refine (ex_late_procs _ _ _ _); by vm_compute. Qed.

Lemma vacuum_invisible_witness :
  let horizon := (GetOldestNonRemovableTransactionId false (fun _ => mem ex_late) (mem ex_late) ex_table ex_vacuum1).1 in
  horizon = 103 /\
  (call (HeapTupleSatisfiesVacuum horizon) (ex_late_context 1) ex_late_check).1 = HEAPTUPLE_DEAD /\
  (call HeapTupleSatisfiesMVCC (ex_late_context 0) ex_late_check).1 = false.
Proof.
  intros horizon. assert (Hh : horizon = 103) by (vm_compute; reflexivity).
  assert (Hdead : (call (HeapTupleSatisfiesVacuum horizon) (ex_late_context 1) ex_late_check).1 = HEAPTUPLE_DEAD).
  { rewrite Hh. vm_compute. reflexivity. }
  split; [exact Hh|]. split; [exact Hdead|].
  destruct (ex_late_tuple 1) as (H1 & H2 & _ & _); [by right|].
  destruct (ex_late_tuple 0) as (R1 & R2 & R3 & R4); [by left|].
  apply (vacuum_invisible ex_topmost 3 ex_base (fun _ => ex_late) (fun _ => ex_late) 0 0 (mem ex_late) ex_table ex_vacuum1 0
    true true empty_combo empty_combo (fun _ => None) (fun _ => None) ex_late_check ex_late_check); try exact eq_refl.
  - by apply ex_late_observes; right.
  - by apply ex_late_observes; left.
  - exact ex_late_scanning.
  - exact ex_late_xmins.
  - exact ex_late_slots.
  - intros _. exact ex_late_touches.
  - exact H1.
  - exact H2.
  - split; [exact R1|exact R2|cbn; lia|reflexivity|exact R3|exact R4].
  - split; [exact ex_late_shows|]. split; [exact ex_late_skipped|left; lia].
Defined.
