(* ===== verification/ProcImport.v ===== *)
(** * ProcImport: installing the xmin of another transaction

    [ProcArrayInstallImportedXmin] checks, holding ProcArrayLock in shared
    mode, that the transaction a snapshot comes from is still running, and
    installs the xmin of the snapshot.  Here: what a success means, and an
    execution in which the source, which has no transaction id and so ends
    without the lock, is gone when a concurrent horizon computation gets to
    its entry, while the entry of the importing backend was read before. *)

From S2P Require Import Prelude TransactionId KnownXids HeapTuple Visibility VisLogic VisSound VisMVCC.
From S2P Require Import VisVacuum ProcArray ProcInv ProcRun ProcScan ProcReaders ProcExample ProcSnapshot ProcWorld.
From S2P Require Import ProcHorizon ProcVacuum.

(** A success means that the source was seen, with an xmin that covers the
    imported one. *)
Lemma import_scan_covers topmost o sigma xmin source l rounds i :
  scanning topmost o sigma -> (i + rounds = numProcs (mem (sigma 0%nat)))%nat ->
  import_scan (fun t => mem (sigma t)) xmin source l rounds i = true ->
  exists p t, p ∈ pgprocnos (mem (sigma 0%nat)) /\
    has_flag (pr_statusFlags (proc (mem (sigma 0%nat)) p)) PROC_IN_VACUUM = false /\
    databaseId (proc (mem (sigma 0%nat)) p) = MyDatabaseId l /\
    let xid := pr_xmin (proc (mem (sigma t)) p) in
    TransactionIdIsNormal xid = true /\ TransactionIdPrecedesOrEquals xid xmin = true.
Proof.
  intros Hscan. revert i. induction rounds as [|r IH]; intros i Hr; cbn [import_scan]; [done|].
  destruct (lookup_lt_is_Some_2 (pgprocnos (mem (sigma 0%nat))) i) as [p Hi]; [unfold numProcs in Hr; lia|].
  assert (Hat : forall t, procno_at (mem (sigma t)) i = p /\
    at_index (statusFlags (mem (sigma t))) i = pr_statusFlags (proc (mem (sigma 0%nat)) p) /\
    databaseId (proc (mem (sigma t)) p) = databaseId (proc (mem (sigma 0%nat)) p)).
  { intros t. destruct (scanning_at topmost o sigma t i p Hscan Hi) as [Ht Hl].
    destruct (read_mirrors topmost o _ _ _ (scanning_ok topmost o sigma t Hscan) Ht) as (_ & _ & Ef & Ep & _).
    rewrite Ef, (pl_flags _ _ _ _ Hl), (pl_db _ _ _ _ Hl). done. }
  unfold proc_at. rewrite (proj1 (proj2 (Hat (5 * i)%nat))), (proj1 (Hat (5 * i + 3)%nat)), (proj1 (Hat (5 * i + 4)%nat)).
  rewrite (proj2 (proj2 (Hat (5 * i + 3)%nat))).
  specialize (IH (S i) ltac:(lia)). cbv zeta.
  destruct (has_flag _ PROC_IN_VACUUM) eqn:Hf; [done|]. do 2 (case_if; [done|]).
  destruct (Z.eqb_spec (databaseId (proc (mem (sigma 0%nat)) p)) (MyDatabaseId l)) as [Hd|]; cbn [negb]; [|done].
  destruct (TransactionIdIsNormal _) eqn:Hno; cbn [negb orb]; [|done].
  destruct (TransactionIdPrecedesOrEquals _ _) eqn:Hle; cbn [negb]; [|done].
  intros _. exists p, (5 * i + 4)%nat. split_and!; try done. by eapply list_elem_of_lookup_2.
Qed.

(** ** A lost xmin *)

(** Three backends in transactions; backend 1 runs and commits transaction
    100, of which the snapshot of backend 2 still sees nothing; backend 0 has
    taken its own snapshot afterwards. *)
Definition busy_proc (n : nat) : PGPROC :=
  mkPGPROC n (1000 + Z.of_nat n) 0 0 0 7 (Z.of_nat n) 5 10 0 0 false false None no_subxids
    (replicate MAX_CACHED_SUBXIDS 0).

Definition busy_array : ProcShared :=
  mkProcShared (busy_proc <$> [0; 1; 2]%nat) 3 [] [] [] [] 0 0 0 99 1 100 3 empty_known.

Definition busy_sys : Sys := mkSys busy_array (fun _ => []) [].

Definition lost_acts : list Act :=
  [AAdd 0 []; AAdd 1 []; AAdd 2 []; AAssign 1; ASetXmin 2 100; ACommitLog 1; AEnd 1 100; ASetXmin 0 101].

Definition lost_start : Sys := perform lost_acts busy_sys.

(** Backend 0 imports the snapshot of backend 2, which then ends. *)
Definition lost_imported : Sys := perform [ASetXmin 0 100] lost_start.
Definition lost_gone : Sys := perform [AEndNoXid 2] lost_imported.

(** The memories under the lock of backend 1, which computes a horizon: it
    reads the xmin of entry [i] at [3 * i + 2]. *)
Definition lost_scan (t : nat) : Sys :=
  if (t <? 3)%nat then lost_start else if (t <? 5)%nat then lost_imported else lost_gone.

Definition importer : ProcLocal :=
  mkProcLocal 0 5 101 101 0 (mkGlobalVis 0 0) (mkGlobalVis 0 0) (mkGlobalVis 0 0) (mkGlobalVis 0 0) 0.

(** Committed before all this; deleted by transaction 100. *)
Definition lost_tuple : HeapTupleHeaderData := mkHeapTupleHeader 50 100 0 (mkItemPointer 0 1) (Z.lor HEAP_XMIN_COMMITTED HEAP_XMIN_INVALID).

(** The snapshot of backend 2, while transaction 100 runs, which backend 0
    imports. *)
Definition exporter : ProcLocal :=
  mkProcLocal 2 5 0 0 0 (mkGlobalVis 0 0) (mkGlobalVis 0 0) (mkGlobalVis 0 0) (mkGlobalVis 0 0) 0.

Definition lost_snapshot : Snapshot * ProcShared * ProcLocal :=
  let sh := mem (perform (take 4 lost_acts) busy_sys) in GetSnapshotData false 7 (fun _ => sh) sh ex_old_snapshot exporter.

Definition exported : SnapshotData := snap lost_snapshot.1.1.

Definition lost_context (p : nat) : Context_ :=
  line_context ex_topmost ex_base (fun _ => lost_gone) p true empty_combo (fun _ => None).
Definition lost_check : VState := mkVState lost_tuple exported 0 4 false.

Lemma busy_ok : sys_ok ex_topmost 3 busy_sys.
Proof.
  constructor; cbn [mem subs busy_sys].
  - constructor; cbn [pgprocnos xids subxidStates statusFlags busy_array]; [constructor|constructor| |done..].
    intros n pr Hpr. do 3 (destruct n as [|n]; [injection Hpr as <-; constructor; cbn; [done|done|lia]|]). done.
  - split; vm_compute; done.
  - split; vm_compute; done.
  - split; vm_compute; done.
  - intros p Hp. by apply not_elem_of_nil in Hp.
  - intros x [Hx Ha] Hlt. exfalso. revert Ha Hlt.
    change (xid_age 3 (next_xid busy_array)) with 97. change (xid_age 3 (latest_xid busy_array)) with 96. lia.
Qed.

Lemma busy_idle_ok next n : (n < 3)%nat -> proc_ok ex_topmost 3 next (busy_proc n) [].
Proof. intros. by apply proc_ok_cleared. Qed.

Lemma lost_run : sys_run ex_topmost 3 lost_acts busy_sys lost_start.
Proof.
  apply perform_run. intros n a Ha.
  do 3 (destruct n as [|n];
    [injection Ha as <-; split; [|vm_compute; by eexists];
     split; [vm_compute; lia|]; split; [ground|]; split; [|by intros []]; by apply busy_idle_ok; lia|]).
  destruct n as [|n]; [injection Ha as <-; split; [|vm_compute; by eexists]; split; [ground|]; split; [by vm_compute|];
     split; [by vm_compute|]; split; by vm_compute|].
  destruct n as [|n]; [injection Ha as <-; split; [|vm_compute; by eexists]; change (2%nat ∈ [0; 1; 2]%nat); ground|].
  destruct n as [|n]; [injection Ha as <-; split; [|vm_compute; by eexists]; split; [ground|by vm_compute]|].
  destruct n as [|n]; [injection Ha as <-; split; [|vm_compute; by eexists]|].
  { split; [ground|]. split; [by vm_compute|]. split; [split; by vm_compute|].
    intros x [->|Hx]; [by vm_compute|]. vm_compute in Hx. by apply not_elem_of_nil in Hx. }
  destruct n as [|n]; [injection Ha as <-; split; [|vm_compute; by eexists]; change (0%nat ∈ [0; 1; 2]%nat); ground|done].
Qed.

Lemma lost_import_step : sys_step ex_topmost 3 (ASetXmin 0 100) lost_start lost_imported.
Proof. constructor; [|reflexivity]. change (0%nat ∈ pgprocnos (mem lost_start)). ground. Qed.

Lemma lost_end_step : sys_step ex_topmost 3 (AEndNoXid 2) lost_imported lost_gone.
Proof. constructor; [|reflexivity]. split; [ground|by vm_compute]. Qed.

Lemma lost_scanning : scanning ex_topmost 3 lost_scan.
Proof.
  split; [exact (sys_run_ok ex_topmost 3 _ _ _ busy_ok lost_run)|]. intros t. unfold lost_scan.
  destruct (Nat.ltb_spec t 3), (Nat.ltb_spec (S t) 3), (Nat.ltb_spec t 5), (Nat.ltb_spec (S t) 5); try lia; try apply quiet_refl.
  - eapply quiet_step; [|exact lost_import_step|apply quiet_refl]. exact I.
  - eapply quiet_step; [|exact lost_end_step|apply quiet_refl]. by vm_compute.
Qed.

(** C39. an execution in which an imported xmin does not protect: while a
    horizon is computed, a backend imports a snapshot from a transaction
    without an id, successfully, and that transaction ends, which does not
    need the lock that the import holds.  The horizon takes neither of the two
    xmins into account, and vacuum finds a tuple dead that the imported
    snapshot still sees. *)
Theorem imported_xmin_lost :
  sys_run ex_topmost 3 lost_acts busy_sys lost_start /\
  mem (perform (take 5 lost_acts) busy_sys) = lost_snapshot.1.2 /\
  scanning ex_topmost 3 lost_scan /\ lost_scan 0 = lost_start /\
  (exists l, ProcArrayInstallImportedXmin (fun _ => mem lost_start) (mem lost_start) (snap_xmin exported)
    (Some (mkVxid 2 7)) importer = (true, mem lost_imported, l)) /\
  sys_step ex_topmost 3 (AEndNoXid 2) lost_imported lost_gone /\
  let OldestXmin := (GetOldestNonRemovableTransactionId false (fun t => mem (lost_scan t)) (mem lost_gone) ex_table
    ex_vacuum1).1 in
  TransactionIdPrecedes (pr_xmin (proc (mem lost_gone) 0)) OldestXmin = true /\
  (call (HeapTupleSatisfiesVacuum OldestXmin) (lost_context 1) lost_check).1 = HEAPTUPLE_DEAD /\
  (call HeapTupleSatisfiesMVCC (lost_context 0) lost_check).1 = true.
Proof.
  split; [exact lost_run|]. split; [vm_compute; reflexivity|]. split; [exact lost_scanning|]. split; [reflexivity|].
  split; [eexists; vm_compute; reflexivity|]. split; [exact lost_end_step|]. cbv zeta.
  split; [vm_compute; reflexivity|]. split; vm_compute; reflexivity.
Qed.
