(* ===== verification/PairingTree.v ===== *)
(** * PairingTree: pairing heaps represent priority queues

    The links of PairingHeap.v form a binary tree of first children and next
    siblings.  [rep] says that memory holds the links of a tree, [ordered]
    that no node precedes its descendants' bound, and [pairing_ok] that a heap
    holds a given collection of nodes.  Every operation is total on such heaps
    and acts on the collection. *)

From S2P Require Import Prelude PairingHeap.

Inductive tree :=
| Leaf
| Nd (a : nat) (c s : tree).

Fixpoint elems (t : tree) : list nat :=
  match t with Leaf => [] | Nd a c s => a :: elems c ++ elems s end.

Definition ptr (t : tree) : option nat := match t with Leaf => None | Nd a _ _ => Some a end.

Fixpoint rep (st : Nodes) (prev : option nat) (t : tree) : Prop :=
  match t with
  | Leaf => True
  | Nd a c s => st !! a = Some (mkNode (ptr c) (ptr s) prev) /\ rep st (Some a) c /\ rep st (Some a) s
  end.

(** The node [a] with children [c]; its other links may be anything. *)
Definition subheap (st : Nodes) (a : nat) (c : tree) : Prop :=
  (exists nx pv, st !! a = Some (mkNode (ptr c) nx pv)) /\ rep st (Some a) c.

(** Subheaps linked by [next_sibling] from [p] on. *)
Fixpoint chain (st : Nodes) (p : option nat) (l : list (nat * tree)) : Prop :=
  match l with
  | [] => p = None
  | (a, c) :: l =>
      p = Some a /\ exists nx pv, st !! a = Some (mkNode (ptr c) nx pv) /\ rep st (Some a) c /\ chain st nx l
  end.

Fixpoint spine (t : tree) : list (nat * tree) :=
  match t with Leaf => [] | Nd a c s => (a, c) :: spine s end.

Fixpoint members (l : list (nat * tree)) : list nat :=
  match l with [] => [] | (a, c) :: l => a :: elems c ++ members l end.

(** Memory outside [D] is as before. *)
Definition frame (D : list nat) (st st' : Nodes) : Prop := forall x, x ∉ D -> st' !! x = st !! x.

Lemma frame_refl D st : frame D st st.
Proof. by intros x. Qed.

Lemma frame_trans D D' st st' st'' : D' ⊆ D -> frame D st st' -> frame D' st' st'' -> frame D st st''.
Proof. intros Hs H H' x Hx. rewrite H' by set_solver. by apply H. Qed.

Lemma frame_insert D x n (st : Nodes) : x ∈ D -> frame D st (<[x := n]> st).
Proof. intros Hx y Hy. apply lookup_insert_ne. by intros ->. Qed.

Lemma rep_frame D st st' prev t :
  frame D st st' -> (forall x, x ∈ elems t -> x ∉ D) -> rep st prev t -> rep st' prev t.
Proof.
  intros Hf. revert prev. induction t as [|a c IHc s IHs]; [done|]. intros prev HD (Ha & Hc & Hs). cbn in HD.
  split; [rewrite Hf by (apply HD; set_solver); done|]. split; [apply IHc|apply IHs]; set_solver.
Qed.

Lemma row_frame D st st' p l :
  frame D st st' -> (forall x, x ∈ members l -> x ∉ D) -> chain st p l -> chain st' p l.
Proof.
  intros Hf. revert p. induction l as [|[a c] l IH]; [done|]. intros p HD (-> & nx & pv & Ha & Hc & Hl). cbn in HD.
  split; [done|]. exists nx, pv. split; [rewrite Hf by (apply HD; set_solver); done|].
  split; [eapply rep_frame; [done| |done]; set_solver|]. apply IH; [set_solver|done].
Qed.

Lemma subheap_frame D st st' a c :
  frame D st st' -> (forall x, x ∈ a :: elems c -> x ∉ D) -> subheap st a c -> subheap st' a c.
Proof.
  intros Hf HD [(nx & pv & Ha) Hc]. split; [exists nx, pv; rewrite Hf by (apply HD; set_solver); done|].
  eapply rep_frame; [done| |done]. set_solver.
Qed.

Lemma rep_present st prev t x : rep st prev t -> x ∈ elems t -> is_Some (st !! x).
Proof.
  revert prev. induction t as [|a c IHc s IHs]; cbn; intros prev; [set_solver|]. intros (Ha & Hc & Hs).
  rewrite elem_of_cons, elem_of_app. intros [->|[Hx|Hx]]; [by eexists|by eapply IHc|by eapply IHs].
Qed.

Lemma chain_present st p l x : chain st p l -> x ∈ members l -> is_Some (st !! x).
Proof.
  revert p. induction l as [|[a c] l IH]; cbn; intros p; [set_solver|]. intros (_ & nx & pv & Ha & Hc & Hl).
  rewrite elem_of_cons, elem_of_app. intros [->|[Hx|Hx]]; [by eexists|by eapply rep_present|by eapply IH].
Qed.

Lemma present_size (st : Nodes) l : NoDup l -> (forall x, x ∈ l -> is_Some (st !! x)) -> (length l <= size st)%nat.
Proof.
  intros Hn Hp. rewrite <- (size_list_to_set (C := gset nat) l Hn), <- (size_dom (D := gset nat) st). apply subseteq_size.
  intros x Hx. apply elem_of_dom, Hp. set_solver.
Qed.

Lemma chain_length l : (length l <= length (members l))%nat.
Proof. induction l as [|[a c] l IH]; cbn; [lia|]. rewrite length_app. lia. Qed.

Lemma spine_members t : members (spine t) = elems t.
Proof. induction t as [|a c _ s IH]; cbn; [done|]. by rewrite IH. Qed.

Lemma rep_chain st prev t : rep st prev t -> chain st (ptr t) (spine t).
Proof.
  revert prev. induction t as [|a c _ s IH]; cbn; [done|]. intros prev (Ha & Hc & Hs).
  split; [done|]. exists (ptr s), prev. split_and!; [done|done|]. by eapply IH.
Qed.

(** [p->prev_or_parent = v] for the head of a row of siblings. *)
Lemma put_prev_rep st prev t v :
  rep st prev t -> NoDup (elems t) ->
  exists st', put_prev_if (ptr t) v st = Some st' /\ rep st' v t /\ frame (option_list (ptr t)) st st'.
Proof.
  destruct t as [|a c s]; cbn; [intros _ _; exists st; split_and!; [done|done|apply frame_refl]|].
  intros (Ha & Hc & Hs) [Hn1 Hn2]%NoDup_cons. rewrite not_elem_of_app in Hn1. destruct Hn1 as [Hac Has].
  unfold put_prev_or_parent. rewrite Ha. cbn. eexists. split; [done|].
  assert (Hf : frame [a] st (<[a := mkNode (ptr c) (ptr s) v]> st)) by (apply frame_insert; set_solver).
  split_and!; [apply lookup_insert_eq| | |exact Hf]; (eapply rep_frame; [exact Hf| |done]); set_solver.
Qed.

(** ** Memory is neither allocated nor freed *)

Lemma put_dom x v st st' :
  put_first_child x v st = Some st' \/ put_next_sibling x v st = Some st' \/ put_prev_or_parent x v st = Some st' \/
  put_prev_if (Some x) v st = Some st' -> dom st' = dom st.
Proof.
  unfold put_first_child, put_next_sibling, put_prev_if, put_prev_or_parent.
  destruct (st !! x) as [n|] eqn:E; cbn; [|naive_solver].
  assert (H : forall n', dom (<[x := n']> st) = dom st) by (intros n'; by apply dom_insert_lookup_L).
  intros [Hs|[Hs|[Hs|Hs]]]; by injection Hs as <-.
Qed.

Lemma put_prev_if_dom p v st st' : put_prev_if p v st = Some st' -> dom st' = dom st.
Proof. destruct p as [x|]; [intros H; apply (put_dom x v); tauto|by intros [= ->]]. Qed.

(** Takes apart a successful sequence of assignments and collects the domains. *)
Ltac keep_dom :=
  repeat match goal with
  | H : (_ ≫= _) = Some _ |- _ => apply bind_Some in H as (? & ? & H)
  | H : put_first_child ?x ?v ?st = Some ?st' |- _ => apply (fun H => put_dom x v st st' (or_introl H)) in H
  | H : put_next_sibling ?x ?v ?st = Some ?st' |- _ => apply (fun H => put_dom x v st st' (or_intror (or_introl H))) in H
  | H : put_prev_or_parent ?x ?v ?st = Some ?st' |- _ =>
      apply (fun H => put_dom x v st st' (or_intror (or_intror (or_introl H)))) in H
  | H : put_prev_if ?p ?v ?st = Some ?st' |- _ => apply (put_prev_if_dom p v st st') in H
  | H : Some _ = Some _ |- _ => injection H as ?; subst
  | p : (_ * _)%type |- _ => destruct p; cbv beta iota in *
  end.

Lemma merge_dom cmp a b st r st' : merge cmp a b st = Some (r, st') -> dom st' = dom st.
Proof.
  unfold merge. destruct a as [a|]; [|by intros [= _ ->]]. destruct b as [b|]; [|by intros [= _ ->]].
  intros H. keep_dom. destruct (_ <? 0); keep_dom; congruence.
Qed.

Ltac keep_merge := match goal with H : merge _ _ _ _ = Some _ |- _ => apply merge_dom in H end.

Lemma pair_up_dom cmp fuel next pairs st r st' : pair_up cmp fuel next pairs st = Some (r, st') -> dom st' = dom st.
Proof.
  revert next pairs st. induction fuel as [|n IH]; intros [curr|] pairs st; cbn [pair_up]; try (by intros [= _ ->]).
  intros H. keep_dom. destruct (next_sibling _) as [sib|]; keep_dom; [|congruence].
  apply IH in H. keep_merge. congruence.
Qed.

Lemma merge_pairs_dom cmp fuel root next st r st' : merge_pairs cmp fuel root next st = Some (r, st') -> dom st' = dom st.
Proof.
  revert root next st. induction fuel as [|n IH]; intros root [curr|] st; cbn [merge_pairs]; try (by intros [= _ ->]).
  intros H. keep_dom. apply IH in H. keep_merge. congruence.
Qed.

Lemma merge_children_dom cmp c st r st' : merge_children cmp c st = Some (r, st') -> dom st' = dom st.
Proof.
  unfold merge_children. destruct c as [x|]; [|by intros [= _ ->]]. intros H. keep_dom.
  destruct (next_sibling _); keep_dom; [|done]. apply merge_pairs_dom in H.
  match goal with H : pair_up _ _ _ _ _ = Some _ |- _ => apply pair_up_dom in H end. congruence.
Qed.

Lemma pairingheap_add_dom cmp n h h' : pairingheap_add cmp n h = Some h' -> dom (ph_nodes h') = dom (ph_nodes h).
Proof.
  unfold pairingheap_add, clear_root. intros H. keep_dom. keep_merge. cbn. congruence.
Qed.

Lemma pairingheap_remove_dom cmp n h h' : pairingheap_remove cmp n h = Some h' -> dom (ph_nodes h') = dom (ph_nodes h).
Proof.
  unfold pairingheap_remove, pairingheap_remove_first, clear_root. destruct (decide _); intros H.
  - keep_dom. match goal with H : merge_children _ _ _ = Some (?x, _) |- _ => apply merge_children_dom in H; destruct x end;
      keep_dom; cbn; congruence.
  - keep_dom. destruct (first_child _); keep_dom; destruct (decide _); keep_dom; cbn;
      try match goal with H : merge_children _ _ _ = Some _ |- _ => apply merge_children_dom in H end; congruence.
Qed.

(** ** Order *)

(** What the heap asks of its comparison function: on the nodes it may meet,
    it is defined and decides a total preorder; [le x a] says that [a] may
    stand above [x]. *)
Class Comparator (ph_compare : nat -> nat -> option Z) (valid : nat -> Prop) (le : relation nat) : Prop := {
  cmp_preorder :: PreOrder le;
  cmp_decides : forall a b, valid a -> valid b ->
    exists z, ph_compare a b = Some z /\ if z <? 0 then le a b else le b a;
}.

Section Order.
Context (ph_compare : nat -> nat -> option Z) (valid : nat -> Prop) (le : relation nat).
Context {HC : Comparator ph_compare valid le}.

Fixpoint ordered (t : tree) : Prop :=
  match t with Leaf => True | Nd a c s => (forall x, x ∈ elems c -> le x a) /\ ordered c /\ ordered s end.

Definition ordered_at (a : nat) (c : tree) : Prop := (forall x, x ∈ elems c -> le x a) /\ ordered c.

Lemma ordered_leaf a : ordered_at a Leaf.
Proof. split; [|done]. intros x Hx. by apply not_elem_of_nil in Hx. Qed.

Definition ordered_all (l : list (nat * tree)) : Prop := Forall (fun r => ordered_at r.1 r.2) l.

Lemma ordered_spine t : ordered t -> ordered_all (spine t).
Proof. induction t as [|a c _ s IH]; cbn; intros H; constructor; cbn; [by destruct H as (? & ? & ?)|apply IH; tauto]. Qed.

(** A heap made of the members of [D], with root [r] and children [c]. *)
Record made (D : list nat) (st st' : Nodes) (r : nat) (c : tree) : Prop := {
  ma_rep : subheap st' r c;
  ma_elems : r :: elems c ≡ₚ D;
  ma_ordered : ordered_at r c;
  ma_frame : frame D st st';
}.

Lemma made_later D st0 st st' r c : frame D st0 st -> made D st st' r c -> made D st0 st' r c.
Proof. intros Hf [H1 H2 H3 H4]. constructor; [done|done|done|]. eapply frame_trans; [|done|done]. done. Qed.

(** Linking [b] below [a]: the assignments of [merge]. *)
Lemma link_below st a ca b cb :
  subheap st a ca -> subheap st b cb -> NoDup (a :: elems ca ++ b :: elems cb) ->
  exists st', 
    (na ← st !! a;
     st ← put_prev_if (first_child na) (Some b) st;
     st ← put_prev_or_parent b (Some a) st;
     st ← put_next_sibling b (first_child na) st;
     st ← put_first_child a (Some b) st;
     Some (Some a, st)) = Some (Some a, st') /\
    subheap st' a (Nd b cb ca) /\ frame (a :: elems ca ++ b :: elems cb) st st'.
Proof.
  intros [(nx & pv & Ha) Hca] [(nx' & pv' & Hb) Hcb] Hnd. rewrite Ha. cbn.
  apply NoDup_cons in Hnd as [Hna Hnd]. apply NoDup_app in Hnd as (Hn1 & Hdis & [Hnb Hn2]%NoDup_cons).
  destruct (put_prev_rep st (Some a) ca (Some b) Hca Hn1) as (st1 & -> & Hca1 & Hf1). cbn.
  assert (Hp : forall x, x ∈ option_list (ptr ca) -> x ∈ elems ca) by (destruct ca; cbn; set_solver).
  assert (Hb1 : st1 !! b = Some (mkNode (ptr cb) nx' pv')) by (rewrite Hf1; [done|intros ?%Hp; set_solver]).
  assert (Ha1 : st1 !! a = Some (mkNode (ptr ca) nx pv)) by (rewrite Hf1; [done|intros ?%Hp; set_solver]).
  unfold put_prev_or_parent, put_next_sibling, put_first_child. rewrite Hb1. cbn.
  rewrite lookup_insert_eq. cbn. rewrite insert_insert_eq, lookup_insert_ne, Ha1 by set_solver. cbn.
  eexists. split; [done|].
  match goal with |- subheap ?s _ _ /\ _ => assert (Hf : frame [a; b] st1 s) end.
  { intros x Hx. rewrite !lookup_insert_ne by set_solver. done. }
  split.
  - split; [eexists _, _; apply lookup_insert_eq|]. cbn. split.
    + rewrite lookup_insert_ne by set_solver. apply lookup_insert_eq.
    + split; (eapply rep_frame; [exact Hf| |]); [set_solver| |set_solver|done].
      eapply rep_frame; [exact Hf1| |done]. intros x Hx ?%Hp. set_solver.
  - eapply frame_trans; [|intros x Hx; apply Hf1; intros ?%Hp; set_solver|exact Hf]. set_solver.
Qed.

Lemma merge_spec st a ca b cb :
  subheap st a ca -> subheap st b cb -> NoDup (a :: elems ca ++ b :: elems cb) ->
  (forall x, x ∈ a :: elems ca ++ b :: elems cb -> valid x) -> ordered_at a ca -> ordered_at b cb ->
  exists r c st', merge ph_compare (Some a) (Some b) st = Some (Some r, st') /\
    made (a :: elems ca ++ b :: elems cb) st st' r c.
Proof.
  intros Ha Hb Hnd Hv [Ho1 Ho2] [Ho3 Ho4]. unfold merge.
  destruct (cmp_decides a b) as (z & -> & Hz); [apply Hv; set_solver..|]. cbn. destruct (z <? 0).
  - assert (HP : a :: elems ca ++ b :: elems cb ≡ₚ b :: elems cb ++ a :: elems ca) by solve_Permutation.
    rewrite HP in Hnd. destruct (link_below st b cb a ca Hb Ha Hnd) as (st' & -> & Hs & Hf).
    exists b, (Nd a ca cb), st'. split; [done|]. split; [done|cbn; solve_Permutation| |].
    + split; [|done]. cbn. intros x. rewrite elem_of_cons, elem_of_app.
      intros [->|[Hx|Hx]]; [done|etrans; [by apply Ho1|done]|by apply Ho3].
    + intros x Hx. apply Hf. set_solver.
  - destruct (link_below st a ca b cb Ha Hb Hnd) as (st' & -> & Hs & Hf).
    exists a, (Nd b cb ca), st'. split; [done|]. split; [done|cbn; solve_Permutation| |done].
    split; [|done]. cbn. intros x. rewrite elem_of_cons, elem_of_app.
    intros [->|[Hx|Hx]]; [done|etrans; [by apply Ho3|done]|by apply Ho1].
Qed.

Lemma made_subheap_elems D st st' r c x : made D st st' r c -> x ∈ r :: elems c <-> x ∈ D.
Proof. intros H. by rewrite (ma_elems _ _ _ _ _ H). Qed.

(** Putting a subheap in front of a row of subheaps. *)
Lemma chain_push D st st' r c pairs ps :
  made D st st' r c -> chain st pairs ps -> (forall x, x ∈ members ps -> x ∉ D) -> NoDup D ->
  exists st'', put_next_sibling r pairs st' = Some st'' /\ chain st'' (Some r) ((r, c) :: ps) /\ frame D st st''.
Proof.
  intros [Hs Hp _ Hf] Hps Hdis Hnd. destruct Hs as [(nx & pv & Hr) Hc]. unfold put_next_sibling. rewrite Hr. cbn.
  eexists. split; [done|]. rewrite <- Hp in Hnd. apply NoDup_cons in Hnd as [Hrc _].
  assert (HrD : r ∈ D) by (rewrite <- Hp; set_solver).
  match goal with |- context[chain ?s _ _] => assert (Hf' : frame [r] st' s) end.
  { apply frame_insert. set_solver. }
  split.
  - split; [done|]. eexists _, _. split; [apply lookup_insert_eq|].
    split; [eapply rep_frame; [exact Hf'| |done]; set_solver|].
    eapply row_frame; [exact Hf'|set_solver|]. eapply row_frame; [exact Hf|done|done].
  - eapply frame_trans; [|exact Hf|exact Hf']. set_solver.
Qed.

Lemma made_refl st a c : subheap st a c -> ordered_at a c -> made (a :: elems c) st st a c.
Proof. intros Hs Ho. constructor; [done|done|done|apply frame_refl]. Qed.

(** The outcome of the first pass: a row of subheaps of the members of [D]. *)
Definition paired (D : list nat) (st : Nodes) (res : option (option nat * Nodes)) : Prop :=
  exists p ps st', res = Some (p, st') /\ chain st' p ps /\ members ps ≡ₚ D /\ ordered_all ps /\ frame D st st'.

Lemma paired_later D D' st st' res : D' ≡ₚ D -> frame D st st' -> paired D' st' res -> paired D st res.
Proof.
  intros HD Hf (p & ps & st'' & -> & Hch & Hm & Ho & Hf'). exists p, ps, st''. split; [done|]. split; [done|].
  split; [by etrans|]. split; [done|]. eapply frame_trans; [|done|done]. intros x. by rewrite HD.
Qed.

(** One round: a subheap [r] made of the members of [D] joins the pairs. *)
Lemma paired_push D st st' r c pairs ps :
  made D st st' r c -> chain st pairs ps -> ordered_all ps -> NoDup (D ++ members ps) ->
  exists st'', put_next_sibling r pairs st' = Some st'' /\ chain st'' (Some r) ((r, c) :: ps) /\
    members ((r, c) :: ps) ≡ₚ D ++ members ps /\ ordered_all ((r, c) :: ps) /\ frame D st st''.
Proof.
  intros Hm Hps Ho (Hn1 & Hdis & _)%NoDup_app.
  destruct (chain_push D st st' r c pairs ps Hm Hps) as (st2 & E & Hch & Hf); [intros x Hx Hx'; by eapply Hdis|done|].
  exists st2. split; [done|]. split; [done|]. split.
  - cbn. by rewrite (app_comm_cons (elems c)), (ma_elems _ _ _ _ _ Hm).
  - split; [|done]. constructor; [apply (ma_ordered _ _ _ _ _ Hm)|done].
Qed.

Lemma pair_up_spec fuel st next pairs l ps :
  chain st next l -> chain st pairs ps -> NoDup (members l ++ members ps) ->
  (forall x, x ∈ members l ++ members ps -> valid x) -> ordered_all l -> ordered_all ps -> (length l <= fuel)%nat ->
  paired (members l ++ members ps) st (pair_up ph_compare fuel next pairs st).
Proof.
  revert st next pairs l ps. induction fuel as [|n IH]; intros st next pairs l ps Hl Hps Hnd Hv Ho Hop Hlen.
  { destruct l; [|cbn in Hlen; lia]. cbn in Hl. subst. by exists pairs, ps, st. }
  destruct l as [|[a c] [|[b d] l]]; cbn in Hl.
  - subst. by exists pairs, ps, st.
  - destruct Hl as (-> & nx & pv & Ha & Hc & ->). cbn [pair_up]. rewrite Ha. cbn [next_sibling mbind option_bind].
    apply Forall_cons in Ho as [Ho _]. cbn [members] in *. rewrite app_nil_r in *.
    assert (Hm : made (a :: elems c) st st a c) by (apply made_refl; [split; [by eexists _, _|done]|done]).
    destruct (paired_push _ _ _ _ _ pairs ps Hm Hps Hop Hnd) as (st' & -> & Hch & Hmem & Hord & Hf).
    exists (Some a), ((a, c) :: ps), st'. split; [done|]. split; [done|]. split; [done|]. split; [done|].
    intros x Hx. apply Hf. set_solver.
  - destruct Hl as (-> & nx & pv & Ha & Hc & -> & nx' & pv' & Hb & Hd & Hl). cbn [pair_up].
    rewrite Ha. cbn [next_sibling mbind option_bind]. rewrite Hb. cbn [next_sibling mbind option_bind].
    apply Forall_cons in Ho as [Ho1 Ho]. apply Forall_cons in Ho as [Ho2 Ho]. cbn [fst snd] in *.
    set (D := a :: elems c ++ b :: elems d).
    assert (HP : members l ++ D ++ members ps ≡ₚ members ((a, c) :: (b, d) :: l) ++ members ps).
    { unfold D. cbn. solve_Permutation. }
    rewrite <- HP in Hnd. setoid_rewrite <- HP in Hv. apply NoDup_app in Hnd as (Hnl & Hdis & Hnd).
    destruct (merge_spec st a c b d) as (r & e & st1 & -> & Hm);
      [split; [by eexists _, _|done]..|by apply (NoDup_app D) in Hnd as [? _]|intros; apply Hv; set_solver|done|done|].
    cbn [mbind option_bind].
    destruct (paired_push D st st1 r e pairs ps Hm Hps Hop Hnd) as (st2 & -> & Hch & Hmem & Hord & Hf).
    cbn [mbind option_bind]. eapply paired_later; [| |apply (IH st2 nx' (Some r) l ((r, e) :: ps))].
    + by rewrite <- HP, Hmem.
    + intros x Hx. apply Hf. rewrite <- HP in Hx. set_solver.
    + eapply row_frame; [exact Hf| |done]. intros x Hx. specialize (Hdis x Hx). set_solver.
    + exact Hch.
    + rewrite Hmem. by apply NoDup_app.
    + intros x. rewrite Hmem. apply Hv.
    + done.
    + done.
    + cbn in Hlen. lia.
Qed.

Lemma merge_pairs_spec fuel st a c next l :
  subheap st a c -> chain st next l -> NoDup (a :: elems c ++ members l) ->
  (forall x, x ∈ a :: elems c ++ members l -> valid x) -> ordered_at a c -> ordered_all l -> (length l <= fuel)%nat ->
  exists r e st', merge_pairs ph_compare fuel (Some a) next st = Some (Some r, st') /\
    made (a :: elems c ++ members l) st st' r e.
Proof.
  revert st a c next l. induction fuel as [|n IH]; intros st a c next l Ha Hl Hnd Hv Ho Hol Hlen;
    (destruct l as [|[b d] l]; [cbn in *; subst; rewrite app_nil_r; exists a, c, st; split; [done|by apply made_refl]|]);
    [cbn in Hlen; lia|].
  destruct Hl as (-> & nx & pv & Hb & Hd & Hl). apply Forall_cons in Hol as [Ho2 Hol]. cbn [merge_pairs fst snd] in *.
  rewrite Hb. cbn [next_sibling mbind option_bind].
  assert (HP : a :: elems c ++ members ((b, d) :: l) ≡ₚ (a :: elems c ++ b :: elems d) ++ members l).
  { cbn. solve_Permutation. }
  setoid_rewrite HP in Hnd. setoid_rewrite HP in Hv. apply NoDup_app in Hnd as (Hn1 & Hdis & Hn2).
  destruct (merge_spec st a c b d) as (r & e & st1 & -> & Hm);
    [done|split; [by eexists _, _|done]|done|intros; apply Hv; set_solver|done|done|]. cbn [mbind option_bind].
  pose proof (ma_elems _ _ _ _ _ Hm) as HE.
  destruct (IH st1 r e nx l) as (r' & e' & st' & -> & [M1 M2 M3 M4]).
  - apply (ma_rep _ _ _ _ _ Hm).
  - eapply row_frame; [apply (ma_frame _ _ _ _ _ Hm)| |done]. intros x Hx Hx'. by eapply Hdis.
  - rewrite (app_comm_cons (elems e)), HE. by apply NoDup_app.
  - intros x. rewrite (app_comm_cons (elems e)), HE. apply Hv.
  - apply (ma_ordered _ _ _ _ _ Hm).
  - done.
  - cbn in Hlen. lia.
  - exists r', e', st'. split; [done|]. rewrite (app_comm_cons (elems e)), HE in M2. constructor; [done|by rewrite M2, HP|done|].
    eapply frame_trans; [|intros x Hx; apply (ma_frame _ _ _ _ _ Hm); rewrite HP in Hx; set_solver|exact M4].
    intros x. rewrite HP, (app_comm_cons (elems e)), HE. done.
Qed.

(** The children of a node become one heap, and the fuel is enough. *)
Lemma merge_children_spec st prev a c s :
  let t := Nd a c s in
  rep st prev t -> NoDup (elems t) -> (forall x, x ∈ elems t -> valid x) -> ordered t ->
  exists r e st', merge_children ph_compare (Some a) st = Some (Some r, st') /\ made (elems t) st st' r e.
Proof.
  intros t Hr Hnd Hv Ho. pose proof Hr as (Ha & Hc & Hs). unfold merge_children. rewrite Ha. cbn [next_sibling mbind option_bind].
  destruct (ptr s) as [b|] eqn:Hb.
  2: { destruct s; [|done]. exists a, c, st. split; [done|]. unfold t. cbn. rewrite app_nil_r.
       apply made_refl; [split; [by eexists _, _|done]|]. by destruct Ho as (? & ? & _). }
  pose proof (rep_chain _ _ _ Hr) as Hch. pose proof (ordered_spine t Ho) as Hos. rewrite <- (spine_members t) in Hnd, Hv |- *.
  assert (Hlen : (length (spine t) <= size st)%nat).
  { etrans; [apply chain_length|]. apply present_size; [done|]. intros x. by apply (chain_present _ _ _ _ Hch). }
  destruct (pair_up_spec (size st) st (Some a) None (spine t) []) as (p & ps & st1 & -> & Hch1 & Hmem & Ho1 & Hf1);
    [done|done|by rewrite app_nil_r|by rewrite app_nil_r|done|constructor|done|]. cbn [mbind option_bind].
  cbn [members] in Hmem, Hf1. rewrite app_nil_r in Hmem, Hf1.
  destruct ps as [|[q d] ps]; [exfalso; by apply Permutation_nil_l in Hmem|].
  assert (Hl1 : (length ps <= size st1)%nat).
  { trans (length (members ((q, d) :: ps))); [pose proof (chain_length ((q, d) :: ps)); cbn [length] in *; lia|].
    apply present_size; [by rewrite Hmem|]. intros x. by apply (chain_present _ _ _ _ Hch1). }
  destruct Hch1 as (-> & nx & pv & Hq & Hd & Hps). cbn [mbind option_bind]. rewrite Hq. cbn [next_sibling mbind option_bind].
  apply Forall_cons in Ho1 as [Ho1 Ho2].
  destruct (merge_pairs_spec (size st1) st1 q d nx ps) as (r & e & st' & -> & [M1 M2 M3 M4]);
    [split; [by eexists _, _|done]|done|by rewrite <- Hmem in Hnd|intros x Hx; apply Hv; by rewrite <- Hmem|done..|].
  exists r, e, st'. split; [done|]. constructor; [done|by rewrite M2|done|].
  eapply frame_trans; [|exact Hf1|exact M4]. intros x. rewrite <- Hmem. done.
Qed.

(** ** Replacing a part of a tree *)

Inductive side := Child | Sibling.

(** [t'] is [t] with its part [u], which hangs off node [p], replaced by [u']. *)
Inductive replace (p : nat) (u u' : tree) : side -> tree -> tree -> Prop :=
| replace_child s : replace p u u' Child (Nd p u s) (Nd p u' s)
| replace_sibling c : replace p u u' Sibling (Nd p c u) (Nd p c u')
| replace_in_child sd a c c' s : replace p u u' sd c c' -> replace p u u' sd (Nd a c s) (Nd a c' s)
| replace_in_sibling sd a c s s' : replace p u u' sd s s' -> replace p u u' sd (Nd a c s) (Nd a c s').

Lemma replace_exists t n :
  n ∈ elems t -> ptr t <> Some n ->
  exists p c s sd, forall u', exists t', replace p (Nd n c s) u' sd t t'.
Proof.
  induction t as [|a c IHc s IHs]; cbn; [set_solver|]. intros Hn Hne.
  rewrite elem_of_cons, elem_of_app in Hn. destruct Hn as [->|[Hn|Hn]]; [done| |].
  - destruct (decide (ptr c = Some n)) as [Hc|Hc].
    + destruct c as [|n' c0 s0]; [done|]. injection Hc as ->. exists a, c0, s0, Child. intros u'. eexists. constructor.
    + destruct (IHc Hn Hc) as (p & c0 & s0 & sd & H). exists p, c0, s0, sd. intros u'. destruct (H u') as [t' ?].
      eexists. by apply replace_in_child.
  - destruct (decide (ptr s = Some n)) as [Hs|Hs].
    + destruct s as [|n' c0 s0]; [done|]. injection Hs as ->. exists a, c0, s0, Sibling. intros u'. eexists. constructor.
    + destruct (IHs Hn Hs) as (p & c0 & s0 & sd & H). exists p, c0, s0, sd. intros u'. destruct (H u') as [t' ?].
      eexists. by apply replace_in_sibling.
Qed.

Lemma replace_elems p u u' sd t t' :
  replace p u u' sd t t' -> exists K, p ∈ K /\ elems t ≡ₚ elems u ++ K /\ elems t' ≡ₚ elems u' ++ K.
Proof.
  induction 1 as [s|c|sd a c c' s _ (K & HK & E & E')|sd a c s s' _ (K & HK & E & E')].
  - exists (p :: elems s). split_and!; [set_solver|cbn; solve_Permutation..].
  - exists (p :: elems c). split_and!; [set_solver|cbn; solve_Permutation..].
  - exists (a :: K ++ elems s). split_and!; [set_solver|cbn; rewrite ?E, ?E'; solve_Permutation..].
  - exists (a :: K ++ elems c). split_and!; [set_solver|cbn; rewrite ?E, ?E'; solve_Permutation..].
Qed.

Lemma replace_ordered p u u' sd t t' :
  replace p u u' sd t t' -> (forall x, x ∈ elems u' -> x ∈ elems u) -> ordered u' -> ordered t -> ordered t'.
Proof.
  intros H Hsub Hu'. induction H as [s|c|sd a c c' s Hr IH|sd a c s s' Hr IH]; intros (H1 & H2 & H3).
  - split_and!; [intros x Hx; by apply H1, Hsub|done|done].
  - done.
  - split_and!; [|by apply IH|done]. intros x Hx. apply H1.
    destruct (replace_elems _ _ _ _ _ _ Hr) as (K & _ & E & E'). rewrite E'  in Hx. rewrite E. set_solver.
  - split_and!; [done|done|by apply IH].
Qed.

Definition relink (sd : side) (v : option nat) (n : pairingheap_node) : pairingheap_node :=
  match sd with
  | Child => mkNode v (next_sibling n) (prev_or_parent n)
  | Sibling => mkNode (first_child n) v (prev_or_parent n)
  end.

(** Memory after the part was replaced: only the part and the link to it
    have changed. *)
Lemma replace_rep p u u' sd t t' st st' prev :
  replace p u u' sd t t' -> rep st prev t -> NoDup (elems t) -> rep st' (Some p) u' ->
  frame (p :: elems u) st st' -> (forall n, st !! p = Some n -> st' !! p = Some (relink sd (ptr u') n)) ->
  ptr t' = ptr t /\ rep st' prev t'.
Proof.
  intros H Hr Hnd Hu' Hf Hp. revert prev Hr Hnd.
  induction H as [s|c|sd a c c' s Hrep IH|sd a c s s' Hrep IH]; cbn; intros prev (Ha & Hc & Hs) [Hna Hnd]%NoDup_cons;
    apply NoDup_app in Hnd as (Hn1 & Hdis & Hn2).
  - rewrite (Hp _ Ha). split; [done|]. split_and!; [done|done|]. eapply rep_frame; [exact Hf| |done].
    intros x Hx Hx'. specialize (Hdis x). set_solver.
  - rewrite (Hp _ Ha). split; [done|]. split_and!; [done| |done]. eapply rep_frame; [exact Hf| |done].
    intros x Hx Hx'. specialize (Hdis x). set_solver.
  - destruct (replace_elems _ _ _ _ _ _ Hrep) as (K & HK & E & _). destruct (IH Hp (Some a) Hc Hn1) as [-> Hc'].
    assert (Hsub : forall x, x ∈ p :: elems u -> x ∈ elems c) by (intros x; rewrite E; set_solver).
    split; [done|]. split_and!; [|done|].
    + rewrite Hf; [done|]. intros ?%Hsub. set_solver.
    + eapply rep_frame; [exact Hf| |done]. intros x Hx Hx'%Hsub. by apply (Hdis x).
  - destruct (replace_elems _ _ _ _ _ _ Hrep) as (K & HK & E & _). destruct (IH Hp (Some a) Hs Hn2) as [-> Hs'].
    assert (Hsub : forall x, x ∈ p :: elems u -> x ∈ elems s) by (intros x; rewrite E; set_solver).
    split; [done|]. split_and!; [| |done].
    + rewrite Hf; [done|]. intros ?%Hsub. set_solver.
    + eapply rep_frame; [exact Hf| |done]. intros x Hx Hx'%Hsub. by apply (Hdis x).
Qed.

(** What [pairingheap_remove] finds at a node that is not the root. *)
Lemma replace_found p n c s u' sd t t' st prev :
  replace p (Nd n c s) u' sd t t' -> rep st prev t -> NoDup (elems t) -> ordered t ->
  rep st (Some p) (Nd n c s) /\ ordered (Nd n c s) /\
  exists np, st !! p = Some np /\ (first_child np = Some n <-> sd = Child).
Proof.
  intros H. revert prev. remember (Nd n c s) as u eqn:Eu.
  induction H as [q|q|sd a c1 c' s1 Hrep IH|sd a c1 s1 s' Hrep IH]; cbn; intros prev (Ha & Hc & Hs) [Hna Hnd]%NoDup_cons Ho;
    apply NoDup_app in Hnd as (Hn1 & Hdis & Hn2).
  - split; [done|]. split; [tauto|]. eexists. split; [done|]. by subst u.
  - split; [done|]. split; [tauto|]. eexists. split; [done|]. split; [|done]. cbn. intros E.
    exfalso. destruct q as [|n' ? ?]; [done|]. injection E as ->. apply (Hdis n); subst u; cbn; set_solver.
  - apply (IH (Some a)); tauto.
  - apply (IH (Some a)); tauto.
Qed.

(** ** Heaps *)

(** The tree [t] holds the nodes [l] of a heap. *)
Record heap_tree (heap : pairingheap) (l : list nat) (t : tree) : Prop := {
  ht_root : ph_root heap = ptr t;
  ht_rep : rep (ph_nodes heap) None t;
  ht_single : match t with Nd _ _ s => s = Leaf | Leaf => True end;
  ht_nodup : NoDup (elems t);
  ht_ordered : ordered t;
  ht_elems : l ≡ₚ elems t;
}.

Definition pairing_ok (heap : pairingheap) (l : list nat) : Prop := exists t, heap_tree heap l t.

Lemma pairing_ok_perm heap l l' : l ≡ₚ l' -> pairing_ok heap l -> pairing_ok heap l'.
Proof. intros HP (t & [? ? ? ? ? HP']). exists t. constructor; try done. by rewrite <- HP. Qed.

(** A heap made from a root and its children. *)
Lemma clear_root_ok D st st' r c :
  NoDup D -> made D st st' r c ->
  exists st'', clear_root r st' = Some st'' /\ pairing_ok (mkHeap st'' (Some r)) D /\ frame D st st''.
Proof.
  intros Hnd [[(nx & pv & Hr) Hc] HD [Ho1 Ho2] Hf]. unfold clear_root, put_prev_or_parent, put_next_sibling.
  rewrite Hr. cbn. rewrite lookup_insert_eq. cbn. rewrite insert_insert_eq. eexists. split; [done|].
  pose proof Hnd as Hnd'. rewrite <- HD in Hnd'. apply NoDup_cons in Hnd' as [Hrc Hnd'].
  match goal with |- pairing_ok (mkHeap ?s _) _ /\ _ => assert (Hf' : frame [r] st' s) end.
  { apply frame_insert. set_solver. }
  split.
  - exists (Nd r c Leaf). constructor; cbn; rewrite ?app_nil_r; try done; [split_and!; [apply lookup_insert_eq| |done]|].
    + eapply rep_frame; [exact Hf'| |done]. set_solver.
    + by constructor.
  - eapply frame_trans; [|exact Hf|exact Hf']. intros x. rewrite <- HD. set_solver.
Qed.

Lemma pairingheap_add_ok heap l node :
  pairing_ok heap l -> node ∉ l -> is_Some (ph_nodes heap !! node) -> (forall x, x ∈ node :: l -> valid x) ->
  exists heap', pairingheap_add ph_compare node heap = Some heap' /\ pairing_ok heap' (node :: l) /\
    frame (node :: l) (ph_nodes heap) (ph_nodes heap').
Proof.
  intros (t & [Hroot Hr Hs Hnd Ho Hl]) Hnew [nn Hn] Hv. unfold pairingheap_add, put_first_child. rewrite Hn, Hroot. cbn.
  set (st := <[node := _]> (ph_nodes heap)).
  assert (Hf : frame [node] (ph_nodes heap) st) by (apply frame_insert; set_solver).
  assert (Hnt : node ∉ elems t) by (by rewrite <- Hl).
  assert (Hsub : subheap st node Leaf) by (split; [eexists _, _; apply lookup_insert_eq|done]).
  assert (Hm : exists r c st', merge ph_compare (ptr t) (Some node) st = Some (Some r, st') /\ made (node :: elems t) st st' r c).
  { destruct t as [|a c s]; [exists node, Leaf, st; split; [done|apply made_refl; [done|apply ordered_leaf]]|]. cbn in Hs, Hr. subst s.
    destruct Hr as (Ha & Hc & _). cbn [elems ptr ordered] in Hl, Hnt, Hnd, Ho |- *. rewrite app_nil_r in *.
    destruct (merge_spec st a c node Leaf) as (r & e & st' & -> & [M1 M2 M3 M4]).
    - apply (subheap_frame [node] (ph_nodes heap)); [done|set_solver|]. split; [by eexists _, _|done].
    - done.
    - assert (HP : a :: elems c ++ node :: elems Leaf ≡ₚ node :: a :: elems c) by (cbn; solve_Permutation).
      rewrite HP. by constructor.
    - cbn. intros x Hx. apply Hv. rewrite Hl. set_solver.
    - split; tauto.
    - apply ordered_leaf.
    - cbn in M2, M4. exists r, e, st'. split; [done|]. split; [done|rewrite M2; solve_Permutation|done|].
      intros x Hx. apply M4. set_solver. }
  destruct Hm as (r & c & st' & -> & Hm). cbn [mbind option_bind].
  destruct (clear_root_ok (node :: elems t) st st' r c) as (st'' & -> & Hok & Hf''); [by constructor|done|].
  cbn [mbind option_bind]. eexists. split; [done|]. split.
  - eapply pairing_ok_perm; [|done]. by rewrite Hl.
  - cbn [ph_nodes]. eapply frame_trans; [|intros x Hx; apply Hf; set_solver|exact Hf'']. intros x. by rewrite Hl.
Qed.

Lemma pairingheap_first_ok heap l :
  pairing_ok heap l ->
  match pairingheap_first heap with
  | Some r => r ∈ l /\ forall x, x ∈ l -> le x r
  | None => l = []
  end.
Proof.
  intros (t & [Hroot _ Hs _ Ho Hl]). unfold pairingheap_first. rewrite Hroot. destruct t as [|a c s]; cbn in *.
  - by apply Permutation_nil_r.
  - subst s. rewrite app_nil_r in Hl. split; [rewrite Hl; set_solver|]. intros x. rewrite Hl, elem_of_cons.
    intros [->|Hx]; [reflexivity|]. by apply Ho.
Qed.

Lemma pairingheap_singular_ok heap l :
  pairing_ok heap l -> pairingheap_is_singular heap = Some (length l =? 1)%nat.
Proof.
  intros (t & [Hroot Hr Hs _ _ Hl]). unfold pairingheap_is_singular. rewrite Hroot.
  rewrite (Permutation_length Hl). destruct t as [|a c s]; cbn in *; [done|]. destruct Hr as (-> & _). cbn. subst s.
  by destruct c.
Qed.

Lemma pairingheap_remove_first_ok heap l r :
  pairing_ok heap l -> ph_root heap = Some r -> (forall x, x ∈ l -> valid x) ->
  exists heap', pairingheap_remove_first ph_compare heap = Some (r, heap') /\
    (forall l', l ≡ₚ r :: l' -> pairing_ok heap' l') /\ frame l (ph_nodes heap) (ph_nodes heap').
Proof.
  intros (t & [Hroot Hr Hs Hnd Ho Hl]) Er Hv. unfold pairingheap_remove_first. rewrite Er. cbn [mbind option_bind].
  rewrite Hroot in Er. destruct t as [|a c s]; [done|]. injection Er as ->. subst s. destruct Hr as (Ha & Hc & _).
  rewrite Ha. cbn [mbind option_bind first_child]. cbn in Hl, Hnd, Ho. rewrite app_nil_r in Hl, Hnd.
  destruct Ho as (_ & Ho & _). apply NoDup_cons in Hnd as [Hrc Hnd].
  assert (HP : forall l', l ≡ₚ r :: l' -> elems c ≡ₚ l').
  { intros l' E. rewrite Hl in E. by apply Permutation_cons_inv in E. }
  destruct c as [|b c' s']; cbn [ptr].
  - cbn. eexists. split; [done|]. split; [|apply frame_refl]. intros l' E%HP. apply Permutation_nil in E as ->.
    exists Leaf. constructor; (done || constructor).
  - destruct (merge_children_spec (ph_nodes heap) (Some r) b c' s') as (r' & e & st' & -> & Hm);
      [done|done|intros x Hx; apply Hv; rewrite Hl; set_solver|done|]. cbn [mbind option_bind].
    destruct (clear_root_ok _ _ _ _ _ Hnd Hm) as (st'' & -> & Hok & Hf). cbn [mbind option_bind]. eexists. split; [done|].
    split; [intros l' E%HP; by eapply pairing_ok_perm|]. intros x Hx. apply Hf. rewrite Hl in Hx. set_solver.
Qed.

(** The link to a removed node is redirected to [v], and the following
    siblings get [w] as their predecessor. *)
Lemma redirect_ok st p np n sd v s pv w :
  st !! p = Some np -> (first_child np = Some n <-> sd = Child) -> rep st pv s -> p ∉ elems s -> NoDup (elems s) ->
  exists st1 st2,
    (if decide (first_child np = Some n) then put_first_child p v st else put_next_sibling p v st) = Some st1 /\
    put_prev_if (ptr s) w st1 = Some st2 /\ st2 !! p = Some (relink sd v np) /\ rep st2 w s /\
    frame (p :: elems s) st st2.
Proof.
  intros Hp Hside Hs Hps Hnd.
  exists (<[p := relink sd v np]> st).
  assert (Hf : frame [p] st (<[p := relink sd v np]> st)) by (apply frame_insert; set_solver).
  destruct (put_prev_rep (<[p := relink sd v np]> st) pv s w) as (st2 & E & Hs2 & Hf2); [|done|].
  { eapply rep_frame; [exact Hf| |done]. set_solver. }
  assert (Hin : forall x, x ∈ option_list (ptr s) -> x ∈ elems s) by (destruct s; cbn; set_solver).
  exists st2. split_and!; [|done| |done|].
  - unfold put_first_child, put_next_sibling. rewrite Hp. destruct (decide _) as [Hd|Hd].
    + apply Hside in Hd as ->. done.
    + destruct sd; [by destruct Hd; apply Hside|done].
  - rewrite Hf2 by (intros ?%Hin; set_solver). apply lookup_insert_eq.
  - eapply frame_trans; [|intros x Hx; apply Hf; set_solver|intros x Hx; apply Hf2; intros ?%Hin; by apply Hx]. set_solver.
Qed.

(** The heap after the part of [n] was linked again without [n]. *)
Lemma relinked_ok heap l t t' n c s u' p sd np st' :
  heap_tree heap l t -> replace p (Nd n c s) u' sd t t' ->
  ph_nodes heap !! p = Some np -> st' !! p = Some (relink sd (ptr u') np) -> rep st' (Some p) u' ->
  frame (p :: elems (Nd n c s)) (ph_nodes heap) st' -> n :: elems u' ≡ₚ elems (Nd n c s) -> ordered u' ->
  (forall l', l ≡ₚ n :: l' -> pairing_ok (mkHeap st' (ph_root heap)) l') /\ frame l (ph_nodes heap) st'.
Proof.
  intros [Hroot Hr Hs Hnd Ho Hl] Ht Hp Hp' Hu' Hf HP Hou.
  destruct (replace_rep _ _ _ _ _ _ _ st' None Ht Hr Hnd Hu' Hf) as [Hptr Hr'].
  { intros n' Hn'. rewrite Hp in Hn'. by injection Hn' as <-. }
  destruct (replace_elems _ _ _ _ _ _ Ht) as (K & HK & E & E').
  assert (HE : elems t ≡ₚ n :: elems t') by (rewrite E, E', <- HP; done).
  split.
  - intros l' Hl'. exists t'. constructor.
    + cbn. by rewrite Hroot.
    + done.
    + destruct Ht; cbn in *; try done. subst. inversion Ht.
    + rewrite HE in Hnd. by apply NoDup_cons in Hnd as [_ ?].
    + eapply replace_ordered; [done| |done|done]. intros x Hx. rewrite <- HP. set_solver.
    + apply (Permutation_cons_inv (a := n)). by rewrite <- Hl', <- HE.
  - intros x Hx. apply Hf. intros Hin. apply Hx. rewrite Hl, E. set_solver.
Qed.

(** Removal of a node that is not the root and has no children. *)
Lemma remove_childless heap l t t' n s p sd np :
  heap_tree heap l t -> replace p (Nd n Leaf s) s sd t t' -> rep (ph_nodes heap) (Some p) (Nd n Leaf s) ->
  ph_nodes heap !! p = Some np -> (first_child np = Some n <-> sd = Child) ->
  exists st1 st2,
    (if decide (first_child np = Some n) then put_first_child p (ptr s) (ph_nodes heap)
     else put_next_sibling p (ptr s) (ph_nodes heap)) = Some st1 /\
    put_prev_if (ptr s) (Some p) st1 = Some st2 /\
    (forall l', l ≡ₚ n :: l' -> pairing_ok (mkHeap st2 (ph_root heap)) l') /\ frame l (ph_nodes heap) st2.
Proof.
  intros Ht Hrep (_ & _ & Hs) Hp Hside. destruct (replace_elems _ _ _ _ _ _ Hrep) as (K & HK & E & _).
  pose proof (ht_nodup _ _ _ Ht) as Hnd. rewrite E in Hnd. cbn in Hnd. apply NoDup_cons in Hnd as [Hn Hnd].
  apply NoDup_app in Hnd as (Hns & Hdis & _). 
  destruct (redirect_ok (ph_nodes heap) p np n sd (ptr s) s (Some n) (Some p)) as (st1 & st2 & E1 & E2 & Hp2 & Hs2 & Hf);
    [done|done|done|intros ?; by apply (Hdis p)|done|].
  exists st1, st2. split; [done|]. split; [done|]. eapply relinked_ok; try done.
  - intros x Hx. apply Hf. cbn in Hx. set_solver.
  - destruct (replace_found _ _ _ _ _ _ _ _ _ _ Hrep (ht_rep _ _ _ Ht) (ht_nodup _ _ _ Ht) (ht_ordered _ _ _ Ht)) as (_ & Ho & _).
    cbn in Ho. tauto.
Qed.

(** Removal of a node that is not the root and has children: they are merged
    and take its place. *)
Lemma remove_with_children heap l t n b cb sb s p sd np :
  let c := Nd b cb sb in
  heap_tree heap l t -> (forall u', exists t', replace p (Nd n c s) u' sd t t') ->
  rep (ph_nodes heap) (Some p) (Nd n c s) -> ordered (Nd n c s) -> (forall x, x ∈ l -> valid x) ->
  ph_nodes heap !! p = Some np -> (first_child np = Some n <-> sd = Child) ->
  exists r st0 st1 st2 st3 st4,
    merge_children ph_compare (Some b) (ph_nodes heap) = Some (Some r, st0) /\
    put_prev_or_parent r (Some p) st0 = Some st1 /\ put_next_sibling r (ptr s) st1 = Some st2 /\
    (if decide (first_child np = Some n) then put_first_child p (Some r) st2
     else put_next_sibling p (Some r) st2) = Some st3 /\
    put_prev_if (ptr s) (Some r) st3 = Some st4 /\
    (forall l', l ≡ₚ n :: l' -> pairing_ok (mkHeap st4 (ph_root heap)) l') /\ frame l (ph_nodes heap) st4.
Proof.
  intros c Ht Hrep (_ & Hc & Hs) (Ho1 & Ho2 & Ho3) Hv Hp Hside.
  destruct (Hrep Leaf) as [t0 Hrep0]. destruct (replace_elems _ _ _ _ _ _ Hrep0) as (K & HK & E & _).
  pose proof (ht_nodup _ _ _ Ht) as Hnd. rewrite E in Hnd. cbn [elems] in Hnd.
  apply NoDup_app in Hnd as ([Hn Hncs]%NoDup_cons & Hdis & _). apply NoDup_app in Hncs as (Hnc & Hcs & Hns).
  assert (Hpc : p ∉ n :: elems c ++ elems s) by (intros ?; by apply (Hdis p)).
  destruct (merge_children_spec (ph_nodes heap) (Some n) b cb sb) as (r & e & st0 & Em & [[(nx & pv & Hr) He] HD [Ho4 Ho5] Hf0]);
    [done|done| |done|].
  { intros x Hx. apply Hv. rewrite (ht_elems _ _ _ Ht), E. set_solver. }
  change (elems (Nd b cb sb)) with (elems c) in *.
  set (st2 := <[r := mkNode (ptr e) (ptr s) (Some p)]> st0).
  assert (Hrc : r ∈ elems c) by (rewrite <- HD; set_solver).
  assert (Hf2 : frame [r] st0 st2) by (apply frame_insert; set_solver).
  rewrite <- HD in Hnc. apply NoDup_cons in Hnc as [Hre _].
  destruct (redirect_ok st2 p np n sd (Some r) s (Some n) (Some r)) as (st3 & st4 & E3 & E4 & Hp4 & Hs4 & Hf4);
    [rewrite Hf2, Hf0 by set_solver; done|done| |set_solver|done|].
  { eapply rep_frame; [exact Hf2|set_solver|]. eapply rep_frame; [exact Hf0|set_solver|done]. }
  exists r, st0. eexists. exists st2, st3, st4. split; [done|]. unfold put_prev_or_parent, put_next_sibling at 1. rewrite Hr. cbn.
  split; [done|]. rewrite lookup_insert_eq. cbn. rewrite insert_insert_eq. split; [done|]. split; [done|]. split; [done|].
  destruct (Hrep (Nd r e s)) as [t' Ht'].
  assert (Hse : forall x, x ∈ r :: elems e -> x ∉ elems s) by (intros x; rewrite HD; apply Hcs).
  eapply (relinked_ok heap l t t' n c s (Nd r e s)); try done.
  - cbn. split; [rewrite Hf4; [apply lookup_insert_eq|set_solver]|]. split; [|done].
    eapply rep_frame; [exact Hf4| |eapply rep_frame; [exact Hf2| |done]]; [|set_solver].
    intros x Hx. assert (x ∈ elems c) by (rewrite <- HD; set_solver). set_solver.
  - intros x Hx. cbn [elems] in Hx. rewrite Hf4, Hf2, Hf0 by set_solver. done.
  - cbn. by rewrite (app_comm_cons (elems e)), HD.
Qed.

Lemma pairingheap_remove_ok heap l n :
  pairing_ok heap l -> n ∈ l -> (forall x, x ∈ l -> valid x) ->
  exists heap', pairingheap_remove ph_compare n heap = Some heap' /\
    (forall l', l ≡ₚ n :: l' -> pairing_ok heap' l') /\ frame l (ph_nodes heap) (ph_nodes heap').
Proof.
  intros Hok Hn Hv. unfold pairingheap_remove. destruct (decide (ph_root heap = Some n)) as [Hroot|Hroot].
  { destruct (pairingheap_remove_first_ok heap l n Hok Hroot Hv) as (heap' & -> & H). by exists heap'. }
  destruct Hok as [t Ht]. rewrite (ht_root _ _ _ Ht) in Hroot. rewrite (ht_elems _ _ _ Ht) in Hn.
  destruct (replace_exists t n Hn Hroot) as (p & c & s & sd & Hrep). destruct (Hrep s) as [t' Ht'].
  destruct (replace_found _ _ _ _ _ _ _ _ _ _ Ht' (ht_rep _ _ _ Ht) (ht_nodup _ _ _ Ht) (ht_ordered _ _ _ Ht))
    as (Hr & Ho & np & Hp & Hside).
  pose proof Hr as (Hnode & _). rewrite Hnode. cbn [mbind option_bind prev_or_parent]. rewrite Hp.
  cbn [mbind option_bind first_child next_sibling]. destruct c as [|b cb sb]; cbn [ptr].
  - destruct (remove_childless heap l t t' n s p sd np Ht Ht' Hr Hp Hside) as (st1 & st2 & -> & E & H).
    cbn [mbind option_bind]. rewrite E. cbn. by eexists.
  - destruct (remove_with_children heap l t n b cb sb s p sd np Ht Hrep Hr Ho Hv Hp Hside)
      as (r & st0 & st1 & st2 & st3 & st4 & -> & E1 & E2 & E3 & E4 & H).
    cbn [mbind option_bind]. rewrite E1. cbn [mbind option_bind]. rewrite E2. cbn [mbind option_bind].
    rewrite E3. cbn [mbind option_bind]. rewrite E4. by eexists.
Qed.
End Order.

Arguments pairing_ok le heap l : assert.

(** C16. Pairing heaps are priority queues, at the level of their links.  On a heap
    that holds the nodes [l], no operation follows a stray pointer; the first
    node has no node before it; adding a node, removing the first and removing
    any node do what they say and leave a heap again, whose links, in both
    directions, are those of a heap-ordered tree; other nodes in memory are not
    touched. *)
Theorem pairingheap_refines (ph_compare : nat -> nat -> option Z) (valid : nat -> Prop) (le : relation nat)
    (HC : Comparator ph_compare valid le) (heap : pairingheap) (l : list nat) :
  pairing_ok le heap l -> (forall x, x ∈ l -> valid x) ->
  (match pairingheap_first heap with Some r => r ∈ l /\ forall x, x ∈ l -> le x r | None => l = [] end) /\
  (forall n, n ∉ l -> is_Some (ph_nodes heap !! n) -> valid n ->
     exists heap', pairingheap_add ph_compare n heap = Some heap' /\ pairing_ok le heap' (n :: l) /\
       frame (n :: l) (ph_nodes heap) (ph_nodes heap')) /\
  (forall n, n ∈ l -> exists heap', pairingheap_remove ph_compare n heap = Some heap' /\
     (forall l', l ≡ₚ n :: l' -> pairing_ok le heap' l') /\ frame l (ph_nodes heap) (ph_nodes heap')) /\
  (forall r, pairingheap_first heap = Some r ->
     exists heap', pairingheap_remove_first ph_compare heap = Some (r, heap') /\
       (forall l', l ≡ₚ r :: l' -> pairing_ok le heap' l') /\ frame l (ph_nodes heap) (ph_nodes heap')) /\
  pairingheap_is_empty heap = (length l =? 0)%nat /\ pairingheap_is_singular heap = Some (length l =? 1)%nat.
Proof.
  intros Hok Hv. pose proof (pairingheap_first_ok ph_compare valid le heap l Hok) as Hfirst. split_and!.
  - done.
  - intros n Hn Hs Hvn. eapply pairingheap_add_ok; [done..|]. intros x [->|Hx]%elem_of_cons; auto.
  - intros n Hn. by eapply pairingheap_remove_ok.
  - intros r Hr. by eapply pairingheap_remove_first_ok.
  - unfold pairingheap_is_empty. unfold pairingheap_first in Hfirst. destruct (ph_root heap); [|by subst].
    destruct Hfirst as [Hin _]. by destruct l; [apply not_elem_of_nil in Hin|].
  - by eapply pairingheap_singular_ok.
Qed.

(** A heap of five nodes, the greatest first. *)
Definition ex_compare (a b : nat) : option Z := Some (Z.of_nat a - Z.of_nat b).

#[export] Instance ex_comparator : Comparator ex_compare (fun _ => True) le.
Proof.
  split; [apply _|]. intros a b _ _. eexists. split; [done|]. destruct (Z.ltb_spec (Z.of_nat a - Z.of_nat b) 0); lia.
Qed.

Definition ex_nodes : Nodes := list_to_map ((fun n => (n, mkNode None None None)) <$> [1; 2; 3; 4; 5]%nat).

Definition ex_heap : option pairingheap :=
  foldr (fun n h => h ≫= pairingheap_add ex_compare n) (Some (mkHeap ex_nodes None)) [2; 5; 1; 4; 3]%nat.

Definition ex_tree : tree := Nd 5 (Nd 2 Leaf (Nd 4 (Nd 1 Leaf (Nd 3 Leaf Leaf)) Leaf)) Leaf.

Lemma ex_heap_tree : exists h, ex_heap = Some h /\ heap_tree le h [1; 2; 3; 4; 5]%nat ex_tree.
Proof.
  eexists. split; [vm_compute; reflexivity|]. constructor; cbn [ph_nodes ph_root].
  - reflexivity.
  - cbn. split_and!; done.
  - done.
  - by apply (bool_decide_eq_true_1 (NoDup (elems ex_tree))).
  - cbn. split_and!; try done; intros x; rewrite ?elem_of_cons, ?elem_of_nil; naive_solver lia.
  - cbn. solve_Permutation.
Qed.

Lemma pairingheap_refines_witness :
  exists h, ex_heap = Some h /\ pairingheap_first h = Some 5%nat /\
    exists h', pairingheap_remove ex_compare 4 h = Some h' /\ pairing_ok le h' [1; 2; 3; 5]%nat.
Proof.
  destruct ex_heap_tree as (h & E & Ht). exists h. split; [exact E|]. split; [exact (ht_root _ _ _ _ Ht)|].
  destruct (pairingheap_refines ex_compare (fun _ => True) le ex_comparator h [1; 2; 3; 4; 5]%nat (ex_intro _ ex_tree Ht)
    (fun _ _ => I)) as (_ & _ & Hrem & _).
  destruct (Hrem 4%nat) as (h' & E' & Hok & _); [by apply (bool_decide_eq_true_1 (4 ∈ [1; 2; 3; 4; 5])%nat)|].
  exists h'. split; [exact E'|]. apply Hok. solve_Permutation.
Defined.
