(* ===== verification/SnapMgr.v ===== *)
(** * SnapMgr: the snapshots of a backend

    Models src/backend/utils/time/snapmgr.c: the static snapshots, the stack
    of active snapshots, the registered snapshots in their pairing heap, the
    reference counts that decide when a copy is freed, and the advertised xmin
    that they hold back; with the snapshot references of resource owners
    (src/backend/utils/resowner/resowner.c).

    A [Snapshot] pointer is an address; copies are allocated at addresses that
    are not used again, so that an access to a freed snapshot is visible, as
    [Undefined].  A failed [Assert] is [Undefined] too.
    An [elog(ERROR)] is [Raised], with the state at that point.

    What other backends do while a snapshot is taken is part of the
    environment: [scan] gives the memories seen by a scan from the memory at
    the time the lock is requested.  [GetSerializableTransactionSnapshot]
    (predicate.c) gets its snapshot from [GetSnapshotData] and is not modelled
    further. *)

From S2P Require Import Prelude TransactionId KnownXids HeapTuple ProcArray ProcScan ProcReaders PairingHeap.

Record SnapObj := mkSnapObj {
  so_snap : Snapshot;
  copied : bool;
  active_count : Z;
  regd_count : Z;
  lsn : Z;
}.

Record ActiveSnapshotElt := mkActive {
  as_snap : nat;
  as_level : Z;
}.

Record ExportedSnapshot := mkExported {
  snapfile : string;
  es_snapshot : nat;
}.

(** [objs] is the memory of snapshots, apart from their heap links, which
    are in [RegisteredSnapshots]; [owners] the snapshot references held by
    resource owners, as pairs of owner and snapshot; [pg_snapshots] the directory of exported files; [local]
    and [shared] the variables and the memory of procarray.c. *)
Record SnapMgr := mkSnapMgr {
  objs : gmap nat SnapObj;
  next_addr : nat;
  RegisteredSnapshots : pairingheap;
  CurrentSnapshot : option nat;
  SecondarySnapshot : option nat;
  CatalogSnapshot : option nat;
  HistoricSnapshot : option nat;
  FirstXactSnapshot : option nat;
  ActiveSnapshot : list ActiveSnapshotElt;
  OldestActiveSnapshot : option nat;
  FirstSnapshotSet : bool;
  exportedSnapshots : list ExportedSnapshot;
  owners : list (nat * nat);
  pg_snapshots : gmap string string;
  local : ProcLocal;
  shared : ProcShared;
}.

(** The static snapshots. *)
Definition CurrentSnapshotData : nat := 0.
Definition SecondarySnapshotData : nat := 1.
Definition CatalogSnapshotData : nat := 2.

(** The state at the start of a backend. *)
Definition static_snapshot : SnapObj := mkSnapObj (mkSnap (mkSnapshot SNAPSHOT_MVCC 0 0 [] [] false false 0 0) 0) false 0 0 0.
Definition snapmgr_init (dir : gmap string string) (l : ProcLocal) (sh : ProcShared) : SnapMgr :=
  mkSnapMgr
    (<[CurrentSnapshotData := static_snapshot]>
      (<[SecondarySnapshotData := static_snapshot]> {[CatalogSnapshotData := static_snapshot]}))
    3
    (mkHeap (<[CurrentSnapshotData := mkNode None None None]>
              (<[SecondarySnapshotData := mkNode None None None]> {[CatalogSnapshotData := mkNode None None None]})) None)
    None None None None None [] None false [] [] dir l sh.

Definition XACT_READ_COMMITTED : Z := 1.
Definition XACT_REPEATABLE_READ : Z := 2.
Definition XACT_SERIALIZABLE : Z := 3.

Record SnapEnv := mkSnapEnv {
  scan : nat -> ProcShared -> (nat -> ProcShared) * ProcShared;
  RecoveryInProgress : bool;
  CurrentCommandId : CommandId;
  IsInParallelMode : bool;
  XactIsoLevel : Z;
  InsertRecPtr : Z;
}.

Definition IsolationUsesXactSnapshot (e : SnapEnv) : bool := XACT_REPEATABLE_READ <=? XactIsoLevel e.
Definition IsolationIsSerializable (e : SnapEnv) : bool := XactIsoLevel e =? XACT_SERIALIZABLE.

(** ** A state and error monad *)

Inductive outcome (A : Type) :=
| Done (a : A) (s : SnapMgr)
| Raised (s : SnapMgr)
| Undefined.
Arguments Done {_} _ _ : assert.
Arguments Raised {_} _ : assert.
Arguments Undefined {_} : assert.

Definition SM (A : Type) : Type := SnapMgr -> outcome A.

#[export] Instance sm_ret : MRet SM := fun A a s => Done a s.
#[export] Instance sm_bind : MBind SM := fun A B k m s =>
  match m s with Done a s => k a s | Raised s => Raised s | Undefined => Undefined end.

Definition raise {A} : SM A := fun s => Raised s.
Definition undefined {A} : SM A := fun _ => Undefined.
Definition sget : SM SnapMgr := fun s => Done s s.
Definition supd (f : SnapMgr -> SnapMgr) : SM unit := fun s => Done tt (f s).
Definition lift {A} (x : option A) : SM A := match x with Some a => mret a | None => undefined end.
Definition insist (b : bool) : SM unit := if b then mret tt else undefined.
Definition when (b : bool) (m : SM unit) : SM unit := if b then m else mret tt.

(** ** Assignments *)

Definition set_objs (f : gmap nat SnapObj -> gmap nat SnapObj) (s : SnapMgr) : SnapMgr :=
  mkSnapMgr (f (objs s)) (next_addr s) (RegisteredSnapshots s) (CurrentSnapshot s) (SecondarySnapshot s) (CatalogSnapshot s)
    (HistoricSnapshot s) (FirstXactSnapshot s) (ActiveSnapshot s) (OldestActiveSnapshot s) (FirstSnapshotSet s)
    (exportedSnapshots s) (owners s) (pg_snapshots s) (local s) (shared s).
Definition set_heap (h : pairingheap) (s : SnapMgr) : SnapMgr :=
  mkSnapMgr (objs s) (next_addr s) h (CurrentSnapshot s) (SecondarySnapshot s) (CatalogSnapshot s)
    (HistoricSnapshot s) (FirstXactSnapshot s) (ActiveSnapshot s) (OldestActiveSnapshot s) (FirstSnapshotSet s)
    (exportedSnapshots s) (owners s) (pg_snapshots s) (local s) (shared s).
Definition set_next (n : nat) (s : SnapMgr) : SnapMgr :=
  mkSnapMgr (objs s) n (RegisteredSnapshots s) (CurrentSnapshot s) (SecondarySnapshot s) (CatalogSnapshot s)
    (HistoricSnapshot s) (FirstXactSnapshot s) (ActiveSnapshot s) (OldestActiveSnapshot s) (FirstSnapshotSet s)
    (exportedSnapshots s) (owners s) (pg_snapshots s) (local s) (shared s).
Definition set_CurrentSnapshot (v : option nat) (s : SnapMgr) : SnapMgr :=
  mkSnapMgr (objs s) (next_addr s) (RegisteredSnapshots s) v (SecondarySnapshot s) (CatalogSnapshot s)
    (HistoricSnapshot s) (FirstXactSnapshot s) (ActiveSnapshot s) (OldestActiveSnapshot s) (FirstSnapshotSet s)
    (exportedSnapshots s) (owners s) (pg_snapshots s) (local s) (shared s).
Definition set_SecondarySnapshot (v : option nat) (s : SnapMgr) : SnapMgr :=
  mkSnapMgr (objs s) (next_addr s) (RegisteredSnapshots s) (CurrentSnapshot s) v (CatalogSnapshot s)
    (HistoricSnapshot s) (FirstXactSnapshot s) (ActiveSnapshot s) (OldestActiveSnapshot s) (FirstSnapshotSet s)
    (exportedSnapshots s) (owners s) (pg_snapshots s) (local s) (shared s).
Definition set_CatalogSnapshot (v : option nat) (s : SnapMgr) : SnapMgr :=
  mkSnapMgr (objs s) (next_addr s) (RegisteredSnapshots s) (CurrentSnapshot s) (SecondarySnapshot s) v
    (HistoricSnapshot s) (FirstXactSnapshot s) (ActiveSnapshot s) (OldestActiveSnapshot s) (FirstSnapshotSet s)
    (exportedSnapshots s) (owners s) (pg_snapshots s) (local s) (shared s).
Definition set_HistoricSnapshot (v : option nat) (s : SnapMgr) : SnapMgr :=
  mkSnapMgr (objs s) (next_addr s) (RegisteredSnapshots s) (CurrentSnapshot s) (SecondarySnapshot s) (CatalogSnapshot s)
    v (FirstXactSnapshot s) (ActiveSnapshot s) (OldestActiveSnapshot s) (FirstSnapshotSet s)
    (exportedSnapshots s) (owners s) (pg_snapshots s) (local s) (shared s).
Definition set_FirstXactSnapshot (v : option nat) (s : SnapMgr) : SnapMgr :=
  mkSnapMgr (objs s) (next_addr s) (RegisteredSnapshots s) (CurrentSnapshot s) (SecondarySnapshot s) (CatalogSnapshot s)
    (HistoricSnapshot s) v (ActiveSnapshot s) (OldestActiveSnapshot s) (FirstSnapshotSet s)
    (exportedSnapshots s) (owners s) (pg_snapshots s) (local s) (shared s).
Definition set_active (l : list ActiveSnapshotElt) (oldest : option nat) (s : SnapMgr) : SnapMgr :=
  mkSnapMgr (objs s) (next_addr s) (RegisteredSnapshots s) (CurrentSnapshot s) (SecondarySnapshot s) (CatalogSnapshot s)
    (HistoricSnapshot s) (FirstXactSnapshot s) l oldest (FirstSnapshotSet s)
    (exportedSnapshots s) (owners s) (pg_snapshots s) (local s) (shared s).
Definition set_FirstSnapshotSet (b : bool) (s : SnapMgr) : SnapMgr :=
  mkSnapMgr (objs s) (next_addr s) (RegisteredSnapshots s) (CurrentSnapshot s) (SecondarySnapshot s) (CatalogSnapshot s)
    (HistoricSnapshot s) (FirstXactSnapshot s) (ActiveSnapshot s) (OldestActiveSnapshot s) b
    (exportedSnapshots s) (owners s) (pg_snapshots s) (local s) (shared s).
Definition set_exported (l : list ExportedSnapshot) (dir : gmap string string) (s : SnapMgr) : SnapMgr :=
  mkSnapMgr (objs s) (next_addr s) (RegisteredSnapshots s) (CurrentSnapshot s) (SecondarySnapshot s) (CatalogSnapshot s)
    (HistoricSnapshot s) (FirstXactSnapshot s) (ActiveSnapshot s) (OldestActiveSnapshot s) (FirstSnapshotSet s)
    l (owners s) dir (local s) (shared s).
Definition set_owners (l : list (nat * nat)) (s : SnapMgr) : SnapMgr :=
  mkSnapMgr (objs s) (next_addr s) (RegisteredSnapshots s) (CurrentSnapshot s) (SecondarySnapshot s) (CatalogSnapshot s)
    (HistoricSnapshot s) (FirstXactSnapshot s) (ActiveSnapshot s) (OldestActiveSnapshot s) (FirstSnapshotSet s)
    (exportedSnapshots s) l (pg_snapshots s) (local s) (shared s).
Definition set_procs (l : ProcLocal) (sh : ProcShared) (s : SnapMgr) : SnapMgr :=
  mkSnapMgr (objs s) (next_addr s) (RegisteredSnapshots s) (CurrentSnapshot s) (SecondarySnapshot s) (CatalogSnapshot s)
    (HistoricSnapshot s) (FirstXactSnapshot s) (ActiveSnapshot s) (OldestActiveSnapshot s) (FirstSnapshotSet s)
    (exportedSnapshots s) (owners s) (pg_snapshots s) l sh.

(** ** Memory *)

Definition obj (a : nat) : SM SnapObj := s ← sget; lift (objs s !! a).
Definition put_obj (a : nat) (o : SnapObj) : SM unit := supd (set_objs <[a := o]>).

Definition upd_active_count (d : Z) (a : nat) : SM unit :=
  o ← obj a; put_obj a (mkSnapObj (so_snap o) (copied o) (u32 (active_count o + d)) (regd_count o) (lsn o)).
Definition upd_regd_count (d : Z) (a : nat) : SM unit :=
  o ← obj a; put_obj a (mkSnapObj (so_snap o) (copied o) (active_count o) (u32 (regd_count o + d)) (lsn o)).

(** What a copy keeps of the contents. *)
Definition copied_data (sn : SnapshotData) : SnapshotData :=
  mkSnapshot (snapshot_type sn) (snap_xmin sn) (snap_xmax sn) (xip sn)
    (if negb (suboverflowed sn) || takenDuringRecovery sn then subxip sn else [])
    (suboverflowed sn) (takenDuringRecovery sn) (curcid sn) (speculativeToken sn).

Definition CopySnapshot (a : nat) : SM nat :=
  o ← obj a;
  s ← sget;
  n ← lift (ph_nodes (RegisteredSnapshots s) !! a);
  let new := next_addr s in
  let h := RegisteredSnapshots s in
  supd (set_next (S new));;
  put_obj new (mkSnapObj (mkSnap (copied_data (snap (so_snap o))) 0) true 0 0 (lsn o));;
  supd (set_heap (mkHeap (<[new := n]> (ph_nodes h)) (ph_root h)));;
  mret new.

Definition FreeSnapshot (a : nat) : SM unit :=
  o ← obj a;
  insist ((regd_count o =? 0) && (active_count o =? 0) && copied o);;
  s ← sget;
  let h := RegisteredSnapshots s in
  supd (set_objs (delete a));;
  supd (set_heap (mkHeap (delete a (ph_nodes h)) (ph_root h))).

(** ** The registered snapshots and the advertised xmin *)

Definition xmin_cmp (m : gmap nat SnapObj) (a b : nat) : option Z :=
  asnap ← m !! a;
  bsnap ← m !! b;
  let axmin := snap_xmin (snap (so_snap asnap)) in
  let bxmin := snap_xmin (snap (so_snap bsnap)) in
  Some (if TransactionIdPrecedes axmin bxmin then 1 else if TransactionIdFollows axmin bxmin then -1 else 0).

Definition heap_add (a : nat) : SM unit :=
  s ← sget; h ← lift (pairingheap_add (xmin_cmp (objs s)) a (RegisteredSnapshots s)); supd (set_heap h).
Definition heap_remove (a : nat) : SM unit :=
  s ← sget; h ← lift (pairingheap_remove (xmin_cmp (objs s)) a (RegisteredSnapshots s)); supd (set_heap h).

(** [MyProc->xmin] *)
Definition MyProc_xmin (s : SnapMgr) : TransactionId := pr_xmin (proc (shared s) (MyProcNo (local s))).
Definition set_MyProc_xmin (x : TransactionId) : SM unit :=
  supd (fun s => set_procs (local s) (upd_proc (MyProcNo (local s)) (set_xmin x) (shared s)) s).

Definition SnapshotResetXmin : SM unit :=
  s ← sget;
  match ActiveSnapshot s with
  | _ :: _ => mret tt
  | [] =>
      if pairingheap_is_empty (RegisteredSnapshots s) then set_MyProc_xmin InvalidTransactionId
      else
        a ← lift (pairingheap_first (RegisteredSnapshots s));
        minSnapshot ← obj a;
        let xmin := snap_xmin (snap (so_snap minSnapshot)) in
        when (TransactionIdPrecedes (MyProc_xmin s) xmin) (set_MyProc_xmin xmin)
  end.

(** [GetSnapshotData(a)] of procarray.c, with the bookkeeping fields it
    resets; [k] counts the scans of the calling operation. *)
Definition take_snapshot (e : SnapEnv) (k : nat) (a : nat) : SM unit :=
  o ← obj a;
  s ← sget;
  let '(m, last) := scan e k (shared s) in
  let '(sn, sh, l) := GetSnapshotData (RecoveryInProgress e) (CurrentCommandId e) m last (so_snap o) (local s) in
  supd (set_procs l sh);;
  put_obj a (mkSnapObj sn false 0 0 (InsertRecPtr e)).

Definition InvalidateCatalogSnapshot : SM unit :=
  s ← sget;
  match CatalogSnapshot s with
  | Some a => heap_remove a;; supd (set_CatalogSnapshot None);; SnapshotResetXmin
  | None => mret tt
  end.

Definition InvalidateCatalogSnapshotConditionally : SM unit :=
  s ← sget;
  match CatalogSnapshot s, ActiveSnapshot s with
  | Some _, [] =>
      b ← lift (pairingheap_is_singular (RegisteredSnapshots s));
      when b InvalidateCatalogSnapshot
  | _, _ => mret tt
  end.

(** [Assert(pairingheap_is_empty(&RegisteredSnapshots)); Assert(FirstXactSnapshot == NULL)] *)
Definition assert_no_snapshots : SM unit :=
  s ← sget;
  insist (pairingheap_is_empty (RegisteredSnapshots s) && negb (bool_decide (is_Some (FirstXactSnapshot s)))).

(** The transaction snapshot of the stronger isolation levels: a copy that is
    registered until the end of the transaction. *)
Definition keep_transaction_snapshot : SM nat :=
  c ← CopySnapshot CurrentSnapshotData;
  supd (set_CurrentSnapshot (Some c));;
  supd (set_FirstXactSnapshot (Some c));;
  upd_regd_count 1 c;;
  heap_add c;;
  mret c.

Definition GetTransactionSnapshot (e : SnapEnv) : SM nat :=
  s ← sget;
  match HistoricSnapshot s with
  | Some h => insist (negb (FirstSnapshotSet s));; mret h
  | None =>
      if negb (FirstSnapshotSet s) then
        InvalidateCatalogSnapshot;;
        assert_no_snapshots;;
        if IsInParallelMode e then raise
        else
          take_snapshot e 0 CurrentSnapshotData;;
          c ← (if IsolationUsesXactSnapshot e then keep_transaction_snapshot
               else supd (set_CurrentSnapshot (Some CurrentSnapshotData));; mret CurrentSnapshotData);
          supd (set_FirstSnapshotSet true);;
          mret c
      else if IsolationUsesXactSnapshot e then lift (CurrentSnapshot s)
      else
        InvalidateCatalogSnapshot;;
        take_snapshot e 0 CurrentSnapshotData;;
        supd (set_CurrentSnapshot (Some CurrentSnapshotData));;
        mret CurrentSnapshotData
  end.

Definition GetLatestSnapshot (e : SnapEnv) : SM nat :=
  if IsInParallelMode e then raise
  else
    s ← sget;
    if negb (FirstSnapshotSet s) then GetTransactionSnapshot e
    else
      take_snapshot e 0 SecondarySnapshotData;;
      supd (set_SecondarySnapshot (Some SecondarySnapshotData));;
      mret SecondarySnapshotData.

Definition GetOldestSnapshot : SM (option nat) :=
  s ← sget;
  reg ← (if pairingheap_is_empty (RegisteredSnapshots s) then mret None
         else a ← lift (pairingheap_first (RegisteredSnapshots s)); o ← obj a; mret (Some (a, lsn o)));
  match OldestActiveSnapshot s with
  | Some a =>
      o ← obj a;
      let RegisteredLSN := from_option snd 0 reg in
      mret (if (RegisteredLSN =? 0) || (lsn o <? RegisteredLSN) then Some a else fst <$> reg)
  | None => mret (fst <$> reg)
  end.

(** [RelationInvalidatesSnapshotsOnly] and [RelationHasSysCache] of the
    scanned catalog are arguments. *)
Definition GetNonHistoricCatalogSnapshot (invalidates_only has_syscache : bool) (e : SnapEnv) : SM nat :=
  s ← sget;
  when (bool_decide (is_Some (CatalogSnapshot s)) && negb invalidates_only && negb has_syscache) InvalidateCatalogSnapshot;;
  s ← sget;
  match CatalogSnapshot s with
  | Some a => mret a
  | None =>
      take_snapshot e 0 CatalogSnapshotData;;
      supd (set_CatalogSnapshot (Some CatalogSnapshotData));;
      heap_add CatalogSnapshotData;;
      mret CatalogSnapshotData
  end.

Definition GetCatalogSnapshot (invalidates_only has_syscache : bool) (e : SnapEnv) : SM nat :=
  s ← sget;
  match HistoricSnapshot s with
  | Some h => mret h
  | None => GetNonHistoricCatalogSnapshot invalidates_only has_syscache e
  end.

Definition set_obj_curcid (cid : CommandId) (a : nat) : SM unit :=
  o ← obj a;
  put_obj a (mkSnapObj (mkSnap (set_curcid cid (snap (so_snap o))) (snapXactCompletionCount (so_snap o)))
               (copied o) (active_count o) (regd_count o) (lsn o)).

Definition SnapshotSetCommandId (cid : CommandId) : SM unit :=
  s ← sget;
  if negb (FirstSnapshotSet s) then mret tt
  else
    match CurrentSnapshot s with Some a => set_obj_curcid cid a | None => mret tt end;;
    match SecondarySnapshot s with Some a => set_obj_curcid cid a | None => mret tt end.

(** ** The stack of active snapshots *)

Definition PushActiveSnapshotWithLevel (a : nat) (snap_level : Z) : SM unit :=
  s ← sget;
  insist (match ActiveSnapshot s with top :: _ => as_level top <=? snap_level | [] => true end);;
  o ← obj a;
  c ← (if bool_decide (CurrentSnapshot s = Some a) || bool_decide (SecondarySnapshot s = Some a) || negb (copied o)
       then CopySnapshot a else mret a);
  upd_active_count 1 c;;
  supd (fun s => set_active (mkActive c snap_level :: ActiveSnapshot s)
                   (match OldestActiveSnapshot s with None => Some c | Some x => Some x end) s).

Definition PushActiveSnapshot (nest_level : Z) (a : nat) : SM unit := PushActiveSnapshotWithLevel a nest_level.

Definition PushCopiedSnapshot (nest_level : Z) (a : nat) : SM unit :=
  c ← CopySnapshot a; PushActiveSnapshot nest_level c.

Definition UpdateActiveSnapshotCommandId (e : SnapEnv) : SM unit :=
  s ← sget;
  match ActiveSnapshot s with
  | [] => undefined
  | top :: _ =>
      o ← obj (as_snap top);
      insist ((active_count o =? 1) && (regd_count o =? 0));;
      if IsInParallelMode e && (curcid (snap (so_snap o)) != CurrentCommandId e) then raise
      else set_obj_curcid (CurrentCommandId e) (as_snap top)
  end.

(** The part of [PopActiveSnapshot] and [AtSubAbort_Snapshot] that removes
    the topmost snapshot. *)
Definition drop_active : SM unit :=
  s ← sget;
  match ActiveSnapshot s with
  | [] => undefined
  | top :: rest =>
      o ← obj (as_snap top);
      insist (0 <? active_count o);;
      upd_active_count (-1) (as_snap top);;
      o ← obj (as_snap top);
      when ((active_count o =? 0) && (regd_count o =? 0)) (FreeSnapshot (as_snap top));;
      supd (fun s => set_active rest (match rest with [] => None | _ => OldestActiveSnapshot s end) s)
  end.

Definition PopActiveSnapshot : SM unit := drop_active;; SnapshotResetXmin.

Definition GetActiveSnapshot : SM nat :=
  s ← sget; match ActiveSnapshot s with top :: _ => mret (as_snap top) | [] => undefined end.

Definition ActiveSnapshotSet (s : SnapMgr) : bool := negb (bool_decide (length (ActiveSnapshot s) = 0%nat)).

(** ** Registered snapshots *)

Definition ResourceOwnerRememberSnapshot (owner a : nat) : SM unit :=
  supd (fun s => set_owners (owners s ++ [(owner, a)]) s).

Fixpoint remove_one (r : nat * nat) (l : list (nat * nat)) : option (list (nat * nat)) :=
  match l with
  | [] => None
  | x :: l => if decide (x = r) then Some l else cons x <$> remove_one r l
  end.

Definition ResourceOwnerForgetSnapshot (owner a : nat) : SM unit :=
  s ← sget;
  match remove_one (owner, a) (owners s) with
  | Some l => supd (set_owners l)
  | None => raise
  end.

Definition RegisterSnapshotOnOwner (a owner : nat) : SM nat :=
  o ← obj a;
  c ← (if copied o then mret a else CopySnapshot a);
  upd_regd_count 1 c;;
  ResourceOwnerRememberSnapshot owner c;;
  o ← obj c;
  when (regd_count o =? 1) (heap_add c);;
  mret c.

Definition RegisterSnapshot (CurrentResourceOwner : nat) (a : option nat) : SM (option nat) :=
  match a with
  | None => mret None
  | Some a => c ← RegisterSnapshotOnOwner a CurrentResourceOwner; mret (Some c)
  end.

Definition UnregisterSnapshotFromOwner (a owner : nat) : SM unit :=
  o ← obj a;
  insist (0 <? regd_count o);;
  s ← sget;
  insist (negb (pairingheap_is_empty (RegisteredSnapshots s)));;
  ResourceOwnerForgetSnapshot owner a;;
  upd_regd_count (-1) a;;
  o ← obj a;
  when (regd_count o =? 0) (heap_remove a);;
  when ((regd_count o =? 0) && (active_count o =? 0)) (FreeSnapshot a;; SnapshotResetXmin).

Definition UnregisterSnapshot (CurrentResourceOwner : nat) (a : option nat) : SM unit :=
  match a with None => mret tt | Some a => UnregisterSnapshotFromOwner a CurrentResourceOwner end.

(** [ResourceArrayGetAny] on the snapshots of an owner. *)
Definition any_owned (owner : nat) (l : list (nat * nat)) : option nat :=
  '(_, r) ← list_find (fun r => r.1 = owner) l; Some r.2.

(** The loop of [ResourceOwnerReleaseInternal] over the references that are
    left; each round removes one. *)
Fixpoint release_snapshots (rounds : nat) (owner : nat) : SM unit :=
  s ← sget;
  match any_owned owner (owners s), rounds with
  | None, _ => mret tt
  | Some _, O => undefined
  | Some a, S r => UnregisterSnapshotFromOwner a owner;; release_snapshots r owner
  end.

Definition ResourceOwnerReleaseSnapshots (owner : nat) : SM unit :=
  s ← sget; release_snapshots (length (owners s)) owner.

(** ** Ends of transactions *)

Fixpoint relabel (level : Z) (l : list ActiveSnapshotElt) : list ActiveSnapshotElt :=
  match l with
  | [] => []
  | e :: rest => if as_level e <? level then l else mkActive (as_snap e) (level - 1) :: relabel level rest
  end.

Definition AtSubCommit_Snapshot (level : Z) : SM unit :=
  supd (fun s => set_active (relabel level (ActiveSnapshot s)) (OldestActiveSnapshot s) s).

(** The loop pops one element per round. *)
Fixpoint drop_levels (level : Z) (l : list ActiveSnapshotElt) : SM unit :=
  match l with
  | e :: rest => if level <=? as_level e then drop_active;; drop_levels level rest else mret tt
  | [] => mret tt
  end.

Definition AtSubAbort_Snapshot (level : Z) : SM unit :=
  s ← sget; drop_levels level (ActiveSnapshot s);; SnapshotResetXmin.

Fixpoint drop_exported (l : list ExportedSnapshot) : SM unit :=
  match l with
  | [] => mret tt
  | e :: rest =>
      supd (fun s => set_exported (exportedSnapshots s) (delete (snapfile e) (pg_snapshots s)) s);;
      heap_remove (es_snapshot e);;
      drop_exported rest
  end.

(** The warnings about snapshots left over at commit are not modelled. *)
Definition AtEOXact_Snapshot (isCommit resetXmin : bool) : SM unit :=
  s ← sget;
  match FirstXactSnapshot s with
  | Some a =>
      o ← obj a;
      insist ((0 <? regd_count o) && negb (pairingheap_is_empty (RegisteredSnapshots s)));;
      heap_remove a
  | None => mret tt
  end;;
  supd (set_FirstXactSnapshot None);;
  drop_exported (exportedSnapshots s);;
  supd (fun s => set_exported [] (pg_snapshots s) s);;
  InvalidateCatalogSnapshot;;
  supd (fun s => set_active [] None (set_heap (pairingheap_reset (RegisteredSnapshots s)) s));;
  supd (fun s => set_FirstSnapshotSet false (set_SecondarySnapshot None (set_CurrentSnapshot None s)));;
  when resetXmin SnapshotResetXmin;;
  s ← sget;
  insist (resetXmin || (MyProc_xmin s =? 0)).

(** [AtCommit_Memory] of xact.c: the copies live in TopTransactionContext. *)
Definition free_copies : SM unit :=
  supd (fun s => let h := RegisteredSnapshots s in
                 set_heap (mkHeap (filter (fun p => (p.1 < 3)%nat) (ph_nodes h)) (ph_root h))
                   (set_objs (filter (fun p => (p.1 < 3)%nat)) s)).

(** What is left of the snapshots when a transaction ends, after its entry in
    the process array was cleared: resource owners, snapshot manager, memory,
    in the order of [CommitTransaction] and of [AbortTransaction] with
    [CleanupTransaction]. *)
Fixpoint release_owners (l : list nat) : SM unit :=
  match l with [] => mret tt | owner :: l => ResourceOwnerReleaseSnapshots owner;; release_owners l end.

Definition end_snapshots (l : list nat) (isCommit : bool) : SM unit :=
  release_owners l;; AtEOXact_Snapshot isCommit (negb isCommit);; free_copies.

(** ** Queries *)

Definition ThereAreNoPriorRegisteredSnapshots : SM bool :=
  s ← sget;
  if pairingheap_is_empty (RegisteredSnapshots s) then mret true
  else lift (pairingheap_is_singular (RegisteredSnapshots s)).

Definition HaveRegisteredOrActiveSnapshot : SM bool :=
  s ← sget;
  match ActiveSnapshot s with
  | _ :: _ => mret true
  | [] =>
      single ← lift (pairingheap_is_singular (RegisteredSnapshots s));
      if bool_decide (is_Some (CatalogSnapshot s)) && single then mret false
      else mret (negb (pairingheap_is_empty (RegisteredSnapshots s)))
  end.

Definition XactHasExportedSnapshots (s : SnapMgr) : bool := negb (bool_decide (length (exportedSnapshots s) = 0%nat)).

Definition SetupHistoricSnapshot (historic : nat) : SM unit := supd (set_HistoricSnapshot (Some historic)).
Definition TeardownHistoricSnapshot : SM unit := supd (set_HistoricSnapshot None).

(** ** Imported snapshots *)

(** The fields of [CurrentSnapshotData] that come from the source; the
    command id is the importer's. *)
Definition imported_data (src cur : SnapshotData) : SnapshotData :=
  mkSnapshot (snapshot_type cur) (snap_xmin src) (snap_xmax src) (xip src) (subxip src) (suboverflowed src)
    (takenDuringRecovery src) (curcid cur) (speculativeToken cur).

(** Where the snapshot comes from: a virtual transaction, for
    [ImportSnapshot], or a process, for a parallel worker. *)
Definition install_source_xmin (e : SnapEnv) (xmin : TransactionId) (source : option VirtualTransactionId + nat) : SM unit :=
  s ← sget;
  let '(ok, sh, l) :=
    match source with
    | inr p => ProcArrayInstallRestoredXmin xmin p (shared s) (local s)
    | inl vxid => let '(m, last) := scan e 1 (shared s) in ProcArrayInstallImportedXmin m last xmin vxid (local s)
    end in
  supd (set_procs l sh);;
  if ok then mret tt else raise.

Definition SetTransactionSnapshot (e : SnapEnv) (sourcesnap : SnapshotData) (source : option VirtualTransactionId + nat)
    : SM unit :=
  s ← sget;
  insist (negb (FirstSnapshotSet s) && negb (bool_decide (is_Some (HistoricSnapshot s))));;
  InvalidateCatalogSnapshot;;
  assert_no_snapshots;;
  take_snapshot e 0 CurrentSnapshotData;;
  supd (set_CurrentSnapshot (Some CurrentSnapshotData));;
  o ← obj CurrentSnapshotData;
  put_obj CurrentSnapshotData
    (mkSnapObj (mkSnap (imported_data sourcesnap (snap (so_snap o))) 0) (copied o) (active_count o) (regd_count o) (lsn o));;
  install_source_xmin e (snap_xmin sourcesnap) source;;
  (if IsolationUsesXactSnapshot e then _ ← keep_transaction_snapshot; mret tt else mret tt);;
  supd (set_FirstSnapshotSet true).

(** ** Snapshots for parallel workers *)

(** The record that is copied to shared memory, and the arrays behind it. *)
Record SerializedSnapshotData := mkSerializedSnapshot {
  ser_xmin : TransactionId;
  ser_xmax : TransactionId;
  ser_xcnt : Z;
  ser_subxcnt : Z;
  ser_suboverflowed : bool;
  ser_takenDuringRecovery : bool;
  ser_curcid : CommandId;
  ser_lsn : Z;
}.

Definition SerializeSnapshot (o : SnapObj) : SerializedSnapshotData * list TransactionId :=
  let sn := snap (so_snap o) in
  let subxcnt := if suboverflowed sn && negb (takenDuringRecovery sn) then 0 else Z.of_nat (length (subxip sn)) in
  (mkSerializedSnapshot (snap_xmin sn) (snap_xmax sn) (Z.of_nat (length (xip sn))) subxcnt (suboverflowed sn)
     (takenDuringRecovery sn) (curcid sn) (lsn o),
   xip sn ++ if 0 <? subxcnt then subxip sn else []).

(** The size that [EstimateSnapshotSpace] reserves, in transaction ids behind
    the record. *)
Definition EstimateSnapshotSpace (o : SnapObj) : nat :=
  let sn := snap (so_snap o) in
  length (xip sn) +
  (if (0 <? Z.of_nat (length (subxip sn))) && (negb (suboverflowed sn) || takenDuringRecovery sn)
   then length (subxip sn) else 0).

Definition restored_obj (ser : SerializedSnapshotData) (xids : list TransactionId) : SnapObj :=
  mkSnapObj
    (mkSnap (mkSnapshot SNAPSHOT_MVCC (ser_xmin ser) (ser_xmax ser) (take (Z.to_nat (ser_xcnt ser)) xids)
               (take (Z.to_nat (ser_subxcnt ser)) (drop (Z.to_nat (ser_xcnt ser)) xids))
               (ser_suboverflowed ser) (ser_takenDuringRecovery ser) (ser_curcid ser) 0) 0)
    true 0 0 (ser_lsn ser).

Definition RestoreSnapshot (ser : SerializedSnapshotData) (xids : list TransactionId) : SM nat :=
  s ← sget;
  let new := next_addr s in
  let h := RegisteredSnapshots s in
  supd (set_next (S new));;
  put_obj new (restored_obj ser xids);;
  supd (set_heap (mkHeap (<[new := mkNode None None None]> (ph_nodes h)) (ph_root h)));;
  mret new.

Definition RestoreTransactionSnapshot (e : SnapEnv) (sn : SnapshotData) (source_pgproc : nat) : SM unit :=
  SetTransactionSnapshot e sn (inr source_pgproc).
