(* ===== verification/SnapMgrInv.v ===== *)
(** * SnapMgrInv: the memory of snapshots

    [mem_ok] relates the memory of snapshots to three collections: the
    registered snapshots in the heap, the snapshots on the stack and the
    references that count as registrations.  Reference counts are the numbers
    of occurrences, everything that is referenced is allocated, and the heap
    is ordered by xmin.  Here: what the basic operations of SnapMgr.v do to
    it. *)

From S2P Require Import Prelude TransactionId KnownXids HeapTuple ProcArray ProcInv ProcScan ProcReaders PairingHeap PairingTree.
From S2P Require Import SnapMgr.

(** ** Counting *)

Definition occurs (a : nat) (l : list nat) : nat := length (filter (fun x => x = a) l).

Lemma occurs_cons a x l : occurs a (x :: l) = ((if decide (x = a) then 1 else 0) + occurs a l)%nat.
Proof. unfold occurs. rewrite filter_cons. by case_decide. Qed.

Lemma occurs_app a l l' : occurs a (l ++ l') = (occurs a l + occurs a l')%nat.
Proof. unfold occurs. by rewrite filter_app, length_app. Qed.

Lemma occurs_le a l : (occurs a l <= length l)%nat.
Proof. apply length_filter. Qed.

Lemma occurs_elem a l : (0 < occurs a l)%nat <-> a ∈ l.
Proof.
  induction l as [|x l IH]; [cbn; split; [lia|by intros ?%not_elem_of_nil]|].
  rewrite occurs_cons, elem_of_cons. case_decide; subst; [split; [by left|lia]|]. rewrite Nat.add_0_l, IH. naive_solver.
Qed.

Lemma occurs_zero a l : occurs a l = 0%nat <-> a ∉ l.
Proof. rewrite <- occurs_elem. lia. Qed.

Lemma occurs_perm a l l' : l ≡ₚ l' -> occurs a l = occurs a l'.
Proof. intros HP. unfold occurs. by rewrite HP. Qed.

Lemma count_up c (k : nat) : c = Z.of_nat k -> Z.of_nat k + 1 < 2 ^ 32 -> u32 (c + 1) = Z.of_nat (S k).
Proof. intros -> Hk. rewrite u32_small; [lia|unfold is_u32; lia]. Qed.

Lemma count_down c (k : nat) : c = Z.of_nat (S k) -> Z.of_nat k < 2 ^ 32 -> u32 (c + -1) = Z.of_nat k.
Proof. intros -> Hk. rewrite u32_small; [lia|unfold is_u32; lia]. Qed.

(** ** Snapshots by their xmin *)

Definition obj_xmin (ob : SnapObj) : TransactionId := snap_xmin (snap (so_snap ob)).

(** The xmin of the snapshot at [a]; [above m b a] when that of [a] is no
    later than that of [b]. *)
Definition xmin_age (o : TransactionId) (m : gmap nat SnapObj) (a : nat) : Z :=
  from_option (fun ob => xid_age o (obj_xmin ob)) 0 (m !! a).
Definition above (o : TransactionId) (m : gmap nat SnapObj) (b a : nat) : Prop := xmin_age o m a <= xmin_age o m b.

Definition has_xmin (P : TransactionId -> Prop) (m : gmap nat SnapObj) (a : nat) : Prop :=
  exists ob, m !! a = Some ob /\ P (obj_xmin ob).

#[export] Instance xmin_comparator o m : Comparator (xmin_cmp m) (has_xmin (in_window o) m) (above o m).
Proof.
  split.
  - unfold above. split; [intros x; lia|intros x y z; lia].
  - intros a b (oa & Ha & Wa) (ob & Hb & Wb). unfold xmin_cmp, above, xmin_age. rewrite Ha, Hb. cbn.
    eexists. split; [done|]. unfold obj_xmin in *. rewrite (precedes_window o) by done.
    destruct (Z.ltb_spec (xid_age o (snap_xmin (snap (so_snap oa)))) (xid_age o (snap_xmin (snap (so_snap ob))))); cbn; [lia|].
    rewrite (follows_window o) by done. by destruct (Z.ltb_spec (xid_age o (snap_xmin (snap (so_snap ob)))) (xid_age o (snap_xmin (snap (so_snap oa))))).
Qed.

Lemma ordered_mono (le le' : relation nat) t :
  (forall x y, x ∈ elems t -> y ∈ elems t -> le x y -> le' x y) -> ordered le t -> ordered le' t.
Proof.
  induction t as [|a c IHc s IHs]; cbn; [done|]. intros Hle (H1 & H2 & H3). split_and!.
  - intros x Hx. apply Hle; [set_solver..|]. by apply H1.
  - apply IHc; [|done]. intros x y Hx Hy. apply Hle; set_solver.
  - apply IHs; [|done]. intros x y Hx Hy. apply Hle; set_solver.
Qed.

Lemma pairing_ok_mono (le le' : relation nat) h l :
  (forall x y, x ∈ l -> y ∈ l -> le x y -> le' x y) -> pairing_ok le h l -> pairing_ok le' h l.
Proof.
  intros Hle (t & [H1 H2 H3 H4 H5 H6]). exists t. constructor; try done. eapply ordered_mono; [|done].
  intros x y Hx Hy. apply Hle; by rewrite H6.
Qed.

(** A heap is the same heap in a memory that agrees on its members. *)
Lemma pairing_ok_frame (le : relation nat) h h' l :
  ph_root h' = ph_root h -> (forall x, x ∈ l -> ph_nodes h' !! x = ph_nodes h !! x) -> pairing_ok le h l -> pairing_ok le h' l.
Proof.
  intros Hr Hn (t & [H1 H2 H3 H4 H5 H6]). exists t. constructor; try done; [congruence|].
  clear -Hn H2 H6. assert (Hn' : forall x, x ∈ elems t -> ph_nodes h' !! x = ph_nodes h !! x) by (intros x; rewrite <- H6; apply Hn).
  clear Hn H6. revert H2. generalize (@None nat). induction t as [|a c IHc s IHs]; cbn; [done|]. intros p (Ha & Hc & Hs).
  cbn in Hn'. split_and!; [rewrite Hn' by set_solver; done|apply IHc; [set_solver|done]|apply IHs; [set_solver|done]].
Qed.

Lemma pairing_nodup (le : relation nat) h l : pairing_ok le h l -> NoDup l.
Proof. intros (t & [_ _ _ H _ E]). by rewrite E. Qed.

(** ** The memory *)

Section Mem.
Context (o : TransactionId).

(** [L] are the members of the heap, [stk] and [rf] the occurrences that the
    counts of a copy stand for. *)
Record mem_ok (m : gmap nat SnapObj) (h : pairingheap) (next : nat) (L stk rf : list nat) : Prop := {
  mo_heap : pairing_ok (above o m) h L;
  mo_valid : forall a, a ∈ L -> has_xmin (in_window o) m a;
  mo_dom : forall a, is_Some (ph_nodes h !! a) <-> is_Some (m !! a);
  mo_next : (3 <= next)%nat /\ forall a, is_Some (m !! a) -> (a < next)%nat;
  mo_static : forall a, (a < 3)%nat -> exists ob, m !! a = Some ob /\ copied ob = false;
  mo_copied : forall a ob, (3 <= a)%nat -> m !! a = Some ob ->
    copied ob = true /\ active_count ob = Z.of_nat (occurs a stk) /\ regd_count ob = Z.of_nat (occurs a rf);
  mo_alloc : forall a, a ∈ stk \/ a ∈ rf -> (3 <= a)%nat /\ is_Some (m !! a);
  mo_small : Z.of_nat (length stk) < 2 ^ 32 /\ Z.of_nat (length rf) < 2 ^ 32;
}.

Lemma mem_ok_perm m h next L L' stk stk' rf rf' :
  L ≡ₚ L' -> stk ≡ₚ stk' -> rf ≡ₚ rf' -> mem_ok m h next L stk rf -> mem_ok m h next L' stk' rf'.
Proof.
  intros E1 E2 E3 [H1 H2 H3 H4 H5 H6 H7 H8]. constructor; try done.
  - by eapply pairing_ok_perm.
  - intros a. rewrite <- E1. apply H2.
  - intros a ob Ha Hob. rewrite <- (occurs_perm a _ _ E2), <- (occurs_perm a _ _ E3). by apply H6.
  - intros a. rewrite <- E2, <- E3. apply H7.
  - by rewrite <- (Permutation_length E2), <- (Permutation_length E3).
Qed.

(** An object changes: its counts, or its contents outside the heap. *)
Lemma mem_ok_put m h next L stk rf stk' rf' a ob ob' :
  mem_ok m h next L stk rf -> m !! a = Some ob -> copied ob' = copied ob -> (a ∈ L -> obj_xmin ob' = obj_xmin ob) ->
  (forall b, b <> a -> occurs b stk' = occurs b stk /\ occurs b rf' = occurs b rf) ->
  ((3 <= a)%nat -> active_count ob' = Z.of_nat (occurs a stk') /\ regd_count ob' = Z.of_nat (occurs a rf')) ->
  (forall b, b ∈ stk' \/ b ∈ rf' -> b = a /\ (3 <= a)%nat \/ b ∈ stk \/ b ∈ rf) ->
  Z.of_nat (length stk') < 2 ^ 32 -> Z.of_nat (length rf') < 2 ^ 32 ->
  mem_ok (<[a := ob']> m) h next L stk' rf'.
Proof.
  intros [H1 H2 H3 H4 H5 H6 H7 H8] Ha Hc Hx Hoth Hcnt Hin Hs1 Hs2.
  assert (Hage : forall b, b ∈ L -> xmin_age o (<[a := ob']> m) b = xmin_age o m b).
  { intros b Hb. unfold xmin_age. destruct (decide (b = a)) as [->|Hne]; [|by rewrite lookup_insert_ne].
    rewrite lookup_insert_eq, Ha. cbn. by rewrite Hx. }
  assert (Hdom : forall b, is_Some (<[a := ob']> m !! b) <-> is_Some (m !! b)).
  { intros b. rewrite lookup_insert_is_Some. destruct (decide (a = b)) as [->|]; [rewrite Ha; naive_solver|naive_solver]. }
  constructor.
  - eapply pairing_ok_mono; [|done]. intros x y Hx' Hy'. unfold above. by rewrite !Hage.
  - intros b Hb. destruct (H2 b Hb) as (ob0 & E & W). destruct (decide (b = a)) as [->|Hne].
    + exists ob'. rewrite lookup_insert_eq, Hx by done. rewrite Ha in E. by injection E as <-.
    + exists ob0. by rewrite lookup_insert_ne.
  - intros b. by rewrite H3, Hdom.
  - split; [exact (proj1 H4)|]. intros b. rewrite Hdom. apply (proj2 H4).
  - intros b Hb. destruct (H5 b Hb) as (ob0 & E & C). destruct (decide (b = a)) as [->|Hne].
    + exists ob'. rewrite lookup_insert_eq, Hc. rewrite Ha in E. by injection E as <-.
    + exists ob0. by rewrite lookup_insert_ne.
  - intros b ob0 Hb E. destruct (decide (b = a)) as [->|Hne].
    + rewrite lookup_insert_eq in E. injection E as <-. rewrite Hc. split; [by apply (H6 a ob)|by apply Hcnt].
    + rewrite lookup_insert_ne in E by done. destruct (Hoth b Hne) as [-> ->]. by apply H6.
  - intros b Hb. rewrite Hdom. destruct (Hin b Hb) as [[-> ?]|?]; [by rewrite Ha|by apply H7].
  - done.
Qed.

Lemma mem_ok_push m h next L stk rf a ob :
  mem_ok m h next L stk rf -> (3 <= a)%nat -> m !! a = Some ob -> Z.of_nat (length stk) + 1 < 2 ^ 32 ->
  mem_ok (<[a := mkSnapObj (so_snap ob) (copied ob) (u32 (active_count ob + 1)) (regd_count ob) (lsn ob)]> m) h next L (a :: stk) rf.
Proof.
  intros Hok Ha Hob Hs. pose proof (mo_copied _ _ _ _ _ _ Hok a ob Ha Hob) as (_ & Ea & Er).
  eapply (mem_ok_put m h next L stk rf); try done; cbn [copied active_count regd_count so_snap].
  - intros b Hne. rewrite occurs_cons, decide_False by done. done.
  - intros _. rewrite occurs_cons, decide_True by done. split; [|done]. pose proof (occurs_le a stk). apply count_up; [done|lia].
  - intros b. rewrite elem_of_cons. naive_solver.
  - cbn [length] in *; lia.
  - apply (mo_small _ _ _ _ _ _ Hok).
Qed.

Lemma mem_ok_pop m h next L stk rf a ob :
  mem_ok m h next L (a :: stk) rf -> m !! a = Some ob ->
  mem_ok (<[a := mkSnapObj (so_snap ob) (copied ob) (u32 (active_count ob + -1)) (regd_count ob) (lsn ob)]> m) h next L stk rf /\
  (3 <= a)%nat /\ 0 < active_count ob.
Proof.
  intros Hok Hob. destruct (mo_alloc _ _ _ _ _ _ Hok a) as [Ha _]; [left; set_solver|].
  pose proof (mo_copied _ _ _ _ _ _ Hok a ob Ha Hob) as (_ & Ea & Er). rewrite occurs_cons, decide_True in Ea by done.
  pose proof (mo_small _ _ _ _ _ _ Hok) as [Hs1 Hs2]. cbn [length] in Hs1. split; [|split; [done|lia]].
  eapply (mem_ok_put m h next L (a :: stk) rf); try done; cbn [copied active_count regd_count so_snap].
  - intros b Hne. rewrite occurs_cons, decide_False by done. done.
  - intros _. split; [|done]. pose proof (occurs_le a stk). apply count_down; [done|lia].
  - intros b Hb. rewrite elem_of_cons. naive_solver.
  - cbn [length] in *; lia.
Qed.

Lemma mem_ok_ref m h next L stk rf a ob :
  mem_ok m h next L stk rf -> (3 <= a)%nat -> m !! a = Some ob -> Z.of_nat (length rf) + 1 < 2 ^ 32 ->
  mem_ok (<[a := mkSnapObj (so_snap ob) (copied ob) (active_count ob) (u32 (regd_count ob + 1)) (lsn ob)]> m) h next L stk (a :: rf) /\
  u32 (regd_count ob + 1) = Z.of_nat (occurs a rf) + 1.
Proof.
  intros Hok Ha Hob Hs. pose proof (mo_copied _ _ _ _ _ _ Hok a ob Ha Hob) as (_ & Ea & Er). pose proof (occurs_le a rf).
  assert (E : u32 (regd_count ob + 1) = Z.of_nat (S (occurs a rf))) by (apply count_up; [done|lia]).
  split; [|lia]. eapply (mem_ok_put m h next L stk rf); try done; cbn [copied active_count regd_count so_snap].
  - intros b Hne. rewrite occurs_cons, decide_False by done. done.
  - intros _. by rewrite occurs_cons, decide_True, E by done.
  - intros b. rewrite elem_of_cons. naive_solver.
  - apply (mo_small _ _ _ _ _ _ Hok).
  - cbn [length] in *; lia.
Qed.

Lemma mem_ok_unref m h next L stk rf a ob :
  mem_ok m h next L stk (a :: rf) -> m !! a = Some ob ->
  mem_ok (<[a := mkSnapObj (so_snap ob) (copied ob) (active_count ob) (u32 (regd_count ob + -1)) (lsn ob)]> m) h next L stk rf /\
  (3 <= a)%nat /\ 0 < regd_count ob /\ u32 (regd_count ob + -1) = Z.of_nat (occurs a rf) /\ active_count ob = Z.of_nat (occurs a stk).
Proof.
  intros Hok Hob. destruct (mo_alloc _ _ _ _ _ _ Hok a) as [Ha _]; [right; set_solver|].
  pose proof (mo_copied _ _ _ _ _ _ Hok a ob Ha Hob) as (_ & Ea & Er). rewrite occurs_cons, decide_True in Er by done.
  pose proof (mo_small _ _ _ _ _ _ Hok) as [Hs1 Hs2]. cbn [length] in Hs2. pose proof (occurs_le a rf).
  assert (E : u32 (regd_count ob + -1) = Z.of_nat (occurs a rf)) by (apply count_down; [done|lia]).
  split_and!; [|done|lia|done|done]. eapply (mem_ok_put m h next L stk (a :: rf)); try done; cbn [copied active_count regd_count so_snap].
  - intros b Hne. rewrite occurs_cons, decide_False by done. done.
  - intros b Hb. rewrite elem_of_cons. naive_solver.
  - cbn [length] in *; lia.
Qed.

Lemma mem_ok_alloc m h next L stk rf ob n :
  mem_ok m h next L stk rf -> copied ob = true -> active_count ob = 0 -> regd_count ob = 0 ->
  mem_ok (<[next := ob]> m) (mkHeap (<[next := n]> (ph_nodes h)) (ph_root h)) (S next) L stk rf.
Proof.
  intros [H1 H2 H3 [H4 H4'] H5 H6 H7 H8] Hc Ha Hr.
  assert (Hnew : forall a, is_Some (m !! a) -> a <> next) by (intros a ?%H4'; lia).
  assert (HL : forall a, a ∈ L -> a <> next) by (intros a Hin; destruct (H2 a Hin) as (? & E & _); apply Hnew; by eexists).
  constructor; cbn [ph_nodes ph_root].
  - apply (pairing_ok_frame _ h); [done| |apply (pairing_ok_mono (above o m)); [|done]].
    + intros x Hx. cbn. apply lookup_insert_ne. by apply not_eq_sym, HL.
    + intros x y Hx Hy. unfold above, xmin_age. by rewrite !lookup_insert_ne by (by apply not_eq_sym, HL).
  - intros a Hin. destruct (H2 a Hin) as (oa & E & W). exists oa. split; [|done].
    rewrite lookup_insert_ne; [done|]. by apply not_eq_sym, HL.
  - intros a. rewrite !lookup_insert_is_Some, H3. done.
  - split; [lia|]. intros a [->|[_ Hs]]%lookup_insert_is_Some; [lia|]. specialize (H4' a Hs). lia.
  - intros a Hlt. rewrite lookup_insert_ne by lia. by apply H5.
  - intros a oa Hge E. destruct (decide (a = next)) as [->|Hne].
    + rewrite lookup_insert_eq in E. injection E as <-. rewrite Hc, Ha, Hr.
      assert (Hno : (next ∉ stk) /\ (next ∉ rf)) by (split; intros Hin; destruct (H7 next) as [_ Hs]; (by auto) || by apply (Hnew next)).
      destruct Hno as [E1%occurs_zero E2%occurs_zero]. by rewrite E1, E2.
    + rewrite lookup_insert_ne in E by done. by apply H6.
  - intros a Hin. destruct (H7 a Hin) as [? Hs]. split; [done|]. rewrite lookup_insert_ne by (by apply not_eq_sym, Hnew). done.
  - done.
Qed.

Lemma mem_ok_free m h next L stk rf a :
  mem_ok m h next L stk rf -> (3 <= a)%nat -> a ∉ L -> a ∉ stk -> a ∉ rf ->
  mem_ok (delete a m) (mkHeap (delete a (ph_nodes h)) (ph_root h)) next L stk rf.
Proof.
  intros [H1 H2 H3 [H4 H4'] H5 H6 H7 H8] Ha HL Hs Hr.
  assert (Hne : forall b, b ∈ L -> a <> b) by (by intros b Hb ->).
  constructor; cbn [ph_nodes ph_root].
  - apply (pairing_ok_frame _ h); [done| |apply (pairing_ok_mono (above o m)); [|done]].
    + intros x Hx. cbn. apply lookup_delete_ne. by apply Hne.
    + intros x y Hx Hy. unfold above, xmin_age. by rewrite !lookup_delete_ne by auto.
  - intros b Hin. destruct (H2 b Hin) as (ob & E & W). exists ob. by rewrite lookup_delete_ne by auto.
  - intros b. rewrite !lookup_delete_is_Some, H3. done.
  - split; [done|]. intros b [_ Hb]%lookup_delete_is_Some. by apply H4'.
  - intros b Hlt. rewrite lookup_delete_ne by lia. by apply H5.
  - intros b ob Hge [_ E]%lookup_delete_Some. by apply H6.
  - intros b Hin. destruct (H7 b Hin) as [? Hb]. split; [done|]. rewrite lookup_delete_ne; [done|]. intros ->. naive_solver.
  - done.
Qed.

(** After a change of the links: the nodes are those of the same memory. *)
Lemma mem_ok_links m h h' next L L' stk rf :
  mem_ok m h next L stk rf -> dom (ph_nodes h') = dom (ph_nodes h) -> pairing_ok (above o m) h' L' ->
  (forall a, a ∈ L' -> has_xmin (in_window o) m a) -> mem_ok m h' next L' stk rf.
Proof.
  intros [H1 H2 H3 H4 H5 H6 H7 H8] Hd Hok Hv. constructor; try done.
  intros a. by rewrite <- H3, <- !elem_of_dom, Hd.
Qed.

Lemma mem_ok_add m h next L stk rf a :
  mem_ok m h next L stk rf -> a ∉ L -> has_xmin (in_window o) m a ->
  exists h', pairingheap_add (xmin_cmp m) a h = Some h' /\ mem_ok m h' next (a :: L) stk rf.
Proof.
  intros Hok Ha Hx. pose proof Hok as [H1 H2 H3 _ _ _ _ _].
  assert (Hv : forall x, x ∈ a :: L -> has_xmin (in_window o) m x) by (intros x [->|?]%elem_of_cons; auto).
  destruct (pairingheap_add_ok (xmin_cmp m) (has_xmin (in_window o) m) (above o m) h L a H1 Ha) as (h' & E & Hok' & _).
  - apply H3. destruct Hx as (oa & -> & _). by eexists.
  - done.
  - exists h'. split; [done|]. eapply mem_ok_links; [done|by eapply pairingheap_add_dom|done|done].
Qed.

Lemma mem_ok_remove m h next L stk rf a :
  mem_ok m h next L stk rf -> a ∈ L ->
  exists h' L', pairingheap_remove (xmin_cmp m) a h = Some h' /\ (L ≡ₚ a :: L') /\ (a ∉ L') /\ mem_ok m h' next L' stk rf.
Proof.
  intros Hok Ha. pose proof Hok as [H1 H2 H3 _ _ _ _ _]. pose proof (pairing_nodup _ _ _ H1) as Hnd.
  destruct (pairingheap_remove_ok (xmin_cmp m) (has_xmin (in_window o) m) (above o m) h L a H1 Ha H2) as (h' & E & Hok' & _).
  apply elem_of_Permutation in Ha as [L' HL']. exists h', L'. rewrite HL' in Hnd. apply NoDup_cons in Hnd as [Hna _].
  split_and!; [done|done|done|]. eapply mem_ok_links; [done|by eapply pairingheap_remove_dom|by apply Hok'|].
  intros x Hx. apply H2. rewrite HL'. set_solver.
Qed.

Lemma mem_ok_reset m h next L stk rf : mem_ok m h next L stk rf -> mem_ok m (pairingheap_reset h) next [] stk rf.
Proof.
  intros Hok. eapply mem_ok_links; [done|done| |by intros a ?%not_elem_of_nil].
  exists Leaf. constructor; (done || constructor).
Qed.

Lemma mem_ok_empty m h next L stk rf : mem_ok m h next L stk rf -> pairingheap_is_empty h = bool_decide (L = []).
Proof.
  intros [H1 _ _ _ _ _ _ _]. pose proof (pairingheap_first_ok (xmin_cmp m) (has_xmin (in_window o) m) (above o m) h L H1) as Hf.
  unfold pairingheap_is_empty, pairingheap_first in *. destruct (ph_root h) as [r|].
  - destruct Hf as [Hr _]. by destruct L; [apply not_elem_of_nil in Hr|].
  - by subst.
Qed.

(** The first of the heap has the oldest xmin. *)
Lemma mem_ok_first m h next L stk rf :
  mem_ok m h next L stk rf -> L <> [] ->
  exists a ob, pairingheap_first h = Some a /\ m !! a = Some ob /\ a ∈ L /\ in_window o (obj_xmin ob) /\
    forall b ob', b ∈ L -> m !! b = Some ob' -> xid_age o (obj_xmin ob) <= xid_age o (obj_xmin ob').
Proof.
  intros [H1 H2 _ _ _ _ _ _] Hne.
  pose proof (pairingheap_first_ok (xmin_cmp m) (has_xmin (in_window o) m) (above o m) h L H1) as Hf.
  destruct (pairingheap_first h) as [a|]; [|done]. destruct Hf as [Ha Hle]. destruct (H2 a Ha) as (ob & E & W).
  exists a, ob. split_and!; try done. intros b ob' Hb E'. specialize (Hle b Hb). unfold above, xmin_age in Hle.
  by rewrite E, E' in Hle.
Qed.

(** A static snapshot gets new contents while it is not in the heap. *)
Lemma mem_ok_static m h next L stk rf a ob' :
  mem_ok m h next L stk rf -> (a < 3)%nat -> a ∉ L -> copied ob' = false -> mem_ok (<[a := ob']> m) h next L stk rf.
Proof.
  intros Hok Ha HL Hc. destruct (mo_static _ _ _ _ _ _ Hok a Ha) as (ob & E & C).
  pose proof (mo_small _ _ _ _ _ _ Hok) as [? ?].
  eapply (mem_ok_put m h next L stk rf); try done; [congruence|lia|naive_solver].
Qed.
End Mem.
