(* ===== verification/SnapMgrOps.v ===== *)
(** * SnapMgrOps: what the operations of the snapshot manager keep

    [inv] is the invariant of a backend's snapshots: the memory is that of
    SnapMgrInv.v for the snapshots on the stack and the references held by
    resource owners, the transaction and exports; the heap holds the
    referenced snapshots and the catalog snapshot; every snapshot in use has
    good contents, and the advertised xmin covers it.  Every operation keeps
    it and is never undefined.

    What good contents are depends on the rest of the system; here it is given
    by a [view], which says what is known at a point of time. *)

From S2P Require Import Prelude TransactionId KnownXids HeapTuple ProcArray ProcInv ProcScan ProcReaders PairingHeap PairingTree.
From S2P Require Import SnapMgr SnapMgrInv.

(** ** Results of operations *)

Definition wp {A} (m : SM A) (Q : A -> SnapMgr -> Prop) (R : SnapMgr -> Prop) (s : SnapMgr) : Prop :=
  match m s with Done a s' => Q a s' | Raised s' => R s' | Undefined => False end.

Lemma swp_bind {A B} (m : SM A) (k : A -> SM B) Q R s :
  wp m (fun a => wp (k a) Q R) R s -> wp (m ≫= k) Q R s.
Proof. unfold wp, mbind, sm_bind. by destruct (m s). Qed.

Lemma swp_ret {A} (a : A) (Q : A -> SnapMgr -> Prop) R s : Q a s -> wp (mret a) Q R s.
Proof. done. Qed.

Lemma swp_mono {A} (m : SM A) (Q Q' : A -> SnapMgr -> Prop) (R R' : SnapMgr -> Prop) s :
  wp m Q R s -> (forall a s', Q a s' -> Q' a s') -> (forall s', R s' -> R' s') -> wp m Q' R' s.
Proof. unfold wp. destruct (m s); auto. Qed.

Lemma wp_when b m Q R s : (b = true -> wp m Q R s) -> (b = false -> Q tt s) -> wp (when b m) Q R s.
Proof. destruct b; cbn; auto. Qed.

Lemma wp_sget {A} (k : SnapMgr -> SM A) Q R s : wp (k s) Q R s -> wp (sget ≫= k) Q R s.
Proof. done. Qed.

Lemma wp_supd {A} f (k : unit -> SM A) Q R s : wp (k tt) Q R (f s) -> wp (supd f ≫= k) Q R s.
Proof. done. Qed.

Lemma wp_insist {A} b (k : unit -> SM A) Q R s : b = true -> wp (k tt) Q R s -> wp (insist b ≫= k) Q R s.
Proof. by intros ->. Qed.

(** The result of an operation that does not fail. *)
Lemma wp_done {A} (m : SM A) a s s' (Q : A -> SnapMgr -> Prop) R : m s = Done a s' -> Q a s' -> wp m Q R s.
Proof. intros E. unfold wp. by rewrite E. Qed.

(** ** Changes of the memory *)

Definition with_mem (m : gmap nat SnapObj) (h : pairingheap) (n : nat) (s : SnapMgr) : SnapMgr :=
  mkSnapMgr m n h (CurrentSnapshot s) (SecondarySnapshot s) (CatalogSnapshot s) (HistoricSnapshot s)
    (FirstXactSnapshot s) (ActiveSnapshot s) (OldestActiveSnapshot s) (FirstSnapshotSet s)
    (exportedSnapshots s) (owners s) (pg_snapshots s) (local s) (shared s).

Lemma with_mem_id s : s = with_mem (objs s) (RegisteredSnapshots s) (next_addr s) s.
Proof. by destruct s. Qed.

Definition put_xmin (x : TransactionId) (s : SnapMgr) : SnapMgr :=
  set_procs (local s) (upd_proc (MyProcNo (local s)) (set_xmin x) (shared s)) s.

Lemma wp_obj a ob Q R s : objs s !! a = Some ob -> Q ob s -> wp (obj a) Q R s.
Proof. intros E. unfold wp, obj, mbind, sm_bind, sget, lift. by rewrite E. Qed.

Lemma wp_active_count d a ob (Q : unit -> SnapMgr -> Prop) R s :
  objs s !! a = Some ob ->
  Q tt (with_mem (<[a := mkSnapObj (so_snap ob) (copied ob) (u32 (active_count ob + d)) (regd_count ob) (lsn ob)]> (objs s))
          (RegisteredSnapshots s) (next_addr s) s) ->
  wp (upd_active_count d a) Q R s.
Proof. intros E HQ. by apply swp_bind, (wp_obj a ob). Qed.

Lemma wp_regd_count d a ob (Q : unit -> SnapMgr -> Prop) R s :
  objs s !! a = Some ob ->
  Q tt (with_mem (<[a := mkSnapObj (so_snap ob) (copied ob) (active_count ob) (u32 (regd_count ob + d)) (lsn ob)]> (objs s))
          (RegisteredSnapshots s) (next_addr s) s) ->
  wp (upd_regd_count d a) Q R s.
Proof. intros E HQ. by apply swp_bind, (wp_obj a ob). Qed.

Lemma wp_heap_add a h (Q : unit -> SnapMgr -> Prop) R s :
  pairingheap_add (xmin_cmp (objs s)) a (RegisteredSnapshots s) = Some h ->
  Q tt (with_mem (objs s) h (next_addr s) s) -> wp (heap_add a) Q R s.
Proof. intros E HQ. unfold wp, heap_add, mbind, sm_bind, sget, lift. by rewrite E. Qed.

Lemma wp_heap_remove a h (Q : unit -> SnapMgr -> Prop) R s :
  pairingheap_remove (xmin_cmp (objs s)) a (RegisteredSnapshots s) = Some h ->
  Q tt (with_mem (objs s) h (next_addr s) s) -> wp (heap_remove a) Q R s.
Proof. intros E HQ. unfold wp, heap_remove, mbind, sm_bind, sget, lift. by rewrite E. Qed.

(** ** The invariant *)

(** What is known at a point of time: bounds that an advertised xmin must be
    among, contents that snapshots in use have, what the static snapshots may
    hold, and the shared memory apart from the backend's own xmin. *)
Record view := mkView {
  bound : TransactionId -> Prop;
  contents : SnapshotData -> Prop;
  reusable : Snapshot -> Prop;
  seen : ProcShared;
}.

Class View (o : TransactionId) (me : nat) (V : view) : Prop := {
  vw_window : forall x, bound V x -> in_window o x;
  vw_xmin : forall sn, contents V sn -> bound V (snap_xmin sn);
  vw_copied : forall sn, contents V sn -> contents V (copied_data sn);
  vw_curcid : forall cid sn, contents V sn -> contents V (set_curcid cid sn);
  vw_reusable : forall cid sn, reusable V sn -> reusable V (mkSnap (set_curcid cid (snap sn)) (snapXactCompletionCount sn));
  vw_me : (me < length (allProcs (seen V)))%nat;
}.

(** The snapshots in use. *)
Definition stack (s : SnapMgr) : list nat := as_snap <$> ActiveSnapshot s.
Definition kept (s : SnapMgr) : list nat := option_list (FirstXactSnapshot s) ++ (es_snapshot <$> exportedSnapshots s).
Definition refs (s : SnapMgr) : list nat := (snd <$> owners s) ++ kept s.
Definition held (s : SnapMgr) : list nat := stack s ++ refs s ++ option_list (CatalogSnapshot s).

Lemma elem_option_list {A} (x : option A) (a : A) : a ∈ option_list x <-> x = Some a.
Proof. destruct x; cbn; rewrite ?list_elem_of_singleton, ?elem_of_nil; naive_solver. Qed.

Lemma elem_held s a : a ∈ held s <-> a ∈ stack s \/ a ∈ refs s \/ CatalogSnapshot s = Some a.
Proof. unfold held. by rewrite !elem_of_app, elem_option_list. Qed.

(** The memory apart from the xmin of process [me]. *)
Definition variant (me : nat) (sh sh' : ProcShared) : Prop :=
  sh' = sh \/ exists x, sh' = upd_proc me (set_xmin x) sh.

Lemma upd_proc_twice me x y sh : upd_proc me (set_xmin y) (upd_proc me (set_xmin x) sh) = upd_proc me (set_xmin y) sh.
Proof.
  unfold upd_proc. cbn. f_equal. generalize (allProcs sh). induction me as [|n IH]; intros [|p l]; cbn; try done.
  f_equal. apply IH.
Qed.

Lemma variant_put me sh sh' x : variant me sh sh' -> variant me sh (upd_proc me (set_xmin x) sh').
Proof. intros [->|[y ->]]; right; [by eexists|]. exists x. apply upd_proc_twice. Qed.

Lemma variant_length me sh sh' : variant me sh sh' -> length (allProcs sh') = length (allProcs sh).
Proof. intros [->|[y ->]]; [done|]. apply length_alter. Qed.

Section Inv.
Context (o : TransactionId) (me : nat).

(** A snapshot that may be used: its contents are good and, unless the
    transaction is ending, the advertised xmin covers it. *)
Definition good_in (V : view) (c : bool) (m : gmap nat SnapObj) (x : TransactionId) (a : nat) : Prop :=
  exists ob, m !! a = Some ob /\ contents V (snap (so_snap ob)) /\
    (c = true -> x <> InvalidTransactionId /\ xid_age o x <= xid_age o (obj_xmin ob)).

Record data_ok (V : view) (c : bool) (m : gmap nat SnapObj) (x : TransactionId) (l : list nat) : Prop := {
  da_good : forall a, a ∈ l -> good_in V c m x a;
  da_xmin : x = InvalidTransactionId \/ bound V x;
  da_static : forall a ob, (a < 3)%nat -> m !! a = Some ob -> reusable V (so_snap ob);
}.

(** The heap holds the referenced snapshots and the catalog snapshot. *)
Definition memory_ok (s : SnapMgr) : Prop :=
  exists L, mem_ok o (objs s) (RegisteredSnapshots s) (next_addr s) L (stack s) (refs s) /\
    forall a, a ∈ L <-> a ∈ refs s \/ CatalogSnapshot s = Some a.

Record core (V : view) (c : bool) (s : SnapMgr) : Prop := {
  co_memory : memory_ok s;
  co_data : data_ok V c (objs s) (MyProc_xmin s) (held s);
  co_oldest : OldestActiveSnapshot s = last (stack s);
  co_kept : NoDup (kept s);
  co_catalog : CatalogSnapshot s = None \/ CatalogSnapshot s = Some CatalogSnapshotData;
  co_me : MyProcNo (local s) = me;
  co_seen : variant me (seen V) (shared s);
}.

(** The variables. *)
Record vars_ok (s : SnapMgr) : Prop := {
  va_current : match FirstXactSnapshot s with
    | Some a => CurrentSnapshot s = Some a
    | None => CurrentSnapshot s = None \/ CurrentSnapshot s = Some CurrentSnapshotData
    end;
  va_secondary : SecondarySnapshot s = None \/ SecondarySnapshot s = Some SecondarySnapshotData;
  va_historic : HistoricSnapshot s = None;
  va_set : if FirstSnapshotSet s then is_Some (CurrentSnapshot s) else FirstXactSnapshot s = None;
}.

Record inv (V : view) (c : bool) (s : SnapMgr) : Prop := {
  in_core : core V c s;
  in_vars : vars_ok s;
}.

(** ** Frames *)

Lemma good_ext V c m m' x a : m' !! a = m !! a -> good_in V c m x a -> good_in V c m' x a.
Proof. intros E. unfold good_in. by rewrite E. Qed.

(** The counts do not matter. *)
Lemma good_counts V c m x a b ob ob' :
  m !! b = Some ob -> so_snap ob' = so_snap ob -> good_in V c m x a -> good_in V c (<[b := ob']> m) x a.
Proof.
  intros Hb E (oa & Ha & H). destruct (decide (a = b)) as [->|Hne].
  - exists ob'. rewrite lookup_insert_eq. split; [done|]. unfold obj_xmin in *. rewrite E. rewrite Hb in Ha. by injection Ha as <-.
  - exists oa. by rewrite lookup_insert_ne.
Qed.

Lemma data_sub V c m x l l' : (forall a, a ∈ l' -> a ∈ l) -> data_ok V c m x l -> data_ok V c m x l'.
Proof. intros Hl [H1 H2 H3]. constructor; auto. Qed.

Lemma data_more V c m x l l' :
  (forall a, a ∈ l' -> a ∈ l \/ good_in V c m x a) -> data_ok V c m x l -> data_ok V c m x l'.
Proof. intros Hl [H1 H2 H3]. constructor; [|done|done]. intros a Ha. destruct (Hl a Ha); auto. Qed.

Lemma data_counts V c m x l b ob ob' :
  m !! b = Some ob -> so_snap ob' = so_snap ob -> data_ok V c m x l -> data_ok V c (<[b := ob']> m) x l.
Proof.
  intros Hb E [H1 H2 H3]. constructor; [|done|].
  - intros a Ha. eapply good_counts; eauto.
  - intros a oa Ha. destruct (decide (a = b)) as [->|Hne]; [rewrite lookup_insert_eq|rewrite lookup_insert_ne by done].
    + intros [= <-]. rewrite E. by eapply H3.
    + by apply H3.
Qed.

(** Copies come and go. *)
Lemma data_frame V c m m' x l :
  (forall a, a ∈ l \/ (a < 3)%nat -> m' !! a = m !! a) -> data_ok V c m x l -> data_ok V c m' x l.
Proof.
  intros Hm [H1 H2 H3]. constructor; [|done|].
  - intros a Ha. eapply good_ext; [apply Hm; by left|auto].
  - intros a ob Ha E. eapply H3; [done|]. rewrite <- E. symmetry. apply Hm. by right.
Qed.

Lemma good_alloc V c s a : good_in V c (objs s) (MyProc_xmin s) a -> is_Some (objs s !! a).
Proof. intros (ob & E & _). by eexists. Qed.

Lemma held_alloc V c s a : core V c s -> a ∈ held s -> is_Some (objs s !! a).
Proof. intros [_ Hd _ _ _ _ _] Ha. by eapply good_alloc, da_good. Qed.
End Inv.

(** The variables, and the lists of what is in use. *)
Definition vars (s : SnapMgr) :=
  (CurrentSnapshot s, SecondarySnapshot s, HistoricSnapshot s, FirstXactSnapshot s, FirstSnapshotSet s).
Definition uses (s : SnapMgr) :=
  (ActiveSnapshot s, OldestActiveSnapshot s, exportedSnapshots s, owners s, pg_snapshots s).

Lemma vars_ok_same s s' : vars s' = vars s -> vars_ok s -> vars_ok s'.
Proof. intros E [H1 H2 H3 H4]. injection E as E1 E2 E3 E4 E5. constructor; by rewrite ?E1, ?E2, ?E3, ?E4, ?E5. Qed.

Section Ops.
Context (o : TransactionId) (me : nat) (V : view) (c : bool).
Context {HV : View o me V}.

Abbreviation core := (core o me V c).
Abbreviation good s := (good_in o V c (objs s) (MyProc_xmin s)).

(** ** Copies *)

Lemma referenced_high s a L : mem_ok o (objs s) (RegisteredSnapshots s) (next_addr s) L (stack s) (refs s) ->
  a ∈ stack s \/ a ∈ refs s -> (3 <= a)%nat.
Proof. intros Hm Ha. by apply (mo_alloc _ _ _ _ _ _ _ Hm a). Qed.

Lemma good_copied s a ob x :
  objs s !! a = Some ob -> good s a -> forall ob', objs x = <[next_addr s := ob']> (objs s) -> MyProc_xmin x = MyProc_xmin s ->
  snap (so_snap ob') = copied_data (snap (so_snap ob)) -> good x (next_addr s).
Proof.
  intros E (oa & Ea & Hc & Hx) ob' -> -> Es. exists ob'. rewrite lookup_insert_eq. rewrite E in Ea. injection Ea as <-.
  unfold obj_xmin. rewrite Es. split; [done|]. split; [by apply (vw_copied (o := o) (me := me))|done].
Qed.

Definition copy_of (ob : SnapObj) : SnapObj := mkSnapObj (mkSnap (copied_data (snap (so_snap ob))) 0) true 0 0 (lsn ob).

Lemma CopySnapshot_spec s a ob R :
  core s -> objs s !! a = Some ob ->
  wp (CopySnapshot a) (fun n s' => n = next_addr s /\ (3 <= n)%nat /\ (n ∉ held s) /\ core s' /\
    (exists h, s' = with_mem (<[n := copy_of ob]> (objs s)) h (S n) s) /\ (good s a -> good s' n) /\
    forall b, good s b -> good s' b) R s.
Proof.
  intros Hc Ha. pose proof Hc as [(L & Hm & HL) Hd Ho Hk Hcat Hme Hseen].
  destruct (mo_next _ _ _ _ _ _ _ Hm) as [H3 Hnext].
  assert (Hfree : forall b, is_Some (objs s !! b) -> b <> next_addr s) by (intros b ?%Hnext; lia).
  assert (Hn : next_addr s ∉ held s) by (intros Hin; by eapply (Hfree (next_addr s)); [eapply held_alloc|]).
  destruct (proj2 (mo_dom _ _ _ _ _ _ _ Hm a) (ex_intro _ ob Ha)) as [nd Hnd].
  unfold CopySnapshot. apply swp_bind, (wp_obj a ob); [done|]. apply wp_sget.
  apply swp_bind. rewrite Hnd. cbn. split; [done|]. split; [done|]. split; [done|].
  change (set_heap _ _) with (with_mem (<[next_addr s := copy_of ob]> (objs s)) (mkHeap (<[next_addr s := nd]> (ph_nodes (RegisteredSnapshots s))) (ph_root (RegisteredSnapshots s))) (S (next_addr s)) s).
  set (s' := with_mem _ _ _ s). split; [|split; [by eexists|split]].
  - constructor; try done.
    + exists L. split; [|done]. by apply mem_ok_alloc.
    + apply (data_frame _ _ _ (objs s)); [|done]. intros b Hb. apply lookup_insert_ne. intros <-.
      destruct Hb as [?|?]; [done|lia].
  - intros Hg. by eapply good_copied.
  - intros b Hg. eapply good_ext; [|exact Hg]. apply lookup_insert_ne, not_eq_sym, Hfree. by eapply good_alloc.
Qed.

(** The copy that the stack and resource owners keep. *)
Lemma own_copy_spec s a ob (b : bool) R :
  core s -> objs s !! a = Some ob -> good s a -> (b = false -> copied ob = true) ->
  wp (if b then CopySnapshot a else mret a) (fun n s' =>
    (3 <= n)%nat /\ core s' /\ good s' n /\ (exists ob', objs s' !! n = Some ob' /\ copied ob' = true) /\
    (exists m h k, s' = with_mem m h k s) /\ forall f, good s f -> good s' f) R s.
Proof.
  intros Hc Ha Hg Hb. destruct b.
  - eapply swp_mono; [by apply (CopySnapshot_spec s a ob R)| |done]. intros n s' (-> & H3 & _ & Hc' & [h ->] & Hg' & Hf).
    split_and!; [done|done|by apply Hg'| |by eexists _, _, _|done]. eexists. split; [apply lookup_insert_eq|done].
  - cbn. split_and!; [|done|done|exists ob; split; [done|by apply Hb]|by eexists _, _, _; apply with_mem_id|done].
    destruct Hc as [(L & Hm & _) _ _ _ _ _ _]. destruct (decide (3 <= a)%nat) as [?|Hlt]; [done|].
    destruct (mo_static _ _ _ _ _ _ _ Hm a) as (ob' & E & Hf); [lia|]. rewrite Ha in E. injection E as <-. by rewrite Hb in Hf.
Qed.

(** ** The stack *)

Definition level_ok (s : SnapMgr) (lvl : Z) : Prop :=
  match ActiveSnapshot s with top :: _ => as_level top <= lvl | [] => True end.

Lemma PushActiveSnapshotWithLevel_spec s a lvl R :
  core s -> good s a -> level_ok s lvl -> Z.of_nat (length (stack s)) + 1 < 2 ^ 32 ->
  wp (PushActiveSnapshotWithLevel a lvl) (fun _ s' => core s' /\ vars s' = vars s /\
    (exists n, stack s' = n :: stack s /\ good s' n) /\ refs s' = refs s /\ forall f, good s f -> good s' f) R s.
Proof.
  intros Hc Hg Hlvl Hlen. destruct (good_alloc _ _ _ _ _ Hg) as [ob Ha]. unfold PushActiveSnapshotWithLevel.
  apply wp_sget, wp_insist; [unfold level_ok in Hlvl; destruct (ActiveSnapshot s); [done|by apply Z.leb_le]|]. apply swp_bind, (wp_obj a ob); [done|]. apply swp_bind.
  eapply swp_mono; [apply (own_copy_spec s a ob _ R Hc Ha Hg)| |done].
  { intros Hb. apply orb_false_iff in Hb as [_ Hb]. by apply negb_false_iff in Hb. }
  intros n s1 (H3 & Hc1 & Hg1 & (ob1 & Hn & Hcp) & (m & h & k & ->) & Hf1). cbn [objs with_mem] in Hn.
  apply swp_bind, (wp_active_count 1 n ob1); [done|].
  destruct Hc1 as [(L & Hm & HL) Hd Ho Hk Hcat Hme Hseen].
  assert (Hgd : forall f, good (with_mem m h k s) f ->
    good_in o V c (<[n := mkSnapObj (so_snap ob1) (copied ob1) (u32 (active_count ob1 + 1)) (regd_count ob1) (lsn ob1)]> m) (MyProc_xmin s) f).
  { intros f Hf. by eapply good_counts. }
  split; [|split_and!; [done|exists n; split; [done|by apply Hgd]|done|intros f Hf; by apply Hgd, Hf1]].
  constructor; try done.
  - exists L. split; [|done]. by apply mem_ok_push.
  - apply (data_counts _ _ _ m _ _ n ob1); [done|done|]. eapply data_more; [|exact Hd].
    intros b Hb. change (b ∈ n :: held s) in Hb. apply elem_of_cons in Hb as [->|Hb]; [by right|by left].
  - change (match OldestActiveSnapshot s with None => Some n | Some x => Some x end = last (n :: stack s)).
    rewrite last_cons. change (OldestActiveSnapshot s = last (stack s)) in Ho. rewrite Ho. by destruct (last (stack s)).
Qed.

Lemma drop_active_spec s R :
  core s -> ActiveSnapshot s <> [] ->
  wp drop_active (fun _ s' => core s' /\ vars s' = vars s /\ ActiveSnapshot s' = tail (ActiveSnapshot s) /\
    owners s' = owners s /\ exportedSnapshots s' = exportedSnapshots s /\ CatalogSnapshot s' = CatalogSnapshot s) R s.
Proof.
  intros Hc Hne. pose proof Hc as [(L & Hm & HL) Hd Ho Hk Hcat Hme Hseen].
  unfold drop_active. apply wp_sget.
  destruct (ActiveSnapshot s) as [|[a lvl] rest] eqn:Ea; [done|]. cbn [as_snap tail].
  assert (Es : stack s = a :: (as_snap <$> rest)) by (unfold stack; by rewrite Ea).
  assert (Hh : held s = a :: (as_snap <$> rest) ++ refs s ++ option_list (CatalogSnapshot s)) by (unfold held; by rewrite Es).
  destruct (held_alloc _ _ _ _ _ a Hc) as [ob Ha]; [rewrite Hh; set_solver|].
  rewrite Es in Hm. destruct (mem_ok_pop _ _ _ _ _ _ _ _ _ Hm Ha) as (Hm' & H3 & Hpos).
  apply swp_bind, (wp_obj a ob); [done|]. apply wp_insist; [by apply Z.ltb_lt|].
  apply swp_bind, (wp_active_count (-1) a ob); [done|].
  set (ob' := mkSnapObj _ _ _ _ _). apply swp_bind, (wp_obj a ob'); [apply lookup_insert_eq|].
  assert (Hd' : data_ok o V c (<[a := ob']> (objs s)) (MyProc_xmin s) ((as_snap <$> rest) ++ refs s ++ option_list (CatalogSnapshot s))).
  { apply (data_counts _ _ _ (objs s) _ _ a ob); [done|done|]. eapply data_sub; [|exact Hd]. intros b Hb. rewrite Hh. by right. }
  assert (Hlast : match rest with [] => None | _ => OldestActiveSnapshot s end = last (as_snap <$> rest)).
  { rewrite Ho, Es. by destruct rest. }
  apply swp_bind, wp_when.
  - intros [Hz1 Hz2]%andb_prop. apply Z.eqb_eq in Hz1, Hz2.
    destruct (mo_copied _ _ _ _ _ _ _ Hm' a ob' H3 (lookup_insert_eq _ _ _)) as (Hcp & Hn1 & Hn2).
    assert (Hn1' : a ∉ as_snap <$> rest) by (apply occurs_zero; lia). assert (Hn2' : a ∉ refs s) by (apply occurs_zero; lia).
    assert (Hcat' : CatalogSnapshot s <> Some a) by (destruct Hcat as [->| ->]; [done|unfold CatalogSnapshotData; intros [= <-]; lia]).
    assert (HnL : a ∉ L) by (rewrite HL; naive_solver).
    unfold FreeSnapshot. apply swp_bind, (wp_obj a ob'); [apply lookup_insert_eq|]. rewrite Hz1, Hz2, Hcp. cbn.
    split_and!; try done. constructor; try done.
    + exists L. split; [|done]. exact (mem_ok_free _ _ _ _ _ _ _ a Hm' H3 HnL Hn1' Hn2').
    + eapply data_frame; [|exact Hd']. intros b Hb. apply lookup_delete_ne. intros <-. destruct Hb as [Hb|?]; [|lia].
      change (a ∈ (as_snap <$> rest) ++ refs s ++ option_list (CatalogSnapshot s)) in Hb.
      rewrite !elem_of_app, elem_option_list in Hb. naive_solver.
  - intros _. split_and!; try done. constructor; try done. by exists L.
Qed.

(** ** The advertised xmin *)

Lemma put_xmin_xmin s x : MyProcNo (local s) = me -> variant me (seen V) (shared s) -> MyProc_xmin (put_xmin x s) = x.
Proof.
  intros Hme Hs. unfold MyProc_xmin, put_xmin. cbn [shared local set_procs]. rewrite Hme.
  unfold proc at 1. cbn [allProcs upd_proc]. rewrite (proc_alter_eq (shared s) me (set_xmin x)); [done|].
  rewrite (variant_length me _ _ Hs). apply (vw_me (o := o)).
Qed.

(** Another xmin, when it covers what is in use. *)
Lemma core_put_xmin s x :
  core s -> x = InvalidTransactionId \/ bound V x ->
  (c = true -> forall a ob, a ∈ held s -> objs s !! a = Some ob -> x <> InvalidTransactionId /\ xid_age o x <= xid_age o (obj_xmin ob)) ->
  core (put_xmin x s).
Proof.
  intros [Hm [H1 H2 H3] Ho Hk Hcat Hme Hs] Hx Hcov. constructor; try done.
  - rewrite put_xmin_xmin by done. constructor; [|done|done]. intros a Ha. destruct (H1 a Ha) as (ob & E & Hc & _).
    exists ob. split; [done|]. split; [done|]. intros Hct. by apply (Hcov Hct a).
  - cbn [shared put_xmin set_procs]. rewrite Hme. by apply variant_put.
Qed.

Lemma precedes_invalid x : in_window o x -> TransactionIdPrecedes InvalidTransactionId x = true.
Proof. intros [Hx _]. revert Hx. xid_unfold. intros Hx. apply Z.ltb_lt. lia. Qed.

Lemma SnapshotResetXmin_spec s R :
  core s -> wp SnapshotResetXmin (fun _ s' => core s' /\ (s' = s \/ exists x, s' = put_xmin x s)) R s.
Proof.
  intros Hc. pose proof Hc as [(L & Hm & HL) Hd Ho Hk Hcat Hme Hs]. unfold SnapshotResetXmin. apply wp_sget.
  destruct (ActiveSnapshot s) eqn:Ea; [|by split; [|left]].
  assert (Hheld : forall a, a ∈ held s <-> a ∈ L) by (intros a; rewrite elem_held, HL; unfold stack; rewrite Ea; set_solver).
  rewrite (mem_ok_empty _ _ _ _ _ _ _ Hm). case_bool_decide as HLe.
  - split; [|right; by eexists]. apply core_put_xmin; [done|by left|]. intros _ a ob. rewrite Hheld, HLe. by intros ?%not_elem_of_nil.
  - destruct (mem_ok_first _ _ _ _ _ _ _ Hm HLe) as (a & ob & Hf & E & Ha & Hw & Hmin). rewrite Hf. apply swp_bind. cbn [lift].
    apply swp_ret, swp_bind, (wp_obj a ob); [done|]. pose proof (da_good _ _ _ _ _ _ Hd) as Hgood.
    assert (Hb : bound V (obj_xmin ob)).
    { destruct (Hgood a) as (ob' & E' & Hcn & _); [by apply Hheld|]. rewrite E in E'. injection E' as <-.
      by apply (vw_xmin (o := o) (me := me)). }
    apply wp_when; [|by split; [|left]]. intros Hpre. split; [|right; by eexists]. apply core_put_xmin; [done|by right|].
    intros _ b ob' Hin E'. split; [|apply (Hmin b); [by apply Hheld|done]].
    intros Hz. destruct Hw as [Hn _]. change (obj_xmin ob = InvalidTransactionId) in Hz. rewrite Hz in Hn. by destruct Hn.
Qed.

Lemma PopActiveSnapshot_spec s R :
  core s -> ActiveSnapshot s <> [] ->
  wp PopActiveSnapshot (fun _ s' => core s' /\ vars s' = vars s /\ ActiveSnapshot s' = tail (ActiveSnapshot s) /\
    owners s' = owners s /\ exportedSnapshots s' = exportedSnapshots s) R s.
Proof.
  intros Hc Hne. apply swp_bind. eapply swp_mono; [by apply (drop_active_spec s R)| |done].
  intros [] s1 (Hc1 & Hv & Ha & Ho & He & _). eapply swp_mono; [by apply (SnapshotResetXmin_spec s1 R)| |done].
  intros [] s2 [Hc2 [->|[x ->]]]; by split_and!.
Qed.

(** ** The heap *)

(** An element leaves the heap together with what it was there for. *)
Lemma heap_remove_spec s a L (Q : unit -> SnapMgr -> Prop) R :
  mem_ok o (objs s) (RegisteredSnapshots s) (next_addr s) L (stack s) (refs s) -> a ∈ L ->
  (forall h L', mem_ok o (objs s) h (next_addr s) L' (stack s) (refs s) -> (forall b, b ∈ L' <-> b ∈ L /\ b <> a) ->
     Q tt (with_mem (objs s) h (next_addr s) s)) ->
  wp (heap_remove a) Q R s.
Proof.
  intros Hm Ha HQ. destruct (mem_ok_remove _ _ _ _ _ _ _ a Hm Ha) as (h & L' & E & HP & Hna & Hm').
  apply (wp_heap_remove a h); [done|]. apply (HQ h L'); [done|]. intros b. rewrite HP, elem_of_cons. naive_solver.
Qed.

Lemma InvalidateCatalogSnapshot_spec s R :
  core s ->
  wp InvalidateCatalogSnapshot (fun _ s' => core s' /\ vars s' = vars s /\ uses s' = uses s /\ CatalogSnapshot s' = None /\
    objs s' = objs s /\ MyProcNo (local s') = me) R s.
Proof.
  intros Hc. pose proof Hc as [(L & Hm & HL) Hd Ho Hk Hcat Hme Hs]. unfold InvalidateCatalogSnapshot. apply wp_sget.
  destruct (CatalogSnapshot s) as [a|] eqn:Ea; [|by cbn; split_and!].
  assert (a = CatalogSnapshotData) as -> by naive_solver.
  apply swp_bind, (heap_remove_spec s CatalogSnapshotData L); [done|rewrite HL; by right|]. intros h L' Hm' HL'.
  apply wp_supd. eapply swp_mono; [apply (SnapshotResetXmin_spec (set_CatalogSnapshot None (with_mem (objs s) h (next_addr s) s)) R)| |done].
  - constructor; try done; [exists L'; split; [done|]| |by left].
    + intros a. rewrite HL', HL. split; [|intros [Hin|?]; [|done]].
      * intros [[Hin|?] Hne]; [by left|naive_solver].
      * split; [by left|]. intros ->. unfold CatalogSnapshotData in *. pose proof (referenced_high s 2 L Hm (or_intror Hin)). lia.
    + eapply data_sub; [|exact Hd]. intros a. rewrite !elem_held. naive_solver.
  - intros [] s2 [Hc2 [->|[x ->]]]; by split_and!.
Qed.

Lemma assert_no_snapshots_spec s :
  core s -> refs s = [] -> CatalogSnapshot s = None -> assert_no_snapshots s = Done tt s.
Proof.
  intros [(L & Hm & HL) _ _ _ _ _ _] Hr Hc. unfold assert_no_snapshots, mbind, sm_bind, sget. rewrite (mem_ok_empty _ _ _ _ _ _ _ Hm).
  rewrite bool_decide_eq_true_2; [|apply elem_of_nil_inv; intros a; rewrite HL, Hr, Hc; by intros [?%not_elem_of_nil|?]].
  unfold refs, kept in Hr. apply app_nil in Hr as [_ Hr]. apply app_nil in Hr as [Hr _]. by destruct (FirstXactSnapshot s).
Qed.

Lemma InvalidateCatalogSnapshotConditionally_spec s R :
  core s ->
  wp InvalidateCatalogSnapshotConditionally (fun _ s' => core s' /\ vars s' = vars s /\ uses s' = uses s) R s.
Proof.
  intros Hc. pose proof Hc as [(L & Hm & HL) _ _ _ _ _ _]. unfold InvalidateCatalogSnapshotConditionally. apply wp_sget.
  destruct (CatalogSnapshot s); [|done]. destruct (ActiveSnapshot s); [|done]. apply swp_bind.
  rewrite (pairingheap_singular_ok (above o (objs s)) _ L) by apply Hm.
  cbn [lift]. apply swp_ret, wp_when; [|done]. intros _.
  eapply swp_mono; [by apply (InvalidateCatalogSnapshot_spec s R)| |done]. intros [] s' (? & ? & ? & _). done.
Qed.

(** ** Resource owners *)

Lemma refs_owner l s a owner : owners s ≡ₚ (owner, a) :: l -> refs s ≡ₚ a :: refs (set_owners l s).
Proof. intros E. unfold refs. cbn [owners set_owners]. by rewrite E. Qed.

Lemma good_xmin s a : good s a -> has_xmin (in_window o) (objs s) a.
Proof.
  intros (ob & E & Hc & _). exists ob. split; [done|]. apply (vw_window (me := me) (V := V)), (vw_xmin (o := o) (me := me)), Hc.
Qed.

Lemma RegisterSnapshotOnOwner_spec s a owner R :
  core s -> good s a -> Z.of_nat (length (refs s)) + 1 < 2 ^ 32 ->
  wp (RegisterSnapshotOnOwner a owner) (fun n s' => core s' /\ vars s' = vars s /\ owners s' = owners s ++ [(owner, n)] /\
    ActiveSnapshot s' = ActiveSnapshot s /\ exportedSnapshots s' = exportedSnapshots s /\ good s' n /\
    forall f, good s f -> good s' f) R s.
Proof.
  intros Hc Hg Hlen. destruct (good_alloc _ _ _ _ _ Hg) as [ob Ha]. unfold RegisterSnapshotOnOwner.
  apply swp_bind, (wp_obj a ob); [done|]. apply swp_bind.
  replace (if copied ob then mret a else CopySnapshot a) with (if negb (copied ob) then CopySnapshot a else mret a)
    by (by destruct (copied ob)).
  eapply swp_mono; [apply (own_copy_spec s a ob _ R Hc Ha Hg)| |done].
  { by intros Hb%negb_false_iff. }
  intros n s1 (H3 & Hc1 & Hg1 & (ob1 & Hn & Hcp) & (m & h & k & ->) & Hf1). cbn [objs with_mem] in Hn.
  apply swp_bind, (wp_regd_count 1 n ob1); [done|]. cbn [objs with_mem RegisteredSnapshots next_addr].
  destruct Hc1 as [(L & Hm & HL) Hd Ho Hk Hcat Hme Hseen].
  destruct (mem_ok_ref _ _ _ _ _ _ _ n ob1 Hm H3 Hn Hlen) as [Hm' Hcnt]. cbn [objs with_mem RegisteredSnapshots next_addr] in Hm'.
  change (refs (with_mem m h k s)) with (refs s) in *. set (ob2 := mkSnapObj _ _ _ _ _) in *. unfold ResourceOwnerRememberSnapshot. apply wp_supd.
  set (s2 := set_owners _ _). apply swp_bind, (wp_obj n ob2); [apply lookup_insert_eq|].
  assert (Hrefs : refs s2 ≡ₚ n :: refs s).
  { apply (refs_owner (owners s) s2 n owner). cbn. apply Permutation_app_comm. }
  assert (Hgd : forall f, good (with_mem m h k s) f -> good s2 f) by (intros f Hf; by eapply good_counts).
  assert (Hd' : data_ok o V c (objs s2) (MyProc_xmin s2) (held s2)).
  { eapply data_more; [|eapply (data_counts _ _ _ m _ _ n ob1 ob2); [done|done|exact Hd]]. intros b. rewrite !elem_held, Hrefs, elem_of_cons.
    intros [Hb|[[->|Hb]|Hb]]; [left; by left|right; by apply Hgd|left; right; by left|left; right; by right]. }
  apply (mem_ok_perm _ _ _ _ L L _ (stack s2) _ (refs s2)) in Hm'; [|done|done|by rewrite Hrefs].
  assert (HnL : n ∈ L <-> n ∈ refs s).
  { rewrite HL. split; [intros [?|E]; [done|]|by left]. cbn in E, Hcat. unfold CatalogSnapshotData in Hcat. destruct Hcat as [?|?]; [congruence|].
    assert (n = 2%nat) by congruence. lia. }
  apply swp_bind, wp_when; cbn [regd_count ob2].
  - intros Hz%Z.eqb_eq. assert (Hnew : n ∉ refs s) by (apply occurs_zero; lia).
    destruct (mem_ok_add _ _ _ _ _ _ _ n Hm') as (h' & E & Hm2); [by rewrite HnL|by apply (good_xmin s2), Hgd|].
    apply (wp_heap_add n h'); [exact E|]. split; [|by split_and!; [..|by apply Hgd|intros f Hf; by apply Hgd, Hf1]].
    constructor; try done. exists (n :: L). split; [done|]. intros b. rewrite elem_of_cons, HL.
    change (refs (with_mem _ _ _ s2)) with (refs s2). rewrite Hrefs, elem_of_cons. cbn. tauto.
  - intros Hz%Z.eqb_neq. assert (Hold : n ∈ refs s) by (apply occurs_elem; lia).
    cbn. split; [|by split_and!; [..|by apply Hgd|intros f Hf; by apply Hgd, Hf1]].
    constructor; try done. exists L. split; [done|]. intros b. rewrite HL, Hrefs, elem_of_cons. cbn. naive_solver.
Qed.

Lemma remove_one_spec r l : r ∈ l -> exists l', remove_one r l = Some l' /\ l ≡ₚ r :: l'.
Proof.
  induction l as [|x l IH]; [by intros ?%not_elem_of_nil|]. intros Hin. cbn [remove_one].
  destruct (decide (x = r)) as [->|Hne]; [by eexists|]. apply elem_of_cons in Hin as [?|Hin]; [done|].
  destruct (IH Hin) as (l' & -> & HP). exists (x :: l'). split; [done|]. rewrite HP. apply Permutation_swap.
Qed.

(** An element that is no longer referenced leaves the heap and, unless it is
    on the stack, the memory. *)
Lemma unreferenced_spec s a ob L R :
  mem_ok o (objs s) (RegisteredSnapshots s) (next_addr s) L (stack s) (refs s) ->
  (forall b, b ∈ L <-> b = a \/ b ∈ refs s \/ CatalogSnapshot s = Some b) ->
  (forall s', memory_ok o s' -> objs s' = objs s \/ objs s' = delete a (objs s) /\ a ∉ stack s -> held s' = held s ->
     MyProc_xmin s' = MyProc_xmin s -> local s' = local s -> shared s' = shared s -> uses s' = uses s -> vars s' = vars s ->
     CatalogSnapshot s' = CatalogSnapshot s -> core s') ->
  (3 <= a)%nat -> a ∉ refs s -> objs s !! a = Some ob -> (CatalogSnapshot s <> Some a) ->
  wp (when (regd_count ob =? 0) (heap_remove a);;
      when ((regd_count ob =? 0) && (active_count ob =? 0)) (FreeSnapshot a;; SnapshotResetXmin))
    (fun _ s' => core s' /\ vars s' = vars s /\ uses s' = uses s) R s.
Proof.
  intros Hm HL Hcore H3 Hna Ha Hcat. destruct (mo_copied _ _ _ _ _ _ _ Hm a ob H3 Ha) as (Hcp & Hac & Hrc).
  assert (Hz : regd_count ob = 0) by (rewrite Hrc, (proj2 (occurs_zero _ _) Hna); done). rewrite Hz. cbn [Z.eqb when andb].
  apply swp_bind, (heap_remove_spec s a L); [done|rewrite HL; by left|]. intros h L' Hm' HL'. set (s1 := with_mem _ _ _ s).
  assert (HL1 : forall b, b ∈ L' <-> b ∈ refs s1 \/ CatalogSnapshot s1 = Some b) by (intros b; rewrite HL', HL; cbn; naive_solver).
  apply wp_when.
  - intros Hac0%Z.eqb_eq. assert (Hns : a ∉ stack s) by (apply occurs_zero; lia).
    apply swp_bind. unfold FreeSnapshot. apply swp_bind, (wp_obj a ob); [done|]. apply wp_insist; [by rewrite Hz, Hac0, Hcp|].
    apply wp_sget. apply wp_supd. cbn. set (s2 := set_heap _ _).
    eapply swp_mono; [apply (SnapshotResetXmin_spec s2 R)| |done].
    + apply Hcore; try done; [|by right]. exists L'. split; [|done].
      apply (mem_ok_free _ _ _ _ _ _ _ a Hm' H3); [|done|done]. rewrite HL'. naive_solver.
    + intros [] s3 [Hc3 [->|[x ->]]]; by split_and!.
  - intros _. split; [|done]. apply Hcore; try done; [|by left]. by exists L'.
Qed.

Lemma UnregisterSnapshotFromOwner_spec s a owner R :
  core s -> (owner, a) ∈ owners s ->
  wp (UnregisterSnapshotFromOwner a owner) (fun _ s' => core s' /\ vars s' = vars s /\
    owners s ≡ₚ (owner, a) :: owners s' /\ ActiveSnapshot s' = ActiveSnapshot s /\
    exportedSnapshots s' = exportedSnapshots s) R s.
Proof.
  intros Hc Hin. pose proof Hc as [(L & Hm & HL) Hd Ho Hk Hcat Hme Hseen].
  destruct (remove_one_spec _ _ Hin) as (l & Hl & HP). pose proof (refs_owner l s a owner HP) as Hrefs.
  assert (Har : a ∈ refs s) by (rewrite Hrefs; set_solver).
  destruct (held_alloc _ _ _ _ _ a Hc) as [ob Ha]; [rewrite elem_held; tauto|].
  apply (mem_ok_perm _ _ _ _ L L _ (stack s) _ (a :: refs (set_owners l s))) in Hm; [|done..].
  destruct (mem_ok_unref _ _ _ _ _ _ _ a ob Hm Ha) as (Hm' & H3 & Hpos & Hrc & Hac).
  unfold UnregisterSnapshotFromOwner. apply swp_bind, (wp_obj a ob); [done|]. apply wp_insist; [by apply Z.ltb_lt|].
  apply wp_sget, wp_insist.
  { rewrite (mem_ok_empty _ _ _ _ _ _ _ Hm), bool_decide_eq_false_2; [done|]. intros ->.
    destruct (not_elem_of_nil a). rewrite HL. by left. }
  unfold ResourceOwnerForgetSnapshot. apply swp_bind, wp_sget. rewrite Hl. cbn [supd wp].
  apply swp_bind, (wp_regd_count (-1) a ob); [done|]. set (ob' := mkSnapObj _ _ _ _ _) in *. set (s1 := with_mem _ _ _ _).
  apply swp_bind, (wp_obj a ob'); [apply lookup_insert_eq|].
  assert (Hcat' : CatalogSnapshot s <> Some a) by (destruct Hcat as [->| ->]; [done|unfold CatalogSnapshotData; intros [= <-]; lia]).
  assert (Hd' : data_ok o V c (objs s1) (MyProc_xmin s1) (held s1)).
  { apply (data_counts _ _ _ (objs s) _ _ a ob); [done|done|]. eapply data_sub; [|exact Hd]. intros b. rewrite !elem_held.
    change (refs s1) with (refs (set_owners l s)). rewrite Hrefs, elem_of_cons. cbn. tauto. }
  destruct (decide (a ∈ refs s1)) as [Hstill|Hgone].
  - assert (Hnz : regd_count ob' <> 0) by (cbn; rewrite Hrc; apply occurs_elem in Hstill; change (refs s1) with (refs (set_owners l s)) in Hstill; lia).
    apply Z.eqb_neq in Hnz. rewrite Hnz. cbn. split_and!; try done. constructor; try done. exists L. split; [done|].
    intros b. rewrite HL, Hrefs, elem_of_cons. split; [intros [[->|?]|?]; [by left|by left|by right]|].
    intros [?|?]; [left; by right|by right].
  - eapply swp_mono; [apply (unreferenced_spec s1 a ob' L R)| |done]; try done.
    + intros b. rewrite HL, Hrefs, elem_of_cons. cbn. tauto.
    + intros s' Hmem Hobjs Hh Hx Hlo Hsh Hu [= Hv1 Hv2 Hv3 Hv4 Hv5] Hct. injection Hu as Hu1 Hu2 Hu3 Hu4 Hu5. constructor; [done| | | | | |].
      * rewrite Hh, Hx. destruct Hobjs as [->|[-> Hns]]; [done|]. eapply data_frame; [|exact Hd'].
        intros b Hb. apply lookup_delete_ne. intros <-. destruct Hb as [Hb|?]; [|lia]. rewrite elem_held in Hb. naive_solver.
      * unfold stack. by rewrite Hu1, Hu2.
      * unfold kept. by rewrite Hv4, Hu3.
      * by rewrite Hct.
      * by rewrite Hlo.
      * by rewrite Hsh.
    + apply lookup_insert_eq.
    + intros [] s' (Hc' & Hv & Hu). injection Hu as Hu1 Hu2 Hu3 Hu4 Hu5. cbn in *. split_and!; try done. by rewrite Hu4.
Qed.

Lemma any_owned_spec owner l :
  match any_owned owner l with Some a => (owner, a) ∈ l | None => forall a, (owner, a) ∉ l end.
Proof.
  unfold any_owned. destruct (list_find _ l) as [[i [w a]]|] eqn:E; cbn.
  - apply list_find_Some in E as (Hl & Hw & _). cbn in Hw. subst w. by eapply list_elem_of_lookup_2.
  - apply list_find_None in E. intros a Ha. by eapply Forall_forall in Ha; [|exact E].
Qed.

(** Every reference of an owner is released. *)
Lemma ResourceOwnerReleaseSnapshots_spec s owner R :
  core s ->
  wp (ResourceOwnerReleaseSnapshots owner) (fun _ s' => core s' /\ vars s' = vars s /\
    (forall a, (owner, a) ∉ owners s') /\ (forall r, r ∈ owners s' -> r ∈ owners s) /\ ActiveSnapshot s' = ActiveSnapshot s /\
    exportedSnapshots s' = exportedSnapshots s) R s.
Proof.
  intros Hc. unfold ResourceOwnerReleaseSnapshots. apply wp_sget. generalize (le_n (length (owners s))).
  generalize (length (owners s)) at 2 3. intros n. revert s Hc. induction n as [|n IH]; intros s Hc Hlen; cbn [release_snapshots];
    apply wp_sget; pose proof (any_owned_spec owner (owners s)) as Hany; destruct (any_owned owner (owners s)) as [a|] eqn:Ea;
    try (cbn; by split_and!).
  - destruct (owners s); [by apply not_elem_of_nil in Hany|cbn in Hlen; lia].
  - apply swp_bind. eapply swp_mono; [by apply (UnregisterSnapshotFromOwner_spec s a owner R)| |done].
    intros [] s1 (Hc1 & Hv1 & HP & Ha1 & He1). eapply swp_mono; [apply IH; [done|]| |done].
    + apply Permutation_length in HP. cbn in HP. lia.
    + intros [] s2 (Hc2 & Hv2 & Hno & Hsub & Ha2 & He2). split_and!; try done; try congruence.
      intros r Hr. rewrite HP. right. by apply Hsub.
Qed.

Lemma release_owners_spec l s R :
  core s ->
  wp (release_owners l) (fun _ s' => core s' /\ vars s' = vars s /\ (forall r, r ∈ owners s' -> r ∈ owners s /\ r.1 ∉ l) /\
    ActiveSnapshot s' = ActiveSnapshot s /\ exportedSnapshots s' = exportedSnapshots s) R s.
Proof.
  revert s. induction l as [|owner l IH]; intros s Hc; cbn [release_owners].
  { cbn. split_and!; try done. intros r Hr. split; [done|]. apply not_elem_of_nil. }
  apply swp_bind. eapply swp_mono; [by apply (ResourceOwnerReleaseSnapshots_spec s owner R)| |done].
  intros [] s1 (Hc1 & Hv1 & Hno & Hsub & Ha1 & He1). eapply swp_mono; [by apply IH| |done].
  intros [] s2 (Hc2 & Hv2 & Hr & Ha2 & He2). split_and!; try done; try congruence.
  intros [w a] Hin. destruct (Hr _ Hin) as [Hin1 Hnl]. split; [by apply Hsub|]. cbn in *. rewrite not_elem_of_cons. split; [|done].
  intros ->. by apply (Hno a).
Qed.

(** ** Subtransactions *)

Lemma relabel_snaps level l : as_snap <$> relabel level l = as_snap <$> l.
Proof. induction l as [|e l IH]; cbn; [done|]. case_if; [done|]. cbn. by rewrite IH. Qed.

Lemma AtSubCommit_Snapshot_spec s level R :
  core s -> wp (AtSubCommit_Snapshot level) (fun _ s' => core s' /\ vars s' = vars s /\ stack s' = stack s /\
    (owners s', exportedSnapshots s') = (owners s, exportedSnapshots s) /\ forall f, good s f -> good s' f) R s.
Proof.
  intros [(L & Hm & HL) Hd Ho Hk Hcat Hme Hs]. cbn.
  assert (Es : stack (set_active (relabel level (ActiveSnapshot s)) (OldestActiveSnapshot s) s) = stack s).
  { unfold stack. cbn. apply relabel_snaps. }
  split_and!; try done. constructor; try done.
  - exists L. split; [|done]. by rewrite Es.
  - unfold held. by rewrite Es.
  - by rewrite Es.
Qed.

Lemma drop_levels_spec level l s R :
  core s -> ActiveSnapshot s = l ->
  wp (drop_levels level l) (fun _ s' => core s' /\ vars s' = vars s /\
    (exists l1, l = l1 ++ ActiveSnapshot s' /\ Forall (fun e => level <= as_level e) l1) /\
    match ActiveSnapshot s' with e :: _ => as_level e < level | [] => True end /\
    (owners s', exportedSnapshots s') = (owners s, exportedSnapshots s)) R s.
Proof.
  revert s. induction l as [|e l IH]; intros s Hc El; cbn [drop_levels].
  { cbn. rewrite El. by split_and!; try done; exists []. }
  destruct (Z.leb_spec level (as_level e)) as [Hle|Hlt].
  2: { cbn. rewrite El. by split_and!; try done; exists []. }
  apply swp_bind. eapply swp_mono; [apply (drop_active_spec s R Hc); by rewrite El| |done].
  intros [] s1 (Hc1 & Hv1 & Ha1 & Ho1 & He1 & _). rewrite El in Ha1. eapply swp_mono; [by apply IH| |done].
  intros [] s2 (Hc2 & Hv2 & (l1 & El1 & Hl1) & Htop & [= Ho2 He2]). split_and!; try done; try congruence.
  exists (e :: l1). split; [by rewrite El1 at 1|]. by constructor.
Qed.

Lemma AtSubAbort_Snapshot_spec s level R :
  core s -> wp (AtSubAbort_Snapshot level) (fun _ s' => core s' /\ vars s' = vars s /\
    (exists l1, ActiveSnapshot s = l1 ++ ActiveSnapshot s' /\ Forall (fun e => level <= as_level e) l1) /\
    match ActiveSnapshot s' with e :: _ => as_level e < level | [] => True end /\
    (owners s', exportedSnapshots s') = (owners s, exportedSnapshots s)) R s.
Proof.
  intros Hc. unfold AtSubAbort_Snapshot. apply wp_sget, swp_bind.
  eapply swp_mono; [by apply (drop_levels_spec level _ s R)| |done]. intros [] s1 (Hc1 & Hv1 & Hl & Htop & Ho1).
  eapply swp_mono; [by apply (SnapshotResetXmin_spec s1 R)| |done]. intros [] s2 [Hc2 [->|[x ->]]]; by split_and!.
Qed.

(** ** Command ids *)

Definition with_curcid (cid : CommandId) (ob : SnapObj) : SnapObj :=
  mkSnapObj (mkSnap (set_curcid cid (snap (so_snap ob))) (snapXactCompletionCount (so_snap ob)))
    (copied ob) (active_count ob) (regd_count ob) (lsn ob).

Lemma good_curcid s a b ob cid :
  objs s !! b = Some ob -> good s a -> good_in o V c (<[b := with_curcid cid ob]> (objs s)) (MyProc_xmin s) a.
Proof.
  intros Hb (oa & Ha & Hc & Hx). destruct (decide (a = b)) as [->|Hne].
  - exists (with_curcid cid ob). rewrite lookup_insert_eq. rewrite Hb in Ha. injection Ha as <-.
    split; [done|]. split; [by apply (vw_curcid (o := o) (me := me))|done].
  - exists oa. by rewrite lookup_insert_ne.
Qed.

Lemma set_obj_curcid_spec s a ob cid R :
  core s -> objs s !! a = Some ob ->
  wp (set_obj_curcid cid a) (fun _ s' => core s' /\ vars s' = vars s /\ uses s' = uses s /\
    objs s' = <[a := with_curcid cid ob]> (objs s) /\ forall f, good s f -> good s' f) R s.
Proof.
  intros [(L & Hm & HL) Hd Ho Hk Hcat Hme Hs] Ha. apply swp_bind, (wp_obj a ob); [done|]. fold (with_curcid cid ob). cbn.
  split_and!; try done; [|intros f; by apply (good_curcid s)]. constructor; try done.
  - exists L. split; [|done]. pose proof (mo_small _ _ _ _ _ _ _ Hm) as [? ?].
    eapply (mem_ok_put _ _ _ _ L (stack s) (refs s)); try done.
    + intros H3. apply (mo_copied _ _ _ _ _ _ _ Hm a ob H3 Ha).
    + intros b Hb. by right.
  - destruct Hd as [H1 H2 H3]. constructor; [|done|].
    + intros b Hb. apply (good_curcid s); [done|by apply H1].
    + intros b ob' Hb. cbn. destruct (decide (b = a)) as [->|Hne]; [rewrite lookup_insert_eq|rewrite lookup_insert_ne by done].
      * intros [= <-]. apply (vw_reusable (o := o) (me := me)). by eapply H3.
      * by apply H3.
Qed.

Lemma SnapshotSetCommandId_spec s cid R :
  core s -> vars_ok s ->
  wp (SnapshotSetCommandId cid) (fun _ s' => core s' /\ vars s' = vars s /\ uses s' = uses s /\
    forall f, good s f -> good s' f) R s.
Proof.
  intros Hc Hv. unfold SnapshotSetCommandId. apply wp_sget. destruct (FirstSnapshotSet s); cbn [negb]; [|done].
  assert (Hset : forall s1 a, core s1 -> a = None \/ (exists b, a = Some b /\ is_Some (objs s1 !! b)) ->
    wp (match a with Some a => set_obj_curcid cid a | None => mret tt end) (fun _ s' => core s' /\ vars s' = vars s1 /\ uses s' = uses s1 /\
      (forall b, is_Some (objs s1 !! b) -> is_Some (objs s' !! b)) /\ forall f, good s1 f -> good s' f) R s1).
  { intros s1 a Hc1 [->|(b & -> & [ob Hb])]; [done|]. eapply swp_mono; [by apply (set_obj_curcid_spec s1 b ob cid R)| |done].
    intros [] s2 (? & ? & ? & -> & ?). split_and!; try done. intros b' ?. rewrite lookup_insert_is_Some'. by right. }
  assert (Hstat : forall a, (a < 3)%nat -> is_Some (objs s !! a)).
  { intros a Ha. pose proof (co_memory _ _ _ _ _ Hc) as (L & Hm & _). destruct (mo_static _ _ _ _ _ _ _ Hm a Ha) as (ob & -> & _). by eexists. }
  apply swp_bind. eapply swp_mono; [apply (Hset s (CurrentSnapshot s) Hc)| |done].
  - pose proof (va_current _ Hv) as Hcur. destruct (FirstXactSnapshot s) as [a|] eqn:Ef.
    + right. exists a. split; [done|]. eapply held_alloc; [done|]. rewrite elem_held. right; left.
      unfold refs, kept. rewrite Ef. set_solver.
    + destruct Hcur as [->| ->]; [by left|right]. eexists. split; [done|]. apply Hstat. unfold CurrentSnapshotData. lia.
  - intros [] s1 (Hc1 & Hv1 & Hu1 & Hal & Hg1). eapply swp_mono; [apply (Hset s1 (SecondarySnapshot s) Hc1)| |done].
    + destruct (va_secondary _ Hv) as [->| ->]; [by left|right]. eexists. split; [done|]. apply Hal, Hstat.
      unfold SecondarySnapshotData. lia.
    + intros [] s2 (Hc2 & Hv2 & Hu2 & _ & Hg2). split_and!; [done|congruence|congruence|auto].
Qed.

(** The topmost active snapshot is used by nobody else. *)
Lemma UpdateActiveSnapshotCommandId_spec s e top rest (R : SnapMgr -> Prop) :
  core s -> ActiveSnapshot s = top :: rest -> as_snap top ∉ as_snap <$> rest -> as_snap top ∉ refs s -> R s ->
  wp (UpdateActiveSnapshotCommandId e) (fun _ s' => core s' /\ vars s' = vars s /\ uses s' = uses s /\
    forall f, good s f -> good s' f) R s.
Proof.
  intros Hc Ea Hn1 Hn2 HR. pose proof Hc as [(L & Hm & HL) Hd Ho Hk Hcat Hme Hs]. unfold UpdateActiveSnapshotCommandId.
  apply wp_sget. rewrite Ea.
  assert (Es : stack s = as_snap top :: (as_snap <$> rest)) by (unfold stack; by rewrite Ea).
  assert (Hin : as_snap top ∈ stack s) by (rewrite Es; set_solver).
  destruct (mo_alloc _ _ _ _ _ _ _ Hm (as_snap top)) as [H3 [ob Ho1]]; [by left|].
  apply swp_bind, (wp_obj _ ob); [done|]. destruct (mo_copied _ _ _ _ _ _ _ Hm _ ob H3 Ho1) as (_ & Hac & Hrc).
  rewrite Es, occurs_cons, decide_True, (proj2 (occurs_zero _ _) Hn1) in Hac by done.
  rewrite (proj2 (occurs_zero _ _) Hn2) in Hrc. apply wp_insist; [by rewrite Hac, Hrc|]. case_if; [done|].
  eapply swp_mono; [by apply (set_obj_curcid_spec s _ ob _ R)| |done]. intros [] s' (? & ? & ? & _ & ?). done.
Qed.
(** ** Queries *)

(** The catalog snapshot alone does not count. *)
Lemma HaveRegisteredOrActiveSnapshot_spec s :
  core s -> HaveRegisteredOrActiveSnapshot s = Done (negb (bool_decide (stack s = [] /\ refs s = []))) s.
Proof.
  intros [(L & Hm & HL) _ _ _ Hcat _ _]. unfold HaveRegisteredOrActiveSnapshot, mbind, sm_bind, sget, stack.
  destruct (ActiveSnapshot s) as [|t rest]; [|rewrite bool_decide_eq_false_2; [done|by intros [? _]]].
  rewrite (pairingheap_singular_ok (above o (objs s)) _ L), (mem_ok_empty _ _ _ _ _ _ _ Hm) by apply Hm.
  cbn [lift]. unfold mret, sm_ret. pose proof (pairing_nodup _ _ _ (mo_heap _ _ _ _ _ _ _ Hm)) as Hnd.
  assert (Hrefs : refs s = [] <-> forall a, a ∈ L -> CatalogSnapshot s = Some a).
  { split.
    - intros E a Ha. apply HL in Ha as [Ha|?]; [|done]. rewrite E in Ha. by apply not_elem_of_nil in Ha.
    - intros Hall. apply elem_of_nil_inv. intros a Ha. pose proof (referenced_high s a L Hm (or_intror Ha)) as H3.
      specialize (Hall a (proj2 (HL a) (or_introl Ha))). destruct Hcat as [?|E]; [congruence|].
      assert (a = 2%nat) by (unfold CatalogSnapshotData in E; congruence). lia. }
  destruct L as [|a [|b L]]; cbn [length Nat.eqb].
  - rewrite andb_false_r, bool_decide_eq_true_2 by done. rewrite bool_decide_eq_true_2; [done|]. split; [done|]. apply Hrefs.
    by intros a ?%not_elem_of_nil.
  - rewrite andb_true_r. case_bool_decide as Hc.
    + rewrite bool_decide_eq_true_2; [done|]. split; [done|]. apply Hrefs. intros x Hx. apply list_elem_of_singleton in Hx as ->.
      destruct Hc as [y Hy]. assert (Hin : y ∈ [a]) by (apply HL; by right). apply list_elem_of_singleton in Hin as ->. done.
    + rewrite bool_decide_eq_false_2 by done. rewrite bool_decide_eq_false_2; [done|]. intros [_ E]. apply Hc. exists a. apply Hrefs; [done|]. left.
  - rewrite andb_false_r, bool_decide_eq_false_2 by done. rewrite bool_decide_eq_false_2; [done|]. intros [_ E].
    pose proof (proj1 Hrefs E a ltac:(left)). pose proof (proj1 Hrefs E b ltac:(right; left)). assert (a = b) by congruence. subst b.
    apply NoDup_cons in Hnd as [Hna _]. apply Hna. left.
Qed.
End Ops.
