(* ===== verification/SnapMgrXact.v ===== *)
(** * SnapMgrXact: snapshots from the begin to the end of a transaction

    Taking snapshots, against an interface that says what the process array
    promises ([SnapshotSource]), and the end of a transaction, which leaves
    nothing behind. *)

From S2P Require Import Prelude TransactionId KnownXids HeapTuple ProcArray ProcInv ProcScan ProcReaders PairingHeap PairingTree.
From S2P Require Import SnapMgr SnapMgrInv SnapMgrOps.

Section Xact.
Context (o : TransactionId) (me : nat).

Abbreviation core := (core o me).
Abbreviation good V c s := (good_in o V c (objs s) (MyProc_xmin s)).

(** ** The end *)

(** The heap alone: reference counts are no longer kept at the end. *)
Record heap_ok (m : gmap nat SnapObj) (h : pairingheap) (L : list nat) : Prop := {
  ho_heap : pairing_ok (above o m) h L;
  ho_valid : forall a, a ∈ L -> has_xmin (in_window o) m a;
  ho_dom : forall a, is_Some (ph_nodes h !! a) <-> is_Some (m !! a);
}.

Lemma heap_remove_keeps s a L (Q : unit -> SnapMgr -> Prop) R :
  heap_ok (objs s) (RegisteredSnapshots s) L -> a ∈ L ->
  (forall h L', heap_ok (objs s) h L' -> (forall b, b ∈ L' <-> b ∈ L /\ b <> a) -> Q tt (with_mem (objs s) h (next_addr s) s)) ->
  wp (heap_remove a) Q R s.
Proof.
  intros [H1 H2 H3] Ha HQ.
  destruct (pairingheap_remove_ok (xmin_cmp (objs s)) (has_xmin (in_window o) (objs s)) (above o (objs s)) _ L a H1 Ha H2) as (h & E & Hok & _).
  apply (wp_heap_remove a h); [done|]. pose proof (pairing_nodup _ _ _ H1) as Hnd.
  apply elem_of_Permutation in Ha as [L' HL']. rewrite HL' in Hnd. apply NoDup_cons in Hnd as [Hna _]. apply (HQ h L').
  - constructor; [by apply Hok|intros x Hx; apply H2; rewrite HL'; set_solver|].
    intros x. by rewrite <- H3, <- !elem_of_dom, (pairingheap_remove_dom _ _ _ _ E).
  - intros b. rewrite HL', elem_of_cons. naive_solver.
Qed.

(** What every part of the cleanup leaves alone. *)
Definition unchanged (s : SnapMgr) :=
  (objs s, next_addr s, CurrentSnapshot s, SecondarySnapshot s, CatalogSnapshot s, HistoricSnapshot s,
   (ActiveSnapshot s, OldestActiveSnapshot s, FirstSnapshotSet s, exportedSnapshots s, owners s, local s, shared s)).

Lemma drop_exported_spec l s L R :
  heap_ok (objs s) (RegisteredSnapshots s) L -> NoDup (es_snapshot <$> l) -> (forall e, e ∈ l -> es_snapshot e ∈ L) ->
  wp (drop_exported l) (fun _ s' => unchanged s' = unchanged s /\ FirstXactSnapshot s' = FirstXactSnapshot s /\
    (forall f, pg_snapshots s' !! f = if decide (f ∈ snapfile <$> l) then None else pg_snapshots s !! f) /\
    exists L', heap_ok (objs s') (RegisteredSnapshots s') L' /\ forall b, b ∈ L' <-> b ∈ L /\ b ∉ es_snapshot <$> l) R s.
Proof.
  revert s L. induction l as [|e l IH]; intros s L Hh Hnd Hin; cbn [drop_exported].
  { cbn. split_and!; try done. exists L. split; [done|]. intros b. rewrite elem_of_nil. tauto. }
  rewrite fmap_cons in Hnd. apply NoDup_cons in Hnd as [Hne Hnd]. apply wp_supd, swp_bind.
  apply (heap_remove_keeps _ (es_snapshot e) L); [exact Hh|apply Hin; (left || by right)|]. intros h L1 Hh1 HL1.
  set (s1 := with_mem _ _ _ _). eapply swp_mono; [apply (IH s1 L1 Hh1 Hnd)| |done].
  { intros e' He'. apply HL1. split; [apply Hin; (left || by right)|]. intros E. apply Hne. rewrite <- E. by apply list_elem_of_fmap_2. }
  intros [] s2 (Hu & Hf & Hd & L2 & Hh2 & HL2). split_and!; [exact Hu|exact Hf| |].
  - intros f. rewrite Hd. destruct (decide (f = snapfile e)) as [->|Hf'].
    + rewrite (decide_True (P := snapfile e ∈ snapfile <$> e :: l)) by (rewrite fmap_cons; left).
      case_decide; [done|]. apply lookup_delete_eq.
    + rewrite (decide_ext (f ∈ snapfile <$> e :: l) (f ∈ snapfile <$> l)) by (clear -Hf'; rewrite fmap_cons, elem_of_cons; tauto).
      case_decide; [done|]. by apply lookup_delete_ne.
  - exists L2. split; [done|]. intros b. rewrite HL2, HL1, fmap_cons, not_elem_of_cons. tauto.
Qed.

(** The state between transactions. *)
Record cleared (s : SnapMgr) : Prop := {
  cl_root : ph_root (RegisteredSnapshots s) = None;
  cl_vars : vars s = (None, None, HistoricSnapshot s, None, false);
  cl_catalog : CatalogSnapshot s = None;
  cl_stack : ActiveSnapshot s = [] /\ OldestActiveSnapshot s = None;
  cl_refs : owners s = [] /\ exportedSnapshots s = [];
  cl_xmin : MyProc_xmin s = InvalidTransactionId;
}.

Section End.
Context (V : view) (c : bool) {HV : View o me V}.

(** With an empty heap the xmin is dropped, or left alone while there are
    active snapshots. *)
Lemma reset_empty s (Q : unit -> SnapMgr -> Prop) R :
  ph_root (RegisteredSnapshots s) = None ->
  Q tt (match ActiveSnapshot s with [] => put_xmin InvalidTransactionId s | _ => s end) -> wp SnapshotResetXmin Q R s.
Proof.
  intros Hr HQ. unfold SnapshotResetXmin. apply wp_sget. destruct (ActiveSnapshot s); [|done].
  unfold pairingheap_is_empty. by rewrite Hr.
Qed.

Lemma heap_ok_empty m h L : heap_ok m h L -> L = [] -> ph_root h = None.
Proof.
  intros [H1 _ _] ->. pose proof (pairingheap_first_ok (xmin_cmp m) (has_xmin (in_window o) m) (above o m) h [] H1) as Hf.
  unfold pairingheap_first in Hf. destruct (ph_root h); [|done]. destruct Hf as [Hf _]. by apply not_elem_of_nil in Hf.
Qed.

(** What the cleanup keeps of the state [s] before it. *)
Record cleaning (s s' : SnapMgr) : Prop := {
  cg_same : (objs s', next_addr s', HistoricSnapshot s', owners s', local s') = (objs s, next_addr s, HistoricSnapshot s, owners s, local s);
  cg_shared : variant me (seen V) (shared s');
  cg_xmin : MyProc_xmin s' = MyProc_xmin s \/ MyProc_xmin s' = InvalidTransactionId;
}.

Lemma cleaning_put_xmin s s' : MyProcNo (local s) = me -> cleaning s s' -> cleaning s (put_xmin InvalidTransactionId s').
Proof.
  intros Hme [H1 H2 H3]. assert (Hme' : MyProcNo (local s') = me) by congruence. constructor; [done| |right].
  - cbn [shared put_xmin set_procs]. rewrite Hme'. by apply variant_put.
  - by apply (put_xmin_xmin o me V).
Qed.

Lemma drop_first_spec s L R :
  core V c s -> heap_ok (objs s) (RegisteredSnapshots s) L -> (forall b, b ∈ L <-> b ∈ refs s \/ CatalogSnapshot s = Some b) ->
  wp (match FirstXactSnapshot s with
      | Some a =>
          ob ← obj a;
          insist ((0 <? regd_count ob) && negb (pairingheap_is_empty (RegisteredSnapshots s)));;
          heap_remove a
      | None => mret tt
      end)
    (fun _ s' => (exists h, s' = with_mem (objs s) h (next_addr s) s) /\
       exists L', heap_ok (objs s') (RegisteredSnapshots s') L' /\ forall b, b ∈ L' <-> b ∈ L /\ FirstXactSnapshot s <> Some b) R s.
Proof.
  intros Hc Hh HL. pose proof Hc as [(L0 & Hm & HL0) _ _ _ _ _ _]. destruct (FirstXactSnapshot s) as [a|] eqn:Ef.
  - assert (Har : a ∈ refs s) by (unfold refs, kept; rewrite Ef; set_solver).
    assert (HaL : a ∈ L) by (apply HL; by left).
    destruct (mo_alloc _ _ _ _ _ _ _ Hm a) as [H3 [ob Ha]]; [by right|].
    destruct (mo_copied _ _ _ _ _ _ _ Hm a ob H3 Ha) as (_ & _ & Hrc). pose proof (proj2 (occurs_elem _ _) Har) as Hpos.
    apply swp_bind, (wp_obj a ob); [done|]. apply wp_insist.
    { rewrite (mem_ok_empty _ _ _ _ _ _ _ Hm), bool_decide_eq_false_2; [|intros ->; apply (not_elem_of_nil a), HL0; by left].
      rewrite andb_true_r. apply Z.ltb_lt. lia. }
    apply (heap_remove_keeps s a L); [done..|]. intros h L' Hh' HL'. split; [by eexists|]. exists L'. split; [done|].
    intros b. rewrite HL'. split; intros [? Hne]; (split; [done|]); [by intros [= ->]|by intros ->].
  - split; [eexists; apply with_mem_id|]. exists L. split; [done|]. intros b. split; [|tauto]. by intros ?.
Qed.

Lemma drop_catalog_spec s0 s L R :
  cleaning s0 s -> MyProcNo (local s0) = me -> heap_ok (objs s) (RegisteredSnapshots s) L ->
  (forall b, b ∈ L <-> CatalogSnapshot s = Some b) ->
  wp InvalidateCatalogSnapshot (fun _ s' => cleaning s0 s' /\ CatalogSnapshot s' = None /\ FirstXactSnapshot s' = FirstXactSnapshot s /\
    exportedSnapshots s' = exportedSnapshots s /\ dom (ph_nodes (RegisteredSnapshots s')) = dom (ph_nodes (RegisteredSnapshots s))) R s.
Proof.
  intros Hcl Hme Hh HL. unfold InvalidateCatalogSnapshot. apply wp_sget. destruct (CatalogSnapshot s) as [a|] eqn:Ec.
  - apply swp_bind, (heap_remove_keeps s a L); [done|by apply HL|]. intros h L' Hh' HL'.
    apply wp_supd. apply reset_empty.
    { apply (heap_ok_empty (objs s) h L'); [done|]. apply elem_of_nil_inv. intros b Hb. apply HL' in Hb as [Hb Hne].
      apply HL in Hb. congruence. }
    assert (Hdom : dom (ph_nodes h) = dom (ph_nodes (RegisteredSnapshots s))).
    { apply set_eq. intros b. by rewrite !elem_of_dom, (ho_dom _ _ _ Hh'), (ho_dom _ _ _ Hh). }
    assert (Hcl' : cleaning s0 (set_CatalogSnapshot None (with_mem (objs s) h (next_addr s) s))) by (by destruct Hcl; constructor).
    destruct (ActiveSnapshot _); split_and!; try done. by apply cleaning_put_xmin.
  - cbn. by split_and!.
Qed.

Lemma catalog_unreferenced s b : core V c s -> CatalogSnapshot s = Some b -> b ∉ refs s.
Proof.
  intros [(L & Hm & _) _ _ _ Hcat _ _] Hb Hin. pose proof (referenced_high o s b L Hm (or_intror Hin)).
  assert (b = 2%nat); [unfold CatalogSnapshotData in Hcat; naive_solver|lia].
Qed.

Lemma AtEOXact_Snapshot_spec s isCommit resetXmin R :
  core V c s -> owners s = [] -> resetXmin = true \/ MyProc_xmin s = InvalidTransactionId ->
  wp (AtEOXact_Snapshot isCommit resetXmin) (fun _ s' => cleaning s s' /\ cleared s' /\
    dom (ph_nodes (RegisteredSnapshots s')) = dom (ph_nodes (RegisteredSnapshots s))) R s.
Proof.
  intros Hc Hown Hres. pose proof Hc as [(L & Hm & HL) Hd Ho Hk Hcat Hme Hs].
  assert (Hh : heap_ok (objs s) (RegisteredSnapshots s) L) by (by destruct Hm; constructor).
  unfold AtEOXact_Snapshot. apply wp_sget, swp_bind.
  eapply swp_mono; [by apply (drop_first_spec s L R)| |done]. intros [] s1 ([h ->] & L1 & Hh1 & HL1). apply wp_supd, swp_bind.
  set (s1 := set_FirstXactSnapshot _ _). apply NoDup_app in Hk as (_ & Hk1 & Hk2).
  assert (Hkept : forall b, b ∈ L <-> FirstXactSnapshot s = Some b \/ b ∈ es_snapshot <$> exportedSnapshots s \/ CatalogSnapshot s = Some b).
  { intros b. rewrite HL. unfold refs, kept. rewrite Hown. cbn [fmap list_fmap app]. rewrite elem_of_app, elem_option_list. tauto. }
  eapply swp_mono; [apply (drop_exported_spec (exportedSnapshots s) s1 L1 R Hh1 Hk2)| |done].
  { intros e He. apply HL1. split; [apply Hkept; right; left; by apply list_elem_of_fmap_2|].
    intros Ef. apply (Hk1 (es_snapshot e)); [by apply elem_option_list|by apply list_elem_of_fmap_2]. }
  intros [] s2 (Hu & Hf2 & _ & L2 & Hh2 & HL2). injection Hu as Hu1 Hu2 Hu3 Hu4 Hu5 Hu6 Hu7 Hu8 Hu9 Hu10 Hu11 Hu12 Hu13. cbn in *.
  apply wp_supd, swp_bind. set (s3 := set_exported _ _ _).
  assert (Hdom : dom (ph_nodes (RegisteredSnapshots s3)) = dom (ph_nodes (RegisteredSnapshots s))).
  { apply set_eq. intros b. rewrite !elem_of_dom, (ho_dom _ _ _ Hh). change (RegisteredSnapshots s3) with (RegisteredSnapshots s2).
    by rewrite (ho_dom _ _ _ Hh2), Hu1. }
  eapply swp_mono; [apply (drop_catalog_spec s s3 L2 R)| |done]; [|done|exact Hh2| |].
  { constructor; cbn; [congruence|by rewrite Hu13|left]. unfold MyProc_xmin. cbn. by rewrite Hu12, Hu13. }
  { intros b. rewrite HL2, HL1, Hkept. cbn. rewrite Hu5. split; [tauto|]. intros Hb.
    pose proof (catalog_unreferenced s b Hc Hb) as Hnr. unfold refs, kept in Hnr. rewrite !not_elem_of_app, elem_option_list in Hnr. tauto. }
  intros [] s4 (Hcl4 & Hc4 & Hf4 & He4 & Hd4). apply wp_supd, wp_supd. set (s5 := set_FirstSnapshotSet _ _).
  assert (Hx : forall s', cleaning s s' -> resetXmin = false -> MyProc_xmin s' = InvalidTransactionId).
  { intros s' [_ _ Hx] Hr. destruct Hres as [?|E]; [congruence|]. rewrite E in Hx. by destruct Hx. }
  assert (Hcl5 : cleaning s s5) by (by destruct Hcl4; constructor).
  assert (Hsame5 : owners s5 = [] /\ MyProcNo (local s5) = me).
  { destruct Hcl5 as [E _ _]. injection E as _ _ _ E1 E2. exact (conj (eq_trans E1 Hown) (eq_trans (f_equal MyProcNo E2) Hme)). }
  destruct Hsame5 as [Hown5 Hme5].
  assert (Hdom5 : dom (ph_nodes (RegisteredSnapshots s5)) = dom (ph_nodes (RegisteredSnapshots s))) by (by rewrite <- Hdom, <- Hd4).
  assert (Hf5 : FirstXactSnapshot s4 = None) by exact (eq_trans Hf4 Hf2).
  assert (Hfin : forall s', s' = s5 \/ s' = put_xmin InvalidTransactionId s5 -> cleaning s s' -> MyProc_xmin s' = InvalidTransactionId ->
    cleaning s s' /\ cleared s' /\ dom (ph_nodes (RegisteredSnapshots s')) = dom (ph_nodes (RegisteredSnapshots s))).
  { intros s' [->| ->] Hcl' Hx'; (split; [done|]); (split; [|done]); constructor; try done; unfold vars; cbn; by rewrite Hf5. }
  apply swp_bind, wp_when.
  - intros Hr. apply reset_empty; [done|]. cbn. pose proof (cleaning_put_xmin s s5 Hme Hcl5) as Hcl6. rewrite Hr. cbn.
    apply Hfin; [by right|done|]. apply (put_xmin_xmin o me V); [done|apply Hcl5].
  - intros Hr. rewrite Hr. pose proof (Hx s5 Hcl5 Hr) as Hx5. apply wp_sget, (wp_done _ tt _ s5); [by rewrite Hx5|].
    apply Hfin; [by left|done|done].
Qed.

Lemma lookup_filter_low {A} (m : gmap nat A) a :
  filter (fun p => (p.1 < 3)%nat) m !! a = if decide (a < 3)%nat then m !! a else None.
Proof.
  apply option_eq. intros x. rewrite map_lookup_filter_Some. cbn. case_decide; naive_solver.
Qed.

(** Only the static snapshots remain. *)
Lemma mem_ok_freed m h h' next L stk rf :
  mem_ok o m h next L stk rf -> dom (ph_nodes h') = dom (ph_nodes h) -> ph_root h' = None ->
  mem_ok o (filter (fun p => (p.1 < 3)%nat) m) (mkHeap (filter (fun p => (p.1 < 3)%nat) (ph_nodes h')) (ph_root h')) next [] [] [].
Proof.
  intros [H1 H2 H3 [H4 _] H5 H6 H7 H8] Hdom ->. constructor; cbn [ph_nodes ph_root].
  - exists Leaf. constructor; cbn; try done; constructor.
  - intros a Ha. by apply not_elem_of_nil in Ha.
  - intros a. rewrite !lookup_filter_low. case_decide; [|done]. by rewrite <- H3, <- !elem_of_dom, Hdom.
  - split; [done|]. intros a [ob Ha]. rewrite lookup_filter_low in Ha. case_decide; [lia|done].
  - intros a Ha. rewrite lookup_filter_low, decide_True by done. by apply H5.
  - intros a ob Ha E. rewrite lookup_filter_low, decide_False in E by lia. done.
  - intros a [Ha|Ha]; by apply not_elem_of_nil in Ha.
  - done.
Qed.

Lemma release_spec s l isCommit R :
  core V c s -> (forall r, r ∈ owners s -> r.1 ∈ l) ->
  (isCommit = true -> owners s = [] /\ MyProc_xmin s = InvalidTransactionId) ->
  wp (release_owners l) (fun _ s1 => core V c s1 /\ vars s1 = vars s /\ owners s1 = [] /\
    (isCommit = true -> MyProc_xmin s1 = InvalidTransactionId)) R s.
Proof.
  intros Hc Hl Hcom. destruct isCommit.
  - destruct (Hcom eq_refl) as [E Hx]. assert (Hno : forall l', release_owners l' s = Done tt s); [|by unfold wp; rewrite Hno].
    intros l'. induction l' as [|w l' IH]; cbn; [done|]. unfold mbind, sm_bind, ResourceOwnerReleaseSnapshots, sget, mbind.
    unfold sm_bind. rewrite E. cbn. unfold mbind, sm_bind, sget. rewrite E. exact IH.
  - eapply swp_mono; [by apply (release_owners_spec o me V c l s R)| |done]. intros [] s1 (Hc1 & Hv1 & Hr & _). split_and!; try done.
    apply elem_of_nil_inv. intros r Hin. destruct (Hr r Hin) as [Hin' Hnl]. by apply Hnl, Hl.
Qed.

(** The end of a transaction, when all its resource owners are released and,
    at a commit, hold no more snapshots: the state for the next transaction. *)
Lemma end_snapshots_spec s l isCommit R :
  core V c s -> vars_ok s -> (forall r, r ∈ owners s -> r.1 ∈ l) ->
  (isCommit = true -> owners s = [] /\ MyProc_xmin s = InvalidTransactionId) ->
  wp (end_snapshots l isCommit) (fun _ s' => inv o me V true s' /\ cleared s' /\ held s' = [] /\
    (forall a, is_Some (objs s' !! a) -> (a < 3)%nat)) R s.
Proof.
  intros Hc Hv Hl Hcom. unfold end_snapshots. apply swp_bind.
  eapply swp_mono; [by apply (release_spec s l isCommit R)| |done]. intros [] s1 (Hc1 & Hv1 & Hown & Hx). apply swp_bind.
  eapply swp_mono; [apply (AtEOXact_Snapshot_spec s1 isCommit (negb isCommit) R Hc1 Hown)| |done].
  { destruct isCommit; [right; auto|by left]. }
  intros [] s2 ([Hsame Hsh _] & Hcl & Hdom). injection Hsame as E1 E2 E3 E4 E5.
  pose proof Hc1 as [(L & Hm & HL) Hd _ _ _ Hme _]. pose proof Hcl as [C1 C2 C3 [C4 C4'] [C5 C5'] C6]. injection C2 as D1 D2 D4 D5.
  cbn. set (s3 := set_heap _ _). assert (Hempty : stack s3 = [] /\ kept s3 = [] /\ refs s3 = [] /\ held s3 = []).
  { unfold held, stack, refs, kept. cbn. by rewrite C4, C5, C5', D4, C3. }
  destruct Hempty as (Hst & Hkp & Hrf & Hh). split; [|split_and!; [by constructor; try done; unfold vars; cbn; rewrite D1, D2, D4, D5|done|]].
  2: { intros a [ob Ha]. cbn in Ha. rewrite lookup_filter_low in Ha. by case_decide. }
  constructor; [constructor|].
  - exists []. rewrite Hst, Hrf. split; [|intros a; cbn; rewrite C3, elem_of_nil; naive_solver].
    cbn. rewrite E1, E2. exact (mem_ok_freed _ _ _ _ _ _ _ Hm Hdom C1).
  - rewrite Hh. constructor; [by intros a ?%not_elem_of_nil|by left|]. intros a ob Ha. cbn. rewrite lookup_filter_low, decide_True, E1 by done.
    by apply (da_static _ _ _ _ _ _ Hd).
  - rewrite Hst. exact C4'.
  - rewrite Hkp. constructor.
  - by left.
  - cbn. rewrite E5. exact Hme.
  - exact Hsh.
  - constructor; cbn; rewrite ?D1, ?D2, ?D4, ?D5; try done; try by left. rewrite E3. injection Hv1 as _ _ -> _ _. apply Hv.
Qed.
End End.

(** ** Private references *)

Section Kept.
Context (c : bool).

(** Another private reference: to the snapshot at [n], new in the heap. *)
Lemma add_kept s s' W n ob L :
  View o me W -> core W c s -> good W c s n -> objs s !! n = Some ob -> (3 <= n)%nat -> n ∉ held s ->
  mem_ok o (objs s') (RegisteredSnapshots s') (next_addr s') (n :: L) (stack s) (n :: refs s) ->
  (forall a, a ∈ L <-> a ∈ refs s \/ CatalogSnapshot s = Some a) ->
  objs s' = <[n := mkSnapObj (so_snap ob) (copied ob) (active_count ob) (u32 (regd_count ob + 1)) (lsn ob)]> (objs s) ->
  (ActiveSnapshot s', OldestActiveSnapshot s', owners s', local s', shared s', CatalogSnapshot s') =
  (ActiveSnapshot s, OldestActiveSnapshot s, owners s, local s, shared s, CatalogSnapshot s) ->
  kept s' ≡ₚ n :: kept s -> core W c s' /\ forall f, good W c s f -> good W c s' f.
Proof.
  intros HVW [_ Hd Ho Hk Hcat Hme Hs] Hg Hn H3 Hnh Hm HL Hobjs Hsame Hkept. injection Hsame as S1 S2 S3 S4 S5 S6.
  assert (Hst : stack s' = stack s) by (unfold stack; by rewrite S1).
  assert (Hrf : refs s' ≡ₚ n :: refs s) by (unfold refs; rewrite S3, Hkept; by rewrite Permutation_middle).
  assert (Hx : MyProc_xmin s' = MyProc_xmin s) by (unfold MyProc_xmin; by rewrite S4, S5).
  assert (Hgd : forall f, good W c s f -> good W c s' f) by (intros f Hf; rewrite Hx, Hobjs; by eapply good_counts).
  split; [|done]. constructor.
  - exists (n :: L). rewrite Hst. split; [eapply mem_ok_perm; [..|exact Hm]; done|]. intros a. rewrite elem_of_cons, HL, Hrf, elem_of_cons, S6. tauto.
  - rewrite Hx, Hobjs. apply (data_counts _ _ _ _ _ _ n ob); [done|done|]. eapply data_more; [|exact Hd].
    intros b. rewrite !elem_held, Hst, Hrf, elem_of_cons, S6. intros [?|[[->|?]|?]]; tauto.
  - by rewrite S2, Hst.
  - rewrite Hkept. constructor; [|done]. intros Hin. apply Hnh. rewrite elem_held. right; left. unfold refs. set_solver.
  - by rewrite S6.
  - by rewrite S4.
  - by rewrite S5.
Qed.

Lemma keep_transaction_snapshot_spec W s R :
  View o me W -> core W c s -> good W c s CurrentSnapshotData -> FirstXactSnapshot s = None -> Z.of_nat (length (refs s)) + 1 < 2 ^ 32 ->
  wp keep_transaction_snapshot (fun n s' => core W c s' /\ good W c s' n /\ uses s' = uses s /\
    vars s' = (Some n, SecondarySnapshot s, HistoricSnapshot s, Some n, FirstSnapshotSet s)) R s.
Proof.
  intros HVW Hc Hg Hf Hlen. destruct (good_alloc _ _ _ _ _ Hg) as [ob E]. unfold keep_transaction_snapshot. apply swp_bind.
  eapply swp_mono; [by apply (CopySnapshot_spec o me W c s CurrentSnapshotData ob R)| |done].
  intros n s1 (En & H3 & Hnh & Hc1 & [h Es1] & Hg1 & _). specialize (Hg1 Hg). subst s1. set (s1 := with_mem _ _ _ s) in *.
  pose proof Hc1 as [(L & Hm & HL) _ _ _ _ _ _]. assert (E1 : objs s1 !! n = Some (copy_of ob)) by apply lookup_insert_eq.
  destruct (mem_ok_ref _ _ _ _ _ _ _ n (copy_of ob) Hm H3 E1 Hlen) as [Hm2 _].
  apply wp_supd, wp_supd, swp_bind, (wp_regd_count 1 n (copy_of ob)); [done|]. set (ob2 := mkSnapObj _ _ _ _ _) in *. set (s2 := with_mem _ _ _ _).
  assert (Hnew : n ∉ L) by (rewrite HL; rewrite elem_held in Hnh; cbn; tauto).
  destruct (mem_ok_add _ _ _ _ _ _ _ n Hm2 Hnew) as (h' & Eh & Hm3).
  { exists ob2. split; [apply lookup_insert_eq|]. destruct (good_xmin o me W c s1 n Hg1) as (ob' & E' & Hw). rewrite E1 in E'. by injection E' as <-. }
  apply swp_bind, (wp_heap_add n h'); [exact Eh|]. cbn [wp mret sm_ret]. set (s3 := with_mem _ _ _ _).
  destruct (add_kept s1 s3 W n (copy_of ob) L HVW Hc1 Hg1 E1 H3 Hnh Hm3 HL eq_refl eq_refl) as [Hc3 Hg3].
  - unfold kept. cbn. by rewrite Hf.
  - split_and!; [done|by apply Hg3|done|done].
Qed.

End Kept.

(** ** Taking snapshots *)

(** What the process array promises to the snapshot manager: a snapshot with
    good contents, whose xmin is not before any bound and is advertised unless
    an xmin already is.  [after] are the views that others may have led to
    meanwhile. *)
Class SnapshotSource (e : SnapEnv) (V : view) (after : view -> Prop) : Prop := {
  source_view : forall W, after W -> View o me W;
  source_same : after V;
  source_later : forall W, after W -> (forall x, bound V x -> bound W x) /\ (forall sn, contents V sn -> contents W sn) /\
    (forall sn, reusable V sn -> reusable W sn);
  source_take : forall sh l sn, variant me (seen V) sh -> MyProcNo l = me -> reusable V sn ->
    let '(m, last) := scan e 0 sh in
    let '(sn', sh', l') := GetSnapshotData (RecoveryInProgress e) (CurrentCommandId e) m last sn l in
    exists W, after W /\ contents W (snap sn') /\ reusable W sn' /\ MyProcNo l' = me /\ variant me (seen W) sh' /\
      (forall x, bound W x -> xid_age o x <= xid_age o (snap_xmin (snap sn'))) /\
      pr_xmin (proc sh' me) =
        if TransactionIdIsValid (pr_xmin (proc sh me)) then pr_xmin (proc sh me) else snap_xmin (snap sn');
}.

Section Take.
Context (e : SnapEnv) (V : view) (after : view -> Prop) (c : bool).
Context {HV : View o me V} {HS : SnapshotSource e V after}.

Lemma window_valid W x : after W -> bound W x -> x <> InvalidTransactionId.
Proof.
  intros HW Hx ->. pose proof (source_view W HW) as HVW. apply (vw_window (o := o) (me := me)) in Hx as [[? _] _].
  unfold InvalidTransactionId, FirstNormalTransactionId in *. lia.
Qed.

(** Data after a snapshot was taken into [a]. *)
Lemma data_taken W s a ob x x' :
  after W -> data_ok o V c (objs s) x (held s) -> a ∉ held s -> contents W (snap (so_snap ob)) -> reusable W (so_snap ob) ->
  (forall y, bound W y -> xid_age o y <= xid_age o (obj_xmin ob)) ->
  x' = (if TransactionIdIsValid x then x else obj_xmin ob) ->
  data_ok o W c (<[a := ob]> (objs s)) x' (a :: held s).
Proof.
  intros HW [H1 H2 H3] Hna Hcn Hre Hmax Hx'. pose proof (source_view W HW) as HVW.
  destruct (source_later W HW) as (M1 & M2 & M3). pose proof (vw_xmin (o := o) (me := me) _ Hcn) as Hb.
  assert (Hx : x' = x /\ x <> InvalidTransactionId \/ x' = obj_xmin ob /\ x = InvalidTransactionId).
  { rewrite Hx'. unfold TransactionIdIsValid. destruct (Z.eqb_spec x InvalidTransactionId); cbn; [by right|by left]. }
  assert (Hbx : bound W x') by (destruct Hx as [[-> Hne]|[-> _]]; [destruct H2; [done|auto]|done]).
  constructor.
  - intros b Hin. destruct (decide (b = a)) as [->|Hne].
    + exists ob. rewrite lookup_insert_eq. split; [done|]. split; [done|]. intros _. split; [by eapply window_valid|by apply Hmax].
    + apply elem_of_cons in Hin as [?|Hin]; [done|]. destruct (H1 b Hin) as (ob' & E & Hc & Hcov).
      exists ob'. rewrite lookup_insert_ne by done. split; [done|]. split; [by apply M2|]. intros Hct. destruct (Hcov Hct) as [Hn Hle].
      destruct Hx as [[-> _]|[_ ?]]; done.
  - by right.
  - intros b ob' Hlt. destruct (decide (b = a)) as [->|Hne]; [rewrite lookup_insert_eq; by intros [= <-]|].
    rewrite lookup_insert_ne by done. intros E. apply M3. by eapply H3.
Qed.

Lemma take_snapshot_spec s a R :
  core V c s -> (a < 3)%nat -> CatalogSnapshot s <> Some a ->
  wp (take_snapshot e 0 a) (fun _ s' => exists W, after W /\ core W c s' /\ good W c s' a /\ vars s' = vars s /\
    uses s' = uses s /\ CatalogSnapshot s' = CatalogSnapshot s) R s.
Proof.
  intros Hc Ha Hncat. pose proof Hc as [(L & Hm & HL) Hd Ho Hk Hcat Hme Hs].
  destruct (mo_static _ _ _ _ _ _ _ Hm a Ha) as (ob & E & _).
  assert (Hnh : a ∉ held s).
  { rewrite elem_held. intros [Hin|[Hin|?]]; [..|done]; (assert (3 <= a)%nat; [|lia]); eapply (referenced_high o s a L); [done|tauto|done|tauto]. }
  unfold take_snapshot. apply swp_bind, (wp_obj a ob); [done|]. apply wp_sget.
  pose proof (source_take (shared s) (local s) (so_snap ob) Hs Hme (da_static _ _ _ _ _ _ Hd a ob Ha E)) as Htake.
  destruct (scan e 0 (shared s)) as [m last]. destruct (GetSnapshotData _ _ _ _ _ _) as [[sn' sh'] l'].
  destruct Htake as (W & HW & T1 & T2 & T3 & T4 & T5 & T6).
  assert (Hx : MyProc_xmin (set_procs l' sh' s) = if TransactionIdIsValid (MyProc_xmin s) then MyProc_xmin s else snap_xmin (snap sn')).
  { unfold MyProc_xmin. cbn [shared local set_procs]. by rewrite T3, T6, Hme. }
  set (ob' := mkSnapObj sn' false 0 0 (InsertRecPtr e)).
  pose proof (data_taken W s a ob' _ _ HW Hd Hnh T1 T2 T5 Hx) as Hd'.
  cbn. exists W. split_and!; try done.
  - constructor; try done; [exists L; split; [|done]|].
    + apply mem_ok_static; [done|done| |done]. rewrite HL. rewrite elem_held in Hnh. tauto.
    + eapply data_sub; [|exact Hd']. intros b Hb. by right.
  - apply (da_good _ _ _ _ _ _ Hd'). by left.
Qed.

(** The isolation level does not change once a snapshot was taken. *)
Definition same_isolation (s : SnapMgr) : Prop :=
  FirstSnapshotSet s = true -> IsolationUsesXactSnapshot e = bool_decide (is_Some (FirstXactSnapshot s)).

(** Nothing is registered before the first snapshot. *)
Definition none_before_first (s : SnapMgr) : Prop := FirstSnapshotSet s = false -> refs s = [].

Definition taken_ok (s : SnapMgr) (n : nat) (s' : SnapMgr) : Prop :=
  exists W, after W /\ inv o me W c s' /\ good W c s' n /\ uses s' = uses s.

Lemma static_current s a : core V c s -> a = CurrentSnapshotData \/ a = SecondarySnapshotData -> CatalogSnapshot s <> Some a.
Proof. intros [_ _ _ _ [->| ->] _ _] [->| ->]; done. Qed.

Lemma GetTransactionSnapshot_spec s (R : SnapMgr -> Prop) :
  inv o me V c s -> same_isolation s -> none_before_first s -> Z.of_nat (length (refs s)) + 1 < 2 ^ 32 ->
  (forall s', inv o me V c s' -> uses s' = uses s -> R s') ->
  wp (GetTransactionSnapshot e) (taken_ok s) R s.
Proof.
  intros [Hc Hv] Hiso Hnone Hlen HR. unfold GetTransactionSnapshot. apply wp_sget. rewrite (va_historic _ Hv).
  pose proof (va_current _ Hv) as Hcur. pose proof (va_set _ Hv) as Hset.
  assert (Hfresh : forall s1, core V c s1 -> vars s1 = vars s -> uses s1 = uses s -> FirstXactSnapshot s = None -> 
    wp (take_snapshot e 0 CurrentSnapshotData) (fun _ s2 => exists W, after W /\ core W c s2 /\ good W c s2 CurrentSnapshotData /\
      vars s2 = vars s /\ uses s2 = uses s) R s1).
  { intros s1 Hc1 Hv1 Hu1 Hfx. eapply swp_mono; [apply (take_snapshot_spec s1 CurrentSnapshotData R Hc1)| |done].
    - unfold CurrentSnapshotData. lia.
    - apply static_current; [done|by left].
    - intros [] s2 (W & HW & ? & ? & ? & ? & _). exists W. split_and!; (done || congruence). }
  destruct (FirstSnapshotSet s) eqn:Es; cbn [negb].
  - rewrite (Hiso Es). case_bool_decide as Hfx.
    + destruct Hfx as [n En]. rewrite En in Hcur. rewrite Hcur. cbn. exists V. split_and!; [apply source_same|done| |done].
      apply (da_good _ _ _ _ _ _ (co_data _ _ _ _ _ Hc)). rewrite elem_held. right; left. unfold refs, kept. rewrite En. set_solver.
    + apply eq_None_not_Some in Hfx. apply swp_bind.
      eapply swp_mono; [by apply (InvalidateCatalogSnapshot_spec o me V c s R)| |done]. intros [] s1 (Hc1 & Hv1 & Hu1 & _).
      apply swp_bind. eapply swp_mono; [by apply (Hfresh s1)| |done]. intros [] s2 (W & HW & Hc2 & Hg2 & Hv2 & Hu2). cbn.
      exists W. split_and!; [done| |done|done]. constructor; [by destruct Hc2; constructor|]. injection Hv2 as V1 V2 V3 V4 V5.
      constructor; cbn; rewrite ?V1, ?V2, ?V3, ?V4, ?V5, ?Hfx, ?Es; [by right|apply Hv|apply Hv|by eexists].
  - apply swp_bind. eapply swp_mono; [by apply (InvalidateCatalogSnapshot_spec o me V c s R)| |done].
    intros [] s1 (Hc1 & Hv1 & Hu1 & Hcat1 & _). apply swp_bind, (wp_done _ tt s1 s1); [apply (assert_no_snapshots_spec o me V c s1 Hc1); [|done]|].
    { rewrite <- (Hnone Es). injection Hv1 as _ _ _ E4 _. injection Hu1 as _ _ E3 E2 _. unfold refs, kept. by rewrite E2, E3, E4. }
    case_if; [apply HR; [constructor; [done|by eapply vars_ok_same]|done]|].
    apply swp_bind. eapply swp_mono; [by apply (Hfresh s1)| |done]. intros [] s2 (W & HW & Hc2 & Hg2 & Hv2 & Hu2).
    injection Hv2 as V1 V2 V3 V4 V5. apply swp_bind. case_if.
    + eapply swp_mono; [apply (keep_transaction_snapshot_spec c W s2 R); [by apply source_view|done|done|congruence|]| |done].
      { injection Hu2 as U1 U2 U3 U4 U5. unfold refs, kept in *. by rewrite U4, U3, V4. }
      intros n s3 (Hc3 & Hg3 & Hu3 & Hv3). injection Hv3 as W1 W2 W3 W4 W5. cbn. exists W. split_and!; [done| |done|unfold uses in *; cbn; congruence].
      constructor; [by destruct Hc3; constructor|]. constructor; cbn; rewrite ?W1, ?W2, ?W3, ?W4, ?V2, ?V3; [done|apply Hv|apply Hv|by eexists].
    + cbn. exists W. split_and!; [done| |done|done]. constructor; [by destruct Hc2; constructor|].
      constructor; cbn; rewrite ?V2, ?V3, ?V4, ?Hset; [by right|apply Hv|apply Hv|by eexists].
Qed.

Lemma GetLatestSnapshot_spec s (R : SnapMgr -> Prop) :
  inv o me V c s -> same_isolation s -> none_before_first s -> Z.of_nat (length (refs s)) + 1 < 2 ^ 32 ->
  (forall s', inv o me V c s' -> uses s' = uses s -> R s') ->
  wp (GetLatestSnapshot e) (taken_ok s) R s.
Proof.
  intros Hi Hiso Hnone Hlen HR. pose proof Hi as [Hc Hv]. unfold GetLatestSnapshot. case_if; [by apply HR|]. apply wp_sget.
  destruct (FirstSnapshotSet s) eqn:Es; cbn [negb]; [|by apply GetTransactionSnapshot_spec].
  apply swp_bind. eapply swp_mono; [apply (take_snapshot_spec s SecondarySnapshotData R Hc)| |done].
  - unfold SecondarySnapshotData. lia.
  - apply static_current; [done|by right].
  - intros [] s1 (W & HW & Hc1 & Hg1 & Hv1 & Hu1 & _). cbn. exists W. split_and!; [done| |done|done].
    constructor; [by destruct Hc1; constructor|]. apply (vars_ok_same s s1) in Hv; [|done]. destruct Hv. by constructor; try done; right.
Qed.

Lemma GetCatalogSnapshot_spec s b1 b2 (R : SnapMgr -> Prop) :
  inv o me V c s -> wp (GetCatalogSnapshot b1 b2 e) (taken_ok s) R s.
Proof.
  intros [Hc Hv]. unfold GetCatalogSnapshot. apply wp_sget. rewrite (va_historic _ Hv). unfold GetNonHistoricCatalogSnapshot.
  apply wp_sget, swp_bind.
  assert (Hnext : forall s1, core V c s1 -> vars s1 = vars s -> uses s1 = uses s ->
    wp (match CatalogSnapshot s1 with
        | Some a => mret a
        | None => take_snapshot e 0 CatalogSnapshotData;; supd (set_CatalogSnapshot (Some CatalogSnapshotData));;
                  heap_add CatalogSnapshotData;; mret CatalogSnapshotData
        end) (taken_ok s) R s1).
  { intros s1 Hc1 Hv1 Hu1. destruct (CatalogSnapshot s1) as [a|] eqn:Ec.
    - cbn. exists V. split_and!; [apply source_same|constructor; [done|by eapply vars_ok_same]| |done].
      apply (da_good _ _ _ _ _ _ (co_data _ _ _ _ _ Hc1)). rewrite elem_held. by right; right.
    - apply swp_bind. eapply swp_mono; [apply (take_snapshot_spec s1 CatalogSnapshotData R Hc1)| |done].
      + unfold CatalogSnapshotData. lia.
      + congruence.
      + intros [] s2 (W & HW & Hc2 & Hg2 & Hv2 & Hu2 & Ec2). apply wp_supd, swp_bind. rewrite Ec in Ec2.
        pose proof Hc2 as [(L & Hm & HL) Hd Ho Hk _ Hme Hs]. pose proof (source_view W HW) as HVW.
        destruct (mem_ok_add _ _ _ _ _ _ _ CatalogSnapshotData Hm) as (h & Eh & Hm3).
        { rewrite HL. intros [Hin|?]; [|congruence]. pose proof (referenced_high o s2 _ L Hm (or_intror Hin)) as H3.
          unfold CatalogSnapshotData in H3. lia. }
        { by apply (good_xmin o me W c s2). }
        apply (wp_heap_add CatalogSnapshotData h); [exact Eh|]. cbn. exists W.
        split_and!; [done|constructor; [constructor; try done|]|done|by rewrite <- Hu1].
        * exists (CatalogSnapshotData :: L). split; [exact Hm3|]. intros a. rewrite elem_of_cons, HL, Ec2. cbn. naive_solver.
        * eapply data_more; [|exact Hd]. intros a. rewrite !elem_held. cbn. intros [?|[?|[= <-]]]; [tauto|tauto|by right].
        * by right.
        * eapply vars_ok_same; [|exact Hv]. etrans; [exact Hv2|exact Hv1]. }
  apply wp_when; [intros _|by intros _; apply Hnext].
  eapply swp_mono; [by apply (InvalidateCatalogSnapshot_spec o me V c s R)| |done]. intros [] s1 (Hc1 & Hv1 & Hu1 & _).
  by apply Hnext.
Qed.

(** The oldest snapshot by LSN is one in use. *)
Lemma GetOldestSnapshot_spec s R :
  core V c s ->
  wp GetOldestSnapshot (fun r s' => s' = s /\ forall a, r = Some a -> good V c s a) R s.
Proof.
  intros Hc. pose proof Hc as [(L & Hm & HL) Hd Ho _ _ _ _]. pose proof (da_good _ _ _ _ _ _ Hd) as Hgood.
  unfold GetOldestSnapshot. apply wp_sget, swp_bind.
  assert (Hreg : wp (if pairingheap_is_empty (RegisteredSnapshots s) then mret None
      else a ← lift (pairingheap_first (RegisteredSnapshots s)); ob ← obj a; mret (Some (a, lsn ob)))
    (fun r s' => s' = s /\ forall a, fst <$> r = Some a -> good V c s a) R s).
  { rewrite (mem_ok_empty _ _ _ _ _ _ _ Hm). case_bool_decide as HLe; [done|].
    destruct (mem_ok_first _ _ _ _ _ _ _ Hm HLe) as (a & ob & -> & E & Ha & _). apply swp_bind. cbn [lift]. apply swp_ret.
    apply swp_bind, (wp_obj a ob); [done|]. apply swp_ret. split; [done|]. intros b [= <-]. apply Hgood. rewrite elem_held. apply HL in Ha. tauto. }
  eapply swp_mono; [exact Hreg| |done]. intros r s' [-> Hr]. destruct (OldestActiveSnapshot s) as [a|] eqn:Eo; [|done].
  assert (Ha : good V c s a) by (apply Hgood; rewrite elem_held; left; apply last_Some_elem_of; by rewrite <- Ho).
  destruct (good_alloc _ _ _ _ _ Ha) as [ob E]. apply swp_bind, (wp_obj a ob); [done|]. apply swp_ret. split; [done|].
  intros b. case_if; [by intros [= <-]|apply Hr].
Qed.
End Take.
End Xact.
