(* ===== verification/SnapText.v ===== *)
(** * SnapText: the text of exported snapshots

    Models the text that [ExportSnapshot] writes and [ImportSnapshot] reads
    (src/backend/utils/time/snapmgr.c): lines [fieldname:value], printed with
    the conversions [%u], [%d] and [%08X] and read back with [strncmp],
    [sscanf] and [strchr].  A number that [sscanf] cannot represent is
    [Unspecified], as in the C standard. *)

From Stdlib Require Import Ascii.
From S2P Require Import Prelude TransactionId KnownXids HeapTuple ProcArray ProcReaders.

#[local] Open Scope string_scope.
#[local] Open Scope Z_scope.

Definition newline : Ascii.ascii := Ascii.ascii_of_nat 10.

(** ** Printing *)

Definition digit_char (d : Z) : Ascii.ascii := Ascii.ascii_of_nat (48 + Z.to_nat d).
Definition xdigit_char (d : Z) : Ascii.ascii := Ascii.ascii_of_nat (if d <? 10 then 48 + Z.to_nat d else 55 + Z.to_nat d).

(** The decimal digits of [n], before [acc]. *)
Fixpoint dec_digits (fuel : nat) (n : Z) (acc : string) : string :=
  match fuel with
  | O => acc
  | S f => let acc := String (digit_char (n mod 10)) acc in if n <? 10 then acc else dec_digits f (n / 10) acc
  end.

(** [%u] and [%d]; twenty digits are enough for 64 bits. *)
Definition print_u (n : Z) : string := dec_digits 20 n EmptyString.
Definition print_d (n : Z) : string := if n <? 0 then String "-"%char (print_u (- n)) else print_u n.

(** [%08X] of a 32-bit number. *)
Fixpoint print_X (width : nat) (n : Z) : string :=
  match width with O => EmptyString | S w => print_X w (n / 16) +:+ String (xdigit_char (n mod 16)) EmptyString end.

Definition text_line (prefix value : string) : string := prefix +:+ value +:+ String newline EmptyString.

(** ** Reading *)

Inductive parsed (A : Type) :=
| Parsed (a : A) (rest : string)
| Invalid
| Unspecified.
Arguments Parsed {_} _ _ : assert.
Arguments Invalid {_} : assert.
Arguments Unspecified {_} : assert.

Definition reader (A : Type) : Type := string -> parsed A.

#[export] Instance reader_ret : MRet reader := fun A a s => Parsed a s.
#[export] Instance reader_bind : MBind reader := fun A B k m s =>
  match m s with Parsed a s => k a s | Invalid => Invalid | Unspecified => Unspecified end.

Definition reject {A} : reader A := fun _ => Invalid.

(** What follows a prefix. *)
Fixpoint strip (prefix s : string) : option string :=
  match prefix, s with
  | EmptyString, _ => Some s
  | String p prefix, String c s => if Ascii.eqb p c then strip prefix s else None
  | String _ _, EmptyString => None
  end.

(** What follows the next newline. *)
Fixpoint next_line (s : string) : option string :=
  match s with
  | EmptyString => None
  | String c s => if Ascii.eqb c newline then Some s else next_line s
  end.

Definition isspace (c : Ascii.ascii) : bool :=
  let n := Ascii.nat_of_ascii c in ((9 <=? n) && (n <=? 13) || (n =? 32))%nat.
Definition digit_value (c : Ascii.ascii) : option Z :=
  let n := Ascii.nat_of_ascii c in if ((48 <=? n) && (n <=? 57))%nat then Some (Z.of_nat n - 48) else None.

Fixpoint skip_space (s : string) : string :=
  match s with
  | String c s' => if isspace c then skip_space s' else s
  | EmptyString => s
  end.

(** Digits after the value [v] so far; whether there were any. *)
Fixpoint scan_digits (s : string) (v : Z) (some : bool) : Z * bool * string :=
  match s with
  | String c s' => match digit_value c with Some d => scan_digits s' (v * 10 + d) true | None => (v, some, s) end
  | EmptyString => (v, some, s)
  end.

Definition scan_sign (s : string) : bool * string :=
  match s with
  | String c s' => if Ascii.eqb c "-"%char then (true, s') else if Ascii.eqb c "+"%char then (false, s') else (false, s)
  | EmptyString => (false, s)
  end.

(** A conversion of [sscanf]: no match, or a number, if it fits, and the
    rest. *)
Definition scan_number (lo hi : Z) (s : string) : option (option Z * string) :=
  let '(neg, s) := scan_sign (skip_space s) in
  let '(v, some, rest) := scan_digits s 0 false in
  if negb some then None
  else let z := if neg : bool then - v else v in Some (if (lo <=? z) && (z <=? hi) then Some z else None, rest).

Definition scan_d : string -> option (option Z * string) := scan_number (- 2 ^ 31) (2 ^ 31 - 1).
Definition scan_u : string -> option (option Z * string) := scan_number 0 (2 ^ 32 - 1).

Definition number_from_text (scan : string -> option (option Z * string)) (prefix : string) : reader Z := fun s =>
  match strip prefix s with
  | None => Invalid
  | Some ptr =>
      match scan ptr with
      | None => Invalid
      | Some (None, _) => Unspecified
      | Some (Some v, _) => match next_line ptr with None => Invalid | Some rest => Parsed v rest end
      end
  end.

Definition parseIntFromText (prefix : string) : reader Z := number_from_text scan_d prefix.
Definition parseXidFromText (prefix : string) : reader TransactionId := number_from_text scan_u prefix.

(** [sscanf(ptr, "%d/%u", ...) != 2] *)
Definition parseVxidFromText (prefix : string) : reader VirtualTransactionId := fun s =>
  match strip prefix s with
  | None => Invalid
  | Some ptr =>
      match scan_d ptr with
      | None => Invalid
      | Some (b, rest) =>
          match strip "/" rest with
          | None => Invalid
          | Some rest =>
              match scan_u rest with
              | None => Invalid
              | Some (x, _) =>
                  match b, x, next_line ptr with
                  | Some b, Some x, Some rest => Parsed (mkVxid b x) rest
                  | Some _, Some _, None => Invalid
                  | _, _, _ => Unspecified
                  end
              end
          end
      end
  end.

(** [for (i = 0; i < xcnt; i++) ... = parseXidFromText(prefix, ...)] *)
Fixpoint parse_xids (prefix : string) (n : nat) : reader (list TransactionId) :=
  match n with
  | O => mret []
  | S n => x ← parseXidFromText prefix; l ← parse_xids prefix n; mret (x :: l)
  end.

(** A C string ends at the first null. *)
Fixpoint c_string (s : string) : string :=
  match s with
  | EmptyString => EmptyString
  | String c s => if (Ascii.nat_of_ascii c =? 0)%nat then EmptyString else String c (c_string s)
  end.

(** ** Reading back what was printed *)

Lemma digit_range d : 0 <= d < 10 -> exists k, (k < 10)%nat /\ d = Z.of_nat k.
Proof. intros Hd. exists (Z.to_nat d). lia. Qed.

Lemma digit_char_spec d :
  0 <= d < 10 ->
  digit_value (digit_char d) = Some d /\ isspace (digit_char d) = false /\ Ascii.eqb (digit_char d) newline = false /\
  Ascii.eqb (digit_char d) "-"%char = false /\ Ascii.eqb (digit_char d) "+"%char = false.
Proof.
  intros (k & Hk & ->)%digit_range. do 10 (destruct k as [|k]; [by vm_compute|]). lia.
Qed.

Lemma string_app_assoc (s t u : string) : (s +:+ t) +:+ u = s +:+ t +:+ u.
Proof.
  induction s as [|c s IH]; [done|]. change (String c ((s +:+ t) +:+ u) = String c (s +:+ t +:+ u)). by rewrite IH.
Qed.

Lemma dec_digits_app fuel n acc rest : dec_digits fuel n acc +:+ rest = dec_digits fuel n (acc +:+ rest).
Proof. revert n acc. induction fuel as [|f IH]; intros n acc; cbn [dec_digits]; [done|]. case_if; [done|]. apply IH. Qed.

Lemma dec_digits_S fuel n acc :
  dec_digits (S fuel) n acc =
  if n <? 10 then String (digit_char (n mod 10)) acc else dec_digits fuel (n / 10) (String (digit_char (n mod 10)) acc).
Proof. done. Qed.

Lemma mod10 n : 0 <= n -> 0 <= n mod 10 < 10.
Proof. intros. apply Z.mod_pos_bound. lia. Qed.

Lemma scan_dec_digits fuel n acc v0 :
  0 <= n < 10 ^ Z.of_nat (S fuel) -> v0 = 0 ->
  scan_digits (dec_digits (S fuel) n acc) v0 false = scan_digits acc n true.
Proof.
  intros Hn ->. revert n acc Hn. induction fuel as [|f IH]; intros n acc Hn; rewrite dec_digits_S; destruct (Z.ltb_spec n 10).
  1,3: cbn [scan_digits]; rewrite (Z.mod_small n 10) by lia; by destruct (digit_char_spec n ltac:(lia)) as [-> _].
  - change (10 ^ Z.of_nat 1) with 10 in Hn. lia.
  - rewrite Nat2Z.inj_succ, Z.pow_succ_r in Hn by lia.
    rewrite IH by (split; [apply Z.div_pos; lia|apply Z.div_lt_upper_bound; lia]). cbn [scan_digits].
    destruct (digit_char_spec (n mod 10) (mod10 n ltac:(lia))) as [-> _]. f_equal. rewrite (Z.div_mod n 10) at 3 by lia. lia.
Qed.

(** The first character is a digit, and there is no newline. *)
Lemma dec_digits_head fuel n acc : 0 <= n -> exists d s, 0 <= d < 10 /\ dec_digits (S fuel) n acc = String (digit_char d) s.
Proof.
  revert n acc. induction fuel as [|f IH]; intros n acc Hn.
  - exists (n mod 10), acc. split; [by apply mod10|]. cbn. by case_if.
  - rewrite dec_digits_S. destruct (Z.ltb_spec n 10) as [|Hge]; [exists (n mod 10), acc; split; [by apply mod10|done]|].
    apply IH. apply Z.div_pos; lia.
Qed.

Lemma next_line_dec_digits fuel n acc : 0 <= n -> next_line (dec_digits fuel n acc) = next_line acc.
Proof.
  revert n acc. induction fuel as [|f IH]; intros n acc Hn; [done|]. cbn [dec_digits].
  destruct (digit_char_spec (n mod 10) (mod10 n Hn)) as (_ & _ & E & _).
  assert (En : next_line (String (digit_char (n mod 10)) acc) = next_line acc) by (cbn; by rewrite E).
  case_if; [done|]. rewrite IH; [done|apply Z.div_pos; lia].
Qed.

(** A character that ends a number. *)
Definition stops (s : string) : Prop := match s with String c _ => digit_value c = None | EmptyString => True end.

Lemma scan_digits_stops s v b : stops s -> scan_digits s v b = (v, b, s).
Proof. destruct s as [|c s]; cbn; [done|]. by intros ->. Qed.

Lemma scan_print_u lo hi n rest :
  0 <= n < 2 ^ 64 -> lo <= n <= hi -> stops rest -> scan_number lo hi (print_u n +:+ rest) = Some (Some n, rest).
Proof.
  intros Hn Hr Hs. unfold print_u. rewrite dec_digits_app. change (EmptyString +:+ rest) with rest.
  destruct (dec_digits_head 19 n rest (proj1 Hn)) as (d & s & Hd & E). pose proof (digit_char_spec d Hd) as (D1 & D2 & D3 & D4 & D5).
  unfold scan_number. rewrite E at 1. cbn [skip_space]. rewrite D2. cbn [scan_sign]. rewrite D4, D5, <- E.
  rewrite scan_dec_digits by lia. rewrite scan_digits_stops by done. cbn [negb].
  by rewrite (proj2 (Z.leb_le _ _) (proj1 Hr)), (proj2 (Z.leb_le _ _) (proj2 Hr)).
Qed.

Lemma scan_print_d n rest :
  - 2 ^ 31 <= n < 2 ^ 31 -> stops rest -> scan_d (print_d n +:+ rest) = Some (Some n, rest).
Proof.
  intros Hn Hs. unfold scan_d, print_d. destruct (Z.ltb_spec n 0) as [Hneg|Hpos]; [|apply scan_print_u; [lia|lia|done]].
  unfold scan_number, print_u. change (String "-"%char (dec_digits 20 (- n) EmptyString) +:+ rest)
    with (String "-"%char (dec_digits 20 (- n) EmptyString +:+ rest)). rewrite dec_digits_app. change (EmptyString +:+ rest) with rest.
  change (scan_sign (skip_space (String "-"%char ?t))) with (true, t). cbv iota beta.
  rewrite scan_dec_digits by lia. rewrite scan_digits_stops by done. cbn [negb]. rewrite Z.opp_involutive.
  rewrite (proj2 (Z.leb_le (- 2 ^ 31) n)), (proj2 (Z.leb_le n (2 ^ 31 - 1))) by lia. done.
Qed.

Lemma next_line_print_u n s : 0 <= n -> next_line (print_u n +:+ s) = next_line s.
Proof. intros Hn. unfold print_u. rewrite dec_digits_app. by apply next_line_dec_digits. Qed.

Lemma next_line_print_d n s : next_line (print_d n +:+ s) = next_line s.
Proof.
  unfold print_d. destruct (Z.ltb_spec n 0); [|apply next_line_print_u; lia].
  change (next_line (print_u (- n) +:+ s) = next_line s). apply next_line_print_u. lia.
Qed.

Lemma strip_app prefix s : strip prefix (prefix +:+ s) = Some s.
Proof.
  induction prefix as [|c p IH]; [done|]. change (String c p +:+ s) with (String c (p +:+ s)). cbn. by rewrite Ascii.eqb_refl.
Qed.

Lemma parseXid_line prefix n rest :
  is_u32 n -> parseXidFromText prefix (text_line prefix (print_u n) +:+ rest) = Parsed n rest.
Proof.
  intros Hn. unfold is_u32 in Hn. unfold parseXidFromText, number_from_text, text_line. rewrite !string_app_assoc, strip_app.
  unfold scan_u. rewrite scan_print_u by (lia || done). by rewrite next_line_print_u by lia.
Qed.

Lemma parseInt_line prefix n rest :
  - 2 ^ 31 <= n < 2 ^ 31 -> parseIntFromText prefix (text_line prefix (print_d n) +:+ rest) = Parsed n rest.
Proof.
  intros Hn. unfold parseIntFromText, number_from_text, text_line. rewrite !string_app_assoc, strip_app.
  rewrite scan_print_d by done. by rewrite next_line_print_d.
Qed.

Lemma parseVxid_line prefix b x rest :
  - 2 ^ 31 <= b < 2 ^ 31 -> is_u32 x ->
  parseVxidFromText prefix (text_line prefix (print_d b +:+ "/" +:+ print_u x) +:+ rest) = Parsed (mkVxid b x) rest.
Proof.
  intros Hb Hx. unfold is_u32 in Hx. unfold parseVxidFromText, text_line. rewrite !string_app_assoc, strip_app.
  rewrite scan_print_d by done. rewrite strip_app. unfold scan_u. rewrite scan_print_u by (lia || done).
  rewrite next_line_print_d. change (next_line ("/" +:+ ?s)) with (next_line s). by rewrite next_line_print_u by lia.
Qed.

(** The lines of an array. *)
Definition xid_lines (prefix : string) (l : list TransactionId) : string :=
  foldr (fun x s => text_line prefix (print_u x) +:+ s) EmptyString l.

Lemma parse_xid_lines prefix l rest :
  Forall is_u32 l -> parse_xids prefix (length l) (xid_lines prefix l +:+ rest) = Parsed l rest.
Proof.
  induction 1 as [|x l Hx Hl IH]; [done|]. cbn [length parse_xids xid_lines foldr]. unfold mbind, reader_bind.
  rewrite string_app_assoc, parseXid_line by done. fold (xid_lines prefix l). by rewrite IH.
Qed.
