(* ===== verification/SnapExport.v ===== *)
(** * SnapExport: exporting and importing snapshots

    Models [ExportSnapshot] and [ImportSnapshot] of
    src/backend/utils/time/snapmgr.c and shows that an import reads back what
    an export wrote.  The directory of files is [pg_snapshots] of the state;
    writing to the temporary file, which nobody can import, is part of the
    step that creates the file. *)

From Stdlib Require Import Ascii.
From S2P Require Import Prelude TransactionId KnownXids HeapTuple ProcArray ProcScan ProcReaders PairingHeap ProcRun ProcExample SnapMgr SnapText.

#[local] Open Scope string_scope.
#[local] Open Scope list_scope.
#[local] Open Scope Z_scope.

Definition GetMaxSnapshotXidCount (sh : ProcShared) : nat := maxProcs sh.
Definition GetMaxSnapshotSubxidCount (sh : ProcShared) : nat := (MAX_CACHED_SUBXIDS + 1) * maxProcs sh.

(** What the transaction manager and the session say; [file_ok] is false when
    the file cannot be written. *)
Record ExportEnv := mkExportEnv {
  TopTransactionIdIfAny : TransactionId;
  IsSubTransaction : bool;
  committedChildren : list TransactionId;
  MyProcPid : Z;
  XactReadOnly : bool;
  file_ok : bool;
}.

Definition SNAPSHOT_EXPORT_DIR : string := "pg_snapshots".

(** [%08X-%08X-%d] *)
Definition snapshot_name (pr : PGPROC) (k : nat) : string :=
  print_X 8 (u32 (backendId pr)) +:+ "-" +:+ print_X 8 (lxid pr) +:+ "-" +:+ print_d (Z.of_nat k).
Definition snapshot_path (name : string) : string := SNAPSHOT_EXPORT_DIR +:+ "/" +:+ name.

Definition bool_int (b : bool) : Z := if b then 1 else 0.

(** Whether the own id goes with the snapshot, and whether the arrays of
    subtransactions are left out. *)
Definition addTopXid (x : ExportEnv) (sn : SnapshotData) : list TransactionId :=
  if TransactionIdIsValid (TopTransactionIdIfAny x) && TransactionIdPrecedes (TopTransactionIdIfAny x) (snap_xmax sn)
  then [TopTransactionIdIfAny x] else [].
Definition export_overflowed (x : ExportEnv) (max : nat) (sn : SnapshotData) : bool :=
  suboverflowed sn || (max <? length (subxip sn) + length (committedChildren x))%nat.

Definition subxid_text (x : ExportEnv) (max : nat) (sn : SnapshotData) : string :=
  if export_overflowed x max sn then text_line "sof:" "1"
  else text_line "sof:" "0" +:+
       text_line "sxcnt:" (print_d (Z.of_nat (length (subxip sn) + length (committedChildren x)))) +:+
       xid_lines "sxp:" (subxip sn) +:+ xid_lines "sxp:" (committedChildren x).

Definition snapshot_text (x : ExportEnv) (e : SnapEnv) (pr : PGPROC) (dbid : Z) (max : nat) (sn : SnapshotData) : string :=
  text_line "vxid:" (print_d (backendId pr) +:+ "/" +:+ print_u (lxid pr)) +:+
  text_line "pid:" (print_d (MyProcPid x)) +:+
  text_line "dbid:" (print_u dbid) +:+
  text_line "iso:" (print_d (XactIsoLevel e)) +:+
  text_line "ro:" (print_d (bool_int (XactReadOnly x))) +:+
  text_line "xmin:" (print_u (snap_xmin sn)) +:+
  text_line "xmax:" (print_u (snap_xmax sn)) +:+
  text_line "xcnt:" (print_d (Z.of_nat (length (xip sn) + length (addTopXid x sn)))) +:+
  xid_lines "xip:" (xip sn) +:+ xid_lines "xip:" (addTopXid x sn) +:+
  subxid_text x max sn +:+
  text_line "rec:" (print_u (bool_int (takenDuringRecovery sn))).

Definition ExportSnapshot (x : ExportEnv) (e : SnapEnv) (a : nat) : SM string :=
  if IsSubTransaction x then raise
  else
    s ← sget;
    let pr := proc (shared s) (MyProcNo (local s)) in
    let name := snapshot_name pr (length (exportedSnapshots s) + 1) in
    let path := snapshot_path name in
    c ← CopySnapshot a;
    supd (fun s => set_exported (exportedSnapshots s ++ [mkExported path c]) (pg_snapshots s) s);;
    upd_regd_count 1 c;;
    heap_add c;;
    o ← obj c;
    let text := snapshot_text x e pr (MyDatabaseId (local s)) (GetMaxSnapshotSubxidCount (shared s)) (snap (so_snap o)) in
    if negb (file_ok x) then raise
    else
      supd (fun s => set_exported (exportedSnapshots s) (<[path := text]> (pg_snapshots s)) s);;
      mret name.

(** ** Import *)

(** The contents of a file. *)
Record SnapshotFile := mkSnapshotFile {
  src_vxid : VirtualTransactionId;
  src_pid : Z;
  src_dbid : Z;
  src_isolevel : Z;
  src_readonly : bool;
  src_snapshot : SnapshotData;
}.

(** A count, checked before memory is allocated for it. *)
Definition parse_count (prefix : string) (max : nat) : reader nat :=
  xcnt ← parseIntFromText prefix;
  if (xcnt <? 0) || (Z.of_nat max <? xcnt) then reject else mret (Z.to_nat xcnt).

Definition parse_subxids (max : nat) (suboverflowed : bool) : reader (list TransactionId) :=
  if negb suboverflowed then n ← parse_count "sxcnt:" max; parse_xids "sxp:" n else mret [].

Definition parse_snapshot (sh : ProcShared) : reader SnapshotFile :=
  vxid ← parseVxidFromText "vxid:";
  pid ← parseIntFromText "pid:";
  dbid ← parseXidFromText "dbid:";
  iso ← parseIntFromText "iso:";
  ro ← parseIntFromText "ro:";
  xmin ← parseXidFromText "xmin:";
  xmax ← parseXidFromText "xmax:";
  xcnt ← parse_count "xcnt:" (GetMaxSnapshotXidCount sh);
  xips ← parse_xids "xip:" xcnt;
  sof ← parseIntFromText "sof:";
  subxips ← parse_subxids (GetMaxSnapshotSubxidCount sh) (negb (sof =? 0));
  rec ← parseIntFromText "rec:";
  mret (mkSnapshotFile vxid pid dbid iso (negb (ro =? 0))
          (mkSnapshot SNAPSHOT_MVCC xmin xmax xips subxips (negb (sof =? 0)) (negb (rec =? 0)) 0 0)).

(** [strspn(idstr, "0123456789ABCDEF-") == strlen(idstr)] *)
Fixpoint valid_identifier (idstr : string) : bool :=
  match idstr with
  | EmptyString => true
  | String c s => existsb (Ascii.eqb c) (String.list_ascii_of_string "0123456789ABCDEF-") && valid_identifier s
  end.

Definition run_reader {A} (r : reader A) (text : string) : SM A :=
  match r (c_string text) with Parsed a _ => mret a | Invalid => raise | Unspecified => undefined end.

Definition ImportSnapshot (x : ExportEnv) (e : SnapEnv) (idstr : string) : SM unit :=
  s ← sget;
  if FirstSnapshotSet s || (TopTransactionIdIfAny x != InvalidTransactionId) || IsSubTransaction x then raise
  else if negb (IsolationUsesXactSnapshot e) then raise
  else if negb (valid_identifier idstr) then raise
  else
    match pg_snapshots s !! snapshot_path idstr with
    | None => raise
    | Some EmptyString => raise
    | Some text =>
        f ← run_reader (parse_snapshot (shared s)) text;
        let sn := src_snapshot f in
        if negb (VirtualTransactionIdIsValid (src_vxid f)) || (src_dbid f =? InvalidOid) ||
           negb (TransactionIdIsNormal (snap_xmin sn)) || negb (TransactionIdIsNormal (snap_xmax sn)) then raise
        else if IsolationIsSerializable e &&
                ((src_isolevel f != XACT_SERIALIZABLE) || src_readonly f && negb (XactReadOnly x)) then raise
        else if src_dbid f != MyDatabaseId (local s) then raise
        else SetTransactionSnapshot e sn (inl (Some (src_vxid f)))
    end.

(** ** Reading back *)

(** What an import makes of the text. *)
Definition exported_data (x : ExportEnv) (max : nat) (sn : SnapshotData) : SnapshotData :=
  mkSnapshot SNAPSHOT_MVCC (snap_xmin sn) (snap_xmax sn) (xip sn ++ addTopXid x sn)
    (if export_overflowed x max sn then [] else subxip sn ++ committedChildren x)
    (export_overflowed x max sn) (takenDuringRecovery sn) 0 0.

(** Values within the widths of their C types, and arrays that fit. *)
Record exportable (x : ExportEnv) (e : SnapEnv) (pr : PGPROC) (dbid : Z) (sh : ProcShared) (sn : SnapshotData) : Prop := {
  ex_vxid : - 2 ^ 31 <= backendId pr < 2 ^ 31 /\ is_u32 (lxid pr);
  ex_ints : - 2 ^ 31 <= MyProcPid x < 2 ^ 31 /\ - 2 ^ 31 <= XactIsoLevel e < 2 ^ 31 /\ is_u32 dbid;
  ex_bounds : is_u32 (snap_xmin sn) /\ is_u32 (snap_xmax sn);
  ex_xids : Forall is_u32 (xip sn ++ addTopXid x sn) /\ Forall is_u32 (subxip sn ++ committedChildren x);
  ex_room : (length (xip sn) + length (addTopXid x sn) <= GetMaxSnapshotXidCount sh)%nat;
  ex_max : Z.of_nat (GetMaxSnapshotSubxidCount sh) < 2 ^ 31;
}.

Lemma xid_lines_app prefix l l' s : xid_lines prefix l +:+ xid_lines prefix l' +:+ s = xid_lines prefix (l ++ l') +:+ s.
Proof.
  unfold xid_lines. induction l as [|y l IH]; [done|]. cbn [foldr app]. by rewrite !string_app_assoc, IH.
Qed.

Lemma parse_count_line prefix max n rest :
  (n <= max)%nat -> Z.of_nat max < 2 ^ 31 ->
  parse_count prefix max (text_line prefix (print_d (Z.of_nat n)) +:+ rest) = Parsed n rest.
Proof.
  intros Hn Hmax. unfold parse_count, mbind, reader_bind. rewrite parseInt_line by lia.
  rewrite (proj2 (Z.ltb_ge _ _)), (proj2 (Z.ltb_ge _ _)) by lia. cbn. by rewrite Nat2Z.id.
Qed.

Lemma print_bool b : print_u (bool_int b) = print_d (bool_int b).
Proof. by destruct b. Qed.

Lemma bool_int_back b : negb (bool_int b =? 0) = b.
Proof. by destruct b. Qed.

Lemma parse_bool prefix b rest : parseIntFromText prefix (text_line prefix (print_d (bool_int b)) +:+ rest) = Parsed (bool_int b) rest.
Proof. apply parseInt_line. destruct b; cbn; lia. Qed.

(** The lines on subtransactions. *)
Lemma parse_subxid_text x max sn rest :
  Forall is_u32 (subxip sn ++ committedChildren x) -> Z.of_nat max < 2 ^ 31 ->
  exists r, parseIntFromText "sof:" (subxid_text x max sn +:+ rest) = Parsed (bool_int (export_overflowed x max sn)) r /\
    parse_subxids max (export_overflowed x max sn) r = Parsed (subxip (exported_data x max sn)) rest.
Proof.
  intros Hl Hmax. unfold subxid_text. cbn [subxip exported_data]. destruct (export_overflowed x max sn) eqn:Ho.
  - exists rest. change (text_line "sof:" "1") with (text_line "sof:" (print_d (bool_int true))). by rewrite parse_bool.
  - eexists. change (text_line "sof:" "0") with (text_line "sof:" (print_d (bool_int false))). rewrite !string_app_assoc, parse_bool.
    split; [done|]. unfold parse_subxids, mbind, reader_bind. cbn [negb].
    unfold export_overflowed in Ho. apply orb_false_iff in Ho as [_ Ho%Nat.ltb_ge].
    rewrite parse_count_line by (done || lia). rewrite xid_lines_app, <- length_app. by rewrite parse_xid_lines.
Qed.

Lemma parse_snapshot_text x e pr dbid sh sn :
  exportable x e pr dbid sh sn ->
  parse_snapshot sh (snapshot_text x e pr dbid (GetMaxSnapshotSubxidCount sh) sn) =
  Parsed (mkSnapshotFile (GET_VXID_FROM_PGPROC pr) (MyProcPid x) dbid (XactIsoLevel e) (XactReadOnly x)
            (exported_data x (GetMaxSnapshotSubxidCount sh) sn)) EmptyString.
Proof.
  intros [[H1 H2] (H3 & H4 & H5) [H6 H7] [H8 H9] H10 H11]. unfold parse_snapshot, snapshot_text, mbind, reader_bind.
  assert (Hx : Z.of_nat (GetMaxSnapshotXidCount sh) < 2 ^ 31) by (unfold GetMaxSnapshotXidCount, GetMaxSnapshotSubxidCount, MAX_CACHED_SUBXIDS in *; lia).
  rewrite parseVxid_line, parseInt_line, parseXid_line, parseInt_line, parse_bool, parseXid_line, parseXid_line by done.
  rewrite parse_count_line, xid_lines_app, <- length_app, parse_xid_lines by done.
  set (max := GetMaxSnapshotSubxidCount sh) in *. rewrite print_bool.
  destruct (parse_subxid_text x max sn (text_line "rec:" (print_d (bool_int (takenDuringRecovery sn)))) H9 H11) as (r & -> & E).
  rewrite !bool_int_back, E. pose proof (parse_bool "rec:" (takenDuringRecovery sn) EmptyString) as Erec.
  assert (Hnil : forall t, t +:+ EmptyString = t) by (intros t; induction t as [|ch t IH]; [done|]; by apply (f_equal (String ch))).
  rewrite Hnil in Erec. rewrite Erec. unfold mret, reader_ret. by rewrite bool_int_back.
Qed.

(** There is no null in the text, and identifiers are valid. *)
Lemma c_string_app s t : c_string s = s -> c_string t = t -> c_string (s +:+ t) = s +:+ t.
Proof.
  intros Hs Ht. induction s as [|ch s IH]; [done|]. change (String ch s +:+ t) with (String ch (s +:+ t)). cbn in *.
  destruct (_ =? 0)%nat; [done|]. injection Hs as Hs. by rewrite (IH Hs).
Qed.

Lemma c_string_dec fuel n acc : 0 <= n -> c_string acc = acc -> c_string (dec_digits fuel n acc) = dec_digits fuel n acc.
Proof.
  revert n acc. induction fuel as [|f IH]; intros n acc Hn Ha; [done|]. rewrite dec_digits_S.
  assert (E : c_string (String (digit_char (n mod 10)) acc) = String (digit_char (n mod 10)) acc).
  { destruct (digit_range (n mod 10) (mod10 n Hn)) as (k & Hk & ->). cbn. rewrite Ha. do 10 (destruct k as [|k]; [done|]). lia. }
  case_if; [done|]. apply IH; [apply Z.div_pos; lia|done].
Qed.

Lemma c_string_print_u n : 0 <= n -> c_string (print_u n) = print_u n.
Proof. intros Hn. by apply c_string_dec. Qed.

Lemma c_string_print_d n : c_string (print_d n) = print_d n.
Proof.
  unfold print_d. destruct (Z.ltb_spec n 0); [|by apply c_string_print_u].
  change (String "-"%char (c_string (print_u (- n))) = String "-"%char (print_u (- n))). rewrite c_string_print_u by lia. done.
Qed.

Create HintDb plain.
#[export] Hint Resolve c_string_app c_string_print_d c_string_print_u eq_refl : plain.

Lemma c_string_line prefix v : c_string prefix = prefix -> c_string v = v -> c_string (text_line prefix v) = text_line prefix v.
Proof. unfold text_line. auto with plain. Qed.
#[export] Hint Resolve c_string_line : plain.

Lemma c_string_lines prefix l : c_string prefix = prefix -> Forall is_u32 l -> c_string (xid_lines prefix l) = xid_lines prefix l.
Proof. intros Hp. induction 1 as [|y l [Hy _] Hl IH]; [done|]. cbn [xid_lines foldr]. auto with plain. Qed.
#[export] Hint Resolve c_string_lines : plain.

Lemma c_string_text x e pr dbid sh sn :
  exportable x e pr dbid sh sn ->
  let max := GetMaxSnapshotSubxidCount sh in c_string (snapshot_text x e pr dbid max sn) = snapshot_text x e pr dbid max sn.
Proof.
  intros [[_ [H2 _]] (_ & _ & [H5 _]) [[H6 _] [H7 _]] [H8 H9] _ _] max. apply Forall_app in H8 as [H8 H8'], H9 as [H9 H9'].
  assert (Hb : forall b, 0 <= bool_int b) by (by intros []).
  assert (Hs : c_string (subxid_text x max sn) = subxid_text x max sn) by (unfold subxid_text; case_if; auto 10 with plain).
  unfold snapshot_text. auto 20 with plain.
Qed.

Lemma valid_app s t : valid_identifier (s +:+ t) = valid_identifier s && valid_identifier t.
Proof.
  induction s as [|ch s IH]; [done|]. change (String ch s +:+ t) with (String ch (s +:+ t)). cbn [valid_identifier].
  by rewrite IH, andb_assoc.
Qed.

Lemma valid_X w n : valid_identifier (print_X w n) = true.
Proof.
  revert n. induction w as [|w IH]; intros n; [done|]. cbn [print_X]. rewrite valid_app, IH. cbn [andb valid_identifier].
  assert (Hd : exists k, (k < 16)%nat /\ n mod 16 = Z.of_nat k) by (exists (Z.to_nat (n mod 16)); pose proof (Z.mod_pos_bound n 16); lia).
  destruct Hd as (k & Hk & ->). do 16 (destruct k as [|k]; [by vm_compute|]). lia.
Qed.

Lemma valid_dec fuel n acc : 0 <= n -> valid_identifier acc = true -> valid_identifier (dec_digits fuel n acc) = true.
Proof.
  revert n acc. induction fuel as [|f IH]; intros n acc Hn Ha; [done|]. rewrite dec_digits_S.
  assert (E : valid_identifier (String (digit_char (n mod 10)) acc) = true).
  { destruct (digit_range (n mod 10) (mod10 n Hn)) as (k & Hk & ->). cbn [valid_identifier]. rewrite Ha, andb_true_r.
    do 10 (destruct k as [|k]; [by vm_compute|]). lia. }
  case_if; [done|]. apply IH; [apply Z.div_pos; lia|done].
Qed.

Lemma snapshot_name_valid pr k : valid_identifier (snapshot_name pr k) = true.
Proof.
  unfold snapshot_name. rewrite !valid_app, !valid_X. unfold print_d. rewrite (proj2 (Z.ltb_ge _ _)) by lia.
  unfold print_u. rewrite valid_dec; [done|lia|done].
Qed.

(** What an export leaves behind. *)
Lemma ExportSnapshot_file x e a s name s' ob :
  ExportSnapshot x e a s = Done name s' -> objs s !! a = Some ob ->
  let pr := proc (shared s) (MyProcNo (local s)) in
  name = snapshot_name pr (length (exportedSnapshots s) + 1) /\
  pg_snapshots s' !! snapshot_path name =
    Some (snapshot_text x e pr (MyDatabaseId (local s)) (GetMaxSnapshotSubxidCount (shared s)) (copied_data (snap (so_snap ob)))).
Proof.
  intros HE Ha pr. unfold ExportSnapshot, CopySnapshot, heap_add, upd_regd_count, obj, put_obj, mbind, sm_bind, sget, supd in HE.
  destruct (IsSubTransaction x); [done|]. cbn in HE. rewrite Ha in HE. cbn in HE.
  destruct (ph_nodes (RegisteredSnapshots s) !! a) as [nd|]; [|done]. cbn in HE. rewrite lookup_insert_eq in HE. cbn in HE.
  destruct (pairingheap_add _ _ _) as [h|]; [|done]. cbn in HE. rewrite lookup_insert_eq in HE. cbn in HE.
  destruct (file_ok x); [|done]. cbn in HE. injection HE as <- <-. split; [done|]. cbn. apply lookup_insert_eq.
Qed.

(** ** What an imported snapshot shows *)

Lemma copied_shows topmost y sn : XidInMVCCSnapshot topmost y (copied_data sn) = XidInMVCCSnapshot topmost y sn.
Proof. unfold XidInMVCCSnapshot, copied_data. cbn. by destruct (suboverflowed sn), (takenDuringRecovery sn). Qed.

(** The ids of the exporting transaction. *)
Definition own_xid (x : ExportEnv) (y : TransactionId) : Prop :=
  TransactionIdIsValid (TopTransactionIdIfAny x) = true /\ (y = TopTransactionIdIfAny x \/ y ∈ committedChildren x).

(** A snapshot of the primary and the transaction that exports it. *)
Record family (topmost : TransactionId -> TransactionId) (o : TransactionId) (x : ExportEnv) (sn : SnapshotData) : Prop := {
  fa_bounds : in_window o (snap_xmin sn) /\ in_window o (snap_xmax sn);
  fa_top : forall y, y ∈ xip sn -> in_window o y /\ topmost y = y /\ xid_age o (snap_xmin sn) <= xid_age o y;
  fa_sub : forall y, y ∈ subxip sn -> topmost y ∈ xip sn;
  fa_own : forall y, own_xid x y -> in_window o y /\ topmost y = TopTransactionIdIfAny x /\
    xid_age o (snap_xmin sn) <= xid_age o (TopTransactionIdIfAny x) <= xid_age o y;
  fa_children : committedChildren x <> [] -> TransactionIdIsValid (TopTransactionIdIfAny x) = true;
}.

Section Shows.
Context (topmost : TransactionId -> TransactionId) (o : TransactionId) (x : ExportEnv) (max : nat) (sn : SnapshotData).
Context (Hf : family topmost o x sn).

Abbreviation top := (TopTransactionIdIfAny x).
Abbreviation data := (exported_data x max sn).

Lemma top_window : TransactionIdIsValid top = true -> in_window o top /\ topmost top = top /\ xid_age o (snap_xmin sn) <= xid_age o top.
Proof. intros Hv. destruct (fa_own _ _ _ _ Hf top) as (H1 & H2 & H3); [by split; [|left]|]. split_and!; [done|done|lia]. Qed.

Lemma elem_addTopXid y :
  y ∈ addTopXid x sn <-> TransactionIdIsValid top = true /\ y = top /\ xid_age o top < xid_age o (snap_xmax sn).
Proof.
  unfold addTopXid. destruct (TransactionIdIsValid top) eqn:Hv; cbn [andb]; [|rewrite elem_of_nil; naive_solver].
  rewrite (precedes_window o) by (apply top_window || apply Hf; done). destruct (Z.ltb_spec (xid_age o top) (xid_age o (snap_xmax sn))).
  - rewrite list_elem_of_singleton. naive_solver.
  - rewrite elem_of_nil. split; [done|]. intros (_ & _ & ?). lia.
Qed.

(** The test of a snapshot from the primary. *)
Lemma shows_elem y s' :
  in_window o y -> snap_xmin s' = snap_xmin sn -> snap_xmax s' = snap_xmax sn -> takenDuringRecovery s' = false ->
  (forall z, z ∈ xip s' -> in_window o z /\ xid_age o (snap_xmin sn) <= xid_age o z) ->
  XidInMVCCSnapshot topmost y s' = true <->
  xid_age o (snap_xmin sn) <= xid_age o y /\
  (xid_age o (snap_xmax sn) <= xid_age o y \/
   if suboverflowed s' then topmost y ∈ xip s' else y ∈ subxip s' \/ y ∈ xip s').
Proof.
  intros Hy E1 E2 E3 Hx. destruct (fa_bounds _ _ _ _ Hf) as [W1 W2]. unfold XidInMVCCSnapshot. rewrite E1, E2, E3.
  rewrite (precedes_window o), (follows_or_equals_window o) by done. destruct (Z.ltb_spec (xid_age o y) (xid_age o (snap_xmin sn))).
  { split; [done|lia]. }
  destruct (Z.leb_spec (xid_age o (snap_xmax sn)) (xid_age o y)); [split; [intros _; split; [lia|by left]|done]|].
  cbn [negb]. destruct (suboverflowed s'); cbn [negb].
  - assert (Hpre : topmost y ∈ xip s' -> TransactionIdPrecedes (topmost y) (snap_xmin sn) = false).
    { intros Hin. destruct (Hx _ Hin) as [Wt Ht]. rewrite (precedes_window o) by done. apply Z.ltb_ge. lia. }
    destruct (TransactionIdPrecedes (topmost y) (snap_xmin sn)); [split; [done|]; intros [_ [?|Hin]]; [lia|by discriminate (Hpre Hin)]|].
    destruct (pg_lfind32 (topmost y) (xip s')) eqn:Hl.
    + apply pg_lfind32_elem in Hl. split; [by split; [lia|right]|done].
    + split; [done|]. intros [_ [?|Hin%pg_lfind32_elem]]; [lia|congruence].
  - destruct (pg_lfind32 y (subxip s')) eqn:Hl1; [apply pg_lfind32_elem in Hl1; split; [by split; [lia|right; left]|done]|].
    destruct (pg_lfind32 y (xip s')) eqn:Hl2; [apply pg_lfind32_elem in Hl2; split; [by split; [lia|right; right]|done]|].
    split; [done|]. intros [_ [?|[Hin%pg_lfind32_elem|Hin%pg_lfind32_elem]]]; [lia|congruence..].
Qed.

Lemma exported_shows y :
  in_window o y -> takenDuringRecovery sn = false ->
  (XidInMVCCSnapshot topmost y sn = true \/ own_xid x y -> XidInMVCCSnapshot topmost y data = true) /\
  (XidInMVCCSnapshot topmost y data = true ->
   XidInMVCCSnapshot topmost y sn = true \/ own_xid x y \/
   export_overflowed x max sn = true /\ (topmost y ∈ xip sn \/ own_xid x (topmost y))).
Proof.
  intros Hy Hrec.
  assert (Hx : forall z, z ∈ xip data -> in_window o z /\ xid_age o (snap_xmin sn) <= xid_age o z).
  { intros z [Hz|Hz]%elem_of_app; [destruct (fa_top _ _ _ _ Hf z Hz) as (? & ? & ?); done|].
    apply elem_addTopXid in Hz as (Hv & -> & _). destruct (top_window Hv) as (? & _ & ?). done. }
  assert (Hx' : forall z, z ∈ xip sn -> in_window o z /\ xid_age o (snap_xmin sn) <= xid_age o z).
  { intros z Hz. apply Hx. apply elem_of_app. by left. }
  rewrite (shows_elem y sn), (shows_elem y data) by done. cbn [suboverflowed xip subxip exported_data].
  assert (Hsof : export_overflowed x max sn = false -> suboverflowed sn = false) by (intros [? _]%orb_false_iff; done).
  assert (Hmine : own_xid x y -> topmost y = top /\ xid_age o (snap_xmin sn) <= xid_age o top <= xid_age o y).
  { intros Hown. by destruct (fa_own _ _ _ _ Hf y Hown) as (_ & ? & ?). }
  destruct (export_overflowed x max sn) eqn:Ho; rewrite !elem_of_app, !elem_addTopXid.
  - split.
    + intros [[Hlo [?|Hor]]|Hown].
      * split; [done|by left].
      * split; [done|]. right; left. destruct (suboverflowed sn); [done|]. destruct Hor as [Hs|Ht]; [by apply (fa_sub _ _ _ _ Hf)|].
        destruct (fa_top _ _ _ _ Hf y Ht) as (_ & -> & _). done.
      * destruct (Hmine Hown) as [-> Hr]. destruct Hown as [Hv _]. split; [lia|].
        destruct (Z.le_gt_cases (xid_age o (snap_xmax sn)) (xid_age o y)) as [?|Hlt]; [by left|right; right]. split_and!; [done|done|lia].
    + intros [Hlo [?|Hor]]; [left; split; [done|by left]|]. right; right. split; [done|].
      destruct Hor as [?|(Hv & E & _)]; [by left|right]. rewrite E. split; [done|by left].
  - rewrite (Hsof eq_refl). split.
    + intros [[Hlo Hor]|Hown]; [split; [done|]; tauto|]. destruct (Hmine Hown) as [_ Hr]. destruct Hown as [Hv Hor]. split; [lia|].
      destruct (Z.le_gt_cases (xid_age o (snap_xmax sn)) (xid_age o y)) as [?|Hlt]; [by left|right].
      destruct Hor as [->|?]; [right; right; split_and!; [done|done|lia]|by left; right].
    + intros [Hlo [?|[[?|Hc]|[?|(Hv & -> & _)]]]]; [left; tauto|left; tauto| |left; tauto|].
      * right; left. split; [|by right]. apply (fa_children _ _ _ _ Hf). intros E. rewrite E in Hc. by apply not_elem_of_nil in Hc.
      * right; left. split; [done|by left].
Qed.
End Shows.

(** The transaction that imports is fresh, of a suitable isolation level and
    in the same database. *)
Record importing (xb : ExportEnv) (eb : SnapEnv) (sb : SnapMgr) (x : ExportEnv) (e : SnapEnv) (dbid : Z) : Prop := {
  im_fresh : FirstSnapshotSet sb = false /\ TopTransactionIdIfAny xb = InvalidTransactionId /\ IsSubTransaction xb = false;
  im_level : IsolationUsesXactSnapshot eb = true;
  im_database : MyDatabaseId (local sb) = dbid /\ dbid <> InvalidOid;
  im_serializable : IsolationIsSerializable eb = true ->
    XactIsoLevel e = XACT_SERIALIZABLE /\ (XactReadOnly x = true -> XactReadOnly xb = true);
}.

Lemma window_normal o y : in_window o y -> TransactionIdIsNormal y = true.
Proof. intros [Hy _]. by apply normal_TransactionIdIsNormal. Qed.

Lemma ImportSnapshot_text xb eb sb x e pr dbid sn name :
  importing xb eb sb x e dbid -> exportable x e pr dbid (shared sb) sn -> valid_identifier name = true ->
  VirtualTransactionIdIsValid (GET_VXID_FROM_PGPROC pr) = true ->
  TransactionIdIsNormal (snap_xmin sn) = true -> TransactionIdIsNormal (snap_xmax sn) = true ->
  let max := GetMaxSnapshotSubxidCount (shared sb) in
  pg_snapshots sb !! snapshot_path name = Some (snapshot_text x e pr dbid max sn) ->
  ImportSnapshot xb eb name sb = SetTransactionSnapshot eb (exported_data x max sn) (inl (Some (GET_VXID_FROM_PGPROC pr))) sb.
Proof.
  intros [(I1 & I2 & I3) I4 [I5 I6] I7] Hex Hname Hvx Hmin Hmax max Hfile. unfold ImportSnapshot, mbind, sm_bind, sget.
  rewrite I1, I2, I3, I4, Hname, Hfile. cbn [negb orb]. change (InvalidTransactionId != InvalidTransactionId) with false. cbn [orb].
  destruct (snapshot_text x e pr dbid max sn) eqn:Et; [by cbn in Et|]. rewrite <- Et. clear Et.
  unfold run_reader. unfold max. rewrite (c_string_text x e pr dbid (shared sb) sn Hex), (parse_snapshot_text x e pr dbid (shared sb) sn Hex).
  fold max. cbn. rewrite Hvx, Hmin, Hmax, I5. rewrite (proj2 (Z.eqb_neq _ _) I6), Z.eqb_refl. cbn.
  destruct (IsolationIsSerializable eb); [|done]. destruct (I7 eq_refl) as [-> Hro]. cbn.
  destruct (XactReadOnly x); [|done]. by rewrite (Hro eq_refl).
Qed.

(** C17. exported snapshots come back: when one backend exports a snapshot and
    another imports the file, the import installs a snapshot with the same
    bounds that shows as running all that the original shows and the
    exporting transaction with its committed subtransactions; and nothing
    else, except that when the ids of subtransactions did not fit, a
    transaction is shown together with all its subtransactions. *)
Theorem export_import_roundtrip (topmost : TransactionId -> TransactionId) (o : TransactionId)
    (x xb : ExportEnv) (e eb : SnapEnv) (a : nat) (ob : SnapObj) (sa sa' sb : SnapMgr) (name : string) :
  let pr := proc (shared sa) (MyProcNo (local sa)) in
  let sn := snap (so_snap ob) in
  ExportSnapshot x e a sa = Done name sa' -> objs sa !! a = Some ob ->
  exportable x e pr (MyDatabaseId (local sa)) (shared sb) (copied_data sn) -> maxProcs (shared sb) = maxProcs (shared sa) ->
  pg_snapshots sb = pg_snapshots sa' -> importing xb eb sb x e (MyDatabaseId (local sa)) ->
  VirtualTransactionIdIsValid (GET_VXID_FROM_PGPROC pr) = true ->
  family topmost o x (copied_data sn) -> takenDuringRecovery sn = false ->
  exists data,
    ImportSnapshot xb eb name sb = SetTransactionSnapshot eb data (inl (Some (GET_VXID_FROM_PGPROC pr))) sb /\
    snap_xmin data = snap_xmin sn /\ snap_xmax data = snap_xmax sn /\
    forall y, in_window o y ->
      (XidInMVCCSnapshot topmost y sn = true \/ own_xid x y -> XidInMVCCSnapshot topmost y data = true) /\
      (XidInMVCCSnapshot topmost y data = true ->
       XidInMVCCSnapshot topmost y sn = true \/ own_xid x y \/
       suboverflowed data = true /\ (topmost y ∈ xip sn \/ own_xid x (topmost y))).
Proof.
  intros pr sn HE Ha Hex Hmax Hdir Him Hvx Hf Hrec. destruct (ExportSnapshot_file x e a sa name sa' ob HE Ha) as [-> Hfile].
  rewrite <- Hdir in Hfile. set (max := GetMaxSnapshotSubxidCount (shared sb)).
  exists (exported_data x max (copied_data sn)). destruct (fa_bounds _ _ _ _ Hf) as [W1 W2]. split; [|split; [done|split; [done|]]].
  - apply (ImportSnapshot_text xb eb sb x e pr (MyDatabaseId (local sa))); try done.
    + apply snapshot_name_valid.
    + by eapply window_normal.
    + by eapply window_normal.
    + rewrite Hfile. unfold GetMaxSnapshotSubxidCount. by rewrite Hmax.
  - intros y Hy. rewrite <- (copied_shows topmost y sn). apply (exported_shows topmost o x max (copied_data sn) Hf y Hy Hrec).
Qed.

(** Transaction 103 with its committed child 104 exports a snapshot that shows
    100 and 101; another backend imports it. *)
Definition exp_shared : ProcShared :=
  upd_proc 0 (fun p => mkPGPROC (pgprocno p) (pid p) (pgxactoff p) 103 100 9 (backendId p) (databaseId p) (roleId p) 0 0 false false None
                         no_subxids (pr_subxids p)) (mem (ex_sys 8)).
Definition exp_local (me : nat) : ProcLocal :=
  mkProcLocal me 5 0 0 0 (mkGlobalVis 0 0) (mkGlobalVis 0 0) (mkGlobalVis 0 0) (mkGlobalVis 0 0) 0.
Definition exp_snapshot : SnapshotData := mkSnapshot SNAPSHOT_MVCC 100 105 [100] [101] false false 7 0.
Definition exp_object : SnapObj := mkSnapObj (mkSnap exp_snapshot 0) false 0 0 1.
Definition exp_topmost (y : TransactionId) : TransactionId := if y =? 101 then 100 else if y =? 104 then 103 else y.
Definition exp_source : ExportEnv := mkExportEnv 103 false [104] 1000 false true.
Definition exp_target : ExportEnv := mkExportEnv 0 false [] 1001 false true.
Definition exp_env : SnapEnv := mkSnapEnv (fun _ sh => (fun _ => sh, sh)) false 7 false XACT_REPEATABLE_READ 1.
Definition exp_start : SnapMgr := set_objs <[CurrentSnapshotData := exp_object]> (snapmgr_init ∅ (exp_local 0) exp_shared).
Definition exp_done : SnapMgr :=
  match ExportSnapshot exp_source exp_env CurrentSnapshotData exp_start with Done _ s => s | _ => exp_start end.
Definition exp_import : SnapMgr := snapmgr_init (pg_snapshots exp_done) (exp_local 1) exp_shared.
Definition exp_name : string := "00000000-00000009-1".

Lemma exp_family : family exp_topmost 3 exp_source (copied_data exp_snapshot).
Proof.
  constructor.
  - split; split; vm_compute; done.
  - intros y Hy. change (y ∈ [100]) in Hy. apply list_elem_of_singleton in Hy as ->. split; [split; vm_compute; done|]. split; vm_compute; done.
  - intros y Hy. change (y ∈ [101]) in Hy. apply list_elem_of_singleton in Hy as ->. change (100 ∈ [100]). left.
  - intros y [_ [->|Hy]]; [|change (y ∈ [104]) in Hy; apply list_elem_of_singleton in Hy as ->];
      (split; [split; vm_compute; done|]; split; [done|]; split; vm_compute; done).
  - done.
Qed.

Lemma exp_widths x : MyProcPid x = 1000 \/ MyProcPid x = 1001 ->
  (- 2 ^ 31 <= backendId (proc exp_shared 0) < 2 ^ 31 /\ is_u32 (lxid (proc exp_shared 0))) /\
  - 2 ^ 31 <= MyProcPid x < 2 ^ 31 /\ - 2 ^ 31 <= XactIsoLevel exp_env < 2 ^ 31 /\ is_u32 5.
Proof.
  change (backendId (proc exp_shared 0)) with 0. change (lxid (proc exp_shared 0)) with 9.
  change (XactIsoLevel exp_env) with 2. unfold is_u32. lia.
Qed.

Lemma exp_exportable : exportable exp_source exp_env (proc exp_shared 0) 5 exp_shared (copied_data exp_snapshot).
Proof.
  destruct (exp_widths exp_source ltac:(by left)) as [H1 H2]. constructor; [exact H1|exact H2| | | |].
  - change (is_u32 100 /\ is_u32 105). unfold is_u32. lia.
  - change (Forall is_u32 [100; 103] /\ Forall is_u32 [101; 104]). unfold is_u32. rewrite !Forall_cons, !Forall_nil. lia.
  - change (2 <= 3)%nat. lia.
  - change (195 < 2147483648). lia.
Qed.

Lemma export_import_roundtrip_witness :
  exists data, ImportSnapshot exp_target exp_env exp_name exp_import =
      SetTransactionSnapshot exp_env data (inl (Some (mkVxid 0 9))) exp_import /\
    XidInMVCCSnapshot exp_topmost 101 data = true /\ XidInMVCCSnapshot exp_topmost 104 data = true /\
    XidInMVCCSnapshot exp_topmost 102 data = false.
Proof.
  destruct (export_import_roundtrip exp_topmost 3 exp_source exp_target exp_env exp_env CurrentSnapshotData exp_object
    exp_start exp_done exp_import exp_name) as (data & Himp & _ & _ & Hshow).
  - vm_compute. reflexivity.
  - vm_compute. reflexivity.
  - exact exp_exportable.
  - reflexivity.
  - reflexivity.
  - constructor; [vm_compute; done|reflexivity|split; vm_compute; done|done].
  - reflexivity.
  - exact exp_family.
  - reflexivity.
  - exists data. split; [exact Himp|]. assert (Hw : forall y, 100 <= y < 105 -> in_window 3 y).
    { intros y Hy. unfold in_window, normal_xid, FirstNormalTransactionId, xid_age. split; [lia|]. rewrite u32_small; [lia|unfold is_u32; lia]. }
    split; [apply (Hshow 101 (Hw 101 ltac:(lia))); left; vm_compute; reflexivity|].
    split; [apply (Hshow 104 (Hw 104 ltac:(lia))); right; split; [reflexivity|right; change (104 ∈ [104]); left]|].
    destruct (XidInMVCCSnapshot exp_topmost 102 data) eqn:E; [|reflexivity]. exfalso.
    destruct (proj2 (Hshow 102 (Hw 102 ltac:(lia))) E) as [H|[[_ [H|H]]|[_ [H|[_ [H|H]]]]]].
    + vm_compute in H. discriminate.
    + discriminate.
    + change (102 ∈ [104]) in H. apply list_elem_of_singleton in H. discriminate.
    + change (102 ∈ [100]) in H. apply list_elem_of_singleton in H. discriminate.
    + discriminate.
    + change (102 ∈ [104]) in H. apply list_elem_of_singleton in H. discriminate.
Defined.

(** C40. a snapshot taken during recovery whose subtransaction cache
    overflowed does not survive an export: in recovery all running ids are in
    [subxip], which [ExportSnapshot] leaves out of an overflowed snapshot (and
    which [CopySnapshot] keeps), so the imported snapshot shows every
    transaction before xmax as over, those that were running included. *)
Theorem recovery_export_lost (topmost : TransactionId -> TransactionId) (x : ExportEnv) (e : SnapEnv) (pr : PGPROC) (dbid : Z)
    (sh : ProcShared) (sn : SnapshotData) (y : TransactionId) :
  exportable x e pr dbid sh sn -> takenDuringRecovery sn = true -> suboverflowed sn = true ->
  y ∈ subxip sn -> topmost y = y ->
  TransactionIdPrecedes y (snap_xmin sn) = false -> TransactionIdFollowsOrEquals y (snap_xmax sn) = false ->
  XidInMVCCSnapshot topmost y (copied_data sn) = true /\
  exists f, parse_snapshot sh (snapshot_text x e pr dbid (GetMaxSnapshotSubxidCount sh) sn) = Parsed f EmptyString /\
    XidInMVCCSnapshot topmost y (src_snapshot f) = false.
Proof.
  intros Hex Hrec Hov Hy Ht H1 H2. split.
  - rewrite copied_shows. unfold XidInMVCCSnapshot. rewrite H1, H2, Hrec, Hov, Ht, H1. cbn. by rewrite (proj2 (pg_lfind32_elem _ _) Hy).
  - eexists. split; [by apply parse_snapshot_text|]. unfold XidInMVCCSnapshot, export_overflowed. cbn [src_snapshot exported_data].
    cbn. rewrite H1, H2, Hrec. unfold export_overflowed. rewrite Hov, Ht, H1. done.
Qed.

(** Taken on a standby while 100 and 102 ran on the primary. *)
Definition exp_standby : SnapshotData := mkSnapshot SNAPSHOT_MVCC 100 105 [] [100; 102] true true 7 0.

Lemma recovery_export_lost_witness :
  XidInMVCCSnapshot exp_topmost 102 (copied_data exp_standby) = true /\
  exists f, parse_snapshot exp_shared (snapshot_text exp_target exp_env (proc exp_shared 0) 5 195 exp_standby) = Parsed f EmptyString /\
    XidInMVCCSnapshot exp_topmost 102 (src_snapshot f) = false.
Proof.
  apply (recovery_export_lost exp_topmost exp_target exp_env (proc exp_shared 0) 5 exp_shared exp_standby 102);
    [|reflexivity|reflexivity|change (102 ∈ [100; 102]); right; left|reflexivity..].
  destruct (exp_widths exp_target ltac:(by right)) as [H1 H2]. constructor; [exact H1|exact H2| | | |].
  - change (is_u32 100 /\ is_u32 105). unfold is_u32. lia.
  - change (Forall is_u32 [] /\ Forall is_u32 [100; 102]). unfold is_u32. rewrite !Forall_cons, !Forall_nil. lia.
  - change (0 <= 3)%nat. lia.
  - change (195 < 2147483648). lia.
Defined.

(** ** Parallel workers *)

(** C18. a parallel worker gets the leader's snapshot: what
    [SerializeSnapshot] writes fits into the space [EstimateSnapshotSpace]
    reserves, and [RestoreSnapshot] makes a snapshot of it with the same
    bounds, command id and LSN, as if copied, that shows the same transactions
    as running. *)
Theorem serialized_snapshot_restored (topmost : TransactionId -> TransactionId) (ob : SnapObj) :
  let '(ser, xids) := SerializeSnapshot ob in
  let sn := snap (so_snap ob) in
  let restored := restored_obj ser xids in
  let sn' := snap (so_snap restored) in
  length xids = EstimateSnapshotSpace ob /\
  (snap_xmin sn', snap_xmax sn', xip sn', subxip sn', curcid sn') =
  (snap_xmin sn, snap_xmax sn, xip sn, subxip (copied_data sn), curcid sn) /\
  (copied restored, active_count restored, regd_count restored, lsn restored) = (true, 0, 0, lsn ob) /\
  forall y, XidInMVCCSnapshot topmost y sn' = XidInMVCCSnapshot topmost y sn.
Proof.
  unfold SerializeSnapshot, EstimateSnapshotSpace. set (sn := snap (so_snap ob)). set (cnt := if suboverflowed sn && _ then _ else _).
  assert (Hcnt : cnt = Z.of_nat (length (subxip (copied_data sn)))).
  { unfold cnt, copied_data. cbn. by destruct (suboverflowed sn), (takenDuringRecovery sn). }
  assert (Hsub : (if 0 <? cnt then subxip sn else []) = subxip (copied_data sn)).
  { rewrite Hcnt. unfold copied_data. cbn. destruct (negb (suboverflowed sn) || takenDuringRecovery sn); [|done].
    by destruct (subxip sn). }
  cbn [restored_obj so_snap snap xip subxip snap_xmin snap_xmax curcid ser_xcnt ser_subxcnt ser_xmin ser_xmax ser_curcid].
  rewrite Hsub, Nat2Z.id, Hcnt, Nat2Z.id, take_app_length, drop_app_length, firstn_all. split_and!; [|done|done|].
  - rewrite length_app. f_equal. unfold copied_data. cbn. destruct (negb (suboverflowed sn) || takenDuringRecovery sn); [|by rewrite andb_false_r].
    by destruct (subxip sn).
  - intros y. rewrite <- (copied_shows topmost y sn). done.
Qed.
