(* ===== verification/SnapMgrRun.v ===== *)
(** * SnapMgrRun: a backend's snapshots in a running system

    The snapshot manager of SnapMgr.v together with the process array of
    ProcRun.v: one backend performs operations on its snapshots while all
    backends assign ids, commit and take snapshots.  In every reachable state
    each snapshot in use is one that the backend took, and its advertised xmin
    covers it, so that removal horizons do. *)

From S2P Require Import Prelude TransactionId KnownXids HeapTuple ProcArray ProcInv ProcRun ProcScan ProcReaders ProcExample.
From S2P Require Import ProcSnapshot ProcWorld ProcFloor ProcHorizon PairingHeap PairingTree.
From S2P Require Import SnapMgr SnapMgrInv SnapMgrOps SnapMgrXact SnapText SnapExport.

Lemma clear_vacuum_flags_xmin p sh : (p < length (allProcs sh))%nat ->
  pr_xmin (proc (clear_vacuum_flags p sh) p) = pr_xmin (proc sh p) /\ length (allProcs (clear_vacuum_flags p sh)) = length (allProcs sh).
Proof.
  intros Hp. unfold clear_vacuum_flags. case_if; [|done]. set (f := set_statusFlags _). split; [|apply length_alter].
  change (pr_xmin (proc (upd_proc p f sh) p) = pr_xmin (proc sh p)). unfold proc at 1. cbn [allProcs upd_proc].
  by rewrite (proc_alter_eq sh p f).
Qed.

Lemma clear_subxids_xmin p sh : (p < length (allProcs sh))%nat -> pr_xmin (proc (clear_subxids p sh) p) = pr_xmin (proc sh p).
Proof.
  intros Hp. unfold clear_subxids. case_if; [|done]. set (f := set_subxids _ _).
  change (pr_xmin (proc (upd_proc p f sh) p) = pr_xmin (proc sh p)). unfold proc at 1. cbn [allProcs upd_proc].
  by rewrite (proc_alter_eq sh p f).
Qed.

(** The end of a transaction drops the xmin. *)
Lemma end_xmin p x sh : (p < length (allProcs sh))%nat -> pr_xmin (proc (ProcArrayEndTransactionInternal p x sh) p) = InvalidTransactionId.
Proof.
  intros Hp. unfold ProcArrayEndTransactionInternal. set (sh1 := upd_proc _ _ _).
  assert (Hl : (p < length (allProcs sh1))%nat) by (unfold sh1; cbn; by rewrite length_alter).
  assert (Hx : pr_xmin (proc sh1 p) = InvalidTransactionId).
  { unfold sh1, proc. cbn [allProcs upd_proc]. by rewrite (proc_alter_eq (put_xid _ _ sh) p (clear_xact 0)). }
  destruct (clear_vacuum_flags_xmin p sh1 Hl) as [E Hl']. set (sh2 := clear_vacuum_flags p sh1) in *.
  assert (E3 : pr_xmin (proc (clear_subxids p sh2) p) = InvalidTransactionId) by (rewrite clear_subxids_xmin, E by lia; done).
  rewrite <- E3. f_equal. unfold MaintainLatestCompletedXid. by case_if.
Qed.

Lemma end_without_xid_xmin p sh : (p < length (allProcs sh))%nat -> pr_xmin (proc (end_without_xid p sh) p) = InvalidTransactionId.
Proof.
  intros Hp. unfold end_without_xid. set (f := fun pr => mkPGPROC _ _ _ _ _ _ _ _ _ _ _ _ _ _ _ _).
  destruct (clear_vacuum_flags_xmin p (upd_proc p f sh)) as [-> _]; [cbn; by rewrite length_alter|].
  unfold proc. cbn [allProcs upd_proc]. by rewrite (proc_alter_eq sh p f).
Qed.

(** ** Operations

    What a transaction does with snapshots, except to import one
    ([ImportSnapshot], [SetTransactionSnapshot], [RestoreSnapshot]; see
    SnapExport for what the imported snapshot contains, and ProcImport for the
    protection of its [xmin]) and except historic snapshots. *)

Inductive SnapOp :=
| OpTransaction
| OpLatest
| OpCatalog (invalidates_only has_syscache : bool)
| OpPush (level : Z) (a : nat)
| OpPushCopied (level : Z) (a : nat)
| OpPop
| OpUpdateCommandId
| OpSetCommandId (cid : CommandId)
| OpRegister (owner a : nat)
| OpUnregister (owner a : nat)
| OpRelease (owner : nat)
| OpInvalidate
| OpInvalidateConditionally
| OpSubCommit (level : Z)
| OpSubAbort (level : Z)
| OpExport (x : ExportEnv) (a : nat).

(** An operation and the snapshot it returns for immediate use. *)
Definition run_op (e : SnapEnv) (op : SnapOp) : SM (option nat) :=
  let nothing m := (m : SM unit);; mret None in
  match op with
  | OpTransaction => a ← GetTransactionSnapshot e; mret (Some a)
  | OpLatest => a ← GetLatestSnapshot e; mret (Some a)
  | OpCatalog b1 b2 => a ← GetCatalogSnapshot b1 b2 e; mret (Some a)
  | OpPush level a => nothing (PushActiveSnapshot level a)
  | OpPushCopied level a => nothing (PushCopiedSnapshot level a)
  | OpPop => nothing PopActiveSnapshot
  | OpUpdateCommandId => nothing (UpdateActiveSnapshotCommandId e)
  | OpSetCommandId cid => nothing (SnapshotSetCommandId cid)
  | OpRegister owner a => _ ← RegisterSnapshot owner (Some a); mret None
  | OpUnregister owner a => nothing (UnregisterSnapshot owner (Some a))
  | OpRelease owner => nothing (ResourceOwnerReleaseSnapshots owner)
  | OpInvalidate => nothing InvalidateCatalogSnapshot
  | OpInvalidateConditionally => nothing InvalidateCatalogSnapshotConditionally
  | OpSubCommit level => nothing (AtSubCommit_Snapshot level)
  | OpSubAbort level => nothing (AtSubAbort_Snapshot level)
  | OpExport x a => _ ← ExportSnapshot x e a; mret None
  end.

(** A snapshot that was returned stays usable until an operation that may
    change the advertised xmin. *)
Definition keeps_fresh (op : SnapOp) : bool :=
  match op with
  | OpPush _ _ | OpPushCopied _ _ | OpUpdateCommandId | OpSetCommandId _ | OpRegister _ _ | OpSubCommit _ | OpExport _ _ => true
  | _ => false
  end.
Definition next_fresh (op : SnapOp) (fresh r : option nat) : option nat :=
  match r with Some a => Some a | None => if keeps_fresh op then fresh else None end.

Definition available (s : SnapMgr) (fresh : option nat) (a : nat) : Prop := a ∈ held s \/ fresh = Some a.

(** What callers see to: that a snapshot is in use or was just returned, that
    a reference exists, that the snapshot whose command id is updated is not
    shared, that levels on the stack do not decrease, that the isolation level
    is fixed by the first snapshot and nothing registered before it; and that
    the counters have room. *)
Definition op_ok (e : SnapEnv) (s : SnapMgr) (fresh : option nat) (op : SnapOp) : Prop :=
  let room l := Z.of_nat (length (l : list nat)) + 1 < 2 ^ 32 in
  match op with
  | OpTransaction | OpLatest => same_isolation e s /\ none_before_first s /\ room (refs s)
  | OpPush level a | OpPushCopied level a => available s fresh a /\ level_ok s level /\ room (stack s)
  | OpRegister _ a | OpExport _ a => available s fresh a /\ room (refs s)
  | OpPop => ActiveSnapshot s <> []
  | OpUpdateCommandId =>
      match ActiveSnapshot s with
      | top :: rest => as_snap top ∉ (as_snap <$> rest) ++ refs s
      | [] => False
      end
  | OpUnregister owner a => (owner, a) ∈ owners s
  | _ => True
  end.

Section Ops.
Context (o : TransactionId) (me : nat) (e : SnapEnv) (V : view) (after : view -> Prop) (c : bool).
Context {HV : View o me V} {HS : SnapshotSource o me e V after}.

Abbreviation core := (core o me V c).
Abbreviation good s := (good_in o V c (objs s) (MyProc_xmin s)).

Lemma ExportSnapshot_spec s x a (R : SnapMgr -> Prop) :
  core s -> good s a -> Z.of_nat (length (refs s)) + 1 < 2 ^ 32 -> (forall s', core s' -> vars s' = vars s -> R s') ->
  wp (ExportSnapshot x e a) (fun _ s' => core s' /\ vars s' = vars s /\ forall f, good s f -> good s' f) R s.
Proof.
  intros Hc Hg Hlen HR. destruct (good_alloc _ _ _ _ _ Hg) as [ob E]. unfold ExportSnapshot. case_if; [by apply HR|]. apply wp_sget, swp_bind.
  eapply swp_mono; [by apply (CopySnapshot_spec o me V c s a ob R)| |done].
  intros n s1 (En & H3 & Hnh & Hc1 & [h Es1] & Hg1 & Hf1). specialize (Hg1 Hg). subst s1. set (s1 := with_mem _ _ _ s) in *.
  pose proof Hc1 as [(L & Hm & HL) _ _ _ _ _ _]. assert (E1 : objs s1 !! n = Some (copy_of ob)) by apply lookup_insert_eq.
  destruct (mem_ok_ref _ _ _ _ _ _ _ n (copy_of ob) Hm H3 E1 Hlen) as [Hm2 _].
  apply wp_supd, swp_bind, (wp_regd_count 1 n (copy_of ob)); [done|]. set (ob2 := mkSnapObj _ _ _ _ _) in *. set (s2 := with_mem _ _ _ _).
  assert (Hnew : n ∉ L) by (rewrite HL; rewrite elem_held in Hnh; cbn; tauto).
  destruct (mem_ok_add _ _ _ _ _ _ _ n Hm2 Hnew) as (h' & Eh & Hm3).
  { exists ob2. split; [apply lookup_insert_eq|]. destruct (good_xmin o me V c s1 n Hg1) as (ob' & E' & Hw). rewrite E1 in E'. by injection E' as <-. }
  apply swp_bind, (wp_heap_add n h'); [exact Eh|]. set (s3 := with_mem _ _ _ _).
  destruct (add_kept o me c s1 s3 V n (copy_of ob) L HV Hc1 Hg1 E1 H3 Hnh Hm3 HL eq_refl eq_refl) as [Hc3 Hg3].
  { unfold kept. cbn. rewrite fmap_app, app_assoc. cbn. apply Permutation_app_comm. }
  apply swp_bind, (wp_obj n ob2); [apply lookup_insert_eq|]. case_if; [by apply HR|]. cbn.
  split_and!; [by destruct Hc3; constructor|done|]. intros f Hf. by apply Hg3, Hf1.
Qed.

Lemma PushCopiedSnapshot_spec s a level R :
  core s -> good s a -> level_ok s level -> Z.of_nat (length (stack s)) + 1 < 2 ^ 32 ->
  wp (PushCopiedSnapshot level a) (fun _ s' => core s' /\ vars s' = vars s /\ forall f, good s f -> good s' f) R s.
Proof.
  intros Hc Hg Hlvl Hlen. destruct (good_alloc _ _ _ _ _ Hg) as [ob E]. apply swp_bind.
  eapply swp_mono; [by apply (CopySnapshot_spec o me V c s a ob R)| |done].
  intros n s1 (_ & _ & _ & Hc1 & [h ->] & Hg1 & Hf1).
  eapply swp_mono; [by apply (PushActiveSnapshotWithLevel_spec o me V c _ n level R Hc1 (Hg1 Hg))| |done].
  intros [] s2 (Hc2 & Hv2 & _ & _ & Hf2). split_and!; [done|done|auto].
Qed.

(** The state after an operation, with the snapshot it returned, if any. *)
Definition op_result (fresh : option nat) (s : SnapMgr) : Prop :=
  exists W, after W /\ inv o me W c s /\ forall a, fresh = Some a -> good_in o W c (objs s) (MyProc_xmin s) a.

Lemma op_result_same fresh s s' :
  inv o me V c s -> core s' -> vars s' = vars s -> (forall a, fresh = Some a -> good s' a) -> op_result fresh s'.
Proof.
  intros [_ Hv] Hc Hvars Hf. exists V. split_and!; [exact (source_same o me)|constructor; [done|by eapply vars_ok_same]|done].
Qed.

Lemma wp_nothing (m : SM unit) (Q : option nat -> SnapMgr -> Prop) R s :
  wp m (fun _ s' => Q None s') R s -> wp (m;; mret None) Q R s.
Proof. intros H. by apply swp_bind. Qed.

Lemma run_op_spec s fresh op :
  inv o me V c s -> (forall a, fresh = Some a -> good s a) -> op_ok e s fresh op ->
  wp (run_op e op) (fun r s' => op_result (next_fresh op fresh r) s') (op_result None) s.
Proof.
  intros Hi Hf Hop. pose proof Hi as [Hc Hv].
  assert (Hav : forall a, available s fresh a -> good s a).
  { intros a [Ha|Ha]; [by apply (da_good _ _ _ _ _ _ (co_data _ _ _ _ _ Hc))|auto]. }
  assert (Herr : forall s', inv o me V c s' -> op_result None s').
  { intros s' Hi'. exists V. by split_and!; [exact (source_same o me)|done|]. }
  assert (Htaken : forall op' n s', taken_ok o me after c s n s' -> op_result (next_fresh op' fresh (Some n)) s').
  { intros op' n s' (W & H1 & H2 & H3 & _). exists W. split_and!; [done|done|]. by intros a [= <-]. }
  assert (Hdrop : forall s', core s' -> vars s' = vars s -> op_result None s').
  { intros s' H1 H2. by eapply (op_result_same None s). }
  assert (Hkeep : forall s', core s' -> vars s' = vars s -> (forall f, good s f -> good s' f) -> op_result fresh s').
  { intros s' H1 H2 H3. eapply (op_result_same fresh s); auto. }
  destruct op; cbn [run_op op_ok] in *; try apply wp_nothing.
  - destruct Hop as (Hiso & Hnone & Hroom). apply swp_bind. eapply swp_mono; [by apply (GetTransactionSnapshot_spec o me e V after c s (op_result None)); auto| |done].
    intros n s' Ht. by apply (Htaken OpTransaction).
  - destruct Hop as (Hiso & Hnone & Hroom). apply swp_bind. eapply swp_mono; [by apply (GetLatestSnapshot_spec o me e V after c s (op_result None)); auto| |done].
    intros n s' Ht. by apply (Htaken OpLatest).
  - apply swp_bind. eapply swp_mono; [by apply (GetCatalogSnapshot_spec o me e V after c s)| |done].
    intros n s' Ht. by apply (Htaken (OpCatalog invalidates_only has_syscache)).
  - destruct Hop as (Ha & Hlvl & Hroom). eapply swp_mono; [by apply (PushActiveSnapshotWithLevel_spec o me V c s a level (op_result None)); auto| |done].
    intros [] s' (H1 & H2 & _ & _ & H3). by apply Hkeep.
  - destruct Hop as (Ha & Hlvl & Hroom). eapply swp_mono; [by apply (PushCopiedSnapshot_spec s a level (op_result None)); auto| |done].
    intros [] s' (H1 & H2 & H3). by apply Hkeep.
  - eapply swp_mono; [by apply (PopActiveSnapshot_spec o me V c s (op_result None))| |done]. intros [] s' (H1 & H2 & _). by apply Hdrop.
  - destruct (ActiveSnapshot s) as [|top rest] eqn:Ea; [done|]. apply not_elem_of_app in Hop as [Hn1 Hn2].
    eapply swp_mono; [by apply (UpdateActiveSnapshotCommandId_spec o me V c s e top rest (op_result None)); auto| |done].
    intros [] s' (H1 & H2 & _ & H3). by apply Hkeep.
  - eapply swp_mono; [by apply (SnapshotSetCommandId_spec o me V c s cid (op_result None))| |done].
    intros [] s' (H1 & H2 & _ & H3). by apply Hkeep.
  - destruct Hop as [Ha Hroom]. apply swp_bind, swp_bind.
    eapply swp_mono; [by apply (RegisterSnapshotOnOwner_spec o me V c s a owner (op_result None)); auto| |done].
    intros n s' (H1 & H2 & _ & _ & _ & _ & H3). by apply Hkeep.
  - eapply swp_mono; [by apply (UnregisterSnapshotFromOwner_spec o me V c s a owner (op_result None))| |done].
    intros [] s' (H1 & H2 & _). by apply Hdrop.
  - eapply swp_mono; [by apply (ResourceOwnerReleaseSnapshots_spec o me V c s owner (op_result None))| |done].
    intros [] s' (H1 & H2 & _). by apply Hdrop.
  - eapply swp_mono; [by apply (InvalidateCatalogSnapshot_spec o me V c s (op_result None))| |done].
    intros [] s' (H1 & H2 & _). by apply Hdrop.
  - eapply swp_mono; [by apply (InvalidateCatalogSnapshotConditionally_spec o me V c s (op_result None))| |done].
    intros [] s' (H1 & H2 & _). by apply Hdrop.
  - eapply swp_mono; [by apply (AtSubCommit_Snapshot_spec o me V c s level (op_result None))| |done].
    intros [] s' (H1 & H2 & _ & _ & H3). by apply Hkeep.
  - eapply swp_mono; [by apply (AtSubAbort_Snapshot_spec o me V c s level (op_result None))| |done].
    intros [] s' (H1 & H2 & _). by apply Hdrop.
  - destruct Hop as [Ha Hroom]. apply swp_bind.
    eapply swp_mono; [by apply (ExportSnapshot_spec s x a (op_result None)); auto| |done].
    intros n s' (H1 & H2 & H3). by apply Hkeep.
Qed.
End Ops.

Section Run.
Context (topmost : TransactionId -> TransactionId) (o : TransactionId) (me : nat).

Abbreviation run := (sys_run topmost o).

(** ** What is known in a state of the system *)

(** The backend is in the array. *)
Record hosted (s : Sys) : Prop := {
  hs_ok : sys_ok topmost o s;
  hs_me : me ∈ pgprocnos (mem s);
  hs_count : is_u64 (xactCompletionCount (mem s));
}.

Lemma hosted_run acts s s' : hosted s -> run acts s s' -> staying me acts -> hosted s'.
Proof.
  intros [H1 H2 H3] Hr Hst. destruct (run_floor topmost o me acts s s' 0 H1 Hr Hst H2) as (H1' & H2' & _).
  constructor; [done|done|]. rewrite (run_completions topmost o acts s s' H1 Hr H3). unfold is_u64, u64. apply Z.mod_pos_bound. lia.
Qed.

(** Taken by the backend at some moment. *)
Definition was_taken (s : Sys) (sn : SnapshotData) : Prop :=
  exists s1 acts, sys_ok topmost o s1 /\ run acts s1 s /\ staying me acts /\ snapshot_shows topmost o me s1 sn.

Definition below_running (s : Sys) (x : TransactionId) : Prop := in_window o x /\ floor o me s (xid_age o x).

(** The view in [s], [n] acts after the first snapshot; the memory may be
    that of a later state. *)
Definition view_at (n : nat) (s : Sys) (sh : ProcShared) : view :=
  mkView (below_running s) (fun sn => below_running s (snap_xmin sn) /\ was_taken s sn)
    (fun sn => snapXactCompletionCount sn = 0 \/ taken topmost o n me sn s) sh.

Lemma copied_taken s sn : was_taken s sn -> was_taken s (copied_data sn).
Proof.
  intros (s1 & acts & H1 & H2 & H3 & H4). exists s1, acts. split_and!; [done..|]. intros y Hy. specialize (H4 y Hy).
  by rewrite copied_shows.
Qed.

Lemma view_at_ok n s sh : (me < length (allProcs sh))%nat -> View o me (view_at n s sh).
Proof.
  intros Hlen. constructor; cbn.
  - by intros x [Hw _].
  - by intros sn [Hb _].
  - intros sn [Hb Ht]. split; [done|by apply copied_taken].
  - intros cid sn [Hb (s1 & acts & H1 & H2 & H3 & H4)]. split; [by destruct sn|]. exists s1, acts. split_and!; [done..|].
    by apply shows_curcid.
  - intros cid sn [Hz|(s1 & acts & H1 & H2 & H3 & H4 & H5 & H6 & H7 & H8 & H9)]; [by left|right]. exists s1, acts.
    refine (conj H1 (conj H2 (conj H3 (conj H4 (conj H5 (conj H6 (conj H7 (conj _ _)))))))); [by apply shows_curcid|by destruct (snap sn)].
  - done.
Qed.

(** What was known is known later. *)
Lemma view_run n k acts s s' sh sh' :
  hosted s -> run acts s s' -> staying me acts -> (n + length acts <= k)%nat ->
  (forall x, bound (view_at n s sh) x -> bound (view_at k s' sh') x) /\
  (forall sn, contents (view_at n s sh) sn -> contents (view_at k s' sh') sn) /\
  (forall sn, reusable (view_at n s sh) sn -> reusable (view_at k s' sh') sn).
Proof.
  intros [Hok Hme _] Hr Hst Hk.
  assert (Hb : forall x, below_running s x -> below_running s' x).
  { intros x [Hw Hf]. split; [done|]. by apply (run_floor topmost o me acts s s' _ Hok Hr Hst Hme). }
  split_and!; cbn; [done| |].
  - intros sn [H1 (s1 & acts1 & T1 & T2 & T3 & T4)]. split; [auto|]. exists s1, (acts1 ++ acts). split_and!; [done| |by apply Forall_app|done].
    clear -T2 Hr. induction T2; [done|]. cbn. econstructor; eauto.
  - intros sn [?|Ht]; [by left|right]. by eapply taken_run.
Qed.

(** ** Other backends while a snapshot is taken *)

Definition with_memory (s : Sys) (sh : ProcShared) : Sys := mkSys sh (subs s) (committed s).

(** The scans of an environment [e] entered in state [s], whatever the
    backend's xmin is by then: what others do meanwhile, up to a last
    state. *)
Record env_ok (e : SnapEnv) (s : Sys) : Prop := {
  eo_recovery : RecoveryInProgress e = false;
  eo_scan : forall sh, variant me (mem s) sh ->
    exists sigma last acts, scan e 0 sh = (fun t => mem (sigma t), mem last) /\ scanning topmost o sigma /\
      sigma 0%nat = with_memory s sh /\ run acts (sigma 0%nat) last /\ staying me acts /\
      pr_xmin (proc (mem last) me) = pr_xmin (proc sh me);
}.

(** The own xmin set and set back. *)
Lemma variant_steps s sh :
  hosted s -> variant me (mem s) sh ->
  exists there back, run there s (with_memory s sh) /\ run back (with_memory s sh) s /\
    staying me there /\ staying me back /\ (length there <= 1)%nat /\ (length back <= 1)%nat.
Proof.
  intros [Hok Hme _] [->|[x ->]].
  - exists [], []. assert (E : with_memory s (mem s) = s) by (by destruct s). rewrite E.
    split_and!; try constructor; cbn; lia.
  - set (old := pr_xmin (proc (mem s) me)). exists [ASetXmin me x], [ASetXmin me old].
    assert (Hback : upd_proc me (set_xmin old) (upd_proc me (set_xmin x) (mem s)) = mem s).
    { rewrite upd_proc_twice. unfold upd_proc. assert (Hlt : (me < length (allProcs (mem s)))%nat) by (apply mi_lt; [apply Hok|done]).
      assert (Ha : alter (set_xmin old) me (allProcs (mem s)) = allProcs (mem s)); [|rewrite Ha; by destruct (mem s)].
      apply list_eq. intros i. destruct (decide (i = me)) as [->|Hne]; [|by rewrite list_lookup_alter_ne].
      rewrite list_lookup_alter_eq. unfold old, proc. destruct (allProcs (mem s) !! me) as [[]|]; done. }
    split_and!; try by repeat constructor.
    + eapply run_cons; [|constructor]. by constructor.
    + eapply run_cons; [|constructor]. constructor; [exact Hme|]. cbn. unfold with_memory. cbn. rewrite Hback. by destruct s.
Qed.

(** The views after a snapshot was taken. *)
Definition after_take (n : nat) (s : Sys) (W : view) : Prop :=
  exists m sh, (n <= m <= n + 2)%nat /\ (me < length (allProcs sh))%nat /\ W = view_at m s sh.

Lemma hosted_length s : hosted s -> (me < length (allProcs (mem s)))%nat.
Proof. intros [Hok Hme _]. apply mi_lt; [apply Hok|done]. Qed.

Lemma view_more n m s sh sh' : hosted s -> (n <= m)%nat ->
  (forall x, bound (view_at n s sh) x -> bound (view_at m s sh') x) /\
  (forall sn, contents (view_at n s sh) sn -> contents (view_at m s sh') sn) /\
  (forall sn, reusable (view_at n s sh) sn -> reusable (view_at m s sh') sn).
Proof. intros Hs Hm. apply (view_run n m [] s s sh sh' Hs); [constructor|constructor|cbn; lia]. Qed.

(** The process array keeps its promise. *)
Lemma snapshot_source e n s :
  hosted s -> env_ok e s -> Z.of_nat n + 2 < 2 ^ 64 -> SnapshotSource o me e (view_at n s (mem s)) (after_take n s).
Proof.
  intros Hs [Erec Escan] Hn. constructor.
  - intros W (m & sh & _ & Hl & ->). by apply view_at_ok.
  - exists n, (mem s). split_and!; [lia|lia|by apply hosted_length|done].
  - intros W (m & sh & Hm & Hl & ->). apply view_more; [done|lia].
  - intros sh l sn Hv Hme Hre. destruct (Escan sh Hv) as (sigma & last & acts & -> & Hsc & E0 & Hr & Hst & Hx). rewrite Erec.
    destruct (variant_steps s sh Hs Hv) as (there & back & Rt & Rb & St & Sb & Lt & Lb).
    rewrite <- E0 in Rt, Rb. pose proof (hosted_run there s _ Hs Rt St) as Hs0. pose proof (hosted_run acts _ last Hs0 Hr Hst) as Hsl.
    pose proof Hs0 as [Hok0 Hme0 Hu0].
    assert (Hre0 : snapXactCompletionCount sn = 0 \/ taken topmost o (n + 1) me sn (sigma 0%nat)).
    { destruct Hre as [?|Ht]; [by left|right]. eapply taken_run; [exact Ht|exact Rt|done|lia]. }
    pose proof (GetSnapshotData_taken topmost o sigma (mem last) (CurrentCommandId e) sn l (n + 1)) as HG.
    cbv zeta in HG. rewrite Hme in HG. specialize (HG Hsc Hme0 (hosted_length last Hsl) Hu0 ltac:(lia) Hre0).
    destruct (GetSnapshotData _ _ _ _ _ _) as [[sn' sh'] l']. destruct HG as (Ht & [Hw Hlow] & Hl' & Hshow & X & HX & ->).
    assert (HXl : (me < length (allProcs X))%nat /\ pr_xmin (proc X me) = pr_xmin (proc sh me)).
    { destruct HX as [->| ->]; [|split; [by apply hosted_length|done]]. split; [by apply hosted_length|by rewrite E0]. }
    destruct HXl as [HXl HXx]. pose proof (install_xmin_spec (snap_xmin (snap sn')) X l) as Hxm. cbv zeta in Hxm. rewrite Hme in Hxm.
    destruct (Hxm HXl) as (_ & _ & _ & Hxm'). rewrite HXx in Hxm'.
    exists (view_at (n + 2) s X). split_and!; [eexists _, _; split_and!; [..|done]; [lia|lia|done]| | | | | |exact Hxm'].
    + split; [split; [done|]|].
      * apply (run_floor topmost o me back (sigma 0%nat) s _ Hok0 Rb Sb Hme0), Hlow. lia.
      * by exists (sigma 0%nat), back.
    + right. eapply taken_run; [exact Ht|exact Rb|done|lia].
    + done.
    + unfold install_xmin. rewrite Hme. case_if; [right; by eexists|by left].
    + intros y [Hyw Hyf]. apply (proj1 (Hlow _)). by apply (run_floor topmost o me there s (sigma 0%nat) _ (hs_ok _ Hs) Rt St (hs_me _ Hs)).
Qed.

(** ** Runs *)

(** The system, the backend's snapshot manager, and the snapshot that was
    returned last. *)
Record Host := mkHost {
  host : Sys;
  mgr : SnapMgr;
  fresh : option nat;
}.

(** Others act (or the backend itself, apart from its snapshots); the backend
    performs an operation, which succeeds or raises an error, while others
    act; its transaction ends, first in the process array. *)
Inductive host_step : nat -> Host -> Host -> Prop :=
| step_other a h s :
    sys_step topmost o a (host h) s -> (forall x, a <> ARemove me x) ->
    pr_xmin (proc (mem s) me) = pr_xmin (proc (mem (host h)) me) ->
    host_step 1 h (mkHost s (set_procs (local (mgr h)) (mem s) (mgr h)) (fresh h))
| step_op e op h r m s acts :
    env_ok e (host h) -> op_ok e (mgr h) (fresh h) op -> run_op e op (mgr h) = Done r m ->
    run acts (host h) s -> staying me acts -> mem s = shared m ->
    host_step (length acts) h (mkHost s m (next_fresh op (fresh h) r))
| step_error e op h m s acts :
    env_ok e (host h) -> op_ok e (mgr h) (fresh h) op -> run_op e op (mgr h) = Raised m ->
    run acts (host h) s -> staying me acts -> mem s = shared m ->
    host_step (length acts) h (mkHost s m None)
| step_end a l isCommit h s1 m s acts :
    a = AEndNoXid me \/ (exists x, a = AEnd me x) -> sys_step topmost o a (host h) s1 ->
    (forall r, r ∈ owners (mgr h) -> r.1 ∈ l) -> (isCommit = true -> owners (mgr h) = []) ->
    end_snapshots l isCommit (set_procs (local (mgr h)) (mem s1) (mgr h)) = Done tt m ->
    run acts s1 s -> staying me acts -> mem s = shared m ->
    host_step (S (length acts)) h (mkHost s m None).

(** [n] bounds the acts so far. *)
Inductive reachable : nat -> Host -> Prop :=
| reach_start s dir l :
    hosted s -> MyProcNo l = me -> pr_xmin (proc (mem s) me) = InvalidTransactionId ->
    reachable 0 (mkHost s (snapmgr_init dir l (mem s)) None)
| reach_step n k h h' : reachable n h -> host_step k h h' -> reachable (n + k + 2) h'.

Record host_ok (n : nat) (h : Host) : Prop := {
  hk_hosted : hosted (host h);
  hk_inv : inv o me (view_at n (host h) (mem (host h))) true (mgr h);
  hk_shared : shared (mgr h) = mem (host h);
  hk_fresh : forall a, fresh h = Some a ->
    good_in o (view_at n (host h) (mem (host h))) true (objs (mgr h)) (MyProc_xmin (mgr h)) a;
}.

(** A state in a later view. *)
Lemma good_later W W' c m x a :
  (forall sn, contents W sn -> contents W' sn) -> good_in o W c m x a -> good_in o W' c m x a.
Proof. intros Hc (ob & E & H1 & H2). exists ob. auto. Qed.

Lemma inv_later W W' c s s' :
  (forall x, bound W x -> bound W' x) -> (forall sn, contents W sn -> contents W' sn) -> (forall sn, reusable W sn -> reusable W' sn) ->
  variant me (seen W') (shared s') -> MyProcNo (local s') = me -> MyProc_xmin s' = MyProc_xmin s ->
  s' = set_procs (local s') (shared s') s -> inv o me W c s -> inv o me W' c s'.
Proof.
  intros Hb Hc Hr Hs Hme Hx E [[C1 [D1 D2 D3] C3 C4 C5 C6 C7] [V1 V2 V3 V4]]. rewrite E in *. cbn in Hs, Hme. constructor; constructor; try done.
  constructor; cbn [objs set_procs].
  - intros a Ha. apply (good_later W); [done|]. rewrite Hx. by apply D1.
  - rewrite Hx. destruct D2; auto.
  - intros a ob Ha Eo. eauto.
Qed.

Lemma host_result n k acts h s m f :
  hosted (host h) -> run acts (host h) s -> staying me acts -> mem s = shared m -> (n + 2 + length acts <= k)%nat ->
  op_result o me (after_take n (host h)) true f m -> host_ok k (mkHost s m f).
Proof.
  intros Hs Hr Hst Hm Hk (W & (j & X & Hj & Hl & ->) & Hi & Hf). pose proof (hosted_run _ _ _ Hs Hr Hst) as Hs'.
  destruct (view_run j k acts (host h) s X (mem s) Hs Hr Hst ltac:(lia)) as (V1 & V2 & V3).
  constructor; cbn [host mgr fresh]; [done| |done|].
  - eapply (inv_later (view_at j (host h) X) _ true m m); try done; [by left|apply Hi|by destruct m].
  - intros a Ha. eapply good_later; [exact V2|by apply Hf].
Qed.

Lemma core_weaken V s : inv o me V true s -> inv o me V false s.
Proof.
  intros [[C1 [D1 D2 D3] C3 C4 C5 C6 C7] Hv]. constructor; [|done]. constructor; try done. constructor; try done.
  intros a Ha. destruct (D1 a Ha) as (ob & E & H1 & _). exists ob. split_and!; done.
Qed.

(** When the transaction ends in the process array, nothing is covered. *)
Lemma inv_ended W W' s l sh :
  (forall sn, contents W sn -> contents W' sn) -> (forall sn, reusable W sn -> reusable W' sn) ->
  variant me (seen W') sh -> MyProcNo l = me -> pr_xmin (proc sh me) = InvalidTransactionId ->
  inv o me W true s -> inv o me W' false (set_procs l sh s).
Proof.
  intros Hc Hr Hs Hme Hx [[C1 [D1 D2 D3] C3 C4 C5 C6 C7] [V1 V2 V3 V4]].
  assert (E : MyProc_xmin (set_procs l sh s) = InvalidTransactionId) by (unfold MyProc_xmin; cbn; by rewrite Hme).
  constructor; constructor; try done. rewrite E. constructor; cbn [objs set_procs].
  - intros a Ha. destruct (D1 a Ha) as (ob & Eo & H1 & _). exists ob. split_and!; [done|auto|done].
  - by left.
  - intros a ob Ha Eo. eauto.
Qed.

Lemma init_ok s dir l :
  hosted s -> MyProcNo l = me -> pr_xmin (proc (mem s) me) = InvalidTransactionId ->
  host_ok 0 (mkHost s (snapmgr_init dir l (mem s)) None).
Proof.
  intros Hs Hme Hx. set (m := snapmgr_init dir l (mem s)).
  assert (Hobj : forall a ob, objs m !! a = Some ob -> (a < 3)%nat /\ ob = static_snapshot).
  { intros a ob. cbn. rewrite !lookup_insert_Some. unfold CurrentSnapshotData, SecondarySnapshotData, CatalogSnapshotData.
    intros [[<- <-]|[_ [[<- <-]|[_ [[<- <-]|[_ ?]]]]]]; [split; (done || lia)..|done]. }
  constructor; [done| |done|done]. cbn [host mgr]. constructor.
  - constructor; try done.
    + exists []. split; [|intros a; split; [by intros ?%not_elem_of_nil|by intros [?%not_elem_of_nil|?]]]. constructor.
      * exists Leaf. constructor; cbn; try done; constructor.
      * intros a Ha. by apply not_elem_of_nil in Ha.
      * intros a. cbn. rewrite !lookup_insert_is_Some, !lookup_empty. unfold is_Some. naive_solver.
      * split; [cbn; lia|]. intros a [ob Ha]. apply Hobj in Ha as [? _]. cbn. lia.
      * intros a Ha. exists static_snapshot. split; [|done].
        destruct a as [|[|[|a]]]; [done..|lia].
      * intros a ob Ha E. apply Hobj in E as [? _]. lia.
      * intros a [Ha|Ha]; by apply not_elem_of_nil in Ha.
      * done.
    + constructor; [intros a Ha; by apply not_elem_of_nil in Ha|left; unfold MyProc_xmin; cbn; by rewrite Hme|].
      intros a ob _ E. apply Hobj in E as [_ ->]. by left.
    + constructor.
    + by left.
    + by left.
  - constructor; cbn; [by left|by left|done|done].
Qed.

(** An end of the transaction, in the process array and then here. *)
Lemma host_end n a l isCommit h s1 :
  host_ok n h -> a = AEndNoXid me \/ (exists x, a = AEnd me x) -> sys_step topmost o a (host h) s1 ->
  (forall r, r ∈ owners (mgr h) -> r.1 ∈ l) -> (isCommit = true -> owners (mgr h) = []) ->
  hosted s1 /\
  wp (end_snapshots l isCommit) (fun _ m => inv o me (view_at (n + 1) s1 (mem s1)) true m /\ cleared m /\ held m = [] /\
    forall b, is_Some (objs m !! b) -> (b < 3)%nat) (fun _ => False) (set_procs (local (mgr h)) (mem s1) (mgr h)).
Proof.
  intros [Hs Hi Hsh Hf] Ha Hact Hl Hcom.
  assert (Hr1 : run [a] (host h) s1) by (eapply run_cons; [done|constructor]).
  assert (Hst1 : staying me [a]) by (constructor; [|constructor]; by destruct Ha as [->|[x ->]]).
  pose proof (hosted_run _ _ _ Hs Hr1 Hst1) as Hs1. split; [done|].
  assert (Hx : pr_xmin (proc (mem s1) me) = InvalidTransactionId).
  { pose proof (hosted_length _ Hs). destruct Hact as [_ Hact]. destruct Ha as [->|[x ->]]; injection Hact as <-; [by apply end_without_xid_xmin|by apply end_xmin]. }
  destruct (view_run n (n + 1) [a] (host h) s1 (mem (host h)) (mem s1) Hs Hr1 Hst1 ltac:(cbn; lia)) as (V1 & V2 & V3).
  assert (Hme : MyProcNo (local (mgr h)) = me) by apply Hi.
  pose proof (inv_ended _ (view_at (n + 1) s1 (mem s1)) (mgr h) (local (mgr h)) (mem s1) V2 V3 (or_introl eq_refl) Hme Hx Hi) as [Hc1 Hv1].
  pose proof (view_at_ok (n + 1) s1 (mem s1) (hosted_length _ Hs1)) as HV1.
  apply (end_snapshots_spec o me (view_at (n + 1) s1 (mem s1)) false _ l isCommit _ Hc1 Hv1 Hl).
  intros Hb. split; [by apply Hcom|]. unfold MyProc_xmin. cbn. by rewrite Hme.
Qed.

Lemma host_step_ok n k h h' :
  host_ok n h -> host_step k h h' -> Z.of_nat (n + k + 2) < 2 ^ 64 -> host_ok (n + k + 2) h'.
Proof.
  intros [Hs Hi Hsh Hf] Hstep Hn. set (V := view_at n (host h) (mem (host h))) in *.
  pose proof (view_at_ok n (host h) (mem (host h)) (hosted_length _ Hs)) as HV.
  destruct Hstep as [a h s Ha Hno Hx|e op h r m s acts He Hop Er Hr Hst Hm|e op h m s acts He Hop Er Hr Hst Hm|a l b h s1 m s acts Ha Hact Hl Hcom Er Hr Hst Hm].
  - assert (Hr : run [a] (host h) s) by (eapply run_cons; [done|constructor]).
    assert (Hst : staying me [a]) by (by repeat constructor). pose proof (hosted_run _ _ _ Hs Hr Hst) as Hs'.
    destruct (view_run n (n + 1 + 2) [a] (host h) s (mem (host h)) (mem s) Hs Hr Hst ltac:(cbn; lia)) as (V1 & V2 & V3).
    assert (Ex : MyProc_xmin (set_procs (local (mgr h)) (mem s) (mgr h)) = MyProc_xmin (mgr h)).
    { unfold MyProc_xmin. cbn. rewrite Hsh. by rewrite (co_me _ _ _ _ _ (in_core _ _ _ _ _ Hi)). }
    constructor; cbn [host mgr fresh]; [done| |done|].
    + eapply (inv_later V _ true (mgr h)); try done; [by left|apply Hi].
    + intros b Hb. rewrite Ex. eapply good_later; [exact V2|by apply Hf].
  - pose proof (snapshot_source e n (host h) Hs He ltac:(lia)) as HS.
    pose proof (run_op_spec o me e V (after_take n (host h)) true (mgr h) (fresh h) op Hi Hf Hop) as Hw. unfold wp in Hw. rewrite Er in Hw.
    eapply (host_result n); [exact Hs|done..|lia|done].
  - pose proof (snapshot_source e n (host h) Hs He ltac:(lia)) as HS.
    pose proof (run_op_spec o me e V (after_take n (host h)) true (mgr h) (fresh h) op Hi Hf Hop) as Hw. unfold wp in Hw. rewrite Er in Hw.
    eapply (host_result n); [exact Hs|done..|lia|done].
  - destruct (host_end n a l b h s1 (Build_host_ok _ _ Hs Hi Hsh Hf) Ha Hact Hl Hcom) as [Hs1 Hw]. unfold wp in Hw. rewrite Er in Hw.
    destruct Hw as (Hi' & _ & _ & _). pose proof (hosted_run _ _ _ Hs1 Hr Hst) as Hs'.
    destruct (view_run (n + 1) (n + S (length acts) + 2) acts s1 s (mem s1) (mem s) Hs1 Hr Hst ltac:(lia)) as (W1 & W2 & W3).
    constructor; cbn [host mgr fresh]; [done| |done|done].
    eapply (inv_later (view_at (n + 1) s1 (mem s1)) _ true m m); try done; [by left|apply Hi'|by destruct m].
Qed.

Lemma reachable_ok n h : reachable n h -> Z.of_nat n < 2 ^ 64 -> host_ok n h.
Proof. induction 1 as [|n k h h' _ IH Hstep]; intros Hn; [by apply init_ok|]. eapply host_step_ok; [apply IH; lia|done|done]. Qed.
End Run.

(** ** Results *)

Definition refcounts_exact (m : SnapMgr) : Prop :=
  (forall a ob, (3 <= a)%nat -> objs m !! a = Some ob ->
     active_count ob = Z.of_nat (occurs a (stack m)) /\ regd_count ob = Z.of_nat (occurs a (refs m))) /\
  (forall a, a ∈ held m -> is_Some (objs m !! a)).

(** C3. snapshots in use are protected.  Whatever operations a backend
    performs on its snapshots, in whatever order, with errors and ends of
    transactions in between, and whatever all backends do meanwhile: every
    snapshot on the stack, registered with a resource owner, exported or kept
    for the transaction, the catalog snapshot, and one that was just returned,
    shows what was running at some moment since the backend started, and the
    backend advertises an xmin that is not after its xmin; reference counts
    are exact and nothing in use is freed; no operation touches a freed
    snapshot or fails an assertion; and after the end of a transaction nothing
    is left, no snapshot in use, no copy in memory and no advertised xmin. *)
Theorem snapshots_protected (topmost : TransactionId -> TransactionId) (o : TransactionId) (me n : nat) (h : Host) :
  reachable topmost o me n h -> Z.of_nat n + 2 < 2 ^ 64 ->
  (forall a, available (mgr h) (fresh h) a ->
     exists ob, objs (mgr h) !! a = Some ob /\ was_taken topmost o me (host h) (snap (so_snap ob)) /\
       TransactionIdIsValid (pr_xmin (proc (mem (host h)) me)) = true /\
       TransactionIdPrecedesOrEquals (pr_xmin (proc (mem (host h)) me)) (obj_xmin ob) = true) /\
  refcounts_exact (mgr h) /\
  (forall e op, env_ok topmost o me e (host h) -> op_ok e (mgr h) (fresh h) op -> run_op e op (mgr h) <> Undefined) /\
  (forall a l isCommit s1, a = AEndNoXid me \/ (exists x, a = AEnd me x) -> sys_step topmost o a (host h) s1 ->
     (forall r, r ∈ owners (mgr h) -> r.1 ∈ l) -> (isCommit = true -> owners (mgr h) = []) ->
     exists m, end_snapshots l isCommit (set_procs (local (mgr h)) (mem s1) (mgr h)) = Done tt m /\
       held m = [] /\ MyProc_xmin m = InvalidTransactionId /\ forall b, is_Some (objs m !! b) -> (b < 3)%nat).
Proof.
  intros Hr Hn. pose proof (reachable_ok topmost o me n h Hr ltac:(lia)) as Hok. pose proof Hok as [Hs Hi Hsh Hf].
  pose proof (view_at_ok topmost o me n (host h) (mem (host h)) (hosted_length topmost o me _ Hs)) as HV.
  pose proof Hi as [Hc _]. pose proof Hc as [(L & Hm & _) [D1 D2 _] _ _ _ Hme _]. split_and!.
  - intros a Ha. assert (Hg : good_in o (view_at topmost o me n (host h) (mem (host h))) true (objs (mgr h)) (MyProc_xmin (mgr h)) a).
    { destruct Ha as [Ha|Ha]; auto. }
    destruct Hg as (ob & E & [[Hw _] Ht] & Hcov). destruct (Hcov eq_refl) as [Hnz Hle]. exists ob.
    assert (Ex : pr_xmin (proc (mem (host h)) me) = MyProc_xmin (mgr h)) by (unfold MyProc_xmin; by rewrite Hsh, Hme).
    rewrite Ex. destruct D2 as [?|[Hxw _]]; [done|]. split_and!; [done|done|by apply negb_true_iff, Z.eqb_neq|].
    rewrite (precedes_or_equals_window o) by done. by apply Z.leb_le.
  - split; [|intros a; by apply (held_alloc _ _ _ _ _ _ Hc)]. intros a ob Ha E. apply (mo_copied _ _ _ _ _ _ _ Hm a ob Ha E).
  - intros e op He Hop. pose proof (snapshot_source topmost o me e n (host h) Hs He ltac:(lia)) as HS.
    pose proof (run_op_spec o me e _ (after_take topmost o me n (host h)) true (mgr h) (fresh h) op Hi Hf Hop) as Hw.
    unfold wp in Hw. by destruct (run_op e op (mgr h)).
  - intros a l isCommit s1 Ha Hact Hl Hcom. destruct (host_end topmost o me n a l isCommit h s1 Hok Ha Hact Hl Hcom) as [_ Hw].
    unfold wp in Hw. destruct (end_snapshots _ _ _) as [[] m|m|]; [|done..]. destruct Hw as (_ & Hcl & Hh & Hlow).
    exists m. split_and!; [done|done|apply Hcl|done].
Qed.

(** C4. vacuum waits for the snapshots of other backends.  While one backend
    computes the removal horizon of a relation, another goes on working with
    its snapshots and all the time holds the one at address [a]; then no
    transaction before the horizon that changed the relation is seen as
    running by that snapshot. *)
Theorem horizon_keeps_snapshots (topmost : TransactionId -> TransactionId) (o : TransactionId) (me : nat)
    (h : nat -> Host) (times : nat -> nat) (last : ProcShared) (rel : option Relation) (l : ProcLocal) (a : nat) (sn : SnapshotData) :
  let sigma t := host (h t) in
  let s0 := sigma 0%nat in
  let horizon := (GetOldestNonRemovableTransactionId false (fun t => mem (sigma t)) last rel l).1 in
  scanning topmost o sigma -> xmins_ok o sigma -> slots_ok o (mem s0) -> MyProcNo l ∈ pgprocnos (mem s0) ->
  private_relation rel = false -> accesses rel l (mem s0) me = true ->
  (forall t, reachable topmost o me (times t) (h t) /\ Z.of_nat (times t) < 2 ^ 64 /\ a ∈ held (mgr (h t)) /\
     exists ob, objs (mgr (h t)) !! a = Some ob /\ obj_xmin ob = snap_xmin sn) ->
  forall x, touches topmost o (accesses rel l (mem s0)) s0 x -> TransactionIdPrecedes x horizon = true ->
    XidInMVCCSnapshot topmost x sn = false.
Proof.
  intros sigma s0 horizon Hsc Hx Hsl Hme Hpriv Hacc Hheld x Ht Hp.
  assert (Hholds : holds o sigma me sn /\ me ∈ pgprocnos (mem s0)).
  { assert (Hone : forall t, in_window o (snap_xmin sn) /\ me ∈ pgprocnos (mem (sigma t)) /\
      TransactionIdIsValid (pr_xmin (proc (mem (sigma t)) me)) = true /\
      xid_age o (pr_xmin (proc (mem (sigma t)) me)) <= xid_age o (snap_xmin sn)).
    { intros t. destruct (Hheld t) as (Hr & Hn & Ha & ob & E & Ex). destruct (reachable_ok topmost o me _ _ Hr Hn) as [Hs [Hc _] Hsh _].
      pose proof Hc as [_ [D1 _ _] _ _ _ Hm _]. destruct (D1 a Ha) as (ob' & E' & [[Hw _] _] & Hcov). rewrite E in E'. injection E' as <-.
      destruct (Hcov eq_refl) as [Hnz Hle]. change (in_window o (obj_xmin ob)) in Hw. rewrite Ex in Hw, Hle. unfold MyProc_xmin in Hnz, Hle. rewrite Hsh, Hm in Hnz, Hle.
      split_and!; [done|apply Hs|by apply negb_true_iff, Z.eqb_neq|done]. }
    split; [|apply (Hone 0%nat)]. split; [apply (Hone 0%nat)|]. intros t. apply (Hone t). }
  destruct Hholds as [Hh Hin]. set (k := GlobalVisHorizonKindForRel false rel).
  destruct (relation_kind rel l (mem s0) me) as (Hkind & Hkp & _).
  destruct (horizon_unseen topmost o sigma l k horizon x Hsc) as [_ Hseen]; [| |done|].
  - pose proof (ComputeXidHorizons_ok topmost o sigma l Hsc Hx Hsl last k Hme) as Ho. unfold horizon, GetOldestNonRemovableTransactionId.
    by destruct (ComputeXidHorizons _ _ _ _).
  - eapply touches_ext; [|exact Ht]. intros q. symmetry. apply relation_kind.
  - apply (Hseen (Hkp Hpriv) me); [done|exact (eq_trans Hkind Hacc)|done].
Qed.

(** ** An example *)

(** Nobody else acts during a scan. *)
Lemma still_env_ok topmost o me e s :
  hosted topmost o me s -> RecoveryInProgress e = false -> (forall sh, scan e 0 sh = (fun _ => sh, sh)) -> env_ok topmost o me e s.
Proof.
  intros Hs Hrec Hscan. constructor; [done|]. intros sh Hv.
  destruct (variant_steps topmost o me s sh Hs Hv) as (there & _ & Hr & _ & Hst & _).
  exists (fun _ => with_memory s sh), (with_memory s sh), []. split_and!; try done; [split|constructor|constructor].
  - apply (hosted_run topmost o me there s _ Hs Hr Hst).
  - intros t. constructor.
Qed.

(** Backend 0 gets a transaction snapshot, while 100 runs, and makes it the
    active one. *)
Definition ex_local : ProcLocal :=
  mkProcLocal 0 5 0 0 0 (mkGlobalVis 0 0) (mkGlobalVis 0 0) (mkGlobalVis 0 0) (mkGlobalVis 0 0) 0.
Definition ex_env : SnapEnv := mkSnapEnv (fun _ sh => (fun _ => sh, sh)) false 7 false XACT_READ_COMMITTED 1.

Definition state_of {A} (r : outcome A) (s : SnapMgr) : SnapMgr :=
  match r with Done _ s' | Raised s' => s' | Undefined => s end.

Definition ex_mgr0 : SnapMgr := snapmgr_init ∅ ex_local (mem (ex_sys 8)).
Definition ex_mgr1 : SnapMgr := state_of (run_op ex_env OpTransaction ex_mgr0) ex_mgr0.
Definition ex_mgr2 : SnapMgr := state_of (run_op ex_env (OpPush 1 0) ex_mgr1) ex_mgr1.
Definition ex_host : Host := mkHost ex_held ex_mgr2 (Some 0%nat).

Lemma ex_hosted : hosted ex_topmost 3 0 (ex_sys 8).
Proof. constructor; [exact ex_ok|ground|split; vm_compute; done]. Qed.

Lemma ex_held_hosted : hosted ex_topmost 3 0 ex_held.
Proof. eapply hosted_run; [exact ex_hosted|exact ex_held_run|by repeat constructor]. Qed.

Lemma ex_reachable : reachable ex_topmost 3 0 5 ex_host.
Proof.
  apply (reach_step ex_topmost 3 0 3 0 (mkHost ex_held ex_mgr1 (Some 0%nat)) ex_host).
  - apply (reach_step ex_topmost 3 0 0 1 (mkHost (ex_sys 8) ex_mgr0 None)); [by apply reach_start; [exact ex_hosted|..]|].
    apply (step_op ex_topmost 3 0 ex_env OpTransaction (mkHost (ex_sys 8) ex_mgr0 None) (Some 0%nat) ex_mgr1 ex_held [ASetXmin 0 100]).
    + by apply still_env_ok; [exact ex_hosted|..].
    + split; [by intros ?|]. split; [by intros _|by vm_compute].
    + vm_compute. reflexivity.
    + exact ex_held_run.
    + by repeat constructor.
    + vm_compute. reflexivity.
  - apply (step_op ex_topmost 3 0 ex_env (OpPush 1 0) (mkHost ex_held ex_mgr1 (Some 0%nat)) None ex_mgr2 ex_held []).
    + by apply still_env_ok; [exact ex_held_hosted|..].
    + split; [by right|]. split; [exact I|by vm_compute].
    + vm_compute. reflexivity.
    + constructor.
    + constructor.
    + vm_compute. reflexivity.
Qed.

Lemma snapshots_protected_witness :
  stack ex_mgr2 = [3%nat] /\ pr_xmin (proc (mem ex_held) 0) = 100 /\
  exists ob, objs ex_mgr2 !! 3%nat = Some ob /\ was_taken ex_topmost 3 0 ex_held (snap (so_snap ob)) /\
    TransactionIdPrecedesOrEquals 100 (obj_xmin ob) = true.
Proof.
  split; [vm_compute; reflexivity|]. split; [vm_compute; reflexivity|].
  destruct (snapshots_protected ex_topmost 3 0 5 ex_host ex_reachable ltac:(vm_compute; reflexivity)) as [H _].
  destruct (H 3%nat) as (ob & E & Ht & _ & Hle); [left; ground|]. exists ob. split; [exact E|]. split; [exact Ht|].
  change (pr_xmin (proc (mem (host ex_host)) 0)) with 100 in Hle. exact Hle.
Defined.

Lemma horizon_keeps_snapshots_witness :
  (GetOldestNonRemovableTransactionId false (fun _ => mem ex_held) (mem ex_held) ex_table ex_vacuum).1 = 100 /\
  XidInMVCCSnapshot ex_topmost 99 ex_held_snapshot = false.
Proof.
  split; [vm_compute; reflexivity|].
  assert (Hx : xmins_ok 3 (fun _ => ex_held)).
  { intros t p Hp. revert p Hp. refine (ex_procs_cases _ _ _ _); vm_compute; done. }
  assert (Ht : touches ex_topmost 3 (accesses ex_table ex_vacuum (mem ex_held)) ex_held 99).
  { constructor; [split; vm_compute; done|split; [vm_compute; done|by vm_compute]|].
    intros q y Hy (Hq & _). revert q Hq. refine (ex_procs_cases _ _ _ _); by vm_compute. }
  apply (horizon_keeps_snapshots ex_topmost 3 0 (fun _ => ex_host) (fun _ => 5%nat) (mem ex_held) ex_table ex_vacuum 3 ex_held_snapshot
    ex_held_scanning Hx ltac:(split; done) ltac:(ground) ltac:(done) ltac:(by vm_compute)); [|exact Ht|vm_compute; reflexivity].
  intros _. split; [exact ex_reachable|]. split; [vm_compute; reflexivity|]. split; [ground|].
  eexists. split; [vm_compute; reflexivity|vm_compute; reflexivity].
Defined.
