(* ===== verification/Standby.v ===== *)
(** * Standby: replaying the transactions of a primary

    Models the part of src/backend/storage/ipc/procarray.c by which the
    startup process of a standby keeps track of the transactions of its
    primary: the ids observed in WAL records, their ends, the assignment of
    subtransactions to their top-level transactions, and the snapshots of
    running transactions with which tracking starts and by which it is pruned.

    The state is the shared memory of ProcArray.v with the known-assigned
    array of KnownXids.v, pg_subtrans, and the variables of the startup
    process.  The outcome of a transaction (transam.c), the state files of
    prepared transactions and clock readings are arguments; releasing the
    locks of old transactions is left to the lock manager. *)

From S2P Require Import Prelude TransactionId Slru Subtrans KnownXids ProcArray ProcReaders.

Inductive HotStandbyState :=
| STANDBY_DISABLED
| STANDBY_INITIALIZED
| STANDBY_SNAPSHOT_PENDING
| STANDBY_SNAPSHOT_READY.

#[export] Instance HotStandbyState_eq_dec : EqDecision HotStandbyState.
Proof. solve_decision. Defined.

Record Standby := mkStandby {
  shared : ProcShared;
  subtrans : Slru;
  standbyState : HotStandbyState;
  latestObservedXid : TransactionId;
  standbySnapshotPendingXmin : TransactionId;
}.

Definition set_shared (sh : ProcShared) (s : Standby) : Standby :=
  mkStandby sh (subtrans s) (standbyState s) (latestObservedXid s) (standbySnapshotPendingXmin s).
Definition set_subtrans (c : Slru) (s : Standby) : Standby :=
  mkStandby (shared s) c (standbyState s) (latestObservedXid s) (standbySnapshotPendingXmin s).
Definition set_standbyState (st : HotStandbyState) (s : Standby) : Standby :=
  mkStandby (shared s) (subtrans s) st (latestObservedXid s) (standbySnapshotPendingXmin s).
Definition set_observed (x : TransactionId) (s : Standby) : Standby :=
  mkStandby (shared s) (subtrans s) (standbyState s) x (standbySnapshotPendingXmin s).
Definition set_pending (x : TransactionId) (s : Standby) : Standby :=
  mkStandby (shared s) (subtrans s) (standbyState s) (latestObservedXid s) x.

Definition set_known (k : KnownXids) (s : Standby) : Standby :=
  set_shared (set_standby (lastOverflowedXid (shared s)) k (shared s)) s.
Definition set_overflow (x : TransactionId) (s : Standby) : Standby :=
  set_shared (set_standby x (knownXids (shared s)) (shared s)) s.

Inductive StandbyError :=
| KnownXidsError (e : KnownError)
| SubtransError (e : LookupError)
| KnownAssignedXidsIsNotEmpty.

Definition lift_known {A} (r : result KnownError A) : result StandbyError A :=
  match r with Ok a => Ok a | Err e => Err (KnownXidsError e) end.
Definition lift_subtrans {A} (r : result LookupError A) : result StandbyError A :=
  match r with Ok a => Ok a | Err e => Err (SubtransError e) end.

(** [AdvanceNextFullTransactionIdPastXid] on the shared counter. *)
Definition advance_next_past (xid : TransactionId) (sh : ProcShared) : ProcShared :=
  let next := sh_nextXid sh in
  let next_xid := XidFromFullTransactionId next in
  if negb (TransactionIdFollowsOrEquals xid next_xid) then sh
  else
    let xid := TransactionIdAdvance xid in
    let epoch := EpochFromFullTransactionId next in
    let epoch := if xid <? next_xid then epoch +u32 1 else epoch in
    set_next (FullTransactionIdFromEpochAndXid epoch xid) sh.

Definition ProcArrayInitRecovery (initializedUptoXID : TransactionId) (s : Standby) : Standby :=
  set_observed (TransactionIdRetreat initializedUptoXID) s.

(** ** Observing ids *)

(** [while (TransactionIdPrecedes(next_expected_xid, xid))]: every round
    brings [next_expected_xid] closer to [xid]. *)
Fixpoint extend_subtrans (fuel : nat) (next_expected_xid xid : TransactionId) (c : Slru) : Slru :=
  match fuel with
  | O => c
  | S n =>
      if TransactionIdPrecedes next_expected_xid xid then
        let next_expected_xid := TransactionIdAdvance next_expected_xid in
        extend_subtrans n next_expected_xid xid (ExtendSUBTRANS next_expected_xid c)
      else c
  end.

Definition RecordKnownAssignedTransactionIds (clock : Z * Z) (xid : TransactionId) (s : Standby)
    : result StandbyError Standby :=
  let latest := latestObservedXid s in
  if TransactionIdFollows xid latest then
    let s := set_subtrans (extend_subtrans (Z.to_nat (xid_age latest xid)) latest xid (subtrans s)) s in
    match standbyState s with
    | STANDBY_DISABLED | STANDBY_INITIALIZED => Ok (set_observed xid s)
    | _ =>
        k ← lift_known (KnownAssignedXidsAdd (TransactionIdAdvance latest) xid clock (knownXids (shared s)));
        let s := set_observed xid (set_known k s) in
        Ok (set_shared (advance_next_past xid (shared s)) s)
    end
  else Ok s.

(** ** Ends of transactions *)

Definition ExpireTreeKnownAssignedTransactionIds (clock : Z * Z) (xid : TransactionId) (subxids : list TransactionId)
    (max_xid : TransactionId) (s : Standby) : Standby :=
  let s := set_known (KnownAssignedXidsRemoveTree xid subxids clock (knownXids (shared s))) s in
  set_shared (count_completion (MaintainLatestCompletedXidRecovery max_xid (shared s))) s.

Definition ExpireAllKnownAssignedTransactionIds (prepared : TransactionId -> bool) (clock : Z * Z) (s : Standby)
    : Standby :=
  let s := set_known (KnownAssignedXidsRemovePreceding prepared InvalidTransactionId clock (knownXids (shared s))) s in
  set_overflow InvalidTransactionId s.

Definition ExpireOldKnownAssignedTransactionIds (prepared : TransactionId -> bool) (clock : Z * Z)
    (xid : TransactionId) (s : Standby) : Standby :=
  let s := if TransactionIdPrecedes (lastOverflowedXid (shared s)) xid then set_overflow InvalidTransactionId s else s in
  set_known (KnownAssignedXidsRemovePreceding prepared xid clock (knownXids (shared s))) s.

(** ** Assignment of subtransactions *)

Fixpoint set_parents (subxids : list TransactionId) (topxid : TransactionId) (c : Slru) : result LookupError Slru :=
  match subxids with
  | [] => Ok c
  | x :: subxids => c ← SubTransSetParent x topxid c; set_parents subxids topxid c
  end.

Definition ProcArrayApplyXidAssignment (clock : Z * Z) (topxid : TransactionId) (subxids : list TransactionId)
    (s : Standby) : result StandbyError Standby :=
  let max_xid := TransactionIdLatest topxid subxids in
  s ← RecordKnownAssignedTransactionIds clock max_xid s;
  c ← lift_subtrans (set_parents subxids topxid (subtrans s));
  let s := set_subtrans c s in
  match standbyState s with
  | STANDBY_INITIALIZED => Ok s
  | _ =>
      let s := set_known (KnownAssignedXidsRemoveTree InvalidTransactionId subxids clock (knownXids (shared s))) s in
      Ok (if TransactionIdPrecedes (lastOverflowedXid (shared s)) max_xid then set_overflow max_xid s else s)
  end.

(** ** Snapshots of running transactions *)

(** [qsort] with [xidLogicalComparator]. *)
Fixpoint xid_insert (x : TransactionId) (l : list TransactionId) : list TransactionId :=
  match l with
  | [] => [x]
  | y :: l' => if TransactionIdPrecedes y x then y :: xid_insert x l' else x :: l
  end.

Definition sort_xids (l : list TransactionId) : list TransactionId := foldr xid_insert [] l.

(** The loop that adds the sorted ids; [prev] is the id before. *)
Fixpoint add_sorted (clock : Z * Z) (prev : option TransactionId) (l : list TransactionId) (k : KnownXids)
    : result KnownError KnownXids :=
  match l with
  | [] => Ok k
  | x :: l =>
      if bool_decide (prev = Some x) then add_sorted clock (Some x) l k
      else k ← KnownAssignedXidsAdd x x clock k; add_sorted clock (Some x) l k
  end.

(** [while (TransactionIdPrecedes(latestObservedXid, running->nextXid))] *)
Fixpoint extend_until (fuel : nat) (latest nextXid : TransactionId) (c : Slru) : TransactionId * Slru :=
  match fuel with
  | O => (latest, c)
  | S n =>
      if TransactionIdPrecedes latest nextXid
      then extend_until n (TransactionIdAdvance latest) nextXid (ExtendSUBTRANS latest c)
      else (latest, c)
  end.

(** The part from "Nobody else is running yet" on: start from the snapshot. *)
Definition start_from_snapshot (DidCommit DidAbort : TransactionId -> bool) (clock : Z * Z)
    (running : RunningTransactionsData) (s : Standby) : result StandbyError Standby :=
  let xids := filter (fun xid => DidCommit xid || DidAbort xid = false)
                (take (Z.to_nat (xcnt running + subxcnt running)) (rx_xids running)) in
  s ← (if (0 <? length xids)%nat then
         if numKnownAssignedXids (knownXids (shared s)) != 0 then Err KnownAssignedXidsIsNotEmpty
         else k ← lift_known (add_sorted clock None (sort_xids xids) (knownXids (shared s))); Ok (set_known k s)
       else Ok s);
  let latest := TransactionIdAdvance (latestObservedXid s) in
  let '(latest, c) := extend_until (Z.to_nat (xid_age latest (rx_nextXid running))) latest (rx_nextXid running)
                        (subtrans s) in
  let latest := TransactionIdRetreat latest in
  let s := set_observed latest (set_subtrans c s) in
  let s := if subxid_overflow running
           then set_overflow latest (set_pending latest (set_standbyState STANDBY_SNAPSHOT_PENDING s))
           else set_pending InvalidTransactionId (set_standbyState STANDBY_SNAPSHOT_READY s) in
  let sh := MaintainLatestCompletedXidRecovery (rx_latestCompletedXid running) (shared s) in
  Ok (set_shared (advance_next_past latest sh) s).

Definition ProcArrayApplyRecoveryInfo (DidCommit DidAbort prepared : TransactionId -> bool) (clock : Z * Z)
    (running : RunningTransactionsData) (s : Standby) : result StandbyError Standby :=
  let s := ExpireOldKnownAssignedTransactionIds prepared clock (oldestRunningXid running) s in
  match standbyState s with
  | STANDBY_SNAPSHOT_READY => Ok s
  | STANDBY_SNAPSHOT_PENDING =>
      if negb (subxid_overflow running) || (xcnt running =? 0) then
        let s := set_standbyState STANDBY_INITIALIZED (set_known (KnownAssignedXidsReset (knownXids (shared s))) s) in
        start_from_snapshot DidCommit DidAbort clock running s
      else if TransactionIdPrecedes (standbySnapshotPendingXmin s) (oldestRunningXid running)
      then Ok (set_standbyState STANDBY_SNAPSHOT_READY s)
      else Ok s
  | _ => start_from_snapshot DidCommit DidAbort clock running s
  end.
