(* ===== verification/StandbyLinks.v ===== *)
(** * StandbyLinks: pg_subtrans on a standby

    A standby extends pg_subtrans by the ids it observes and links
    subtransactions directly to their top-level transactions.  [links_ok]
    describes its contents up to the last observed id; here it is shown to be
    preserved by the extension loops of Standby.v and by the assignment of
    parents, which never undo a link. *)

From S2P Require Import Prelude TransactionId Slru Subtrans Standby.

Lemma xid_age_nonneg o x : 0 <= xid_age o x.
Proof. unfold xid_age. cint. Qed.

(** Nothing lies between an id and its successor. *)
Lemma TransactionIdAdvance_window o x :
  in_window o x -> xid_age o x + 4 < 2 ^ 31 ->
  in_window o (TransactionIdAdvance x) /\ xid_age o x < xid_age o (TransactionIdAdvance x) <= xid_age o x + 4 /\
  forall y, normal_xid y -> xid_age o x < xid_age o y -> xid_age o (TransactionIdAdvance x) <= xid_age o y.
Proof.
  intros [Hx Ha] Hr. unfold TransactionIdAdvance. revert Hx Ha Hr. xid_unfold. intros Hx Ha Hr.
  destruct (Z.eqb_spec x 4294967295) as [->|Hne].
  - change (u32 (4294967295 + 1) <? 3) with true. cbv iota. split_and!; try (intros y Hy); cint.
  - rewrite (u32_small (x + 1)) by (unfold is_u32; lia). replace (x + 1 <? 3) with false by lia.
    split_and!; try (intros y Hy); cint.
Qed.

Lemma TransactionIdRetreat_Advance x : normal_xid x -> TransactionIdRetreat (TransactionIdAdvance x) = x.
Proof.
  intros Hx. unfold TransactionIdAdvance. revert Hx. xid_unfold. intros Hx.
  destruct (Z.eqb_spec x 4294967295) as [->|Hne]; [by vm_compute|].
  rewrite (u32_small (x + 1)) by (unfold is_u32; lia). replace (x + 1 <? 3) with false by lia.
  rewrite TransactionIdRetreat_normal by (unfold normal_xid, FirstNormalTransactionId; lia).
  unfold FirstNormalTransactionId. case_if; bool_simpl; lia.
Qed.


Section Links.
Context (topmost : TransactionId -> TransactionId) (o base : TransactionId).

(** Up to [hi], and on the rest of the page of [hi], an id from [base] on has
    no parent or is linked to its top-level transaction; what follows [hi] has
    none. *)
Record links_ok (c : Slru) (hi : TransactionId) : Prop := {
  lk_wf : subtrans_wf c;
  lk_links : forall y, in_window o y -> xid_age o base <= xid_age o y ->
    xid_age o y <= xid_age o hi \/ subtrans_page y = subtrans_page hi ->
    SubTransGetParent c y = Ok InvalidTransactionId \/
    SubTransGetParent c y = Ok (topmost y) /\ topmost y <> y /\ xid_age o y <= xid_age o hi;
}.

Definition kept (hi : TransactionId) (c c' : Slru) : Prop :=
  forall y, in_window o y -> xid_age o y <= xid_age o hi -> SubTransGetParent c' y = SubTransGetParent c y.

Lemma extended_page x y :
  in_window o x -> xid_age o x + 4 < 2 ^ 31 -> in_window o y -> xid_age o y <= xid_age o x ->
  TransactionIdToEntry (TransactionIdAdvance x) = 0 \/ TransactionIdAdvance x = FirstNormalTransactionId ->
  subtrans_page y <> subtrans_page (TransactionIdAdvance x).
Proof.
  intros Hx Hr Hy Hle He Hp. destruct (TransactionIdAdvance_window o x Hx Hr) as ([Hn Hw] & [Hlt Hle'] & _).
  set (z := TransactionIdAdvance x) in *. clearbody z. destruct Hx as [Hx _], Hy as [Hy Hyw].
  assert (Hd : z <= y < z + 2048).
  { revert He Hp. unfold subtrans_page, TransactionIdToEntry. change SUBTRANS_XACTS_PER_PAGE with 2048.
    change FirstNormalTransactionId with 3. revert Hn Hy. xid_unfold. intros Hn Hy [He| ->] Hp; cint. }
  revert Hlt Hle Hn Hy Hd Hw. xid_unfold. cint.
Qed.

Lemma same_page x :
  in_window o x -> xid_age o x + 4 < 2 ^ 31 -> TransactionIdToEntry (TransactionIdAdvance x) <> 0 ->
  TransactionIdAdvance x <> FirstNormalTransactionId -> subtrans_page (TransactionIdAdvance x) = subtrans_page x.
Proof.
  intros [Hx _] _. unfold TransactionIdAdvance. revert Hx. unfold subtrans_page, TransactionIdToEntry.
  change SUBTRANS_XACTS_PER_PAGE with 2048. xid_unfold. intros Hx.
  destruct (Z.eqb_spec x 4294967295) as [->|Hne]; [by vm_compute|].
  rewrite (u32_small (x + 1)) by (unfold is_u32; lia). replace (x + 1 <? 3) with false by lia. intros. cint.
Qed.

Lemma SubTransGetParent_zero pageno c y :
  SubTransGetParent (ZeroSUBTRANSPage pageno c) y
  = if decide (subtrans_page y = pageno) then Ok InvalidTransactionId else SubTransGetParent c y.
Proof.
  rewrite !SubTransGetParent_contents. unfold ZeroSUBTRANSPage. rewrite pages_zero_page.
  destruct (negb (TransactionIdIsNormal y)); case_decide; try done.
  cbn [or_err fmap option_fmap option_map]. unfold contents. cbn [fst]. by rewrite read_zero_page.
Qed.

Lemma ExtendSUBTRANS_links c x :
  in_window o x -> xid_age o x + 4 < 2 ^ 31 -> links_ok c x ->
  links_ok (ExtendSUBTRANS (TransactionIdAdvance x) c) (TransactionIdAdvance x) /\
  kept x c (ExtendSUBTRANS (TransactionIdAdvance x) c).
Proof.
  intros Hx Hr [Hwf Hl]. destruct (TransactionIdAdvance_window o x Hx Hr) as (Hz & [Hlt _] & Hnext).
  set (z := TransactionIdAdvance x) in *.
  assert (Hup : forall y, in_window o y -> xid_age o y <= xid_age o z -> xid_age o y <= xid_age o x \/ y = z).
  { intros y [Hy _] Hle. destruct (Z.le_gt_cases (xid_age o y) (xid_age o x)) as [?|Hgt]; [by left|right].
    specialize (Hnext y Hy ltac:(lia)). apply (xid_age_inj o); [done|apply Hz|lia]. }
  unfold ExtendSUBTRANS, TransactionIdEquals.
  destruct (Z.eqb_spec (TransactionIdToEntry z) 0) as [He|He], (Z.eqb_spec z FirstNormalTransactionId) as [Hf|Hf]; cbn [negb andb].
  4: { split; [|done]. pose proof (same_page x Hx Hr He Hf) as Hp. fold z in Hp. constructor; [done|].
       intros y Hy Hb Hor. destruct (Hl y Hy Hb) as [?|(? & ? & ?)]; [|by left|right; split_and!; [done|done|lia]].
       destruct Hor as [Hle|Hpg]; [|right; congruence]. destruct (Hup y Hy Hle) as [?| ->]; [by left|by right]. }
  all: (assert (Hnot : forall y, in_window o y -> xid_age o y <= xid_age o x -> subtrans_page y <> subtrans_page z)
          by (intros y Hy Hle; apply (extended_page x y); auto)).
  all: split; [|intros y Hy Hle; rewrite SubTransGetParent_zero, decide_False by auto; done].
  all: constructor; [by apply zero_page_subtrans_wf|]; intros y Hy Hb Hor; rewrite SubTransGetParent_zero;
    case_decide as Hd; [by left|]; destruct Hor as [Hle|]; [|done];
    (destruct (Hup y Hy Hle) as [Hle'| ->]; [|done]);
    (destruct (Hl y Hy Hb (or_introl Hle')) as [?|(? & ? & ?)]; [by left|right; split_and!; [done|done|lia]]).
Qed.

Lemma kept_trans hi hi' c1 c2 c3 : xid_age o hi <= xid_age o hi' -> kept hi c1 c2 -> kept hi' c2 c3 -> kept hi c1 c3.
Proof. intros Hle H1 H2 y Hy Hy'. rewrite H2, H1; [done|done|done|done|lia]. Qed.

Lemma kept_refl hi c : kept hi c c.
Proof. done. Qed.

Lemma extend_subtrans_links fuel c x xid :
  in_window o x -> in_window o xid -> xid_age o x <= xid_age o xid -> xid_age o xid + 4 < 2 ^ 31 ->
  xid_age o xid - xid_age o x <= Z.of_nat fuel -> links_ok c x ->
  links_ok (extend_subtrans fuel x xid c) xid /\ kept x c (extend_subtrans fuel x xid c).
Proof.
  revert c x. induction fuel as [|n IH]; intros c x Hx Hxid Hle Hr Hf Hl; cbn [extend_subtrans].
  { assert (x = xid) as -> by (apply (xid_age_inj o); [apply Hx|apply Hxid|lia]). done. }
  rewrite (precedes_window o) by done. destruct (Z.ltb_spec (xid_age o x) (xid_age o xid)) as [Hlt|Hge].
  2: { assert (x = xid) as -> by (apply (xid_age_inj o); [apply Hx|apply Hxid|lia]). done. }
  destruct (TransactionIdAdvance_window o x Hx ltac:(lia)) as (Hz & [Hlt' _] & Hnext).
  specialize (Hnext xid (proj1 Hxid) Hlt). destruct (ExtendSUBTRANS_links c x Hx ltac:(lia) Hl) as [Hl1 Hk1].
  destruct (IH (ExtendSUBTRANS (TransactionIdAdvance x) c) (TransactionIdAdvance x)) as [Hl2 Hk2]; [done|done|lia|lia|lia|done|].
  split; [done|]. eapply kept_trans; [|exact Hk1|exact Hk2]. lia.
Qed.

(** The other loop, which extends first: [latest] is the id after [x]. *)
Lemma extend_until_links fuel c x next :
  in_window o x -> in_window o next -> xid_age o x < xid_age o next -> xid_age o next + 4 < 2 ^ 31 ->
  xid_age o next - xid_age o (TransactionIdAdvance x) <= Z.of_nat fuel -> links_ok c x ->
  let r := extend_until fuel (TransactionIdAdvance x) next c in
  r.1 = next /\ exists hi, in_window o hi /\ TransactionIdAdvance hi = next /\ xid_age o x <= xid_age o hi < xid_age o next /\
    links_ok r.2 hi /\ kept x c r.2.
Proof.
  revert c x. induction fuel as [|n IH]; intros c x Hx Hn Hlt Hr Hf Hl; cbn [extend_until].
  all: destruct (TransactionIdAdvance_window o x Hx ltac:(lia)) as (Hz & [Hlt' Hle'] & Hnext);
    specialize (Hnext next (proj1 Hn) Hlt).
  { assert (TransactionIdAdvance x = next) as E by (apply (xid_age_inj o); [apply Hz|apply Hn|lia]).
    split; [done|]. exists x. split_and!; try done; lia. }
  rewrite (precedes_window o) by done. destruct (Z.ltb_spec (xid_age o (TransactionIdAdvance x)) (xid_age o next)) as [Hlt2|Hge].
  2: { assert (TransactionIdAdvance x = next) as E by (apply (xid_age_inj o); [apply Hz|apply Hn|lia]).
       split; [done|]. exists x. split_and!; try done; lia. }
  destruct (ExtendSUBTRANS_links c x Hx ltac:(lia) Hl) as [Hl1 Hk1].
  destruct (TransactionIdAdvance_window o (TransactionIdAdvance x) Hz ltac:(lia)) as (_ & [Hlt3 _] & _).
  destruct (IH (ExtendSUBTRANS (TransactionIdAdvance x) c) (TransactionIdAdvance x)) as (E & hi & H1 & H2 & H3 & H4 & H5);
    [done|done|lia|lia|lia|done|].
  split; [done|]. exists hi. split; [done|]. split; [done|]. split; [lia|]. split; [done|]. eapply kept_trans; [|exact Hk1|exact H5]. lia.
Qed.

(** Links that are set stay. *)
Definition grown (hi : TransactionId) (c c' : Slru) : Prop :=
  forall y p, in_window o y -> xid_age o y <= xid_age o hi -> SubTransGetParent c y = Ok p -> TransactionIdIsValid p = true ->
    SubTransGetParent c' y = Ok p.

Lemma kept_grown hi c c' : kept hi c c' -> grown hi c c'.
Proof. intros H y p Hy Hle E _. by rewrite H. Qed.

Lemma grown_trans hi hi' c1 c2 c3 : xid_age o hi <= xid_age o hi' -> grown hi c1 c2 -> grown hi' c2 c3 -> grown hi c1 c3.
Proof. intros Hle H1 H2 y p Hy Hy' E Hv. eapply H2; [done|lia| |done]. by eapply H1. Qed.

Lemma set_parents_links subxids top c c' hi :
  in_window o hi -> in_window o top -> links_ok c hi ->
  Forall (fun y => in_window o y /\ xid_age o base <= xid_age o y <= xid_age o hi /\ topmost y = top /\ y <> top) subxids ->
  set_parents subxids top c = Ok c' ->
  links_ok c' hi /\ grown hi c c' /\ forall y, y ∈ subxids -> SubTransGetParent c' y = Ok top.
Proof.
  intros Hhi Htop. revert c. induction subxids as [|x xs IH]; intros c Hl Hall; cbn [set_parents].
  { intros [= <-]. split_and!; [done|by apply kept_grown|]. intros y Hy. by apply not_elem_of_nil in Hy. }
  inversion Hall as [|? ? (Hx & [Hb Hle] & Ht & Hne) Hall']; subst. destruct (SubTransSetParent x (topmost x) c) as [c1|] eqn:E1; [|done].
  cbn [mbind result_bind]. intros Hset. destruct Hl as [Hwf Hl].
  assert (Htu : is_u32 (topmost x)) by (destruct Htop as [[? ?] _]; unfold is_u32; revert H; xid_unfold; lia).
  pose proof (SubTransSetParent_wf x _ c c1 Hwf Htu E1) as Hwf1.
  destruct (SubTransSetParent_links x _ c c1 (normal_TransactionIdIsNormal _ (proj1 Hx)) Hwf E1) as [Hself Hother].
  assert (Hl1 : links_ok c1 hi).
  { constructor; [done|]. intros y Hy Hby Hor. destruct (decide (y = x)) as [->|Hyx]; [right; by split_and!|].
    rewrite Hother by done. by apply Hl. }
  destruct (IH c1 Hl1 Hall' Hset) as (Hl2 & Hg & Hset2).
  assert (Hg1 : grown hi c c1).
  { intros y p Hy Hy' E Hv. destruct (decide (y = x)) as [->|Hyx]; [|by rewrite Hother].
    destruct (Hl x Hx Hb (or_introl Hle)) as [E0|(E0 & _)]; [|congruence]. rewrite E0 in E. by injection E as <-. }
  split_and!; [done|eapply (grown_trans hi hi); [lia|exact Hg1|exact Hg]|].
  intros y [->|Hy]%elem_of_cons; [|by apply Hset2].
  apply (Hg x (topmost x)); [done|done|done|]. apply normal_TransactionIdIsValid, Htop.
Qed.
End Links.
