(* ===== verification/StandbyInv.v ===== *)
(** * StandbyInv: what a standby knows of its primary

    A history says which transactions of the primary have ended.  The
    invariant [standby_ok] relates it to the state of Standby.v: every open
    transaction that was observed is among the known ids, or is a
    subtransaction that was thrown away and is linked to its top-level
    transaction.  Each operation preserves it, on the conditions that the
    records of a primary satisfy, and fails only for lack of space. *)

From stdpp Require Import sorting.
From S2P Require Import Prelude TransactionId Slru Subtrans KnownXids KnownRefine ProcArray ProcRun ProcReaders.
From S2P Require Import Standby StandbyLinks.

(** [ended]: no longer running; [recorded]: by a record of its end. *)
Record History := mkHistory {
  ended : TransactionId -> Prop;
  recorded : TransactionId -> Prop;
}.

Definition ok_or_full (P : Standby -> Prop) (r : result StandbyError Standby) : Prop :=
  match r with
  | Ok s => P s
  | Err (KnownXidsError TooManyKnownAssignedXids) => True
  | Err _ => False
  end.

Lemma ok_or_full_bind (P Q : Standby -> Prop) r f :
  ok_or_full P r -> (forall s, P s -> ok_or_full Q (f s)) -> ok_or_full Q (s ← r; f s).
Proof. destruct r as [s|e]; cbn; [|done]. intros HP Hf. by apply Hf. Qed.

Abbreviation known_of s := (knownXids (shared s)) (only parsing).

Section Inv.
Context (topmost : TransactionId -> TransactionId) (o base : TransactionId).

(** Transactions form trees: a top-level transaction precedes its
    descendants. *)
Record tree_ok : Prop := {
  tr_window : forall x, in_window o x -> in_window o (topmost x);
  tr_older : forall x, in_window o x -> xid_age o (topmost x) <= xid_age o x;
  tr_idem : forall x, in_window o x -> topmost (topmost x) = topmost x;
}.

Definition room_for (x : TransactionId) : Prop := in_window o x /\ xid_age o x + 4 < 2 ^ 31.

Definition opens (s : Standby) (H : History) (x : TransactionId) : Prop :=
  in_window o x /\ xid_age o x <= xid_age o (latestObservedXid s) /\ ~ ended H x.

(** Dropped from the known ids, but linked. *)
Definition thrown (s : Standby) (x : TransactionId) : Prop :=
  topmost x <> x /\ TransactionIdIsValid (lastOverflowedXid (shared s)) = true /\
  xid_age o x <= xid_age o (lastOverflowedXid (shared s)) /\ SubTransGetParent (subtrans s) x = Ok (topmost x).

(** Left out by an overflowed snapshot of the primary. *)
Definition missing (s : Standby) (x : TransactionId) : Prop :=
  standbyState s = STANDBY_SNAPSHOT_PENDING /\ topmost x <> x /\ xid_age o x <= xid_age o (standbySnapshotPendingXmin s).

Definition latest_done (s : Standby) : TransactionId := latest_xid (shared s).

Record standby_ok (s : Standby) (H : History) : Prop := {
  sk_enabled : standbyState s <> STANDBY_DISABLED;
  sk_observed : room_for (latestObservedXid s) /\ xid_age o base <= xid_age o (latestObservedXid s);
  sk_known : known_ok o (known_of s);
  sk_entries : forall x, x ∈ (entries (known_of s)).*1 -> xid_age o x <= xid_age o (latestObservedXid s);
  sk_initial : standbyState s = STANDBY_INITIALIZED -> entries (known_of s) = [];
  sk_links : links_ok topmost o base (subtrans s) (latestObservedXid s);
  sk_ended : forall x, normal_xid x -> ended H x -> xid_age o x <= xid_age o (latestObservedXid s);
  sk_base : forall x, opens s H x -> xid_age o base <= xid_age o x;
  sk_live : forall x, x ∈ known (known_of s) -> ~ ended H x;
  sk_parents : forall x, opens s H x -> ~ ended H (topmost x);
  sk_overflow : TransactionIdIsValid (lastOverflowedXid (shared s)) = true -> in_window o (lastOverflowedXid (shared s));
  sk_pending : standbyState s = STANDBY_SNAPSHOT_PENDING -> in_window o (standbySnapshotPendingXmin s);
  sk_accounted : standbyState s <> STANDBY_INITIALIZED ->
    forall x, opens s H x -> x ∈ known (known_of s) \/ thrown s x \/ missing s x;
  sk_latest : TransactionIdIsValid (latest_done s) = true ->
    in_window o (latest_done s) /\ xid_age o (latest_done s) <= xid_age o (latestObservedXid s);
  sk_started : standbyState s <> STANDBY_INITIALIZED -> TransactionIdIsValid (latest_done s) = true;
  sk_recorded : forall x, recorded H x -> ended H x /\ TransactionIdIsValid (latest_done s) = true /\
    xid_age o x <= xid_age o (latest_done s);
}.

Hypothesis Htree : tree_ok.

Lemma known_window s H x : standby_ok s H -> x ∈ known (known_of s) -> in_window o x.
Proof. intros Hok Hx. eapply xid_sorted_elem; [|exact Hx]. apply known_sorted, Hok. Qed.

Lemma known_entries k x : x ∈ known k -> x ∈ (entries k).*1.
Proof. intros Hx. apply elem_of_valid_xids in Hx. by apply (list_elem_of_fmap_2 fst) in Hx. Qed.

(** The parts of the state that matter. *)
Definition same_view (s s' : Standby) : Prop :=
  standbyState s' = standbyState s /\ latestObservedXid s' = latestObservedXid s /\ subtrans s' = subtrans s /\
  standbySnapshotPendingXmin s' = standbySnapshotPendingXmin s /\ knownXids (shared s') = knownXids (shared s) /\
  lastOverflowedXid (shared s') = lastOverflowedXid (shared s) /\ latest_done s' = latest_done s.

Lemma standby_ok_view s s' H : same_view s s' -> standby_ok s H -> standby_ok s' H.
Proof.
  intros (E1 & E2 & E3 & E4 & E5 & E6 & E7) [K0 K1 K2 K3 K4 K5 K6 K7 K8 K9 K10 K11 K12 K13 K14 K15].
  assert (Eo : forall x, opens s' H x <-> opens s H x) by (intros x; unfold opens; by rewrite E2).
  assert (Et : forall x, thrown s' x <-> thrown s x) by (intros x; unfold thrown; by rewrite E3, E6).
  assert (Em : forall x, missing s' x <-> missing s x) by (intros x; unfold missing; by rewrite E1, E4).
  constructor; rewrite ?E1, ?E2, ?E3, ?E4, ?E5, ?E6, ?E7; try done.
  - intros x Hx. by apply K7, Eo.
  - intros x Hx. by apply K9, Eo.
  - intros Hs x Hx. rewrite Et, Em. by apply K12, Eo.
Qed.

(** ** Completed ids *)

Lemma maintain_recovery sh x hi :
  in_window o x -> xid_age o x <= xid_age o hi ->
  (TransactionIdIsValid (latest_xid sh) = true -> in_window o (latest_xid sh) /\ xid_age o (latest_xid sh) <= xid_age o hi) ->
  let sh' := MaintainLatestCompletedXidRecovery x sh in
  TransactionIdIsValid (latest_xid sh') = true /\ in_window o (latest_xid sh') /\
  xid_age o x <= xid_age o (latest_xid sh') <= xid_age o hi /\
  (TransactionIdIsValid (latest_xid sh) = true -> xid_age o (latest_xid sh) <= xid_age o (latest_xid sh')).
Proof.
  intros Hx Hxh Hl sh'. unfold sh', MaintainLatestCompletedXidRecovery. clear sh'.
  assert (Hu : is_u32 x) by (destruct Hx as [Hn _]; revert Hn; unfold is_u32; xid_unfold; lia).
  pose proof (normal_TransactionIdIsValid _ (proj1 Hx)) as Hv.
  change (FullTransactionIdIsValid (latestCompletedXid sh)) with (TransactionIdIsValid (latest_xid sh)).
  change (XidFromFullTransactionId (latestCompletedXid sh)) with (latest_xid sh).
  set (sh1 := set_completed _ _ sh). assert (E1 : latest_xid sh1 = x) by (by apply XidFromFull_relative).
  destruct (TransactionIdIsValid (latest_xid sh)) eqn:Hvl; cbn [negb orb].
  - destruct (Hl eq_refl) as [Hw Hlh]. rewrite (precedes_window o) by done. case_if; bool_simpl.
    + rewrite E1. split_and!; try done; intros; lia.
    + split_and!; try done; intros; lia.
  - rewrite E1. split_and!; try done; lia.
Qed.

Lemma count_completion_latest sh : latest_xid (count_completion sh) = latest_xid sh.
Proof. done. Qed.

Lemma advance_next_past_frame x sh :
  knownXids (advance_next_past x sh) = knownXids sh /\ lastOverflowedXid (advance_next_past x sh) = lastOverflowedXid sh /\
  latest_xid (advance_next_past x sh) = latest_xid sh.
Proof. unfold advance_next_past. by case_if. Qed.

Lemma maintain_recovery_frame x sh :
  knownXids (MaintainLatestCompletedXidRecovery x sh) = knownXids sh /\
  lastOverflowedXid (MaintainLatestCompletedXidRecovery x sh) = lastOverflowedXid sh.
Proof. unfold MaintainLatestCompletedXidRecovery. by case_if. Qed.

(** ** Observing ids *)

(** The ids after the last observed one, up to [x], belong to transactions
    that have not ended. *)
Definition fresh_until (s : Standby) (H : History) (x : TransactionId) : Prop :=
  forall y, in_window o y -> xid_age o (latestObservedXid s) < xid_age o y <= xid_age o x -> ~ ended H (topmost y).

Definition later (s s' : Standby) : Prop :=
  xid_age o (latestObservedXid s) <= xid_age o (latestObservedXid s') /\
  grown o (latestObservedXid s) (subtrans s) (subtrans s').

Lemma extended s x :
  room_for (latestObservedXid s) -> room_for x -> xid_age o (latestObservedXid s) < xid_age o x ->
  links_ok topmost o base (subtrans s) (latestObservedXid s) ->
  let c := extend_subtrans (Z.to_nat (xid_age (latestObservedXid s) x)) (latestObservedXid s) x (subtrans s) in
  links_ok topmost o base c x /\ kept o (latestObservedXid s) (subtrans s) c.
Proof.
  intros [Hl _] [Hx Hr] Hlt Hk c. apply extend_subtrans_links; [done|done|lia|done| |done].
  rewrite (xid_age_diff o _ _ (proj1 Hl) (proj1 Hx)) by lia. lia.
Qed.

Lemma RecordKnownAssignedTransactionIds_ok clock x s H :
  standby_ok s H -> room_for x -> fresh_until s H x ->
  ok_or_full (fun s' => standby_ok s' H /\ later s s' /\ standbyState s' = standbyState s /\
    xid_age o x <= xid_age o (latestObservedXid s') /\
    (latestObservedXid s' = latestObservedXid s \/ latestObservedXid s' = x))
    (RecordKnownAssignedTransactionIds clock x s).
Proof.
  intros Hok Hx Hf. pose proof Hok as [K0 [K1 K1'] K2 K3 K4 K5 K6 K7 K8 K9 K10 K11 K12 K13 K14 K15].
  unfold RecordKnownAssignedTransactionIds. rewrite (follows_window o) by first [apply K1|apply Hx].
  destruct (Z.ltb_spec (xid_age o (latestObservedXid s)) (xid_age o x)) as [Hlt|Hge].
  2: { cbn. split; [done|]. split; [split; [lia|by apply kept_grown]|]. split; [done|]. split; [done|by left]. }
  destruct (extended s x K1 Hx Hlt K5) as [Hlinks Hkept]. set (c := extend_subtrans _ _ _ _) in *.
  assert (Hopen : forall y, in_window o y -> xid_age o y <= xid_age o x -> ~ ended H y ->
    opens s H y \/ xid_age o (latestObservedXid s) < xid_age o y <= xid_age o x).
  { intros y Hy Hle Hne. destruct (Z.le_gt_cases (xid_age o y) (xid_age o (latestObservedXid s))); [by left|right; lia]. }
  destruct (TransactionIdAdvance_window o (latestObservedXid s) (proj1 K1) (proj2 K1)) as (Ha & [Ha1 _] & Ha3).
  destruct (decide (standbyState s = STANDBY_INITIALIZED)) as [Hi|Hi].
  - cbn [standbyState set_subtrans]. rewrite Hi. cbn. split; [|split; [split; [cbn; lia|by apply kept_grown]|split; [by symmetry|split; [done|by right]]]].
    rewrite (K4 Hi) in *. constructor; cbn [standbyState shared subtrans latestObservedXid set_observed set_subtrans standbySnapshotPendingXmin]; try done.
    + split; [done|lia].
    + rewrite (K4 Hi). intros y Hy. by apply not_elem_of_nil in Hy.
    + intros y Hn Hy. specialize (K6 y Hn Hy). lia.
    + intros y (Hy & Hle & Hne). destruct (Hopen y Hy Hle Hne) as [Hop|?]; [by apply K7|lia].
    + intros y (Hy & Hle & Hne). destruct (Hopen y Hy Hle Hne) as [Hop|?]; [by apply K9|by apply Hf].
    + intros Hv. destruct (K13 Hv) as [Hw Hle]. split; [exact Hw|]. apply (Z.le_trans _ _ _ Hle). lia.
  - assert (Hbr : forall A (a b : A), match standbyState s with STANDBY_DISABLED | STANDBY_INITIALIZED => a | _ => b end = b)
      by (intros; by destruct (standbyState s)).
    cbn [standbyState set_subtrans shared]. rewrite Hbr.
    pose proof (KnownAssignedXidsAdd_spec o (TransactionIdAdvance (latestObservedXid s)) x clock (known_of s) K2 Ha (proj1 Hx)
      (Ha3 x (proj1 (proj1 Hx)) Hlt) ltac:(change FirstNormalTransactionId with 3; destruct Hx; lia)) as Hadd.
    destruct (xid_run_between o (TransactionIdAdvance (latestObservedXid s)) x Ha (proj1 Hx)
      (Ha3 x (proj1 (proj1 Hx)) Hlt) ltac:(change FirstNormalTransactionId with 3; destruct Hx; lia)) as (_ & _ & Hrun).
    set (run := xid_run _ _) in *.
    destruct (KnownAssignedXidsAdd _ _ _ _) as [k|[]]; cbn [lift_known mbind result_bind].
    2: { cbn. apply Hadd. unfold all_older. apply Forall_forall. intros y Hy. specialize (K3 y Hy). lia. }
    2: { done. }
    destruct Hadd as (_ & Hk & Ek & _ & He).
    set (s1 := set_observed x _). destruct (advance_next_past_frame x (shared s1)) as (F1 & F2 & F3).
    cbn. split; [|split; [split; [cbn; lia|by apply kept_grown]|split; [done|split; [done|by right]]]].
    apply (standby_ok_view s1); [by split_and!|].
    assert (Hth : forall y, in_window o y -> xid_age o y <= xid_age o (latestObservedXid s) -> thrown s y -> thrown s1 y).
    { intros y Hy Hle (T1 & T2 & T3 & T4). split_and!; try done. change (SubTransGetParent c y = Ok (topmost y)).
      by rewrite Hkept. }
    constructor; cbn [s1 standbyState shared subtrans latestObservedXid set_observed set_subtrans set_shared
      standbySnapshotPendingXmin set_known knownXids set_standby lastOverflowedXid]; try done.
    + split; [done|lia].
    + intros y Hy. destruct (He y Hy) as [Hy'|Hy']; [specialize (K3 y Hy'); lia|apply Hrun in Hy'; lia].
    + intros y Hn Hy. specialize (K6 y Hn Hy). lia.
    + intros y (Hy & Hle & Hne). destruct (Hopen y Hy Hle Hne) as [Hop|?]; [by apply K7|lia].
    + rewrite Ek. intros y [Hy|Hy]%elem_of_app; [by apply K8|]. apply Hrun in Hy as [Hn Hy]. intros He'. specialize (K6 y Hn He'). lia.
    + intros y (Hy & Hle & Hne). destruct (Hopen y Hy Hle Hne) as [Hop|?]; [by apply K9|by apply Hf].
    + intros _ y (Hy & Hle & Hne). rewrite Ek. destruct (Hopen y Hy Hle Hne) as [Hop|Hnew].
      * destruct (K12 Hi y Hop) as [?|[?|?]]; [left; apply elem_of_app; by left|right; left; apply Hth; [done|apply Hop|done]|by right; right].
      * left. apply elem_of_app. right. apply Hrun. split; [apply Hy|]. split; [apply Ha3; [apply Hy|lia]|lia].
    + intros Hv. destruct (K13 Hv) as [Hw Hle]. split; [exact Hw|]. apply (Z.le_trans _ _ _ Hle). lia.
Qed.

(** ** Ends of transactions *)

Definition end_tree (tree : list TransactionId) (H : History) : History :=
  mkHistory (fun x => ended H x \/ x ∈ tree) (fun x => recorded H x \/ x ∈ tree).

Lemma narrowed_entries k k' : narrowed k k' -> forall x, x ∈ (entries k').*1 -> x ∈ (entries k).*1.
Proof. intros [] x Hx. by eapply elem_of_sublist. Qed.

Lemma narrowed_empty k k' : narrowed k k' -> entries k = [] -> entries k' = [].
Proof.
  intros Hn E. pose proof (na_slots _ _ Hn) as Hs. rewrite E in Hs. apply sublist_nil_r in Hs.
  by apply fmap_nil_inv in Hs.
Qed.

Lemma ExpireTreeKnownAssignedTransactionIds_ok clock x subxids max_xid s H :
  standby_ok s H -> Forall (in_window o) (x :: subxids) -> in_window o max_xid ->
  xid_age o max_xid <= xid_age o (latestObservedXid s) ->
  Forall (fun y => xid_age o y <= xid_age o max_xid) (x :: subxids) ->
  (forall y, opens s H y -> topmost y ∈ x :: subxids -> y ∈ x :: subxids) ->
  standby_ok (ExpireTreeKnownAssignedTransactionIds clock x subxids max_xid s) (end_tree (x :: subxids) H).
Proof.
  intros [K0 K1 K2 K3 K4 K5 K6 K7 K8 K9 K10 K11 K12 K13 K14 K15] Hw Hm Hmo Hmax Hclosed.
  assert (Etree : tree_xids x subxids = x :: subxids).
  { unfold tree_xids. rewrite normal_TransactionIdIsValid; [done|]. by inversion Hw as [|? ? [? _]]. }
  destruct (KnownAssignedXidsRemoveTree_spec o x subxids clock (known_of s) K2) as [Hn Hk]; [by rewrite Etree|]. rewrite Etree in Hk.
  rewrite Forall_forall in Hw, Hmax. unfold ExpireTreeKnownAssignedTransactionIds.
  set (k := KnownAssignedXidsRemoveTree _ _ _ _) in *. set (s1 := set_known k s).
  destruct (maintain_recovery_frame max_xid (shared s1)) as [F1 F2].
  destruct (maintain_recovery (shared s1) max_xid (latestObservedXid s) Hm Hmo K13) as (M1 & M2 & M3 & M4).
  set (sh := MaintainLatestCompletedXidRecovery max_xid (shared s1)) in *.
  assert (Hopen : forall y, opens s (end_tree (x :: subxids) H) y -> opens s H y /\ y ∉ x :: subxids).
  { intros y (? & ? & Hne). split; [split_and!; try done; intros ?; apply Hne; by left|intros ?; apply Hne; by right]. }
  constructor; cbn [standbyState shared subtrans latestObservedXid set_shared standbySnapshotPendingXmin];
    change (knownXids (count_completion sh)) with (knownXids sh);
    change (lastOverflowedXid (count_completion sh)) with (lastOverflowedXid sh); rewrite ?F1, ?F2; try done.
  - by eapply narrowed_ok.
  - intros y Hy. by apply K3, (narrowed_entries _ _ Hn).
  - intros Hi. eapply narrowed_empty; [exact Hn|by apply K4].
  - intros y Hny [Hy|Hy]; [by apply K6|]. exact (Z.le_trans _ _ _ (Hmax y Hy) Hmo).
  - intros y [Hy _]%Hopen. by apply K7.
  - change (knownXids (shared s1)) with k. rewrite Hk. intros y [Hy Hin]%list_elem_of_filter [He|He]; [by apply (K8 y)|done].
  - intros y [Hy Hin]%Hopen [He|He]; [by apply (K9 y)|]. apply Hin, Hclosed; done.
  - intros Hi y [Hy Hin]%Hopen. change (knownXids (shared s1)) with k. rewrite Hk. destruct (K12 Hi y Hy) as [?|[Ht|Ht]].
    + left. by apply list_elem_of_filter.
    + right; left. unfold thrown in *. cbn [shared set_shared subtrans]. change (lastOverflowedXid (count_completion sh)) with (lastOverflowedXid sh).
      by rewrite F2.
    + by right; right.
  - intros _. split; [done|apply M3].
  - intros y [Hr|Hr].
    + destruct (K15 y Hr) as (He & Hv & Hle). split; [by left|]. split; [done|]. specialize (M4 Hv).
      apply (Z.le_trans _ _ _ Hle). exact M4.
    + split; [by right|]. split; [done|]. specialize (Hmax y Hr). apply (Z.le_trans _ _ _ Hmax), M3.
Qed.

(** ** Pruning *)

Definition prune (oldest : TransactionId) (s : Standby) (H : History) : History :=
  mkHistory (fun x => ended H x \/ in_window o x /\ xid_age o x < xid_age o oldest /\ xid_age o x <= xid_age o (latestObservedXid s))
    (recorded H).

Definition prune_ok (prepared : TransactionId -> bool) (oldest : TransactionId) (s : Standby) (H : History) : Prop :=
  in_window o oldest /\
  forall x, opens s H x -> if xid_age o x <? xid_age o oldest then prepared x = false
                           else xid_age o oldest <= xid_age o (topmost x).

Lemma prune_opens oldest s H x :
  opens s (prune oldest s H) x -> opens s H x /\ xid_age o oldest <= xid_age o x.
Proof.
  intros (Hx & Hle & Hne). split; [split_and!; try done; intros ?; apply Hne; by left|].
  destruct (Z.le_gt_cases (xid_age o oldest) (xid_age o x)); [done|]. exfalso. apply Hne. by right.
Qed.

Lemma ExpireOldKnownAssignedTransactionIds_ok prepared clock oldest s H :
  standby_ok s H -> prune_ok prepared oldest s H ->
  standby_ok (ExpireOldKnownAssignedTransactionIds prepared clock oldest s) (prune oldest s H).
Proof.
  intros Hok [Hw Hp]. pose proof Hok as [K0 K1 K2 K3 K4 K5 K6 K7 K8 K9 K10 K11 K12 K13 K14 K15].
  destruct (KnownAssignedXidsRemovePreceding_spec o prepared oldest clock (known_of s) K2 Hw) as [Hn Hk].
  unfold ExpireOldKnownAssignedTransactionIds.
  set (s1 := if TransactionIdPrecedes _ _ then _ else _).
  assert (E1 : knownXids (shared s1) = knownXids (shared s) /\ standbyState s1 = standbyState s /\
    latestObservedXid s1 = latestObservedXid s /\ subtrans s1 = subtrans s /\
    standbySnapshotPendingXmin s1 = standbySnapshotPendingXmin s /\ latest_done s1 = latest_done s)
    by (unfold s1; case_if; done).
  destruct E1 as (E1 & E2 & E3 & E4 & E5 & E6). rewrite E1.
  set (k := KnownAssignedXidsRemovePreceding _ _ _ _) in *.
  assert (Eo : forall H' x, opens (set_known k s1) H' x -> opens s H' x).
  { intros H' x (Hx & Hle & Hne). split_and!; [done|cbn in Hle; by rewrite E3 in Hle|done]. }
  assert (Hlast : lastOverflowedXid (shared s1) = InvalidTransactionId \/ lastOverflowedXid (shared s1) = lastOverflowedXid (shared s)).
  { unfold s1. case_if; [by left|by right]. }
  assert (Hth : forall x, xid_age o oldest <= xid_age o x -> thrown s x -> thrown (set_known k s1) x).
  { intros x Hge (T1 & T2 & T3 & T4). unfold thrown. cbn. rewrite E4. unfold s1.
    rewrite (precedes_window o) by auto. replace (_ <? _) with false by lia. done. }
  constructor; cbn [set_known set_shared shared standbyState latestObservedXid subtrans standbySnapshotPendingXmin
    set_standby knownXids lastOverflowedXid]; rewrite ?E2, ?E3, ?E4, ?E5; try done.
  - by eapply narrowed_ok.
  - intros x Hx. by apply K3, (narrowed_entries _ _ Hn).
  - intros Hi. eapply narrowed_empty; [exact Hn|by apply K4].
  - intros x Hnx [Hx|(? & ? & ?)]; [by apply K6|done].
  - intros x [Hx _]%Eo%prune_opens. by apply K7.
  - rewrite Hk. intros x [Hs Hx]%list_elem_of_filter [He|(Hxw & Hlt & Hle)]; [by apply (K8 x)|].
    assert (Hop : opens s H x) by (split_and!; [done|done|by apply K8]). specialize (Hp x Hop).
    rewrite (proj2 (Z.ltb_lt _ _) Hlt) in Hp. revert Hs. unfold survives. rewrite (precedes_window o), Hp by done.
    by rewrite (proj2 (Z.ltb_lt _ _) Hlt).
  - intros x [Hx Hge]%Eo%prune_opens [He|(_ & Hlt & _)]; [by apply (K9 x)|]. specialize (Hp x Hx).
    rewrite (proj2 (Z.ltb_ge _ _) Hge) in Hp. lia.
  - destruct Hlast as [->| ->]; [done|exact K10].
  - intros Hi x [Hx Hge]%Eo%prune_opens. destruct (K12 Hi x Hx) as [Hin|[Ht|Ht]].
    + left. rewrite Hk. apply list_elem_of_filter. split; [|done]. unfold survives.
      rewrite (precedes_window o) by first [done|apply Hx]. by rewrite (proj2 (Z.ltb_ge _ _) Hge).
    + right; left. by apply Hth.
    + right; right. unfold missing in *. cbn. by rewrite E2, E5.
  - change (latest_done (set_known k s1)) with (latest_done s1). by rewrite E6.
  - change (latest_done (set_known k s1)) with (latest_done s1). by rewrite E6.
  - change (latest_done (set_known k s1)) with (latest_done s1). rewrite E6. intros x Hx.
    destruct (K15 x Hx) as (? & ? & ?). split; [by left|done].
Qed.

(** ** Assignment of subtransactions *)

Lemma TransactionIdLatest_window x l :
  in_window o x -> Forall (in_window o) l ->
  in_window o (TransactionIdLatest x l) /\ TransactionIdLatest x l ∈ x :: l /\
  Forall (fun y => xid_age o y <= xid_age o (TransactionIdLatest x l)) (x :: l).
Proof.
  intros Hx Hl. destruct (TransactionIdLatest_spec o x l Hx Hl) as [Hin Hall].
  assert (Hw : Forall (in_window o) (x :: l)) by (by constructor). rewrite Forall_forall in Hw.
  apply list_elem_of_In in Hin. split; [by apply Hw|]. split; [done|].
  rewrite Forall_forall in Hall |- *. intros y Hy. specialize (Hall y Hy).
  rewrite (precedes_or_equals_window o) in Hall by auto. lia.
Qed.

Lemma set_parents_total subxids top c hi :
  in_window o hi -> in_window o top -> links_ok topmost o base c hi ->
  Forall (fun y => in_window o y /\ xid_age o base <= xid_age o y <= xid_age o hi /\ topmost y = top /\ y <> top) subxids ->
  exists c', set_parents subxids top c = Ok c'.
Proof.
  intros Hhi Htop. revert c. induction subxids as [|x xs IH]; intros c Hl Hall; cbn [set_parents]; [by eexists|].
  inversion Hall as [|? ? Hx Hall']; subst. pose proof Hx as (Hw & [Hb Hle] & _).
  assert (Hp : is_Some (pages c !! subtrans_page x)).
  { destruct (pages c !! subtrans_page x) as [p|] eqn:Hp; [by eexists|]. exfalso.
    assert (E : SubTransGetParent c x = Err (IoError (subtrans_page x))).
    { rewrite SubTransGetParent_contents, (normal_TransactionIdIsNormal _ (proj1 Hw)), Hp. done. }
    destruct (lk_links _ _ _ _ _ Hl x Hw Hb (or_introl Hle)) as [E'|[E' _]]; congruence. }
  assert (Hs : exists c1, SubTransSetParent x top c = Ok c1).
  { destruct Hp as [p Hp]. destruct (SubTransSetParent_found x top c p Hp) as (c1 & q & _ & _ & ->). case_if; by eexists. }
  destruct Hs as [c1 E1]. rewrite E1. cbn [mbind result_bind]. apply IH; [|done].
  assert (E2 : set_parents [x] top c = Ok c1) by (cbn [set_parents]; by rewrite E1).
  by destruct (set_parents_links topmost o base [x] top c c1 hi Hhi Htop Hl (proj2 (Forall_singleton _ _) Hx) E2).
Qed.

Definition assignment_ok (topxid : TransactionId) (subxids : list TransactionId) : Prop :=
  in_window o topxid /\ Forall (fun y => in_window o y /\ xid_age o base <= xid_age o y /\ topmost y = topxid /\ y <> topxid) subxids.

(** Subtransactions that have been linked may be dropped. *)
Lemma drop_linked clock topxid subxids max_xid s H :
  standby_ok s H -> in_window o topxid -> in_window o max_xid -> standbyState s <> STANDBY_INITIALIZED ->
  Forall (fun y => in_window o y /\ xid_age o y <= xid_age o max_xid /\ topmost y = topxid /\ y <> topxid) subxids ->
  (forall y, y ∈ subxids -> SubTransGetParent (subtrans s) y = Ok topxid) ->
  let s1 := set_known (KnownAssignedXidsRemoveTree InvalidTransactionId subxids clock (known_of s)) s in
  standby_ok (if TransactionIdPrecedes (lastOverflowedXid (shared s1)) max_xid then set_overflow max_xid s1 else s1) H.
Proof.
  intros [K0 K1 K2 K3 K4 K5 K6 K7 K8 K9 K10 K11 K12 K13 K14 K15] Htop Hm Hi Hsub Hlink s1.
  rewrite Forall_forall in Hsub.
  destruct (KnownAssignedXidsRemoveTree_spec o InvalidTransactionId subxids clock (known_of s) K2) as [Hn Hk].
  { apply Forall_forall. intros y Hy. by apply Hsub. }
  change (tree_xids InvalidTransactionId subxids) with subxids in Hk. set (k := KnownAssignedXidsRemoveTree _ _ _ _) in *.
  set (last := if TransactionIdPrecedes (lastOverflowedXid (shared s)) max_xid then max_xid else lastOverflowedXid (shared s)).
  assert (Hlast : in_window o last /\ xid_age o max_xid <= xid_age o last /\
    (TransactionIdIsValid (lastOverflowedXid (shared s)) = true -> xid_age o (lastOverflowedXid (shared s)) <= xid_age o last)).
  { unfold last. destruct (TransactionIdIsValid (lastOverflowedXid (shared s))) eqn:Hv.
    - specialize (K10 eq_refl). rewrite (precedes_window o) by done. case_if; bool_simpl; split_and!; try done; intros; lia.
    - apply negb_false_iff, Z.eqb_eq in Hv. rewrite Hv.
      assert (E : TransactionIdPrecedes InvalidTransactionId max_xid = true).
      { destruct Hm as [Hm _]. revert Hm. xid_unfold. intros. cbn. lia. }
      change 0 with InvalidTransactionId. rewrite E. split_and!; try done; lia. }
  destruct Hlast as (L1 & L2 & L3). pose proof (normal_TransactionIdIsValid _ (proj1 L1)) as L0.
  assert (Hs' : (if TransactionIdPrecedes (lastOverflowedXid (shared s1)) max_xid then set_overflow max_xid s1 else s1)
    = set_overflow last s1).
  { unfold last. change (lastOverflowedXid (shared s1)) with (lastOverflowedXid (shared s)). by case_if. }
  rewrite Hs'. constructor; cbn [set_overflow s1 set_known set_shared shared standbyState latestObservedXid subtrans
    standbySnapshotPendingXmin set_standby knownXids lastOverflowedXid]; try done.
  - by eapply narrowed_ok.
  - intros x Hx. by apply K3, (narrowed_entries _ _ Hn).
  - rewrite Hk. intros x [_ Hx]%list_elem_of_filter. by apply K8.
  - intros _ x Hx. rewrite Hk. change (opens s H x) in Hx. destruct (decide (x ∈ subxids)) as [Hin|Hin].
    + destruct (Hsub x Hin) as (Hxw & Hle & Ht & Hne). right; left. unfold thrown. cbn. split_and!; [congruence|done|lia|].
      rewrite Ht. by apply Hlink.
    + destruct (K12 Hi x Hx) as [?|[(T1 & T2 & T3 & T4)|?]]; [left; by apply list_elem_of_filter| |by right; right].
      right; left. unfold thrown. cbn. split_and!; try done. specialize (L3 T2). lia.
Qed.

Lemma ProcArrayApplyXidAssignment_ok clock topxid subxids s H :
  standby_ok s H -> assignment_ok topxid subxids -> room_for (TransactionIdLatest topxid subxids) ->
  fresh_until s H (TransactionIdLatest topxid subxids) ->
  ok_or_full (fun s' => standby_ok s' H /\ later s s') (ProcArrayApplyXidAssignment clock topxid subxids s).
Proof.
  intros Hok [Htop Hsub] Hr Hf. set (mx := TransactionIdLatest topxid subxids) in *.
  destruct (TransactionIdLatest_window topxid subxids Htop) as (Hmw & _ & Hall).
  { eapply Forall_impl; [exact Hsub|]. by intros y (? & _). }
  fold mx in Hmw, Hall. inversion Hall as [|? ? _ Hall']; subst.
  unfold ProcArrayApplyXidAssignment. fold mx.
  eapply ok_or_full_bind; [by apply RecordKnownAssignedTransactionIds_ok|].
  intros s1 (Hok1 & [Hl1 Hg1] & Hst & Hmx & _). pose proof Hok1 as [_ [K1 K1'] _ _ _ K5 _ _ _ _ _ _ _ _ _ _].
  assert (Hsub1 : Forall (fun y => in_window o y /\ xid_age o base <= xid_age o y <= xid_age o (latestObservedXid s1) /\
    topmost y = topxid /\ y <> topxid) subxids).
  { rewrite Forall_forall in Hsub, Hall' |- *. intros y Hy. destruct (Hsub y Hy) as (? & ? & ? & ?).
    specialize (Hall' y Hy). split_and!; try done. lia. }
  destruct (set_parents_total subxids topxid (subtrans s1) (latestObservedXid s1) (proj1 K1) Htop K5 Hsub1) as [c Ec].
  destruct (set_parents_links topmost o base subxids topxid _ c _ (proj1 K1) Htop K5 Hsub1 Ec) as (Hlinks & Hgrown & Hset).
  rewrite Ec. cbn [lift_subtrans mbind result_bind].
  assert (Hok2 : standby_ok (set_subtrans c s1) H).
  { pose proof Hok1 as [J0 J1 J2 J3 J4 J5 J6 J7 J8 J9 J10 J11 J12 J13 J14 J15]. constructor; try done.
    intros Hi x Hx. destruct (J12 Hi x Hx) as [?|[(T1 & T2 & T3 & T4)|?]]; [by left| |by right; right].
    right; left. split_and!; try done. destruct Hx as (Hx & Hxl & _). apply (Hgrown x (topmost x)); try done.
    apply normal_TransactionIdIsValid, tr_window; done. }
  assert (Hlater : later s (set_subtrans c s1)).
  { split; [done|]. eapply grown_trans; [|exact Hg1|exact Hgrown]. done. }
  destruct (decide (standbyState s1 = STANDBY_INITIALIZED)) as [Hi|Hi].
  - cbn [set_subtrans standbyState]. rewrite Hi. done.
  - assert (Hbr : forall A (a b : A), match standbyState (set_subtrans c s1) with STANDBY_INITIALIZED => a | _ => b end = b)
      by (intros; cbn; by destruct (standbyState s1)).
    rewrite Hbr. cbn [ok_or_full]. split.
    + apply (drop_linked clock topxid subxids mx (set_subtrans c s1) H Hok2 Htop Hmw Hi); [|exact Hset].
      rewrite Forall_forall in Hsub, Hall' |- *. intros y Hy. destruct (Hsub y Hy) as (? & _ & ? & ?). auto.
    + case_if; exact Hlater.
Qed.
End Inv.
