(* ===== verification/StandbyRun.v ===== *)
(** * StandbyRun: replaying the records of a primary

    The start of tracking from a snapshot of the running transactions, and the
    replay of any sequence of records: the invariant of StandbyInv.v holds
    throughout, and replay fails only for lack of space. *)

From stdpp Require Import sorting.
From S2P Require Import Prelude TransactionId Slru Subtrans KnownXids KnownRefine ProcArray ProcRun ProcReaders.
From S2P Require Import Standby StandbyLinks StandbyInv.

(** ** Sorting and adding *)

Section Start.
Context (topmost : TransactionId -> TransactionId) (o base : TransactionId) (Htree : tree_ok topmost o).

Abbreviation older := (fun x y => xid_age o x <= xid_age o y).
Abbreviation standby_ok := (standby_ok topmost o base).
Abbreviation room_for := (room_for o).

Lemma xid_insert_perm x l : xid_insert x l ≡ₚ x :: l.
Proof.
  induction l as [|y l IH]; [done|]. cbn. case_if; [|done]. rewrite IH. by constructor.
Qed.

Lemma sort_xids_perm l : sort_xids l ≡ₚ l.
Proof. induction l as [|x l IH]; [done|]. cbn. rewrite xid_insert_perm. by constructor. Qed.

Lemma xid_insert_sorted x l :
  in_window o x -> Forall (in_window o) l -> StronglySorted older l -> StronglySorted older (xid_insert x l).
Proof.
  intros Hx. induction l as [|y l IH]; intros Hl Hs; cbn; [by repeat constructor|].
  inversion Hl as [|? ? Hy Hl']; inversion Hs as [|? ? Hs' Hall]; subst.
  rewrite (precedes_window o) by done. destruct (Z.ltb_spec (xid_age o y) (xid_age o x)) as [Hlt|Hge].
  - constructor; [by apply IH|]. rewrite Forall_forall in Hall |- *. intros z Hz. rewrite xid_insert_perm in Hz.
    apply elem_of_cons in Hz as [->|Hz]; [lia|by apply Hall].
  - constructor; [done|]. constructor; [lia|]. eapply Forall_impl; [exact Hall|]. intros z Hz. cbn in Hz. lia.
Qed.

Lemma sort_xids_sorted l : Forall (in_window o) l -> StronglySorted older (sort_xids l).
Proof.
  induction l as [|x l IH]; intros Hl; cbn; [constructor|]. inversion Hl; subst. apply xid_insert_sorted; [done| |by apply IH].
  apply Forall_forall. intros y Hy. rewrite sort_xids_perm in Hy. rewrite Forall_forall in *. auto.
Qed.

Lemma KnownAssignedXidsAdd_one x clock k :
  known_ok o k -> room_for x ->
  match KnownAssignedXidsAdd x x clock k with
  | Err OutOfOrderXidInsertion => ~ all_older o x k
  | Err TooManyKnownAssignedXids => True
  | Ok k' => known_ok o k' /\ (forall y, y ∈ known k' <-> y ∈ known k \/ y = x) /\
      forall y, y ∈ (entries k').*1 -> y ∈ (entries k).*1 \/ y = x
  end.
Proof.
  intros Hk [Hx Hr].
  pose proof (KnownAssignedXidsAdd_spec o x x clock k Hk Hx Hx ltac:(lia) ltac:(change FirstNormalTransactionId with 3; lia)) as Hadd.
  destruct (xid_run_between o x x Hx Hx ltac:(lia) ltac:(change FirstNormalTransactionId with 3; lia)) as (_ & _ & Hrun).
  set (run := xid_run _ _) in *.
  assert (Hone : forall y, y ∈ run <-> y = x).
  { intros y. rewrite Hrun. split; [intros [Hy ?]; apply (xid_age_inj o); [done|apply Hx|lia]|]. intros ->. split; [apply Hx|lia]. }
  destruct (KnownAssignedXidsAdd _ _ _ _) as [k'|[]]; [|done|done].
  destruct Hadd as (_ & Hk' & Ek & _ & He). split; [done|]. split.
  - intros y. rewrite Ek, elem_of_app. by rewrite Hone.
  - intros y Hy. rewrite <- Hone. by apply He.
Qed.

(** The ids added so far are not after [prev], which is the last of them. *)
Definition added_until (prev : option TransactionId) (k : KnownXids) : Prop :=
  match prev with
  | None => entries k = []
  | Some p => p ∈ known k /\ forall x, x ∈ (entries k).*1 -> xid_age o x <= xid_age o p
  end.

Lemma add_sorted_ok clock l prev k :
  known_ok o k -> Forall room_for l -> StronglySorted older l -> added_until prev k ->
  (forall p, prev = Some p -> Forall (older p) l) ->
  match add_sorted clock prev l k with
  | Ok k' => known_ok o k' /\ (forall x, x ∈ known k' <-> x ∈ known k \/ x ∈ l) /\
      forall x, x ∈ (entries k').*1 -> x ∈ (entries k).*1 \/ x ∈ l
  | Err TooManyKnownAssignedXids => True
  | Err OutOfOrderXidInsertion => False
  end.
Proof.
  revert prev k. induction l as [|x l IH]; intros prev k Hk Hr Hs Hu Hp; cbn [add_sorted].
  { split; [done|]. split; [intros x; rewrite elem_of_nil; tauto|]. tauto. }
  inversion Hr as [|? ? Hx Hr']; inversion Hs as [|? ? Hs' Hall]; subst.
  case_bool_decide as Hd.
  - subst prev. destruct Hu as [Hin Hu]. specialize (IH (Some x) k Hk Hr' Hs' (conj Hin Hu)).
    assert (Hall' : forall p, Some x = Some p -> Forall (older p) l) by (intros p [= <-]; done).
    specialize (IH Hall'). destruct (add_sorted clock (Some x) l k) as [k'|[]]; [|done|done].
    destruct IH as (H1 & H2 & H3). split; [done|]. split.
    + intros y. rewrite H2, elem_of_cons. split; [tauto|]. intros [?|[->|?]]; tauto.
    + intros y Hy. rewrite elem_of_cons. destruct (H3 y Hy); tauto.
  - assert (Hold : all_older o x k).
    { unfold all_older. apply Forall_forall. intros y Hy. destruct prev as [p|]; cbn in Hu.
      - destruct Hu as [Hin Hu]. specialize (Hu y Hy). specialize (Hp p eq_refl). inversion Hp as [|? ? Hpx _]; subst. cbn in Hpx.
        assert (p <> x) by congruence. assert (Hpw : in_window o p) by (eapply xid_sorted_elem; [by apply known_sorted|exact Hin]).
        assert (xid_age o p <> xid_age o x) by (intros E; by apply xid_age_inj in E; [|apply Hpw|apply Hx]). lia.
      - rewrite Hu in Hy. by apply not_elem_of_nil in Hy. }
    pose proof (KnownAssignedXidsAdd_one x clock k Hk Hx) as Hone.
    destruct (KnownAssignedXidsAdd x x clock k) as [k1|[]]; cbn [mbind result_bind]; [|done|done].
    destruct Hone as (Hk1 & Hm & He). specialize (IH (Some x) k1 Hk1 Hr' Hs').
    assert (Hu1 : added_until (Some x) k1).
    { split; [apply Hm; by right|]. intros y Hy. destruct (He y Hy) as [Hy'| ->]; [|lia].
      unfold all_older in Hold. rewrite Forall_forall in Hold. specialize (Hold y Hy'). lia. }
    assert (Hall' : forall p, Some x = Some p -> Forall (older p) l) by (intros p [= <-]; done).
    specialize (IH Hu1 Hall'). destruct (add_sorted clock (Some x) l k1) as [k'|[]]; [|done|done].
    destruct IH as (H1 & H2 & H3). split; [done|]. split.
    + intros y. rewrite H2, Hm, elem_of_cons. tauto.
    + intros y Hy. rewrite elem_of_cons. destruct (H3 y Hy) as [Hy'|]; [|tauto]. destruct (He y Hy'); tauto.
Qed.

(** ** Starting from a snapshot *)

Definition listed (r : RunningTransactionsData) : list TransactionId :=
  take (Z.to_nat (xcnt r + subxcnt r)) (rx_xids r).

(** A snapshot of the primary, and the history [H'] it reveals: the listed
    transactions have ended only if the commit log says so; an open one is
    listed, unless it is a subtransaction and the snapshot has overflowed. *)
Record snapshot_ok (DidCommit DidAbort : TransactionId -> bool) (r : RunningTransactionsData) (s : Standby)
    (H H' : History) : Prop := {
  sn_next : room_for (rx_nextXid r) /\ xid_age o (latestObservedXid s) < xid_age o (rx_nextXid r);
  sn_latest : in_window o (rx_latestCompletedXid r) /\ xid_age o (rx_latestCompletedXid r) < xid_age o (rx_nextXid r);
  sn_listed : forall x, x ∈ listed r -> in_window o x /\ xid_age o x < xid_age o (rx_nextXid r) /\
    (ended H' x <-> DidCommit x || DidAbort x = true);
  sn_extends : forall x, ended H x -> ended H' x;
  sn_before : forall x, normal_xid x -> ended H' x -> xid_age o x < xid_age o (rx_nextXid r);
  sn_open : forall x, in_window o x -> xid_age o x < xid_age o (rx_nextXid r) -> ~ ended H' x ->
    xid_age o base <= xid_age o x /\ ~ ended H' (topmost x) /\
    (x ∈ listed r \/ subxid_overflow r = true /\ topmost x <> x);
  sn_recorded : forall x, recorded H' x -> ended H' x /\
    (recorded H x \/ xid_age o x <= xid_age o (rx_latestCompletedXid r));
}.

(** The known ids after the snapshot was loaded. *)
Lemma load_snapshot DidCommit DidAbort clock r s H H' :
  standby_ok s H -> standbyState s = STANDBY_INITIALIZED -> snapshot_ok DidCommit DidAbort r s H H' ->
  let xids := filter (fun xid => DidCommit xid || DidAbort xid = false) (listed r) in
  ok_or_full (fun s1 => (s1 = s \/ exists k, s1 = set_known k s) /\ known_ok o (known_of s1) /\
      (forall x, x ∈ known (known_of s1) <-> x ∈ listed r /\ ~ ended H' x) /\
      (forall x, x ∈ (entries (known_of s1)).*1 -> x ∈ listed r))
    (if (0 <? length xids)%nat then
       if numKnownAssignedXids (knownXids (shared s)) != 0 then Err KnownAssignedXidsIsNotEmpty
       else k ← lift_known (add_sorted clock None (sort_xids xids) (knownXids (shared s))); Ok (set_known k s)
     else Ok s).
Proof.
  intros Hok Hi Hsn xids. pose proof (sk_initial _ _ _ _ _ Hok Hi) as He. pose proof (sk_known _ _ _ _ _ Hok) as Hk.
  assert (Hkn : known (known_of s) = []) by (unfold known; by rewrite He).
  assert (Hin : forall x, x ∈ xids <-> x ∈ listed r /\ ~ ended H' x).
  { intros x. unfold xids. rewrite list_elem_of_filter. split.
    - intros [Hb Hx]. split; [done|]. intros He'. apply (sn_listed _ _ _ _ _ _ Hsn x Hx) in He'. congruence.
    - intros [Hx Hne]. split; [|done]. apply not_true_iff_false. by rewrite <- (proj2 (proj2 (sn_listed _ _ _ _ _ _ Hsn x Hx))). }
  destruct (Nat.ltb_spec 0 (length xids)) as [Hpos|Hz].
  - rewrite (ko_num _ _ Hk), Hkn. cbn [length Z.of_nat Z.eqb negb].
    assert (Hroom : Forall room_for (sort_xids xids)).
    { apply Forall_forall. intros x Hx. rewrite sort_xids_perm in Hx. apply Hin in Hx as [Hx _].
      destruct (sn_listed _ _ _ _ _ _ Hsn x Hx) as (? & ? & _). destruct (sn_next _ _ _ _ _ _ Hsn) as [[_ ?] _]. split; [done|lia]. }
    assert (Hwin : Forall (in_window o) xids).
    { apply Forall_forall. intros x [Hx _]%Hin. by apply (sn_listed _ _ _ _ _ _ Hsn). }
    pose proof (add_sorted_ok clock (sort_xids xids) None (known_of s) Hk Hroom (sort_xids_sorted xids Hwin) He ltac:(done)) as Hadd.
    destruct (add_sorted _ _ _ _) as [k|[]]; cbn [lift_known mbind result_bind ok_or_full]; [|done|done].
    destruct Hadd as (H1 & H2 & H3). split; [right; by eexists|]. split; [done|]. split.
    + intros x. cbn. rewrite H2, sort_xids_perm, Hin, Hkn, elem_of_nil. tauto.
    + intros x Hx. cbn in Hx. destruct (H3 x Hx) as [Hx'|Hx']; [rewrite He in Hx'; by apply not_elem_of_nil in Hx'|].
      rewrite sort_xids_perm in Hx'. by apply Hin in Hx' as [? _].
  - cbn [ok_or_full]. split; [by left|]. split; [done|]. assert (xids = []) as E by (destruct xids; [done|cbn in Hz; lia]). split.
    + intros x. rewrite Hkn, <- Hin, E. done.
    + intros x Hx. rewrite He in Hx. by apply not_elem_of_nil in Hx.
Qed.

(** The state after the snapshot was loaded and pg_subtrans extended. *)
Lemma started_ok DidCommit DidAbort r s s1 H H' c hi :
  standby_ok s H -> snapshot_ok DidCommit DidAbort r s H H' ->
  latest_done s1 = latest_done s -> lastOverflowedXid (shared s1) = lastOverflowedXid (shared s) ->
  known_ok o (known_of s1) -> (forall x, x ∈ known (known_of s1) <-> x ∈ listed r /\ ~ ended H' x) ->
  (forall x, x ∈ (entries (known_of s1)).*1 -> x ∈ listed r) ->
  room_for hi -> TransactionIdAdvance hi = rx_nextXid r -> xid_age o (latestObservedXid s) <= xid_age o hi ->
  links_ok topmost o base c hi ->
  let s2 := set_observed hi (set_subtrans c s1) in
  let s3 := if subxid_overflow r
            then set_overflow hi (set_pending hi (set_standbyState STANDBY_SNAPSHOT_PENDING s2))
            else set_pending InvalidTransactionId (set_standbyState STANDBY_SNAPSHOT_READY s2) in
  standby_ok (set_shared (MaintainLatestCompletedXidRecovery (rx_latestCompletedXid r) (shared s3)) s3) H'.
Proof.
  intros [K0 [_ K1'] _ _ _ _ _ _ _ _ K10 _ _ K13 _ K15] [[_ Hnext] [Hlw Hln] S3 S4 S5 S6 S7] E3 E4 Hk Hkn Hen [Hhi Hr] Eadv Hlo Hlinks s2 s3.
  destruct (TransactionIdAdvance_window o hi Hhi Hr) as (_ & _ & Hadv). rewrite Eadv in Hadv.
  assert (Hbelow : forall x, in_window o x -> xid_age o x < xid_age o (rx_nextXid r) -> xid_age o x <= xid_age o hi).
  { intros x [Hx _] Hlt. destruct (Z.le_gt_cases (xid_age o x) (xid_age o hi)); [done|]. specialize (Hadv x Hx). lia. }
  assert (Hhn : xid_age o hi < xid_age o (rx_nextXid r)).
  { destruct (TransactionIdAdvance_window o hi Hhi Hr) as (_ & ? & _). rewrite Eadv in *. lia. }
  assert (E : knownXids (shared s3) = knownXids (shared s1) /\ latestObservedXid s3 = hi /\ subtrans s3 = c /\
    latest_xid (shared s3) = latest_done s /\ standbyState s3 <> STANDBY_INITIALIZED /\ standbyState s3 <> STANDBY_DISABLED /\
    (lastOverflowedXid (shared s3) = hi \/ lastOverflowedXid (shared s3) = lastOverflowedXid (shared s)) /\
    (standbyState s3 = STANDBY_SNAPSHOT_PENDING -> standbySnapshotPendingXmin s3 = hi) /\
    (subxid_overflow r = true -> standbyState s3 = STANDBY_SNAPSHOT_PENDING)).
  { unfold s3. rewrite <- E3, <- E4. destruct (subxid_overflow r); cbn; split_and!; try done; auto. }
  destruct E as (F1 & F2 & F3 & F4 & F5 & F6 & F7 & F8 & F9).
  destruct (maintain_recovery_frame (rx_latestCompletedXid r) (shared s3)) as [M1 M2].
  destruct (maintain_recovery o (shared s3) (rx_latestCompletedXid r) hi Hlw (Hbelow _ Hlw Hln)) as (V1 & V2 & V3 & V4).
  { rewrite F4. intros Hv. destruct (K13 Hv). split; [done|lia]. }
  clearbody s3. set (sh := MaintainLatestCompletedXidRecovery _ _) in *.
  assert (Hop : forall x, opens o (set_shared sh s3) H' x -> in_window o x /\ xid_age o x <= xid_age o hi /\ ~ ended H' x).
  { intros x (Hx & Hle & Hne). cbn in Hle. by rewrite F2 in Hle. }
  constructor; cbn [set_shared shared standbyState latestObservedXid subtrans standbySnapshotPendingXmin];
    rewrite ?M1, ?M2, ?F1, ?F2, ?F3; try done.
  - split; [done|lia].
  - intros x Hx%Hen. destruct (S3 x Hx) as (? & ? & _). by apply Hbelow.
  - intros x Hn Hx. specialize (S5 x Hn Hx). destruct (Z.le_gt_cases (xid_age o x) (xid_age o hi)); [done|].
    specialize (Hadv x Hn). lia.
  - intros x (Hx & Hle & Hne)%Hop. apply S6; [done|lia|done].
  - intros x [_ Hx]%Hkn. done.
  - intros x (Hx & Hle & Hne)%Hop. apply S6; [done|lia|done].
  - destruct F7 as [->| ->]; [done|exact K10].
  - intros Hp. by rewrite (F8 Hp).
  - intros _ x (Hx & Hle & Hne)%Hop. destruct (S6 x Hx ltac:(lia) Hne) as (_ & _ & [Hin|[Ho Ht]]); [left; by apply Hkn|].
    right; right. specialize (F9 Ho). split_and!; [done|done|]. cbn. by rewrite (F8 F9).
  - intros _. split; [done|apply V3].
  - intros x Hx. destruct (S7 x Hx) as [He [Hr'|Hle]]; split; try done; split; try done.
    + destruct (K15 x Hr') as (_ & Hv & Hle). rewrite F4 in V4. exact (Z.le_trans _ _ _ Hle (V4 Hv)).
    + exact (Z.le_trans _ _ _ Hle (proj1 V3)).
Qed.

Lemma start_from_snapshot_ok DidCommit DidAbort clock r s H H' :
  standby_ok s H -> standbyState s = STANDBY_INITIALIZED -> snapshot_ok DidCommit DidAbort r s H H' ->
  ok_or_full (fun s' => standby_ok s' H' /\ later o s s') (start_from_snapshot DidCommit DidAbort clock r s).
Proof.
  intros Hok Hi Hsn. unfold start_from_snapshot. fold (listed r).
  eapply ok_or_full_bind; [by apply (load_snapshot DidCommit DidAbort clock r s H H')|].
  intros s1 (Es & Hk & Hkn & Hen). pose proof (sk_observed _ _ _ _ _ Hok) as [[K1 K1r] _].
  pose proof (sn_next _ _ _ _ _ _ Hsn) as [[Hnw Hnr] Hnext].
  assert (E : latestObservedXid s1 = latestObservedXid s /\ subtrans s1 = subtrans s /\ latest_done s1 = latest_done s /\
    lastOverflowedXid (shared s1) = lastOverflowedXid (shared s)) by (by destruct Es as [->|[k ->]]).
  destruct E as (E1 & E2 & E3 & E4). rewrite E1, E2.
  destruct (TransactionIdAdvance_window o _ K1 K1r) as ([Ha _] & _ & Ha3).
  destruct (extend_until_links topmost o base (Z.to_nat (xid_age (TransactionIdAdvance (latestObservedXid s)) (rx_nextXid r)))
    (subtrans s) (latestObservedXid s) (rx_nextXid r)) as (Er & hi & Hhi & Eadv & Hlo & Hlinks & Hkept); [done|done|done|lia| |apply Hok|].
  { rewrite (xid_age_diff o _ _ Ha (proj1 Hnw) (Ha3 _ (proj1 Hnw) Hnext)). lia. }
  destruct (extend_until _ _ _ _) as [latest c]. cbn [fst snd] in *. subst latest.
  assert (Eret : TransactionIdRetreat (rx_nextXid r) = hi) by (rewrite <- Eadv; apply TransactionIdRetreat_Advance, Hhi).
  rewrite Eret. cbv zeta. cbn [ok_or_full]. split.
  - eapply standby_ok_view; [|apply (started_ok DidCommit DidAbort r s s1 H H' c hi); try done; [split; [done|lia]|lia]].
    set (s3 := if subxid_overflow r then _ else _).
    destruct (advance_next_past_frame hi (MaintainLatestCompletedXidRecovery (rx_latestCompletedXid r) (shared s3))) as (F1 & F2 & F3).
    by split_and!.
  - assert (E : forall sh, later o s (set_shared sh (if subxid_overflow r
      then set_overflow hi (set_pending hi (set_standbyState STANDBY_SNAPSHOT_PENDING (set_observed hi (set_subtrans c s1))))
      else set_pending InvalidTransactionId (set_standbyState STANDBY_SNAPSHOT_READY (set_observed hi (set_subtrans c s1)))))).
    { intros sh. split; [case_if; cbn; lia|]. case_if; cbn; by apply kept_grown. }
    apply E.
Qed.

(** ** Replaying *)

Definition restarts (s : Standby) (r : RunningTransactionsData) : bool :=
  match standbyState s with
  | STANDBY_SNAPSHOT_READY => false
  | STANDBY_SNAPSHOT_PENDING => negb (subxid_overflow r) || (xcnt r =? 0)
  | _ => true
  end.

(** What holds of a record of running transactions. *)
Definition running_ok (DidCommit DidAbort prepared : TransactionId -> bool) (r : RunningTransactionsData) (s : Standby)
    (H H' : History) : Prop :=
  prune_ok topmost o prepared (oldestRunningXid r) s H /\
  let H1 := prune o (oldestRunningXid r) s H in
  if restarts s r then snapshot_ok DidCommit DidAbort r s H1 H' else H' = H1.

Lemma ExpireOld_frame prepared clock oldest s :
  let s1 := ExpireOldKnownAssignedTransactionIds prepared clock oldest s in
  standbyState s1 = standbyState s /\ latestObservedXid s1 = latestObservedXid s /\ subtrans s1 = subtrans s /\
  standbySnapshotPendingXmin s1 = standbySnapshotPendingXmin s.
Proof. unfold ExpireOldKnownAssignedTransactionIds. cbn. by case_if. Qed.

Lemma snapshot_ok_observed DidCommit DidAbort r s s1 H H' :
  latestObservedXid s1 = latestObservedXid s -> snapshot_ok DidCommit DidAbort r s H H' -> snapshot_ok DidCommit DidAbort r s1 H H'.
Proof. intros E []. constructor; try done. by rewrite E. Qed.

Lemma reset_ok s H :
  standby_ok s H -> let s1 := set_standbyState STANDBY_INITIALIZED (set_known (KnownAssignedXidsReset (knownXids (shared s))) s) in
  standby_ok s1 H.
Proof.
  intros [K0 K1 K2 K3 K4 K5 K6 K7 K8 K9 K10 K11 K12 K13 K14 K15] s1.
  destruct (cleared_ok o _ K2) as [C1 C2]. constructor; try done.
  - intros x Hx. change (x ∈ (entries (set_pointers 0 0 0 (knownXids (shared s)))).*1) in Hx.
    by apply not_elem_of_nil in Hx.
  - intros x Hx. change (x ∈ known (set_pointers 0 0 0 (knownXids (shared s)))) in Hx. rewrite C2 in Hx.
    by apply not_elem_of_nil in Hx.
Qed.

(** No transaction that may be missing is left. *)
Lemma complete_ok oldest s H :
  standby_ok s H -> standbyState s = STANDBY_SNAPSHOT_PENDING ->
  (forall x, opens o s H x -> xid_age o oldest <= xid_age o x) -> in_window o oldest ->
  TransactionIdPrecedes (standbySnapshotPendingXmin s) oldest = true -> standby_ok (set_standbyState STANDBY_SNAPSHOT_READY s) H.
Proof.
  intros [K0 K1 K2 K3 K4 K5 K6 K7 K8 K9 K10 K11 K12 K13 K14 K15] Hp Hge Hw Hpr.
  rewrite (precedes_window o) in Hpr by auto. assert (Hi : standbyState s <> STANDBY_INITIALIZED) by congruence.
  constructor; try done.
  - intros _ x Hx. destruct (K12 Hi x Hx) as [?|[?|(_ & _ & Hle)]]; [by left|by right; left|].
    specialize (Hge x Hx). lia.
  - intros _. by apply K14.
Qed.

Lemma ProcArrayApplyRecoveryInfo_ok DidCommit DidAbort prepared clock r s H H' :
  standby_ok s H -> running_ok DidCommit DidAbort prepared r s H H' ->
  ok_or_full (fun s' => standby_ok s' H' /\ later o s s')
    (ProcArrayApplyRecoveryInfo DidCommit DidAbort prepared clock r s).
Proof.
  intros Hok [Hp Hr]. unfold ProcArrayApplyRecoveryInfo.
  pose proof (ExpireOldKnownAssignedTransactionIds_ok topmost o base prepared clock (oldestRunningXid r) s H Hok Hp) as Hok1.
  destruct (ExpireOld_frame prepared clock (oldestRunningXid r) s) as (E1 & E2 & E3 & E4).
  set (s1 := ExpireOldKnownAssignedTransactionIds _ _ _ _) in *.
  assert (Hl : forall s', later o s1 s' -> later o s s') by (intros s' [L1 L2]; split; rewrite <- ?E2, <- ?E3; done).
  assert (Hl1 : later o s s1) by (split; [by rewrite E2|rewrite E3; by apply kept_grown]).
  cbv zeta in Hr. unfold restarts in Hr. rewrite <- E1 in Hr.
  assert (Hstart : forall s2, standby_ok s2 (prune o (oldestRunningXid r) s H) -> standbyState s2 = STANDBY_INITIALIZED ->
    latestObservedXid s2 = latestObservedXid s1 -> subtrans s2 = subtrans s1 ->
    snapshot_ok DidCommit DidAbort r s (prune o (oldestRunningXid r) s H) H' ->
    ok_or_full (fun s' => standby_ok s' H' /\ later o s s') (start_from_snapshot DidCommit DidAbort clock r s2)).
  { intros s2 Hok2 Hi2 Eo Ec Hsn. pose proof (start_from_snapshot_ok DidCommit DidAbort clock r s2 _ H' Hok2 Hi2) as Hs.
    specialize (Hs ltac:(eapply snapshot_ok_observed; [|exact Hsn]; congruence)).
    destruct (start_from_snapshot _ _ _ _ _) as [s'|[[]| |]]; try done. destruct Hs as [Hs [L1 L2]]. split; [done|].
    apply Hl. split; rewrite <- ?Eo, <- ?Ec; done. }
  destruct (standbyState s1) eqn:Est.
  - destruct (sk_enabled _ _ _ _ _ Hok1). done.
  - by apply Hstart.
  - destruct (negb (subxid_overflow r) || (xcnt r =? 0)).
    + apply Hstart; [by apply reset_ok|done..].
    + subst H'. destruct (TransactionIdPrecedes _ _) eqn:Hpr; cbn [ok_or_full]; [|done]. split; [|done].
      apply (complete_ok (oldestRunningXid r)); [done|done| |apply Hp|done].
      intros x Hx. apply (prune_opens o (oldestRunningXid r) s H x). destruct Hx as (Hx & Hle & Hne).
      split_and!; [done|by rewrite <- E2|done].
  - subst H'. cbn. done.
Qed.
End Start.
