(* ===== verification/StandbySnap.v ===== *)
(** * StandbySnap: snapshots on a standby

    The replay of any sequence of records, and what a snapshot taken on the
    standby shows afterwards: the transactions of the primary that have not
    ended, and none of those whose end was replayed. *)

From stdpp Require Import sorting.
From S2P Require Import Prelude TransactionId Slru Subtrans KnownXids KnownRefine HeapTuple ProcArray ProcRun.
From S2P Require Import ProcScan ProcReaders Standby StandbyLinks StandbyInv StandbyRun.

(** The records that concern running transactions: any record of a
    transaction, the end of a tree, an assignment of subtransactions, and the
    running transactions. *)
Inductive WalRecord :=
| RXid (xid : TransactionId)
| REnd (xid : TransactionId) (subxids : list TransactionId)
| RAssign (topxid : TransactionId) (subxids : list TransactionId)
| RRunning (running : RunningTransactionsData).

(** The outcomes in the commit log, the prepared transactions and the clock at
    the time of a record. *)
Record Env := mkEnv {
  DidCommit : TransactionId -> bool;
  DidAbort : TransactionId -> bool;
  prepared : TransactionId -> bool;
  clock : Z * Z;
}.

Definition replay (e : Env) (r : WalRecord) (s : Standby) : result StandbyError Standby :=
  match r with
  | RXid xid => RecordKnownAssignedTransactionIds (clock e) xid s
  | REnd xid subxids =>
      let max_xid := TransactionIdLatest xid subxids in
      s ← RecordKnownAssignedTransactionIds (clock e) max_xid s;
      Ok (ExpireTreeKnownAssignedTransactionIds (clock e) xid subxids max_xid s)
  | RAssign topxid subxids => ProcArrayApplyXidAssignment (clock e) topxid subxids s
  | RRunning running => ProcArrayApplyRecoveryInfo (DidCommit e) (DidAbort e) (prepared e) (clock e) running s
  end.

Section Replay.
Context (topmost : TransactionId -> TransactionId) (o base : TransactionId).

(** What holds of the records of a primary, and the history after each: ids
    observed for the first time belong to transactions that run; whoever ends,
    ends with its descendants. *)
Definition record_ok (e : Env) (r : WalRecord) (s : Standby) (H H' : History) : Prop :=
  match r with
  | RXid xid => room_for o xid /\ fresh_until topmost o s H xid /\ H' = H
  | REnd xid subxids =>
      let max_xid := TransactionIdLatest xid subxids in
      Forall (in_window o) (xid :: subxids) /\ room_for o max_xid /\ fresh_until topmost o s H max_xid /\
      (forall y, in_window o y -> ~ ended H y ->
         xid_age o y <= xid_age o (latestObservedXid s) \/ xid_age o y <= xid_age o max_xid ->
         topmost y ∈ xid :: subxids -> y ∈ xid :: subxids) /\
      H' = end_tree (xid :: subxids) H
  | RAssign topxid subxids =>
      assignment_ok topmost o base topxid subxids /\ room_for o (TransactionIdLatest topxid subxids) /\
      fresh_until topmost o s H (TransactionIdLatest topxid subxids) /\ H' = H
  | RRunning running => running_ok topmost o base (DidCommit e) (DidAbort e) (prepared e) running s H H'
  end.

Hypothesis Htree : tree_ok topmost o.

Lemma replay_ok e r s H H' :
  standby_ok topmost o base s H -> record_ok e r s H H' ->
  ok_or_full (fun s' => standby_ok topmost o base s' H' /\ later o s s') (replay e r s).
Proof.
  intros Hok. destruct r as [xid|xid subxids|topxid subxids|running]; cbn [record_ok replay].
  - intros (Hr & Hf & ->). pose proof (RecordKnownAssignedTransactionIds_ok topmost o base (clock e) xid s H Hok Hr Hf) as Hrec.
    destruct (RecordKnownAssignedTransactionIds _ _ _) as [s'|[[]| |]]; try done. by destruct Hrec as (? & ? & _).
  - intros (Hw & Hr & Hf & Hclosed & ->). inversion Hw as [|? ? Hx Hw']; subst.
    destruct (TransactionIdLatest_window o xid subxids Hx Hw') as (Hmw & _ & Hmax).
    eapply ok_or_full_bind; [by apply (RecordKnownAssignedTransactionIds_ok topmost o base _ _ s H)|].
    intros s1 (Hok1 & Hl & _ & Hle & Hor). cbn [ok_or_full]. split; [|exact Hl].
    apply ExpireTreeKnownAssignedTransactionIds_ok; try done.
    intros y (Hy & Hyl & Hne). apply Hclosed; [done|done|]. destruct Hor as [E|E]; rewrite E in Hyl; [by left|by right].
  - intros (Ha & Hr & Hf & ->). by apply (ProcArrayApplyXidAssignment_ok topmost o base Htree).
  - intros Hr. by apply (ProcArrayApplyRecoveryInfo_ok topmost o base _ _ _ _ running s H).
Qed.

(** Any sequence of records. *)
Inductive replays : Standby -> History -> Standby -> History -> Prop :=
| replays_nil s H : replays s H s H
| replays_cons e r s H s1 H1 s' H' :
    record_ok e r s H H1 -> replay e r s = Ok s1 -> replays s1 H1 s' H' -> replays s H s' H'.

Lemma replay_later_trans s1 s2 s3 : later o s1 s2 -> later o s2 s3 -> later o s1 s3.
Proof. intros [L1 G1] [L2 G2]. split; [lia|]. by eapply grown_trans. Qed.

Lemma replays_ok s H s' H' :
  standby_ok topmost o base s H -> replays s H s' H' -> standby_ok topmost o base s' H' /\ later o s s'.
Proof.
  intros Hok Hr. induction Hr as [s H|e r s H s1 H1 s' H' Hrec E Hr IH]; [split; [done|split; [lia|by apply kept_grown]]|].
  pose proof (replay_ok e r s H H1 Hok Hrec) as Hstep. rewrite E in Hstep. destruct Hstep as [Hok1 Hl1].
  destruct (IH Hok1) as [Hok' Hl']. split; [done|]. by eapply replay_later_trans.
Qed.

(** ** The walk to the top-level transaction *)

Definition standby_topmost (fuel : nat) (c : Slru) (TransactionXmin x : TransactionId) : TransactionId :=
  match SubTransGetTopmostTransaction fuel c TransactionXmin x with Ok t => t | Err _ => x end.

Lemma standby_topmost_spec fuel c hi TransactionXmin x :
  links_ok topmost o base c hi -> in_window o TransactionXmin -> xid_age o base <= xid_age o TransactionXmin -> (3 <= fuel)%nat ->
  in_window o x -> xid_age o TransactionXmin <= xid_age o x <= xid_age o hi ->
  SubTransGetParent c x = Ok InvalidTransactionId /\ standby_topmost fuel c TransactionXmin x = x \/
  SubTransGetParent c x = Ok (topmost x) /\ topmost x <> x /\ standby_topmost fuel c TransactionXmin x = topmost x.
Proof.
  intros Hl Ht Hb Hf Hx [Hge Hle]. unfold standby_topmost, SubTransGetTopmostTransaction.
  do 3 (destruct fuel as [|fuel]; [lia|]). cbn [SubTransGetTopmostTransaction_loop].
  assert (Hv : forall y, in_window o y -> TransactionIdIsValid y = true) by (intros y [Hy _]; by apply normal_TransactionIdIsValid).
  assert (Hz : forall y, in_window o y -> TransactionIdPrecedes InvalidTransactionId y = true)
    by (intros y [Hy _]; revert Hy; xid_unfold; intros; cbn; lia).
  rewrite (Hv x Hx), (precedes_window o x TransactionXmin Hx Ht). replace (_ <? _) with false by lia.
  destruct (lk_links _ _ _ _ _ Hl x Hx ltac:(lia) (or_introl Hle)) as [E|(E & Hne & _)]; rewrite E; cbn [mbind result_bind].
  { left. rewrite (Hz x Hx). done. }
  right. pose proof (tr_window _ _ Htree x Hx) as Htw. pose proof (tr_older _ _ Htree x Hx) as Hta.
  assert (Hlt : xid_age o (topmost x) < xid_age o x).
  { assert (xid_age o (topmost x) <> xid_age o x); [|lia]. intros E'. apply Hne. apply (xid_age_inj o); [apply Htw|apply Hx|done]. }
  rewrite (precedes_window o (topmost x) x Htw Hx). replace (_ <? _) with true by lia. cbn [negb]. rewrite (Hv _ Htw).
  split; [done|]. split; [done|]. rewrite (precedes_window o (topmost x) TransactionXmin Htw Ht).
  destruct (Z.ltb_spec (xid_age o (topmost x)) (xid_age o TransactionXmin)) as [?|Hge']; [done|].
  destruct (lk_links _ _ _ _ _ Hl (topmost x) Htw ltac:(lia) ltac:(left; lia)) as [E2|(_ & Hne2 & _)].
  - rewrite E2. cbn [mbind result_bind]. rewrite (Hz _ Htw). cbn [negb]. done.
  - by rewrite (tr_idem _ _ Htree x Hx) in Hne2.
Qed.

(** ** The snapshot *)

Lemma lower_xmin_spec xmax l :
  in_window o xmax -> xid_sorted o l ->
  in_window o (lower_xmin xmax l) /\ xid_age o (lower_xmin xmax l) <= xid_age o xmax /\
  forall x, x ∈ l -> xid_age o (lower_xmin xmax l) <= xid_age o x \/ xid_age o xmax <= xid_age o x.
Proof.
  intros Hm Hs. destruct l as [|y l]; [split_and!; [done|done|]; intros x Hx; by apply not_elem_of_nil in Hx|].
  apply xid_sorted_cons in Hs as (Hy & Hall & _). cbn [lower_xmin]. rewrite (precedes_window o) by done.
  rewrite Forall_forall in Hall.
  destruct (Z.ltb_spec (xid_age o y) (xid_age o xmax)) as [Hlt|Hge]; split_and!; try done; try lia.
  - intros x [->|Hx]%elem_of_cons; left; [lia|specialize (Hall x Hx); cbn in Hall; lia].
  - intros x [->|Hx]%elem_of_cons; right; [lia|specialize (Hall x Hx); cbn in Hall; lia].
Qed.

(** What a snapshot built from the known ids contains. *)
Record standby_snapshot (s : Standby) (sn : SnapshotData) : Prop := {
  ss_xmax : in_window o (snap_xmax sn) /\ xid_age o (latest_done s) < xid_age o (snap_xmax sn) /\
    forall x, normal_xid x -> xid_age o (latest_done s) < xid_age o x -> xid_age o (snap_xmax sn) <= xid_age o x;
  ss_xmin : in_window o (snap_xmin sn) /\ xid_age o (snap_xmin sn) <= xid_age o (snap_xmax sn) /\
    forall x, x ∈ known (known_of s) -> xid_age o (snap_xmin sn) <= xid_age o x \/ xid_age o (snap_xmax sn) <= xid_age o x;
  ss_xids : forall x, x ∈ subxip sn <-> x ∈ known (known_of s) /\ xid_age o x < xid_age o (snap_xmax sn);
  ss_overflowed : suboverflowed sn = TransactionIdPrecedesOrEquals (snap_xmin sn) (lastOverflowedXid (shared s));
  ss_recovery : takenDuringRecovery sn = true;
}.

Lemma GetSnapshotData_standby curcid s H sn0 l :
  standby_ok topmost o base s H -> standbyState s <> STANDBY_INITIALIZED -> snapXactCompletionCount sn0 = 0 ->
  (forall i, at_index (xids (shared s)) i = InvalidTransactionId) ->
  standby_snapshot s (snap (GetSnapshotData true curcid (fun _ => shared s) (shared s) sn0 l).1.1).
Proof.
  intros Hok Hi Hcnt Hidle. unfold GetSnapshotData, GetSnapshotDataReuse. rewrite Hcnt. cbn [Z.eqb].
  unfold snapshot_contents. rewrite Hidle. cbn [TransactionIdIsNormal andb negb].
  set (xmax := TransactionIdAdvance (XidFromFullTransactionId (latestCompletedXid (shared s)))).
  pose proof (sk_latest _ _ _ _ _ Hok (sk_started _ _ _ _ _ Hok Hi)) as [Hlw Hlo].
  pose proof (sk_observed _ _ _ _ _ Hok) as [[_ Hr] _].
  destruct (TransactionIdAdvance_window o (latest_done s) Hlw ltac:(lia)) as (Hxw & [Hx1 _] & Hx2).
  change (TransactionIdAdvance (latest_done s)) with xmax in *.
  pose proof (sk_known _ _ _ _ _ Hok) as Hk.
  replace (TransactionIdIsNormal InvalidTransactionId && NormalTransactionIdPrecedes InvalidTransactionId xmax) with false by done.
  rewrite (KnownAssignedXidsGetAndSetXmin_spec o xmax xmax (known_of s) Hk (fun _ => Hxw)).
  destruct (lower_xmin_spec xmax (known (known_of s)) Hxw (known_sorted o _ Hk)) as (Hmw & Hm1 & Hm2).
  set (xmin := lower_xmin xmax _) in *. cbn [sc_xmin sc_xip sc_subxip sc_overflowed].
  destruct (install_xmin _ _ _) as [last' l']. cbn [fst snd snap].
  constructor; cbn [snap_xmax snap_xmin subxip suboverflowed takenDuringRecovery]; try done.
  intros x. rewrite list_elem_of_filter. unfold before.
  rewrite (normal_TransactionIdIsValid _ (proj1 Hxw)). cbn [negb orb]. split.
  - intros [Hb Hx]. rewrite (precedes_window o) in Hb; [|eapply xid_sorted_elem; [by apply known_sorted|done]|done]. split; [done|lia].
  - intros [Hx Hlt]. split; [|done]. rewrite (precedes_window o); [lia|eapply xid_sorted_elem; [by apply known_sorted|done]|done].
Qed.


(** A running transaction, or one not observed yet, is shown as running; the
    links are those of any later time. *)
Lemma standby_shows_open s H sn c hi fuel TransactionXmin x :
  standby_ok topmost o base s H -> standbyState s = STANDBY_SNAPSHOT_READY -> standby_snapshot s sn ->
  links_ok topmost o base c hi -> grown o (latestObservedXid s) (subtrans s) c ->
  xid_age o (latestObservedXid s) <= xid_age o hi ->
  in_window o TransactionXmin -> xid_age o base <= xid_age o TransactionXmin <= xid_age o (snap_xmin sn) -> (3 <= fuel)%nat ->
  in_window o x -> opens o s H x \/ xid_age o (latestObservedXid s) < xid_age o x ->
  XidInMVCCSnapshot (standby_topmost fuel c TransactionXmin) x sn = true.
Proof.
  intros Hok Hready [(Mw & M1 & M2) (Nw & N1 & N2) Hx Hov Hrec] Hl Hg Hhi Ht [Hb Htm] Hf Hxw Hcase.
  unfold XidInMVCCSnapshot. rewrite (precedes_window o), (follows_or_equals_window o), Hrec by done. cbn [negb].
  pose proof (sk_latest _ _ _ _ _ Hok (sk_started _ _ _ _ _ Hok ltac:(congruence))) as [_ Hlo].
  destruct Hcase as [Hop|Hnew].
  2: { specialize (M2 x (proj1 Hxw) ltac:(lia)). replace (_ <? _) with false by lia. by replace (_ <=? _) with true by lia. }
  destruct (Z.leb_spec (xid_age o (snap_xmax sn)) (xid_age o x)) as [Hge|Hlt]; [by replace (_ <? _) with false by lia|].
  assert (Hknown : forall y, y ∈ known (known_of s) -> xid_age o y <= xid_age o x -> pg_lfind32 y (subxip sn) = true /\
    xid_age o (snap_xmin sn) <= xid_age o y).
  { intros y Hy Hle. split; [apply pg_lfind32_elem, Hx; split; [done|lia]|]. destruct (N2 y Hy); [done|lia]. }
  pose proof (tr_window _ _ Htree x Hxw) as Htw. pose proof (tr_older _ _ Htree x Hxw) as Hta.
  assert (Htop : topmost x ∈ known (known_of s)).
  { assert (Hop' : opens o s H (topmost x)).
    { pose proof (sk_parents _ _ _ _ _ Hok x Hop). destruct Hop as (_ & Hle & _). split_and!; [done|lia|done]. }
    destruct (sk_accounted _ _ _ _ _ Hok ltac:(congruence) _ Hop') as [?|[(T & _)|(E & _)]]; [done| |congruence].
    by rewrite (tr_idem _ _ Htree x Hxw) in T. }
  destruct (Hknown _ Htop Hta) as [Ftop Ntop]. replace (xid_age o x <? xid_age o (snap_xmin sn)) with false by lia.
  destruct (sk_accounted _ _ _ _ _ Hok ltac:(congruence) x Hop) as [Hin|[(T1 & T2 & T3 & T4)|(E & _)]]; [| |congruence].
  - destruct (Hknown x Hin ltac:(lia)) as [Fx Nx]. destruct (suboverflowed sn); [|by rewrite Fx].
    destruct (standby_topmost_spec fuel c hi TransactionXmin x) as [[_ ->]|(_ & _ & ->)];
      try done; [split; [lia|]; destruct Hop as (_ & ? & _); lia|..].
    + rewrite (precedes_window o) by done. replace (_ <? _) with false by lia. by rewrite Fx.
    + rewrite (precedes_window o) by done. replace (_ <? _) with false by lia. by rewrite Ftop.
  - pose proof (sk_overflow _ _ _ _ _ Hok T2) as Tw. rewrite Hov, (precedes_or_equals_window o) by done.
    replace (_ <=? _) with true by lia.
    assert (Elink : SubTransGetParent c x = Ok (topmost x)).
    { apply (Hg x); [done|apply Hop|done|by apply normal_TransactionIdIsValid, Htw]. }
    destruct (standby_topmost_spec fuel c hi TransactionXmin x) as [[E _]|(_ & _ & ->)];
      try done; [split; [lia|]; destruct Hop as (_ & ? & _); lia|..].
    + rewrite Elink in E. injection E as E. exfalso. destruct Htw as [Hn _]. rewrite E in Hn. destruct Hn as [Hn _]. by vm_compute in Hn.
    + rewrite (precedes_window o) by done. replace (_ <? _) with false by lia. by rewrite Ftop.
Qed.

(** A transaction whose end was replayed is not shown as running. *)
Lemma standby_hides_ended s H sn c hi fuel TransactionXmin x :
  standby_ok topmost o base s H -> standbyState s = STANDBY_SNAPSHOT_READY -> standby_snapshot s sn ->
  links_ok topmost o base c hi -> xid_age o (latestObservedXid s) <= xid_age o hi ->
  in_window o TransactionXmin -> xid_age o base <= xid_age o TransactionXmin <= xid_age o (snap_xmin sn) -> (3 <= fuel)%nat ->
  in_window o x -> recorded H x -> recorded H (topmost x) ->
  XidInMVCCSnapshot (standby_topmost fuel c TransactionXmin) x sn = false.
Proof.
  intros Hok Hready [(Mw & M1 & M2) (Nw & N1 & N2) Hx Hov Hrec] Hl Hhi Ht [Hb Htm] Hf Hxw Hr Hrt.
  unfold XidInMVCCSnapshot. rewrite (precedes_window o), (follows_or_equals_window o), Hrec by done. cbn [negb].
  destruct (Z.ltb_spec (xid_age o x) (xid_age o (snap_xmin sn))) as [?|Hge]; [done|].
  destruct (sk_recorded _ _ _ _ _ Hok x Hr) as (He & _ & Hle).
  replace (xid_age o (snap_xmax sn) <=? xid_age o x) with false by lia.
  assert (Hnot : forall y, recorded H y -> pg_lfind32 y (subxip sn) = false).
  { intros y Hy. apply not_true_iff_false. rewrite pg_lfind32_elem, Hx. intros [Hin _].
    by apply (sk_live _ _ _ _ _ Hok y Hin), (sk_recorded _ _ _ _ _ Hok y Hy). }
  destruct (suboverflowed sn); [|by rewrite Hnot].
  pose proof (sk_latest _ _ _ _ _ Hok (sk_started _ _ _ _ _ Hok ltac:(congruence))) as [_ Hlo].
  destruct (standby_topmost_spec fuel c hi TransactionXmin x) as [[_ ->]|(_ & _ & ->)]; try done; [lia|..];
    rewrite Hnot by done; by case_if.
Qed.
End Replay.
