(* ===== verification/StandbyExample.v ===== *)
(** * StandbyExample: a standby that starts from an overflowed snapshot

    The primary runs transaction 100 with subtransaction 101, which its first
    snapshot leaves out; both end, transaction 102 starts and has its
    subtransaction 103 assigned to it, transaction 104 ends, and a second
    snapshot makes the standby ready.  With the theorem about snapshots on a
    standby, which the example instantiates. *)

From S2P Require Import Prelude TransactionId Slru Subtrans KnownXids KnownRefine HeapTuple ProcArray ProcRun.
From S2P Require Import ProcScan ProcReaders Standby StandbyLinks StandbyInv StandbyRun StandbySnap.

Definition sb_topmost (x : TransactionId) : TransactionId := if x =? 101 then 100 else if x =? 103 then 102 else x.

Definition sb_env : Env := mkEnv (fun _ => false) (fun _ => false) (fun _ => false) (0, 0).

Definition sb_shared : ProcShared :=
  mkProcShared [] 0 [] [] [] [] 0 0 0 0 1 100 3
    (mkKnownXids 8 0 0 0 (replicate 8 0) (replicate 8 false) 0 0).

(** pg_subtrans has been zeroed and 99 is the last id before. *)
Definition sb_start : Standby :=
  ProcArrayInitRecovery 100 (mkStandby sb_shared one_page STANDBY_INITIALIZED 0 0).

Definition sb_first : RunningTransactionsData := mkRunning 1 0 true 102 100 99 [100].
Definition sb_second : RunningTransactionsData := mkRunning 1 0 true 105 102 104 [102].

Definition sb_log : list WalRecord :=
  [RRunning sb_first; REnd 100 [101]; RXid 103; RAssign 102 [103]; REnd 104 []; RRunning sb_second].

Fixpoint sb_play (log : list WalRecord) (s : Standby) : Standby :=
  match log with
  | [] => s
  | r :: log => sb_play log (match replay sb_env r s with Ok s => s | Err _ => s end)
  end.

Definition sb (n : nat) : Standby := sb_play (take n sb_log) sb_start.

Definition sb_history0 : History := mkHistory (fun x => xid_age 3 x <= 96) (fun _ => False).
Definition sb_history2 : History := end_tree [100; 101] sb_history0.
Definition sb_history5 : History := end_tree [104] sb_history2.
Definition sb_history6 : History := prune 3 102 (sb 5) sb_history5.

Lemma age3 x : in_window 3 x -> xid_age 3 x = x - 3 /\ 3 <= x.
Proof. intros [Hx Ha]. revert Hx Ha. xid_unfold. intros. split; cint. Qed.

Lemma window3 x : 3 <= x < 2 ^ 31 -> in_window 3 x.
Proof. intros Hx. unfold in_window. xid_unfold. split; cint. Qed.

Lemma sb_topmost_cases x :
  x = 101 /\ sb_topmost x = 100 \/ x = 103 /\ sb_topmost x = 102 \/ x <> 101 /\ x <> 103 /\ sb_topmost x = x.
Proof.
  unfold sb_topmost. destruct (Z.eqb_spec x 101) as [->|]; [by left|]. right.
  destruct (Z.eqb_spec x 103) as [->|]; [by left|by right].
Qed.

Lemma sb_tree : tree_ok sb_topmost 3.
Proof.
  constructor; intros x Hx; destruct (sb_topmost_cases x) as [[-> E]|[[-> E]|(_ & _ & E)]]; rewrite ?E; try done;
    first [by apply window3|by vm_compute].
Qed.

Lemma sb_start_ok : standby_ok sb_topmost 3 90 sb_start sb_history0.
Proof.
  assert (E : latestObservedXid sb_start = 99) by (vm_compute; reflexivity).
  assert (Hl : links_ok sb_topmost 3 90 (subtrans sb_start) 99).
  { constructor; [apply one_page_wf|]. intros y Hy Hb Hor. left.
    change (SubTransGetParent (ZeroSUBTRANSPage 0 (slru_init no_victims)) y = Ok InvalidTransactionId).
    rewrite SubTransGetParent_zero, decide_True; [done|]. destruct Hor as [Hle|Hp]; [|by rewrite Hp; vm_compute].
    destruct (age3 y Hy) as [Ha ?]. change (xid_age 3 99) with 96 in Hle. unfold subtrans_page.
    change SUBTRANS_XACTS_PER_PAGE with 2048. apply Z.div_small. lia. }
  assert (Hnone : forall x, ~ opens 3 sb_start sb_history0 x).
  { intros x (Hx & Hle & Hne). apply Hne. rewrite E in Hle. exact Hle. }
  constructor; rewrite ?E; try done.
  - constructor; cbn; try done. split; constructor.
  - intros x Hx. by apply not_elem_of_nil in Hx.
  - intros x Hx. by destruct (Hnone x).
  - intros x Hx. by apply not_elem_of_nil in Hx.
  - intros x Hx. by destruct (Hnone x).
Qed.

Lemma sb_room x : 3 <= x < 2 ^ 31 - 4 -> room_for 3 x.
Proof. intros Hx. assert (Hw : in_window 3 x) by (apply window3; lia). split; [done|]. destruct (age3 x Hw). lia. Qed.

(** The last observed id after each record. *)
Lemma sb_age n a : [96; 98; 98; 100; 100; 101] !! n = Some a -> xid_age 3 (latestObservedXid (sb n)) = a.
Proof. intros Ha. do 6 (destruct n as [|n]; [injection Ha as <-; vm_compute; reflexivity|]). done. Qed.

Lemma sb_first_ok : record_ok sb_topmost 3 90 sb_env (RRunning sb_first) (sb 0) sb_history0 sb_history0.
Proof.
  split.
  - split; [by apply window3|]. intros x (_ & Hle & Hne). exfalso. apply Hne. rewrite (sb_age 0 96 eq_refl) in Hle. exact Hle.
  - change (restarts (sb 0) sb_first) with true. cbv iota zeta. constructor; try rewrite (sb_age 0 96 eq_refl).
    + split; [by apply sb_room|by vm_compute].
    + split; [by apply window3|by vm_compute].
    + intros x Hx. change (x ∈ [100]) in Hx. apply list_elem_of_singleton in Hx as ->.
      split; [by apply window3|]. split; [by vm_compute|]. split; [|done]. intros H. by vm_compute in H.
    + intros x [H|(_ & H & _)]; [exact H|]. change (xid_age 3 (oldestRunningXid sb_first)) with 97 in H. cbn. lia.
    + intros x _ H. change (xid_age 3 (rx_nextXid sb_first)) with 99. cbn in H. lia.
    + intros x Hx Hlt Hne. change (xid_age 3 (rx_nextXid sb_first)) with 99 in Hlt. cbn in Hne. destruct (age3 x Hx) as [Ha _].
      assert (x = 100 \/ x = 101) as [->| ->] by lia.
      * split; [by vm_compute|]. split; [by vm_compute|]. left. by apply list_elem_of_singleton.
      * split; [by vm_compute|]. split; [by vm_compute|]. by right.
    + done.
Qed.

Lemma sb_fresh n H x :
  (forall y, in_window 3 y -> xid_age 3 (latestObservedXid (sb n)) < y - 3 <= x - 3 -> ~ ended H (sb_topmost y)) ->
  in_window 3 x -> fresh_until sb_topmost 3 (sb n) H x.
Proof.
  intros Hf Hx y Hy Hle. destruct (age3 x Hx) as [Ha _], (age3 y Hy) as [Hb _]. rewrite Ha, Hb in Hle. by apply Hf.
Qed.

Lemma sb_end_ok : record_ok sb_topmost 3 90 sb_env (REnd 100 [101]) (sb 1) sb_history0 sb_history2.
Proof.
  cbn [record_ok]. change (TransactionIdLatest 100 [101]) with 101. split_and!.
  - by repeat constructor.
  - by apply sb_room.
  - apply sb_fresh; [|by apply window3]. rewrite (sb_age 1 98 eq_refl). intros y _ ?. lia.
  - intros y Hy Hne Hor Ht. rewrite (sb_age 1 98 eq_refl) in Hor. change (xid_age 3 101) with 98 in Hor. destruct (age3 y Hy) as [Ha _]. cbn in Hne.
    assert (y = 100 \/ y = 101) as [->| ->] by lia; set_solver.
  - done.
Qed.

Lemma sb_topmost_old y : 101 < y -> 101 < sb_topmost y <= y.
Proof. destruct (sb_topmost_cases y) as [[-> ->]|[[-> ->]|(_ & _ & ->)]]; lia. Qed.

Lemma sb_not_ended2 y : in_window 3 y -> 101 < y -> ~ ended sb_history2 (sb_topmost y).
Proof.
  intros Hy Hlt. pose proof (sb_topmost_old y Hlt) as Ht. destruct (age3 _ (tr_window _ _ sb_tree y Hy)) as [Ha _].
  intros [H|H]; [cbn in H; lia|]. apply elem_of_cons in H as [H|H%list_elem_of_singleton]; lia.
Qed.

Lemma sb_xid_ok : record_ok sb_topmost 3 90 sb_env (RXid 103) (sb 2) sb_history2 sb_history2.
Proof.
  split; [by apply sb_room|]. split; [|done]. apply sb_fresh; [|by apply window3]. rewrite (sb_age 2 98 eq_refl).
  intros y Hy ?. apply sb_not_ended2; [done|lia].
Qed.

Lemma sb_assign_ok : record_ok sb_topmost 3 90 sb_env (RAssign 102 [103]) (sb 3) sb_history2 sb_history2.
Proof.
  cbn [record_ok]. change (TransactionIdLatest 102 [103]) with 103. split_and!.
  - split; [by apply window3|]. apply Forall_singleton. split_and!; [by apply window3|by vm_compute|by vm_compute|done].
  - by apply sb_room.
  - apply sb_fresh; [|by apply window3]. rewrite (sb_age 3 100 eq_refl). intros y _ ?. lia.
  - done.
Qed.

Lemma sb_end2_ok : record_ok sb_topmost 3 90 sb_env (REnd 104 []) (sb 4) sb_history2 sb_history5.
Proof.
  cbn [record_ok]. change (TransactionIdLatest 104 []) with 104. split_and!.
  - by repeat constructor.
  - by apply sb_room.
  - apply sb_fresh; [|by apply window3]. rewrite (sb_age 4 100 eq_refl). intros y Hy ?. apply sb_not_ended2; [done|lia].
  - intros y Hy _ _ Ht%list_elem_of_singleton. destruct (sb_topmost_cases y) as [[-> Ey]|[[-> Ey]|(_ & _ & Ey)]]; rewrite Ey in Ht; [done|done|].
    subst y. by apply list_elem_of_singleton.
  - done.
Qed.

Lemma sb_open5 x : opens 3 (sb 5) sb_history5 x -> x = 102 \/ x = 103.
Proof.
  intros (Hx & Hle & Hne). rewrite (sb_age 5 101 eq_refl) in Hle. destruct (age3 x Hx) as [Ha _].
  assert (~ (xid_age 3 x <= 96) /\ x <> 100 /\ x <> 101 /\ x <> 104) as (? & ? & ? & ?).
  { split_and!; intros ?; apply Hne; [left; left; done|left; right; set_solver|left; right; set_solver|right; set_solver]. }
  lia.
Qed.

Lemma sb_second_ok : record_ok sb_topmost 3 90 sb_env (RRunning sb_second) (sb 5) sb_history5 sb_history6.
Proof.
  split.
  - split; [by apply window3|]. intros x [->| ->]%sb_open5; by vm_compute.
  - change (restarts (sb 5) sb_second) with false. done.
Qed.

Lemma sb_step n r : sb_log !! n = Some r -> replay sb_env r (sb n) = Ok (sb (S n)).
Proof.
  intros Hr. do 6 (destruct n as [|n]; [injection Hr as <-; vm_compute; reflexivity|]). done.
Qed.

Lemma sb_replays : replays sb_topmost 3 90 (sb 0) sb_history0 (sb 6) sb_history6.
Proof.
  refine (replays_cons _ _ _ sb_env _ _ _ _ _ _ _ sb_first_ok (sb_step 0 _ eq_refl) _).
  refine (replays_cons _ _ _ sb_env _ _ _ _ _ _ _ sb_end_ok (sb_step 1 _ eq_refl) _).
  refine (replays_cons _ _ _ sb_env _ _ _ _ _ _ _ sb_xid_ok (sb_step 2 _ eq_refl) _).
  refine (replays_cons _ _ _ sb_env _ _ _ _ _ _ _ sb_assign_ok (sb_step 3 _ eq_refl) _).
  refine (replays_cons _ _ _ sb_env _ _ _ _ _ _ _ sb_end2_ok (sb_step 4 _ eq_refl) _).
  refine (replays_cons _ _ _ sb_env _ _ _ _ _ _ _ sb_second_ok (sb_step 5 _ eq_refl) _).
  apply replays_nil.
Qed.

(** C5. snapshots on a standby are right.  Whatever records a standby has
    replayed since it began to track transactions, through the states in which
    it waits for a complete snapshot of its primary and across overflows of
    the known ids: when it is ready, a snapshot shows as running every
    transaction of the primary that has not ended, subtransactions included,
    and every id not seen yet, and shows no transaction whose end was
    replayed, also when it is used after further records were replayed.  And
    the next record can be replayed, unless the known ids do not fit. *)
Theorem standby_snapshot_right (topmost : TransactionId -> TransactionId) (o base : TransactionId)
    (s0 s s' : Standby) (H0 H H' : History) (curcid : CommandId) (sn0 : Snapshot) (l : ProcLocal) (fuel : nat)
    (TransactionXmin : TransactionId) :
  let sn := snap (GetSnapshotData true curcid (fun _ => shared s) (shared s) sn0 l).1.1 in
  let top := standby_topmost fuel (subtrans s') TransactionXmin in
  tree_ok topmost o -> standby_ok topmost o base s0 H0 ->
  replays topmost o base s0 H0 s H -> standbyState s = STANDBY_SNAPSHOT_READY -> replays topmost o base s H s' H' ->
  snapXactCompletionCount sn0 = 0 -> (forall i, at_index (xids (shared s)) i = InvalidTransactionId) ->
  in_window o TransactionXmin -> xid_age o base <= xid_age o TransactionXmin <= xid_age o (snap_xmin sn) -> (3 <= fuel)%nat ->
  (forall x, in_window o x ->
     (opens o s H x \/ xid_age o (latestObservedXid s) < xid_age o x -> XidInMVCCSnapshot top x sn = true) /\
     (recorded H x -> recorded H (topmost x) -> XidInMVCCSnapshot top x sn = false)) /\
  (forall e r H1, record_ok topmost o base e r s H H1 -> ok_or_full (fun _ => True) (replay e r s)).
Proof.
  intros sn top Htree Hok0 Hr0 Hready Hr Hcnt Hidle Ht Hb Hf.
  destruct (replays_ok topmost o base Htree s0 H0 s H Hok0 Hr0) as [Hok _].
  destruct (replays_ok topmost o base Htree s H s' H' Hok Hr) as [Hok' [Hle Hg]].
  assert (Hsn : standby_snapshot o s sn) by (apply (GetSnapshotData_standby topmost o base curcid s H); [done|congruence|done|done]).
  split.
  - intros x Hx. split.
    + intros Hc. eapply (standby_shows_open topmost o base Htree s H sn); try done. apply Hok'.
    + intros Hrx Hrt. eapply (standby_hides_ended topmost o base Htree s H sn); try done. apply Hok'.
  - intros e r H1 Hrec. pose proof (replay_ok topmost o base Htree e r s H H1 Hok Hrec) as Hs.
    by destruct (replay e r s) as [|[[]| |]].
Qed.

Definition sb_local : ProcLocal :=
  mkProcLocal 0 5 0 0 0 (mkGlobalVis 0 0) (mkGlobalVis 0 0) (mkGlobalVis 0 0) (mkGlobalVis 0 0) 0.

Definition sb_no_snapshot : Snapshot := mkSnap (mkSnapshot SNAPSHOT_MVCC 0 0 [] [] false false 0 0) 0.

Lemma sb_open6 : opens 3 (sb 6) sb_history6 103.
Proof.
  split; [apply window3; lia|]. split; [vm_compute; discriminate|]. intros [[[H|H]|H]|(_ & H & _)].
  - vm_compute in H. by apply H.
  - apply elem_of_cons in H as [H|H%list_elem_of_singleton]; discriminate.
  - apply list_elem_of_singleton in H. discriminate.
  - vm_compute in H. discriminate.
Qed.

Lemma sb_recorded6 : recorded sb_history6 104.
Proof. right. by apply list_elem_of_singleton. Qed.

Lemma standby_snapshot_right_witness :
  let sn := snap (GetSnapshotData true 7 (fun _ => shared (sb 6)) (shared (sb 6)) sb_no_snapshot sb_local).1.1 in
  let top := standby_topmost 3 (subtrans (sb 6)) 102 in
  subxip sn = [102] /\ suboverflowed sn = true /\
  XidInMVCCSnapshot top 103 sn = true /\ XidInMVCCSnapshot top 104 sn = false.
Proof.
  assert (Hxmin : xid_age 3 90 <= xid_age 3 102 <= xid_age 3 (snap_xmin (snap
    (GetSnapshotData true 7 (fun _ => shared (sb 6)) (shared (sb 6)) sb_no_snapshot sb_local).1.1))).
  { vm_compute. split; discriminate. }
  assert (Hidle : forall i, at_index (xids (shared (sb 6))) i = InvalidTransactionId).
  { intros i. replace (xids (shared (sb 6))) with (@nil TransactionId) by (vm_compute; reflexivity). reflexivity. }
  assert (Hready : standbyState (sb 6) = STANDBY_SNAPSHOT_READY) by (vm_compute; reflexivity).
  destruct (standby_snapshot_right sb_topmost 3 90 (sb 0) (sb 6) (sb 6) sb_history0 sb_history6 sb_history6 7 sb_no_snapshot
    sb_local 3 102 sb_tree sb_start_ok sb_replays Hready (replays_nil _ _ _ _ _) eq_refl Hidle
    (window3 102 ltac:(lia)) Hxmin (le_n 3)) as [Hshow _]. intros sn top.
  split; [vm_compute; reflexivity|]. split; [vm_compute; reflexivity|]. split.
  - apply (proj1 (Hshow 103 (window3 103 ltac:(lia)))). left. exact sb_open6.
  - apply (proj2 (Hshow 104 (window3 104 ltac:(lia)))); exact sb_recorded6.
Defined.
