(* ===== verification/Xact.v ===== *)
(** * Xact: the transaction state of a backend

    Models the data and the basic operations of src/backend/access/transam/xact.c:
    the stack of transaction states, the assignment of transaction ids to it,
    command counting and the bookkeeping of subcommitted children.

    Operations run in a state and error monad.  Calls into other subsystems
    are recorded in a trace, and the environment decides which of them report
    an error; calls whose effect matters here (transaction id assignment, the
    commit log, pg_subtrans, the process entry) act on the models of those
    components.  An error leaves the state as it is at that point. *)

From stdpp Require Import strings.
From S2P Require Import Prelude TransactionId Slru Clog Subtrans Transam Varsup HeapTuple.

Abbreviation SubTransactionId := Z.

Definition InvalidSubTransactionId : SubTransactionId := 0.
Definition TopSubTransactionId : SubTransactionId := 1.
Definition FirstCommandId : CommandId := 0.
Definition MaxAllocSize : Z := 0x3fffffff.

Definition XACT_FLAGS_ACCESSEDTEMPNAMESPACE : Z := 1.
Definition XACT_FLAGS_NEEDIMMEDIATECOMMIT : Z := 4.
Definition XACT_FLAGS_PIPELINING : Z := 8.

Inductive TransState :=
| TRANS_DEFAULT
| TRANS_START
| TRANS_INPROGRESS
| TRANS_COMMIT
| TRANS_ABORT
| TRANS_PREPARE.

Inductive TBlockState :=
| TBLOCK_DEFAULT
| TBLOCK_STARTED
| TBLOCK_BEGIN
| TBLOCK_INPROGRESS
| TBLOCK_IMPLICIT_INPROGRESS
| TBLOCK_PARALLEL_INPROGRESS
| TBLOCK_END
| TBLOCK_ABORT
| TBLOCK_ABORT_END
| TBLOCK_ABORT_PENDING
| TBLOCK_PREPARE
| TBLOCK_SUBBEGIN
| TBLOCK_SUBINPROGRESS
| TBLOCK_SUBRELEASE
| TBLOCK_SUBCOMMIT
| TBLOCK_SUBABORT
| TBLOCK_SUBABORT_END
| TBLOCK_SUBABORT_PENDING
| TBLOCK_SUBRESTART
| TBLOCK_SUBABORT_RESTART.

#[export] Instance TransState_eq_dec : EqDecision TransState.
Proof. solve_decision. Defined.
#[export] Instance TBlockState_eq_dec : EqDecision TBlockState.
Proof. solve_decision. Defined.

(** User id and security context. *)
Abbreviation UserContext := (Z * Z)%type.

Record TransactionStateData := mkTransactionState {
  fullTransactionId : FullTransactionId;
  subTransactionId : SubTransactionId;
  name : option string;  (** savepoint name, if any *)
  savepointLevel : Z;
  state : TransState;
  blockState : TBlockState;
  nestingLevel : Z;
  gucNestLevel : Z;
  curTransactionOwner : bool;  (** whether the resource owner exists *)
  childXids : list TransactionId;  (** subcommitted children, in xid order *)
  maxChildXids : Z;  (** allocated size of the array *)
  prevUser : UserContext;  (** user id and security context at entry *)
  prevXactReadOnly : bool;  (** entry-time read-only state *)
  startedInRecovery : bool;
  didLogXid : bool;  (** has the xid been included in a WAL record? *)
  parallelModeLevel : Z;  (** Enter/ExitParallelMode counter *)
  chain : bool;  (** start a new block after this one *)
  topXidLogged : bool;  (** for a subxact: is the top-level xid logged? *)
}.

Record SavedTransactionCharacteristics := mkCharacteristics {
  XactIsoLevel : Z;
  XactReadOnly : bool;
  XactDeferrable : bool;
}.

(** The static and global variables of xact.c and those it sets elsewhere. *)
Record XactGlobals := mkXactGlobals {
  XactTopFullTransactionId : FullTransactionId;
  currentSubTransactionId : SubTransactionId;
  currentCommandId : CommandId;
  currentCommandIdUsed : bool;
  unreportedXids : list TransactionId;  (** subxacts not yet in an assignment record *)
  ParallelCurrentXids : list TransactionId;
  xact_chars : SavedTransactionCharacteristics;
  MyXactFlags : Z;
  forceSyncCommit : bool;
  prepareGID : option string;
  XactLastRecEnd : XLogRecPtr;  (** end of the last WAL record of this transaction *)
  TopTransactionResourceOwner : bool;  (** whether it exists *)
  CritSectionCount : nat;
  delayChkptStart : bool;
  CurrentUser : UserContext;
  GUCNestLevel : Z;
}.

(** *** Field updates *)

Definition set_fullTransactionId (v : FullTransactionId) (t : TransactionStateData) : TransactionStateData :=
  mkTransactionState v (subTransactionId t) (name t) (savepointLevel t) (state t) (blockState t) (nestingLevel t)
    (gucNestLevel t) (curTransactionOwner t) (childXids t) (maxChildXids t) (prevUser t)
    (prevXactReadOnly t) (startedInRecovery t) (didLogXid t) (parallelModeLevel t) (chain t)
    (topXidLogged t).
Definition set_name (v : option string) (t : TransactionStateData) : TransactionStateData :=
  mkTransactionState (fullTransactionId t) (subTransactionId t) v (savepointLevel t) (state t) (blockState t)
    (nestingLevel t) (gucNestLevel t) (curTransactionOwner t) (childXids t) (maxChildXids t)
    (prevUser t) (prevXactReadOnly t) (startedInRecovery t) (didLogXid t) (parallelModeLevel t)
    (chain t) (topXidLogged t).
Definition set_savepointLevel (v : Z) (t : TransactionStateData) : TransactionStateData :=
  mkTransactionState (fullTransactionId t) (subTransactionId t) (name t) v (state t) (blockState t) (nestingLevel t)
    (gucNestLevel t) (curTransactionOwner t) (childXids t) (maxChildXids t) (prevUser t)
    (prevXactReadOnly t) (startedInRecovery t) (didLogXid t) (parallelModeLevel t) (chain t)
    (topXidLogged t).
Definition set_state (v : TransState) (t : TransactionStateData) : TransactionStateData :=
  mkTransactionState (fullTransactionId t) (subTransactionId t) (name t) (savepointLevel t) v (blockState t)
    (nestingLevel t) (gucNestLevel t) (curTransactionOwner t) (childXids t) (maxChildXids t)
    (prevUser t) (prevXactReadOnly t) (startedInRecovery t) (didLogXid t) (parallelModeLevel t)
    (chain t) (topXidLogged t).
Definition set_blockState (v : TBlockState) (t : TransactionStateData) : TransactionStateData :=
  mkTransactionState (fullTransactionId t) (subTransactionId t) (name t) (savepointLevel t) (state t) v (nestingLevel t)
    (gucNestLevel t) (curTransactionOwner t) (childXids t) (maxChildXids t) (prevUser t)
    (prevXactReadOnly t) (startedInRecovery t) (didLogXid t) (parallelModeLevel t) (chain t)
    (topXidLogged t).
Definition set_curTransactionOwner (v : bool) (t : TransactionStateData) : TransactionStateData :=
  mkTransactionState (fullTransactionId t) (subTransactionId t) (name t) (savepointLevel t) (state t) (blockState t)
    (nestingLevel t) (gucNestLevel t) v (childXids t) (maxChildXids t) (prevUser t)
    (prevXactReadOnly t) (startedInRecovery t) (didLogXid t) (parallelModeLevel t) (chain t)
    (topXidLogged t).
Definition set_didLogXid (v : bool) (t : TransactionStateData) : TransactionStateData :=
  mkTransactionState (fullTransactionId t) (subTransactionId t) (name t) (savepointLevel t) (state t) (blockState t)
    (nestingLevel t) (gucNestLevel t) (curTransactionOwner t) (childXids t) (maxChildXids t)
    (prevUser t) (prevXactReadOnly t) (startedInRecovery t) v (parallelModeLevel t) (chain t)
    (topXidLogged t).
Definition set_parallelModeLevel (v : Z) (t : TransactionStateData) : TransactionStateData :=
  mkTransactionState (fullTransactionId t) (subTransactionId t) (name t) (savepointLevel t) (state t) (blockState t)
    (nestingLevel t) (gucNestLevel t) (curTransactionOwner t) (childXids t) (maxChildXids t)
    (prevUser t) (prevXactReadOnly t) (startedInRecovery t) (didLogXid t) v (chain t)
    (topXidLogged t).
Definition set_chain (v : bool) (t : TransactionStateData) : TransactionStateData :=
  mkTransactionState (fullTransactionId t) (subTransactionId t) (name t) (savepointLevel t) (state t) (blockState t)
    (nestingLevel t) (gucNestLevel t) (curTransactionOwner t) (childXids t) (maxChildXids t)
    (prevUser t) (prevXactReadOnly t) (startedInRecovery t) (didLogXid t) (parallelModeLevel t) v
    (topXidLogged t).
Definition set_topXidLogged (v : bool) (t : TransactionStateData) : TransactionStateData :=
  mkTransactionState (fullTransactionId t) (subTransactionId t) (name t) (savepointLevel t) (state t) (blockState t)
    (nestingLevel t) (gucNestLevel t) (curTransactionOwner t) (childXids t) (maxChildXids t)
    (prevUser t) (prevXactReadOnly t) (startedInRecovery t) (didLogXid t) (parallelModeLevel t)
    (chain t) v.

Definition set_children (v : list TransactionId) (m : Z) (t : TransactionStateData) : TransactionStateData :=
  mkTransactionState (fullTransactionId t) (subTransactionId t) (name t) (savepointLevel t) (state t) (blockState t)
    (nestingLevel t) (gucNestLevel t) (curTransactionOwner t) v m (prevUser t) (prevXactReadOnly t)
    (startedInRecovery t) (didLogXid t) (parallelModeLevel t) (chain t) (topXidLogged t).

Definition set_XactTopFullTransactionId (v : FullTransactionId) (g : XactGlobals) : XactGlobals :=
  mkXactGlobals v (currentSubTransactionId g) (currentCommandId g) (currentCommandIdUsed g) (unreportedXids g)
    (ParallelCurrentXids g) (xact_chars g) (MyXactFlags g) (forceSyncCommit g) (prepareGID g)
    (XactLastRecEnd g) (TopTransactionResourceOwner g) (CritSectionCount g) (delayChkptStart g)
    (CurrentUser g) (GUCNestLevel g).
Definition set_unreportedXids (v : list TransactionId) (g : XactGlobals) : XactGlobals :=
  mkXactGlobals (XactTopFullTransactionId g) (currentSubTransactionId g) (currentCommandId g)
    (currentCommandIdUsed g) v (ParallelCurrentXids g) (xact_chars g) (MyXactFlags g)
    (forceSyncCommit g) (prepareGID g) (XactLastRecEnd g) (TopTransactionResourceOwner g)
    (CritSectionCount g) (delayChkptStart g) (CurrentUser g) (GUCNestLevel g).
Definition set_ParallelCurrentXids (v : list TransactionId) (g : XactGlobals) : XactGlobals :=
  mkXactGlobals (XactTopFullTransactionId g) (currentSubTransactionId g) (currentCommandId g)
    (currentCommandIdUsed g) (unreportedXids g) v (xact_chars g) (MyXactFlags g) (forceSyncCommit g)
    (prepareGID g) (XactLastRecEnd g) (TopTransactionResourceOwner g) (CritSectionCount g)
    (delayChkptStart g) (CurrentUser g) (GUCNestLevel g).
Definition set_xact_chars (v : SavedTransactionCharacteristics) (g : XactGlobals) : XactGlobals :=
  mkXactGlobals (XactTopFullTransactionId g) (currentSubTransactionId g) (currentCommandId g)
    (currentCommandIdUsed g) (unreportedXids g) (ParallelCurrentXids g) v (MyXactFlags g)
    (forceSyncCommit g) (prepareGID g) (XactLastRecEnd g) (TopTransactionResourceOwner g)
    (CritSectionCount g) (delayChkptStart g) (CurrentUser g) (GUCNestLevel g).
Definition set_MyXactFlags (v : Z) (g : XactGlobals) : XactGlobals :=
  mkXactGlobals (XactTopFullTransactionId g) (currentSubTransactionId g) (currentCommandId g)
    (currentCommandIdUsed g) (unreportedXids g) (ParallelCurrentXids g) (xact_chars g) v
    (forceSyncCommit g) (prepareGID g) (XactLastRecEnd g) (TopTransactionResourceOwner g)
    (CritSectionCount g) (delayChkptStart g) (CurrentUser g) (GUCNestLevel g).
Definition set_prepareGID (v : option string) (g : XactGlobals) : XactGlobals :=
  mkXactGlobals (XactTopFullTransactionId g) (currentSubTransactionId g) (currentCommandId g)
    (currentCommandIdUsed g) (unreportedXids g) (ParallelCurrentXids g) (xact_chars g)
    (MyXactFlags g) (forceSyncCommit g) v (XactLastRecEnd g) (TopTransactionResourceOwner g)
    (CritSectionCount g) (delayChkptStart g) (CurrentUser g) (GUCNestLevel g).
Definition set_XactLastRecEnd (v : XLogRecPtr) (g : XactGlobals) : XactGlobals :=
  mkXactGlobals (XactTopFullTransactionId g) (currentSubTransactionId g) (currentCommandId g)
    (currentCommandIdUsed g) (unreportedXids g) (ParallelCurrentXids g) (xact_chars g)
    (MyXactFlags g) (forceSyncCommit g) (prepareGID g) v (TopTransactionResourceOwner g)
    (CritSectionCount g) (delayChkptStart g) (CurrentUser g) (GUCNestLevel g).
Definition set_TopTransactionResourceOwner (v : bool) (g : XactGlobals) : XactGlobals :=
  mkXactGlobals (XactTopFullTransactionId g) (currentSubTransactionId g) (currentCommandId g)
    (currentCommandIdUsed g) (unreportedXids g) (ParallelCurrentXids g) (xact_chars g)
    (MyXactFlags g) (forceSyncCommit g) (prepareGID g) (XactLastRecEnd g) v (CritSectionCount g)
    (delayChkptStart g) (CurrentUser g) (GUCNestLevel g).
Definition set_CritSectionCount (v : nat) (g : XactGlobals) : XactGlobals :=
  mkXactGlobals (XactTopFullTransactionId g) (currentSubTransactionId g) (currentCommandId g)
    (currentCommandIdUsed g) (unreportedXids g) (ParallelCurrentXids g) (xact_chars g)
    (MyXactFlags g) (forceSyncCommit g) (prepareGID g) (XactLastRecEnd g)
    (TopTransactionResourceOwner g) v (delayChkptStart g) (CurrentUser g) (GUCNestLevel g).
Definition set_delayChkptStart (v : bool) (g : XactGlobals) : XactGlobals :=
  mkXactGlobals (XactTopFullTransactionId g) (currentSubTransactionId g) (currentCommandId g)
    (currentCommandIdUsed g) (unreportedXids g) (ParallelCurrentXids g) (xact_chars g)
    (MyXactFlags g) (forceSyncCommit g) (prepareGID g) (XactLastRecEnd g)
    (TopTransactionResourceOwner g) (CritSectionCount g) v (CurrentUser g) (GUCNestLevel g).
Definition set_CurrentUser (v : UserContext) (g : XactGlobals) : XactGlobals :=
  mkXactGlobals (XactTopFullTransactionId g) (currentSubTransactionId g) (currentCommandId g)
    (currentCommandIdUsed g) (unreportedXids g) (ParallelCurrentXids g) (xact_chars g)
    (MyXactFlags g) (forceSyncCommit g) (prepareGID g) (XactLastRecEnd g)
    (TopTransactionResourceOwner g) (CritSectionCount g) (delayChkptStart g) v (GUCNestLevel g).
Definition set_GUCNestLevel (v : Z) (g : XactGlobals) : XactGlobals :=
  mkXactGlobals (XactTopFullTransactionId g) (currentSubTransactionId g) (currentCommandId g)
    (currentCommandIdUsed g) (unreportedXids g) (ParallelCurrentXids g) (xact_chars g)
    (MyXactFlags g) (forceSyncCommit g) (prepareGID g) (XactLastRecEnd g)
    (TopTransactionResourceOwner g) (CritSectionCount g) (delayChkptStart g) (CurrentUser g) v.

(** ** Calls into other subsystems *)

Inductive XactEvent :=
| XACT_EVENT_COMMIT
| XACT_EVENT_PARALLEL_COMMIT
| XACT_EVENT_ABORT
| XACT_EVENT_PARALLEL_ABORT
| XACT_EVENT_PREPARE
| XACT_EVENT_PRE_COMMIT
| XACT_EVENT_PARALLEL_PRE_COMMIT
| XACT_EVENT_PRE_PREPARE.

Inductive SubXactEvent :=
| SUBXACT_EVENT_START_SUB
| SUBXACT_EVENT_COMMIT_SUB
| SUBXACT_EVENT_ABORT_SUB
| SUBXACT_EVENT_PRE_COMMIT_SUB.

Inductive ResourceReleasePhase :=
| RESOURCE_RELEASE_BEFORE_LOCKS
| RESOURCE_RELEASE_LOCKS
| RESOURCE_RELEASE_AFTER_LOCKS.

Inductive XactCall :=
(** start *)
| AtStart_Memory | AtStart_ResourceOwner | VirtualXactLockTableInsert | AtStart_GUC | AtStart_Cache
| AfterTriggerBeginXact | pgstat_report_xact_timestamp (running : bool)
(** transaction ids *)
| CGetNewTransactionId (isSubXact : bool) | CSubTransSetParent (xid parent : TransactionId)
| RegisterPredicateLockingXid (xid : TransactionId) | XactLockTableInsert (xid : TransactionId)
| XLogInsert_assignment (xtop : TransactionId) (xsub : list TransactionId)
(** command end *)
| SnapshotSetCommandId (cid : CommandId) | AtCCI_LocalCache
(** the record of an outcome *)
| LogLogicalInvalidations | LogStandbyInvalidations
| XactLogCommitRecord (children : list TransactionId) | XactLogAbortRecord (children : list TransactionId)
| replorigin_session_advance | TransactionTreeSetCommitTsData (xid : TransactionId) (children : list TransactionId)
| XLogFlush (lsn : XLogRecPtr) | XLogSetAsyncXactLSN (lsn : XLogRecPtr) | SyncRepWaitForLSN (lsn : XLogRecPtr)
| CTransactionIdCommitTree (xid : TransactionId) (children : list TransactionId)
| CTransactionIdAsyncCommitTree (xid : TransactionId) (children : list TransactionId) (lsn : XLogRecPtr)
| CTransactionIdAbortTree (xid : TransactionId) (children : list TransactionId)
| CTransactionIdDidCommit (xid : TransactionId)
| CXidCacheRemoveRunningXids (xid : TransactionId) (children : list TransactionId)
(** pre-commit *)
| AfterTriggerFireDeferred | PreCommit_Portals (isPrepare : bool) | CallXactCallbacks (ev : XactEvent)
| AtEOXact_Parallel (isCommit : bool) | AfterTriggerEndXact (isCommit : bool) | PreCommit_on_commit_actions
| smgrDoPendingSyncs (isCommit isParallelWorker : bool) | AtEOXact_LargeObject (isCommit : bool) | PreCommit_Notify
| PreCommit_CheckForSerializationFailure | AtEOXact_RelationMap (isCommit isParallelWorker : bool)
| ParallelWorkerReportLastRecEnd
(** end of transaction *)
| CProcArrayEndTransaction (latestXid : TransactionId)
| ResourceOwnerRelease (phase : ResourceReleasePhase) (isCommit isTopLevel : bool)
| AtEOXact_Buffers (isCommit : bool) | AtEOXact_RelationCache (isCommit : bool) | AtEOXact_Inval (isCommit : bool)
| AtEOXact_MultiXact | smgrDoPendingDeletes (isCommit : bool) | AtCommit_Notify
| AtEOXact_GUC (isCommit : bool) (nestLevel : Z) | AtEOXact_SPI (isCommit : bool) | AtEOXact_Enum
| AtEOXact_on_commit_actions (isCommit : bool) | AtEOXact_Namespace (isCommit parallel : bool) | AtEOXact_SMgr
| AtEOXact_Files (isCommit : bool) | CAtEOXact_ComboCid | AtEOXact_HashTables (isCommit : bool)
| AtEOXact_PgStat (isCommit parallel : bool) | AtEOXact_Snapshot (isCommit resetXmin : bool)
| AtEOXact_ApplyLauncher (isCommit : bool) | AtEOXact_LogicalRepWorkers (isCommit : bool)
| ResourceOwnerDelete | AtCommit_Memory
(** prepare *)
| MarkAsPreparing (xid : TransactionId) | StartPrepare | AtPrepare_Notify | AtPrepare_Locks | AtPrepare_PredicateLocks
| AtPrepare_PgStat | AtPrepare_MultiXact | AtPrepare_RelationMap | EndPrepare | PostPrepare_Locks (xid : TransactionId)
| CProcArrayClearTransaction | PostPrepare_PgStat | PostPrepare_Inval | PostPrepare_smgr
| PostPrepare_MultiXact (xid : TransactionId) | PostPrepare_PredicateLocks (xid : TransactionId) | PostPrepare_Twophase
(** abort *)
| AtAbort_Memory | LWLockReleaseAll | pgstat_report_wait_end | pgstat_progress_end_command | UnlockBuffers
| XLogResetInsertion | ConditionVariableCancelSleep | LockErrorCleanup | reschedule_timeouts | sigprocmask
| ResetReindexState (nestLevel : Z) | ResetLogicalStreamingState | SnapBuildResetExportedSnapshotState
| AtAbort_Portals | AtAbort_Notify | AtAbort_Twophase | AtCleanup_Portals | AtCleanup_Memory
(** subtransactions *)
| AtSubStart_Memory | AtSubStart_ResourceOwner | AfterTriggerBeginSubXact
| CallSubXactCallbacks (ev : SubXactEvent) (mySubid parentSubid : SubTransactionId)
| AtEOSubXact_Parallel (isCommit : bool) | AfterTriggerEndSubXact (isCommit : bool) | AtSubCommit_Portals
| AtEOSubXact_LargeObject (isCommit : bool) | AtSubCommit_Notify | AtEOSubXact_RelationCache (isCommit : bool)
| AtEOSubXact_Inval (isCommit : bool) | AtSubCommit_smgr | XactLockTableDelete (xid : TransactionId)
| AtEOSubXact_SPI (isCommit : bool) | AtEOSubXact_on_commit_actions (isCommit : bool)
| AtEOSubXact_Namespace (isCommit : bool) | AtEOSubXact_Files (isCommit : bool) | AtEOSubXact_HashTables (isCommit : bool)
| AtEOSubXact_PgStat (isCommit : bool) | AtSubCommit_Snapshot (level : Z) | AtSubCommit_Memory
| AtSubAbort_Memory | AtSubAbort_Portals | AtSubAbort_Notify | AtSubAbort_smgr | AtSubAbort_Snapshot (level : Z)
| AtSubCleanup_Portals | AtSubCleanup_Memory
(** a message that does not change the control flow *)
| Warning (msg : string).

(** ** State and environment *)

Inductive elevel := ERROR | FATAL | PANIC.

Record XactErr := mkXactErr { err_level : elevel; err_msg : string }.

Section Xact.
Context {CommitTs : Type}.

Record XactState := mkXactState {
  TopTransactionStateData : TransactionStateData;
  subs : list TransactionStateData;  (** the subtransactions, innermost first *)
  glob : XactGlobals;
  gen : XidGen CommitTs;             (** the shared state of varsup.c and its SLRUs, and [MyProc] *)
  fetch_cache : FetchCache;          (** the cache of transam.c *)
  calls : list XactCall;             (** latest first *)
}.

(** Settings of the backend and answers of the subsystems.  [raises] tells
    whether a call reports an error, given the calls before it. *)
Record XEnv := mkXEnv {
  raises : list XactCall -> XactCall -> bool;
  proc_mode : bool -> ProcessMode;            (** given [IsInParallelMode] *)
  IsParallelWorker : bool;
  XLogLogicalInfoActive : bool;
  XLogStandbyInfoActive : bool;
  StartsInRecovery : bool;                    (** [RecoveryInProgress] at transaction start *)
  DefaultChars : SavedTransactionCharacteristics;
  synchronous_commit : bool;                  (** [> SYNCHRONOUS_COMMIT_OFF] *)
  replorigin : bool;
  nrels : bool -> Z;                          (** [smgrGetPendingDeletes] *)
  ndroppedstats : bool -> Z;
  nmsgs : Z;
  portal_rounds : nat;                        (** how often [PreCommit_Portals] finds portals *)
  wal_end : list XactCall -> XLogRecPtr -> XLogRecPtr;  (** [XactLastRecEnd] after a call that may log *)
  XactHasExportedSnapshots : bool;
  env_TransactionXmin : TransactionId;
  guc_chars : bool -> Z -> SavedTransactionCharacteristics -> SavedTransactionCharacteristics;
                                              (** effect of [AtEOXact_GUC] on them *)
  clog_contention : ClogContention;
  others_assign : XidGen CommitTs -> XidGen CommitTs;  (** what others do while XidGenLock is released *)
  ExtendCommitTs : TransactionId -> CommitTs -> CommitTs;
}.

(** ** The monad *)

Definition X (A : Type) : Type := XEnv -> XactState -> (XactErr + A) * XactState.

Definition ret {A} (a : A) : X A := fun _ s => (inr a, s).
Definition bind {A B} (m : X A) (f : A -> X B) : X B :=
  fun e s => match m e s with
             | (inl r, s') => (inl r, s')
             | (inr a, s') => f a e s'
             end.

End Xact.

Arguments XactState : clear implicits.
Arguments XEnv : clear implicits.

Declare Scope xact_scope.
Notation "'let*' x := m 'in' k" := (bind m (fun x => k))
  (at level 10, x name, m at level 100, k at level 200) : xact_scope.
Notation "m ';;' k" := (bind m (fun _ => k)) (at level 100, k at level 200, right associativity) : xact_scope.
Open Scope xact_scope.

Section Basics.
Context {CommitTs : Type}.
Abbreviation X := (@X CommitTs).
Abbreviation XactState := (XactState CommitTs).

Definition get {A} (f : XactState -> A) : X A := fun _ s => (inr (f s), s).
Definition env {A} (f : XEnv CommitTs -> A) : X A := fun e s => (inr (f e), s).
Definition modify (f : XactState -> XactState) : X unit := fun _ s => (inr tt, f s).

(** In a critical section every error is a panic. *)
Definition raise {A} (lvl : elevel) (msg : string) : X A :=
  fun _ s => (inl (mkXactErr (match CritSectionCount (glob s) with O => lvl | S _ => PANIC end) msg), s).

Definition add_call (f : XactCall) (s : XactState) : XactState :=
  mkXactState (TopTransactionStateData s) (subs s) (glob s) (gen s) (fetch_cache s) (f :: calls s).

Definition call (f : XactCall) : X unit :=
  fun e s => if raises e (calls s) f
             then raise ERROR "error in a called routine" e (add_call f s)
             else (inr tt, add_call f s).

Definition warn (msg : string) : X unit := modify (add_call (Warning msg)).

Definition when (b : bool) (m : X unit) : X unit := if b then m else ret tt.

Fixpoint run_calls (l : list XactCall) : X unit :=
  match l with
  | [] => ret tt
  | f :: l => call f;; run_calls l
  end.

(** *** The stack *)

Definition CurrentTransactionState (s : XactState) : TransactionStateData :=
  match subs s with [] => TopTransactionStateData s | t :: _ => t end.

Definition parent_of (s : XactState) : TransactionStateData :=
  match subs s with _ :: t :: _ => t | _ => TopTransactionStateData s end.

Definition set_top (t : TransactionStateData) (s : XactState) : XactState :=
  mkXactState t (subs s) (glob s) (gen s) (fetch_cache s) (calls s).
Definition set_subs (l : list TransactionStateData) (s : XactState) : XactState :=
  mkXactState (TopTransactionStateData s) l (glob s) (gen s) (fetch_cache s) (calls s).
Definition set_glob (g : XactGlobals) (s : XactState) : XactState :=
  mkXactState (TopTransactionStateData s) (subs s) g (gen s) (fetch_cache s) (calls s).
Definition set_gen (g : XidGen CommitTs) (s : XactState) : XactState :=
  mkXactState (TopTransactionStateData s) (subs s) (glob s) g (fetch_cache s) (calls s).
Definition set_cache (c : FetchCache) (s : XactState) : XactState :=
  mkXactState (TopTransactionStateData s) (subs s) (glob s) (gen s) c (calls s).

Definition upd_top (f : TransactionStateData -> TransactionStateData) : X unit :=
  modify (fun s => set_top (f (TopTransactionStateData s)) s).
Definition upd_glob (f : XactGlobals -> XactGlobals) : X unit := modify (fun s => set_glob (f (glob s)) s).

(** Update the current transaction state, through [s->...]. *)
Definition upd_current_in (f : TransactionStateData -> TransactionStateData) (s : XactState) : XactState :=
  match subs s with
  | [] => set_top (f (TopTransactionStateData s)) s
  | t :: rest => set_subs (f t :: rest) s
  end.
Definition upd_current (f : TransactionStateData -> TransactionStateData) : X unit := modify (upd_current_in f).

(** Update [s->parent]. *)
Definition upd_parent_in (f : TransactionStateData -> TransactionStateData) (s : XactState) : XactState :=
  match subs s with
  | [] => s
  | [_] => set_top (f (TopTransactionStateData s)) s
  | t :: p :: rest => set_subs (t :: f p :: rest) s
  end.
Definition upd_parent (f : TransactionStateData -> TransactionStateData) : X unit := modify (upd_parent_in f).

(** *** Accessors *)

Definition IsTransactionState (s : XactState) : bool :=
  bool_decide (state (CurrentTransactionState s) = TRANS_INPROGRESS).

Definition IsAbortedTransactionBlockState (s : XactState) : bool :=
  match blockState (CurrentTransactionState s) with
  | TBLOCK_ABORT | TBLOCK_SUBABORT => true
  | _ => false
  end.

Definition GetTopTransactionIdIfAny (s : XactState) : TransactionId :=
  XidFromFullTransactionId (XactTopFullTransactionId (glob s)).

Definition GetCurrentTransactionIdIfAny (s : XactState) : TransactionId :=
  XidFromFullTransactionId (fullTransactionId (CurrentTransactionState s)).

Definition GetTopFullTransactionIdIfAny (s : XactState) : FullTransactionId := XactTopFullTransactionId (glob s).

Definition GetCurrentFullTransactionIdIfAny (s : XactState) : FullTransactionId :=
  fullTransactionId (CurrentTransactionState s).

Definition GetCurrentSubTransactionId (s : XactState) : SubTransactionId :=
  subTransactionId (CurrentTransactionState s).

Definition GetCurrentTransactionNestLevel (s : XactState) : Z := nestingLevel (CurrentTransactionState s).

Definition TransactionStartedDuringRecovery (s : XactState) : bool := startedInRecovery (CurrentTransactionState s).

Definition IsInParallelMode (s : XactState) : bool := parallelModeLevel (CurrentTransactionState s) != 0.

Definition IsSubTransaction (s : XactState) : bool := 2 <=? nestingLevel (CurrentTransactionState s).

Definition MarkCurrentTransactionIdLoggedIfAny : X unit :=
  let* s := get CurrentTransactionState in
  when (FullTransactionIdIsValid (fullTransactionId s)) (upd_current (set_didLogXid true)).

Definition IsSubxactTopXidLogPending (e : XEnv CommitTs) (s : XactState) : bool :=
  if topXidLogged (CurrentTransactionState s) then false
  else if negb (XLogLogicalInfoActive e) then false
  else if negb (IsTransactionState s) then false
  else if negb (IsSubTransaction s) then false
  else if negb (TransactionIdIsValid (GetCurrentTransactionIdIfAny s)) then false
  else true.

Definition MarkSubxactTopXidLogged : X unit := upd_current (set_topXidLogged true).

Definition EnterParallelMode : X unit :=
  upd_current (fun t => set_parallelModeLevel (parallelModeLevel t + 1) t).
Definition ExitParallelMode : X unit :=
  upd_current (fun t => set_parallelModeLevel (parallelModeLevel t - 1) t).

Definition ForceSyncCommit : X unit :=
  upd_glob (fun g => mkXactGlobals (XactTopFullTransactionId g) (currentSubTransactionId g) (currentCommandId g)
    (currentCommandIdUsed g) (unreportedXids g) (ParallelCurrentXids g) (xact_chars g) (MyXactFlags g) true
    (prepareGID g) (XactLastRecEnd g) (TopTransactionResourceOwner g) (CritSectionCount g) (delayChkptStart g)
    (CurrentUser g) (GUCNestLevel g)).

(** The states from the current one up to the top. *)
Definition state_stack (s : XactState) : list TransactionStateData := subs s ++ [TopTransactionStateData s].

Definition SubTransactionIsActive (subxid : SubTransactionId) (s : XactState) : bool :=
  existsb (fun t => negb (bool_decide (state t = TRANS_ABORT)) && (subTransactionId t =? subxid)) (state_stack s).

End Basics.

(** ** The process entry *)

(** The scan for [xid] in [MyProc->subxids], from the end. *)
Fixpoint last_index (xid : TransactionId) (l : list TransactionId) : option nat :=
  match l with
  | [] => None
  | y :: l =>
      match last_index xid l with
      | Some j => Some (S j)
      | None => if TransactionIdEquals y xid then Some O else None
      end
  end.

(** The found entry is overwritten by the last one. *)
Definition subxids_remove (xid : TransactionId) (l : list TransactionId) : option (list TransactionId) :=
  j ← last_index xid l;
  z ← last l;
  Some (take (length l - 1) (<[j := z]> l)).

(** ** Transaction ids *)

(** The binary search loops of [TransactionIdIsCurrentTransactionId]. *)
Fixpoint xid_bsearch (less : TransactionId -> TransactionId -> bool) (fuel : nat) (a : list TransactionId)
    (xid : TransactionId) (low high : Z) : bool :=
  match fuel with
  | O => false
  | S n =>
      if high <? low then false
      else
        let middle := low + (high - low) / 2 in
        let probe := default 0 (a !! Z.to_nat middle) in
        if TransactionIdEquals probe xid then true
        else if less probe xid then xid_bsearch less n a xid (middle + 1) high
        else xid_bsearch less n a xid low (middle - 1)
  end.

Definition search_xids (less : TransactionId -> TransactionId -> bool) (a : list TransactionId) (xid : TransactionId) : bool :=
  xid_bsearch less (S (length a)) a xid 0 (Z.of_nat (length a) - 1).

Section Xids.
Context {CommitTs : Type}.
Abbreviation X := (@X CommitTs).
Abbreviation XactState := (XactState CommitTs).

Definition state_has_xid (xid : TransactionId) (t : TransactionStateData) : bool :=
  if bool_decide (state t = TRANS_ABORT) then false
  else if negb (FullTransactionIdIsValid (fullTransactionId t)) then false
  else if TransactionIdEquals xid (XidFromFullTransactionId (fullTransactionId t)) then true
  else search_xids TransactionIdPrecedes (childXids t) xid.

Definition TransactionIdIsCurrentTransactionId (xid : TransactionId) (s : XactState) : bool :=
  if negb (TransactionIdIsNormal xid) then false
  else if TransactionIdEquals xid (GetTopTransactionIdIfAny s) then true
  else
    match ParallelCurrentXids (glob s) with
    | _ :: _ => search_xids Z.ltb (ParallelCurrentXids (glob s)) xid
    | [] => existsb (state_has_xid xid) (state_stack s)
    end.

(** *** Assignment

    A transaction state is addressed by its depth: 0 is the top, [d] the
    [d]th subtransaction from the bottom of the stack. *)

Definition state_at (d : nat) (s : XactState) : TransactionStateData :=
  match d with
  | O => TopTransactionStateData s
  | S _ => default (TopTransactionStateData s) (subs s !! (length (subs s) - d)%nat)
  end.

Definition upd_at (d : nat) (f : TransactionStateData -> TransactionStateData) (s : XactState) : XactState :=
  match d with
  | O => set_top (f (TopTransactionStateData s)) s
  | S _ => set_subs (alter f (length (subs s) - d)%nat (subs s)) s
  end.

Definition has_xid (t : TransactionStateData) : bool := FullTransactionIdIsValid (fullTransactionId t).

(** The ancestors of depth below [d] without a transaction id, up to the first
    that has one; nearest first. *)
Fixpoint unassigned_parents (d : nat) (s : XactState) : list nat :=
  match d with
  | O => []
  | S p => if has_xid (state_at p s) then [] else p :: unassigned_parents p s
  end.

(** A call that may write a WAL record: its end is remembered and the current
    xid counts as logged. *)
Definition log_record (f : XactCall) : X unit :=
  call f;;
  let* lsn := (fun e s => (inr (wal_end e (calls s) (XactLastRecEnd (glob s))), s)) in
  upd_glob (set_XactLastRecEnd lsn);;
  MarkCurrentTransactionIdLoggedIfAny.

Definition do_GetNewTransactionId (isSubXact : bool) : X FullTransactionId :=
  call (CGetNewTransactionId isSubXact);;
  fun e s =>
    match GetNewTransactionId (ExtendCommitTs e) (proc_mode e (IsInParallelMode s)) (others_assign e) isSubXact (gen s) with
    | Ok (full_xid, g) => (inr full_xid, set_gen g s)
    | Err _ => raise ERROR "cannot assign a transaction id" e s
    end.

Definition do_SubTransSetParent (xid parent : TransactionId) : X unit :=
  call (CSubTransSetParent xid parent);;
  fun e s =>
    match SubTransSetParent xid parent (xg_subtrans (gen s)) with
    | Ok c => (inr tt, set_gen (mkXidGen (ShmemVariableCache (gen s)) (xg_clog (gen s)) (xg_commit_ts (gen s)) c
                                  (MyProc (gen s)) (xg_events (gen s))) s)
    | Err _ => raise ERROR "could not access pg_subtrans" e s
    end.

Definition report_assignment (xid : TransactionId) (log_unknown_top : bool) : X unit :=
  upd_glob (fun g => set_unreportedXids (unreportedXids g ++ [xid]) g);;
  let* unreported := get (fun s => unreportedXids (glob s)) in
  when ((PGPROC_MAX_CACHED_SUBXIDS <=? length unreported)%nat || log_unknown_top)
    (let* xtop := get GetTopTransactionIdIfAny in
     log_record (XLogInsert_assignment xtop unreported);;
     upd_glob (set_unreportedXids []);;
     upd_top (set_didLogXid true)).

(** The parents are assigned first; the recursion is one level deep. *)
Fixpoint AssignTransactionId_rec (fuel : nat) (d : nat) : X unit :=
  match fuel with
  | O => raise PANIC "out of fuel"
  | S n =>
      let* parallel := get IsInParallelMode in
      let* worker := env IsParallelWorker in
      if parallel || worker then raise ERROR "cannot assign XIDs during a parallel operation"
      else
        let isSubXact := negb (d =? 0)%nat in
        let* parents := get (unassigned_parents d) in
        foldr (fun p m => m;; AssignTransactionId_rec n p) (ret tt) parents;;
        let* logical := env XLogLogicalInfoActive in
        let* top := get TopTransactionStateData in
        let log_unknown_top := isSubXact && logical && negb (didLogXid top) in
        let* full := do_GetNewTransactionId isSubXact in
        modify (upd_at d (set_fullTransactionId full));;
        let xid := XidFromFullTransactionId full in
        when (negb isSubXact) (upd_glob (set_XactTopFullTransactionId full));;
        let* parent := get (state_at (d - 1)) in
        when isSubXact (do_SubTransSetParent xid (XidFromFullTransactionId (fullTransactionId parent)));;
        when (negb isSubXact) (call (RegisterPredicateLockingXid xid));;
        call (XactLockTableInsert xid);;
        let* standby := env XLogStandbyInfoActive in
        when (isSubXact && standby) (report_assignment xid log_unknown_top)
  end.

Definition AssignTransactionId (d : nat) : X unit := AssignTransactionId_rec 2 d.

Definition GetTopTransactionId : X TransactionId :=
  let* full := get GetTopFullTransactionIdIfAny in
  when (negb (FullTransactionIdIsValid full)) (AssignTransactionId 0);;
  get GetTopTransactionIdIfAny.

Definition GetCurrentTransactionId : X TransactionId :=
  let* t := get CurrentTransactionState in
  let* depth := get (fun s => length (subs s)) in
  when (negb (has_xid t)) (AssignTransactionId depth);;
  get GetCurrentTransactionIdIfAny.

Definition GetTopFullTransactionId : X FullTransactionId :=
  GetTopTransactionId;; get GetTopFullTransactionIdIfAny.
Definition GetCurrentFullTransactionId : X FullTransactionId :=
  GetCurrentTransactionId;; get GetCurrentFullTransactionIdIfAny.

(** ** Command ids *)

Definition set_command (cid : CommandId) (used : bool) (g : XactGlobals) : XactGlobals :=
  mkXactGlobals (XactTopFullTransactionId g) (currentSubTransactionId g) cid used (unreportedXids g)
    (ParallelCurrentXids g) (xact_chars g) (MyXactFlags g) (forceSyncCommit g) (prepareGID g) (XactLastRecEnd g)
    (TopTransactionResourceOwner g) (CritSectionCount g) (delayChkptStart g) (CurrentUser g) (GUCNestLevel g).

Definition GetCurrentCommandId (used : bool) : X CommandId :=
  when used (upd_glob (fun g => set_command (currentCommandId g) true g));;
  get (fun s => currentCommandId (glob s)).

Definition CommandCounterIncrement : X unit :=
  let* used := get (fun s => currentCommandIdUsed (glob s)) in
  when used
    (let* parallel := get IsInParallelMode in
     let* worker := env IsParallelWorker in
     if parallel || worker then raise ERROR "cannot start commands during a parallel operation"
     else
       let* cid := get (fun s => currentCommandId (glob s)) in
       if cid +u32 1 =? InvalidCommandId
       then raise ERROR "cannot have more than 2^32-2 commands in a transaction"
       else
         upd_glob (set_command (cid +u32 1) false);;
         call (SnapshotSetCommandId (cid +u32 1));;
         call AtCCI_LocalCache).

(** ** Subcommitted children *)

Definition xactGetCommittedChildren (s : XactState) : list TransactionId := childXids (CurrentTransactionState s).

Definition AtSubCommit_childXids : X unit :=
  let* t := get CurrentTransactionState in
  let* p := get parent_of in
  let new_nChildXids := Z.of_nat (length (childXids p)) + Z.of_nat (length (childXids t)) + 1 in
  let limit := MaxAllocSize / 4 in
  let new_maxChildXids :=
    if maxChildXids p <? new_nChildXids then Z.min (new_nChildXids * 2) limit else maxChildXids p in
  if new_maxChildXids <? new_nChildXids
  then raise ERROR "maximum number of committed subtransactions exceeded"
  else
    upd_parent (set_children (childXids p ++ XidFromFullTransactionId (fullTransactionId t) :: childXids t)
                  new_maxChildXids);;
    upd_current (set_children [] 0).

Definition AtSubAbort_childXids : X unit := upd_current (set_children [] 0).

End Xids.
