(* ===== verification/XactEnd.v ===== *)
(** * XactEnd: starting and ending transactions

    Models the low-level half of src/backend/access/transam/xact.c: recording
    an outcome in the WAL and the commit log, and starting, committing,
    preparing, aborting and cleaning up transactions and subtransactions, with
    every call to another subsystem in the order of the code. *)

From stdpp Require Import strings.
From S2P Require Import Prelude Steps TransactionId Slru Clog Subtrans Transam Varsup HeapTuple Xact.

Open Scope xact_scope.

Section End_.
Context {CommitTs : Type}.
Abbreviation X := (@X CommitTs).
Abbreviation XactState := (XactState CommitTs).

(** ** Effects on shared state *)

Definition set_proc (p : ProcXids) (s : XactState) : XactState :=
  set_gen (mkXidGen (ShmemVariableCache (gen s)) (xg_clog (gen s)) (xg_commit_ts (gen s)) (xg_subtrans (gen s)) p
             (xg_events (gen s))) s.

Definition set_clog (c : Slru) (s : XactState) : XactState :=
  let k := xg_clog (gen s) in
  set_gen (mkXidGen (ShmemVariableCache (gen s)) (mkClogSys c (oldestClogXid k) (clog_xlog k) (clog_flushed k))
             (xg_commit_ts (gen s)) (xg_subtrans (gen s)) (MyProc (gen s)) (xg_events (gen s))) s.

(** What the end of the transaction does to our own entry, seen from xact.c:
    the ids and the flag against checkpoints are cleared.  The arrays of all
    processes, the latest completed id and the completion count are in
    ProcArray. *)
Definition ProcArrayEndTransaction (latestXid : TransactionId) : X unit :=
  call (CProcArrayEndTransaction latestXid);;
  when (TransactionIdIsValid latestXid) (modify (set_proc (mkProcXids InvalidTransactionId [] false)));;
  upd_glob (set_delayChkptStart false).

Definition ProcArrayClearTransaction : X unit :=
  call CProcArrayClearTransaction;;
  modify (set_proc (mkProcXids InvalidTransactionId [] false)).

Definition remove_running_xid (xid : TransactionId) : X unit :=
  let* p := get (fun s => MyProc (gen s)) in
  match subxids_remove xid (p_subxids p) with
  | Some l => modify (set_proc (mkProcXids (p_xid p) l (p_overflowed p)))
  | None => when (negb (p_overflowed p)) (warn "did not find subXID in MyProc")
  end.

Definition XidCacheRemoveRunningXids (xid : TransactionId) (xids : list TransactionId) : X unit :=
  call (CXidCacheRemoveRunningXids xid xids);;
  foldr (fun x m => m;; remove_running_xid x) (ret tt) xids;;
  remove_running_xid xid.

(** The commit log is updated as our process advertises itself. *)
Definition do_clog (f : XactCall)
    (update : MyProcXids -> ClogContention -> Steps Slru) : X unit :=
  call f;;
  fun e s =>
    let p := MyProc (gen s) in
    match run_steps (update (mkMyProcXids (p_xid p) (p_subxids p)) (clog_contention e)) (clog (xg_clog (gen s))) with
    | Some c => (inr tt, set_clog c s)
    | None => raise ERROR "could not access status of transaction" e s
    end.

Definition do_DidCommit (xid : TransactionId) : X bool :=
  call (CTransactionIdDidCommit xid);;
  fun e s =>
    let lookup := mkLookupEnv (clog (xg_clog (gen s))) (xg_subtrans (gen s)) (env_TransactionXmin e) in
    match TransactionIdDidCommit (S (S (length (subs s)))) lookup xid (fetch_cache s) with
    | Ok (b, c) => (inr b, set_cache c s)
    | Err _ => raise ERROR "could not access status of transaction" e s
    end.

Definition START_CRIT_SECTION : X unit := upd_glob (fun g => set_CritSectionCount (S (CritSectionCount g)) g).
Definition END_CRIT_SECTION : X unit := upd_glob (fun g => set_CritSectionCount (pred (CritSectionCount g)) g).

Definition do_AtEOXact_GUC (isCommit : bool) (nestLevel : Z) : X unit :=
  call (AtEOXact_GUC isCommit nestLevel);;
  let* f := env guc_chars in
  upd_glob (fun g => set_GUCNestLevel (nestLevel - 1) (set_xact_chars (f isCommit nestLevel (xact_chars g)) g)).

(** ** Recording the outcome *)

Definition RecordTransactionCommit : X TransactionId :=
  let* xid := get GetTopTransactionIdIfAny in
  let markXidCommitted := TransactionIdIsValid xid in
  let* logical := env XLogLogicalInfoActive in
  when logical (log_record LogLogicalInvalidations);;
  let* nrels := env (fun e => nrels e true) in
  let* children := get xactGetCommittedChildren in
  let* ndropped := env (fun e => ndroppedstats e true) in
  let* nmsgs := env (fun e => if XLogStandbyInfoActive e then nmsgs e else 0) in
  let* wrote_xlog := get (fun s => XactLastRecEnd (glob s) != 0) in
  let* origin := env replorigin in
  let* sync := env synchronous_commit in
  let* force := get (fun s => forceSyncCommit (glob s)) in
  (if negb markXidCommitted then
     if (nrels != 0) || (ndropped != 0)
     then raise ERROR "cannot commit a transaction that deleted files but has no xid"
     else when (nmsgs != 0) (log_record LogStandbyInvalidations)
   else
     START_CRIT_SECTION;;
     upd_glob (set_delayChkptStart true);;
     log_record (XactLogCommitRecord children);;
     when origin (call replorigin_session_advance);;
     call (TransactionTreeSetCommitTsData xid children));;
  if negb markXidCommitted && negb (wrote_xlog || (nmsgs != 0)) then ret InvalidTransactionId
  else
    let wrote_xlog := wrote_xlog || (negb markXidCommitted && (nmsgs != 0)) in
    let* lastrec := get (fun s => XactLastRecEnd (glob s)) in
    (if (wrote_xlog && markXidCommitted && sync) || force || (0 <? nrels) then
       call (XLogFlush lastrec);;
       when markXidCommitted
         (do_clog (CTransactionIdCommitTree xid children) (fun p ct => TransactionIdCommitTree false p ct xid children))
     else
       call (XLogSetAsyncXactLSN lastrec);;
       when markXidCommitted
         (do_clog (CTransactionIdAsyncCommitTree xid children lastrec)
            (fun p ct => TransactionIdAsyncCommitTree false p ct xid children lastrec)));;
    when markXidCommitted (upd_glob (set_delayChkptStart false);; END_CRIT_SECTION);;
    let latestXid := TransactionIdLatest xid children in
    when (wrote_xlog && markXidCommitted) (call (SyncRepWaitForLSN lastrec));;
    upd_glob (set_XactLastRecEnd 0);;
    ret latestXid.

Definition RecordTransactionAbort (isSubXact : bool) : X TransactionId :=
  let* xid := get GetCurrentTransactionIdIfAny in
  if negb (TransactionIdIsValid xid) then
    when (negb isSubXact) (upd_glob (set_XactLastRecEnd 0));;
    ret InvalidTransactionId
  else
    let* committed := do_DidCommit xid in
    if committed then raise PANIC "cannot abort transaction, it was already committed"
    else
      let* origin := env replorigin in
      let* children := get xactGetCommittedChildren in
      START_CRIT_SECTION;;
      log_record (XactLogAbortRecord children);;
      when origin (call replorigin_session_advance);;
      let* lastrec := get (fun s => XactLastRecEnd (glob s)) in
      when (negb isSubXact) (call (XLogSetAsyncXactLSN lastrec));;
      do_clog (CTransactionIdAbortTree xid children) (fun p ct => TransactionIdAbortTree false p ct xid children);;
      END_CRIT_SECTION;;
      let latestXid := TransactionIdLatest xid children in
      when isSubXact (XidCacheRemoveRunningXids xid children);;
      when (negb isSubXact) (upd_glob (set_XactLastRecEnd 0));;
      ret latestXid.

(** ** Top-level transactions *)

Definition start_globals (ro : bool) (chars : SavedTransactionCharacteristics) (g : XactGlobals) : XactGlobals :=
  mkXactGlobals (XactTopFullTransactionId g) TopSubTransactionId FirstCommandId false [] (ParallelCurrentXids g)
    (mkCharacteristics (XactIsoLevel chars) ro (XactDeferrable chars)) 0 false (prepareGID g) (XactLastRecEnd g)
    (TopTransactionResourceOwner g) (CritSectionCount g) (delayChkptStart g) (CurrentUser g) (GUCNestLevel g).

Definition StartTransaction : X unit :=
  modify (set_subs []);;
  let* user := get (fun s => CurrentUser (glob s)) in
  let* recovery := env StartsInRecovery in
  let* chars := env DefaultChars in
  upd_top (fun t => mkTransactionState InvalidFullTransactionId TopSubTransactionId (name t) (savepointLevel t)
                      TRANS_START (blockState t) 1 1 (curTransactionOwner t) [] 0 user (prevXactReadOnly t)
                      recovery false (parallelModeLevel t) (chain t) (topXidLogged t));;
  upd_glob (start_globals (recovery || XactReadOnly chars) chars);;
  call AtStart_Memory;;
  call AtStart_ResourceOwner;;
  upd_top (set_curTransactionOwner true);;
  upd_glob (set_TopTransactionResourceOwner true);;
  call VirtualXactLockTableInsert;;
  call (pgstat_report_xact_timestamp true);;
  call AtStart_GUC;;
  upd_glob (set_GUCNestLevel 1);;
  call AtStart_Cache;;
  call AfterTriggerBeginXact;;
  upd_top (set_state TRANS_INPROGRESS).

(** Deferred triggers and portals, until no portal was open. *)
Fixpoint fire_deferred (isPrepare : bool) (rounds : nat) : X unit :=
  call AfterTriggerFireDeferred;;
  call (PreCommit_Portals isPrepare);;
  match rounds with
  | O => ret tt
  | S n => fire_deferred isPrepare n
  end.

(** The fields reset when a top-level transaction is over. *)
Definition end_top (t : TransactionStateData) : TransactionStateData :=
  mkTransactionState InvalidFullTransactionId InvalidSubTransactionId (name t) (savepointLevel t) (state t)
    (blockState t) 0 0 (curTransactionOwner t) [] 0 (prevUser t) (prevXactReadOnly t) (startedInRecovery t) (didLogXid t)
    (parallelModeLevel t) (chain t) (topXidLogged t).

Definition end_globals (g : XactGlobals) : XactGlobals :=
  set_XactTopFullTransactionId InvalidFullTransactionId (set_ParallelCurrentXids [] g).

Definition delete_top_owner : X unit :=
  call ResourceOwnerDelete;;
  upd_current (set_curTransactionOwner false);;
  upd_glob (set_TopTransactionResourceOwner false).

Definition CommitTransaction : X unit :=
  let* s := get CurrentTransactionState in
  let is_parallel_worker := bool_decide (blockState s = TBLOCK_PARALLEL_INPROGRESS) in
  when is_parallel_worker EnterParallelMode;;
  when (negb (bool_decide (state s = TRANS_INPROGRESS))) (warn "CommitTransaction while in unexpected state");;
  let* rounds := env portal_rounds in
  fire_deferred false rounds;;
  call (CallXactCallbacks (if is_parallel_worker then XACT_EVENT_PARALLEL_PRE_COMMIT else XACT_EVENT_PRE_COMMIT));;
  let* parallel := get IsInParallelMode in
  when parallel (call (AtEOXact_Parallel true));;
  call (AfterTriggerEndXact true);;
  call PreCommit_on_commit_actions;;
  call (smgrDoPendingSyncs true is_parallel_worker);;
  call (AtEOXact_LargeObject true);;
  call PreCommit_Notify;;
  when (negb is_parallel_worker) (call PreCommit_CheckForSerializationFailure);;
  call (AtEOXact_RelationMap true is_parallel_worker);;
  upd_current (fun t => set_parallelModeLevel 0 (set_state TRANS_COMMIT t));;
  let* latestXid := (if negb is_parallel_worker then RecordTransactionCommit
                     else call ParallelWorkerReportLastRecEnd;; ret InvalidTransactionId) in
  ProcArrayEndTransaction latestXid;;
  call (CallXactCallbacks (if is_parallel_worker then XACT_EVENT_PARALLEL_COMMIT else XACT_EVENT_COMMIT));;
  run_calls [ResourceOwnerRelease RESOURCE_RELEASE_BEFORE_LOCKS true true; AtEOXact_Buffers true;
             AtEOXact_RelationCache true; AtEOXact_Inval true; AtEOXact_MultiXact;
             ResourceOwnerRelease RESOURCE_RELEASE_LOCKS true true;
             ResourceOwnerRelease RESOURCE_RELEASE_AFTER_LOCKS true true;
             smgrDoPendingDeletes true; AtCommit_Notify];;
  do_AtEOXact_GUC true 1;;
  run_calls [AtEOXact_SPI true; AtEOXact_Enum; AtEOXact_on_commit_actions true;
             AtEOXact_Namespace true is_parallel_worker; AtEOXact_SMgr; AtEOXact_Files true; CAtEOXact_ComboCid;
             AtEOXact_HashTables true; AtEOXact_PgStat true is_parallel_worker; AtEOXact_Snapshot true false;
             AtEOXact_ApplyLauncher true; AtEOXact_LogicalRepWorkers true; pgstat_report_xact_timestamp false];;
  delete_top_owner;;
  call AtCommit_Memory;;
  upd_current (fun t => set_state TRANS_DEFAULT (end_top t));;
  upd_glob end_globals.

Definition PrepareTransaction : X unit :=
  let* s := get CurrentTransactionState in
  let* xid := GetCurrentTransactionId in
  when (negb (bool_decide (state s = TRANS_INPROGRESS))) (warn "PrepareTransaction while in unexpected state");;
  let* rounds := env portal_rounds in
  fire_deferred true rounds;;
  run_calls [CallXactCallbacks XACT_EVENT_PRE_PREPARE; AfterTriggerEndXact true; PreCommit_on_commit_actions;
             smgrDoPendingSyncs true false; AtEOXact_LargeObject true; PreCommit_CheckForSerializationFailure];;
  let* flags := get (fun s => MyXactFlags (glob s)) in
  if has_flag flags XACT_FLAGS_ACCESSEDTEMPNAMESPACE
  then raise ERROR "cannot PREPARE a transaction that has operated on temporary objects"
  else
    let* exported := env XactHasExportedSnapshots in
    if exported then raise ERROR "cannot PREPARE a transaction that has exported snapshots"
    else
      upd_current (set_state TRANS_PREPARE);;
      call (MarkAsPreparing xid);;
      upd_glob (set_prepareGID None);;
      run_calls [StartPrepare; AtPrepare_Notify; AtPrepare_Locks; AtPrepare_PredicateLocks; AtPrepare_PgStat;
                 AtPrepare_MultiXact; AtPrepare_RelationMap; EndPrepare];;
      upd_glob (set_XactLastRecEnd 0);;
      call (PostPrepare_Locks xid);;
      ProcArrayClearTransaction;;
      run_calls [CallXactCallbacks XACT_EVENT_PREPARE; ResourceOwnerRelease RESOURCE_RELEASE_BEFORE_LOCKS true true;
                 AtEOXact_Buffers true; AtEOXact_RelationCache true; PostPrepare_PgStat; PostPrepare_Inval;
                 PostPrepare_smgr; PostPrepare_MultiXact xid; PostPrepare_PredicateLocks xid;
                 ResourceOwnerRelease RESOURCE_RELEASE_LOCKS true true;
                 ResourceOwnerRelease RESOURCE_RELEASE_AFTER_LOCKS true true; PostPrepare_Twophase];;
      do_AtEOXact_GUC true 1;;
      run_calls [AtEOXact_SPI true; AtEOXact_Enum; AtEOXact_on_commit_actions true; AtEOXact_Namespace true false;
                 AtEOXact_SMgr; AtEOXact_Files true; CAtEOXact_ComboCid; AtEOXact_HashTables true;
                 AtEOXact_Snapshot true true; AtEOXact_ApplyLauncher false; AtEOXact_LogicalRepWorkers false;
                 pgstat_report_xact_timestamp false];;
      delete_top_owner;;
      call AtCommit_Memory;;
      upd_current (fun t => set_state TRANS_DEFAULT (end_top t));;
      upd_glob end_globals.

(** What both abort routines do first. *)
Definition abort_prologue : list XactCall :=
  [LWLockReleaseAll; pgstat_report_wait_end; pgstat_progress_end_command; UnlockBuffers; XLogResetInsertion;
   ConditionVariableCancelSleep; LockErrorCleanup; reschedule_timeouts; sigprocmask].

Definition AbortTransaction : X unit :=
  run_calls (AtAbort_Memory :: abort_prologue);;
  let* s := get CurrentTransactionState in
  let is_parallel_worker := bool_decide (blockState s = TBLOCK_PARALLEL_INPROGRESS) in
  when (negb (bool_decide (state s = TRANS_INPROGRESS)) && negb (bool_decide (state s = TRANS_PREPARE)))
    (warn "AbortTransaction while in unexpected state");;
  upd_current (set_state TRANS_ABORT);;
  upd_glob (set_CurrentUser (prevUser s));;
  run_calls [ResetReindexState (nestingLevel s); ResetLogicalStreamingState; SnapBuildResetExportedSnapshotState];;
  let* parallel := get IsInParallelMode in
  when parallel (call (AtEOXact_Parallel false);; upd_current (set_parallelModeLevel 0));;
  run_calls [AfterTriggerEndXact false; AtAbort_Portals; smgrDoPendingSyncs false is_parallel_worker;
             AtEOXact_LargeObject false; AtAbort_Notify; AtEOXact_RelationMap false is_parallel_worker; AtAbort_Twophase];;
  let* lastrec := get (fun s => XactLastRecEnd (glob s)) in
  let* latestXid := (if negb is_parallel_worker then RecordTransactionAbort false
                     else call (XLogSetAsyncXactLSN lastrec);; ret InvalidTransactionId) in
  ProcArrayEndTransaction latestXid;;
  let* owner := get (fun s => TopTransactionResourceOwner (glob s)) in
  when owner
    (call (CallXactCallbacks (if is_parallel_worker then XACT_EVENT_PARALLEL_ABORT else XACT_EVENT_ABORT));;
     run_calls [ResourceOwnerRelease RESOURCE_RELEASE_BEFORE_LOCKS false true; AtEOXact_Buffers false;
                AtEOXact_RelationCache false; AtEOXact_Inval false; AtEOXact_MultiXact;
                ResourceOwnerRelease RESOURCE_RELEASE_LOCKS false true;
                ResourceOwnerRelease RESOURCE_RELEASE_AFTER_LOCKS false true; smgrDoPendingDeletes false];;
     do_AtEOXact_GUC false 1;;
     run_calls [AtEOXact_SPI false; AtEOXact_Enum; AtEOXact_on_commit_actions false;
                AtEOXact_Namespace false is_parallel_worker; AtEOXact_SMgr; AtEOXact_Files false; CAtEOXact_ComboCid;
                AtEOXact_HashTables false; AtEOXact_PgStat false is_parallel_worker; AtEOXact_ApplyLauncher false;
                AtEOXact_LogicalRepWorkers false; pgstat_report_xact_timestamp false]).

Definition CleanupTransaction : X unit :=
  let* s := get CurrentTransactionState in
  if negb (bool_decide (state s = TRANS_ABORT)) then raise FATAL "CleanupTransaction: unexpected state"
  else
    run_calls [AtCleanup_Portals; AtEOXact_Snapshot false true];;
    let* owner := get (fun s => TopTransactionResourceOwner (glob s)) in
    when owner (call ResourceOwnerDelete);;
    upd_current (set_curTransactionOwner false);;
    upd_glob (set_TopTransactionResourceOwner false);;
    call AtCleanup_Memory;;
    upd_current (fun t => set_state TRANS_DEFAULT (set_parallelModeLevel 0 (end_top t)));;
    upd_glob end_globals.

(** ** Subtransactions *)

Definition PopTransaction : X unit :=
  let* s := get CurrentTransactionState in
  when (negb (bool_decide (state s = TRANS_DEFAULT))) (warn "PopTransaction while in unexpected state");;
  let* l := get subs in
  match l with
  | [] => raise FATAL "PopTransaction with no parent"
  | _ :: rest => modify (set_subs rest)
  end.

Definition set_currentSubTransactionId (v : SubTransactionId) (g : XactGlobals) : XactGlobals :=
  mkXactGlobals (XactTopFullTransactionId g) v (currentCommandId g) (currentCommandIdUsed g) (unreportedXids g)
    (ParallelCurrentXids g) (xact_chars g) (MyXactFlags g) (forceSyncCommit g) (prepareGID g) (XactLastRecEnd g)
    (TopTransactionResourceOwner g) (CritSectionCount g) (delayChkptStart g) (CurrentUser g) (GUCNestLevel g).

Definition PushTransaction : X unit :=
  let* id := get (fun s => currentSubTransactionId (glob s)) in
  let id := id +u32 1 in
  if id =? InvalidSubTransactionId
  then raise ERROR "cannot have more than 2^32-1 subtransactions in a transaction"
  else
    upd_glob (set_currentSubTransactionId id);;
    let* p := get CurrentTransactionState in
    upd_glob (fun g => set_GUCNestLevel (GUCNestLevel g + 1) g);;
    modify (fun s =>
      let g := glob s in
      let t := mkTransactionState InvalidFullTransactionId id None (savepointLevel p) TRANS_DEFAULT TBLOCK_SUBBEGIN
                 (nestingLevel p + 1) (GUCNestLevel g) false [] 0 (CurrentUser g) (XactReadOnly (xact_chars g))
                 false false 0 false false in
      set_subs (t :: subs s) s).

Definition StartSubTransaction : X unit :=
  let* s := get CurrentTransactionState in
  let* p := get parent_of in
  when (negb (bool_decide (state s = TRANS_DEFAULT))) (warn "StartSubTransaction while in unexpected state");;
  upd_current (set_state TRANS_START);;
  call AtSubStart_Memory;;
  call AtSubStart_ResourceOwner;;
  upd_current (set_curTransactionOwner true);;
  call AfterTriggerBeginSubXact;;
  upd_current (set_state TRANS_INPROGRESS);;
  call (CallSubXactCallbacks SUBXACT_EVENT_START_SUB (subTransactionId s) (subTransactionId p)).

Definition set_XactReadOnly (b : bool) : X unit :=
  upd_glob (fun g => set_xact_chars (mkCharacteristics (XactIsoLevel (xact_chars g)) b (XactDeferrable (xact_chars g))) g).

Definition CommitSubTransaction : X unit :=
  let* s := get CurrentTransactionState in
  let* p := get parent_of in
  when (negb (bool_decide (state s = TRANS_INPROGRESS))) (warn "CommitSubTransaction while in unexpected state");;
  call (CallSubXactCallbacks SUBXACT_EVENT_PRE_COMMIT_SUB (subTransactionId s) (subTransactionId p));;
  let* parallel := get IsInParallelMode in
  when parallel (call (AtEOSubXact_Parallel true);; upd_current (set_parallelModeLevel 0));;
  upd_current (set_state TRANS_COMMIT);;
  CommandCounterIncrement;;
  let* s := get CurrentTransactionState in
  when (has_xid s) AtSubCommit_childXids;;
  run_calls [AfterTriggerEndSubXact true; AtSubCommit_Portals; AtEOSubXact_LargeObject true; AtSubCommit_Notify;
             CallSubXactCallbacks SUBXACT_EVENT_COMMIT_SUB (subTransactionId s) (subTransactionId p);
             ResourceOwnerRelease RESOURCE_RELEASE_BEFORE_LOCKS true false; AtEOSubXact_RelationCache true;
             AtEOSubXact_Inval true; AtSubCommit_smgr];;
  when (has_xid s) (call (XactLockTableDelete (XidFromFullTransactionId (fullTransactionId s))));;
  run_calls [ResourceOwnerRelease RESOURCE_RELEASE_LOCKS true false;
             ResourceOwnerRelease RESOURCE_RELEASE_AFTER_LOCKS true false];;
  do_AtEOXact_GUC true (gucNestLevel s);;
  run_calls [AtEOSubXact_SPI true; AtEOSubXact_on_commit_actions true; AtEOSubXact_Namespace true;
             AtEOSubXact_Files true; AtEOSubXact_HashTables true; AtEOSubXact_PgStat true;
             AtSubCommit_Snapshot (nestingLevel s)];;
  set_XactReadOnly (prevXactReadOnly s);;
  call ResourceOwnerDelete;;
  upd_current (set_curTransactionOwner false);;
  call AtSubCommit_Memory;;
  upd_current (set_state TRANS_DEFAULT);;
  PopTransaction.

Definition AbortSubTransaction : X unit :=
  run_calls (AtSubAbort_Memory :: abort_prologue);;
  let* s := get CurrentTransactionState in
  let* p := get parent_of in
  when (negb (bool_decide (state s = TRANS_INPROGRESS))) (warn "AbortSubTransaction while in unexpected state");;
  upd_current (set_state TRANS_ABORT);;
  upd_glob (set_CurrentUser (prevUser s));;
  run_calls [ResetReindexState (nestingLevel s); ResetLogicalStreamingState];;
  let* parallel := get IsInParallelMode in
  when parallel (call (AtEOSubXact_Parallel false);; upd_current (set_parallelModeLevel 0));;
  when (curTransactionOwner s)
    (run_calls [AfterTriggerEndSubXact false; AtSubAbort_Portals; AtEOSubXact_LargeObject false; AtSubAbort_Notify];;
     RecordTransactionAbort true;;
     when (has_xid s) AtSubAbort_childXids;;
     run_calls [CallSubXactCallbacks SUBXACT_EVENT_ABORT_SUB (subTransactionId s) (subTransactionId p);
                ResourceOwnerRelease RESOURCE_RELEASE_BEFORE_LOCKS false false; AtEOSubXact_RelationCache false;
                AtEOSubXact_Inval false; ResourceOwnerRelease RESOURCE_RELEASE_LOCKS false false;
                ResourceOwnerRelease RESOURCE_RELEASE_AFTER_LOCKS false false; AtSubAbort_smgr];;
     do_AtEOXact_GUC false (gucNestLevel s);;
     run_calls [AtEOSubXact_SPI false; AtEOSubXact_on_commit_actions false; AtEOSubXact_Namespace false;
                AtEOSubXact_Files false; AtEOSubXact_HashTables false; AtEOSubXact_PgStat false;
                AtSubAbort_Snapshot (nestingLevel s)]);;
  set_XactReadOnly (prevXactReadOnly s).

Definition CleanupSubTransaction : X unit :=
  let* s := get CurrentTransactionState in
  when (negb (bool_decide (state s = TRANS_ABORT))) (warn "CleanupSubTransaction while in unexpected state");;
  call AtSubCleanup_Portals;;
  when (curTransactionOwner s) (call ResourceOwnerDelete);;
  upd_current (set_curTransactionOwner false);;
  call AtSubCleanup_Memory;;
  upd_current (set_state TRANS_DEFAULT);;
  PopTransaction.

End End_.
