(* ===== verification/XactBlock.v ===== *)
(** * XactBlock: transaction blocks and savepoints

    Models the high-level half of src/backend/access/transam/xact.c: the state
    machine behind BEGIN, COMMIT, ROLLBACK, PREPARE TRANSACTION, SAVEPOINT,
    RELEASE and ROLLBACK TO, what happens at the end of each command and after
    an error, internal subtransactions, and the state handed to parallel
    workers. *)

From stdpp Require Import strings sorting.
From S2P Require Import Prelude TransactionId Slru Clog Subtrans Transam Varsup HeapTuple Xact XactEnd.

Open Scope xact_scope.

(** ** Marking a path of the stack

    The loops of the block commands walk from the current state towards the
    top and change block states: [f] for the [n] states on the way, [g] for
    the last.  An unexpected state stops the walk. *)
Fixpoint mark_path (f g : TBlockState -> option TBlockState) (n : nat) (l : list TransactionStateData)
    : list TransactionStateData * bool :=
  match l with
  | [] => ([], true)
  | t :: l =>
      match n with
      | O => match g (blockState t) with
             | Some b => (set_blockState b t :: l, true)
             | None => (t :: l, false)
             end
      | S n => match f (blockState t) with
               | Some b => let '(l, ok) := mark_path f g n l in (set_blockState b t :: l, ok)
               | None => (t :: l, false)
               end
      end
  end.

Definition abort_mark (b : TBlockState) : option TBlockState :=
  match b with
  | TBLOCK_SUBINPROGRESS => Some TBLOCK_SUBABORT_PENDING
  | TBLOCK_SUBABORT => Some TBLOCK_SUBABORT_END
  | _ => None
  end.

Definition abort_mark_top (b : TBlockState) : option TBlockState :=
  match b with
  | TBLOCK_INPROGRESS => Some TBLOCK_ABORT_PENDING
  | TBLOCK_ABORT => Some TBLOCK_ABORT_END
  | _ => None
  end.

Definition commit_mark (b : TBlockState) : option TBlockState :=
  match b with TBLOCK_SUBINPROGRESS => Some TBLOCK_SUBCOMMIT | _ => None end.

Definition commit_mark_top (b : TBlockState) : option TBlockState :=
  match b with TBLOCK_INPROGRESS => Some TBLOCK_END | _ => None end.

Definition release_mark (b : TBlockState) : option TBlockState := Some TBLOCK_SUBRELEASE.

Definition restart_mark (b : TBlockState) : option TBlockState :=
  match b with
  | TBLOCK_SUBINPROGRESS => Some TBLOCK_SUBRESTART
  | TBLOCK_SUBABORT => Some TBLOCK_SUBABORT_RESTART
  | _ => None
  end.

(** The nearest state with the given savepoint name. *)
Fixpoint find_savepoint (n : string) (l : list TransactionStateData) : option nat :=
  match l with
  | [] => None
  | t :: l => if bool_decide (name t = Some n) then Some O else S <$> find_savepoint n l
  end.

Section Block.
Context {CommitTs : Type}.
Abbreviation X := (@X CommitTs).
Abbreviation XactState := (XactState CommitTs).

Definition set_stack (l : list TransactionStateData) (s : XactState) : XactState :=
  set_top (default (TopTransactionStateData s) (last l)) (set_subs (removelast l) s).

Definition mark_stack (f g : TBlockState -> option TBlockState) (n : nat) (msg : string) : X unit :=
  let* l := get state_stack in
  let '(l, ok) := mark_path f g n l in
  modify (set_stack l);;
  if ok then ret tt else raise FATAL msg.

Definition current_block (s : XactState) : TBlockState := blockState (CurrentTransactionState s).

Definition set_block (b : TBlockState) : X unit := upd_current (set_blockState b).

(** ** Block commands *)

Definition BeginTransactionBlock : X unit :=
  let* b := get current_block in
  match b with
  | TBLOCK_STARTED => set_block TBLOCK_BEGIN
  | TBLOCK_IMPLICIT_INPROGRESS => set_block TBLOCK_BEGIN
  | TBLOCK_INPROGRESS | TBLOCK_PARALLEL_INPROGRESS | TBLOCK_SUBINPROGRESS | TBLOCK_ABORT | TBLOCK_SUBABORT =>
      warn "there is already a transaction in progress"
  | _ => raise FATAL "BeginTransactionBlock: unexpected state"
  end.

Definition EndTransactionBlock (chain : bool) : X bool :=
  let* b := get current_block in
  let* depth := get (fun s => length (subs s)) in
  match b with
  | TBLOCK_INPROGRESS =>
      set_block TBLOCK_END;; upd_current (set_chain chain);; ret true
  | TBLOCK_IMPLICIT_INPROGRESS =>
      (if chain then raise ERROR "COMMIT AND CHAIN can only be used in transaction blocks"
       else warn "there is no transaction in progress");;
      set_block TBLOCK_END;; upd_current (set_chain chain);; ret true
  | TBLOCK_ABORT =>
      set_block TBLOCK_ABORT_END;; upd_current (set_chain chain);; ret false
  | TBLOCK_SUBINPROGRESS =>
      mark_stack commit_mark commit_mark_top depth "EndTransactionBlock: unexpected state";;
      upd_top (set_chain chain);; ret true
  | TBLOCK_SUBABORT =>
      mark_stack abort_mark abort_mark_top depth "EndTransactionBlock: unexpected state";;
      upd_top (set_chain chain);; ret false
  | TBLOCK_STARTED =>
      (if chain then raise ERROR "COMMIT AND CHAIN can only be used in transaction blocks"
       else warn "there is no transaction in progress");;
      upd_current (set_chain chain);; ret true
  | TBLOCK_PARALLEL_INPROGRESS => raise FATAL "cannot commit during a parallel operation"
  | _ => raise FATAL "EndTransactionBlock: unexpected state"
  end.

Definition PrepareTransactionBlock (gid : string) : X bool :=
  let* result := EndTransactionBlock false in
  if result then
    let* top := get TopTransactionStateData in
    if bool_decide (blockState top = TBLOCK_END) then
      upd_glob (set_prepareGID (Some gid));; upd_top (set_blockState TBLOCK_PREPARE);; ret true
    else ret false
  else ret false.

Definition UserAbortTransactionBlock (chain : bool) : X unit :=
  let* b := get current_block in
  let* depth := get (fun s => length (subs s)) in
  match b with
  | TBLOCK_INPROGRESS => set_block TBLOCK_ABORT_PENDING;; upd_current (set_chain chain)
  | TBLOCK_ABORT => set_block TBLOCK_ABORT_END;; upd_current (set_chain chain)
  | TBLOCK_SUBINPROGRESS | TBLOCK_SUBABORT =>
      mark_stack abort_mark abort_mark_top depth "UserAbortTransactionBlock: unexpected state";;
      upd_top (set_chain chain)
  | TBLOCK_STARTED | TBLOCK_IMPLICIT_INPROGRESS =>
      (if chain then raise ERROR "ROLLBACK AND CHAIN can only be used in transaction blocks"
       else warn "there is no transaction in progress");;
      set_block TBLOCK_ABORT_PENDING;; upd_current (set_chain chain)
  | TBLOCK_PARALLEL_INPROGRESS => raise FATAL "cannot abort during a parallel operation"
  | _ => raise FATAL "UserAbortTransactionBlock: unexpected state"
  end.

Definition BeginImplicitTransactionBlock : X unit :=
  let* b := get current_block in
  when (bool_decide (b = TBLOCK_STARTED)) (set_block TBLOCK_IMPLICIT_INPROGRESS).

Definition EndImplicitTransactionBlock : X unit :=
  let* b := get current_block in
  when (bool_decide (b = TBLOCK_IMPLICIT_INPROGRESS)) (set_block TBLOCK_STARTED).

(** ** Savepoints *)

Definition DefineSavepoint (n : option string) : X unit :=
  let* parallel := get IsInParallelMode in
  if parallel then raise ERROR "cannot define savepoints during a parallel operation"
  else
    let* b := get current_block in
    match b with
    | TBLOCK_INPROGRESS | TBLOCK_SUBINPROGRESS =>
        PushTransaction;;
        match n with Some n => upd_current (set_name (Some n)) | None => ret tt end
    | TBLOCK_IMPLICIT_INPROGRESS => raise ERROR "SAVEPOINT can only be used in transaction blocks"
    | _ => raise FATAL "DefineSavepoint: unexpected state"
    end.

(** The search shared by RELEASE and ROLLBACK TO. *)
Definition savepoint_target (n : string) : X nat :=
  let* l := get state_stack in
  let* s := get CurrentTransactionState in
  match find_savepoint n l with
  | None => raise ERROR "savepoint does not exist"
  | Some i =>
      match l !! i with
      | Some target =>
          if savepointLevel target != savepointLevel s
          then raise ERROR "savepoint does not exist within current savepoint level"
          else ret i
      | None => raise ERROR "savepoint does not exist"
      end
  end.

Definition ReleaseSavepoint (n : string) : X unit :=
  let* parallel := get IsInParallelMode in
  if parallel then raise ERROR "cannot release savepoints during a parallel operation"
  else
    let* b := get current_block in
    match b with
    | TBLOCK_INPROGRESS => raise ERROR "savepoint does not exist"
    | TBLOCK_IMPLICIT_INPROGRESS => raise ERROR "RELEASE SAVEPOINT can only be used in transaction blocks"
    | TBLOCK_SUBINPROGRESS =>
        let* i := savepoint_target n in
        mark_stack release_mark release_mark i "ReleaseSavepoint: unexpected state"
    | _ => raise FATAL "ReleaseSavepoint: unexpected state"
    end.

Definition RollbackToSavepoint (n : string) : X unit :=
  let* parallel := get IsInParallelMode in
  if parallel then raise ERROR "cannot rollback to savepoints during a parallel operation"
  else
    let* b := get current_block in
    match b with
    | TBLOCK_INPROGRESS | TBLOCK_ABORT => raise ERROR "savepoint does not exist"
    | TBLOCK_IMPLICIT_INPROGRESS => raise ERROR "ROLLBACK TO SAVEPOINT can only be used in transaction blocks"
    | TBLOCK_SUBINPROGRESS | TBLOCK_SUBABORT =>
        let* i := savepoint_target n in
        mark_stack abort_mark restart_mark i "RollbackToSavepoint: unexpected state"
    | _ => raise FATAL "RollbackToSavepoint: unexpected state"
    end.

(** ** Command boundaries *)

Definition StartTransactionCommand : X unit :=
  let* b := get current_block in
  match b with
  | TBLOCK_DEFAULT => StartTransaction;; set_block TBLOCK_STARTED
  | TBLOCK_INPROGRESS | TBLOCK_IMPLICIT_INPROGRESS | TBLOCK_SUBINPROGRESS => ret tt
  | TBLOCK_ABORT | TBLOCK_SUBABORT => ret tt
  | _ => raise ERROR "StartTransactionCommand: unexpected state"
  end.

Definition SaveTransactionCharacteristics (s : XactState) : SavedTransactionCharacteristics := xact_chars (glob s).
Definition RestoreTransactionCharacteristics (c : SavedTransactionCharacteristics) : X unit :=
  upd_glob (set_xact_chars c).

(** Back to idle, or into the next block under AND CHAIN. *)
Definition end_block (savetc : SavedTransactionCharacteristics) : X unit :=
  set_block TBLOCK_DEFAULT;;
  let* s := get CurrentTransactionState in
  when (chain s)
    (StartTransaction;; set_block TBLOCK_INPROGRESS;; upd_current (set_chain false);;
     RestoreTransactionCharacteristics savetc).

(** [do CommitSubTransaction() while (s->blockState == b)] *)
Fixpoint commit_subs (fuel : nat) (b : TBlockState) : X unit :=
  match fuel with
  | O => raise PANIC "out of fuel"
  | S n =>
      CommitSubTransaction;;
      let* b' := get current_block in
      when (bool_decide (b' = b)) (commit_subs n b)
  end.

(** The savepoint that a ROLLBACK TO goes back to is defined anew. *)
Definition restart_savepoint (n : option string) (level : Z) : X unit :=
  DefineSavepoint None;;
  upd_current (fun t => set_savepointLevel level (set_name n t));;
  StartSubTransaction;;
  set_block TBLOCK_SUBINPROGRESS.

Fixpoint CommitTransactionCommand_rec (fuel : nat) : X unit :=
  match fuel with
  | O => raise PANIC "out of fuel"
  | S n =>
      let* s := get CurrentTransactionState in
      let* savetc := get SaveTransactionCharacteristics in
      let* depth := get (fun s => length (subs s)) in
      match blockState s with
      | TBLOCK_DEFAULT | TBLOCK_PARALLEL_INPROGRESS => raise FATAL "CommitTransactionCommand: unexpected state"
      | TBLOCK_STARTED => CommitTransaction;; set_block TBLOCK_DEFAULT
      | TBLOCK_BEGIN => set_block TBLOCK_INPROGRESS
      | TBLOCK_INPROGRESS | TBLOCK_IMPLICIT_INPROGRESS | TBLOCK_SUBINPROGRESS => CommandCounterIncrement
      | TBLOCK_END => CommitTransaction;; end_block savetc
      | TBLOCK_ABORT | TBLOCK_SUBABORT => ret tt
      | TBLOCK_ABORT_END => CleanupTransaction;; end_block savetc
      | TBLOCK_ABORT_PENDING => AbortTransaction;; CleanupTransaction;; end_block savetc
      | TBLOCK_PREPARE => PrepareTransaction;; set_block TBLOCK_DEFAULT
      | TBLOCK_SUBBEGIN => StartSubTransaction;; set_block TBLOCK_SUBINPROGRESS
      | TBLOCK_SUBRELEASE => commit_subs (S depth) TBLOCK_SUBRELEASE
      | TBLOCK_SUBCOMMIT =>
          commit_subs (S depth) TBLOCK_SUBCOMMIT;;
          let* b := get current_block in
          match b with
          | TBLOCK_END => CommitTransaction;; end_block savetc
          | TBLOCK_PREPARE => PrepareTransaction;; set_block TBLOCK_DEFAULT
          | _ => raise ERROR "CommitTransactionCommand: unexpected state"
          end
      | TBLOCK_SUBABORT_END => CleanupSubTransaction;; CommitTransactionCommand_rec n
      | TBLOCK_SUBABORT_PENDING => AbortSubTransaction;; CleanupSubTransaction;; CommitTransactionCommand_rec n
      | TBLOCK_SUBRESTART =>
          upd_current (set_name None);;
          AbortSubTransaction;; CleanupSubTransaction;;
          restart_savepoint (name s) (savepointLevel s)
      | TBLOCK_SUBABORT_RESTART =>
          upd_current (set_name None);;
          CleanupSubTransaction;;
          restart_savepoint (name s) (savepointLevel s)
      end
  end.

Definition CommitTransactionCommand : X unit :=
  let* depth := get (fun s => length (subs s)) in
  CommitTransactionCommand_rec (S depth).

(** ** After an error *)

(** An error during start leaves an incompletely started transaction. *)
Definition abort_incomplete_start : X unit :=
  let* s := get CurrentTransactionState in
  if bool_decide (state s = TRANS_DEFAULT) then ret tt
  else
    when (bool_decide (state s = TRANS_START)) (upd_current (set_state TRANS_INPROGRESS));;
    AbortTransaction;; CleanupTransaction.

Fixpoint AbortCurrentTransaction_rec (fuel : nat) : X unit :=
  match fuel with
  | O => raise PANIC "out of fuel"
  | S n =>
      let* b := get current_block in
      match b with
      | TBLOCK_DEFAULT => abort_incomplete_start
      | TBLOCK_STARTED | TBLOCK_IMPLICIT_INPROGRESS | TBLOCK_BEGIN | TBLOCK_END | TBLOCK_ABORT_PENDING | TBLOCK_PREPARE =>
          AbortTransaction;; CleanupTransaction;; set_block TBLOCK_DEFAULT
      | TBLOCK_INPROGRESS | TBLOCK_PARALLEL_INPROGRESS => AbortTransaction;; set_block TBLOCK_ABORT
      | TBLOCK_ABORT | TBLOCK_SUBABORT => ret tt
      | TBLOCK_ABORT_END => CleanupTransaction;; set_block TBLOCK_DEFAULT
      | TBLOCK_SUBINPROGRESS => AbortSubTransaction;; set_block TBLOCK_SUBABORT
      | TBLOCK_SUBBEGIN | TBLOCK_SUBRELEASE | TBLOCK_SUBCOMMIT | TBLOCK_SUBABORT_PENDING | TBLOCK_SUBRESTART =>
          AbortSubTransaction;; CleanupSubTransaction;; AbortCurrentTransaction_rec n
      | TBLOCK_SUBABORT_END | TBLOCK_SUBABORT_RESTART =>
          CleanupSubTransaction;; AbortCurrentTransaction_rec n
      end
  end.

Definition AbortCurrentTransaction : X unit :=
  let* depth := get (fun s => length (subs s)) in
  AbortCurrentTransaction_rec (S depth).

Fixpoint abort_out_of_any (fuel : nat) : X unit :=
  match fuel with
  | O => raise PANIC "out of fuel"
  | S n =>
      let* s := get CurrentTransactionState in
      match blockState s with
      | TBLOCK_DEFAULT => abort_incomplete_start
      | TBLOCK_STARTED | TBLOCK_BEGIN | TBLOCK_INPROGRESS | TBLOCK_IMPLICIT_INPROGRESS | TBLOCK_PARALLEL_INPROGRESS
      | TBLOCK_END | TBLOCK_ABORT_PENDING | TBLOCK_PREPARE =>
          AbortTransaction;; CleanupTransaction;; set_block TBLOCK_DEFAULT
      | TBLOCK_ABORT | TBLOCK_ABORT_END =>
          call AtAbort_Portals;; CleanupTransaction;; set_block TBLOCK_DEFAULT
      | TBLOCK_SUBBEGIN | TBLOCK_SUBINPROGRESS | TBLOCK_SUBRELEASE | TBLOCK_SUBCOMMIT | TBLOCK_SUBABORT_PENDING
      | TBLOCK_SUBRESTART => AbortSubTransaction;; CleanupSubTransaction
      | TBLOCK_SUBABORT | TBLOCK_SUBABORT_END | TBLOCK_SUBABORT_RESTART =>
          when (curTransactionOwner s) (call AtSubAbort_Portals);; CleanupSubTransaction
      end;;
      let* b := get current_block in
      when (negb (bool_decide (b = TBLOCK_DEFAULT))) (abort_out_of_any n)
  end.

Definition AbortOutOfAnyTransaction : X unit :=
  call AtAbort_Memory;;
  let* depth := get (fun s => length (subs s)) in
  abort_out_of_any (S depth);;
  call AtCleanup_Memory.

(** ** Internal subtransactions *)

Definition BeginInternalSubTransaction (n : option string) : X unit :=
  let* parallel := get IsInParallelMode in
  if parallel then raise ERROR "cannot start subtransactions during a parallel operation"
  else
    let* b := get current_block in
    match b with
    | TBLOCK_STARTED | TBLOCK_INPROGRESS | TBLOCK_IMPLICIT_INPROGRESS | TBLOCK_END | TBLOCK_PREPARE
    | TBLOCK_SUBINPROGRESS =>
        PushTransaction;;
        match n with Some n => upd_current (set_name (Some n)) | None => ret tt end
    | _ => raise FATAL "BeginInternalSubTransaction: unexpected state"
    end;;
    CommitTransactionCommand;;
    StartTransactionCommand.

Definition ReleaseCurrentSubTransaction : X unit :=
  let* parallel := get IsInParallelMode in
  if parallel then raise ERROR "cannot commit subtransactions during a parallel operation"
  else
    let* b := get current_block in
    if negb (bool_decide (b = TBLOCK_SUBINPROGRESS))
    then raise ERROR "ReleaseCurrentSubTransaction: unexpected state"
    else CommitSubTransaction.

Definition RollbackAndReleaseCurrentSubTransaction : X unit :=
  let* b := get current_block in
  match b with
  | TBLOCK_SUBINPROGRESS => AbortSubTransaction;; CleanupSubTransaction
  | TBLOCK_SUBABORT => CleanupSubTransaction
  | _ => raise FATAL "RollbackAndReleaseCurrentSubTransaction: unexpected state"
  end.

(** ** Status *)

Definition IsTransactionBlock (s : XactState) : bool :=
  match current_block s with TBLOCK_DEFAULT | TBLOCK_STARTED => false | _ => true end.

Definition IsTransactionOrTransactionBlock (s : XactState) : bool :=
  match current_block s with TBLOCK_DEFAULT => false | _ => true end.

Definition TransactionBlockStatusCode (s : XactState) : string :=
  match current_block s with
  | TBLOCK_DEFAULT | TBLOCK_STARTED => "I"
  | TBLOCK_BEGIN | TBLOCK_SUBBEGIN | TBLOCK_INPROGRESS | TBLOCK_IMPLICIT_INPROGRESS | TBLOCK_PARALLEL_INPROGRESS
  | TBLOCK_SUBINPROGRESS | TBLOCK_END | TBLOCK_SUBRELEASE | TBLOCK_SUBCOMMIT | TBLOCK_PREPARE => "T"
  | TBLOCK_ABORT | TBLOCK_SUBABORT | TBLOCK_ABORT_END | TBLOCK_SUBABORT_END | TBLOCK_ABORT_PENDING
  | TBLOCK_SUBABORT_PENDING | TBLOCK_SUBRESTART | TBLOCK_SUBABORT_RESTART => "E"
  end.

Definition PreventInTransactionBlock (isTopLevel : bool) : X unit :=
  let* inblock := get IsTransactionBlock in
  let* sub := get IsSubTransaction in
  let* flags := get (fun s => MyXactFlags (glob s)) in
  let* b := get current_block in
  if inblock then raise ERROR "cannot run inside a transaction block"
  else if sub then raise ERROR "cannot run inside a subtransaction"
  else if has_flag flags XACT_FLAGS_PIPELINING then raise ERROR "cannot be executed within a pipeline"
  else if negb isTopLevel then raise ERROR "cannot be executed from a function"
  else if negb (bool_decide (b = TBLOCK_DEFAULT)) && negb (bool_decide (b = TBLOCK_STARTED))
  then raise FATAL "cannot prevent transaction chain"
  else upd_glob (fun g => set_MyXactFlags (Z.lor (MyXactFlags g) XACT_FLAGS_NEEDIMMEDIATECOMMIT) g).

Definition CheckTransactionBlock (isTopLevel throwError : bool) : X unit :=
  let* inblock := get IsTransactionBlock in
  let* sub := get IsSubTransaction in
  if inblock then ret tt
  else if sub then ret tt
  else if negb isTopLevel then ret tt
  else if throwError then raise ERROR "can only be used in transaction blocks"
  else warn "can only be used in transaction blocks".

Definition WarnNoTransactionBlock (isTopLevel : bool) : X unit := CheckTransactionBlock isTopLevel false.
Definition RequireTransactionBlock (isTopLevel : bool) : X unit := CheckTransactionBlock isTopLevel true.

Definition IsInTransactionBlock (isTopLevel : bool) (s : XactState) : bool :=
  if IsTransactionBlock s then true
  else if IsSubTransaction s then true
  else if has_flag (MyXactFlags (glob s)) XACT_FLAGS_PIPELINING then true
  else if negb isTopLevel then true
  else negb (bool_decide (current_block s = TBLOCK_DEFAULT)) && negb (bool_decide (current_block s = TBLOCK_STARTED)).

(** ** Parallel workers *)

Record SerializedTransactionState := mkSerialized {
  xactIsoLevel : Z;
  xactDeferrable : bool;
  topFullTransactionId : FullTransactionId;
  currentFullTransactionId : FullTransactionId;
  ser_currentCommandId : CommandId;
  parallelCurrentXids : list TransactionId;
}.

Definition state_xids (t : TransactionStateData) : list TransactionId :=
  (if has_xid t then [XidFromFullTransactionId (fullTransactionId t)] else []) ++ childXids t.

Definition SerializeTransactionState (s : XactState) : SerializedTransactionState :=
  mkSerialized (XactIsoLevel (xact_chars (glob s))) (XactDeferrable (xact_chars (glob s)))
    (XactTopFullTransactionId (glob s)) (fullTransactionId (CurrentTransactionState s)) (currentCommandId (glob s))
    (match ParallelCurrentXids (glob s) with
     | _ :: _ => ParallelCurrentXids (glob s)
     | [] => merge_sort Z.le (state_stack s ≫= state_xids)
     end).

Definition StartParallelWorkerTransaction (t : SerializedTransactionState) : X unit :=
  StartTransaction;;
  upd_glob (fun g =>
    set_command (ser_currentCommandId t) (currentCommandIdUsed g)
      (set_ParallelCurrentXids (parallelCurrentXids t)
         (set_XactTopFullTransactionId (topFullTransactionId t)
            (set_xact_chars (mkCharacteristics (xactIsoLevel t) (XactReadOnly (xact_chars g)) (xactDeferrable t)) g))));;
  upd_current (set_fullTransactionId (currentFullTransactionId t));;
  set_block TBLOCK_PARALLEL_INPROGRESS.

Definition EndParallelWorkerTransaction : X unit := CommitTransaction;; set_block TBLOCK_DEFAULT.

End Block.
