(* ===== verification/XactLogic.v ===== *)
(** * XactLogic: reasoning about the transaction monad

    A program logic for the monad of Xact: a triple describes a run by its
    effect on a view of the state, with one postcondition for normal return
    and one for errors.  Because the environment may raise an error in any
    called routine, the error postcondition holds at every point where
    another subsystem is entered.  The rest of the file specifies the
    routines of XactEnd by what they do to the stack of transaction states. *)

From stdpp Require Import strings.
From S2P Require Import Prelude Steps TransactionId Slru Clog Subtrans Transam Varsup HeapTuple Xact XactEnd.
From S2P Require Import XactBlock.

Open Scope xact_scope.

(** An error that ends neither the session nor the model. *)
Definition contained (r : XactErr) : Prop := err_level r <> FATAL /\ err_msg r <> "out of fuel"%string.

(** A projection of the state that does not see the trace of calls. *)
Class View {CommitTs V} (view : XactState CommitTs -> V) : Prop :=
  view_call f s : view (add_call f s) = view s.

(** ** Triples *)

Section Triples.
Context {CommitTs V : Type} {ok : XEnv CommitTs -> Prop} (view : XactState CommitTs -> V) `{!View view}.
Abbreviation X := (@X CommitTs).

(** The environments considered are those that satisfy [ok]. *)
Definition triple_in {A} (m : X A) (v : V) (Q : A -> V -> Prop) (E : XactErr -> V -> Prop) : Prop :=
  forall e, ok e -> forall s, view s = v ->
  match m e s with
  | (inr a, s') => Q a (view s')
  | (inl r, s') => E r (view s')
  end.

(** A run that may fail but does not change the view. *)
Definition quiet {A} (m : X A) : Prop :=
  forall e s, view (m e s).2 = view s /\ forall r, (m e s).1 = inl r -> contained r.

Lemma tr_ret {A} (a : A) v (Q : A -> V -> Prop) E : Q a v -> triple_in (ret a) v Q E.
Proof. intros HQ e He s <-. exact HQ. Qed.

Lemma tr_bind {A B} (m : X A) (k : A -> X B) v Q E :
  triple_in m v (fun a v' => triple_in (k a) v' Q E) E -> triple_in (bind m k) v Q E.
Proof.
  intros Hm e He s Hs. specialize (Hm e He s Hs). unfold bind.
  destruct (m e s) as [[r|a] s'] eqn:Hr; [done|]. by apply Hm.
Qed.

Lemma tr_mono {A} (m : X A) v (Q Q' : A -> V -> Prop) (E E' : XactErr -> V -> Prop) :
  triple_in m v Q E -> (forall a v', Q a v' -> Q' a v') -> (forall r v', E r v' -> E' r v') -> triple_in m v Q' E'.
Proof.
  intros Hm HQ HE e He s Hs. specialize (Hm e He s Hs). destruct (m e s) as [[r|a] s']; auto.
Qed.

Lemma tr_get {A} (f : XactState CommitTs -> A) v (Q : A -> V -> Prop) E :
  (forall s, view s = v -> Q (f s) v) -> triple_in (get f) v Q E.
Proof. intros HQ e He s <-. by apply HQ. Qed.

Lemma tr_env {A} (f : XEnv CommitTs -> A) v (Q : A -> V -> Prop) E :
  (forall e, ok e -> Q (f e) v) -> triple_in (env f) v Q E.
Proof. intros HQ e He s <-. by apply HQ. Qed.

Lemma tr_modify f (f' : V -> V) v (Q : unit -> V -> Prop) E :
  (forall s, view (f s) = f' (view s)) -> Q tt (f' v) -> triple_in (modify f) v Q E.
Proof. intros Hf HQ e He s <-. simpl. by rewrite Hf. Qed.

Lemma tr_raise {A} lvl msg v (Q : A -> V -> Prop) (E : XactErr -> V -> Prop) :
  (forall l, l = lvl \/ l = PANIC -> E (mkXactErr l msg) v) -> triple_in (raise lvl msg) v Q E.
Proof. intros HE e He s <-. apply HE. destruct (CritSectionCount (glob s)); auto. Qed.

Lemma tr_raise_contained {A} lvl msg v (Q : A -> V -> Prop) (E : XactErr -> V -> Prop) :
  lvl <> FATAL -> msg <> "out of fuel"%string -> (forall r, contained r -> E r v) -> triple_in (raise lvl msg) v Q E.
Proof. intros Hl Hm HE. apply tr_raise. intros l Hl'. apply HE. split; [by destruct Hl'; subst|done]. Qed.

Lemma tr_quiet {A} (m : X A) v (Q : A -> V -> Prop) (E : XactErr -> V -> Prop) :
  quiet m -> (forall r, contained r -> E r v) -> (forall a, Q a v) -> triple_in m v Q E.
Proof.
  intros Hm HE HQ e He s <-. destruct (Hm e s) as [Hv Hr].
  destruct (m e s) as [[r|a] s']; simpl in *; rewrite Hv; auto.
Qed.

Lemma tr_when (b : bool) m v (Q : unit -> V -> Prop) E :
  (b = true -> triple_in m v Q E) -> (b = false -> Q tt v) -> triple_in (when b m) v Q E.
Proof. intros Ht Hf. destruct b; [auto|apply tr_ret; auto]. Qed.

(** The result of a getter is only used through what the view says of it. *)
Lemma tr_let_get {A B} (f : XactState CommitTs -> A) (k : A -> X B) v Q E :
  (forall s, view s = v -> triple_in (k (f s)) v Q E) -> triple_in (bind (get f) k) v Q E.
Proof. intros Hk. apply tr_bind, tr_get, Hk. Qed.

Lemma tr_let_env {A B} (f : XEnv CommitTs -> A) (k : A -> X B) v Q E :
  (forall e, ok e -> triple_in (k (f e)) v Q E) -> triple_in (bind (env f) k) v Q E.
Proof. intros Hk. apply tr_bind, tr_env, Hk. Qed.

Lemma tr_seq_quiet {A B} (m : X A) (k : A -> X B) v Q (E : XactErr -> V -> Prop) :
  quiet m -> (forall r, contained r -> E r v) -> (forall a, triple_in (k a) v Q E) -> triple_in (bind m k) v Q E.
Proof. intros Hm HE Hk. apply tr_bind, tr_quiet; auto. Qed.

(** ** Quiet programs *)

Lemma quiet_ret {A} (a : A) : quiet (ret a).
Proof. intros e s. split; [done|]. by intros r [=]. Qed.

Lemma quiet_bind {A B} (m : X A) (k : A -> X B) : quiet m -> (forall a, quiet (k a)) -> quiet (bind m k).
Proof.
  intros Hm Hk e s. unfold bind. destruct (Hm e s) as [Hv Hr].
  destruct (m e s) as [[r|a] s'] eqn:Hms; simpl in *.
  - split; [done|]. intros r' [= <-]. by apply Hr.
  - destruct (Hk a e s') as [Hv' Hr']. split; [congruence|done].
Qed.

Lemma quiet_get {A} (f : XactState CommitTs -> A) : quiet (get f).
Proof. intros e s. split; [done|]. by intros r [=]. Qed.

Lemma quiet_get_const {A B} (f : XactState CommitTs -> A) (a : A) (k : A -> X B) :
  (forall s, f s = a) -> quiet (k a) -> quiet (bind (get f) k).
Proof. intros Hf Hk e s. unfold bind, get. simpl. rewrite Hf. apply Hk. Qed.

Lemma quiet_env {A} (f : XEnv CommitTs -> A) : quiet (env f).
Proof. intros e s. split; [done|]. by intros r [=]. Qed.

Lemma quiet_modify f : (forall s, view (f s) = view s) -> quiet (modify f).
Proof. intros Hf e s. split; [apply Hf|]. by intros r [=]. Qed.

Lemma quiet_raise {A} lvl msg : lvl <> FATAL -> msg <> "out of fuel"%string -> quiet (@raise CommitTs A lvl msg).
Proof.
  intros Hl Hm e s. split; [done|]. intros r [= <-]. split; [|done]. simpl.
  by destruct (CritSectionCount (glob s)).
Qed.

Lemma quiet_call f : quiet (call f).
Proof.
  intros e s. unfold call. destruct (raises e (calls s) f); simpl; (split; [apply view_call|]).
  - intros r [= <-]. split; [|done]. simpl. by destruct (CritSectionCount (glob s)).
  - by intros r [=].
Qed.

Lemma quiet_warn msg : quiet (warn msg).
Proof. apply quiet_modify. intros s. apply view_call. Qed.

Lemma quiet_when b m : quiet m -> quiet (when b m).
Proof. destruct b; [done|]. intros _. apply quiet_ret. Qed.

Lemma quiet_run_calls l : quiet (run_calls l).
Proof.
  induction l as [|f l IH]; simpl; [apply quiet_ret|].
  apply quiet_bind; [apply quiet_call|done].
Qed.

Lemma quiet_if {A} (b : bool) (m m' : X A) : quiet m -> quiet m' -> quiet (if b then m else m').
Proof. by destruct b. Qed.

Lemma quiet_foldr {B} (g : B -> X unit) l : (forall x, quiet (g x)) -> quiet (foldr (fun x m => m;; g x) (ret tt) l).
Proof.
  intros Hg. induction l as [|x l IH]; simpl; [apply quiet_ret|].
  apply quiet_bind; [done|]. intros _. apply Hg.
Qed.

End Triples.

Definition any_env {CommitTs} (e : XEnv CommitTs) : Prop := True.
Abbreviation triple := (triple_in (ok := any_env)).

Create HintDb quiet discriminated.
(** Error postconditions that [tr_step] discharges. *)
Create HintDb xact_err discriminated.
#[export] Hint Resolve quiet_ret quiet_get quiet_env quiet_call quiet_warn quiet_run_calls : quiet.

(** [quiet_step] takes a program apart; what remains are the updates of the
    state that the view must not see. *)
Ltac quiet_step :=
  intros;
  lazymatch goal with
  | |- quiet _ (bind _ _) => apply quiet_bind
  | |- quiet _ (when _ _) => apply quiet_when
  | |- quiet _ (if _ then _ else _) => apply quiet_if
  | |- quiet _ (raise _ _) => apply quiet_raise; done
  | |- quiet _ (foldr _ (ret tt) _) => apply quiet_foldr
  | |- quiet _ (modify _) => first [solve [eauto with quiet nocore] | apply quiet_modify]
  | |- quiet _ _ => solve [eauto with quiet nocore]
  end.
Ltac quiet_tac := repeat quiet_step.

(** ** The stack as its frames *)

Record Frame := mkFrame {
  f_name : option string;
  f_level : Z;
  f_nest : Z;
  f_state : TransState;
  f_block : TBlockState;
  f_chain : bool;
}.

Definition frame (t : TransactionStateData) : Frame :=
  mkFrame (name t) (savepointLevel t) (nestingLevel t) (state t) (blockState t) (chain t).

(** The top-level frame and those of the subtransactions, innermost first. *)
Abbreviation Shape := (Frame * list Frame)%type.

Definition fset_state (v : TransState) (f : Frame) : Frame :=
  mkFrame (f_name f) (f_level f) (f_nest f) v (f_block f) (f_chain f).
Definition fset_block (v : TBlockState) (f : Frame) : Frame :=
  mkFrame (f_name f) (f_level f) (f_nest f) (f_state f) v (f_chain f).
Definition fset_chain (v : bool) (f : Frame) : Frame :=
  mkFrame (f_name f) (f_level f) (f_nest f) (f_state f) (f_block f) v.
Definition fset_name (v : option string) (f : Frame) : Frame :=
  mkFrame v (f_level f) (f_nest f) (f_state f) (f_block f) (f_chain f).
Definition fset_level (v : Z) (f : Frame) : Frame :=
  mkFrame (f_name f) v (f_nest f) (f_state f) (f_block f) (f_chain f).
Definition fset_nest (v : Z) (f : Frame) : Frame :=
  mkFrame (f_name f) (f_level f) v (f_state f) (f_block f) (f_chain f).

Definition cur_frame (v : Shape) : Frame := match v.2 with [] => v.1 | f :: _ => f end.
Definition upd_frame (g : Frame -> Frame) (v : Shape) : Shape :=
  match v.2 with [] => (g v.1, []) | f :: l => (v.1, g f :: l) end.

Lemma fmap_alter_same {A B} (g : A -> B) (f : A -> A) n (l : list A) :
  (forall x, g (f x) = g x) -> g <$> alter f n l = g <$> l.
Proof.
  intros Hf. revert n. induction l as [|x l IH]; intros [|n]; try done.
  - simpl. by rewrite Hf.
  - change (g x :: (g <$> alter f n l) = g x :: (g <$> l)). by rewrite IH.
Qed.

Section Shape.
Context {CommitTs : Type}.
Abbreviation X := (@X CommitTs).
Abbreviation XactState := (XactState CommitTs).

Definition shape (s : XactState) : Shape := (frame (TopTransactionStateData s), frame <$> subs s).

#[export] Instance shape_view : View shape.
Proof. done. Qed.

Lemma shape_current s : frame (CurrentTransactionState s) = cur_frame (shape s).
Proof. unfold CurrentTransactionState, cur_frame, shape. by destruct (subs s). Qed.

Lemma shape_upd_current f g s :
  (forall t, frame (f t) = g (frame t)) -> shape (upd_current_in f s) = upd_frame g (shape s).
Proof. intros Hf. unfold upd_current_in, shape, upd_frame. destruct (subs s) eqn:Hs; simpl; by rewrite Hf, ?Hs. Qed.

Lemma shape_upd_top f g s :
  (forall t, frame (f t) = g (frame t)) ->
  shape (set_top (f (TopTransactionStateData s)) s) = (g (shape s).1, (shape s).2).
Proof. intros Hf. unfold shape. simpl. by rewrite Hf. Qed.

(** *** Updates that the frames do not see *)

Lemma quiet_upd_current f : (forall t, frame (f t) = frame t) -> quiet shape (upd_current f).
Proof.
  intros Hf. apply quiet_modify. intros s. unfold upd_current_in, shape. destruct (subs s) as [|t l] eqn:Hs; simpl; by rewrite Hf, ?Hs.
Qed.

Lemma quiet_upd_parent f : (forall t, frame (f t) = frame t) -> quiet shape (upd_parent f).
Proof.
  intros Hf. apply quiet_modify. intros s. unfold upd_parent_in, shape.
  destruct (subs s) as [|t [|p l]] eqn:Hs; simpl; by rewrite ?Hf, ?Hs.
Qed.

Lemma quiet_upd_top f : (forall t, frame (f t) = frame t) -> quiet shape (upd_top f).
Proof. intros Hf. apply quiet_modify. intros s. unfold shape. simpl. by rewrite Hf. Qed.

Lemma quiet_upd_glob f : quiet shape (upd_glob f).
Proof. by apply quiet_modify. Qed.

Lemma quiet_upd_at d f : (forall t, frame (f t) = frame t) -> quiet shape (modify (upd_at d f)).
Proof.
  intros Hf. apply quiet_modify. intros s. unfold upd_at, shape. destruct d; simpl; [by rewrite Hf|].
  f_equal. by apply fmap_alter_same.
Qed.

Lemma quiet_set_gen (f : XactState -> XidGen CommitTs) : quiet shape (modify (fun s => set_gen (f s) s)).
Proof. by apply quiet_modify. Qed.

Lemma quiet_set_proc p : quiet shape (modify (set_proc p)).
Proof. by apply quiet_modify. Qed.

Lemma quiet_reader {A} (f : XEnv CommitTs -> XactState -> A) : quiet shape (fun e s => (inr (f e s), s)).
Proof. intros e s. split; [done|]. by intros r [=]. Qed.

End Shape.

#[export] Hint Resolve shape_view quiet_upd_glob quiet_set_gen quiet_set_proc : quiet.
#[export] Hint Extern 5 (quiet shape (fun _ _ => _)) => apply quiet_reader : quiet.
#[export] Hint Extern 1 (quiet shape (upd_current _)) => apply quiet_upd_current; done : quiet.
#[export] Hint Extern 1 (quiet shape (upd_parent _)) => apply quiet_upd_parent; done : quiet.
#[export] Hint Extern 1 (quiet shape (upd_top _)) => apply quiet_upd_top; done : quiet.
#[export] Hint Extern 1 (quiet shape (modify (upd_at _ _))) => apply quiet_upd_at; done : quiet.

(** *** Quiet routines *)

Section Quiet.
Context {CommitTs : Type}.
Abbreviation X := (@X CommitTs).
Abbreviation quiet := (quiet (@shape CommitTs)).

Lemma quiet_MarkLogged : quiet MarkCurrentTransactionIdLoggedIfAny.
Proof. unfold MarkCurrentTransactionIdLoggedIfAny. quiet_tac. Qed.
#[local] Hint Resolve quiet_MarkLogged : quiet.

Lemma quiet_log_record f : quiet (log_record f).
Proof. unfold log_record. quiet_tac. Qed.
#[local] Hint Resolve quiet_log_record : quiet.

Lemma quiet_CommandCounterIncrement : quiet CommandCounterIncrement.
Proof. unfold CommandCounterIncrement. quiet_tac. Qed.

Lemma quiet_do_GetNewTransactionId b : quiet (do_GetNewTransactionId b).
Proof.
  unfold do_GetNewTransactionId. quiet_step; [quiet_tac|]. intros ? e s.
  match goal with |- context [match ?m with Ok _ => _ | Err _ => _ end] => destruct m as [[full g]|] end;
    [by split|by apply quiet_raise].
Qed.
#[local] Hint Resolve quiet_do_GetNewTransactionId : quiet.

Lemma quiet_do_SubTransSetParent xid p : quiet (do_SubTransSetParent xid p).
Proof.
  unfold do_SubTransSetParent. quiet_step; [quiet_tac|]. intros ? e s.
  destruct (SubTransSetParent _ _ _) as [c|]; [by split|]. by apply quiet_raise.
Qed.
#[local] Hint Resolve quiet_do_SubTransSetParent : quiet.

Lemma quiet_report_assignment xid b : quiet (report_assignment xid b).
Proof. unfold report_assignment. quiet_tac. Qed.
#[local] Hint Resolve quiet_report_assignment : quiet.

(** At the top no parent has to be assigned first. *)
Lemma quiet_AssignTransactionId_top : quiet (AssignTransactionId 0).
Proof.
  unfold AssignTransactionId. cbn [AssignTransactionId_rec].
  do 2 (apply quiet_bind; [quiet_tac|intros]). apply quiet_if; [quiet_tac|].
  apply (quiet_get_const _ _ []); [done|]. cbn [foldr]. quiet_tac.
Qed.

Lemma quiet_ProcArrayEndTransaction x : quiet (ProcArrayEndTransaction x).
Proof. unfold ProcArrayEndTransaction. quiet_tac. Qed.

Lemma quiet_ProcArrayClearTransaction : quiet ProcArrayClearTransaction.
Proof. unfold ProcArrayClearTransaction. quiet_tac. Qed.

Lemma quiet_remove_running_xid x : quiet (remove_running_xid x).
Proof.
  unfold remove_running_xid. quiet_step; [quiet_tac|]. intros p. destruct (subxids_remove _ _); quiet_tac.
Qed.
#[local] Hint Resolve quiet_remove_running_xid : quiet.

Lemma quiet_XidCacheRemoveRunningXids x l : quiet (XidCacheRemoveRunningXids x l).
Proof. unfold XidCacheRemoveRunningXids. quiet_tac. Qed.
#[local] Hint Resolve quiet_XidCacheRemoveRunningXids : quiet.

Lemma quiet_do_clog f u : quiet (do_clog f u).
Proof.
  unfold do_clog. quiet_step; [quiet_tac|]. intros ? e s. simpl. destruct (run_steps _ _); [by split|by apply quiet_raise].
Qed.
#[local] Hint Resolve quiet_do_clog : quiet.

Lemma quiet_do_DidCommit x : quiet (do_DidCommit x).
Proof.
  unfold do_DidCommit. quiet_step; [quiet_tac|]. intros ? e s. cbv zeta.
  destruct (TransactionIdDidCommit _ _ _ _) as [[b c]|]; [by split|by apply quiet_raise].
Qed.
#[local] Hint Resolve quiet_do_DidCommit : quiet.

Lemma quiet_START_CRIT_SECTION : quiet START_CRIT_SECTION.
Proof. apply quiet_upd_glob. Qed.
Lemma quiet_END_CRIT_SECTION : quiet END_CRIT_SECTION.
Proof. apply quiet_upd_glob. Qed.
#[local] Hint Resolve quiet_START_CRIT_SECTION quiet_END_CRIT_SECTION : quiet.

Lemma quiet_do_AtEOXact_GUC b n : quiet (do_AtEOXact_GUC b n).
Proof. unfold do_AtEOXact_GUC. quiet_tac. Qed.

Lemma quiet_RecordTransactionCommit : quiet RecordTransactionCommit.
Proof. unfold RecordTransactionCommit. quiet_tac. Qed.

Lemma quiet_RecordTransactionAbort b : quiet (RecordTransactionAbort b).
Proof. unfold RecordTransactionAbort. quiet_tac. Qed.

Lemma quiet_fire_deferred b n : quiet (fire_deferred b n).
Proof. induction n; cbn [fire_deferred]; quiet_tac. Qed.

Lemma quiet_delete_top_owner : quiet delete_top_owner.
Proof. unfold delete_top_owner. quiet_tac. Qed.

Lemma quiet_set_XactReadOnly b : quiet (set_XactReadOnly b).
Proof. apply quiet_upd_glob. Qed.

Lemma quiet_AtSubCommit_childXids : quiet AtSubCommit_childXids.
Proof. unfold AtSubCommit_childXids. quiet_tac. Qed.

Lemma quiet_AtSubAbort_childXids : quiet AtSubAbort_childXids.
Proof. unfold AtSubAbort_childXids. quiet_tac. Qed.

Lemma quiet_EnterParallelMode : quiet EnterParallelMode.
Proof. unfold EnterParallelMode. quiet_tac. Qed.

End Quiet.

#[export] Hint Resolve quiet_MarkLogged quiet_log_record quiet_CommandCounterIncrement quiet_do_GetNewTransactionId
  quiet_do_SubTransSetParent quiet_report_assignment quiet_AssignTransactionId_top quiet_ProcArrayEndTransaction
  quiet_ProcArrayClearTransaction quiet_XidCacheRemoveRunningXids quiet_do_clog quiet_do_DidCommit
  quiet_START_CRIT_SECTION quiet_END_CRIT_SECTION quiet_do_AtEOXact_GUC quiet_RecordTransactionCommit
  quiet_RecordTransactionAbort quiet_fire_deferred quiet_delete_top_owner quiet_set_XactReadOnly
  quiet_AtSubCommit_childXids quiet_AtSubAbort_childXids quiet_EnterParallelMode : quiet.

Lemma tr_assoc {CommitTs V A B C} {ok : XEnv CommitTs -> Prop} (view : XactState CommitTs -> V) (m : X A) (k : A -> X B) (k' : B -> X C) v Q E :
  triple_in (ok := ok) view (bind m (fun a => bind (k a) k')) v Q E -> triple_in (ok := ok) view (bind (bind m k) k') v Q E.
Proof.
  intros H e He s Hs. specialize (H e He s Hs). unfold bind in *. by destruct (m e s) as [[r|a] s'].
Qed.

Lemma tr_last {CommitTs V} {ok : XEnv CommitTs -> Prop} (view : XactState CommitTs -> V) (m : X unit) v Q E :
  triple_in (ok := ok) view (bind m ret) v Q E -> triple_in (ok := ok) view m v Q E.
Proof.
  intros H e He s Hs. specialize (H e He s Hs). unfold bind, ret in H. by destruct (m e s) as [[r|[]] s'].
Qed.

Lemma tr_when_warn {CommitTs V A} {ok : XEnv CommitTs -> Prop} (view : XactState CommitTs -> V) `{!View view} b msg (k : unit -> X A) v Q E :
  (forall a, triple_in (ok := ok) view (k a) v Q E) -> triple_in (ok := ok) view (bind (when b (warn msg)) k) v Q E.
Proof.
  intros Hk. apply tr_bind, tr_when; intros _; [|done]. apply tr_modify with (f' := id); [|done].
  intros s. exact (view_call _ s).
Qed.

(** ** Views through projections

    [pview proj gproj] sees [proj] of every state of the stack, innermost
    first, and [gproj] of the global variables. *)

Section Projections.
Context {CommitTs P G : Type} {ok : XEnv CommitTs -> Prop} (proj : TransactionStateData -> P) (gproj : XactGlobals -> XidGen CommitTs -> G).
Abbreviation X := (@X CommitTs).
Abbreviation XactState := (XactState CommitTs).

Definition pview (s : XactState) : G * list P := (gproj (glob s) (gen s), proj <$> state_stack s).

#[export] Instance pview_view : View pview.
Proof. done. Qed.

Lemma pview_upd_current f (s : XactState) :
  exists t l, state_stack s = t :: l /\ state_stack (upd_current_in f s) = f t :: l /\ glob (upd_current_in f s) = glob s
              /\ gen (upd_current_in f s) = gen s /\ CurrentTransactionState s = t.
Proof.
  unfold upd_current_in, state_stack, CurrentTransactionState. destruct (subs s) as [|t l] eqn:Hs; simpl; rewrite ?Hs;
    by eexists _, _.
Qed.

Lemma pq_upd_current f : (forall t, proj (f t) = proj t) -> quiet pview (upd_current f).
Proof.
  intros Hf. apply quiet_modify. intros s. unfold pview. destruct (pview_upd_current f s) as (t & l & Ht & -> & -> & -> & _).
  by rewrite Ht, !fmap_cons, Hf.
Qed.

Lemma pq_upd_top f : (forall t, proj (f t) = proj t) -> quiet pview (upd_top f).
Proof. intros Hf. apply quiet_modify. intros s. unfold pview, state_stack. simpl. by rewrite !fmap_app, !fmap_cons, Hf. Qed.

Lemma pq_upd_parent f : (forall t, proj (f t) = proj t) -> quiet pview (upd_parent f).
Proof.
  intros Hf. apply quiet_modify. intros s. unfold pview, state_stack, upd_parent_in.
  destruct (subs s) as [|t [|p l]] eqn:Hs; simpl; by rewrite ?Hs, ?fmap_app, ?fmap_cons, ?Hf.
Qed.

Lemma pq_upd_glob f : (forall g h, gproj (f g) h = gproj g h) -> quiet pview (upd_glob f).
Proof. intros Hf. apply quiet_modify. intros s. unfold pview. simpl. by rewrite Hf. Qed.

Lemma pq_set_gen (f : XactState -> XidGen CommitTs) :
  (forall s, gproj (glob s) (f s) = gproj (glob s) (gen s)) -> quiet pview (modify (fun s => set_gen (f s) s)).
Proof. intros Hf. apply quiet_modify. intros s. unfold pview. simpl. by rewrite Hf. Qed.

Lemma pq_set_proc p :
  (forall g v c t u p' e, gproj g (mkXidGen v c t u p e) = gproj g (mkXidGen v c t u p' e)) ->
  quiet pview (modify (set_proc p)).
Proof.
  intros Hf. apply quiet_modify. intros s. unfold pview, set_proc. simpl. destruct (gen s). by erewrite Hf.
Qed.

Lemma pq_reader {A} (f : XEnv CommitTs -> XactState -> A) : quiet pview (fun e s => (inr (f e s), s)).
Proof. intros e s. split; [done|]. by intros r [=]. Qed.

Lemma tr_pupd_glob {A} f (k : unit -> X A) v Q E :
  (forall g h, gproj (f g) h = gproj g h) -> triple_in (ok := ok) pview (k tt) v Q E -> triple_in (ok := ok) pview (bind (upd_glob f) k) v Q E.
Proof.
  intros Hf Hk. apply tr_bind. apply tr_modify with (f' := id); [|done]. intros s. unfold pview. simpl. by rewrite Hf.
Qed.

Lemma tr_pupd_current {A} f g (k : unit -> X A) u t l Q E :
  (forall t, proj (f t) = g (proj t)) -> triple_in (ok := ok) pview (k tt) (u, g t :: l) Q E ->
  triple_in (ok := ok) pview (bind (upd_current f) k) (u, t :: l) Q E.
Proof.
  intros Hf Hk e He s Hs. apply (Hk e He (upd_current_in f s)). unfold pview in *.
  destruct (pview_upd_current f s) as (x & r & Hx & -> & -> & -> & _). rewrite Hx in Hs. injection Hs as <- <- <-.
  by rewrite fmap_cons, Hf.
Qed.

Lemma tr_pupd_parent {A} f g (k : unit -> X A) u c t l Q E :
  (forall t, proj (f t) = g (proj t)) -> triple_in (ok := ok) pview (k tt) (u, c :: g t :: l) Q E ->
  triple_in (ok := ok) pview (bind (upd_parent f) k) (u, c :: t :: l) Q E.
Proof.
  intros Hf Hk e He s Hs. apply (Hk e He (upd_parent_in f s)). revert Hs. unfold pview, state_stack, upd_parent_in.
  destruct (subs s) as [|x [|y r]] eqn:Hsub; simpl; rewrite ?Hsub; simpl; [done|..]; intros [= <- <- <- <-];
    by rewrite ?fmap_app, ?fmap_cons, Hf.
Qed.

Lemma tr_pupd_top {A} f g (k : unit -> X A) u t Q E :
  (forall t, proj (f t) = g (proj t)) -> triple_in (ok := ok) pview (k tt) (u, [g t]) Q E ->
  triple_in (ok := ok) pview (bind (upd_top f) k) (u, [t]) Q E.
Proof.
  intros Hf Hk e He s Hs. apply (Hk e He (set_top (f (TopTransactionStateData s)) s)). revert Hs. unfold pview, state_stack. simpl.
  rewrite !fmap_app, !fmap_cons, Hf. destruct (subs s) as [|x r]; simpl; [by intros [= <- <-]|].
  intros [= _ _ H]. by destruct r.
Qed.

Lemma pview_current u t l (s : XactState) : pview s = (u, t :: l) -> proj (CurrentTransactionState s) = t.
Proof. unfold pview, state_stack, CurrentTransactionState. destruct (subs s); by intros [=]. Qed.

Lemma pview_parent u c t l (s : XactState) : pview s = (u, c :: t :: l) -> proj (parent_of s) = t.
Proof. unfold pview, state_stack, parent_of. destruct (subs s) as [|x [|y r]]; by intros [=]. Qed.

Lemma PopTransaction_pops u c t l E :
  triple_in (ok := ok) pview PopTransaction (u, c :: t :: l) (fun _ v => v = (u, t :: l)) E.
Proof.
  unfold PopTransaction. apply tr_let_get. intros s0 _. apply tr_when_warn; [done|]. intros _. intros e He s.
  unfold pview, state_stack, bind, get. destruct (subs s) as [|x r] eqn:Hs; [done|].
  simpl. intros [= <- _ Hr]. by f_equal.
Qed.

End Projections.

#[export] Hint Resolve pview_view : quiet.
#[export] Hint Extern 1 (quiet (pview _ _) (modify (fun _ => set_gen _ _))) => apply pq_set_gen; done : quiet.
#[export] Hint Extern 1 (quiet (pview _ _) (modify (set_proc _))) => apply pq_set_proc; done : quiet.
#[export] Hint Extern 1 (quiet (pview _ _) (upd_current _)) => apply pq_upd_current; done : quiet.
#[export] Hint Extern 1 (quiet (pview _ _) (upd_parent _)) => apply pq_upd_parent; done : quiet.
#[export] Hint Extern 1 (quiet (pview _ _) (upd_top _)) => apply pq_upd_top; done : quiet.
#[export] Hint Extern 1 (quiet (pview _ _) (upd_glob _)) => apply pq_upd_glob; done : quiet.
#[export] Hint Extern 5 (quiet (pview _ _) (fun _ _ => _)) => apply pq_reader : quiet.

(** ** Stepping through a routine

    [tr_steps] runs over everything that the frames do not see; [tr_upd g]
    over an update of the current state that acts as [g] on its frame. *)

Section Updates.
Context {CommitTs : Type}.

Lemma tr_upd_current {A} f g (k : unit -> @X CommitTs A) v Q E :
  (forall t, frame (f t) = g (frame t)) -> triple shape (k tt) (upd_frame g v) Q E ->
  triple shape (bind (upd_current f) k) v Q E.
Proof.
  intros Hf Hk. apply tr_bind. apply tr_modify with (f' := upd_frame g); [|done].
  intros s. by apply shape_upd_current.
Qed.

Lemma tr_upd_top {A} f g (k : unit -> @X CommitTs A) v Q E :
  (forall t, frame (f t) = g (frame t)) -> triple shape (k tt) (g v.1, v.2) Q E ->
  triple shape (bind (upd_top f) k) v Q E.
Proof.
  intros Hf Hk. apply tr_bind. apply tr_modify with (f' := fun v => (g v.1, v.2)); [|done].
  intros s. by apply shape_upd_top.
Qed.

Lemma tr_upd_glob {A} f (k : unit -> @X CommitTs A) v Q E :
  triple shape (k tt) v Q E -> triple shape (bind (upd_glob f) k) v Q E.
Proof. intros Hk. apply tr_bind. by apply tr_modify with (f' := id). Qed.

End Updates.

Ltac tr_err := intros; first [done | split; [done|]; eexists; reflexivity | solve [eauto with xact_err nocore]].

Ltac tr_step :=
  lazymatch goal with
  | |- triple_in _ (bind (bind _ _) _) _ _ _ => apply tr_assoc
  | |- triple_in _ (bind (ret _) _) _ _ _ => apply tr_bind, tr_ret
  | |- triple_in _ (bind (get _) _) _ _ _ => apply tr_let_get; intros ? ?
  | |- triple_in _ (bind (env _) _) _ _ _ => apply tr_let_env; intros ? ?
  | |- triple_in _ (bind (upd_glob _) _) _ _ _ => first [apply tr_upd_glob | apply tr_pupd_glob; [done|]]
  | |- triple_in _ (bind (set_XactReadOnly _) _) _ _ _ => first [apply tr_upd_glob | apply tr_pupd_glob; [done|]]
  | |- triple_in _ (bind (when _ (warn _)) _) _ _ _ => apply tr_when_warn; [exact _|intros ?]
  | |- triple_in _ (bind (when ?b ?m) _) _ _ _ =>
      first [apply tr_seq_quiet; [solve [quiet_tac]|tr_err|intros ?] | destruct b eqn:?; cbn [when]]
  | |- triple_in _ (bind _ _) _ _ _ => apply tr_seq_quiet; [solve [quiet_tac]|tr_err|intros ?]
  | |- triple_in _ (ret _) _ _ _ => apply tr_ret
  | |- triple_in _ (if ?b then _ else _) _ _ _ => destruct b eqn:?
  | |- triple_in _ (raise _ _) _ _ _ => apply tr_raise_contained; [done|done|tr_err]
  | |- triple_in _ (upd_current _) _ _ _ => apply tr_last
  | |- triple_in _ (upd_top _) _ _ _ => apply tr_last
  | |- triple_in _ (call _) _ _ _ => apply tr_last
  | |- triple_in _ (when _ _) _ _ _ => apply tr_last
  | |- triple_in _ (upd_glob _) _ _ _ => apply tr_last
  | |- triple_in _ (set_XactReadOnly _) _ _ _ => apply tr_last
  end.
Ltac tr_steps := repeat tr_step.
Ltac tr_upd g := apply (tr_upd_current _ g); [done|]; cbn [upd_frame fst snd].
Ltac tr_updt g := apply (tr_upd_top _ g); [done|]; cbn [fst snd].

(** ** What the routines do to the stack *)

Section Routines.
Context {CommitTs : Type}.
Abbreviation X := (@X CommitTs).
Abbreviation triple := (triple (@shape CommitTs)).

(** The error leaves the current state as it is, but for its [TransState]. *)
Definition top_error (t : Frame) (r : XactErr) (v : Shape) : Prop :=
  contained r /\ exists st, v = (fset_state st t, []).
Definition sub_error (t f : Frame) (l : list Frame) (r : XactErr) (v : Shape) : Prop :=
  contained r /\ exists st, v = (t, fset_state st f :: l).

Lemma fset_state_same f : fset_state (f_state f) f = f.
Proof. by destruct f. Qed.

Lemma StartTransaction_shape t l :
  triple StartTransaction (t, l)
    (fun _ v => v = (fset_state TRANS_INPROGRESS (fset_nest 1 t), []))
    (fun r v => contained r /\ v = (fset_state TRANS_START (fset_nest 1 t), [])).
Proof.
  unfold StartTransaction. apply tr_bind.
  apply tr_modify with (f' := fun v => (v.1, [])); [done|]. cbn [fst]. tr_steps.
  tr_updt (fun f => fset_state TRANS_START (fset_nest 1 f)). tr_steps.
  tr_updt (fset_state TRANS_INPROGRESS). by tr_steps.
Qed.

Lemma CommitTransaction_shape t :
  triple CommitTransaction (t, [])
    (fun _ v => v = (fset_state TRANS_DEFAULT (fset_nest 0 t), [])) (top_error t).
Proof.
  destruct t as [nm lv ns st b c]. unfold CommitTransaction. tr_steps.
  tr_upd (fset_state TRANS_COMMIT). tr_steps.
  tr_upd (fun f => fset_state TRANS_DEFAULT (fset_nest 0 f)). by tr_steps.
Qed.

(** Also says that the transaction id is assigned without reaching for a parent. *)
Lemma GetCurrentTransactionId_shape t :
  triple GetCurrentTransactionId (t, []) (fun _ v => v = (t, [])) (fun r v => contained r /\ v = (t, [])).
Proof.
  unfold GetCurrentTransactionId. apply tr_let_get. intros s Hs. apply tr_let_get. intros s' Hs'.
  assert (Hd : length (subs s') = 0%nat).
  { injection Hs' as _ Hl. apply (f_equal length) in Hl. by rewrite length_fmap in Hl. }
  rewrite Hd. tr_step. by apply tr_get.
Qed.

Lemma PrepareTransaction_shape t :
  triple PrepareTransaction (t, [])
    (fun _ v => v = (fset_state TRANS_DEFAULT (fset_nest 0 t), [])) (top_error t).
Proof.
  destruct t as [nm lv ns st b c]. unfold PrepareTransaction. tr_step. apply tr_bind.
  eapply tr_mono; [apply GetCurrentTransactionId_shape| |intros r v [Hr ->]; tr_err].
  intros xid v ->. tr_steps.
  tr_upd (fset_state TRANS_PREPARE). tr_steps.
  tr_upd (fun f => fset_state TRANS_DEFAULT (fset_nest 0 f)). by tr_steps.
Qed.

Lemma AbortTransaction_shape t :
  triple AbortTransaction (t, []) (fun _ v => v = (fset_state TRANS_ABORT t, [])) (top_error t).
Proof.
  destruct t as [nm lv ns st b c]. unfold AbortTransaction. tr_steps.
  tr_upd (fset_state TRANS_ABORT). by tr_steps.
Qed.

Lemma CleanupTransaction_shape t :
  f_state t = TRANS_ABORT ->
  triple CleanupTransaction (t, [])
    (fun _ v => v = (fset_state TRANS_DEFAULT (fset_nest 0 t), [])) (fun r v => contained r /\ v = (t, [])).
Proof.
  intros Ht. unfold CleanupTransaction. apply tr_let_get. intros s Hs.
  pose proof (shape_current s) as Hc. rewrite Hs in Hc. apply (f_equal f_state) in Hc. change (state (CurrentTransactionState s) = f_state t) in Hc.
  rewrite bool_decide_true by congruence. cbn [negb]. tr_steps.
  tr_upd (fun f => fset_state TRANS_DEFAULT (fset_nest 0 f)). by tr_steps.
Qed.

Lemma PopTransaction_shape t f l :
  triple PopTransaction (t, f :: l) (fun _ v => v = (t, l)) (fun r v => False).
Proof.
  unfold PopTransaction. do 2 tr_step. apply tr_let_get. intros s' Hs'.
  injection Hs' as _ Hl. destruct (subs s') as [|x l']; [done|]. injection Hl as _ <-.
  by apply tr_modify with (f' := fun v => (v.1, frame <$> l')).
Qed.

Lemma PushTransaction_shape t l :
  triple PushTransaction (t, l)
    (fun _ v => v = (t, mkFrame None (f_level (cur_frame (t, l))) (f_nest (cur_frame (t, l)) + 1)
                          TRANS_DEFAULT TBLOCK_SUBBEGIN false :: l))
    (fun r v => contained r /\ v = (t, l)).
Proof.
  unfold PushTransaction. tr_step. cbv zeta. tr_steps.
  match goal with Hs : shape ?s = _ |- context [CurrentTransactionState ?s] => pose proof (shape_current s) as Hc; rewrite Hs in Hc end.
  rewrite <- Hc. match goal with |- context [CurrentTransactionState ?s] => set (p := CurrentTransactionState s) end.
  by apply tr_modify with (f' := fun v => (v.1, mkFrame None (savepointLevel p) (nestingLevel p + 1)
                                             TRANS_DEFAULT TBLOCK_SUBBEGIN false :: v.2)).
Qed.

Lemma StartSubTransaction_shape t f l :
  triple StartSubTransaction (t, f :: l)
    (fun _ v => v = (t, fset_state TRANS_INPROGRESS f :: l)) (sub_error t f l).
Proof.
  destruct f as [nm lv ns st b c]. unfold StartSubTransaction. tr_steps.
  tr_upd (fset_state TRANS_START). tr_steps. tr_upd (fset_state TRANS_INPROGRESS). by tr_steps.
Qed.

Lemma CommitSubTransaction_shape t f l :
  triple CommitSubTransaction (t, f :: l) (fun _ v => v = (t, l)) (sub_error t f l).
Proof.
  destruct f as [nm lv ns st b c]. unfold CommitSubTransaction. tr_steps.
  all: tr_upd (fset_state TRANS_COMMIT); tr_steps; tr_upd (fset_state TRANS_DEFAULT).
  all: eapply tr_mono; [apply PopTransaction_shape|done|done].
Qed.

Lemma AbortSubTransaction_shape t f l :
  triple AbortSubTransaction (t, f :: l)
    (fun _ v => v = (t, fset_state TRANS_ABORT f :: l)) (sub_error t f l).
Proof.
  destruct f as [nm lv ns st b c]. unfold AbortSubTransaction. tr_steps.
  tr_upd (fset_state TRANS_ABORT). by tr_steps.
Qed.

Lemma CleanupSubTransaction_shape t f l :
  triple CleanupSubTransaction (t, f :: l) (fun _ v => v = (t, l))
    (fun r v => contained r /\ v = (t, f :: l)).
Proof.
  unfold CleanupSubTransaction. tr_steps. tr_upd (fset_state TRANS_DEFAULT).
  eapply tr_mono; [apply PopTransaction_shape|done|done].
Qed.

End Routines.
