(* ===== verification/XactSession.v ===== *)
(** * XactSession: a session's use of the transaction machinery

    Models the transaction control of src/backend/tcop/postgres.c (a simple
    query message and the recovery from an error) and of
    src/backend/tcop/utility.c (the transaction statements), and gives the
    specification of a session that the block state machine of xact.c is
    meant to implement. *)

From stdpp Require Import strings.
From S2P Require Import Prelude TransactionId Slru Clog Subtrans Transam Varsup HeapTuple Xact XactEnd.
From S2P Require Import XactBlock XactLogic.

Open Scope xact_scope.

Inductive TransactionStmtKind :=
| TRANS_STMT_BEGIN
| TRANS_STMT_START
| TRANS_STMT_COMMIT (chain : bool)
| TRANS_STMT_ROLLBACK (chain : bool)
| TRANS_STMT_SAVEPOINT (savepoint_name : string)
| TRANS_STMT_RELEASE (savepoint_name : string)
| TRANS_STMT_ROLLBACK_TO (savepoint_name : string)
| TRANS_STMT_PREPARE (gid : string)
| TRANS_STMT_COMMIT_PREPARED (gid : string)
| TRANS_STMT_ROLLBACK_PREPARED (gid : string).

Inductive Stmt (Query : Type) :=
| TransactionStmt (kind : TransactionStmtKind)
| OtherStmt (q : Query).
Arguments TransactionStmt {Query} kind.
Arguments OtherStmt {Query} q.

(** What a session runs besides transaction control. *)
Record Backend (CommitTs Query : Type) := mkBackend {
  parse : @X CommitTs unit;                       (** before the statements *)
  plan : Stmt Query -> @X CommitTs unit;          (** analysis, planning, portal start *)
  run : Query -> @X CommitTs unit;                (** execution of a non-transaction statement *)
  SetPGVariables : @X CommitTs unit;              (** the options of BEGIN *)
  FinishPreparedTransaction : string -> bool -> @X CommitTs unit;
  error_cleanup : @X CommitTs unit;               (** after an abort, before the next message *)
  RecoveryInProgress : bool;
}.
Arguments parse {_ _}.
Arguments plan {_ _}.
Arguments run {_ _}.
Arguments SetPGVariables {_ _}.
Arguments FinishPreparedTransaction {_ _}.
Arguments error_cleanup {_ _}.
Arguments RecoveryInProgress {_ _}.

(** These leave the stack of transaction states as they found it, also when
    they fail: subtransactions that they use are ended by their own handlers.
    So [run] does not stand for statements that end transactions themselves
    (VACUUM, CALL of a procedure that commits), nor for one whose own
    subtransaction fails to begin. *)
Class BackendLaws {CommitTs Query} (b : Backend CommitTs Query) : Prop := {
  parse_quiet : quiet shape (parse b);
  plan_quiet st : quiet shape (plan b st);
  run_quiet q : quiet shape (run b q);
  set_quiet : quiet shape (SetPGVariables b);
  finish_prepared_quiet gid c : quiet shape (FinishPreparedTransaction b gid c);
  cleanup_quiet : quiet shape (error_cleanup b);
}.

Definition COMMAND_OK_IN_READ_ONLY_TXN : Z := 1.
Definition COMMAND_OK_IN_PARALLEL_MODE : Z := 2.
Definition COMMAND_OK_IN_RECOVERY : Z := 4.
Definition COMMAND_IS_STRICTLY_READ_ONLY : Z := 7.

Definition ClassifyUtilityCommandAsReadOnly (k : TransactionStmtKind) : Z :=
  match k with
  | TRANS_STMT_PREPARE _ | TRANS_STMT_COMMIT_PREPARED _ | TRANS_STMT_ROLLBACK_PREPARED _ => COMMAND_OK_IN_READ_ONLY_TXN
  | _ => COMMAND_IS_STRICTLY_READ_ONLY
  end.

Definition IsTransactionExitStmt {Query} (st : Stmt Query) : bool :=
  match st with
  | TransactionStmt (TRANS_STMT_COMMIT _ | TRANS_STMT_PREPARE _ | TRANS_STMT_ROLLBACK _ | TRANS_STMT_ROLLBACK_TO _) => true
  | _ => false
  end.

(** ** Specification of a session

    What the user sees: no transaction, an implicit block (several statements
    in one message), a block or a failed block, with the stack of savepoints,
    latest first.  Savepoints without a name belong to internal
    subtransactions. *)
Inductive Session :=
| Idle
| Implicit
| InBlock (savepoints : list (option string))
| Failed (savepoints : list (option string)).

Fixpoint find_name (n : string) (l : list (option string)) : option nat :=
  match l with
  | [] => None
  | x :: l => if bool_decide (x = Some n) then Some O else S <$> find_name n l
  end.

(** [None]: the statement is rejected. *)
Definition spec_transaction (k : TransactionStmtKind) (σ : Session) : option Session :=
  match k, σ with
  | (TRANS_STMT_BEGIN | TRANS_STMT_START), (Idle | Implicit) => Some (InBlock [])
  | (TRANS_STMT_BEGIN | TRANS_STMT_START), InBlock l => Some (InBlock l)
  | (TRANS_STMT_COMMIT chain | TRANS_STMT_ROLLBACK chain), (Idle | Implicit) => if chain then None else Some Idle
  | (TRANS_STMT_COMMIT chain | TRANS_STMT_ROLLBACK chain), (InBlock _ | Failed _) =>
      Some (if chain then InBlock [] else Idle)
  | TRANS_STMT_PREPARE _, _ => Some Idle
  | (TRANS_STMT_COMMIT_PREPARED _ | TRANS_STMT_ROLLBACK_PREPARED _), Idle => Some Idle
  | TRANS_STMT_SAVEPOINT n, InBlock l => Some (InBlock (Some n :: l))
  | TRANS_STMT_RELEASE n, InBlock l => i ← find_name n l; Some (InBlock (drop (S i) l))
  | TRANS_STMT_ROLLBACK_TO n, (InBlock l | Failed l) => i ← find_name n l; Some (InBlock (drop i l))
  | _, _ => None
  end.

Definition spec_stmt {Query} (st : Stmt Query) (σ : Session) : option Session :=
  match st, σ with
  | TransactionStmt k, _ => spec_transaction k σ
  | OtherStmt _, Failed _ => None
  | OtherStmt _, _ => Some σ
  end.

(** Several statements in one message run in an implicit block where there is
    no other. *)
Definition enter (multi : bool) (σ : Session) : Session := match σ with Idle => if multi then Implicit else Idle | _ => σ end.
Definition leave (σ : Session) : Session := match σ with Implicit => Idle | _ => σ end.

Fixpoint spec_list {Query} (multi : bool) (l : list (Stmt Query)) (σ : Session) : option Session :=
  match l with
  | [] => Some (leave σ)
  | st :: l => σ' ← spec_stmt st (enter multi σ); spec_list multi l σ'
  end.

Definition spec_query {Query} (l : list (Stmt Query)) (σ : Session) : option Session :=
  spec_list (1 <? Z.of_nat (length l)) l σ.

Section Session.
Context {CommitTs Query : Type} (b : Backend CommitTs Query).
Abbreviation X := (@X CommitTs).
Abbreviation XactState := (XactState CommitTs).

(** The checks at the head of [standard_ProcessUtility]. *)
Definition check_read_only (k : TransactionStmtKind) : X unit :=
  let readonly_flags := ClassifyUtilityCommandAsReadOnly k in
  let* ro := get (fun s => XactReadOnly (xact_chars (glob s))) in
  let* parallel := get IsInParallelMode in
  when ((readonly_flags != COMMAND_IS_STRICTLY_READ_ONLY) && (ro || parallel))
    (when (negb (has_flag readonly_flags COMMAND_OK_IN_READ_ONLY_TXN) && ro)
       (raise ERROR "cannot execute in a read-only transaction");;
     when (negb (has_flag readonly_flags COMMAND_OK_IN_PARALLEL_MODE) && parallel)
       (raise ERROR "cannot execute during a parallel operation");;
     when (negb (has_flag readonly_flags COMMAND_OK_IN_RECOVERY) && RecoveryInProgress b)
       (raise ERROR "cannot execute during recovery")).

Definition standard_ProcessUtility (k : TransactionStmtKind) : X unit :=
  check_read_only k;;
  match k with
  | TRANS_STMT_BEGIN | TRANS_STMT_START => BeginTransactionBlock;; SetPGVariables b
  | TRANS_STMT_COMMIT chain => EndTransactionBlock chain;; ret tt
  | TRANS_STMT_PREPARE gid => PrepareTransactionBlock gid;; ret tt
  | TRANS_STMT_COMMIT_PREPARED gid => PreventInTransactionBlock true;; FinishPreparedTransaction b gid true
  | TRANS_STMT_ROLLBACK_PREPARED gid => PreventInTransactionBlock true;; FinishPreparedTransaction b gid false
  | TRANS_STMT_ROLLBACK chain => UserAbortTransactionBlock chain
  | TRANS_STMT_SAVEPOINT n => RequireTransactionBlock true;; DefineSavepoint (Some n)
  | TRANS_STMT_RELEASE n => RequireTransactionBlock true;; ReleaseSavepoint n
  | TRANS_STMT_ROLLBACK_TO n => RequireTransactionBlock true;; RollbackToSavepoint n
  end.

(** [xact_started] is passed along. *)
Definition start_xact_command (xact_started : bool) : X bool :=
  when (negb xact_started) StartTransactionCommand;; ret true.

Definition finish_xact_command (xact_started : bool) : X bool :=
  when xact_started CommitTransactionCommand;; ret false.

Definition exec_statement (st : Stmt Query) : X unit :=
  plan b st;;
  match st with
  | TransactionStmt k => standard_ProcessUtility k
  | OtherStmt q => run b q
  end.

(** One round of the loop over the statements of the message. *)
Definition exec_one (use_implicit_block last : bool) (st : Stmt Query) (xact_started : bool) : X bool :=
  let* aborted := get IsAbortedTransactionBlockState in
  if aborted && negb (IsTransactionExitStmt st)
  then raise ERROR "current transaction is aborted, commands ignored until end of transaction block"
  else
    let* xact_started := start_xact_command xact_started in
    when use_implicit_block BeginImplicitTransactionBlock;;
    exec_statement st;;
    if last then
      when use_implicit_block EndImplicitTransactionBlock;;
      finish_xact_command xact_started
    else
      match st with
      | TransactionStmt _ => finish_xact_command xact_started
      | OtherStmt _ => CommandCounterIncrement;; ret xact_started
      end.

Fixpoint exec_list (use_implicit_block : bool) (l : list (Stmt Query)) (xact_started : bool) : X bool :=
  match l with
  | [] => ret xact_started
  | st :: l =>
      let* xact_started := exec_one use_implicit_block (match l with [] => true | _ => false end) st xact_started in
      exec_list use_implicit_block l xact_started
  end.

Definition exec_simple_query (parsetree_list : list (Stmt Query)) : X unit :=
  let* xact_started := start_xact_command false in
  parse b;;
  let* xact_started := exec_list (1 <? Z.of_nat (length parsetree_list)) parsetree_list xact_started in
  finish_xact_command xact_started;;
  ret tt.

(** The outer error handler of [PostgresMain]. *)
Definition recover : X unit := AbortCurrentTransaction;; error_cleanup b.

(** A session: messages, and after an error the handler until it succeeds. *)
Inductive reachable (s0 : XactState) : bool -> XactState -> Prop :=
| reach_init : reachable s0 false s0
| reach_query e l s s' :
    reachable s0 false s -> exec_simple_query l e s = (inr tt, s') -> reachable s0 false s'
| reach_error e l s s' r :
    reachable s0 false s -> exec_simple_query l e s = (inl r, s') -> reachable s0 true s'
| reach_recover e s s' :
    reachable s0 true s -> recover e s = (inr tt, s') -> reachable s0 false s'
| reach_retry e s s' r :
    reachable s0 true s -> recover e s = (inl r, s') -> reachable s0 true s'.

End Session.
