(* ===== verification/XactSafe.v ===== *)
(** * XactSafe: the block state machine never loses its way

    The invariant of the stack of block states between and during commands,
    what each block command and command boundary does to it, and the theorem
    that no sequence of messages and errors leads a session into an
    unexpected state. *)

From stdpp Require Import strings.
From S2P Require Import Prelude TransactionId Slru Clog Subtrans Transam Varsup HeapTuple Xact XactEnd.
From S2P Require Import XactBlock XactLogic XactSession.

Open Scope xact_scope.

(** ** The invariant *)

(** The low-level state that belongs to each block state. *)
Definition expected_state (b : TBlockState) : TransState :=
  match b with
  | TBLOCK_DEFAULT | TBLOCK_SUBBEGIN => TRANS_DEFAULT
  | TBLOCK_ABORT | TBLOCK_ABORT_END | TBLOCK_SUBABORT | TBLOCK_SUBABORT_END | TBLOCK_SUBABORT_RESTART => TRANS_ABORT
  | _ => TRANS_INPROGRESS
  end.

Definition agree (f : Frame) : Prop := f_state f = expected_state (f_block f).

Definition in_blocks (l : list TBlockState) (f : Frame) : bool := bool_decide (f_block f ∈ l).

(** A top-level state that has no subtransaction above it. *)
Definition top_block (b : TBlockState) : bool :=
  match b with
  | TBLOCK_DEFAULT | TBLOCK_STARTED | TBLOCK_BEGIN | TBLOCK_INPROGRESS | TBLOCK_IMPLICIT_INPROGRESS | TBLOCK_END
  | TBLOCK_ABORT | TBLOCK_ABORT_END | TBLOCK_ABORT_PENDING | TBLOCK_PREPARE => true
  | _ => false
  end.

(** The states of a level that has already been aborted and waits to be ended. *)
Definition aborted_block (b : TBlockState) : bool :=
  match b with TBLOCK_ABORT | TBLOCK_ABORT_END | TBLOCK_SUBABORT => true | _ => false end.

Definition live (t : Frame) (l : list Frame) : Prop :=
  f_block t = TBLOCK_INPROGRESS /\ Forall (fun f => f_block f = TBLOCK_SUBINPROGRESS) l.

Definition committing (t : Frame) (l : list Frame) : Prop :=
  (f_block t = TBLOCK_END \/ f_block t = TBLOCK_PREPARE) /\ Forall (fun f => f_block f = TBLOCK_SUBCOMMIT) l.

Fixpoint releasing (t : Frame) (l : list Frame) : Prop :=
  match l with
  | [] => live t []
  | f :: r => live t l \/ (f_block f = TBLOCK_SUBRELEASE /\ releasing t r)
  end.

Fixpoint aborting (t : Frame) (l : list Frame) : Prop :=
  match l with
  | [] => f_block t = TBLOCK_ABORT_PENDING \/ f_block t = TBLOCK_ABORT_END
  | f :: r =>
      match f_block f with
      | TBLOCK_SUBABORT_PENDING | TBLOCK_SUBABORT_END => aborting t r
      | TBLOCK_SUBRESTART | TBLOCK_SUBABORT_RESTART => live t r
      | _ => False
      end
  end.

(** What lies below a current subtransaction in the given state. *)
Definition below (b : TBlockState) (t : Frame) (l : list Frame) : Prop :=
  match b with
  | TBLOCK_SUBBEGIN | TBLOCK_SUBINPROGRESS | TBLOCK_SUBABORT | TBLOCK_SUBRESTART | TBLOCK_SUBABORT_RESTART => live t l
  | TBLOCK_SUBCOMMIT => committing t l
  | TBLOCK_SUBRELEASE => releasing t l
  | TBLOCK_SUBABORT_PENDING | TBLOCK_SUBABORT_END => aborting t l
  | _ => False
  end.

Definition pending (t : Frame) (l : list Frame) : Prop :=
  match l with
  | [] => top_block (f_block t) = true
  | f :: r => below (f_block f) t r
  end.

(** What always holds of the top-level state. *)
Definition base (t : Frame) : Prop := f_nest t <= 1 /\ f_name t = None.

Definition outer (v : Shape) : list Frame := match v.2 with [] => [] | _ :: l => v.1 :: l end.

(** After a completed step. *)
Definition wf (v : Shape) : Prop := pending v.1 v.2 /\ Forall agree (v.1 :: v.2) /\ base v.1.

(** After an error: the low-level state of the current level is unknown. *)
Definition hurt (v : Shape) : Prop :=
  pending v.1 v.2 /\ Forall agree (outer v) /\ base v.1 /\
  (aborted_block (f_block (cur_frame v)) = true -> f_state (cur_frame v) = TRANS_ABORT).

(** After [AbortCurrentTransaction]. *)
Definition recovered (v : Shape) : Prop :=
  wf v /\ in_blocks [TBLOCK_DEFAULT; TBLOCK_ABORT; TBLOCK_SUBABORT] (cur_frame v) = true.

(** No transaction. *)
Definition idle (v : Shape) : Prop :=
  exists t, v = (t, []) /\ f_block t = TBLOCK_DEFAULT /\ f_state t = TRANS_DEFAULT /\ base t.

(** After [StartTransactionCommand]. *)
Definition active (v : Shape) : Prop :=
  wf v /\ in_blocks [TBLOCK_STARTED; TBLOCK_INPROGRESS; TBLOCK_IMPLICIT_INPROGRESS; TBLOCK_ABORT;
                     TBLOCK_SUBINPROGRESS; TBLOCK_SUBABORT] (cur_frame v) = true.

(** *** The session that a stack stands for *)

(** Once the pending command is completed. *)
Fixpoint session_of (t : Frame) (l : list Frame) : Session :=
  match l with
  | [] =>
      match f_block t with
      | TBLOCK_IMPLICIT_INPROGRESS => Implicit
      | TBLOCK_BEGIN | TBLOCK_INPROGRESS => InBlock []
      | TBLOCK_ABORT => Failed []
      | TBLOCK_END | TBLOCK_ABORT_END | TBLOCK_ABORT_PENDING => if f_chain t then InBlock [] else Idle
      | _ => Idle
      end
  | f :: r =>
      match f_block f with
      | TBLOCK_SUBABORT => Failed (f_name <$> l)
      | TBLOCK_SUBRELEASE | TBLOCK_SUBCOMMIT | TBLOCK_SUBABORT_PENDING | TBLOCK_SUBABORT_END => session_of t r
      | _ => InBlock (f_name <$> l)
      end
  end.

(** When an error interrupts it. *)
Fixpoint error_session (t : Frame) (l : list Frame) : Session :=
  match l with
  | [] => match f_block t with TBLOCK_INPROGRESS | TBLOCK_ABORT => Failed [] | _ => Idle end
  | f :: r =>
      match f_block f with
      | TBLOCK_SUBINPROGRESS | TBLOCK_SUBABORT => Failed (f_name <$> l)
      | _ => error_session t r
      end
  end.

(** A contained error after which the session stands as given. *)
Definition fail_as (σ : Session) (r : XactErr) (v : Shape) : Prop :=
  contained r /\ hurt v /\ error_session v.1 v.2 = σ.

Definition fail_hurt (r : XactErr) (v : Shape) : Prop := contained r /\ hurt v.

Definition recovered_as (σ : Session) (v : Shape) : Prop := recovered v /\ session_of v.1 v.2 = σ.

Definition fails (v : Shape) : XactErr -> Shape -> Prop := fail_as (error_session v.1 v.2).

(** ** Facts about the invariant *)

Lemma live_pending t l : live t l -> pending t l.
Proof.
  intros [Ht Hl]. destruct l as [|f l]; simpl.
  - by rewrite Ht.
  - apply Forall_cons in Hl as [-> Hl]. by split.
Qed.

Lemma committing_pending t l : committing t l -> pending t l.
Proof.
  intros [Ht Hl]. destruct l as [|f l]; simpl.
  - by destruct Ht as [-> | ->].
  - apply Forall_cons in Hl as [-> Hl]. by split.
Qed.

Lemma releasing_pending t l : releasing t l -> pending t l.
Proof.
  destruct l as [|f l]; [apply live_pending|]. intros [H|[Hf H]]; [by apply live_pending|]. simpl. by rewrite Hf.
Qed.

Lemma aborting_pending t l : aborting t l -> pending t l.
Proof.
  destruct l as [|f l]; simpl; [|by destruct (f_block f)].
  by intros [-> | ->].
Qed.

Lemma below_pending b t l : below b t l -> pending t l.
Proof.
  destruct b; simpl; intros H; try done;
    eauto using live_pending, committing_pending, releasing_pending, aborting_pending.
Qed.

Lemma wf_hurt v : wf v -> hurt v.
Proof.
  destruct v as [t l]. intros (Hp & Ha & Hn). unfold agree in *. refine (conj Hp (conj _ (conj Hn _))); simpl in *.
  - destruct l; [done|]. apply Forall_cons in Ha as [? Ha]. apply Forall_cons in Ha as [? Ha]. by constructor.
  - unfold cur_frame. destruct l as [|f l]; simpl; [apply Forall_cons in Ha as [Ha _]|apply Forall_cons in Ha as [_ [Ha _]%Forall_cons]];
      rewrite Ha; by destruct (f_block _).
Qed.

(** Dropping the current subtransaction leaves a sound stack. *)
Lemma hurt_pop t f l : hurt (t, f :: l) -> wf (t, l).
Proof. intros (Hp & Ha & Hn & _). split; [|done]. simpl in *. by eapply below_pending. Qed.

Lemma hurt_sub t f l st : hurt (t, f :: l) -> aborted_block (f_block f) = false -> hurt (t, fset_state st f :: l).
Proof.
  intros (Hp & Ha & Hn & Hs) Hb. refine (conj Hp (conj Ha (conj Hn _))). unfold cur_frame. simpl in *. congruence.
Qed.

Lemma hurt_top t st : hurt (t, []) -> aborted_block (f_block t) = false -> hurt (fset_state st t, []).
Proof.
  intros (Hp & Ha & Hn & Hs) Hb. refine (conj Hp (conj Ha (conj Hn _))). unfold cur_frame. simpl in *. congruence.
Qed.

Lemma wf_top t :
  top_block (f_block t) = true -> agree t -> base t -> wf (t, []).
Proof. intros Hb Ha Ht. refine (conj Hb (conj _ Ht)). by apply Forall_singleton. Qed.

(** ** Rules for the dispatch on block states *)

Section Rules.
Context {CommitTs : Type}.
Abbreviation X := (@X CommitTs).
Abbreviation triple := (triple (@shape CommitTs)).

Lemma tr_block {A} (k : TBlockState -> X A) v Q E :
  triple (k (f_block (cur_frame v))) v Q E -> triple (bind (get current_block) k) v Q E.
Proof.
  intros Hk. apply tr_let_get. intros s <-. rewrite <- shape_current in Hk. exact Hk.
Qed.

Lemma tr_current {A} (k : TransactionStateData -> X A) v Q E :
  (forall s, frame s = cur_frame v -> triple (k s) v Q E) -> triple (bind (get CurrentTransactionState) k) v Q E.
Proof. intros Hk. apply tr_let_get. intros s <-. apply Hk, shape_current. Qed.

Lemma tr_depth {A} (k : nat -> X A) v Q E :
  triple (k (length v.2)) v Q E -> triple (bind (get (fun s => length (subs s))) k) v Q E.
Proof. intros Hk. apply tr_let_get. intros s <-. simpl in Hk. by rewrite length_fmap in Hk. Qed.

Lemma tr_then {A B} (m : X A) (k : A -> X B) v w (E' : XactErr -> Shape -> Prop) Q E :
  triple m v (fun _ v' => v' = w) E' -> (forall r v', E' r v' -> E r v') -> (forall a, triple (k a) w Q E) ->
  triple (bind m k) v Q E.
Proof.
  intros Hm HE Hk. apply tr_bind. eapply tr_mono; [exact Hm| |exact HE]. intros a ? ->. apply Hk.
Qed.

Lemma tr_set_block b v (Q : unit -> Shape -> Prop) E :
  Q tt (upd_frame (fset_block b) v) -> triple (set_block b) v Q E.
Proof. intros HQ. apply tr_last. apply (tr_upd_current _ (fset_block b)); [done|]. by apply tr_ret. Qed.

Lemma tr_then_set_block {A} b (k : unit -> X A) v Q E :
  triple (k tt) (upd_frame (fset_block b) v) Q E -> triple (bind (set_block b) k) v Q E.
Proof. intros Hk. by apply tr_bind, tr_set_block. Qed.

(** *** Ends of a transaction *)

Definition idle_frame (t : Frame) : Frame := fset_block TBLOCK_DEFAULT (fset_state TRANS_DEFAULT (fset_nest 0 t)).

Lemma fails_hurt σ r v : fail_as σ r v -> fail_hurt r v.
Proof. by intros (? & ? & _). Qed.

Lemma top_error_fails t r v :
  hurt (t, []) -> aborted_block (f_block t) = false -> top_error t r v -> fails (t, []) r v.
Proof. intros Hh Hb [Hr [st ->]]. split; [done|]. split; [by apply hurt_top|done]. Qed.

Lemma sub_error_fails t f l r v :
  hurt (t, f :: l) -> aborted_block (f_block f) = false -> sub_error t f l r v -> fails (t, f :: l) r v.
Proof. intros Hh Hb [Hr [st ->]]. split; [done|]. split; [by apply hurt_sub|done]. Qed.

Lemma same_fails v r w : hurt v -> contained r /\ w = v -> fails v r w.
Proof. by intros Hh [Hr ->]. Qed.

Lemma abort_top t :
  hurt (t, []) -> aborted_block (f_block t) = false ->
  triple (AbortTransaction;; CleanupTransaction) (t, [])
    (fun _ v => v = (fset_state TRANS_DEFAULT (fset_nest 0 t), [])) (fails (t, [])).
Proof.
  intros Hh Hb. eapply tr_then; [apply AbortTransaction_shape|intros r v; by apply top_error_fails|].
  intros _. eapply tr_mono; [by apply CleanupTransaction_shape|by intros _ ? ->|].
  intros r v [Hr ->]. apply top_error_fails; [done|done|]. split; [done|by eexists].
Qed.

Lemma cleanup_top t :
  hurt (t, []) -> f_state t = TRANS_ABORT ->
  triple CleanupTransaction (t, []) (fun _ v => v = (fset_state TRANS_DEFAULT (fset_nest 0 t), [])) (fails (t, [])).
Proof.
  intros Hh Ht. eapply tr_mono; [by apply CleanupTransaction_shape|done|]. intros r v. by apply same_fails.
Qed.

Lemma abort_sub t f l :
  hurt (t, f :: l) -> aborted_block (f_block f) = false ->
  triple (AbortSubTransaction;; CleanupSubTransaction) (t, f :: l) (fun _ v => v = (t, l)) (fails (t, f :: l)).
Proof.
  intros Hh Hb. eapply tr_then; [apply AbortSubTransaction_shape|intros r v; by apply sub_error_fails|].
  intros _. eapply tr_mono; [apply CleanupSubTransaction_shape|done|].
  intros r v [Hr ->]. apply sub_error_fails; [done|done|]. split; [done|by eexists].
Qed.

Lemma cleanup_sub t f l :
  hurt (t, f :: l) -> triple CleanupSubTransaction (t, f :: l) (fun _ v => v = (t, l)) (fails (t, f :: l)).
Proof.
  intros Hh. eapply tr_mono; [apply CleanupSubTransaction_shape|done|]. intros r v. by apply same_fails.
Qed.

Lemma idle_recovered v : idle v -> recovered_as Idle v.
Proof.
  intros (t & -> & Hb & Hs & Hn). split; [split; [|unfold in_blocks, cur_frame; simpl; by rewrite Hb]|simpl; by rewrite Hb].
  apply wf_top; [by rewrite Hb| |done]. unfold agree. by rewrite Hs, Hb.
Qed.

(** Assembles [AbortTransaction;; CleanupTransaction;; k]. *)
Lemma tr_regroup {A B C} (m : X A) (m' : X B) (k : B -> X C) v Q E :
  triple (bind (m;; m') k) v Q E -> triple (m;; bind m' k) v Q E.
Proof.
  intros H e He s Hs. specialize (H e He s Hs). unfold bind in *. by destruct (m e s) as [[r|a] s'].
Qed.

Lemma abort_incomplete_start_safe t :
  hurt (t, []) -> f_block t = TBLOCK_DEFAULT ->
  triple abort_incomplete_start (t, []) (fun _ => idle) (fails (t, [])).
Proof.
  intros Hh Hb. unfold abort_incomplete_start. apply tr_current. intros s Hs.
  assert (Hst : state s = f_state t) by (change (f_state (frame s) = f_state t); by rewrite Hs).
  assert (Hnb : aborted_block (f_block t) = false) by (by rewrite Hb).
  destruct (bool_decide (state s = TRANS_DEFAULT)) eqn:Hd.
  { apply tr_ret. exists t. apply bool_decide_eq_true in Hd.
    refine (conj eq_refl (conj Hb (conj _ _))); [congruence|apply Hh]. }
  assert (Hgo : forall st,
    triple (AbortTransaction;; CleanupTransaction) (fset_state st t, []) (fun _ => idle) (fails (t, []))).
  { intros st. eapply tr_mono; [apply abort_top; [by apply hurt_top|done]| |done].
    intros _ v ->. eexists. repeat split; simpl; [done|lia|apply Hh]. }
  destruct (bool_decide (state s = TRANS_START)); cbn [when].
  - apply (tr_upd_current _ (fset_state TRANS_INPROGRESS)); [done|]. apply Hgo.
  - apply tr_bind, tr_ret. rewrite <- (fset_state_same t) at 1. apply Hgo.
Qed.

End Rules.

(** ** After an error *)

Section Abort.
Context {CommitTs : Type}.
Abbreviation X := (@X CommitTs).
Abbreviation triple := (triple (@shape CommitTs)).

Lemma hurt_block_top t : hurt (t, []) -> top_block (f_block t) = true.
Proof. by intros (H & _). Qed.

Lemma hurt_block_sub t f l : hurt (t, f :: l) -> below (f_block f) t l.
Proof. by intros (H & _). Qed.

Lemma hurt_aborted v : hurt v -> aborted_block (f_block (cur_frame v)) = true -> f_state (cur_frame v) = TRANS_ABORT.
Proof. intros (_ & _ & _ & H). exact H. Qed.

Lemma idle_frame_idle t : base t -> idle (idle_frame t, []).
Proof. intros [Hn Hm]. eexists. repeat split; simpl; [lia|done]. Qed.

Lemma abort_to_idle t :
  hurt (t, []) -> aborted_block (f_block t) = false ->
  triple (AbortTransaction;; CleanupTransaction;; set_block TBLOCK_DEFAULT) (t, []) (fun _ => idle) (fails (t, [])).
Proof.
  intros Hh Hb. apply tr_regroup. eapply tr_then; [by apply abort_top|done|].
  intros _. apply tr_set_block, idle_frame_idle, Hh.
Qed.

Lemma cleanup_to_idle t :
  hurt (t, []) -> f_state t = TRANS_ABORT ->
  triple (CleanupTransaction;; set_block TBLOCK_DEFAULT) (t, []) (fun _ => idle) (fails (t, [])).
Proof.
  intros Hh Hb. eapply tr_then; [by apply cleanup_top|done|].
  intros _. apply tr_set_block, idle_frame_idle, Hh.
Qed.

(** The current level enters its aborted state. *)
Lemma aborted_top t : base t -> recovered_as (Failed []) (fset_block TBLOCK_ABORT (fset_state TRANS_ABORT t), []).
Proof. intros Hn. split; [|done]. split; [|done]. by apply wf_top. Qed.

Lemma aborted_sub t f l :
  live t l -> Forall agree (t :: l) -> base t ->
  recovered_as (Failed (f_name <$> f :: l)) (t, fset_block TBLOCK_SUBABORT (fset_state TRANS_ABORT f) :: l).
Proof.
  intros Hl Ha Hn. split; [|done]. split; [|done]. split; [done|split; [|done]]. simpl in *.
  apply Forall_cons in Ha as [Ht Ha]. by repeat constructor.
Qed.

(** A level that was aborted before stays as it is. *)
Lemma hurt_stays v :
  hurt v -> f_block (cur_frame v) = TBLOCK_ABORT \/ f_block (cur_frame v) = TBLOCK_SUBABORT ->
  recovered_as (error_session v.1 v.2) v.
Proof.
  intros Hh Hb. assert (Hs : f_state (cur_frame v) = TRANS_ABORT).
  { apply hurt_aborted; [done|]. by destruct Hb as [-> | ->]. }
  assert (Hc : agree (cur_frame v)). { unfold agree. rewrite Hs. by destruct Hb as [-> | ->]. }
  destruct Hh as (Hp & Ha & Hn & _). split; [split|].
  - refine (conj Hp (conj _ Hn)). destruct v as [t [|f l]]; [by apply Forall_singleton|].
    apply Forall_cons in Ha as [Ht Ha]. by repeat constructor.
  - unfold in_blocks. by destruct Hb as [-> | ->].
  - destruct v as [t [|f l]]; unfold cur_frame in Hb; simpl in Hb |- *; destruct Hb as [Hb|Hb]; rewrite Hb in *; try done.
    simpl in Hp. by rewrite Hb in Hp.
Qed.

Lemma AbortCurrentTransaction_top t n :
  hurt (t, []) ->
  triple (AbortCurrentTransaction_rec (S n)) (t, []) (fun _ => recovered_as (error_session t [])) (fails (t, [])).
Proof.
  intros Hh. pose proof (hurt_block_top _ Hh) as Hb. cbn [AbortCurrentTransaction_rec]. apply tr_block.
  unfold cur_frame. cbn [snd fst].
  assert (Hidle : aborted_block (f_block t) = false -> error_session t [] = Idle ->
    triple (AbortTransaction;; CleanupTransaction;; set_block TBLOCK_DEFAULT) (t, [])
      (fun _ => recovered_as (error_session t [])) (fails (t, []))).
  { intros Hn ->. eapply tr_mono; [by apply abort_to_idle| |done]. intros ? v. apply idle_recovered. }
  pose proof (hurt_stays (t, []) Hh) as Hstay. pose proof (hurt_aborted _ Hh) as Hst.
  pose proof (abort_incomplete_start_safe (CommitTs := CommitTs) t Hh) as Hinc. pose proof (cleanup_to_idle t Hh) as Hclean.
  unfold cur_frame in Hstay, Hst. simpl in *.
  destruct (f_block t) eqn:Hbt; try discriminate Hb; try exact (Hidle eq_refl eq_refl).
  - eapply tr_mono; [by apply Hinc|intros ? v; apply idle_recovered|done].
  - eapply tr_then; [apply AbortTransaction_shape| |].
    + intros r v Hv. apply (top_error_fails t) in Hv; [done|done|by rewrite Hbt].
    + intros _. apply tr_set_block, aborted_top, Hh.
  - apply tr_ret, Hstay. by left.
  - eapply tr_mono; [by apply Hclean, Hst|intros ? v; apply idle_recovered|done].
Qed.

(** Levels that an error removes. *)
Definition removed_block (b : TBlockState) : bool :=
  match b with TBLOCK_SUBINPROGRESS | TBLOCK_SUBABORT => false | _ => true end.

Lemma error_session_pop t f l : removed_block (f_block f) = true -> error_session t (f :: l) = error_session t l.
Proof. simpl. by destruct (f_block f). Qed.

(** The aborted levels are removed until one is left that the user has to end. *)
Lemma AbortCurrentTransaction_rec_safe n t l :
  hurt (t, l) -> (length l < n)%nat ->
  triple (AbortCurrentTransaction_rec n) (t, l) (fun _ => recovered_as (error_session t l)) (fails (t, l)).
Proof.
  revert l. induction n as [|n IH]; intros l Hh Hn; [lia|].
  destruct l as [|f l]; [by apply AbortCurrentTransaction_top|].
  assert (Hnext := IH l (wf_hurt _ (hurt_pop _ _ _ Hh)) ltac:(simpl in Hn; lia)).
  assert (Hclean : removed_block (f_block f) = true ->
    triple (CleanupSubTransaction;; AbortCurrentTransaction_rec n) (t, f :: l)
      (fun _ => recovered_as (error_session t (f :: l))) (fails (t, f :: l))).
  { intros Hr. eapply tr_then; [by apply cleanup_sub|done|]. intros _.
    unfold fails. cbn [fst snd]. rewrite error_session_pop by done. exact Hnext. }
  assert (Habort : removed_block (f_block f) = true -> aborted_block (f_block f) = false ->
    triple (AbortSubTransaction;; CleanupSubTransaction;; AbortCurrentTransaction_rec n) (t, f :: l)
      (fun _ => recovered_as (error_session t (f :: l))) (fails (t, f :: l))).
  { intros Hr Hb. apply tr_regroup. eapply tr_then; [by apply abort_sub|done|]. intros _.
    unfold fails. cbn [fst snd]. rewrite error_session_pop by done. exact Hnext. }
  pose proof (hurt_block_sub _ _ _ Hh) as Hb. pose proof (hurt_stays _ Hh) as Hstay.
  pose proof (sub_error_fails t f l) as Herr.
  cbn [AbortCurrentTransaction_rec]. apply tr_block. unfold cur_frame in *. cbn [snd fst] in *.
  destruct (f_block f) eqn:Hbf; try contradiction Hb; try exact (Hclean eq_refl); try exact (Habort eq_refl eq_refl).
  - eapply tr_then; [apply AbortSubTransaction_shape|intros r v; by apply Herr|].
    intros _. apply tr_set_block. cbn [error_session]. rewrite Hbf.
    destruct Hh as (_ & Ha & Hns & _). by apply aborted_sub.
  - apply tr_ret, Hstay. by right.
Qed.

Lemma AbortCurrentTransaction_safe v :
  hurt v -> triple AbortCurrentTransaction v (fun _ => recovered_as (error_session v.1 v.2)) (fails v).
Proof.
  destruct v as [t l]. intros Hh. unfold AbortCurrentTransaction. apply tr_depth.
  apply AbortCurrentTransaction_rec_safe; [done|simpl; lia].
Qed.

(** *** AbortOutOfAnyTransaction *)

Lemma tr_weaken_fail {A} (m : X A) v Q σ : triple m v Q (fail_as σ) -> triple m v Q fail_hurt.
Proof. intros Hm. eapply tr_mono; [exact Hm|done|apply fails_hurt]. Qed.

Lemma abort_out_of_any_top t :
  hurt (t, []) -> forall n, triple (abort_out_of_any (S n)) (t, []) (fun _ => idle) fail_hurt.
Proof.
  intros Hh n. pose proof (hurt_block_top _ Hh) as Hb. cbn [abort_out_of_any]. apply tr_current. intros s Hs.
  assert (Hbs : blockState s = f_block t) by (change (f_block (frame s) = f_block t); by rewrite Hs).
  rewrite Hbs. apply tr_bind.
  eapply tr_mono with (Q := fun _ => idle); [| |done].
  - assert (Habort := fun H => tr_weaken_fail _ _ _ _ (abort_to_idle t Hh H)).
    assert (Hclean := fun H => tr_weaken_fail _ _ _ _ (cleanup_to_idle t Hh H)).
    pose proof (hurt_aborted _ Hh) as Hst. unfold cur_frame in Hst. simpl in Hst.
    destruct (f_block t) eqn:Hbt; try discriminate Hb; try exact (Habort eq_refl);
      try (apply tr_seq_quiet; [quiet_tac|done|intros _; exact (Hclean (Hst eq_refl))]).
    eapply tr_weaken_fail. by apply abort_incomplete_start_safe.
  - intros ? v (t' & -> & Hb' & Hi). apply tr_block. unfold cur_frame. simpl. rewrite Hb'. cbn.
    apply tr_ret. by exists t'.
Qed.

Lemma wf_default t l : wf (t, l) -> f_block (cur_frame (t, l)) = TBLOCK_DEFAULT -> idle (t, l).
Proof.
  intros (Hp & Ha & Hns) Hd. unfold cur_frame in Hd. destruct l as [|f l]; simpl in *; [|by rewrite Hd in Hp].
  exists t. apply Forall_cons in Ha as [Ha _]. refine (conj eq_refl (conj Hd (conj _ Hns))).
  unfold agree in Ha. by rewrite Ha, Hd.
Qed.

Lemma abort_out_of_any_safe n t l :
  hurt (t, l) -> (length l < n)%nat -> triple (abort_out_of_any n) (t, l) (fun _ => idle) fail_hurt.
Proof.
  revert l. induction n as [|n IH]; intros l Hh Hn; [lia|].
  destruct l as [|f l]; [by apply abort_out_of_any_top|].
  cbn [abort_out_of_any]. apply tr_current. intros s Hs.
  assert (Hbs : blockState s = f_block f) by (change (f_block (frame s) = f_block f); by rewrite Hs).
  pose proof (hurt_block_sub _ _ _ Hh) as Hb. rewrite Hbs. apply tr_bind.
  eapply tr_mono with (Q := fun _ v => v = (t, l)); [| |done].
  - assert (Hclean : triple (when (curTransactionOwner s) (call AtSubAbort_Portals);; CleanupSubTransaction)
                       (t, f :: l) (fun _ v => v = (t, l)) fail_hurt).
    { apply tr_seq_quiet; [quiet_tac|done|intros _]. by eapply tr_weaken_fail, cleanup_sub. }
    destruct (f_block f) eqn:Hbf; try contradiction Hb; try exact Hclean;
      (eapply tr_weaken_fail, abort_sub; [done|by rewrite Hbf]).
  - intros _ v ->. apply tr_block. apply hurt_pop in Hh.
    destruct (bool_decide_reflect (f_block (cur_frame (t, l)) = TBLOCK_DEFAULT)) as [Hd|Hd]; cbn [negb when].
    + apply tr_ret. by apply wf_default.
    + apply IH; [by apply wf_hurt|simpl in Hn; lia].
Qed.

Lemma AbortOutOfAnyTransaction_safe v :
  hurt v -> triple AbortOutOfAnyTransaction v (fun _ => idle) fail_hurt.
Proof.
  destruct v as [t l]. intros Hh. unfold AbortOutOfAnyTransaction.
  apply tr_seq_quiet; [quiet_tac|done|intros _]. apply tr_depth. apply tr_bind.
  eapply tr_mono; [apply abort_out_of_any_safe; [done|simpl; lia]| |done].
  intros ? v Hv. apply tr_quiet; [quiet_tac| |done]. intros r Hr. split; [done|]. by apply wf_hurt, idle_recovered.
Qed.

End Abort.
