(* ===== verification/XactCommand.v ===== *)
(** * XactCommand: command boundaries

    What StartTransactionCommand, CommitTransactionCommand and the block and
    savepoint commands of xact.c do to the stack of block states, and to the
    session that it stands for. *)

From stdpp Require Import strings.
From S2P Require Import Prelude TransactionId Slru Clog Subtrans Transam Varsup HeapTuple Xact XactEnd.
From S2P Require Import XactBlock XactLogic XactSession XactSafe.

Open Scope xact_scope.

(** After [CommitTransactionCommand]. *)
Definition settled (v : Shape) : Prop :=
  wf v /\ in_blocks [TBLOCK_DEFAULT; TBLOCK_INPROGRESS; TBLOCK_IMPLICIT_INPROGRESS; TBLOCK_ABORT;
                     TBLOCK_SUBINPROGRESS; TBLOCK_SUBABORT] (cur_frame v) = true.

Definition settled_as (σ : Session) (v : Shape) : Prop := settled v /\ session_of v.1 v.2 = σ.

Section Commit.
Context {CommitTs : Type}.
Abbreviation X := (@X CommitTs).
Abbreviation triple := (triple (@shape CommitTs)).

Lemma wf_agree_top t l : wf (t, l) -> agree t.
Proof. intros (_ & Ha & _). by apply Forall_cons in Ha as [Ha _]. Qed.

Lemma wf_agree_sub t f l : wf (t, f :: l) -> agree f.
Proof. intros (_ & Ha & _). by apply Forall_cons in Ha as [_ [Ha _]%Forall_cons]. Qed.

Lemma wf_below t f l : wf (t, f :: l) -> below (f_block f) t l.
Proof. by intros (H & _). Qed.

Lemma wf_base t l : wf (t, l) -> base t.
Proof. by intros (_ & _ & H). Qed.

Lemma wf_pop t f l : wf (t, f :: l) -> wf (t, l).
Proof. intros H. by eapply hurt_pop, wf_hurt. Qed.

Lemma wf_push t f l : wf (t, l) -> below (f_block f) t l -> agree f -> wf (t, f :: l).
Proof.
  intros (_ & Ha & Hb) Hf Hg. refine (conj Hf (conj _ Hb)).
  apply Forall_cons in Ha as [Ht Ha]. by repeat constructor.
Qed.

Lemma idle_settled v : idle v -> settled_as Idle v.
Proof.
  intros Hi. destruct (idle_recovered _ Hi) as [[Hw _] Hs]. split; [|done]. split; [done|].
  destruct Hi as (t & -> & Hb & _). unfold in_blocks, cur_frame. simpl. by rewrite Hb.
Qed.

Lemma hurt_default t : base t -> f_block t = TBLOCK_DEFAULT -> hurt (t, []).
Proof.
  intros Ht Hb. refine (conj _ (conj (Forall_nil_2 _) (conj Ht _))); unfold cur_frame; simpl; by rewrite Hb.
Qed.

(** ** The end of a block, with AND CHAIN *)

Lemma end_block_safe t tc :
  base t ->
  triple (end_block tc) (fset_state TRANS_DEFAULT (fset_nest 0 t), [])
    (fun _ => settled_as (if f_chain t then InBlock [] else Idle)) (fail_as Idle).
Proof.
  intros [Hn Hm]. unfold end_block. apply tr_then_set_block. cbn [upd_frame fst snd]. apply tr_current. intros s Hs.
  assert (Hc : chain s = f_chain t) by (change (f_chain (frame s) = f_chain t); by rewrite Hs).
  rewrite Hc. destruct (f_chain t); cbn [when].
  - eapply tr_then; [apply StartTransaction_shape| |intros _].
    + intros r v [Hr ->]. split; [done|]. split; [|done]. apply hurt_default; [|done]. split; [simpl; lia|done].
    + apply tr_then_set_block. apply (tr_upd_current _ (fset_chain false)); [done|].
      apply tr_last, tr_upd_glob, tr_ret. split; [|done]. split; [|done]. apply wf_top; [done|done|]. split; [simpl; lia|done].
  - apply tr_ret, idle_settled. eexists. repeat split; [simpl; lia|done].
Qed.

(** What each routine that ends a transaction leaves behind. *)
Abbreviation ended t := ((fset_state TRANS_DEFAULT (fset_nest 0 t), []) : Shape).

Lemma commit_top t :
  wf (t, []) -> aborted_block (f_block t) = false ->
  triple CommitTransaction (t, []) (fun _ v => v = ended t) (fails (t, [])).
Proof.
  intros Hw Hb. eapply tr_mono; [apply CommitTransaction_shape|done|].
  intros r v. apply top_error_fails; [by apply wf_hurt|done].
Qed.

Lemma prepare_top t :
  wf (t, []) -> aborted_block (f_block t) = false ->
  triple PrepareTransaction (t, []) (fun _ v => v = ended t) (fails (t, [])).
Proof.
  intros Hw Hb. eapply tr_mono; [apply PrepareTransaction_shape|done|].
  intros r v. apply top_error_fails; [by apply wf_hurt|done].
Qed.

Lemma set_default_idle t E : base t -> triple (set_block TBLOCK_DEFAULT) (ended t) (fun _ => settled_as Idle) E.
Proof.
  intros [Hn Hm]. apply tr_set_block, idle_settled. eexists. repeat split; [simpl; lia|done].
Qed.

Lemma end_with (m : X unit) t tc :
  wf (t, []) -> error_session t [] = Idle -> triple m (t, []) (fun _ v => v = ended t) (fails (t, [])) ->
  triple (m;; end_block tc) (t, [])
    (fun _ => settled_as (if f_chain t then InBlock [] else Idle)) (fails (t, [])).
Proof.
  intros Hw He Hm. eapply tr_then; [exact Hm|done|intros _].
  unfold fails. cbn [fst snd]. rewrite He. by apply end_block_safe, (wf_base t []).
Qed.

Lemma quiet_settled (m : X unit) v :
  quiet shape m -> wf v -> settled v -> triple m v (fun _ => settled_as (session_of v.1 v.2)) (fails v).
Proof.
  intros Hm Hw Hs. apply tr_quiet; [done| |done]. intros r Hr. by apply same_fails; [apply wf_hurt|].
Qed.

Lemma CommitTransactionCommand_top n t :
  wf (t, []) -> f_block t <> TBLOCK_DEFAULT ->
  triple (CommitTransactionCommand_rec (S n)) (t, []) (fun _ => settled_as (session_of t [])) (fails (t, [])).
Proof.
  intros Hw Hnd. pose proof (wf_agree_top _ _ Hw) as Ha. pose proof (wf_base _ _ Hw) as Hbase.
  assert (Hb : top_block (f_block t) = true) by apply Hw.
  cbn [CommitTransactionCommand_rec]. apply tr_current. intros s Hs. apply tr_let_get. intros s' _. apply tr_depth.
  assert (Hbs : blockState s = f_block t) by (change (f_block (frame s) = f_block t); by rewrite Hs). rewrite Hbs.
  pose proof (wf_hurt _ Hw) as Hh. unfold agree in Ha.
  assert (Hnb : f_state t = TRANS_INPROGRESS -> aborted_block (f_block t) = false).
  { rewrite Ha. by destruct (f_block t). }
  assert (Hset : in_blocks [TBLOCK_INPROGRESS; TBLOCK_IMPLICIT_INPROGRESS; TBLOCK_ABORT] t = true -> settled (t, [])).
  { intros Hi. split; [done|]. unfold in_blocks, cur_frame in *. simpl. apply bool_decide_eq_true in Hi.
    apply bool_decide_eq_true. set_solver. }
  assert (Hend := fun m => end_with m t (SaveTransactionCharacteristics s') Hw).
  unfold in_blocks in Hset. cbn [session_of error_session] in *.
  destruct (f_block t) eqn:Hbt; try discriminate Hb; try done; simpl in Ha.
  - eapply tr_then; [apply commit_top; [done|]|done|intros _; by apply set_default_idle]. by rewrite Hbt, <- Hnb.
  - apply tr_set_block. split; [|done]. split; [|done]. by apply wf_top.
  - eapply tr_mono; [apply quiet_settled; [quiet_tac|done|by apply Hset]| |done]. cbn [session_of fst snd]. by rewrite Hbt.
  - eapply tr_mono; [apply quiet_settled; [quiet_tac|done|by apply Hset]| |done]. cbn [session_of fst snd]. by rewrite Hbt.
  - apply Hend; [done|]. apply commit_top; [done|]. by rewrite Hbt, <- Hnb.
  - apply tr_ret. split; [by apply Hset|]. simpl. by rewrite Hbt.
  - apply Hend; [done|]. by apply cleanup_top.
  - apply tr_regroup. apply Hend; [done|]. apply abort_top; [done|]. by rewrite Hbt, <- Hnb.
  - eapply tr_then; [apply prepare_top; [done|]|done|intros _; by apply set_default_idle]. by rewrite Hbt, <- Hnb.
Qed.

(** ** Subtransactions *)

Lemma live_frame t l : wf (t, l) -> live t l -> error_session t l = Failed (f_name <$> l).
Proof.
  intros _ [Ht Hl]. destruct l as [|f l]; simpl; [by rewrite Ht|]. apply Forall_cons in Hl as [-> _]. done.
Qed.

Lemma live_block t l :
  live t l -> f_block (cur_frame (t, l)) = TBLOCK_INPROGRESS \/ f_block (cur_frame (t, l)) = TBLOCK_SUBINPROGRESS.
Proof.
  intros [Ht Hl]. unfold cur_frame. destruct l as [|f l]; [by left|]. apply Forall_cons in Hl as [Hf _]. by right.
Qed.

(** The frame that SAVEPOINT pushes. *)
Definition new_frame (n : option string) (v : Shape) : Frame :=
  mkFrame n (f_level (cur_frame v)) (f_nest (cur_frame v) + 1) TRANS_DEFAULT TBLOCK_SUBBEGIN false.

Lemma DefineSavepoint_safe n t l :
  wf (t, l) -> live t l ->
  triple (DefineSavepoint n) (t, l) (fun _ v => v = (t, new_frame n (t, l) :: l)) (fails (t, l)).
Proof.
  intros Hw Hl. unfold DefineSavepoint. apply tr_let_get. intros s _. destruct (IsInParallelMode s).
  { apply tr_raise_contained; [done|done|]. intros r Hr. apply same_fails; [by apply wf_hurt|done]. }
  assert (Hgo : triple (PushTransaction;; match n with Some n => upd_current (set_name (Some n)) | None => ret tt end)
                  (t, l) (fun _ v => v = (t, new_frame n (t, l) :: l)) (fails (t, l))).
  { eapply tr_then; [apply PushTransaction_shape| |intros _].
    - intros r v. apply same_fails. by apply wf_hurt.
    - destruct n as [n|]; [|by apply tr_ret].
      apply tr_last, (tr_upd_current _ (fset_name (Some n))); [done|]. by apply tr_ret. }
  apply tr_block. by destruct (live_block _ _ Hl) as [-> | ->].
Qed.

Lemma new_frame_wf n t l : wf (t, l) -> live t l -> wf (t, new_frame n (t, l) :: l).
Proof. intros Hw Hl. by apply wf_push. Qed.

(** A begun subtransaction is started. *)
Lemma start_sub t f l :
  wf (t, f :: l) -> f_block f = TBLOCK_SUBBEGIN ->
  triple (StartSubTransaction;; set_block TBLOCK_SUBINPROGRESS) (t, f :: l)
    (fun _ => settled_as (InBlock (f_name <$> f :: l))) (fails (t, f :: l)).
Proof.
  intros Hw Hb. eapply tr_then; [apply StartSubTransaction_shape| |intros _].
  - intros r v. apply sub_error_fails; [by apply wf_hurt|by rewrite Hb].
  - apply tr_set_block. split; [|done]. split; [|done]. pose proof (wf_below _ _ _ Hw) as Hl. rewrite Hb in Hl.
    apply wf_push; [by eapply wf_pop|done|done].
Qed.

Lemma restart_savepoint_safe n lv t l :
  wf (t, l) -> live t l ->
  triple (restart_savepoint n lv) (t, l) (fun _ => settled_as (InBlock (n :: (f_name <$> l)))) (fails (t, l)).
Proof.
  intros Hw Hl. unfold restart_savepoint. eapply tr_then; [by apply DefineSavepoint_safe|done|intros _].
  apply (tr_upd_current _ (fun f => fset_level lv (fset_name n f))); [done|]. cbn [upd_frame fst snd].
  eapply tr_mono; [apply start_sub; [by apply wf_push|done]|done|done].
Qed.

(** [do CommitSubTransaction() while ...] *)
Lemma commit_subs_safe b n t l :
  b = TBLOCK_SUBRELEASE \/ b = TBLOCK_SUBCOMMIT ->
  forall f, wf (t, f :: l) -> f_block f = b -> (length l < n)%nat ->
  triple (commit_subs n b) (t, f :: l)
    (fun _ v => exists l', v = (t, l') /\ wf v /\ below b t l' /\ f_block (cur_frame v) <> b /\
                 session_of t l' = session_of t (f :: l) /\ error_session t l' = error_session t (f :: l))
    (fails (t, f :: l)).
Proof.
  intros Hor. revert l. induction n as [|n IH]; intros l f Hw Hb Hn; [lia|].
  pose proof (wf_below _ _ _ Hw) as Hbel. rewrite Hb in Hbel. apply wf_pop in Hw as Hw'.
  assert (Hses : session_of t (f :: l) = session_of t l) by (simpl; rewrite Hb; by destruct Hor as [-> | ->]).
  assert (Herr : error_session t (f :: l) = error_session t l)
    by (apply error_session_pop; rewrite Hb; by destruct Hor as [-> | ->]).
  cbn [commit_subs]. eapply tr_then; [apply CommitSubTransaction_shape| |intros _].
  { intros r v. apply sub_error_fails; [by apply wf_hurt|]. rewrite Hb. by destruct Hor as [-> | ->]. }
  apply tr_block. destruct (bool_decide_reflect (f_block (cur_frame (t, l)) = b)) as [Hc|Hc]; cbn [when].
  - unfold fails. cbn [fst snd]. rewrite Hses, Herr. destruct l as [|f' l].
    + exfalso. unfold cur_frame in Hc. simpl in Hc. destruct Hw' as (Hp & _). simpl in Hp. rewrite Hc in Hp.
      by destruct Hor as [-> | ->].
    + apply IH; [done|done|simpl in Hn; lia].
  - apply tr_ret. exists l. by rewrite Hses, Herr.
Qed.

Lemma releasing_live t l : releasing t l -> f_block (cur_frame (t, l)) <> TBLOCK_SUBRELEASE -> live t l.
Proof. destruct l as [|f l]; [done|]. by intros [H|[Hf H]]. Qed.

Lemma committing_top t l : committing t l -> f_block (cur_frame (t, l)) <> TBLOCK_SUBCOMMIT -> l = [].
Proof. destruct l as [|f l]; [done|]. intros [_ Hl] Hf. by apply Forall_cons in Hl as [Hl _]. Qed.

Lemma live_settled t l : wf (t, l) -> live t l -> settled_as (InBlock (f_name <$> l)) (t, l).
Proof.
  intros Hw Hl. split.
  - split; [done|]. unfold in_blocks. by destruct (live_block _ _ Hl) as [-> | ->].
  - destruct Hl as [Ht Hl]. destruct l as [|f l]; simpl; [by rewrite Ht|]. by apply Forall_cons in Hl as [-> _].
Qed.

(** The block states after which the level is gone when the command ends. *)
Lemma fails_pop t f l r v : removed_block (f_block f) = true -> fails (t, l) r v -> fails (t, f :: l) r v.
Proof. intros Hr. unfold fails. cbn [fst snd]. by rewrite error_session_pop. Qed.

Lemma commit_release n t f l :
  wf (t, f :: l) -> f_block f = TBLOCK_SUBRELEASE -> (length l < n)%nat ->
  triple (commit_subs n TBLOCK_SUBRELEASE) (t, f :: l)
    (fun _ => settled_as (session_of t (f :: l))) (fails (t, f :: l)).
Proof.
  intros Hw Hb Hn. eapply tr_mono; [by apply commit_subs_safe; [left|..]| |done].
  intros ? v (l' & -> & Hw' & Hbel & Hc & <- & _). apply releasing_live in Hbel; [|done].
  destruct (live_settled _ _ Hw' Hbel) as [Hs He]. by split.
Qed.

Lemma commit_subcommit n tc t f l :
  wf (t, f :: l) -> f_block f = TBLOCK_SUBCOMMIT -> (length l < n)%nat ->
  triple (commit_subs n TBLOCK_SUBCOMMIT;;
          let* b := get current_block in
          match b with
          | TBLOCK_END => CommitTransaction;; end_block tc
          | TBLOCK_PREPARE => PrepareTransaction;; set_block TBLOCK_DEFAULT
          | _ => raise ERROR "CommitTransactionCommand: unexpected state"
          end) (t, f :: l)
    (fun _ => settled_as (session_of t (f :: l))) (fails (t, f :: l)).
Proof.
  intros Hw Hb Hn. apply tr_bind. eapply tr_mono; [by apply commit_subs_safe; [right|..]| |done].
  intros ? v (l' & -> & Hw' & Hbel & Hc & <- & He). pose proof (committing_top _ _ Hbel Hc) as ->.
  unfold fails. cbn [fst snd]. rewrite <- He. apply tr_block. unfold cur_frame. cbn [fst snd session_of].
  pose proof (end_with CommitTransaction t tc Hw') as Hend. destruct Hbel as [[Ht|Ht] _]; rewrite Ht.
  - apply Hend; [simpl; by rewrite Ht|]. apply commit_top; [done|by rewrite Ht].
  - eapply tr_then; [apply prepare_top; [done|by rewrite Ht]|done|intros _].
    apply set_default_idle. by eapply wf_base.
Qed.

Lemma tr_assoc_tail {A B C D} (m0 : X A) (m1 : X B) (m2 : X C) (k : X D) v Q E :
  triple (m0;; (m1;; m2);; k) v Q E -> triple (m0;; m1;; m2;; k) v Q E.
Proof.
  intros H e He s Hs. specialize (H e He s Hs). unfold bind in *. destruct (m0 e s) as [[r|a] s']; [done|].
  by destruct (m1 e s') as [[r|b] s''].
Qed.

(** ROLLBACK TO: the savepoint is ended by [m] and defined again. *)
Lemma restart_with (m : X unit) lv t f l :
  wf (t, f :: l) -> below (f_block f) t l = live t l -> removed_block (f_block f) = true ->
  triple m (t, fset_name None f :: l) (fun _ v => v = (t, l)) (fails (t, fset_name None f :: l)) ->
  triple (upd_current (set_name None);; m;; restart_savepoint (f_name f) lv) (t, f :: l)
    (fun _ => settled_as (InBlock (f_name <$> f :: l))) (fails (t, f :: l)).
Proof.
  intros Hw Hl Hr Hm. apply (tr_upd_current _ (fset_name None)); [done|]. cbn [upd_frame fst snd].
  pose proof (wf_below _ _ _ Hw) as Hb. rewrite Hl in Hb.
  eapply tr_then; [exact Hm| |intros _].
  { intros r v. unfold fails. cbn [fst snd]. by rewrite !error_session_pop. }
  eapply tr_mono; [apply restart_savepoint_safe; [by eapply wf_pop|done]|done|].
  intros r v. by apply fails_pop.
Qed.

Lemma CommitTransactionCommand_rec_safe n t l :
  wf (t, l) -> f_block (cur_frame (t, l)) <> TBLOCK_DEFAULT -> (length l < n)%nat ->
  triple (CommitTransactionCommand_rec n) (t, l) (fun _ => settled_as (session_of t l)) (fails (t, l)).
Proof.
  revert l. induction n as [|n IH]; intros l Hw Hnd Hn; [lia|].
  destruct l as [|f l]; [by apply CommitTransactionCommand_top|].
  pose proof (wf_hurt _ Hw) as Hh. pose proof (wf_below _ _ _ Hw) as Hb.
  assert (Hpop : aborting t l ->
    triple (CommitTransactionCommand_rec n) (t, l) (fun _ => settled_as (session_of t l)) (fails (t, l))).
  { intros Hal. apply IH; [by eapply wf_pop| |simpl in Hn; lia].
    unfold cur_frame. destruct l as [|f' l]; simpl in *; [by destruct Hal as [-> | ->]|by destruct (f_block f')]. }
  cbn [CommitTransactionCommand_rec]. apply tr_current. intros s Hs. apply tr_let_get. intros s' _. apply tr_depth.
  assert (Hbs : blockState s = f_block f) by (change (f_block (frame s) = f_block f); by rewrite Hs). rewrite Hbs.
  assert (Hnm : name s = f_name f) by (change (f_name (frame s) = f_name f); by rewrite Hs). rewrite Hnm.
  assert (Hset : in_blocks [TBLOCK_SUBINPROGRESS; TBLOCK_SUBABORT] f = true -> settled (t, f :: l)).
  { intros Hi. split; [done|]. unfold in_blocks, cur_frame in *. simpl. apply bool_decide_eq_true in Hi.
    apply bool_decide_eq_true. set_solver. }
  unfold in_blocks in Hset. cbn [length snd].
  destruct (f_block f) eqn:Hbf; try contradiction Hb.
  - eapply tr_mono; [by apply start_sub| |done]. intros ? v. cbn [session_of]. by rewrite Hbf.
  - eapply tr_mono; [apply quiet_settled; [quiet_tac|done|by apply Hset]|done|done].
  - apply commit_release; [done|done|lia].
  - apply commit_subcommit; [done|done|lia].
  - apply tr_ret. split; [by apply Hset|done].
  - eapply tr_then; [by apply cleanup_sub|done|intros _].
    eapply tr_mono; [by apply Hpop| |intros r v; apply fails_pop; by rewrite Hbf]. cbn [session_of]. by rewrite Hbf.
  - apply tr_regroup. eapply tr_then; [apply abort_sub; [done|by rewrite Hbf]|done|intros _].
    eapply tr_mono; [by apply Hpop| |intros r v; apply fails_pop; by rewrite Hbf]. cbn [session_of]. by rewrite Hbf.
  - pose proof (restart_with (AbortSubTransaction;; CleanupSubTransaction) (savepointLevel s) t f l Hw) as Hre.
    rewrite Hbf in Hre. cbn [session_of]. rewrite Hbf.
    eapply tr_assoc_tail; [apply Hre; [done|done|]]. apply abort_sub; [done|simpl; by rewrite Hbf].
  - pose proof (restart_with CleanupSubTransaction (savepointLevel s) t f l Hw) as Hre.
    rewrite Hbf in Hre. cbn [session_of]. rewrite Hbf. apply Hre; [done|done|]. by apply cleanup_sub.
Qed.

Lemma CommitTransactionCommand_safe v :
  wf v -> f_block (cur_frame v) <> TBLOCK_DEFAULT ->
  triple CommitTransactionCommand v (fun _ => settled_as (session_of v.1 v.2)) (fails v).
Proof.
  destruct v as [t l]. intros Hw Hb. unfold CommitTransactionCommand. apply tr_depth.
  apply CommitTransactionCommand_rec_safe; [done|done|simpl; lia].
Qed.

End Commit.

(** ** Marking *)

Definition mark (f : TBlockState -> option TBlockState) (t : TransactionStateData) : TransactionStateData :=
  match f (blockState t) with Some b => set_blockState b t | None => t end.
Definition fmark (f : TBlockState -> option TBlockState) (t : Frame) : Frame :=
  match f (f_block t) with Some b => fset_block b t | None => t end.

Lemma frame_mark f t : frame (mark f t) = fmark f (frame t).
Proof. unfold mark, fmark. simpl. by destruct (f (blockState t)). Qed.

Lemma frame_marks f (l : list TransactionStateData) : frame <$> (mark f <$> l) = fmark f <$> (frame <$> l).
Proof. induction l as [|t l IH]; [done|]. rewrite !fmap_cons, frame_mark. by f_equal. Qed.

Lemma mark_path_ok f g l x rest :
  Forall (fun t => is_Some (f (f_block t))) (frame <$> l) -> is_Some (g (f_block (frame x))) ->
  mark_path f g (length l) (l ++ x :: rest) = ((mark f <$> l) ++ mark g x :: rest, true).
Proof.
  intros Hl [b Hg]. induction l as [|t l IH]; simpl in *; unfold mark at 1.
  - by rewrite Hg.
  - apply Forall_cons in Hl as [[b' Ht] Hl]. simpl in Ht. rewrite Ht, IH by done. done.
Qed.

Section Mark.
Context {CommitTs : Type}.
Abbreviation X := (@X CommitTs).
Abbreviation triple := (triple (@shape CommitTs)).

Lemma shape_set_stack l x (s : XactState CommitTs) : shape (set_stack (l ++ [x]) s) = (frame x, frame <$> l).
Proof. unfold set_stack, shape. simpl. by rewrite last_snoc, removelast_last. Qed.

Lemma tr_mark_stack f g n msg v w E :
  (forall s : XactState CommitTs, shape s = v ->
   exists l x, mark_path f g n (state_stack s) = (l ++ [x], true) /\ (frame x, frame <$> l) = w) ->
  triple (mark_stack f g n msg) v (fun _ v' => v' = w) E.
Proof.
  intros H e He s Hs. destruct (H s Hs) as (l & x & Hm & Hw). unfold mark_stack, bind, get. simpl. rewrite Hm. simpl.
  by rewrite shape_set_stack.
Qed.

(** Every level up to the top. *)
Lemma tr_mark_top f g msg t l E :
  Forall (fun x => is_Some (f (f_block x))) l -> is_Some (g (f_block t)) ->
  triple (mark_stack f g (length l) msg) (t, l) (fun _ v => v = (fmark g t, fmark f <$> l)) E.
Proof.
  intros Hl Ht. apply tr_mark_stack. intros s [= <- <-].
  exists (mark f <$> subs s), (mark g (TopTransactionStateData s)). rewrite length_fmap. unfold state_stack.
  rewrite mark_path_ok by done. by rewrite frame_mark, frame_marks.
Qed.

(** Up to a subtransaction. *)
Lemma tr_mark_sub f g msg t l1 x l2 E :
  Forall (fun x => is_Some (f (f_block x))) l1 -> is_Some (g (f_block x)) ->
  triple (mark_stack f g (length l1) msg) (t, l1 ++ x :: l2)
    (fun _ v => v = (t, (fmark f <$> l1) ++ fmark g x :: l2)) E.
Proof.
  intros Hl Hx. apply tr_mark_stack. intros s Hs. injection Hs as <- Hs.
  apply fmap_app_inv in Hs as (s1 & sr & -> & Hr & Hs). symmetry in Hr.
  apply fmap_cons_inv in Hr as (y & s2 & -> & -> & ->). unfold state_stack. rewrite Hs, length_fmap.
  exists ((mark f <$> s1) ++ mark g y :: s2), (TopTransactionStateData s).
  rewrite <- app_assoc. simpl. rewrite mark_path_ok by done. rewrite <- app_assoc. split; [done|].
  by rewrite fmap_app, fmap_cons, frame_mark, frame_marks.
Qed.

End Mark.
