(* ===== verification/XactExample.v ===== *)
(** * XactExample: a concrete backend

    A freshly connected backend of a new cluster, and the environment in which
    no called routine fails; the witnesses of the theorems about transactions
    run in them. *)

From stdpp Require Import strings.
From S2P Require Import Prelude TransactionId Slru Clog Subtrans Transam Varsup HeapTuple Xact XactEnd.
From S2P Require Import XactBlock.

Open Scope xact_scope.

Definition no_transaction : TransactionStateData :=
  mkTransactionState InvalidFullTransactionId InvalidSubTransactionId None 0 TRANS_DEFAULT TBLOCK_DEFAULT 0 0
    false [] 0 (10, 0) false false false 0 false false.

Definition read_committed : SavedTransactionCharacteristics := mkCharacteristics 1 false false.

Definition fresh_globals : XactGlobals :=
  mkXactGlobals InvalidFullTransactionId InvalidSubTransactionId 0 false [] [] read_committed 0 false None 0 false 0 false
    (10, 0) 0.

Definition fresh_backend : XactState unit :=
  mkXactState no_transaction [] fresh_globals (cluster_at 3 3) initial_cache [].

(** Every record takes 8 bytes of WAL; [raises] decides which calls fail. *)
Definition env_raising (raises : list XactCall -> XactCall -> bool) : XEnv unit :=
  mkXEnv raises (fun p => mkProcessMode p false false true true) false false true false read_committed true
    false (fun _ => 0) (fun _ => 0) 0 0 (fun _ l => l + 8) false 3 (fun _ _ c => c) no_contention
    (fun g => g) (fun _ c => c).

Definition no_errors : XEnv unit := env_raising (fun _ _ => false).

Definition after {A} (m : @X unit A) (s : XactState unit) : XactState unit := (m no_errors s).2.

Lemma after_ok {A} (m : @X unit A) s a : (m no_errors s).1 = inr a -> m no_errors s = (inr a, after m s).
Proof. unfold after. destruct (m no_errors s) as [r s']. simpl. by intros ->. Qed.

(** A subtransaction with an id, inside a transaction with a subcommitted child. *)
Definition start_sub : @X unit TransactionId := PushTransaction;; StartSubTransaction;; GetCurrentTransactionId.

Definition in_second_sub : XactState unit :=
  after (StartTransaction;; start_sub;; CommitSubTransaction;; start_sub) fresh_backend.
