(* ===== verification/XactXids.v ===== *)
(** * XactXids: the transaction ids of a transaction

    Which ids count as those of the current transaction, in the backend that
    runs it and in its parallel workers; how subtransactions hand their ids to
    their parents; and how parents and pg_subtrans links are in place before a
    subtransaction's id is used. *)

From stdpp Require Import strings sorting.
From S2P Require Import Prelude Steps TransactionId Slru Clog Subtrans Transam Varsup HeapTuple Xact XactEnd.
From S2P Require Import XactBlock XactLogic XactExample.

Open Scope xact_scope.

(** ** Binary search *)

Section Search.
Context (less : TransactionId -> TransactionId -> bool) (a : list TransactionId).

(** Strictly ascending, as the search loops compare. *)
Definition ascending : Prop := StronglySorted (fun x y => less x y = true /\ less y x = false) a.

Lemma ascending_lookup i j x y :
  ascending -> a !! i = Some x -> a !! j = Some y -> (i < j)%nat -> less x y = true /\ less y x = false.
Proof.
  intros Hs. revert i j. unfold ascending in Hs. induction Hs as [|z l Hs IH Hz]; intros i j Hi Hj Hlt; [done|].
  destruct j as [|j]; [lia|]. destruct i as [|i]; simpl in *.
  - injection Hi as <-. rewrite Forall_forall in Hz. apply Hz. by eapply list_elem_of_lookup_2.
  - eapply IH; eauto. lia.
Qed.

Lemma xid_bsearch_sound fuel xid low high :
  0 <= low -> high < Z.of_nat (length a) -> xid_bsearch less fuel a xid low high = true -> xid ∈ a.
Proof.
  revert low high. induction fuel as [|n IH]; intros low high Hlo Hhi; simpl; [done|].
  destruct (Z.ltb_spec high low) as [Hlt|Hge]; [done|].
  assert (Hm : 0 <= low + (high - low) / 2 < Z.of_nat (length a)) by (Z.to_euclidean_division_equations; lia).
  destruct (lookup_lt_is_Some_2 a (Z.to_nat (low + (high - low) / 2))) as [p Hp]; [lia|]. rewrite Hp. simpl.
  unfold TransactionIdEquals. destruct (Z.eqb_spec p xid) as [->|Hne].
  { intros _. by eapply list_elem_of_lookup_2. }
  destruct (less p xid); apply IH; lia.
Qed.

(** The element, if any, stays between the bounds. *)
Lemma xid_bsearch_complete fuel xid low high i :
  ascending -> 0 <= low -> high < Z.of_nat (length a) -> a !! i = Some xid -> low <= Z.of_nat i <= high ->
  high - low < Z.of_nat fuel -> xid_bsearch less fuel a xid low high = true.
Proof.
  intros Hs. revert low high. induction fuel as [|n IH]; intros low high Hlo Hhi Hi Hr Hf; [lia|]. simpl.
  destruct (Z.ltb_spec high low) as [Hlt|Hge]; [lia|].
  assert (Hm : low <= low + (high - low) / 2 <= high) by (Z.to_euclidean_division_equations; lia).
  set (m := low + (high - low) / 2) in *.
  destruct (lookup_lt_is_Some_2 a (Z.to_nat m)) as [p Hp]; [lia|]. rewrite Hp. simpl.
  unfold TransactionIdEquals. destruct (Z.eqb_spec p xid) as [->|Hne]; [done|].
  assert (Hneq : Z.to_nat m <> i) by (intros Heq; rewrite Heq in Hp; congruence).
  destruct (decide (Z.to_nat m < i)%nat) as [Hlt|Hge'].
  - destruct (ascending_lookup _ _ _ _ Hs Hp Hi Hlt) as [-> _]. apply IH; try done; lia.
  - destruct (ascending_lookup _ _ _ _ Hs Hi Hp) as [_ ->]; [lia|]. apply IH; try done; lia.
Qed.

Lemma search_xids_spec xid : ascending -> search_xids less a xid = bool_decide (xid ∈ a).
Proof.
  intros Hs. unfold search_xids. apply eq_bool_prop_intro. rewrite bool_decide_spec. split.
  - intros H%Is_true_true. eapply xid_bsearch_sound; [..|exact H]; lia.
  - intros [i Hi]%list_elem_of_lookup_1. apply Is_true_true.
    pose proof (lookup_lt_Some _ _ _ Hi). eapply xid_bsearch_complete; [done|..|exact Hi|lia|lia]; lia.
Qed.

End Search.

(** ** The ids of a stack *)

Lemma xid_sorted_ascending o l : xid_sorted o l -> ascending TransactionIdPrecedes l.
Proof.
  intros [Hw Hs]. unfold ascending. induction Hs as [|x l Hs IH Hx]; [constructor|].
  apply Forall_cons in Hw as [Hwx Hw]. constructor; [by apply IH|].
  rewrite Forall_forall in Hx, Hw |- *. intros y Hy. rewrite !(precedes_window o) by auto.
  specialize (Hx y Hy). split; [by apply Z.ltb_lt|apply Z.ltb_ge; lia].
Qed.

Abbreviation Level := (FullTransactionId * list TransactionId)%type.

Definition lev (t : TransactionStateData) : Level := (fullTransactionId t, childXids t).

Definition lev_has_xid (p : Level) : bool := FullTransactionIdIsValid p.1.

Definition lev_xids (p : Level) : list TransactionId :=
  (if lev_has_xid p then [XidFromFullTransactionId p.1] else []) ++ p.2.

(** The parent takes over the ids of a subcommitted child. *)
Definition merge_lev (p c : Level) : Level :=
  if lev_has_xid c then (p.1, p.2 ++ XidFromFullTransactionId c.1 :: c.2) else p.

(** A level whose child has an id has one, and only such levels have
    subcommitted children. *)
Fixpoint assigned_upto (l : list Level) : Prop :=
  match l with
  | [] => True
  | c :: r =>
      (lev_has_xid c = false -> c.2 = []) /\ assigned_upto r /\
      match r with
      | [] => True
      | p :: _ => lev_has_xid c = true -> lev_has_xid p = true
      end
  end.

(** The ids of a stack, innermost level first, in the order of the levels
    from the top. *)
Definition stack_xids (l : list Level) : list TransactionId := reverse l ≫= lev_xids.

Lemma stack_xids_cons c l : stack_xids (c :: l) = stack_xids l ++ lev_xids c.
Proof. unfold stack_xids. by rewrite reverse_cons, bind_app, bind_singleton. Qed.

Lemma merge_lev_xids c p : (lev_has_xid c = false -> c.2 = []) -> lev_xids (merge_lev p c) = lev_xids p ++ lev_xids c.
Proof.
  intros Hc. unfold merge_lev, lev_xids. destruct (lev_has_xid c) eqn:Hx.
  - unfold lev_has_xid at 1. simpl. fold (lev_has_xid p). by rewrite <- app_assoc.
  - by rewrite (Hc eq_refl), !app_nil_r.
Qed.

Lemma merge_stack_xids c p l :
  (lev_has_xid c = false -> c.2 = []) -> stack_xids (merge_lev p c :: l) = stack_xids (c :: p :: l).
Proof. intros Hc. by rewrite !stack_xids_cons, merge_lev_xids, app_assoc. Qed.

Lemma merge_assigned_upto c p l : assigned_upto (c :: p :: l) -> assigned_upto (merge_lev p c :: l).
Proof.
  intros (Hc & (Hp & Hl & Hpl) & Hcp). unfold merge_lev. destruct (lev_has_xid c) eqn:Hx; [|by split_and!].
  specialize (Hcp eq_refl). split_and!; [|done..]. change (lev_has_xid p = false -> (p.2 ++ XidFromFullTransactionId c.1 :: c.2) = []). by rewrite Hcp.
Qed.

(** The ids, oldest first, are a tree of links below the first. *)
Definition ids_linked (c : Slru) (o : TransactionId) (xids : list TransactionId) : Prop :=
  match xids with
  | [] => True
  | x :: r => tree_linked c o x r
  end.

Lemma ids_linked_prefix c o l1 l2 : xid_sorted o (l1 ++ l2) -> ids_linked c o (l1 ++ l2) -> ids_linked c o l1.
Proof.
  intros Hs. destruct l1 as [|x r]; [done|]. intros (Hx & Hr & Hl). apply Forall_app in Hr as [Hr _].
  apply Forall_app in Hl as [Hl _]. split; [done|]. split; [done|]. rewrite Forall_forall in Hl |- *. intros y Hy.
  destruct (Hl y Hy) as (p & Hg & Hp & Hpre). exists p. split; [done|]. split; [|done].
  apply (elem_of_app (x :: r) l2) in Hp as [Hp|Hp]; [done|]. exfalso.
  destruct Hs as [Hw Hs]. assert (Hlt := StronglySorted_app_1_elem_of _ (x :: r) l2 y p Hs ltac:(set_solver) Hp). cbv beta in Hlt.
  rewrite Forall_forall in Hw. rewrite (precedes_window o) in Hpre by (apply Hw; set_solver).
  apply Z.ltb_lt in Hpre. lia.
Qed.

Section Stack.
Context {CommitTs : Type}.
Abbreviation XactState := (XactState CommitTs).

Definition all_xids (s : XactState) : list TransactionId := stack_xids (lev <$> state_stack s).

(** The ids of a stack are in order of assignment, parents have theirs before
    their children, and the session knows that of the top level. *)
Record xids_inv (o : TransactionId) (s : XactState) : Prop := {
  xi_sorted : xid_sorted o (all_xids s);
  xi_assigned : assigned_upto (lev <$> state_stack s);
  xi_top : XactTopFullTransactionId (glob s) = fullTransactionId (TopTransactionStateData s);
}.

(** A transaction that is not being aborted. *)
Definition not_aborting (s : XactState) : Prop := Forall (fun t => state t <> TRANS_ABORT) (state_stack s).

Lemma elem_of_stack_xids x l : x ∈ stack_xids l <-> exists c, c ∈ l /\ x ∈ lev_xids c.
Proof. unfold stack_xids. rewrite list_elem_of_bind. setoid_rewrite elem_of_reverse. naive_solver. Qed.

Lemma elem_of_all_xids x s : x ∈ all_xids s <-> exists t, t ∈ state_stack s /\ x ∈ state_xids t.
Proof.
  unfold all_xids. rewrite elem_of_stack_xids. setoid_rewrite list_elem_of_fmap. split.
  - intros (c & (t & -> & Ht) & Hx). by exists t.
  - intros (t & Ht & Hx). exists (lev t). split; [by exists t|done].
Qed.

Lemma assigned_upto_elem l c : assigned_upto l -> c ∈ l -> lev_has_xid c = false -> c.2 = [].
Proof.
  induction l as [|d l IH]; [by intros _ H%elem_of_nil|]. intros (Hd & Hl & _) [->|Hc]%elem_of_cons; auto.
Qed.

Lemma stack_xids_elem_sorted o l c : xid_sorted o (stack_xids l) -> c ∈ l -> xid_sorted o (lev_xids c).
Proof.
  induction l as [|d l IH]; [by intros _ H%elem_of_nil|]. rewrite stack_xids_cons.
  intros [Hl Hd]%xid_sorted_app [->|Hc]%elem_of_cons; auto.
Qed.

Lemma state_has_xid_spec o s t x :
  xids_inv o s -> t ∈ state_stack s -> state_has_xid x t = bool_decide (state t <> TRANS_ABORT /\ x ∈ state_xids t).
Proof.
  intros [Hs Hc _] Ht. apply (list_elem_of_fmap_2 lev) in Ht. unfold state_has_xid.
  pose proof (assigned_upto_elem _ _ Hc Ht) as Hcc. pose proof (stack_xids_elem_sorted _ _ _ Hs Ht) as Hts.
  change (state_xids t) with (lev_xids (lev t)). unfold lev_xids, lev_has_xid in *. simpl in *.
  destruct (bool_decide_reflect (state t = TRANS_ABORT)) as [Ha|Ha].
  { symmetry. apply bool_decide_eq_false. tauto. }
  destruct (FullTransactionIdIsValid (fullTransactionId t)); cbn [negb].
  - apply xid_sorted_app in Hts as [_ Hts].
    rewrite search_xids_spec by (by eapply xid_sorted_ascending). unfold TransactionIdEquals.
    apply eq_bool_prop_intro. rewrite bool_decide_spec, elem_of_app, list_elem_of_singleton.
    destruct (Z.eqb_spec x (XidFromFullTransactionId (fullTransactionId t))) as [Heq|Hne].
    + split; [intros _; split; [done|by left]|done].
    + rewrite bool_decide_spec. tauto.
  - symmetry. apply bool_decide_eq_false. rewrite Hcc by done. simpl. rewrite elem_of_nil. tauto.
Qed.

Lemma is_current_leader o s x :
  xids_inv o s -> ParallelCurrentXids (glob s) = [] -> normal_xid x ->
  TransactionIdIsCurrentTransactionId x s = true <->
  (x = GetTopTransactionIdIfAny s \/ exists t, t ∈ state_stack s /\ state t <> TRANS_ABORT /\ x ∈ state_xids t).
Proof.
  intros Hi Hp Hx. unfold TransactionIdIsCurrentTransactionId. rewrite Hp, normal_TransactionIdIsNormal by done.
  cbn [negb]. unfold TransactionIdEquals.
  destruct (Z.eqb_spec x (GetTopTransactionIdIfAny s)) as [->|Hne]; [tauto|].
  rewrite existsb_exists. setoid_rewrite <- list_elem_of_In. split.
  - intros (t & Ht & Hh). right. exists t. rewrite (state_has_xid_spec o s t x Hi Ht) in Hh.
    apply bool_decide_eq_true in Hh. by split.
  - intros [|(t & Ht & Ha & Hxt)]; [done|]. exists t. split; [done|].
    rewrite (state_has_xid_spec o s t x Hi Ht). by apply bool_decide_eq_true.
Qed.

End Stack.

Section Moves.
Context {CommitTs H : Type} (hproj : XidGen CommitTs -> H).
Abbreviation X := (@X CommitTs).

(** The ids of the session and part of the shared state. *)
Definition gxids (g : XactGlobals) (h : XidGen CommitTs) : FullTransactionId * list TransactionId * H :=
  (XactTopFullTransactionId g, ParallelCurrentXids g, hproj h).

Abbreviation quiet := (quiet (pview lev gxids)).
Abbreviation triple := (triple (pview lev gxids)).

Lemma xq_log_record f : quiet (log_record f).
Proof. unfold log_record, MarkCurrentTransactionIdLoggedIfAny. quiet_tac. Qed.

Lemma xq_CommandCounterIncrement : quiet CommandCounterIncrement.
Proof. unfold CommandCounterIncrement. quiet_tac. Qed.

Lemma xq_do_AtEOXact_GUC b n : quiet (do_AtEOXact_GUC b n).
Proof. unfold do_AtEOXact_GUC. quiet_tac. Qed.

Lemma xq_do_DidCommit x : quiet (do_DidCommit x).
Proof.
  unfold do_DidCommit. quiet_step; [quiet_tac|]. intros ? e s. cbv zeta.
  destruct (TransactionIdDidCommit _ _ _ _) as [[b c]|]; [by split|by apply quiet_raise].
Qed.

#[local] Hint Resolve xq_log_record xq_CommandCounterIncrement xq_do_AtEOXact_GUC xq_do_DidCommit : quiet.

Lemma AtSubCommit_childXids_moves u c p l :
  lev_has_xid c = true ->
  triple AtSubCommit_childXids (u, c :: p :: l) (fun _ v => v = (u, (c.1, []) :: merge_lev p c :: l)) (fun _ _ => True).
Proof.
  intros Hv. unfold AtSubCommit_childXids. apply tr_let_get. intros s Hs. apply tr_let_get. intros s' Hs'.
  apply pview_current in Hs. apply pview_parent in Hs'. cbv zeta. tr_step; [by apply tr_raise|].
  apply (tr_pupd_parent _ _ _ (fun q => (q.1, (lev (parent_of s')).2 ++ XidFromFullTransactionId (lev (CurrentTransactionState s)).1
                                        :: (lev (CurrentTransactionState s)).2))); [done|].
  rewrite Hs, Hs'. tr_step. apply (tr_pupd_current _ _ _ (fun q => (q.1, []))); [done|]. apply tr_ret.
  unfold merge_lev. by rewrite Hv.
Qed.

Lemma has_xid_view u c l (s : XactState CommitTs) :
  pview lev gxids s = (u, c :: l) -> has_xid (CurrentTransactionState s) = lev_has_xid c.
Proof. intros Hs. by rewrite <- (pview_current _ _ _ _ _ _ Hs). Qed.

Lemma CommitSubTransaction_moves u c p l :
  triple CommitSubTransaction (u, c :: p :: l) (fun _ v => v = (u, merge_lev p c :: l)) (fun _ _ => True).
Proof.
  unfold CommitSubTransaction. tr_steps.
  all: match goal with H : pview _ _ _ = _, Hx : has_xid _ = _ |- _ => rewrite (has_xid_view _ _ _ _ H) in Hx end.
  - apply tr_bind. eapply tr_mono; [by apply AtSubCommit_childXids_moves| |done].
    intros _ v ->. tr_steps. apply PopTransaction_pops.
  - unfold merge_lev. destruct (lev_has_xid c); [done|]. apply PopTransaction_pops.
Qed.

Lemma StartTransaction_moves u l :
  triple StartTransaction (u, l) (fun _ v => v = (u, [(InvalidFullTransactionId, [])])) (fun _ _ => True).
Proof.
  unfold StartTransaction. apply tr_bind.
  assert (Ht : triple (modify (set_subs [])) (u, l) (fun _ v => exists t, v = (u, [t])) (fun _ _ => False)).
  { intros e _ s [= <- _]. by exists (lev (TopTransactionStateData s)). }
  eapply tr_mono; [exact Ht|intros _ v [t ->]|done]. tr_steps.
  apply (tr_pupd_top _ _ _ (fun _ => (InvalidFullTransactionId, []))); [done|]. by tr_steps.
Qed.

Lemma StartParallelWorkerTransaction_moves t top par h l :
  triple (StartParallelWorkerTransaction t) (top, par, h, l)
    (fun _ v => v = (topFullTransactionId t, parallelCurrentXids t, h, [(currentFullTransactionId t, [])]))
    (fun _ _ => True).
Proof.
  unfold StartParallelWorkerTransaction. apply tr_bind.
  eapply tr_mono; [apply StartTransaction_moves|intros _ v ->|done]. apply tr_bind.
  apply tr_modify with (f' := fun v => (topFullTransactionId t, parallelCurrentXids t, v.1.2, v.2)); [done|].
  apply (tr_pupd_current _ _ _ (fun q => (currentFullTransactionId t, q.2))); [done|]. unfold set_block. tr_steps. by tr_steps.
Qed.

End Moves.

(** ** Subtransactions hand over or lose their ids *)

Section Subtransactions.
Context {CommitTs : Type}.
Abbreviation X := (@X CommitTs).
Abbreviation xview := (pview lev (gxids (@xg_subtrans CommitTs))).
Abbreviation quiet := (quiet xview).
Abbreviation triple := (triple xview).

#[local] Hint Resolve xq_log_record xq_CommandCounterIncrement xq_do_AtEOXact_GUC xq_do_DidCommit : quiet.

Lemma xq_do_clog f u : quiet (do_clog f u).
Proof.
  unfold do_clog. quiet_step; [quiet_tac|]. intros ? e s. simpl. destruct (run_steps _ _); [by split|by apply quiet_raise].
Qed.

Lemma xq_remove_running_xid x : quiet (remove_running_xid x).
Proof.
  unfold remove_running_xid. quiet_step; [quiet_tac|]. intros p. destruct (subxids_remove _ _); quiet_tac.
Qed.
#[local] Hint Resolve xq_do_clog xq_remove_running_xid : quiet.

Lemma xq_RecordTransactionAbort b : quiet (RecordTransactionAbort b).
Proof.
  unfold RecordTransactionAbort, XidCacheRemoveRunningXids, START_CRIT_SECTION, END_CRIT_SECTION. quiet_tac.
Qed.
#[local] Hint Resolve xq_RecordTransactionAbort : quiet.

Lemma AbortSubTransaction_moves u c l :
  triple AbortSubTransaction (u, c :: l) (fun _ v => exists ch, v = (u, (c.1, ch) :: l)) (fun _ _ => True).
Proof.
  assert (Hc : exists ch, (u, c :: l) = (u, (c.1, ch) :: l)) by (exists c.2; by destruct c).
  unfold AbortSubTransaction, AtSubAbort_childXids. tr_steps.
  all: try done.
  apply (tr_pupd_current _ _ _ (fun q => (q.1, []))); [done|]. tr_steps. by eexists.
Qed.

Lemma CleanupSubTransaction_moves u c p l :
  triple CleanupSubTransaction (u, c :: p :: l) (fun _ v => v = (u, p :: l)) (fun _ _ => True).
Proof. unfold CleanupSubTransaction. tr_steps. apply PopTransaction_pops. Qed.

Lemma sub_view (s : XactState CommitTs) :
  subs s <> [] -> exists l, xview s = (XactTopFullTransactionId (glob s), ParallelCurrentXids (glob s), xg_subtrans (gen s),
                             lev (CurrentTransactionState s) :: lev (parent_of s) :: l).
Proof.
  intros Hs. unfold pview, state_stack, CurrentTransactionState, parent_of, gxids.
  destruct (subs s) as [|c [|p l]]; [done|..]; by eexists.
Qed.

Lemma lev_top_last (s : XactState CommitTs) : last (lev <$> state_stack s) = Some (lev (TopTransactionStateData s)).
Proof. unfold state_stack. rewrite fmap_app. apply last_snoc. Qed.

(** Two states whose views agree on the top id and on the last level. *)
Lemma xids_inv_moved o (s s' : XactState CommitTs) u c p q l :
  xids_inv o s -> xview s = (u, c :: p :: l) -> xview s' = (u, q :: l) -> q.1 = p.1 ->
  xid_sorted o (stack_xids (q :: l)) -> assigned_upto (q :: l) -> xids_inv o s'.
Proof.
  intros [_ _ Ht] Hv Hv' Hq Hso Ha.
  assert (Htop : XactTopFullTransactionId (glob s') = XactTopFullTransactionId (glob s)).
  { transitivity (u.1.1); [exact (f_equal (fun v => v.1.1.1) Hv')|exact (eq_sym (f_equal (fun v => v.1.1.1) Hv))]. }
  apply (f_equal snd) in Hv as Hs. apply (f_equal snd) in Hv' as Hl. cbn [snd pview] in Hs, Hl.
  split; unfold all_xids; rewrite ?Hl; [done..|]. rewrite Htop, Ht.
  pose proof (lev_top_last s) as H1. pose proof (lev_top_last s') as H2. rewrite Hs in H1. rewrite Hl in H2.
  change (last (c :: p :: l)) with (last (p :: l)) in H1. destruct l as [|r l].
  - injection H1 as H1. injection H2 as H2. apply (f_equal fst) in H1, H2. simpl in *. congruence.
  - change (last (r :: l) = Some (lev (TopTransactionStateData s))) in H1.
    change (last (r :: l) = Some (lev (TopTransactionStateData s'))) in H2. rewrite H1 in H2. by injection H2.
Qed.

(** What was linked stays linked. *)
Definition linked (o : TransactionId) (s s' : XactState CommitTs) : Prop :=
  ids_linked (xg_subtrans (gen s)) o (all_xids s) -> ids_linked (xg_subtrans (gen s')) o (all_xids s').

(** C27. What becomes of the ids of a subtransaction.  Committing it hands its
    id and those of its subcommitted children to the parent, in order, so that
    the set of ids of the transaction stays the same; aborting and cleaning it
    up removes exactly these.  In both cases the ids of the remaining levels
    stay in order of assignment, which the binary searches rely on,
    parents keep their ids before their children; and ids that are linked in
    pg_subtrans to older ones of the transaction stay so. *)
Theorem subtransaction_end_xids o e (s s' : XactState CommitTs) :
  xids_inv o s -> subs s <> [] ->
  (CommitSubTransaction e s = (inr tt, s') ->
     state_xids (CurrentTransactionState s') = state_xids (parent_of s) ++ state_xids (CurrentTransactionState s)
     /\ all_xids s' = all_xids s /\ xids_inv o s' /\ linked o s s')
  /\ ((AbortSubTransaction;; CleanupSubTransaction) e s = (inr tt, s') ->
     state_xids (CurrentTransactionState s') = state_xids (parent_of s)
     /\ all_xids s = all_xids s' ++ state_xids (CurrentTransactionState s) /\ xids_inv o s' /\ linked o s s').
Proof.
  intros Hi Hsub. destruct (sub_view s Hsub) as [l Hv]. pose proof Hi as [Hso Has _].
  assert (Hs : (lev <$> state_stack s) = lev (CurrentTransactionState s) :: lev (parent_of s) :: l) by (by injection Hv).
  unfold all_xids in Hso. rewrite Hs in Hso, Has.
  split; intros Hr.
  - pose proof (CommitSubTransaction_moves xg_subtrans _ _ _ _ e I s Hv) as H. rewrite Hr in H.
    unfold all_xids at 2. rewrite Hs.
    rewrite <- merge_stack_xids by apply Has. 
    assert (Hx : all_xids s' = stack_xids (merge_lev (lev (parent_of s)) (lev (CurrentTransactionState s)) :: l))
      by exact (f_equal (fun v => stack_xids v.2) H).
    split; [|split; [done|split]].
    + etrans; [|exact (merge_lev_xids _ (lev (parent_of s)) (proj1 Has))]. by rewrite <- (pview_current _ _ _ _ _ _ H).
    + eapply xids_inv_moved; [done|exact Hv|exact H|..].
      * unfold merge_lev. by destruct (lev_has_xid _).
      * by rewrite merge_stack_xids by apply Has.
      * by apply merge_assigned_upto.
    + unfold linked. rewrite Hx, merge_stack_xids by apply Has. unfold all_xids. rewrite Hs.
      assert (Hg : xg_subtrans (gen s') = xg_subtrans (gen s)) by exact (f_equal (fun v => v.1.2) H). by rewrite Hg.
  - assert (H : triple (AbortSubTransaction;; CleanupSubTransaction) (xview s)
                  (fun _ v => v = ((xview s).1, lev (parent_of s) :: l)) (fun _ _ => True)).
    { rewrite Hv. apply tr_bind. eapply tr_mono; [apply AbortSubTransaction_moves| |done].
      intros _ v [ch ->]. apply CleanupSubTransaction_moves. }
    specialize (H e I s eq_refl). rewrite Hr, Hv in H. cbn [fst] in H.
    assert (Hx : all_xids s = all_xids s' ++ state_xids (CurrentTransactionState s)).
    { etrans; [unfold all_xids; by rewrite Hs, stack_xids_cons|]. f_equal.
      symmetry. exact (f_equal (fun v => stack_xids v.2) H). }
    split; [|split; [done|split]].
    + exact (f_equal lev_xids (pview_current _ _ _ _ _ _ H)).
    + rewrite stack_xids_cons in Hso. apply xid_sorted_app in Hso as [Hso _].
      eapply xids_inv_moved; [done|exact Hv|exact H|done|done|apply Has].
    + unfold linked. assert (Hg : xg_subtrans (gen s') = xg_subtrans (gen s)) by exact (f_equal (fun v => v.1.2) H).
      rewrite Hg, Hx. apply ids_linked_prefix. destruct Hi as [Hi _ _]. by rewrite Hx in Hi.
Qed.

End Subtransactions.

(** ** The ids of a parallel worker *)

Section Workers.
Context {CommitTs : Type}.
Abbreviation XactState := (XactState CommitTs).

Lemma sorted_ascending l : NoDup l -> StronglySorted Z.le l -> ascending Z.ltb l.
Proof.
  intros Hn Hs. unfold ascending. induction Hs as [|x l Hs IH Hx]; [constructor|].
  apply NoDup_cons in Hn as [Hxl Hn]. constructor; [by apply IH|].
  rewrite Forall_forall in Hx |- *. intros y Hy. specialize (Hx y Hy).
  assert (x <> y) by (by intros ->). split; [apply Z.ltb_lt|apply Z.ltb_ge]; lia.
Qed.

Lemma serialized_xids_perm (s : XactState) : (state_stack s ≫= state_xids) ≡ₚ all_xids s.
Proof.
  unfold all_xids, stack_xids. rewrite reverse_Permutation. generalize (state_stack s). intros l.
  induction l as [|t l IH]; [done|]. rewrite fmap_cons, !bind_cons. by apply Permutation_app.
Qed.

Lemma serialized_search o (s : XactState) x :
  xids_inv o s -> search_xids Z.ltb (merge_sort Z.le (state_stack s ≫= state_xids)) x = bool_decide (x ∈ all_xids s).
Proof.
  intros [Hs _ _]. apply xid_sorted_NoDup in Hs.
  assert (Hp : merge_sort Z.le (state_stack s ≫= state_xids) ≡ₚ all_xids s)
    by (by rewrite merge_sort_Permutation, serialized_xids_perm).
  rewrite search_xids_spec.
  - apply bool_decide_ext. by rewrite Hp.
  - apply sorted_ascending; [by rewrite Hp|]. apply (StronglySorted_merge_sort Z.le).
Qed.

Lemma top_in_all_xids o (s : XactState) x :
  xids_inv o s -> normal_xid x -> x = GetTopTransactionIdIfAny s -> x ∈ all_xids s.
Proof.
  intros [_ _ Ht] Hx Heq. apply elem_of_all_xids. exists (TopTransactionStateData s).
  split; [unfold state_stack; set_solver|]. unfold state_xids, has_xid, FullTransactionIdIsValid.
  unfold GetTopTransactionIdIfAny in Heq. rewrite Ht in Heq. rewrite <- Heq, normal_TransactionIdIsValid by done. set_solver.
Qed.

Lemma is_current_running o (s : XactState) x :
  xids_inv o s -> ParallelCurrentXids (glob s) = [] -> not_aborting s -> normal_xid x ->
  TransactionIdIsCurrentTransactionId x s = bool_decide (x ∈ all_xids s).
Proof.
  intros Hi Hp Ha Hx. apply eq_bool_prop_intro. rewrite bool_decide_spec.
  etrans; [|etrans; [apply (is_current_leader o s x Hi Hp Hx)|]]; [by rewrite Is_true_true|].
  rewrite elem_of_all_xids. unfold not_aborting in Ha. rewrite Forall_forall in Ha. split.
  - intros [Heq|(t & Ht & _ & Hxt)]; [|by exists t].
    apply elem_of_all_xids. by eapply top_in_all_xids.
  - intros (t & Ht & Hxt). right. exists t. auto.
Qed.

Lemma worker_state e (w w' s : XactState) :
  StartParallelWorkerTransaction (SerializeTransactionState s) e w = (inr tt, w') ->
  XactTopFullTransactionId (glob w') = XactTopFullTransactionId (glob s)
  /\ ParallelCurrentXids (glob w') = parallelCurrentXids (SerializeTransactionState s)
  /\ (lev <$> state_stack w') = [(fullTransactionId (CurrentTransactionState s), [])].
Proof.
  intros Hr. pose proof (StartParallelWorkerTransaction_moves xg_subtrans (SerializeTransactionState s) _ _ _ _ e I w eq_refl) as H.
  rewrite Hr in H. by injection H as -> -> _ ->.
Qed.

(** What the worker finds among its own states when no id was handed over. *)
Lemma worker_no_xids o (s w : XactState) x :
  xids_inv o s -> all_xids s = [] -> (lev <$> state_stack w) = [(fullTransactionId (CurrentTransactionState s), [])] ->
  existsb (state_has_xid x) (state_stack w) = false.
Proof.
  intros Hi He Hw. destruct (state_stack w) as [|t [|]]; try done. injection Hw as Ht Hc. simpl. rewrite orb_false_r.
  unfold state_has_xid. rewrite Ht. case_bool_decide; [done|].
  replace (FullTransactionIdIsValid _) with false; [done|]. symmetry. apply not_true_is_false. intros Hv.
  assert (Hin : XidFromFullTransactionId (fullTransactionId (CurrentTransactionState s)) ∈ all_xids s).
  { apply elem_of_all_xids. exists (CurrentTransactionState s). split.
    - unfold CurrentTransactionState, state_stack. destruct (subs s); set_solver.
    - unfold state_xids, has_xid. rewrite Hv. set_solver. }
  rewrite He in Hin. by apply elem_of_nil in Hin.
Qed.

(** C26. Which ids are those of the current transaction: in the backend that
    runs it, [TransactionIdIsCurrentTransactionId], with its binary search
    over the subcommitted children, accepts exactly the id of the top-level
    transaction, even while this is being aborted, and the ids of the levels
    that are not being aborted, subcommitted children included.  A parallel worker started from the
    serialized state accepts the same ids as its leader, although it searches
    another array by another order. *)
Theorem TransactionIdIsCurrentTransactionId_spec o (s : XactState) :
  xids_inv o s -> ParallelCurrentXids (glob s) = [] ->
  (forall x, normal_xid x ->
     TransactionIdIsCurrentTransactionId x s = true <->
     x = GetTopTransactionIdIfAny s \/ exists t, t ∈ state_stack s /\ state t <> TRANS_ABORT /\ x ∈ state_xids t)
  /\ (not_aborting s -> forall e (w w' : XactState) x, normal_xid x ->
        StartParallelWorkerTransaction (SerializeTransactionState s) e w = (inr tt, w') ->
        TransactionIdIsCurrentTransactionId x w' = TransactionIdIsCurrentTransactionId x s).
Proof.
  intros Hi Hp. split; [intros x; by apply (is_current_leader o)|]. intros Ha e w w' x Hx Hr.
  apply worker_state in Hr as (Htop & Hpar & Hst). rewrite (is_current_running o s x) by done.
  pose proof (serialized_search o s x Hi) as Hsearch. pose proof (serialized_xids_perm s) as Hperm.
  unfold SerializeTransactionState in Hpar. rewrite Hp in Hpar. cbn [parallelCurrentXids] in Hpar.
  unfold TransactionIdIsCurrentTransactionId, GetTopTransactionIdIfAny. rewrite normal_TransactionIdIsNormal, Htop by done.
  cbn [negb]. unfold TransactionIdEquals. destruct (Z.eqb_spec x (XidFromFullTransactionId (XactTopFullTransactionId (glob s)))) as [Heq|_].
  { symmetry. apply bool_decide_eq_true. by eapply top_in_all_xids. }
  rewrite <- Hpar in Hsearch. destruct (ParallelCurrentXids (glob w')) as [|y l]; [|done].
  assert (He : all_xids s = []).
  { apply Permutation_nil_r. rewrite <- serialized_xids_perm, <- (merge_sort_Permutation Z.le). by rewrite <- Hpar. }
  rewrite (worker_no_xids o s w' x), He by done. done.
Qed.

End Workers.

(** ** Witnesses *)

Lemma in_second_sub_xids : all_xids in_second_sub = [3; 4; 5].
Proof. vm_compute. reflexivity. Qed.

Lemma in_second_sub_levels : (lev <$> state_stack in_second_sub) = [(5, []); (3, [4])].
Proof. vm_compute. reflexivity. Qed.

Lemma in_second_sub_inv : xids_inv 3 in_second_sub.
Proof.
  split.
  - rewrite in_second_sub_xids. split; repeat constructor; vm_compute; congruence.
  - rewrite in_second_sub_levels. vm_compute. repeat split; congruence.
  - vm_compute. reflexivity.
Qed.

Lemma subtransaction_end_xids_witness :
  all_xids (after CommitSubTransaction in_second_sub) = all_xids in_second_sub
  /\ all_xids in_second_sub
     = all_xids (after (AbortSubTransaction;; CleanupSubTransaction) in_second_sub)
       ++ state_xids (CurrentTransactionState in_second_sub).
Proof.
  assert (Hs : subs in_second_sub <> []) by (vm_compute; congruence). split.
  - refine (proj1 (proj2 (proj1 (subtransaction_end_xids 3 no_errors in_second_sub _ in_second_sub_inv Hs) _))).
    apply after_ok. vm_compute. reflexivity.
  - refine (proj1 (proj2 (proj2 (subtransaction_end_xids 3 no_errors in_second_sub _ in_second_sub_inv Hs) _))).
    apply after_ok. vm_compute. reflexivity.
Defined.

Lemma TransactionIdIsCurrentTransactionId_spec_witness :
  TransactionIdIsCurrentTransactionId 4
    (after (StartParallelWorkerTransaction (SerializeTransactionState in_second_sub)) fresh_backend)
  = TransactionIdIsCurrentTransactionId 4 in_second_sub.
Proof.
  refine (proj2 (TransactionIdIsCurrentTransactionId_spec 3 in_second_sub in_second_sub_inv _) _ no_errors fresh_backend _ 4 _ _).
  - vm_compute. reflexivity.
  - apply Forall_forall. intros t Ht. 
    assert (H : Forall (fun t => bool_decide (state t <> TRANS_ABORT)) (state_stack in_second_sub)) by (vm_compute; repeat constructor).
    rewrite Forall_forall in H. by apply (bool_decide_unpack _ (H t Ht)).
  - vm_compute. split; congruence.
  - apply after_ok. vm_compute. reflexivity.
Defined.
