(* ===== verification/XactAssign.v ===== *)
(** * XactAssign: assigning transaction ids to a stack of subtransactions

    A subtransaction gets its id only after all its parents have theirs, and
    every id is linked in pg_subtrans to an older one of the same transaction.
    So the ids of a transaction form the linked tree that the theorem on
    atomic commit asks for. *)

From stdpp Require Import strings.
From S2P Require Import Prelude TransactionId Slru Clog Subtrans Transam Varsup HeapTuple Xact XactEnd.
From S2P Require Import XactBlock XactLogic XactExample XactXids.

Open Scope xact_scope.

Section Window.
Context (B : FullTransactionId) (HB : 0 <= B).
Abbreviation o := (XidFromFullTransactionId B).

Lemma age_full f : B <= f < B + 2 ^ 32 -> xid_age o (XidFromFullTransactionId f) = f - B.
Proof. intros Hf. unfold xid_age, XidFromFullTransactionId. cint. Qed.

Lemma age_in_window f : normal_xid (XidFromFullTransactionId f) -> B <= f < B + 2 ^ 31 -> in_window o (XidFromFullTransactionId f).
Proof. intros Hn Hf. split; [done|]. rewrite age_full; lia. Qed.

(** A page of pg_subtrans that is zeroed for a new id holds no older one. *)
Lemma older_other_page f y :
  B <= f < B + 2 ^ 31 -> normal_xid (XidFromFullTransactionId f) -> normal_xid y -> xid_age o y < f - B ->
  starts_page TransactionIdToEntry (XidFromFullTransactionId f) = true ->
  subtrans_page y <> subtrans_page (XidFromFullTransactionId f).
Proof.
  intros Hf Hn Hy Ha Hs. pose proof (age_full f ltac:(lia)) as Hage. set (x := XidFromFullTransactionId f) in *.
  assert (Hle : subtrans_page y = subtrans_page x -> x <= y < x + 2048).
  { revert Hs Hy Hn. unfold starts_page, TransactionIdToEntry, subtrans_page, normal_xid, FirstNormalTransactionId.
    change SUBTRANS_XACTS_PER_PAGE with 2048. intros [Hm%Z.eqb_eq|Hm%Z.eqb_eq]%orb_true_iff Hy Hn;
      Z.to_euclidean_division_equations; lia. }
  intros Hp%Hle. revert Hage Ha Hp. unfold xid_age. generalize (XidFromFullTransactionId B). clearbody x. clear -Hf. intros. cint.
Qed.

(** ** One assignment *)

Context {CommitTs : Type} (L : FullTransactionId).

(** Other backends assign ids up to the limit [L] while the lock is released,
    and change no link that is set. *)
Definition others_ok (e : XEnv CommitTs) : Prop :=
  (forall b, IsBootstrapProcessingMode (proc_mode e b) = false) /\
  forall h, xidgen_inv h ->
    let h' := others_assign e h in
    xidgen_inv h' /\ nextXid (ShmemVariableCache h) <= nextXid (ShmemVariableCache h')
    /\ nextXid (ShmemVariableCache h') <= Z.max L (nextXid (ShmemVariableCache h))
    /\ forall x p, normal_xid x -> xid_age o x < nextXid (ShmemVariableCache h) - B -> TransactionIdIsValid p = true ->
         SubTransGetParent (xg_subtrans h) x = Ok p -> SubTransGetParent (xg_subtrans h') x = Ok p.

Definition links_kept (h h' : XidGen CommitTs) : Prop :=
  forall x p, normal_xid x -> xid_age o x < nextXid (ShmemVariableCache h) - B -> TransactionIdIsValid p = true ->
    SubTransGetParent (xg_subtrans h) x = Ok p -> SubTransGetParent (xg_subtrans h') x = Ok p.

Lemma advance_bounds f : is_u64 f -> f + 4 < 2 ^ 64 -> normal_xid (XidFromFullTransactionId f) -> f < FullTransactionIdAdvance f <= f + 4.
Proof. intros Hu H4 Hn. rewrite FullTransactionIdAdvance_normal by done. case_if; lia. Qed.

Lemma assign_step ext isSub (t : XidGen CommitTs) f h' :
  xidgen_inv t -> B <= nextXid (ShmemVariableCache t) < B + 2 ^ 31 -> nextXid (ShmemVariableCache t) + 8 < 2 ^ 64 ->
  assign_next_xid ext isSub t = (f, h') ->
  f = nextXid (ShmemVariableCache t) /\ xid_assigned f h' /\ links_kept t h'.
Proof.
  intros Hi Hr Hb Ha. pose proof (assign_next_xid_assigned ext isSub t Hb Hi) as Has.
  pose proof (assign_next_xid_inv ext isSub t Hb Hi) as Hn. rewrite Ha in Has, Hn. cbn [fst snd] in Has.
  destruct Hn as (_ & Hf & _). split_and!; [done|done|]. intros x p Hx Hage _ Hp.
  assert (Hsub : xg_subtrans h' = ExtendSUBTRANS (XidFromFullTransactionId (nextXid (ShmemVariableCache t))) (xg_subtrans t)).
  { revert Ha. unfold assign_next_xid. intros [= _ <-]. by repeat case_if. }
  rewrite Hsub, <- Hp. destruct (starts_page TransactionIdToEntry (XidFromFullTransactionId (nextXid (ShmemVariableCache t)))) eqn:Hs.
  - apply ExtendSUBTRANS_other, older_other_page; [done|by destruct Hi|done..].
  - unfold ExtendSUBTRANS, TransactionIdEquals. rewrite <- negb_orb.
    fold (starts_page TransactionIdToEntry (XidFromFullTransactionId (nextXid (ShmemVariableCache t)))). by rewrite Hs.
Qed.

Lemma GetNewTransactionId_step e ext b isSub (h : XidGen CommitTs) f h' :
  others_ok e -> xidgen_inv h -> B <= nextXid (ShmemVariableCache h) -> Z.max L (nextXid (ShmemVariableCache h)) < B + 2 ^ 31 ->
  Z.max L (nextXid (ShmemVariableCache h)) + 8 < 2 ^ 64 ->
  GetNewTransactionId ext (proc_mode e b) (others_assign e) isSub h = Ok (f, h') ->
  xid_assigned f h' /\ links_kept h h' /\ nextXid (ShmemVariableCache h) <= f <= Z.max L (nextXid (ShmemVariableCache h)).
Proof.
  intros [Hm Ho] Hi HB1 HL1 HL2 Hg.
  destruct (GetNewTransactionId_assigns ext _ _ _ _ _ _ Hi (Hm b) Hg) as (t & Ha & [->|(s1 & Hi1 & Hv & Hs & _ & ->)]).
  - apply assign_step in Ha as (-> & Has & Hk); [|done|lia..]. split_and!; [done|done|lia..].
  - destruct (Ho s1 Hi1) as (Hi2 & Hn1 & Hn2 & Hk2). rewrite Hv in Hn1, Hn2, Hk2.
    apply assign_step in Ha as (-> & Has & Hk); [|done|lia..]. split_and!; [done| |lia..].
    intros x p Hx Hage Hp Hl. apply Hk; [done|lia|done|]. apply Hk2; [done|done|done|by rewrite Hs].
Qed.

(** ** The ids of the stack

    [assigned_ok k]: the [k] outermost levels have ids, the others none; the ids
    are in order, older than the next one and linked. *)

Abbreviation AView := (FullTransactionId * list TransactionId * XidGen CommitTs * list Level)%type.

Record assigned_ok (k : nat) (v : AView) : Prop := {
  ao_inv : xidgen_inv v.1.2;
  ao_next : B <= nextXid (ShmemVariableCache v.1.2) <= L + 4 * Z.of_nat k;
  ao_prefix : forall i t, reverse v.2 !! i = Some t ->
    ((i < k)%nat -> lev_has_xid t = true) /\ ((k <= i)%nat -> lev_xids t = []);
  ao_sorted : xid_sorted o (stack_xids v.2);
  ao_below : Forall (fun x => xid_age o x < nextXid (ShmemVariableCache v.1.2) - B) (stack_xids v.2);
  ao_linked : ids_linked (xg_subtrans v.1.2) o (stack_xids v.2);
  ao_top : forall t, reverse v.2 !! 0%nat = Some t -> v.1.1.1 = t.1;
}.

Definition set_level (k : nat) (f : FullTransactionId) (l : list Level) : list Level :=
  reverse (alter (fun t => (f, t.2)) k (reverse l)).

Lemma no_level_xids (r : list Level) : (forall i t, r !! i = Some t -> lev_xids t = []) -> r ≫= lev_xids = [].
Proof.
  induction r as [|u r IH]; [done|]. intros H. rewrite bind_cons, (H 0%nat u eq_refl). apply IH. intros i. apply (H (S i)).
Qed.

Lemma alter_level_xids (r : list Level) k f :
  (k < length r)%nat -> (forall i t, r !! i = Some t -> (k <= i)%nat -> lev_xids t = []) ->
  FullTransactionIdIsValid f = true ->
  alter (fun t => (f, t.2)) k r ≫= lev_xids = (r ≫= lev_xids) ++ [XidFromFullTransactionId f].
Proof.
  intros Hk Hr Hf. revert k Hk Hr. induction r as [|t r IH]; intros k Hk Hr; [simpl in Hk; lia|].
  destruct k as [|k].
  - assert (Hn : r ≫= lev_xids = []) by (apply no_level_xids; intros i u Hu; apply (Hr (S i)); [done|lia]).
    assert (Ht : lev_xids t = []) by (by apply (Hr 0%nat); [|lia]).
    rewrite bind_cons, Ht, Hn. change (alter (fun t => (f, t.2)) 0%nat (t :: r)) with ((f, t.2) :: r).
    rewrite bind_cons, Hn. unfold lev_xids, lev_has_xid in *. simpl. rewrite Hf. apply app_eq_nil in Ht as [_ ->]. done.
  - change (alter (fun t => (f, t.2)) (S k) (t :: r)) with (t :: alter (fun t => (f, t.2)) k r).
    rewrite !bind_cons, IH, app_assoc; [done|simpl in Hk; lia|]. intros i u Hu Hi. apply (Hr (S i)); [done|lia].
Qed.

Lemma set_level_xids k top par h l f :
  assigned_ok k (top, par, h, l) -> (k < length l)%nat -> FullTransactionIdIsValid f = true ->
  stack_xids (set_level k f l) = stack_xids l ++ [XidFromFullTransactionId f].
Proof.
  intros Ha Hk Hf. unfold stack_xids, set_level. rewrite reverse_involutive. apply alter_level_xids; [by rewrite length_reverse| |done].
  intros i t Ht Hi. by apply (ao_prefix _ _ Ha i t Ht).
Qed.

Lemma xid_sorted_snoc l x :
  xid_sorted o l -> in_window o x -> Forall (fun y => xid_age o y < xid_age o x) l -> xid_sorted o (l ++ [x]).
Proof.
  intros [Hw Hs] Hx Hl. split; [apply Forall_app; split; [done|by apply Forall_singleton]|].
  induction Hs as [|y l Hs IH Hy]; simpl; [repeat constructor|].
  apply Forall_cons in Hw as [_ Hw]. apply Forall_cons in Hl as [Hyx Hl]. constructor; [by apply IH|].
  apply Forall_app. split; [done|by apply Forall_singleton].
Qed.

(** A new id, younger than the others, linked to one of them. *)
Lemma ids_linked_snoc c c' l x :
  ids_linked c o l -> in_window o x -> Forall (fun y => in_window o y /\ xid_age o y < xid_age o x) l ->
  (forall y p, y ∈ l -> TransactionIdIsValid p = true -> SubTransGetParent c y = Ok p -> SubTransGetParent c' y = Ok p) ->
  (l <> [] -> exists p, p ∈ l /\ SubTransGetParent c' x = Ok p) -> ids_linked c' o (l ++ [x]).
Proof.
  intros Hl Hx Hlt Hk Hp. destruct l as [|y r]; simpl in *.
  { split; [done|]. split; constructor. }
  destruct Hl as (Hwy & Hwr & Hlink). split_and!; [done|apply Forall_app; split; [done|by apply Forall_singleton]|].
  apply Forall_app. split.
  - rewrite Forall_forall in *. intros z Hz. destruct (Hlink z Hz) as (p & Hgp & Hpin & Hpre). exists p. split_and!; [|set_solver|done].
    apply Hk; [set_solver| |done].
    assert (in_window o p) as [Hnp _] by (apply elem_of_cons in Hpin as [->|Hpin]; [done|by apply Hwr]).
    by apply normal_TransactionIdIsValid.
  - apply Forall_singleton. destruct (Hp ltac:(done)) as (p & Hpin & Hgp). exists p. split_and!; [done|set_solver|].
    rewrite Forall_forall in Hlt. destruct (Hlt p Hpin) as [Hpw Hage]. rewrite (precedes_window o) by done. by apply Z.ltb_lt.
Qed.

Definition with_links (c : Slru) (h : XidGen CommitTs) : XidGen CommitTs :=
  mkXidGen (ShmemVariableCache h) (xg_clog h) (xg_commit_ts h) c (MyProc h) (xg_events h).

Lemma set_parent_inv f h c p :
  xid_assigned f h -> is_u64 f -> f + 4 < 2 ^ 64 -> is_u32 p ->
  SubTransSetParent (XidFromFullTransactionId f) p (xg_subtrans h) = Ok c -> xidgen_inv (with_links c h).
Proof.
  intros ([H1 H2 H3 H4 H5 H6] & Hn & Hnext & _) Hu Hf Hp Hs.
  apply SubTransSetParent_wf in Hs as Hwf; [|done|done].
  apply SubTransSetParent_links in Hs as [_ Ho]; [|by apply normal_TransactionIdIsNormal|done].
  split; try done. cbn [xg_subtrans with_links ShmemVariableCache]. intros y Hst Hy Hpg.
  rewrite Ho; [by apply H6|]. rewrite Hnext in *.
  destruct (next_same_page f 2048) as [Hlt _]; [by left|done..|]. lia.
Qed.

Context (N : nat) (HL1 : L + 4 * Z.of_nat N < B + 2 ^ 31) (HL2 : L + 4 * Z.of_nat N + 8 < 2 ^ 64).

Section Step.
Context (k : nat) (top : FullTransactionId) (par : list TransactionId) (h h1 : XidGen CommitTs) (c : Slru) (l : list Level)
  (f : FullTransactionId).
Context (Ha : assigned_ok k (top, par, h, l)) (Hl : length l = N) (Hk : (k < N)%nat) (Has : xid_assigned f h1)
  (Hkept : links_kept h h1)
  (Hf : nextXid (ShmemVariableCache h) <= f <= Z.max L (nextXid (ShmemVariableCache h)))
  (Hc0 : k = 0%nat -> c = xg_subtrans h1)
  (Hc1 : (0 < k)%nat -> exists t, reverse l !! (k - 1)%nat = Some t /\
     SubTransSetParent (XidFromFullTransactionId f) (XidFromFullTransactionId t.1) (xg_subtrans h1) = Ok c).
Abbreviation x := (XidFromFullTransactionId f).

Lemma step_bounds : B <= f /\ f <= L + 4 * Z.of_nat k /\ f < B + 2 ^ 31 /\ f + 8 < 2 ^ 64.
Proof. pose proof (ao_next _ _ Ha). cbn [fst snd] in *. lia. Qed.

Lemma step_normal : normal_xid x.
Proof. apply Has. Qed.

Lemma step_older y : y ∈ stack_xids l -> in_window o y /\ xid_age o y < xid_age o x.
Proof.
  intros Hy. pose proof step_bounds. destruct Ha as [_ _ _ [Hw _] Hb _ _]. cbn [fst snd] in *.
  rewrite Forall_forall in Hw, Hb. specialize (Hb y Hy). split; [by apply Hw|]. rewrite age_full; lia.
Qed.

Lemma step_xids : stack_xids (set_level k f l) = stack_xids l ++ [x].
Proof.
  eapply set_level_xids; [exact Ha|lia|]. unfold FullTransactionIdIsValid.
  apply normal_TransactionIdIsValid, step_normal.
Qed.

Lemma step_links y : y <> x -> SubTransGetParent c y = SubTransGetParent (xg_subtrans h1) y.
Proof.
  intros Hy. destruct k as [|k']; [by rewrite Hc0|]. destruct Hc1 as (t & _ & Hs); [lia|].
  apply SubTransSetParent_links in Hs as [_ Ho]; [by apply Ho|apply normal_TransactionIdIsNormal, step_normal|by destruct Has as [[]]].
Qed.

Lemma step_linked : ids_linked c o (stack_xids (set_level k f l)).
Proof.
  rewrite step_xids. pose proof step_bounds as Hb. apply (ids_linked_snoc (xg_subtrans h)).
  - exact (ao_linked _ _ Ha).
  - apply age_in_window; [apply step_normal|lia].
  - apply Forall_forall. apply step_older.
  - intros y p Hy Hp Hg. destruct (step_older y Hy) as [[Hny Hwy] Hage].
    rewrite step_links by (intros ->; lia). apply Hkept; [done| |done..].
    pose proof (ao_below _ _ Ha) as Hbl. rewrite Forall_forall in Hbl. by apply Hbl.
  - intros Hne. destruct (decide (k = 0%nat)) as [->|Hk0].
    { exfalso. apply Hne, no_level_xids. intros i t Ht. apply (ao_prefix _ _ Ha i t Ht). lia. }
    destruct Hc1 as (t & Ht & Hs); [lia|]. exists (XidFromFullTransactionId t.1). split.
    + unfold stack_xids. apply list_elem_of_bind. exists t. split; [|by eapply list_elem_of_lookup_2].
      unfold lev_xids. rewrite (proj1 (ao_prefix _ _ Ha _ _ Ht)) by lia. set_solver.
    + apply SubTransSetParent_links in Hs as [Hg _]; [done|apply normal_TransactionIdIsNormal, step_normal|by destruct Has as [[]]].
Qed.

Lemma step_inv : xidgen_inv (with_links c h1).
Proof.
  pose proof step_bounds. destruct (decide (k = 0%nat)) as [Hk0|Hk0].
  - rewrite Hc0 by done. destruct Has as [Hi _]. by destruct h1.
  - destruct Hc1 as (t & _ & Hs); [lia|]. eapply set_parent_inv; [exact Has|unfold is_u64; lia|lia| |exact Hs].
    unfold is_u32, XidFromFullTransactionId. cint.
Qed.

(** The effect of one assignment, at the outermost level without an id. *)
Lemma assigned_ok_step : assigned_ok (S k) (if (k =? 0)%nat then f else top, par, with_links c h1, set_level k f l).
Proof.
  pose proof step_bounds as Hb. pose proof step_normal as Hn. pose proof (age_full f ltac:(lia)) as Hage.
  destruct Has as (_ & _ & Hnx & _).
  assert (Hadv : f < FullTransactionIdAdvance f <= f + 4) by (apply advance_bounds; [unfold is_u64; lia|lia|done]).
  split; cbn [fst snd with_links ShmemVariableCache xg_subtrans].
  - apply step_inv.
  - rewrite Hnx. lia.
  - intros i t. unfold set_level. rewrite reverse_involutive. destruct (decide (i = k)) as [->|Hne].
    + rewrite list_lookup_alter_eq. destruct (reverse l !! k) as [u|]; [|done]. intros [= <-]. split; [|lia]. intros _.
      unfold lev_has_xid, FullTransactionIdIsValid. by apply normal_TransactionIdIsValid.
    + rewrite list_lookup_alter_ne by done. intros Ht. destruct (ao_prefix _ _ Ha i t Ht) as [H1 H2].
      split; intros Hi; [apply H1|apply H2]; lia.
  - rewrite step_xids. apply xid_sorted_snoc; [exact (ao_sorted _ _ Ha)|apply age_in_window; [done|lia]|].
    apply Forall_forall. apply step_older.
  - rewrite step_xids, Hnx. apply Forall_app. split; [|apply Forall_singleton; lia].
    eapply Forall_impl; [apply (ao_below _ _ Ha)|]. cbn [fst snd]. intros y Hy. lia.
  - apply step_linked.
  - intros t. unfold set_level. rewrite reverse_involutive. destruct (Nat.eqb_spec k 0) as [->|Hk0].
    + rewrite list_lookup_alter_eq. destruct (reverse l !! 0%nat); [|done]. by intros [= <-].
    + rewrite list_lookup_alter_ne by done. apply (ao_top _ _ Ha).
Qed.

End Step.

(** ** The routines *)

Abbreviation X := (@X CommitTs).
Abbreviation aview := (pview lev (gxids (fun h : XidGen CommitTs => h))).
Abbreviation quiet := (quiet aview).
Abbreviation triple := (triple_in (ok := others_ok) aview).

#[local] Hint Resolve xq_log_record : quiet.

Lemma aq_report_assignment x b : quiet (report_assignment x b).
Proof. unfold report_assignment. quiet_tac. Qed.
#[local] Hint Resolve aq_report_assignment : quiet.

Lemma state_at_view d s (u : FullTransactionId * list TransactionId * XidGen CommitTs) l :
  aview s = (u, l) -> (d < length l)%nat -> reverse l !! d = Some (lev (state_at d s)).
Proof.
  unfold pview. intros [= _ <-] Hd. rewrite length_fmap in Hd. unfold state_stack in *. rewrite length_app in Hd. simpl in Hd.
  rewrite <- fmap_reverse, list_lookup_fmap, reverse_app. simpl.
  destruct d as [|d]; [done|]. unfold state_at. simpl.
  rewrite reverse_lookup by lia. simpl. destruct (lookup_lt_is_Some_2 (subs s) (length (subs s) - S d)) as [t Ht]; [lia|].
  by rewrite Ht.
Qed.

Lemma reverse_alter {A} (g : A -> A) d (l : list A) :
  (d < length l)%nat -> reverse (alter g d (reverse l)) = alter g (length l - S d)%nat l.
Proof.
  intros Hd. apply list_eq. intros i. destruct (decide (i < length l)%nat) as [Hi|Hi].
  - rewrite reverse_lookup by (by rewrite length_alter, length_reverse). rewrite length_alter, length_reverse.
    rewrite !list_lookup_alter. destruct (decide (d = (length l - S i)%nat)) as [->|Hne].
    + rewrite reverse_lookup by lia. rewrite decide_True by lia. done.
    + rewrite decide_False by lia. rewrite reverse_lookup by lia. f_equal. lia.
  - rewrite !lookup_ge_None_2; [done|rewrite length_alter|rewrite length_reverse, length_alter, length_reverse]; lia.
Qed.

Lemma fmap_alter_level f g i (l : list TransactionStateData) :
  (forall t, lev (f t) = g (lev t)) -> lev <$> alter f i l = alter g i (lev <$> l).
Proof.
  intros Hf. apply list_eq. intros j. rewrite list_lookup_fmap, !list_lookup_alter. case_decide; rewrite list_lookup_fmap; [|done].
  destruct (l !! i); simpl; [by rewrite Hf|done].
Qed.

Lemma upd_at_view d f g s (u : FullTransactionId * list TransactionId * XidGen CommitTs) l :
  (forall t, lev (f t) = g (lev t)) -> aview s = (u, l) -> (d < length l)%nat ->
  aview (upd_at d f s) = (u, reverse (alter g d (reverse l))).
Proof.
  unfold pview. intros Hf [= <- <-] Hd. rewrite reverse_alter by done. rewrite length_fmap in *. f_equal; [by destruct d|].
  rewrite <- fmap_alter_level with (f := f) by done. f_equal. revert Hd. unfold state_stack. rewrite length_app. simpl. intros Hd.
  destruct d as [|d]; simpl.
  - rewrite alter_app_r_alt by lia. by replace (length (subs s) + 1 - 1 - length (subs s))%nat with 0%nat by lia.
  - rewrite alter_app_l by lia. do 2 f_equal. lia.
Qed.

Lemma do_GetNewTransactionId_step b k top par h l :
  assigned_ok k (top, par, h, l) -> (k < N)%nat ->
  triple (do_GetNewTransactionId b) (top, par, h, l)
    (fun f v => exists h', v = (top, par, h', l) /\ xid_assigned f h' /\ links_kept h h'
                /\ nextXid (ShmemVariableCache h) <= f <= Z.max L (nextXid (ShmemVariableCache h))) (fun r _ => contained r).
Proof.
  intros Ha Hk. unfold do_GetNewTransactionId. tr_step. intros e He s [= Ht Hp Hh Hs].
  assert (Hnext := ao_next _ _ Ha). cbn [fst snd] in Hnext. rewrite Hh.
  destruct (GetNewTransactionId _ _ _ _ h) as [[f h']|er] eqn:Hg;
    [|split; simpl; [by destruct (CritSectionCount (glob s))|done]].
  exists h'. split; [by rewrite <- Ht, <- Hp, <- Hs|].
  apply (GetNewTransactionId_step e (ExtendCommitTs e) (IsInParallelMode s) b h f h' He); [exact (ao_inv _ _ Ha)|lia..|done].
Qed.

Lemma do_SubTransSetParent_step x p top par h l :
  triple (do_SubTransSetParent x p) (top, par, h, l)
    (fun _ v => exists c, SubTransSetParent x p (xg_subtrans h) = Ok c /\ v = (top, par, with_links c h, l)) (fun r _ => contained r).
Proof.
  unfold do_SubTransSetParent. tr_step. intros e He s [= Ht Hp Hh Hs]. rewrite Hh.
  destruct (SubTransSetParent x p (xg_subtrans h)) as [c|er] eqn:Hg;
    [|split; simpl; [by destruct (CritSectionCount (glob s))|done]].
  exists c. split; [done|]. by rewrite <- Ht, <- Hp, <- Hs, <- Hh.
Qed.

(** What an assignment to the levels below [k] leaves. *)
Definition assigned_from (l : list Level) (k : nat) (v : AView) : Prop :=
  assigned_ok k v /\ length v.2 = N /\ stack_xids l `prefix_of` stack_xids v.2.

Lemma no_unassigned_parents k u l s :
  assigned_ok k (u, l) -> length l = N -> (k <= N)%nat -> aview s = (u, l) -> unassigned_parents k s = [].
Proof.
  intros Ha Hl Hk Hs. destruct k as [|k]; [done|]. simpl.
  assert (Ht := state_at_view k s _ _ Hs ltac:(lia)).
  change (has_xid (state_at k s)) with (lev_has_xid (lev (state_at k s))).
  by rewrite (proj1 (ao_prefix _ _ Ha _ _ Ht)) by lia.
Qed.

Lemma length_set_level k f l : length (set_level k f l) = length l.
Proof. unfold set_level. by rewrite length_reverse, length_alter, length_reverse. Qed.

Lemma tr_upd_at d f (u : FullTransactionId * list TransactionId * XidGen CommitTs) l :
  (d < length l)%nat ->
  triple (modify (upd_at d (set_fullTransactionId f))) (u, l) (fun _ v => v = (u, set_level d f l)) (fun r _ => contained r).
Proof. intros Hd e _ s Hs. by apply (upd_at_view d _ (fun t => (f, t.2))). Qed.

(** An assignment, once the loop over the parents has done its work. *)
Lemma assign_after_parents n d v0 :
  (d < N)%nat ->
  (forall s0, aview s0 = v0 ->
     triple (foldr (fun p m => m;; AssignTransactionId_rec n p) (ret tt) (unassigned_parents d s0)) v0
       (fun _ v => assigned_from v0.2 d v) (fun r _ => contained r)) ->
  triple (AssignTransactionId_rec (S n) d) v0 (fun _ v => assigned_from v0.2 (S d) v) (fun r _ => contained r).
Proof.
  intros Hd Hloop. cbn [AssignTransactionId_rec]. tr_step. tr_step. tr_step; [by tr_steps|]. cbv zeta.
  apply tr_let_get. intros s0 Hs0. apply tr_bind. eapply tr_mono; [by apply Hloop| |done].
  intros _ [[[top par] h] l] (Ha & Hl & Hpre). cbn [snd] in Hl, Hpre. tr_step. tr_step. apply tr_bind.
  eapply tr_mono; [by eapply do_GetNewTransactionId_step| |done]. intros f v (h1 & -> & Has & Hkept & Hf).
  apply tr_bind. eapply tr_mono; [apply (tr_upd_at d f); lia| |done]. intros _ v ->.
  assert (Hfin : forall c, (d = 0%nat -> c = xg_subtrans h1) ->
    ((0 < d)%nat -> exists t, reverse l !! (d - 1)%nat = Some t /\
       SubTransSetParent (XidFromFullTransactionId f) (XidFromFullTransactionId t.1) (xg_subtrans h1) = Ok c) ->
    assigned_from v0.2 (S d) (if (d =? 0)%nat then f else top, par, with_links c h1, set_level d f l)).
  { intros c Hz Hnz. split; [by eapply assigned_ok_step|]. split; [cbn [snd]; by rewrite length_set_level|].
    cbn [snd]. erewrite step_xids by eassumption. by apply prefix_app_r. }
  destruct (Nat.eqb_spec d 0) as [->|Hd0]; cbn [negb when].
  - apply tr_bind. apply tr_modify with (f' := fun v => (f, v.1.1.2, v.1.2, v.2)); [done|]. tr_steps.
    all: specialize (Hfin (xg_subtrans h1) ltac:(done) ltac:(lia)); by destruct h1.
  - tr_step. apply tr_let_get. intros s2 Hs2.
    assert (Ht := state_at_view (d - 1) s2 _ _ Hs2 ltac:(rewrite length_set_level; lia)).
    apply tr_bind. eapply tr_mono; [apply do_SubTransSetParent_step| |done]. intros _ v (c & Hc & ->). tr_steps.
    all: apply Hfin; [done|intros _].
    all: exists (lev (state_at (d - 1) s2)); split; [|done].
    all: revert Ht; unfold set_level; by rewrite reverse_involutive, list_lookup_alter_ne by lia.
Qed.

Lemma parents_loop n s0 k u l d :
  assigned_ok k (u, l) -> length l = N -> aview s0 = (u, l) -> (k <= d <= N)%nat ->
  triple (foldr (fun p m => m;; AssignTransactionId_rec (S n) p) (ret tt) (unassigned_parents d s0)) (u, l)
    (fun _ v => assigned_from l d v) (fun r _ => contained r).
Proof.
  intros Ha Hl Hs. induction d as [|d IH]; intros Hd.
  { apply tr_ret. by replace k with 0%nat in * by lia. }
  destruct (decide (k = S d)) as [->|Hne].
  { rewrite (no_unassigned_parents _ _ _ _ Ha Hl ltac:(lia) Hs). by apply tr_ret. }
  simpl. assert (Ht := state_at_view d s0 _ _ Hs ltac:(lia)).
  change (has_xid (state_at d s0)) with (lev_has_xid (lev (state_at d s0))).
  destruct (ao_prefix _ _ Ha _ _ Ht) as [_ Hn]. specialize (Hn ltac:(lia)).
  unfold lev_xids in Hn. destruct (lev_has_xid (lev (state_at d s0))); [done|]. simpl.
  apply tr_bind. eapply tr_mono; [apply IH; lia| |done]. intros _ v (Hv & Hlv & Hpre).
  eapply tr_mono; [apply assign_after_parents; [lia|]| |done].
  - intros s1 Hs1. destruct v as [u1 l1]. rewrite (no_unassigned_parents _ _ _ _ Hv Hlv ltac:(lia) Hs1). by apply tr_ret.
  - intros _ v' (Hv' & Hlv' & Hpre'). split; [done|]. split; [done|]. by etrans.
Qed.

(** The recursion goes one level deep. *)
Lemma AssignTransactionId_step k d u l :
  assigned_ok k (u, l) -> length l = N -> (k <= d < N)%nat ->
  triple (AssignTransactionId d) (u, l) (fun _ v => assigned_from l (S d) v) (fun r _ => contained r).
Proof.
  intros Ha Hl Hd. apply assign_after_parents; [lia|]. intros s0 Hs0. apply (parents_loop 0 s0 k); (done || lia).
Qed.

(** ** The session *)

(** The ids of the stack are assigned from the top, in order, below the limits
    and linked. *)
Definition ids_ok (s : XactState CommitTs) : Prop := length (state_stack s) = N /\ exists k, (k <= N)%nat /\ assigned_ok k (aview s).

Lemma prefix_assigned_upto k (l : list Level) :
  (forall i t, reverse l !! i = Some t -> ((i < k)%nat -> lev_has_xid t = true) /\ ((k <= i)%nat -> lev_xids t = [])) ->
  assigned_upto l.
Proof.
  induction l as [|c r IH]; [done|]. intros H. rewrite reverse_cons in H. simpl.
  assert (Hc := H (length r) c). rewrite lookup_app_r, length_reverse, Nat.sub_diag in Hc by (rewrite length_reverse; lia).
  specialize (Hc eq_refl) as [Hc1 Hc2]. split; [|split].
  - intros Hx. destruct (decide (length r < k)%nat) as [Hk|Hk]; [rewrite Hc1 in Hx by done; done|].
    specialize (Hc2 ltac:(lia)). unfold lev_xids in Hc2. by apply app_eq_nil in Hc2 as [_ ?].
  - apply IH. intros i t Ht. apply H. apply lookup_app_l_Some, Ht.
  - destruct r as [|p r]; [done|]. intros Hx. assert (Hp := H (length r) p).
    rewrite reverse_cons, lookup_app_l, lookup_app_r, length_reverse, Nat.sub_diag in Hp
      by (rewrite ?length_app, ?length_reverse; simpl; lia).
    apply Hp; [done|]. destruct (decide (length r < k)%nat) as [Hk|Hk]; [done|].
    specialize (Hc2 ltac:(simpl; lia)). unfold lev_xids in Hc2. by rewrite Hx in Hc2.
Qed.

Lemma assigned_ok_inv k (s : XactState CommitTs) : assigned_ok k (aview s) -> xids_inv o s.
Proof.
  intros Ha. split.
  - exact (ao_sorted _ _ Ha).
  - eapply prefix_assigned_upto. exact (ao_prefix _ _ Ha).
  - apply (ao_top _ _ Ha (lev (TopTransactionStateData s))). cbn [snd pview].
    unfold state_stack. by rewrite fmap_app, reverse_app.
Qed.

Lemma assigned_all (s : XactState CommitTs) :
  length (state_stack s) = N -> assigned_ok N (aview s) -> Forall (fun t => has_xid t = true) (state_stack s).
Proof.
  intros Hl Ha. apply Forall_forall. intros t Ht. apply (list_elem_of_fmap_2 lev), elem_of_reverse in Ht.
  apply list_elem_of_lookup_1 in Ht as [i Hi]. apply (ao_prefix _ _ Ha i (lev t) Hi).
  apply lookup_lt_Some in Hi. by rewrite length_reverse, length_fmap, Hl in Hi.
Qed.

(** The current level has an id exactly when all levels have. *)
Lemma current_assigned k (s : XactState CommitTs) :
  length (state_stack s) = N -> (k <= N)%nat -> assigned_ok k (aview s) ->
  if has_xid (CurrentTransactionState s) then k = N else (k < N)%nat.
Proof.
  intros Hl Hk Ha. assert (Hcur : reverse (lev <$> state_stack s) !! length (subs s) = Some (lev (CurrentTransactionState s))).
  { erewrite state_at_view; [|reflexivity|].
    - unfold state_at, CurrentTransactionState. destruct (subs s) as [|t l]; [done|]. simpl. by rewrite Nat.sub_diag.
    - unfold state_stack. rewrite length_fmap, length_app. simpl. lia. }
  unfold state_stack in Hl. rewrite length_app in Hl. simpl in Hl.
  destruct (ao_prefix _ _ Ha _ _ Hcur) as [H1 H2].
  change (has_xid (CurrentTransactionState s)) with (lev_has_xid (lev (CurrentTransactionState s))).
  destruct (decide (length (subs s) < k)%nat) as [Hlt|Hge]; [rewrite H1 by done; lia|].
  specialize (H2 ltac:(lia)). unfold lev_xids in H2. destruct (lev_has_xid _); [done|lia].
Qed.

(** C25. Assigning ids.  When the current transaction asks for its id and gets
    it, then every level of the stack has one, parents before children; ids
    that were there before are kept, the new ones follow them in order; and in
    pg_subtrans every id but the first is linked to an older one of the same
    transaction, as the theorem on atomic commit requires.  This holds
    whatever other backends assign in the meantime; when the call fails it is
    not for want of fuel, so the recursion over unassigned parents is as
    shallow as the code says. *)
Theorem GetCurrentTransactionId_assigns e (s : XactState CommitTs) :
  others_ok e -> ids_ok s ->
  match GetCurrentTransactionId e s with
  | (inr x, s') =>
      x = XidFromFullTransactionId (fullTransactionId (CurrentTransactionState s'))
      /\ Forall (fun t => has_xid t = true) (state_stack s')
      /\ all_xids s `prefix_of` all_xids s'
      /\ ids_linked (xg_subtrans (gen s')) o (all_xids s') /\ xids_inv o s' /\ ids_ok s'
  | (inl r, s') => contained r
  end.
Proof.
  intros He (Hl & k & Hk & Ha). assert (Hcur := current_assigned k s Hl Hk Ha).
  assert (H : triple (when (negb (has_xid (CurrentTransactionState s))) (AssignTransactionId (length (subs s)))) (aview s)
                (fun _ v => assigned_from (aview s).2 N v) (fun r _ => contained r)).
  { assert (HN : N = S (length (subs s))) by (unfold state_stack in Hl; rewrite length_app in Hl; simpl in Hl; lia).
    assert (HlN : length (aview s).2 = N) by (cbn [snd pview]; by rewrite length_fmap).
    destruct (has_xid (CurrentTransactionState s)); cbn [when negb].
    - subst k. by apply tr_ret.
    - destruct (aview s) as [u l]. rewrite HN. apply (AssignTransactionId_step k); (done || lia). }
  unfold GetCurrentTransactionId, bind at 1, get at 1. unfold bind at 1, get at 1. unfold bind.
  specialize (H e He s eq_refl).
  destruct (when _ _ e s) as [[r|[]] s'] eqn:Hrun; [exact H|]. destruct H as (Ha' & Hl' & Hpre).
  cbn [snd pview] in Hl'. rewrite length_fmap in Hl'. simpl.
  split; [done|]. split; [by apply assigned_all|]. split; [done|]. split; [exact (ao_linked _ _ Ha')|].
  split; [by eapply assigned_ok_inv|]. split; [done|]. by exists N.
Qed.

End Window.

(** ** Witness *)

Definition in_sub : XactState unit := after (StartTransaction;; PushTransaction;; StartSubTransaction) fresh_backend.

Lemma in_sub_view : pview lev (gxids (fun h => h)) in_sub = (0, [], cluster_at 3 3, [(0, []); (0, [])]).
Proof. vm_compute. reflexivity. Qed.

Lemma in_sub_ids : ids_ok 3 3 2 in_sub.
Proof.
  split; [vm_compute; reflexivity|]. exists 0%nat. split; [lia|]. rewrite in_sub_view. split; cbn [fst snd].
  - exact cluster_inv.
  - vm_compute. split; congruence.
  - intros [|[|i]] t Ht; simplify_eq/=; (split; [lia|done]).
  - split; constructor.
  - constructor.
  - constructor.
  - by intros t [= <-].
Qed.

Lemma GetCurrentTransactionId_assigns_witness :
  match GetCurrentTransactionId no_errors in_sub with
  | (inr x, s') => all_xids in_sub `prefix_of` all_xids s' /\ ids_linked (xg_subtrans (gen s')) 3 (all_xids s')
  | (inl r, s') => contained r
  end.
Proof.
  pose proof (GetCurrentTransactionId_assigns 3 ltac:(lia) 3 2%nat ltac:(vm_compute; reflexivity) ltac:(vm_compute; reflexivity)
                no_errors in_sub) as H.
  assert (Ho : others_ok 3 3 no_errors) by (split; [done|]; intros h Hi; cbn; split_and!; [done|lia|lia|done]).
  specialize (H Ho in_sub_ids).
  destruct (GetCurrentTransactionId no_errors in_sub) as [[r|x] s']; [exact H|].
  destruct H as (_ & _ & H1 & H2 & _). split; [exact H1|exact H2].
Defined.
