(* ===== verification/XactCommit.v ===== *)
(** * XactCommit: the order of the steps of a commit

    A transaction that commits is first recorded in the commit log, with all
    its subcommitted children, and only then leaves the process array; whatever
    fails on the way.  Other backends decide visibility by looking first at
    the process array and then at the commit log, so this order is what keeps
    them from taking a committed transaction for an aborted one. *)

From stdpp Require Import strings.
From S2P Require Import Prelude Steps TransactionId Slru Clog Subtrans Transam Varsup HeapTuple Xact XactEnd.
From S2P Require Import XactBlock XactLogic XactExample XactXids.

Open Scope xact_scope.

(** What other backends see of the transaction: the id in its process entry,
    and the commit log. *)
Definition visible {CommitTs} (h : XidGen CommitTs) : TransactionId * Slru := (p_xid (MyProc h), clog (xg_clog h)).

(** The transactions [xids] have status [st] in the log. *)
Definition status_recorded (xids : list TransactionId) (st : XidStatus) (c : Slru) : Prop :=
  forall x, x ∈ xids -> clog_status c x = Some st.

(** Either nothing has changed for the others, or the outcome is on record. *)
Definition kept_order (c : Slru) (xids : list TransactionId) (st : XidStatus) (px : TransactionId)
    (v : TransactionId * Slru) : Prop :=
  v = (px, c) \/ status_recorded xids st v.2.

Definition end_seen (xids : list TransactionId) (st : XidStatus) (v : TransactionId * Slru) : Prop :=
  v.1 = InvalidTransactionId /\ status_recorded xids st v.2.

(** A successful end leaves the process array and is on record; a failed one
    has kept the order. *)
Definition ended {CommitTs} (c : Slru) (xids : list TransactionId) (st : XidStatus) (px : TransactionId)
    (r : (XactErr + unit) * XactState CommitTs) : Prop :=
  match r with
  | (inr _, s') => end_seen xids st (visible (gen s'))
  | (inl _, s') => kept_order c xids st px (visible (gen s'))
  end.

(** The backends whose updates of the log may be served together with ours. *)
Definition contention_ok {CommitTs} (c : Slru) (e : XEnv CommitTs) : Prop :=
  Forall (member_ok c) (clogGroupJoined (clog_contention e)) /\
  Forall member_status_ok (clogGroupJoined (clog_contention e)).

Section Commit.
Context {CommitTs : Type} (c : Slru) (top : FullTransactionId) (ch : list TransactionId).
Abbreviation X := (@X CommitTs).
Abbreviation xid := (XidFromFullTransactionId top).

Abbreviation recorded := (status_recorded (xid :: ch)).
Abbreviation in_order := (kept_order c (xid :: ch)).
Abbreviation end_view := (end_seen (xid :: ch)).
Abbreviation ended := (ended c (xid :: ch)).

Abbreviation cview := (pview lev (gxids (@visible CommitTs))).
Abbreviation quiet := (quiet cview).
Abbreviation triple := (triple_in (ok := contention_ok c) cview).

#[local] Hint Resolve xq_log_record xq_CommandCounterIncrement xq_do_AtEOXact_GUC xq_do_DidCommit : quiet.

Lemma xq_fire_deferred b n : quiet (fire_deferred b n).
Proof. induction n; simpl; quiet_tac. Qed.
#[local] Hint Resolve xq_fire_deferred : quiet.

Context (Hwf : clog_wf c) (Hvalid : TransactionIdIsValid xid = true) (Hpages : Forall (has_page c) (xid :: ch)).

Lemma tr_do_clog st f lsn u par px l :
  st = TRANSACTION_STATUS_COMMITTED \/ st = TRANSACTION_STATUS_ABORTED ->
  (forall p ct, u p ct = TransactionIdSetTreeStatus false p ct xid ch st lsn) ->
  triple (do_clog f u) (top, par, (px, c), l)
    (fun _ v => exists c', recorded st c' /\ v = (top, par, (px, c'), l)) (fun _ v => v = (top, par, (px, c), l)).
Proof.
  intros Hst Hu. unfold do_clog. tr_step. intros e [Hm Hms] s Hs. cbv beta zeta.
  assert (Hc : clog (xg_clog (gen s)) = c) by (by injection Hs). rewrite Hc, Hu.
  destruct (SetTreeStatus_inside false (mkMyProcXids (p_xid (MyProc (gen s))) (p_subxids (MyProc (gen s))))
              (clog_contention e) xid ch st lsn c) as (es & He & _ & _ & _ & Hin); try done.
  rewrite (emits_run _ _ _ _ He). eexists. split; [exact Hin|]. injection Hs as <- <- <- _ <-. done.
Qed.

Lemma TransactionIdLatest_valid x l :
  Forall (fun y => TransactionIdIsValid y = true) (x :: l) -> TransactionIdIsValid (TransactionIdLatest x l) = true.
Proof.
  intros [Hx Hl]%Forall_cons. apply Forall_rev in Hl. unfold TransactionIdLatest. revert x Hx.
  induction Hl as [|y r Hy Hl IH]; intros x Hx; simpl; [done|]. apply IH. by destruct (TransactionIdPrecedes x y).
Qed.

Lemma in_order_start st px (par : list TransactionId) (t : list Level) : in_order st px (top, par, (px, c), t).1.2.
Proof. by left. Qed.

Lemma in_order_recorded st px px' c' (par : list TransactionId) (t : list Level) : recorded st c' -> in_order st px (top, par, (px', c'), t).1.2.
Proof. by right. Qed.

#[local] Hint Resolve in_order_start in_order_recorded : xact_err.

Lemma RecordTransactionCommit_records par px t :
  t.2 = ch -> Forall (fun y => TransactionIdIsValid y = true) ch ->
  triple RecordTransactionCommit (top, par, (px, c), [t])
    (fun x v => TransactionIdIsValid x = true /\ exists c', recorded TRANSACTION_STATUS_COMMITTED c' /\ v = (top, par, (px, c'), [t]))
    (fun _ v => in_order TRANSACTION_STATUS_COMMITTED px v.1.2).
Proof.
  intros Ht Hch. unfold RecordTransactionCommit, START_CRIT_SECTION, END_CRIT_SECTION.
  apply tr_let_get. intros s Hs. assert (Htop : GetTopTransactionIdIfAny s = xid) by (by injection Hs as <-).
  rewrite Htop, Hvalid. cbv zeta. cbn [negb].
  tr_step. tr_step. tr_step. apply tr_let_get. intros s' Hs'.
  assert (Hc : xactGetCommittedChildren s' = ch) by (rewrite <- Ht; by rewrite <- (pview_current _ _ _ _ _ _ Hs')).
  rewrite Hc. tr_steps; [done|]. apply tr_bind.
  apply tr_mono with (Q := fun _ v => exists c', recorded TRANSACTION_STATUS_COMMITTED c' /\ v = (top, par, (px, c'), [t]))
    (E := fun _ v => in_order TRANSACTION_STATUS_COMMITTED px v.1.2); [|clear Hs Hs'|done].
  - tr_step; tr_step; cbn [when]; (eapply tr_mono; [eapply tr_do_clog; [by left|done]|done|intros ? ? ->; by left]).
  - intros _ v (c' & Hr & ->). cbn [when]. tr_steps.
    all: split; [by apply TransactionIdLatest_valid, Forall_cons|by eexists].
Qed.

Lemma ProcArrayEndTransaction_clears st latest par px c' l :
  TransactionIdIsValid latest = true -> recorded st c' ->
  triple (ProcArrayEndTransaction latest) (top, par, (px, c'), l)
    (fun _ v => v = (top, par, (InvalidTransactionId, c'), l)) (fun _ v => in_order st px v.1.2).
Proof.
  intros Hl Hr. unfold ProcArrayEndTransaction. rewrite Hl. cbn [when]. tr_step. apply tr_bind.
  apply tr_modify with (f' := fun v => (v.1.1, (InvalidTransactionId, v.1.2.2), v.2)); [done|]. by tr_steps.
Qed.

(** A run that starts by looking at the current state. *)
Lemma run_get {A} (f : XactState CommitTs -> A) (k : A -> X unit) e s v st px :
  contention_ok c e -> cview s = v ->
  triple (k (f s)) v (fun _ v => end_view st v.1.2) (fun _ v => in_order st px v.1.2) -> ended st px (bind (get f) k e s).
Proof. intros He Hs Hk. exact (Hk e He s Hs). Qed.

Lemma run_calls_get {A} l (f : XactState CommitTs -> A) (k : A -> X unit) e s v st px :
  (forall g s, f (add_call g s) = f s) -> contention_ok c e -> cview s = v -> in_order st px v.1.2 ->
  triple (k (f s)) v (fun _ v => end_view st v.1.2) (fun _ v => in_order st px v.1.2) ->
  ended st px ((run_calls l;; bind (get f) k) e s).
Proof.
  intros Hf He Hs Hv Hk.
  assert (HV : View (fun s => (cview s, f s))) by (intros g s'; by rewrite Hf).
  destruct (quiet_run_calls (fun s => (cview s, f s)) l e s) as [H _].
  pose proof (f_equal fst H) as Hc. pose proof (f_equal snd H) as Hfs. unfold bind at 1.
  destruct (run_calls l e s) as [[r|u] s1]; simpl in *.
  - change (in_order st px (cview s1).1.2). by rewrite Hc, Hs.
  - apply (run_get f k e s1 v); [done|congruence|by rewrite Hfs].
Qed.

Lemma CommitTransaction_records par px t e s :
  t.2 = ch -> Forall (fun y => TransactionIdIsValid y = true) ch -> contention_ok c e -> cview s = (top, par, (px, c), [t]) ->
  blockState (CurrentTransactionState s) <> TBLOCK_PARALLEL_INPROGRESS ->
  ended TRANSACTION_STATUS_COMMITTED px (CommitTransaction e s).
Proof.
  intros Ht Hch He Hs Hp.
  apply (run_get _ _ e s _ _ _ He Hs).
  rewrite bool_decide_false by done. unfold delete_top_owner. cbn [when negb]. cbv zeta. tr_steps.
  apply tr_bind. eapply tr_mono; [by apply RecordTransactionCommit_records| |done].
  intros latest v (Hl & c' & Hr & ->). apply tr_bind.
  eapply tr_mono; [by apply ProcArrayEndTransaction_clears| |done]. intros _ v ->. tr_steps.
  apply (tr_pupd_current _ _ _ (fun _ => (InvalidFullTransactionId, []))); [done|].
  by apply tr_modify with (f' := fun v => (InvalidFullTransactionId, [], v.1.2, v.2)).
Qed.

Lemma RecordTransactionAbort_records par px t :
  t = (top, ch) -> Forall (fun y => TransactionIdIsValid y = true) ch ->
  triple (RecordTransactionAbort false) (top, par, (px, c), [t])
    (fun x v => TransactionIdIsValid x = true /\ exists c', recorded TRANSACTION_STATUS_ABORTED c' /\ v = (top, par, (px, c'), [t]))
    (fun _ v => in_order TRANSACTION_STATUS_ABORTED px v.1.2).
Proof.
  intros -> Hch. unfold RecordTransactionAbort, START_CRIT_SECTION, END_CRIT_SECTION.
  apply tr_let_get. intros s Hs. apply pview_current in Hs. injection Hs as Hs _.
  assert (Hx : GetCurrentTransactionIdIfAny s = xid) by (unfold GetCurrentTransactionIdIfAny; by rewrite Hs).
  rewrite Hx, Hvalid. cbn [negb]. tr_step. tr_step; [by tr_steps|]. tr_step. apply tr_let_get. intros s' Hs'.
  apply pview_current in Hs'. injection Hs' as _ Hc. unfold xactGetCommittedChildren. rewrite Hc.
  cbn [when negb]. tr_steps.
  apply tr_bind. eapply tr_mono; [eapply tr_do_clog; [by right|done]| |intros ? ? ->; by left].
  intros _ v (c' & Hr & ->). tr_steps. split; [by apply TransactionIdLatest_valid, Forall_cons|by eexists].
Qed.

Lemma AbortTransaction_records par px t e s :
  t = (top, ch) -> Forall (fun y => TransactionIdIsValid y = true) ch -> contention_ok c e -> cview s = (top, par, (px, c), [t]) ->
  blockState (CurrentTransactionState s) <> TBLOCK_PARALLEL_INPROGRESS ->
  ended TRANSACTION_STATUS_ABORTED px (AbortTransaction e s).
Proof.
  intros Ht Hch He Hs Hp. eapply run_calls_get with (v := (top, par, (px, c), [t]));
    [done|done|done|exact (in_order_start _ _ _ _)|].
  rewrite bool_decide_false by done. cbn [when negb]. cbv zeta. tr_steps.
  all: apply tr_bind; (eapply tr_mono; [by apply RecordTransactionAbort_records| |done]).
  all: intros latest v (Hl & c' & Hr & ->); apply tr_bind.
  all: eapply tr_mono; [by apply ProcArrayEndTransaction_clears| |done]. 
  all: intros _ v ->; tr_steps; by split.
Qed.

End Commit.

(** C11. The order in which a transaction ends, whatever fails.  When
    [CommitTransaction] returns, the transaction has left the process array and
    the commit log says committed for it and all its subcommitted children;
    when an error interrupts it at any call, either the process entry and the
    log are still as they were, or the log already says committed.  So no other
    backend can find the transaction neither running nor committed.  The same
    holds of [AbortTransaction] and the status aborted. *)
Theorem transaction_end_order {CommitTs} o (e : XEnv CommitTs) (s : XactState CommitTs) :
  xids_inv o s -> subs s = [] -> TransactionIdIsValid (GetTopTransactionIdIfAny s) = true ->
  blockState (CurrentTransactionState s) <> TBLOCK_PARALLEL_INPROGRESS ->
  clog_wf (visible (gen s)).2 -> Forall (has_page (visible (gen s)).2) (all_xids s) ->
  contention_ok (visible (gen s)).2 e ->
  let px := (visible (gen s)).1 in
  let c := (visible (gen s)).2 in
  ended c (all_xids s) TRANSACTION_STATUS_COMMITTED px (CommitTransaction e s)
  /\ ended c (all_xids s) TRANSACTION_STATUS_ABORTED px (AbortTransaction e s).
Proof.
  intros [Hso _ Ht] Hs Hv Hw Hwf Hpg He px c.
  set (ch := childXids (TopTransactionStateData s)). set (top := XactTopFullTransactionId (glob s)).
  assert (Hall : all_xids s = XidFromFullTransactionId top :: ch).
  { unfold all_xids, state_stack. rewrite Hs. unfold GetTopTransactionIdIfAny in Hv. rewrite Ht in Hv.
    unfold stack_xids, lev_xids, lev_has_xid, FullTransactionIdIsValid, top. simpl. by rewrite Hv, Ht, app_nil_r. }
  assert (Hcv : pview lev (gxids visible) s = (top, ParallelCurrentXids (glob s), (px, c), [(top, ch)])).
  { unfold pview, gxids, state_stack. rewrite Hs. simpl. unfold lev. by rewrite <- Ht. }
  rewrite Hall in *.
  assert (Hch : Forall (fun y => TransactionIdIsValid y = true) ch).
  { destruct Hso as [Hso _]. apply Forall_cons in Hso as [_ Hso]. eapply Forall_impl; [exact Hso|]. eauto with pg. }
  split.
  - apply (CommitTransaction_records c top ch Hwf Hv Hpg (ParallelCurrentXids (glob s)) px (top, ch)); done.
  - apply (AbortTransaction_records c top ch Hwf Hv Hpg (ParallelCurrentXids (glob s)) px (top, ch)); done.
Qed.

Definition in_transaction : XactState unit := after (StartTransaction;; start_sub;; CommitSubTransaction) fresh_backend.

Lemma in_transaction_log : (visible (gen in_transaction)).2 = SimpleLruZeroPage XactCtl 0 (slru_init no_victims).
Proof. vm_compute. reflexivity. Qed.

Lemma in_transaction_xids : all_xids in_transaction = [3; 4] /\ (lev <$> state_stack in_transaction) = [(3, [4])].
Proof. vm_compute. split; reflexivity. Qed.

Lemma in_transaction_inv : xids_inv 3 in_transaction.
Proof.
  destruct in_transaction_xids as [Hx Hl]. split.
  - rewrite Hx. split; repeat constructor; vm_compute; congruence.
  - rewrite Hl. vm_compute. repeat split; congruence.
  - vm_compute. reflexivity.
Qed.

Lemma transaction_end_order_witness :
  end_seen [3; 4] TRANSACTION_STATUS_COMMITTED (visible (gen (after CommitTransaction in_transaction))).
Proof.
  destruct in_transaction_xids as [Hx _].
  assert (H : ended (visible (gen in_transaction)).2 [3; 4] TRANSACTION_STATUS_COMMITTED (visible (gen in_transaction)).1
                (CommitTransaction no_errors in_transaction)).
  { rewrite <- Hx. refine (proj1 (transaction_end_order 3 no_errors in_transaction in_transaction_inv _ _ _ _ _ _)).
    - vm_compute. reflexivity.
    - vm_compute. reflexivity.
    - vm_compute. congruence.
    - rewrite in_transaction_log. apply SimpleLruZeroPage_wf, map_Forall_empty.
    - rewrite in_transaction_log, Hx. repeat constructor; by eexists.
    - split; constructor. }
  rewrite (after_ok CommitTransaction in_transaction tt) in H; [exact H|vm_compute; reflexivity].
Defined.

(** ** A subtransaction whose commit fails halfway *)

(** An exception block: a subtransaction with an id, released inside the block. *)
Definition in_exception_block : XactState unit :=
  after (StartTransactionCommand;; BeginInternalSubTransaction None;; GetCurrentTransactionId) fresh_backend.

Definition notify_fails : XEnv unit :=
  env_raising (fun _ f => match f with AtSubCommit_Notify => true | _ => false end).

Definition log_status (x : TransactionId) (s : XactState unit) : option XidStatus := clog_status (visible (gen s)).2 x.

(** C38. A child that was rolled back can end up committed.  When a step of
    [CommitSubTransaction] after [AtSubCommit_childXids] reports an error, the
    child's id is already among the parent's; if the caller of
    [ReleaseCurrentSubTransaction] catches the error and rolls the
    subtransaction back, as exception blocks do, the log first says aborted for
    the child, and the commit of the parent then overwrites it by committed. *)
Theorem rolled_back_child_commits :
  let released := ReleaseCurrentSubTransaction notify_fails in_exception_block in
  let rolled_back := RollbackAndReleaseCurrentSubTransaction no_errors released.2 in
  let committed := CommitTransaction no_errors rolled_back.2 in
  (exists r, released.1 = inl r) /\ rolled_back.1 = inr tt /\ log_status 4 rolled_back.2 = Some TRANSACTION_STATUS_ABORTED
  /\ committed.1 = inr tt /\ log_status 4 committed.2 = Some TRANSACTION_STATUS_COMMITTED.
Proof. split; [eexists; vm_compute; reflexivity|]. vm_compute. repeat split; reflexivity. Qed.
