(* ===== verification/XactRefine.v ===== *)
(** * XactRefine: a session behaves as specified

    The transaction statements act on the stack of block states as the
    specification of a session says; whole messages follow, and with them the
    theorems about sessions: no message or error leads to an unexpected
    state, a successful message has the specified effect, and a failed one
    leaves the session idle or in a failed block from which the remaining
    savepoints can be reached. *)

From stdpp Require Import strings.
From S2P Require Import Prelude TransactionId Slru Clog Subtrans Transam Varsup HeapTuple Xact XactEnd.
From S2P Require Import XactBlock XactLogic XactSession XactSafe XactCommand XactExample.

Open Scope xact_scope.

(** Before [CommitTransactionCommand]. *)
Definition ready (v : Shape) : Prop := wf v /\ f_block (cur_frame v) <> TBLOCK_DEFAULT.

(** What an error may turn a session into. *)
Definition worse (σ σe : Session) : Prop :=
  match σ with
  | Idle | Implicit => σe = Idle
  | InBlock l | Failed l => σe = Idle \/ exists l', σe = Failed l' /\ l' `suffix_of` l
  end.

Definition failed (σ : Session) : Session :=
  match σ with
  | Idle | Implicit => Idle
  | InBlock l | Failed l => Failed l
  end.

(** A failing query leaves the savepoints; a failing transaction statement may
    already have given up some of them. *)
Definition may_fail_as {Query} (st : Stmt Query) (σ σe : Session) : Prop :=
  match st with
  | OtherStmt _ => σe = failed σ
  | TransactionStmt _ => worse σ σe
  end.

(** The effect of a statement, [o] being what the specification says. *)
Definition commanded (o : option Session) (σ : Session) (v : Shape) : Prop :=
  ready v /\ o = Some (session_of v.1 v.2) /\ worse σ (error_session v.1 v.2).

(** The stacks in which a statement runs. *)
Inductive active_case : Shape -> Session -> Prop :=
| ac_started t : f_block t = TBLOCK_STARTED -> active_case (t, []) Idle
| ac_implicit t : f_block t = TBLOCK_IMPLICIT_INPROGRESS -> active_case (t, []) Implicit
| ac_live t l : live t l -> active_case (t, l) (InBlock (f_name <$> l))
| ac_abort t : f_block t = TBLOCK_ABORT -> active_case (t, []) (Failed [])
| ac_subabort t f l :
    f_block f = TBLOCK_SUBABORT -> live t l -> active_case (t, f :: l) (Failed (f_name <$> f :: l)).

Lemma active_inv v : active v -> active_case v (session_of v.1 v.2).
Proof.
  destruct v as [t l]. intros [(Hp & Ha & Hb) Hi]. unfold in_blocks, cur_frame in Hi. apply bool_decide_eq_true in Hi.
  destruct l as [|f l]; simpl in *.
  - destruct (f_block t) eqn:Ht; try (by constructor); try (exfalso; set_solver).
  - destruct (f_block f) eqn:Hf; try contradiction Hp; try (exfalso; set_solver).
    + apply (ac_live t (f :: l)). destruct Hp as [Ht Hl]. split; [done|by constructor].
    + by constructor.
Qed.

Lemma active_failed v σ : active_case v σ -> error_session v.1 v.2 = failed σ.
Proof.
  intros H. destruct H as [t Ht|t Ht|t l Hl|t Ht|t f l Hf Hl]; simpl; rewrite ?Ht, ?Hf; try done.
  destruct Hl as [Ht Hl]. destruct l as [|f l]; simpl; [by rewrite Ht|]. by apply Forall_cons in Hl as [-> _].
Qed.

Lemma failed_worse σ : worse σ (failed σ).
Proof. destruct σ; simpl; try done; right; by eexists. Qed.

Lemma active_error v σ : active_case v σ -> worse σ (error_session v.1 v.2).
Proof. intros H. rewrite (active_failed _ _ H). apply failed_worse. Qed.

Lemma may_fail_failed {Query} (st : Stmt Query) σ : may_fail_as st σ (failed σ).
Proof. destruct st; [apply failed_worse|done]. Qed.

Lemma ready_active v : active v -> ready v.
Proof.
  intros [Hw Hi]. split; [done|]. intros Hb. unfold in_blocks in Hi. by rewrite Hb in Hi.
Qed.

(** ** Marked stacks *)

Lemma live_marks f b t l :
  live t l -> f TBLOCK_SUBINPROGRESS = Some b -> fmark f <$> l = fset_block b <$> l.
Proof.
  intros [_ Hl] Hf. induction Hl as [|x l Hx Hl IH]; [done|]. rewrite !fmap_cons, IH. f_equal.
  unfold fmark. by rewrite Hx, Hf.
Qed.

Lemma names_marks f (l : list Frame) : f_name <$> (fmark f <$> l) = f_name <$> l.
Proof.
  induction l as [|x l IH]; [done|]. rewrite !fmap_cons, IH. f_equal. unfold fmark. by destruct (f (f_block x)).
Qed.

Lemma agree_marks b l :
  expected_state b = TRANS_INPROGRESS -> Forall (fun f => f_block f = TBLOCK_SUBINPROGRESS) l -> Forall agree l ->
  Forall agree (fset_block b <$> l).
Proof.
  intros Hb Hl Ha. apply Forall_fmap. apply Forall_forall. intros x Hx. unfold agree. simpl. rewrite Hb.
  rewrite Forall_forall in Hl, Ha. specialize (Ha x Hx). unfold agree in Ha. by rewrite Ha, (Hl x Hx).
Qed.

Lemma committing_session t l :
  committing t l -> session_of t l = session_of t [] /\ error_session t l = Idle.
Proof.
  intros [Ht Hl]. induction Hl as [|f l Hf Hl [IH1 IH2]].
  - split; [done|]. simpl. by destruct Ht as [-> | ->].
  - split; simpl; rewrite Hf; [exact IH1|exact IH2].
Qed.

(** Aborting all levels. *)
Lemma aborting_all t l :
  f_block t = TBLOCK_ABORT_PENDING \/ f_block t = TBLOCK_ABORT_END ->
  Forall (fun f => f_block f = TBLOCK_SUBABORT_PENDING \/ f_block f = TBLOCK_SUBABORT_END) l ->
  aborting t l /\ session_of t l = (if f_chain t then InBlock [] else Idle) /\ error_session t l = Idle.
Proof.
  intros Ht Hl. induction Hl as [|f l Hf Hl (IH1 & IH2 & IH3)]; simpl.
  - split; [done|]. by destruct Ht as [-> | ->].
  - by destruct Hf as [-> | ->].
Qed.

(** ** The statements *)

Section Statements.
Context {CommitTs Query : Type}.
Abbreviation X := (@X CommitTs).
Abbreviation triple := (triple (@shape CommitTs)).

Lemma fails_wf v r w : wf v -> contained r /\ w = v -> fails v r w.
Proof. intros Hw. by apply same_fails, wf_hurt. Qed.

Lemma raise_fails {A} msg v (Q : A -> Shape -> Prop) :
  wf v -> msg <> "out of fuel"%string -> triple (raise ERROR msg) v Q (fails v).
Proof. intros Hw Hm. apply tr_raise_contained; [done|done|]. intros r Hr. by apply fails_wf. Qed.

(** A statement that leaves a stack as the specification demands. *)
Lemma commanded_top o σ t :
  top_block (f_block t) = true -> f_block t <> TBLOCK_DEFAULT -> agree t -> base t ->
  o = Some (session_of t []) -> worse σ (error_session t []) -> commanded o σ (t, []).
Proof. intros Hb Hd Ha Ht Ho Hw. split; [|done]. split; [by apply wf_top|done]. Qed.

Lemma BeginTransactionBlock_safe v σ :
  active v -> active_case v σ -> (forall l, σ <> Failed l) ->
  triple BeginTransactionBlock v
    (fun _ w => commanded (spec_transaction TRANS_STMT_BEGIN σ) σ w /\ error_session w.1 w.2 = error_session v.1 v.2)
    (fails v).
Proof.
  intros Hv Hc Hnf. pose proof (ready_active _ Hv) as Hr. unfold BeginTransactionBlock. apply tr_block.
  pose proof Hv as [(Hp & Ha & Hbase) _]. apply Forall_cons in Ha as [Ha _]. unfold agree in Ha.
  pose proof (active_error _ _ Hc) as Hwo.
  destruct Hc as [t Ht|t Ht|t l Hl|t Ht|t f l Hf Hl]; try (exfalso; by eapply Hnf); unfold cur_frame; cbn [snd fst] in *.
  - rewrite Ht in *. apply tr_set_block. split; [by apply commanded_top|simpl; by rewrite Ht].
  - rewrite Ht in *. apply tr_set_block. split; [by apply commanded_top|simpl; by rewrite Ht].
  - assert (Hok : triple (warn "there is already a transaction in progress") (t, l)
                    (fun _ w => commanded (Some (InBlock (f_name <$> l))) (InBlock (f_name <$> l)) w /\
                                error_session w.1 w.2 = error_session t l) (fails (t, l))).
    { apply tr_modify with (f' := id); [intros s; exact (view_call _ s)|]. split; [|done]. split; [done|]. split; [|done].
      exact (f_equal Some (eq_sym (proj2 (live_settled t l (proj1 Hv) Hl)))). }
    by destruct (live_block _ _ Hl) as [Hb|Hb]; unfold cur_frame in Hb; cbn [snd fst] in Hb; rewrite Hb.
Qed.

(** COMMIT and ROLLBACK of every level. *)
Lemma end_all_commit (chain : bool) t l :
  wf (t, l) -> live t l -> forall b, b = TBLOCK_END \/ b = TBLOCK_PREPARE ->
  commanded (Some (match b with TBLOCK_END => if chain then InBlock [] else Idle | _ => Idle end)) (InBlock (f_name <$> l))
    (fset_chain chain (fset_block b t), fset_block TBLOCK_SUBCOMMIT <$> l).
Proof.
  intros (Hp & Ha & Hbase) [Ht Hl] b Hb. apply Forall_cons in Ha as [Hat Ha].
  assert (Hcm : committing (fset_chain chain (fset_block b t)) (fset_block TBLOCK_SUBCOMMIT <$> l)).
  { split; [done|]. apply Forall_fmap, Forall_forall. by intros. }
  destruct (committing_session _ _ Hcm) as [Hs He]. cbn [fst] in *. unfold agree in Hat. rewrite Ht in Hat.
  split; [|cbn [fst snd]; rewrite Hs, He; split; [by destruct Hb as [-> | ->]|by left]]. split.
  - split; [by apply committing_pending|]. split; [|done]. constructor; [|by apply agree_marks].
    unfold agree. simpl. rewrite Hat. by destruct Hb as [-> | ->].
  - unfold cur_frame. destruct l; [|done]. simpl. by destruct Hb as [-> | ->].
Qed.

(** The levels that ROLLBACK finds. *)
Definition rollback_stack (t : Frame) (l : list Frame) : Prop :=
  (f_block t = TBLOCK_INPROGRESS \/ f_block t = TBLOCK_ABORT) /\
  Forall (fun f => f_block f = TBLOCK_SUBINPROGRESS \/ f_block f = TBLOCK_SUBABORT) l.

Lemma live_rollback t l : live t l -> rollback_stack t l.
Proof. intros [Ht Hl]. split; [by left|]. eapply Forall_impl; [exact Hl|]. by left. Qed.

Lemma fmark_abort_agree f :
  agree f -> f_block f = TBLOCK_SUBINPROGRESS \/ f_block f = TBLOCK_SUBABORT ->
  agree (fmark abort_mark f) /\
  (f_block (fmark abort_mark f) = TBLOCK_SUBABORT_PENDING \/ f_block (fmark abort_mark f) = TBLOCK_SUBABORT_END).
Proof. unfold agree, fmark. intros Ha [Hf|Hf]; rewrite Hf in *; simpl; auto. Qed.

Lemma fmark_abort_top_agree t :
  agree t -> f_block t = TBLOCK_INPROGRESS \/ f_block t = TBLOCK_ABORT ->
  agree (fmark abort_mark_top t) /\
  (f_block (fmark abort_mark_top t) = TBLOCK_ABORT_PENDING \/ f_block (fmark abort_mark_top t) = TBLOCK_ABORT_END).
Proof. unfold agree, fmark. intros Ha [Hf|Hf]; rewrite Hf in *; simpl; auto. Qed.

Lemma fmark_base g t : base t -> base (fmark g t).
Proof. unfold fmark. by destruct (g (f_block t)). Qed.

Lemma end_all_abort (chain : bool) t l σ :
  wf (t, l) -> rollback_stack t l -> (forall σe, σe = Idle -> worse σ σe) ->
  commanded (Some (if chain then InBlock [] else Idle)) σ
    (fset_chain chain (fmark abort_mark_top t), fmark abort_mark <$> l).
Proof.
  intros (Hp & Ha & Hbase) [Ht Hl] Hwo. apply Forall_cons in Ha as [Hat Ha].
  destruct (fmark_abort_top_agree t Hat Ht) as [Hat' Hbt].
  assert (Hall : Forall (fun f => agree f /\
            (f_block f = TBLOCK_SUBABORT_PENDING \/ f_block f = TBLOCK_SUBABORT_END)) (fmark abort_mark <$> l)).
  { apply Forall_fmap. rewrite Forall_forall in Ha, Hl |- *. intros x Hx. apply fmark_abort_agree; auto. }
  apply Forall_and in Hall as [Hag Hbl].
  destruct (aborting_all (fset_chain chain (fmark abort_mark_top t)) _ Hbt Hbl) as (Hab & Hs & He).
  split; [|cbn [fst snd]; rewrite Hs, He; auto]. split.
  - split; [by apply aborting_pending|]. split; [by constructor|]. apply (fmark_base abort_mark_top t Hbase).
  - unfold cur_frame. destruct l as [|f l]; simpl in *; [by destruct Hbt as [-> | ->]|].
    apply Forall_cons in Hbl as [[-> | ->] _]; done.
Qed.

Lemma live_marks_top t l :
  live t l -> fmark commit_mark_top t = fset_block TBLOCK_END t /\
  Forall (fun x => is_Some (commit_mark (f_block x))) l /\ is_Some (commit_mark_top (f_block t)).
Proof.
  intros [Ht Hl]. unfold fmark. rewrite Ht. split; [done|]. split; [|by eexists].
  eapply Forall_impl; [exact Hl|]. intros x ->. by eexists.
Qed.

Lemma rollback_marks t l :
  rollback_stack t l ->
  Forall (fun x => is_Some (abort_mark (f_block x))) l /\ is_Some (abort_mark_top (f_block t)).
Proof.
  intros [Ht Hl]. split; [|destruct Ht as [-> | ->]; by eexists].
  eapply Forall_impl; [exact Hl|]. intros x [-> | ->]; by eexists.
Qed.

Lemma abort_all_safe {A} msg (chain : bool) t l σ (k : X A) Q E :
  wf (t, l) -> rollback_stack t l -> (forall σe, σe = Idle -> worse σ σe) ->
  (forall v, commanded (Some (if chain then InBlock [] else Idle)) σ v -> f_block v.1 <> TBLOCK_END -> triple k v Q E) ->
  triple (mark_stack abort_mark abort_mark_top (length l) msg;; upd_top (set_chain chain);; k) (t, l) Q E.
Proof.
  intros Hw Hr Hwo HQ. destruct (rollback_marks _ _ Hr) as [Hml Hmt].
  eapply tr_then; [by apply tr_mark_top|done|intros _].
  apply (tr_upd_top _ (fset_chain chain)); [done|]. apply HQ; [by apply end_all_abort|].
  simpl. unfold fmark. destruct Hr as [[-> | ->] _]; done.
Qed.

Lemma tr_last_bind {A} (m : X A) (m' : X unit) v Q E :
  triple (m;; m';; ret tt) v Q E -> triple (m;; m') v Q E.
Proof.
  intros H e He s Hs. specialize (H e He s Hs). unfold bind, ret in *. destruct (m e s) as [[r|a] s']; [done|].
  by destruct (m' e s') as [[r|[]] s''].
Qed.

(** [Q] is also what PREPARE TRANSACTION needs to know. *)
Definition ended_block (o : option Session) (σ : Session) (v : Shape) : Prop :=
  commanded o σ v /\ (f_block v.1 = TBLOCK_END -> commanded (Some Idle) σ (fset_block TBLOCK_PREPARE v.1, v.2)).

Lemma end_started (b : TBlockState) (chain : bool) t σ :
  wf (t, []) -> f_state t = TRANS_INPROGRESS -> b = TBLOCK_STARTED \/ b = TBLOCK_END ->
  (forall σe, σe = Idle -> worse σ σe) ->
  ended_block (Some (if bool_decide (b = TBLOCK_END) && chain then InBlock [] else Idle)) σ
    (fset_chain chain (fset_block b t), []).
Proof.
  intros (_ & _ & Hbase) Hs Hb Hwo. split; [|intros _]; (destruct Hb as [-> | ->]; apply commanded_top; try done; by apply Hwo).
Qed.

Lemma EndTransactionBlock_safe chain v σ :
  active v -> active_case v σ ->
  triple (EndTransactionBlock chain) v (fun _ => ended_block (spec_transaction (TRANS_STMT_COMMIT chain) σ) σ) (fails v).
Proof.
  intros Hv Hc. pose proof (active_error _ _ Hc) as Hwo. destruct Hv as [Hw _]. unfold EndTransactionBlock.
  apply tr_block, tr_depth.
  assert (Hat : agree v.1) by (destruct v; by eapply wf_agree_top). unfold agree in Hat.
  destruct Hc as [t Ht|t Ht|t l Hl|t Ht|t f l Hf Hl]; cbn [fst snd] in *.
  - unfold cur_frame. cbn [fst snd]. rewrite Ht in *. destruct chain; [apply tr_bind; by apply raise_fails|].
    apply tr_bind, tr_modify with (f' := id); [intros s; exact (view_call _ s)|].
    apply (tr_upd_current _ (fset_chain false)); [done|]. apply tr_ret.
    assert (t = fset_block TBLOCK_STARTED t) as -> by (destruct t; simpl in *; by subst).
    apply (end_started TBLOCK_STARTED false); auto.
  - unfold cur_frame. cbn [fst snd]. rewrite Ht in *. destruct chain; [apply tr_bind; by apply raise_fails|].
    apply tr_bind, tr_modify with (f' := id); [intros s; exact (view_call _ s)|]. apply tr_then_set_block.
    apply (tr_upd_current _ (fset_chain false)); [done|]. apply tr_ret.
    apply (end_started TBLOCK_END false); auto.
  - assert (Hidle : forall σe, σe = Idle -> worse (InBlock (f_name <$> l)) σe) by (by left).
    destruct l as [|f l].
    + unfold cur_frame. cbn [fst snd]. destruct Hl as [Ht _]. rewrite Ht in *. apply tr_then_set_block.
      apply (tr_upd_current _ (fset_chain chain)); [done|]. apply tr_ret.
      apply (end_started TBLOCK_END chain); auto.
    + pose proof (live_marks_top _ _ Hl) as (Hmt & Hms & Hmts).
      unfold cur_frame. cbn [fst snd]. destruct (live_block _ _ Hl) as [Hb|Hb]; unfold cur_frame in Hb; cbn in Hb;
        [by destruct Hl as [_ [Hl _]%Forall_cons]; congruence|]. rewrite Hb.
      eapply tr_then; [by apply tr_mark_top|done|intros _]. rewrite Hmt, (live_marks commit_mark _ t (f :: l) Hl eq_refl).
      apply (tr_upd_top _ (fset_chain chain)); [done|]. apply tr_ret. cbn [fst snd]. split.
      * apply (end_all_commit chain t (f :: l)); auto.
      * intros _. apply (end_all_commit chain t (f :: l) Hw Hl TBLOCK_PREPARE). by right.
  - unfold cur_frame. cbn [fst snd]. rewrite Ht in *. apply tr_then_set_block.
    apply (tr_upd_current _ (fset_chain chain)); [done|]. apply tr_ret. split; [|done].
    apply commanded_top; try done. apply Hw. by left.
  - unfold cur_frame. cbn [fst snd]. rewrite Hf.
    apply (abort_all_safe _ chain t (f :: l) (Failed (f_name <$> f :: l))); [done| |by left|].
    + split; [by left; apply Hl|]. constructor; [by right|]. exact (proj2 (live_rollback _ _ Hl)).
    + intros v Hv Hb. apply tr_ret. by split.
Qed.

Lemma UserAbortTransactionBlock_safe chain v σ :
  active v -> active_case v σ ->
  triple (UserAbortTransactionBlock chain) v (fun _ => commanded (spec_transaction (TRANS_STMT_ROLLBACK chain) σ) σ) (fails v).
Proof.
  intros Hv Hc. pose proof (active_error _ _ Hc) as Hwo. destruct Hv as [Hw _]. unfold UserAbortTransactionBlock.
  apply tr_block, tr_depth.
  assert (Hat : agree v.1) by (destruct v; by eapply wf_agree_top). unfold agree in Hat.
  assert (Hbase : base v.1) by apply Hw.
  destruct Hc as [t Ht|t Ht|t l Hl|t Ht|t f l Hf Hl]; cbn [fst snd] in *.
  1,2: unfold cur_frame; cbn [fst snd]; rewrite Ht in *; destruct chain; [apply tr_bind; by apply raise_fails|];
    apply tr_bind, tr_modify with (f' := id); [intros s; exact (view_call _ s)|]; apply tr_then_set_block;
    apply tr_last, (tr_upd_current _ (fset_chain false)); [done|]; apply tr_ret; by apply commanded_top.
  - destruct l as [|f l].
    + unfold cur_frame. cbn [fst snd]. destruct Hl as [Ht _]. rewrite Ht in *. apply tr_then_set_block.
      apply tr_last, (tr_upd_current _ (fset_chain chain)); [done|]. apply tr_ret. apply commanded_top; try done. by left.
    + unfold cur_frame. cbn [fst snd]. pose proof Hl as [_ [Hf _]%Forall_cons]. rewrite Hf.
      apply tr_last_bind, (abort_all_safe _ chain t (f :: l) (InBlock (f_name <$> f :: l))); [done| |by left|].
      * by apply live_rollback.
      * intros v Hv _. by apply tr_ret.
  - unfold cur_frame. cbn [fst snd]. rewrite Ht in *. apply tr_then_set_block.
    apply tr_last, (tr_upd_current _ (fset_chain chain)); [done|]. apply tr_ret. apply commanded_top; try done. by left.
  - unfold cur_frame. cbn [fst snd]. rewrite Hf.
    apply tr_last_bind, (abort_all_safe _ chain t (f :: l) (Failed (f_name <$> f :: l))); [done| |by left|].
    + split; [by left; apply Hl|]. constructor; [by right|]. exact (proj2 (live_rollback _ _ Hl)).
    + intros v Hv _. by apply tr_ret.
Qed.

Lemma PrepareTransactionBlock_safe gid v σ :
  active v -> active_case v σ ->
  triple (PrepareTransactionBlock gid) v (fun _ => commanded (Some Idle) σ) (fails v).
Proof.
  intros Hv Hc. unfold PrepareTransactionBlock. apply tr_bind.
  eapply tr_mono; [by apply EndTransactionBlock_safe| |done]. intros r w [Hcm Hpr].
  assert (Hcm' : commanded (Some Idle) σ w) by (by destruct σ).
  destruct r; [|by apply tr_ret]. apply tr_let_get. intros s Hs.
  destruct (bool_decide_reflect (blockState (TopTransactionStateData s) = TBLOCK_END)) as [Hb|Hb]; [|by apply tr_ret].
  apply tr_upd_glob. apply (tr_upd_top _ (fset_block TBLOCK_PREPARE)); [done|]. apply tr_ret, Hpr.
  rewrite <- Hs. exact Hb.
Qed.

(** *** Savepoints *)

Lemma find_savepoint_frames n (l : list TransactionStateData) t :
  name t = None -> find_savepoint n (l ++ [t]) = find_name n (f_name <$> (frame <$> l)).
Proof.
  intros Ht. induction l as [|x l IH]; cbn [find_savepoint app fmap list_fmap find_name].
  - rewrite Ht. by case_bool_decide.
  - by rewrite IH.
Qed.

Lemma find_name_split n (l : list Frame) i :
  find_name n (f_name <$> l) = Some i -> exists l1 x l2, l = l1 ++ x :: l2 /\ length l1 = i /\ f_name x = Some n.
Proof.
  revert i. induction l as [|x l IH]; intros i; [done|]. cbn [fmap list_fmap find_name]. case_bool_decide as Hx.
  - intros [= <-]. by exists [], x, l.
  - destruct (find_name n (f_name <$> l)) as [j|] eqn:Hj; [|done]. intros [= <-].
    destruct (IH j eq_refl) as (l1 & y & l2 & -> & <- & Hy). by exists (x :: l1), y, l2.
Qed.

Lemma savepoint_target_safe n t l :
  wf (t, l) ->
  triple (savepoint_target n) (t, l)
    (fun i v => v = (t, l) /\ find_name n (f_name <$> l) = Some i) (fails (t, l)).
Proof.
  intros Hw. unfold savepoint_target. apply tr_let_get. intros s Hs. apply tr_let_get. intros s' _.
  assert (Hf : find_savepoint n (state_stack s) = find_name n (f_name <$> l)).
  { unfold state_stack. injection Hs as Ht <-. apply find_savepoint_frames.
    change (f_name (frame (TopTransactionStateData s)) = None). rewrite Ht. apply Hw. }
  rewrite Hf. destruct (find_name n (f_name <$> l)) as [i|]; [|by apply raise_fails].
  destruct (state_stack s !! i) as [x|]; [|by apply raise_fails].
  destruct (savepointLevel x != _); [by apply raise_fails|by apply tr_ret].
Qed.

Lemma live_app t l1 l2 : live t (l1 ++ l2) -> live t l2 /\ Forall (fun f => f_block f = TBLOCK_SUBINPROGRESS) l1.
Proof. intros [Ht Hl]. apply Forall_app in Hl as [Hl1 Hl2]. by split. Qed.

Lemma live_error t l : live t l -> error_session t l = Failed (f_name <$> l).
Proof.
  intros [Ht Hl]. destruct l as [|f l]; simpl; [by rewrite Ht|]. apply Forall_cons in Hl as [-> _]. done.
Qed.

(** RELEASE marks the levels down to the savepoint. *)
Lemma release_stack t m l :
  live t l -> let l' := (fset_block TBLOCK_SUBRELEASE <$> m) ++ l in
  releasing t l' /\ session_of t l' = InBlock (f_name <$> l) /\ error_session t l' = Failed (f_name <$> l).
Proof.
  intros Hl. induction m as [|x m (IH1 & IH2 & IH3)]; simpl in *.
  - pose proof (live_error _ _ Hl) as He. destruct Hl as [Ht Hl]. destruct l as [|f l]; simpl in *.
    + rewrite Ht. by repeat split.
    + pose proof Hl as [Hf _]%Forall_cons. rewrite Hf in *. by split; [left|].
  - split; [by right|done].
Qed.

Lemma release_commanded t m l :
  m <> [] -> wf (t, m ++ l) -> live t (m ++ l) ->
  commanded (Some (InBlock (f_name <$> l))) (InBlock (f_name <$> m ++ l)) (t, (fset_block TBLOCK_SUBRELEASE <$> m) ++ l).
Proof.
  intros Hm (Hp & Ha & Hbase) Hl. destruct (live_app _ _ _ Hl) as [Hl2 Hl1].
  apply Forall_cons in Ha as [Hat [Ham Hal]%Forall_app].
  destruct (release_stack t m l Hl2) as (Hr & Hs & He). split; [|split].
  - split; [|by destruct m]. split; [by apply releasing_pending|]. split; [|done].
    constructor; [done|]. apply Forall_app. split; [|done]. by apply agree_marks.
  - by rewrite <- Hs.
  - right. exists (f_name <$> l). split; [done|]. rewrite fmap_app. by eexists.
Qed.

(** ROLLBACK TO aborts the levels above the savepoint and restarts it. *)
Lemma rollback_to_stack t m l f :
  live t l -> f_block f = TBLOCK_SUBRESTART \/ f_block f = TBLOCK_SUBABORT_RESTART ->
  Forall (fun f => f_block f = TBLOCK_SUBABORT_PENDING \/ f_block f = TBLOCK_SUBABORT_END) m ->
  let l' := m ++ f :: l in
  aborting t l' /\ session_of t l' = InBlock (f_name <$> f :: l) /\ error_session t l' = Failed (f_name <$> l).
Proof.
  intros Hl Hf Hm. pose proof (live_error _ _ Hl) as He. induction Hm as [|x m Hx Hm (IH1 & IH2 & IH3)]; simpl in *.
  - by destruct Hf as [-> | ->].
  - by destruct Hx as [-> | ->].
Qed.

Lemma rollback_to_commanded t m x l σ :
  wf (t, m ++ x :: l) -> live t l ->
  Forall (fun f => f_block f = TBLOCK_SUBINPROGRESS \/ f_block f = TBLOCK_SUBABORT) (m ++ [x]) ->
  worse σ (Failed (f_name <$> l)) ->
  commanded (Some (InBlock (f_name <$> x :: l))) σ (t, (fmark abort_mark <$> m) ++ fmark restart_mark x :: l).
Proof.
  intros (Hp & Ha & Hbase) Hl [Hm [Hx _]%Forall_cons]%Forall_app Hwo.
  apply Forall_cons in Ha as [Hat [Ham [Hax Hal]%Forall_cons]%Forall_app].
  assert (Hall : Forall (fun f => agree f /\
            (f_block f = TBLOCK_SUBABORT_PENDING \/ f_block f = TBLOCK_SUBABORT_END)) (fmark abort_mark <$> m)).
  { apply Forall_fmap. rewrite Forall_forall in Ham, Hm |- *. intros y Hy. apply fmark_abort_agree; auto. }
  apply Forall_and in Hall as [Hag Hbl].
  assert (Hre : agree (fmark restart_mark x) /\ f_name (fmark restart_mark x) = f_name x /\
    (f_block (fmark restart_mark x) = TBLOCK_SUBRESTART \/ f_block (fmark restart_mark x) = TBLOCK_SUBABORT_RESTART)).
  { unfold agree, fmark in *. destruct Hx as [Hx|Hx]; rewrite Hx in *; simpl; auto. }
  destruct Hre as (Hrea & Hren & Hreb). cbn [fmap list_fmap]. rewrite <- Hren.
  destruct (rollback_to_stack t _ l _ Hl Hreb Hbl) as (Hab & Hs & He). cbn [fst snd]. split; [|split].
  - split.
    + split; [by apply aborting_pending|]. split; [|done]. constructor; [done|]. apply Forall_app. split; [done|by constructor].
    + unfold cur_frame. cbn [snd]. destruct (fmark abort_mark <$> m) as [|y m']; simpl.
      * by destruct Hreb as [-> | ->].
      * apply Forall_cons in Hbl as [[-> | ->] _]; done.
  - exact (f_equal Some (eq_sym Hs)).
  - by rewrite <- He in Hwo.
Qed.

Lemma current_block_shape (s : XactState CommitTs) v : shape s = v -> current_block s = f_block (cur_frame v).
Proof. intros <-. unfold current_block. by rewrite <- shape_current. Qed.

Lemma IsTransactionBlock_case (s : XactState CommitTs) v σ :
  shape s = v -> active_case v σ -> IsTransactionBlock s = negb (match σ with Idle => true | _ => false end).
Proof.
  intros Hs Hc. unfold IsTransactionBlock. rewrite (current_block_shape _ _ Hs).
  destruct Hc as [t Ht|t Ht|t l Hl|t Ht|t f l Hf Hl].
  3: by destruct (live_block _ _ Hl) as [-> | ->].
  all: unfold cur_frame; simpl; by rewrite ?Ht, ?Hf.
Qed.

Lemma IsSubTransaction_top (s : XactState CommitTs) t : shape s = (t, []) -> base t -> IsSubTransaction s = false.
Proof.
  intros Hs [Hn _]. unfold IsSubTransaction. pose proof (shape_current s) as Hc. rewrite Hs in Hc.
  apply (f_equal f_nest) in Hc. change (nestingLevel (CurrentTransactionState s) = f_nest t) in Hc.
  rewrite Hc. apply Z.leb_gt. lia.
Qed.

Lemma RequireTransactionBlock_safe v σ :
  active v -> active_case v σ ->
  triple (RequireTransactionBlock true) v (fun _ w => w = v /\ σ <> Idle) (fails v).
Proof.
  intros [Hw _] Hc. unfold RequireTransactionBlock, CheckTransactionBlock.
  apply tr_let_get. intros s Hs. apply tr_let_get. intros s' Hs'. rewrite (IsTransactionBlock_case _ _ _ Hs Hc).
  destruct Hc as [t Ht|t Ht|t l Hl|t Ht|t f l Hf Hl]; cbn [negb]; try (by apply tr_ret).
  rewrite (IsSubTransaction_top _ _ Hs') by apply Hw. by apply raise_fails.
Qed.

Lemma SavepointStmt_safe n v σ :
  active v -> active_case v σ -> (forall l, σ <> Failed l) ->
  triple (RequireTransactionBlock true;; DefineSavepoint (Some n)) v
    (fun _ => commanded (spec_transaction (TRANS_STMT_SAVEPOINT n) σ) σ) (fails v).
Proof.
  intros Hv Hc Hnf. apply tr_bind. eapply tr_mono; [by apply RequireTransactionBlock_safe| |done].
  intros _ w [-> Hni]. destruct Hv as [Hw _]. pose proof (active_error _ _ Hc) as Hwo.
  destruct Hc as [t Ht|t Ht|t l Hl|t Ht|t f l Hf Hl]; try done; try (exfalso; by eapply Hnf).
  - unfold DefineSavepoint. apply tr_let_get. intros s _. destruct (IsInParallelMode s); [by apply raise_fails|].
    apply tr_block. unfold cur_frame. cbn [fst snd]. rewrite Ht. by apply raise_fails.
  - eapply tr_mono; [by apply DefineSavepoint_safe| |done]. intros _ w ->. split; [|split].
    + split; [by apply new_frame_wf|done].
    + done.
    + exact Hwo.
Qed.

Lemma take_drop_find n (l : list Frame) i :
  find_name n (f_name <$> l) = Some i ->
  exists m x l2, l = m ++ x :: l2 /\ length m = i /\ drop i (f_name <$> l) = f_name <$> x :: l2 /\
               drop (S i) (f_name <$> l) = f_name <$> l2.
Proof.
  intros H. destruct (find_name_split _ _ _ H) as (m & x & l2 & -> & <- & _). exists m, x, l2.
  repeat split; rewrite fmap_app, ?fmap_cons.
  - by rewrite drop_app_length' by (by rewrite length_fmap).
  - rewrite <- (length_fmap f_name m). induction (f_name <$> m); [done|assumption].
Qed.

Lemma ReleaseStmt_safe n v σ :
  active v -> active_case v σ -> (forall l, σ <> Failed l) ->
  triple (RequireTransactionBlock true;; ReleaseSavepoint n) v
    (fun _ => commanded (spec_transaction (TRANS_STMT_RELEASE n) σ) σ) (fails v).
Proof.
  intros Hv Hc Hnf. apply tr_bind. eapply tr_mono; [by apply RequireTransactionBlock_safe| |done].
  intros _ w [-> Hni]. destruct Hv as [Hw _]. unfold ReleaseSavepoint.
  apply tr_let_get. intros s _. destruct (IsInParallelMode s); [by apply raise_fails|]. apply tr_block.
  destruct Hc as [t Ht|t Ht|t l Hl|t Ht|t f l Hf Hl]; try done; try (exfalso; by eapply Hnf).
  - unfold cur_frame. cbn [fst snd]. rewrite Ht. by apply raise_fails.
  - destruct (live_block _ _ Hl) as [-> | ->]; [by apply raise_fails|].
    apply tr_bind. eapply tr_mono; [by apply savepoint_target_safe| |done]. intros i w [-> Hf].
    destruct (take_drop_find _ _ _ Hf) as (m & x & l2 & -> & <- & _ & Hd).
    eapply tr_mono; [apply tr_mark_sub; [apply Forall_forall; by eexists|by eexists]| |done]. intros _ w ->.
    cbn [spec_transaction]. rewrite Hf. cbn [mbind option_bind]. rewrite Hd.
    assert ((fmark release_mark <$> m) ++ fmark release_mark x :: l2 = (fset_block TBLOCK_SUBRELEASE <$> (m ++ [x])) ++ l2)
      as -> by (by rewrite fmap_app, <- app_assoc).
    rewrite cons_middle, app_assoc in Hw, Hl |- *. apply release_commanded; [by destruct m|done|done].
Qed.

Lemma RollbackToStmt_safe n v σ :
  active v -> active_case v σ ->
  triple (RequireTransactionBlock true;; RollbackToSavepoint n) v
    (fun _ => commanded (spec_transaction (TRANS_STMT_ROLLBACK_TO n) σ) σ) (fails v).
Proof.
  intros Hv Hc. apply tr_bind. eapply tr_mono; [by apply RequireTransactionBlock_safe| |done].
  intros _ w [-> Hni]. destruct Hv as [Hw _]. unfold RollbackToSavepoint.
  apply tr_let_get. intros s _. destruct (IsInParallelMode s); [by apply raise_fails|]. apply tr_block.
  assert (Hgo : forall t l σ, wf (t, l) -> σ = InBlock (f_name <$> l) \/ σ = Failed (f_name <$> l) ->
    Forall (fun f => f_block f = TBLOCK_SUBINPROGRESS \/ f_block f = TBLOCK_SUBABORT) l ->
    (forall m x l2, l = m ++ x :: l2 -> live t l2) ->
    triple (let* i := savepoint_target n in mark_stack abort_mark restart_mark i "RollbackToSavepoint: unexpected state")
      (t, l) (fun _ => commanded (spec_transaction (TRANS_STMT_ROLLBACK_TO n) σ) σ) (fails (t, l))).
  { clear v σ Hc Hni Hw. intros t l σ Hw Hσ Hl Hlive. apply tr_bind.
    eapply tr_mono; [by apply savepoint_target_safe| |done]. intros i w [-> Hf].
    destruct (take_drop_find _ _ _ Hf) as (m & x & l2 & -> & <- & Hd & _).
    pose proof Hl as [Hm [Hx _]%Forall_cons]%Forall_app.
    eapply tr_mono; [apply tr_mark_sub| |done].
    - eapply Forall_impl; [exact Hm|]. intros y [-> | ->]; by eexists.
    - destruct Hx as [-> | ->]; by eexists.
    - intros _ w ->. assert (Hsp : spec_transaction (TRANS_STMT_ROLLBACK_TO n) σ = Some (InBlock (f_name <$> x :: l2))).
      { destruct Hσ as [-> | ->]; cbn [spec_transaction]; rewrite Hf; cbn [mbind option_bind]; by rewrite Hd. }
      rewrite Hsp. apply rollback_to_commanded; [done|by eapply Hlive|apply Forall_app; auto|].
      assert (Hsuf : f_name <$> l2 `suffix_of` f_name <$> m ++ x :: l2).
      { rewrite fmap_app, fmap_cons, cons_middle, app_assoc. by eexists. }
      destruct Hσ as [-> | ->]; right; by eexists. }
  destruct Hc as [t Ht|t Ht|t l Hl|t Ht|t f l Hf Hl]; try done.
  - unfold cur_frame. cbn [fst snd]. rewrite Ht. by apply raise_fails.
  - destruct (live_block _ _ Hl) as [-> | ->]; [by apply raise_fails|].
    apply Hgo; [done|by left|exact (proj2 (live_rollback _ _ Hl))|].
    intros m x l2 ->. rewrite cons_middle, app_assoc in Hl. by apply live_app in Hl as [Hl _].
  - unfold cur_frame. cbn [fst snd]. rewrite Ht. by apply raise_fails.
  - unfold cur_frame. cbn [fst snd]. rewrite Hf.
    apply Hgo; [done|by right| |].
    + constructor; [by right|]. exact (proj2 (live_rollback _ _ Hl)).
    + intros [|y m] x l2 [= -> ->]; [done|]. rewrite cons_middle, app_assoc in Hl. by apply live_app in Hl as [Hl _].
Qed.

Lemma PreventStmt_safe (m : X unit) v σ :
  active v -> active_case v σ -> quiet shape m ->
  triple (PreventInTransactionBlock true;; m) v
    (fun _ => commanded (match σ with Idle => Some Idle | _ => None end) σ) (fails v).
Proof.
  intros Hv Hc Hm. pose proof (active_error _ _ Hc) as Hwo. pose proof (ready_active _ Hv) as Hr. destruct Hv as [Hw _].
  unfold PreventInTransactionBlock. apply tr_assoc. apply tr_let_get. intros s Hs.
  apply tr_assoc, tr_let_get. intros s' Hs'. apply tr_assoc, tr_let_get. intros s'' _. apply tr_assoc, tr_block.
  rewrite (IsTransactionBlock_case _ _ _ Hs Hc).
  destruct Hc as [t Ht|t Ht|t l Hl|t Ht|t f l Hf Hl]; cbn [negb]; try (apply tr_bind; by apply raise_fails).
  rewrite (IsSubTransaction_top _ _ Hs') by apply Hw.
  destruct (has_flag _ _); [apply tr_bind; by apply raise_fails|].
  unfold cur_frame. cbn [fst snd]. rewrite Ht. apply tr_upd_glob.
  apply tr_quiet; [done|intros r Hr'; by apply fails_wf|]. intros _. split; [done|]. split; [simpl; by rewrite Ht|done].
Qed.

End Statements.

(** ** Messages *)

Section Messages.
Context {CommitTs Query : Type} (b : Backend CommitTs Query) `{!BackendLaws b}.
Abbreviation X := (@X CommitTs).
Abbreviation triple := (triple (@shape CommitTs)).

Lemma quiet_check_read_only k : quiet shape (check_read_only b k).
Proof. unfold check_read_only. quiet_tac. Qed.

Lemma standard_ProcessUtility_safe k v σ :
  active v -> active_case v σ -> IsTransactionExitStmt (@TransactionStmt Query k) = true \/ (forall l, σ <> Failed l) ->
  triple (standard_ProcessUtility b k) v (fun _ => commanded (spec_transaction k σ) σ) (fails v).
Proof.
  intros Hv Hc Hex. assert (Hw : wf v) by apply Hv.
  unfold standard_ProcessUtility. apply tr_seq_quiet; [apply quiet_check_read_only|intros; by apply fails_wf|intros _].
  assert (Hnf : IsTransactionExitStmt (@TransactionStmt Query k) = false -> forall l, σ <> Failed l).
  { intros Hne. destruct Hex as [Hex|Hex]; [congruence|done]. }
  assert (Hbegin : IsTransactionExitStmt (@TransactionStmt Query k) = false ->
    triple (BeginTransactionBlock;; SetPGVariables b) v
      (fun _ => commanded (spec_transaction TRANS_STMT_BEGIN σ) σ) (fails v)).
  { intros Hne. apply tr_bind. eapply tr_mono; [by apply BeginTransactionBlock_safe; auto| |done].
    intros ? w [Hcm He]. apply tr_quiet; [apply set_quiet| |done]. intros r Hr.
    split; [done|]. split; [apply wf_hurt, Hcm|exact He]. }
  destruct k as [| |chain|chain|n|n|n|gid|gid|gid].
  - by apply Hbegin.
  - by apply Hbegin.
  - apply tr_bind. eapply tr_mono; [by apply EndTransactionBlock_safe| |done]. intros r w [Hw' _]. by apply tr_ret.
  - by apply UserAbortTransactionBlock_safe.
  - apply SavepointStmt_safe; auto.
  - apply ReleaseStmt_safe; auto.
  - by apply RollbackToStmt_safe.
  - apply tr_bind. eapply tr_mono; [by apply PrepareTransactionBlock_safe| |done]. intros r w Hw'. apply tr_ret. by destruct σ.
  - apply PreventStmt_safe; [done|done|apply finish_prepared_quiet].
  - apply PreventStmt_safe; [done|done|apply finish_prepared_quiet].
Qed.

(** Between the statements of a message. *)
Definition between (xact_started : bool) (v : Shape) : Prop := if xact_started then active v else settled v.

(** The same session, as it continues and as it fails. *)
Definition same_session (v w : Shape) : Prop :=
  session_of v.1 v.2 = session_of w.1 w.2 /\ error_session v.1 v.2 = error_session w.1 w.2.

Lemma settled_active v : settled v -> f_block (cur_frame v) <> TBLOCK_DEFAULT -> active v.
Proof.
  intros [Hw Hi] Hd. split; [done|]. unfold in_blocks in *. apply bool_decide_eq_true in Hi. apply bool_decide_eq_true.
  rewrite !elem_of_cons in *. tauto.
Qed.

Lemma StartTransactionCommand_safe v :
  settled v -> triple StartTransactionCommand v (fun _ w => active w /\ same_session w v) (fails v).
Proof.
  intros Hs. unfold StartTransactionCommand. apply tr_block.
  destruct (decide (f_block (cur_frame v) = TBLOCK_DEFAULT)) as [Hd|Hd].
  - rewrite Hd. destruct v as [t l]. destruct (wf_default t l (proj1 Hs) Hd) as (t' & [= <- ->] & Hb & _ & Hbase).
    eapply tr_then; [apply StartTransaction_shape| |intros _].
    + intros r w [Hr ->]. split; [done|]. split; [|done]. apply hurt_default; [|done]. split; [simpl; lia|apply Hbase].
    + apply tr_set_block. split; [|unfold same_session; simpl; by rewrite Hb]. split; [|done].
      apply wf_top; [done|done|]. split; [simpl; lia|apply Hbase].
  - assert (Ha := settled_active _ Hs Hd).
    assert (Hret : triple (ret tt) v (fun _ w => active w /\ same_session w v) (fails v)) by (by apply tr_ret).
    destruct Hs as [Hw Hi]. unfold in_blocks in Hi. apply bool_decide_eq_true in Hi.
    destruct (f_block (cur_frame v)); try done; exfalso; clear -Hi; set_solver.
Qed.

Lemma start_xact_command_safe started v :
  between started v -> triple (start_xact_command started) v (fun x w => x = true /\ active w /\ same_session w v) (fails v).
Proof.
  intros Hb. unfold start_xact_command. destruct started; cbn [negb when].
  - apply tr_bind, tr_ret, tr_ret. by split.
  - apply tr_bind. eapply tr_mono; [by apply StartTransactionCommand_safe| |done]. intros ? w Hw. by apply tr_ret.
Qed.

(** Before a statement of several, [BeginImplicitTransactionBlock]. *)
Lemma begin_implicit_safe multi v E :
  active v ->
  triple (when multi BeginImplicitTransactionBlock) v
    (fun _ w => active w /\ session_of w.1 w.2 = enter multi (session_of v.1 v.2) /\
                error_session w.1 w.2 = error_session v.1 v.2) E.
Proof.
  intros Hv. pose proof (active_inv _ Hv) as Hc. destruct multi; cbn [when]; cycle 1.
  { apply tr_ret. repeat split; try apply Hv. by destruct (session_of v.1 v.2). }
  unfold BeginImplicitTransactionBlock. apply tr_block.
  destruct (bool_decide_reflect (f_block (cur_frame v) = TBLOCK_STARTED)) as [Hs|Hs]; cbn [when].
  - apply tr_set_block. destruct v as [t l]. pose proof Hv as [(Hp & Ha & Hbase) _]. unfold cur_frame in Hs.
    destruct l as [|f l]; simpl in *; [|by rewrite Hs in Hp]. rewrite Hs in *. split; [|done]. split; [|done].
    apply Forall_cons in Ha as [Ha _]. unfold agree in Ha. rewrite Hs in Ha. by apply wf_top.
  - apply tr_ret. split; [done|]. split; [|done].
    destruct Hc as [t Ht|t Ht|t l Hl|t Ht|t f l Hf Hl]; try done.
Qed.

Lemma pending_implicit t l :
  pending t l -> session_of t l = Implicit -> l = [] /\ f_block t = TBLOCK_IMPLICIT_INPROGRESS.
Proof.
  induction l as [|f l IH]; intros Hp Hs; simpl in *.
  - split; [done|]. destruct (f_block t); try done; by destruct (f_chain t).
  - exfalso. pose proof (below_pending _ _ _ Hp) as Hp'. destruct (f_block f); try done;
      destruct (IH Hp' Hs) as [-> Ht]; simpl in Hp; unfold live, committing in Hp; rewrite Ht in Hp; naive_solver.
Qed.

Lemma end_implicit_safe v E :
  ready v ->
  triple EndImplicitTransactionBlock v
    (fun _ w => ready w /\ session_of w.1 w.2 = leave (session_of v.1 v.2) /\
                error_session w.1 w.2 = error_session v.1 v.2) E.
Proof.
  intros [Hw Hd]. unfold EndImplicitTransactionBlock. apply tr_block.
  destruct (bool_decide_reflect (f_block (cur_frame v) = TBLOCK_IMPLICIT_INPROGRESS)) as [Hs|Hs]; cbn [when].
  - apply tr_set_block. destruct v as [t l]. pose proof Hw as (Hp & Ha & Hbase). unfold cur_frame in Hs.
    destruct l as [|f l]; simpl in *; [|by rewrite Hs in Hp]. rewrite Hs in *. split; [|done]. split; [|done].
    apply Forall_cons in Ha as [Ha _]. unfold agree in Ha. rewrite Hs in Ha. by apply wf_top.
  - apply tr_ret. split; [done|]. split; [|done].
    assert (Hni : session_of v.1 v.2 <> Implicit); [|by destruct (session_of v.1 v.2)].
    intros Hi. destruct v as [t l]. destruct (pending_implicit t l (proj1 Hw) Hi) as [-> Ht]. by apply Hs.
Qed.

Lemma finish_xact_command_safe v :
  ready v ->
  triple (finish_xact_command true) v
    (fun x w => x = false /\ settled_as (session_of v.1 v.2) w) (fails v).
Proof.
  intros [Hw Hd]. unfold finish_xact_command. cbn [when]. apply tr_bind.
  eapply tr_mono; [by apply CommitTransactionCommand_safe| |done]. intros ? w Hs. by apply tr_ret.
Qed.

Lemma aborted_case (s : XactState CommitTs) v σ :
  shape s = v -> active_case v σ \/ (settled v /\ session_of v.1 v.2 = σ) ->
  IsAbortedTransactionBlockState s = match σ with Failed _ => true | _ => false end.
Proof.
  intros Hs Hc. unfold IsAbortedTransactionBlockState. change (blockState (CurrentTransactionState s)) with (current_block s).
  rewrite (current_block_shape _ _ Hs). destruct Hc as [Hc|[Hset <-]].
  - destruct Hc as [t Ht|t Ht|t l Hl|t Ht|t f l Hf Hl].
    3: by destruct (live_block _ _ Hl) as [-> | ->].
    all: unfold cur_frame; simpl; by rewrite ?Ht, ?Hf.
  - destruct (decide (f_block (cur_frame v) = TBLOCK_DEFAULT)) as [Hd|Hd].
    + destruct v as [t l]. destruct (wf_default t l (proj1 Hset) Hd) as (t' & [= <- ->] & Hb & _).
      unfold cur_frame. simpl. by rewrite Hb.
    + destruct (active_inv _ (settled_active _ Hset Hd)) as [t Ht|t Ht|t l Hl|t Ht|t f l Hf Hl].
      3: by destruct (live_block _ _ Hl) as [-> | ->].
      all: unfold cur_frame; simpl; by rewrite ?Ht, ?Hf.
Qed.

Lemma between_aborted (s : XactState CommitTs) started v :
  shape s = v -> between started v ->
  IsAbortedTransactionBlockState s = match session_of v.1 v.2 with Failed _ => true | _ => false end.
Proof.
  intros Hs Hb. apply (aborted_case s v); [done|]. destruct started; [left; by apply active_inv|by right].
Qed.

Lemma between_wf started v : between started v -> wf v.
Proof. destruct started; by intros [? _]. Qed.

Lemma settled_failed v : settled v -> error_session v.1 v.2 = failed (session_of v.1 v.2).
Proof.
  intros Hs. destruct (decide (f_block (cur_frame v) = TBLOCK_DEFAULT)) as [Hd|Hd].
  - destruct v as [t l]. destruct (wf_default t l (proj1 Hs) Hd) as (t' & [= <- ->] & Hb & _). simpl. by rewrite Hb.
  - by apply active_failed, active_inv, settled_active.
Qed.

Lemma between_failed started v : between started v -> error_session v.1 v.2 = failed (session_of v.1 v.2).
Proof. destruct started; intros H; [by apply active_failed, active_inv|by apply settled_failed]. Qed.

Lemma failed_enter multi σ : failed (enter multi σ) = failed σ.
Proof. by destruct σ, multi. Qed.

Lemma exec_statement_safe st v :
  active v -> (IsTransactionExitStmt st = true \/ forall l, session_of v.1 v.2 <> Failed l) ->
  let σ := session_of v.1 v.2 in
  triple (exec_statement b st) v
    (fun _ w => commanded (spec_stmt st σ) σ w /\ match st with OtherStmt _ => w = v | TransactionStmt _ => True end)
    (fails v).
Proof.
  intros Hv Hex σ. pose proof (active_inv _ Hv) as Hc. fold σ in Hex, Hc. unfold exec_statement.
  apply tr_seq_quiet; [apply plan_quiet|intros; apply fails_wf; [apply Hv|done]|intros _].
  destruct st as [k|q].
  - eapply tr_mono; [by apply standard_ProcessUtility_safe|done|done].
  - apply tr_quiet; [apply run_quiet|intros; apply fails_wf; [apply Hv|done]|intros _]. split; [|done].
    destruct Hex as [Hex|Hex]; [done|]. split; [by apply ready_active|]. split; [|by apply active_error].
    cbn [spec_stmt]. fold σ. destruct σ; try done. by edestruct Hex.
Qed.

(** The outcome of a failed statement. *)
Definition stmt_fails (st : Stmt Query) (σ : Session) (r : XactErr) (v : Shape) : Prop :=
  contained r /\ hurt v /\ may_fail_as st σ (error_session v.1 v.2).

Lemma fails_stmt st σ v r w : error_session v.1 v.2 = failed σ -> fails v r w -> stmt_fails st σ r w.
Proof. intros Hv (Hr & Hh & He). split; [done|]. split; [done|]. rewrite He, Hv. apply may_fail_failed. Qed.

(** The end of a statement, for one that leaves the stack as [commanded]. *)
Lemma end_statement_safe (last multi : bool) (st : Stmt Query) v σ :
  ready v -> session_of v.1 v.2 = σ -> (last = false -> match st with OtherStmt _ => active v | _ => True end) ->
  forall E : XactErr -> Shape -> Prop,
  (forall r w, contained r -> hurt w -> error_session w.1 w.2 = error_session v.1 v.2 -> E r w) ->
  triple (if last then when multi EndImplicitTransactionBlock;; finish_xact_command true
          else match st with
               | TransactionStmt _ => finish_xact_command true
               | OtherStmt _ => CommandCounterIncrement;; ret true
               end) v
    (fun x w => between x w /\ session_of w.1 w.2 = (if last && multi then leave σ else σ) /\ (last = true -> x = false)) E.
Proof.
  intros Hr Hs Hact E HE.
  assert (Hfin : forall v', ready v' -> error_session v'.1 v'.2 = error_session v.1 v.2 -> forall σ', session_of v'.1 v'.2 = σ' ->
    triple (finish_xact_command true) v'
      (fun x w => between x w /\ session_of w.1 w.2 = σ' /\ (last = true -> x = false)) E).
  { intros v' Hr' He' σ' <-. eapply tr_mono; [by apply finish_xact_command_safe| |].
    - intros x w [-> [Hset Hw]]. by split.
    - intros r w (Hc & Hh & He). apply HE; [done|done|congruence]. }
  destruct last.
  - destruct multi; cbn [when andb].
    + apply tr_bind. eapply tr_mono; [by apply end_implicit_safe| |intros r w Hw; exact Hw].
      intros ? w (Hr' & Hs' & He'). apply Hfin; [done|done|congruence].
    + apply tr_bind, tr_ret. by apply Hfin.
  - destruct st as [k|q]; [by apply Hfin|].
    apply tr_seq_quiet; [quiet_tac| |intros _; apply tr_ret; split; [by apply Hact|done]].
    intros r Hrc. apply HE; [done|apply wf_hurt, Hr|done].
Qed.

Lemma exec_one_safe multi last st started v :
  between started v -> let σ := enter multi (session_of v.1 v.2) in
  triple (exec_one b multi last st started) v
    (fun x w => exists σ', spec_stmt st σ = Some σ' /\ between x w /\
       session_of w.1 w.2 = (if last && multi then leave σ' else σ') /\ (last = true -> x = false))
    (stmt_fails st σ).
Proof.
  intros Hb σ. pose proof (between_failed _ _ Hb) as Hfa. rewrite <- (failed_enter multi) in Hfa. fold σ in Hfa.
  unfold exec_one. apply tr_let_get. intros s Hs. rewrite (between_aborted _ _ _ Hs Hb).
  destruct (_ && _) eqn:Hguard.
  { apply tr_raise_contained; [done|done|]. intros r Hr. eapply fails_stmt; [exact Hfa|].
    apply fails_wf; [by eapply between_wf|done]. }
  apply tr_bind. eapply tr_mono; [by apply start_xact_command_safe| |intros r w; by apply fails_stmt].
  intros ? v1 (-> & Hv1 & [Hs1 He1]). apply tr_bind.
  eapply tr_mono; [by apply begin_implicit_safe| |intros r w Hw; exact Hw].
  intros ? v2 (Hv2 & Hs2 & He2). assert (Hs2' : session_of v2.1 v2.2 = σ) by (unfold σ; congruence).
  apply tr_bind. eapply tr_mono; [apply exec_statement_safe; [done|]| |].
  - rewrite Hs2'. unfold σ. clear -Hguard. destruct (IsTransactionExitStmt st); [by left|]. right.
    destruct (session_of v.1 v.2), multi; done.
  - intros ? w [(Hr & Hsp & Hwo) Heq]. rewrite Hs2' in *.
    assert (Hmf : may_fail_as st σ (error_session w.1 w.2)).
    { destruct st; [exact Hwo|]. subst w. cbn [may_fail_as]. rewrite He2, He1. exact Hfa. }
    eapply tr_mono; [apply (end_statement_safe last multi st w _ Hr eq_refl) with (E := stmt_fails st σ)| |done].
    + intros _. destruct st; [done|by subst w].
    + intros r w' Hrc Hh He. split; [done|]. split; [done|by rewrite He].
    + intros x w' Hw'. by eexists.
  - intros r w. apply fails_stmt. by rewrite He2, He1.
Qed.

(** Between messages. *)
Definition resting (v : Shape) : Prop := settled v /\ session_of v.1 v.2 <> Implicit.

Lemma spec_stmt_explicit (st : Stmt Query) σ σ' : spec_stmt st σ = Some σ' -> σ <> Implicit -> σ' <> Implicit.
Proof.
  intros Hs Hn ->. destruct st as [k|q]; [|by destruct σ; simplify_eq/=].
  destruct k as [| |chain|chain|n|n|n|gid|gid|gid], σ as [| |l|l]; simplify_eq/=;
    try (destruct chain); try (destruct (find_name n l)); by simplify_eq/=.
Qed.

Lemma spec_list_explicit multi (l : list (Stmt Query)) σ σ' : spec_list multi l σ = Some σ' -> σ' <> Implicit.
Proof.
  revert σ. induction l as [|st l IH]; intros σ; simpl; [intros [= <-]; by destruct σ|].
  destruct (spec_stmt st (enter multi σ)); [apply IH|done].
Qed.

(** The outcome of a failed message; for a single statement in detail. *)
Definition query_fails (l : list (Stmt Query)) (σ : Session) (r : XactErr) (v : Shape) : Prop :=
  contained r /\ hurt v /\ forall st, l = [st] -> may_fail_as st σ (error_session v.1 v.2).

Lemma exec_list_safe multi l : forall started v,
  between started v -> l <> [] -> multi = true \/ session_of v.1 v.2 <> Implicit ->
  triple (exec_list b multi l started) v
    (fun x w => x = false /\ settled w /\ spec_list multi l (session_of v.1 v.2) = Some (session_of w.1 w.2))
    (query_fails l (enter multi (session_of v.1 v.2))).
Proof.
  induction l as [|st l IH]; intros started v Hb Hl Hm; [done|]. cbn [exec_list]. apply tr_bind.
  eapply tr_mono; [by apply exec_one_safe| |].
  - intros x w (σ' & Hsp & Hbw & Hsw & Hx). cbn [spec_list]. rewrite Hsp. cbn [mbind option_bind].
    destruct l as [|st' l].
    + rewrite (Hx eq_refl) in *. apply tr_ret. split; [done|]. split; [done|]. simpl. rewrite Hsw. f_equal.
      destruct multi; [done|]. destruct Hm as [Hm|Hm]; [done|]. cbn [andb].
      pose proof (spec_stmt_explicit _ _ _ Hsp) as Hni. destruct (session_of v.1 v.2); simpl in *; destruct σ'; try done; by destruct Hni.
    + cbn [andb] in Hsw. eapply tr_mono; [apply IH; [done|done|]| |].
      * destruct multi; [by left|right]. destruct Hm as [Hm|Hm]; [done|]. rewrite Hsw.
        eapply spec_stmt_explicit; [exact Hsp|]. by destruct (session_of v.1 v.2).
      * rewrite Hsw. by intros y u Hu.
      * intros r u (Hr & Hh & _). by split.
  - intros r w (Hr & Hh & Hf). split; [done|]. split; [done|]. intros st' [= -> ->]. exact Hf.
Qed.

Lemma exec_simple_query_safe l v :
  resting v ->
  triple (exec_simple_query b l) v
    (fun _ w => resting w /\ spec_query l (session_of v.1 v.2) = Some (session_of w.1 w.2))
    (query_fails l (session_of v.1 v.2)).
Proof.
  intros [Hset Hni]. pose proof (settled_failed _ Hset) as Hfa.
  assert (Hfail : forall r w, fails v r w -> query_fails l (session_of v.1 v.2) r w).
  { intros r w Hw. destruct (Hw) as (Hr & Hh & He). split; [done|]. split; [done|]. intros st ->.
    rewrite He, Hfa. apply may_fail_failed. }
  unfold exec_simple_query. apply tr_bind.
  eapply tr_mono; [by apply (start_xact_command_safe false)| |done]. intros ? v1 (-> & Hv1 & [Hs1 He1]).
  apply tr_seq_quiet; [apply parse_quiet| |intros _].
  { intros r Hr. apply Hfail. split; [done|]. split; [apply wf_hurt, Hv1|done]. }
  destruct l as [|st l].
  - cbn [exec_list]. apply tr_bind, tr_ret, tr_bind.
    eapply tr_mono; [by apply finish_xact_command_safe, ready_active| |].
    + intros ? w [_ [Hw Hsw]]. apply tr_ret. rewrite Hsw, Hs1. split; [split; [done|congruence]|].
      unfold spec_query. simpl. by destruct (session_of v.1 v.2).
    + intros r w (Hr & Hh & He). apply Hfail. split; [done|]. split; [done|congruence].
  - apply tr_bind. eapply tr_mono; [apply exec_list_safe; [exact Hv1|done|right; congruence]| |].
    + intros x w (-> & Hw & Hsp). apply tr_bind, tr_bind, tr_ret, tr_ret, tr_ret. rewrite Hs1 in Hsp.
      split; [|exact Hsp]. split; [done|]. by eapply spec_list_explicit.
    + intros r w (Hr & Hh & Hf). split; [done|]. split; [done|]. intros st' Hst. specialize (Hf st' Hst).
      injection Hst as -> ->. rewrite Hs1 in Hf. by destruct (session_of v.1 v.2).
Qed.

Lemma recover_safe v :
  hurt v ->
  triple (recover b) v (fun _ w => resting w /\ session_of w.1 w.2 = error_session v.1 v.2) fail_hurt.
Proof.
  intros Hh. unfold recover. apply tr_bind.
  eapply tr_mono; [by apply AbortCurrentTransaction_safe| |apply fails_hurt].
  intros ? w [[Hw Hi] Hs]. assert (Hset : settled w).
  { split; [done|]. unfold in_blocks in *. apply bool_decide_eq_true in Hi. apply bool_decide_eq_true.
    rewrite !elem_of_cons in *. tauto. }
  apply tr_quiet; [apply cleanup_quiet|intros r Hr; split; [done|by apply wf_hurt]|].
  intros ?. split; [|done]. split; [done|]. rewrite Hs. clear. induction v.2 as [|f l IH]; simpl;
    [by destruct (f_block v.1)|by destruct (f_block f)].
Qed.

End Messages.

(** ** Sessions *)

Section Sessions.
Context {CommitTs Query : Type} (b : Backend CommitTs Query) `{!BackendLaws b}.

(** The session of a backend state. *)
Definition session (s : XactState CommitTs) : Session := session_of (shape s).1 (shape s).2.

Definition status_code (σ : Session) : string :=
  match σ with
  | Idle => "I"
  | Implicit | InBlock _ => "T"
  | Failed _ => "E"
  end.

Lemma reachable_shape s0 recovering s :
  idle (shape s0) -> reachable b s0 recovering s -> if recovering then hurt (shape s) else resting (shape s).
Proof.
  intros Hi Hr. induction Hr as [|e l s s' Hr IH Hq|e l s s' r Hr IH Hq|e s s' Hr IH Hq|e s s' r Hr IH Hq].
  - destruct (idle_settled _ Hi) as [Hs Hse]. split; [done|]. by rewrite Hse.
  - pose proof (exec_simple_query_safe b l _ IH e I s eq_refl) as H. rewrite Hq in H. apply H.
  - pose proof (exec_simple_query_safe b l _ IH e I s eq_refl) as H. rewrite Hq in H. apply H.
  - pose proof (recover_safe b _ IH e I s eq_refl) as H. rewrite Hq in H. apply H.
  - pose proof (recover_safe b _ IH e I s eq_refl) as H. rewrite Hq in H. apply H.
Qed.

Lemma resting_hurt v : resting v -> hurt v.
Proof. intros [[Hw _] _]. by apply wf_hurt. Qed.

Lemma reachable_hurt s0 recovering s : idle (shape s0) -> reachable b s0 recovering s -> hurt (shape s).
Proof.
  intros Hi Hr. pose proof (reachable_shape _ _ _ Hi Hr) as H. destruct recovering; [done|by apply resting_hurt].
Qed.

Lemma resting_status (s : XactState CommitTs) : resting (shape s) -> TransactionBlockStatusCode s = status_code (session s).
Proof.
  intros [Hs Hni]. unfold TransactionBlockStatusCode, session. rewrite (current_block_shape s _ eq_refl).
  destruct (decide (f_block (cur_frame (shape s)) = TBLOCK_DEFAULT)) as [Hd|Hd].
  - destruct (shape s) as [t l]. destruct (wf_default t l (proj1 Hs) Hd) as (t' & [= <- ->] & Hb & _).
    unfold cur_frame. simpl. by rewrite Hb.
  - destruct (active_inv _ (settled_active _ Hs Hd)) as [t Ht|t Ht|t l Hl|t Ht|t f l Hf Hl].
    3: by destruct (live_block _ _ Hl) as [-> | ->].
    all: unfold cur_frame; simpl; by rewrite ?Ht, ?Hf.
Qed.

(** The stacks of levels in which a session rests: no block state waits for a
    command boundary to complete it. *)
Inductive stands_for : Session -> Shape -> Prop :=
| stands_idle t : f_block t = TBLOCK_DEFAULT -> stands_for Idle (t, [])
| stands_block t l :
    f_block t = TBLOCK_INPROGRESS -> Forall (fun f => f_block f = TBLOCK_SUBINPROGRESS) l ->
    stands_for (InBlock (f_name <$> l)) (t, l)
| stands_failed t : f_block t = TBLOCK_ABORT -> stands_for (Failed []) (t, [])
| stands_failed_sub t f l :
    f_block f = TBLOCK_SUBABORT -> f_block t = TBLOCK_INPROGRESS -> Forall (fun f => f_block f = TBLOCK_SUBINPROGRESS) l ->
    stands_for (Failed (f_name <$> f :: l)) (t, f :: l).

Lemma resting_stands v : resting v -> stands_for (session_of v.1 v.2) v.
Proof.
  intros [Hs Hni]. destruct (decide (f_block (cur_frame v) = TBLOCK_DEFAULT)) as [Hd|Hd].
  - destruct v as [t l]. destruct (wf_default t l (proj1 Hs) Hd) as (t' & [= <- ->] & Hb & _). cbn. rewrite Hb. by constructor.
  - pose proof Hs as [_ Hi]. destruct (active_inv _ (settled_active _ Hs Hd)) as [t Ht|t Ht|t l [Ht Hl]|t Ht|t f l Hf [Ht Hl]];
      [|done|by constructor..].
    exfalso. unfold in_blocks, cur_frame in Hi. cbn in Hi. rewrite Ht in Hi. by apply bool_decide_eq_true in Hi; set_solver.
Qed.

(** C6. No unexpected state: in a session that starts idle, whatever messages
    arrive and wherever called routines report errors, no message and no error
    recovery ends in FATAL; between messages the stack of block states is
    sound and agrees with the low-level transaction states; and from every
    point, AbortOutOfAnyTransaction leaves no transaction unless a called
    routine fails. *)
Theorem session_safe s0 recovering s :
  idle (shape s0) -> reachable b s0 recovering s ->
  (recovering = false -> wf (shape s)) /\
  (forall e l r s', recovering = false -> exec_simple_query b l e s = (inl r, s') -> contained r) /\
  (forall e r s', recover b e s = (inl r, s') -> contained r) /\
  (forall e, match AbortOutOfAnyTransaction e s with
             | (inr _, s') => idle (shape s')
             | (inl r, _) => contained r
             end).
Proof.
  intros Hi Hr. pose proof (reachable_hurt _ _ _ Hi Hr) as Hh. pose proof (reachable_shape _ _ _ Hi Hr) as Hs.
  split; [intros ->; apply Hs|]. split; [|split].
  - intros e l r s' -> Hq. pose proof (exec_simple_query_safe b l _ Hs e I s eq_refl) as H. rewrite Hq in H. apply H.
  - intros e r s' Hq. pose proof (recover_safe b _ Hh e I s eq_refl) as H. rewrite Hq in H. apply H.
  - intros e. pose proof (AbortOutOfAnyTransaction_safe _ Hh e I s eq_refl) as H.
    destruct (AbortOutOfAnyTransaction e s) as [[r|[]] s']; [apply H|exact H].
Qed.

(** C8. A session does what its specification says: a message that succeeds
    takes the session to the specified state (blocks, chained blocks, the
    stack of savepoints after SAVEPOINT, RELEASE and ROLLBACK TO, implicit
    blocks of several statements), the status reported to the client is that
    of the session, and nothing is left pending: the levels on the stack are
    exactly those of the session, the savepoints with their names above the
    block, each in progress or, the innermost of a failed block, aborted. *)
Theorem session_refines s0 s e l s' :
  idle (shape s0) -> reachable b s0 false s -> exec_simple_query b l e s = (inr tt, s') ->
  spec_query l (session s) = Some (session s') /\ TransactionBlockStatusCode s' = status_code (session s')
  /\ stands_for (session s') (shape s').
Proof.
  intros Hi Hr Hq. pose proof (reachable_shape _ _ _ Hi Hr) as Hs.
  pose proof (exec_simple_query_safe b l _ Hs e I s eq_refl) as H. rewrite Hq in H. destruct H as [Hrest Hsp].
  split; [exact Hsp|]. split; [by apply resting_status|by apply resting_stands].
Qed.

(** C28. A failed statement: once the error handler has run, a query that
    failed has left a block in the failed state with all its savepoints, or no
    transaction where there was no block; a failed transaction statement has
    left no transaction, or a failed block whose savepoints are some of the
    outer ones.  No savepoint and no live block comes out of an error. *)
Theorem session_error s0 s e e' st r s1 s2 :
  idle (shape s0) -> reachable b s0 false s ->
  exec_simple_query b [st] e s = (inl r, s1) -> recover b e' s1 = (inr tt, s2) ->
  may_fail_as st (session s) (session s2) /\ TransactionBlockStatusCode s2 = status_code (session s2).
Proof.
  intros Hi Hr Hq Hrec. pose proof (reachable_shape _ _ _ Hi Hr) as Hs.
  pose proof (exec_simple_query_safe b [st] _ Hs e I s eq_refl) as H. rewrite Hq in H. destruct H as (_ & Hh & Hf).
  pose proof (recover_safe b _ Hh e' I s1 eq_refl) as H. rewrite Hrec in H. destruct H as [Hrest Hse].
  split; [|by apply resting_status]. unfold session at 2. rewrite Hse. by apply Hf.
Qed.

End Sessions.

(** ** A session *)

(** Queries advance the command counter or report an error. *)
Definition example_backend : Backend unit bool :=
  mkBackend _ _ (ret tt) (fun _ => ret tt)
    (fun q : bool => if q then upd_glob (fun g => set_command (currentCommandId g) true g);; CommandCounterIncrement
              else raise ERROR "division by zero")
    (ret tt) (fun _ _ => ret tt) (ret tt) false.

#[export] Instance example_backend_laws : BackendLaws example_backend.
Proof. split; intros; try apply quiet_ret. destruct q; simpl; quiet_tac. Qed.

Lemma fresh_idle : idle (shape fresh_backend).
Proof. eexists. repeat split; simpl; lia. Qed.

Definition begin_savepoint : list (Stmt bool) :=
  [TransactionStmt TRANS_STMT_BEGIN; OtherStmt true; TransactionStmt (TRANS_STMT_SAVEPOINT "a")].

Definition in_savepoint : XactState unit := after (exec_simple_query example_backend begin_savepoint) fresh_backend.

Lemma in_savepoint_reachable : reachable example_backend fresh_backend false in_savepoint.
Proof.
  apply (reach_query example_backend fresh_backend no_errors begin_savepoint fresh_backend in_savepoint);
    [apply reach_init|]. vm_compute. reflexivity.
Qed.

Definition broken : XactState unit := after (exec_simple_query example_backend [OtherStmt false]) in_savepoint.

Lemma session_safe_witness :
  wf (shape in_savepoint) /\
  match AbortOutOfAnyTransaction no_errors broken with
  | (inr _, s') => idle (shape s')
  | (inl r, _) => contained r
  end.
Proof.
  split.
  - exact (proj1 (session_safe example_backend fresh_backend false in_savepoint fresh_idle in_savepoint_reachable) eq_refl).
  - refine (proj2 (proj2 (proj2 (session_safe example_backend fresh_backend true broken fresh_idle _))) no_errors).
    eapply (reach_error example_backend fresh_backend no_errors [OtherStmt false] in_savepoint);
      [exact in_savepoint_reachable|vm_compute; reflexivity].
Defined.

Lemma session_refines_witness :
  let s' := after (exec_simple_query example_backend [TransactionStmt (TRANS_STMT_ROLLBACK_TO "a")]) in_savepoint in
  session in_savepoint = InBlock [Some "a"%string] /\ session s' = InBlock [Some "a"%string] /\
  spec_query [@TransactionStmt bool (TRANS_STMT_ROLLBACK_TO "a")] (session in_savepoint) = Some (session s').
Proof.
  split; [vm_compute; reflexivity|]. split; [vm_compute; reflexivity|].
  refine (proj1 (session_refines example_backend fresh_backend in_savepoint no_errors _ _ fresh_idle
                   in_savepoint_reachable _)). vm_compute. reflexivity.
Defined.

Lemma session_error_witness :
  session (after (recover example_backend) broken) = Failed [Some "a"%string] /\
  may_fail_as (@OtherStmt bool false) (session in_savepoint) (session (after (recover example_backend) broken)).
Proof.
  split; [vm_compute; reflexivity|].
  refine (proj1 (session_error example_backend fresh_backend in_savepoint no_errors no_errors _ _ broken _ fresh_idle
                   in_savepoint_reachable _ _)); vm_compute; reflexivity.
Defined.
